(* ===== verification/_CoqProject ===== *)
-Q . S2P
Prelude.v
Bytes.v
Cstring.v
Memory.v
Spinlock.v
ProcDefs.v
Proc.v
Kthread.v
ProcRun.v
KSpec.v
KRefine.v
KInv.v
KCalls.v
KExit.v
KSystem.v
Kalloc.v
Vm.v
VmMap.v
VmCopy.v
FsDefs.v
Bio.v
BioRing.v
BioSpec.v
BioOps.v
BioSeq.v
Log.v
LogSpec.v
LogCrash.v
LogTheorems.v
Fs.v
File.v
Sysfile.v
Ring.v
PipeSpec.v
PathSpec.v
FsCodec.v
FsTx.v
FsBlocks.v
FsMap.v
FsFile.v
FsRw.v
FileSpec.v
FsWrite.v
FsTheorems.v
User.v
MutexTable.v
Umalloc.v
UmallocSpec.v
UmallocMalloc.v
UmallocTheorems.v
Tournament.v
TournamentSpec.v
TournamentInv.v
TournamentTheorems.v
Grep.v
Printf.v
Kbd.v
Console.v
ConsoleTheorems.v
Sh.v
ShSpec.v
ShTheorems.v
ShRun.v
Exec.v
ExecSpec.v
ExecTheorems.v
Ide.v
IdeSpec.v
IdeTheorems.v
Trap.v
TrapSpec.v
Mp.v
Lapic.v
LapicSpec.v
Boot.v
Segments.v
Mkfs.v
MkfsSpec.v
MkfsTheorems.v
Utils.v
