(* ===== verification/Prelude.v ===== *)
(** * xv6 with kernel threads and synchronisation: a verification

    The program (src/Ass2) is the xv6 teaching kernel for 32-bit x86, extended with
    threads inside a process, mutexes for them, and a user-level tournament-tree
    lock.  This library is a shallow embedding: C functions are Rocq functions,
    state is explicit, and definitions keep the names of the source.

    ** How code is modelled

    An operation on a state [S] is an [M S R A] (this file): [Ret] a result, [Panic]
    the kernel's panic, [Undef] an access that C or the hardware leaves undefined,
    [Stop] the point where the code gives up the processor (sched, sleep, a contended
    spin lock), with the reason in [R].  Code that sleeps in a loop is the body of the
    loop: one pass at the call and one at every resumption.  Integers are [Z] with
    the wrap-around of their width written out ([u8], [u32], [s32] ...).  A pointer
    into a kernel table is the index of the slot.  Printing by cprintf is left out
    except in the console's own model.

    ** The parts of the system, and the files that model them

    - Prelude.v: the monad, machine integers, record update, hints and tactics.
      Bytes.v: little-endian integers in byte arrays.  Cstring.v, Memory.v: string.c
      and ulib.c.
    - Spinlock.v: spinlock.c, the processors and their interrupt flags.
    - ProcDefs.v, Proc.v, Kthread.v: proc.c, proc.h, kthread.h: the process, thread
      and mutex tables; fork, exit, wait, the kthread calls, the scheduler, sleep and
      wakeup; [resume_thread] is a thread that is switched to.  The file system and
      virtual memory are reached through the class [Services]; [onf] and [onw] make such
      a call for the running process and for an interrupt, with its wakeups and what it
      changes of the process.
    - KSpec.v to KSystem.v: the tables as a transition system ([prim]), the proof that
      every function of proc.c follows it (KRefine.v has the rules and tactics,
      KCalls.v, KExit.v the functions), and its invariants (KInv.v).
    - Exec.v: exec.c with elf.h, over the class [ExecServices].  ExecSpec.v,
      ExecTheorems.v have its theorems; exec runs on the user memory of vm.c.
    - Trap.v, TrapSpec.v: syscall.c, sysproc.c and trap.c, on the whole kernel: the
      process table with the file system, the IDE driver, the console and the memory
      of the other files beside it ([kernel_services], [kernel_exec]).
    - Kalloc.v: kalloc.c.  Vm.v: vm.c.  VmMap.v, VmCopy.v: what page tables map, and
      copying to user memory.
    - FsDefs.v: the file system's state [fsys D], parametric in the disk driver [D]
      (class [Driver]), and sleeplock.c.  Bio.v: bio.c and memide.c.
      Log.v: log.c.  Fs.v: fs.c.  File.v: file.c and pipe.c.  Sysfile.v: sysfile.c and
      the argument functions of syscall.c.
    - BioRing.v, BioSpec.v, BioOps.v, BioSeq.v: the buffer cache against the contract
      [DriverSpec] of a disk.  LogSpec.v, LogCrash.v, LogTheorems.v: the log.
      FsCodec.v, FsTx.v, FsBlocks.v, FsMap.v, FsFile.v, FsRw.v, FsWrite.v,
      FsTheorems.v: files on top of both.  FileSpec.v, PathSpec.v: the file table, paths.
    - Ide.v, IdeSpec.v, IdeTheorems.v: ide.c on ports ([Ports]) behind which
      any disk with the ATA interface may be ([AtaDisk]).
    - Mp.v: mp.c and mp.h, the tables in which a machine describes its processors.
      Lapic.v: lapic.c, ioapic.c and picirq.c, on registers that are an interface
      ([Mmio]); LapicSpec.v describes the clock and the I/O APIC.
    - Mkfs.v: mkfs.c, the program that writes the first disk.  MkfsSpec.v,
      MkfsTheorems.v: what it writes, in the terms of the files of FsMap.v and FsRw.v.
    - Ring.v, PipeSpec.v: pipes.  Kbd.v, Console.v, ConsoleTheorems.v:
      kbd.c, console.c, uart.c.
    - User.v: user code as trees of memory accesses and system calls, interleaved step
      by step; [MutexSpec] is what it may assume of the kernel's mutexes, MutexTable.v
      discharges it.  Umalloc.v: umalloc.c, and UmallocSpec.v to UmallocTheorems.v:
      the heap as a tiling by blocks.  Tournament.v: tournament_tree.c, with
      TournamentSpec.v, TournamentInv.v, TournamentTheorems.v.
    - Sh.v, ShSpec.v, ShTheorems.v, ShRun.v: sh.c.  Grep.v, Printf.v:
      grep.c and printf.c.  Utils.v: wc.c, echo.c, cat.c and ls.c.
    - Boot.v: bootmain.c, the loader that reads the kernel from the disk, on the same
      ports.  Segments.v: the descriptors of mmu.h, seginit of vm.c, tvinit and idtinit of
      trap.c, and the first page directory of main.c.

    ** What the theorems show

    - Threads and mutexes: every kernel call and every trap, whatever its number and
      arguments, changes the tables only by the steps of the transition system; so the
      tables stay well formed, identifiers are unique, and a locked mutex keeps its
      owner, a slot of the thread table, until the thread in that slot unlocks it.  A trap
      is a run of the whole kernel, file calls and device interrupts included; a run that
      sleeps inside the file system is followed up to that point.  The scheduler dispatches into the situation
      calls start from.  A spin lock has one holder.
    - The tournament tree: mutual exclusion and absence of deadlock for 2^depth threads
      in every interleaving, on the mutex interface that the kernel implements.
    - The log: a commit is atomic across a crash after any of its disk writes, and what
      end_op returns from is durable.  Files: a write is read back, changes nothing
      else and fits the log; a write of up to 1536 bytes, which is one transaction, is
      atomic across crashes (a longer one is several transactions, and the theorem does
      not cover it).  Directory paths, the on-disk
      inode and the reference counts of open files agree with reference definitions.
      mkfs writes a file system with exactly the files it is given.
    - Disk driver, pipes, console: any interleaving of callers and interrupts refines a
      queue of requests, a bounded FIFO, a line editor; requests complete and wakeups
      are not lost.  The keyboard decoder turns every history of key presses and releases
      into the characters that the maps and the modifiers held say.
    - Memory: the page allocator is a stack of pages, mappages and copyout do exactly
      what they are asked, memset and memmove do what the C library's do.  In every
      sequence of calls of malloc, for at most 2^31 - 16 bytes each, and free the blocks
      of a program are its own and keep their bytes.
    - Machine set-up: the boot loader fills memory with the segments of the kernel and
      enters it; the first page directory maps what it says; every interrupt enters the
      kernel at its vector, and a user program's int instruction only for a system call.
      mpinit records the processors of the table, or never ends;
      cmostime gives a time that the clock showed; the I/O APIC sends an interrupt where
      it is enabled to, and masks the others.
    - exec: it releases what it takes on every path, and starts a program with its
      arguments on the stack, in the memory that vm.c provides.
    - User programs: the shell's parser decides its grammar and a printed command runs as
      written; grep's matcher decides its patterns; printf and atoi are inverse; wc counts
      and cat copies whatever the sizes of their reads; ls prints a line per entry.
    - Where the code does not do what it means to, a theorem says what it does: the
      space begin_op promises, a killed pipe writer, copyout without a page table, trees
      of depth 0 or in recycled memory, a line that reaches grep in two reads, an unknown
      entry in the processor table, requests of 2 and of 4 GB to malloc, a mutex whose owner
      has ended, a root directory that fills its blocks.

    ** Fuel and bounds

    Loops over tables and lists are structural.  Loops over pages (Vm.v) get one round
    per page of their range and one to leave, the loops of kalloc.c likewise.  namex gets
    one round per byte of the path, readi and writei one per block and one to leave,
    filewrite one per transaction and one to leave, iappend of mkfs.c one per byte and
    one to leave, the shell's parser a number of nested calls linear in the line; the
    theorems about these functions show that the rounds suffice.  The loops of umalloc.c,
    mpinit and cmostime take fuel as an argument: two turns per block of the heap and
    four more, 8192 turns and 198 turns are shown to be enough.  So does the wait for the
    IDE disk ([spins]) in the driver and in the boot loader: the disk is assumed to be
    ready within it.  readseg of the loader gets a round per sector and one to leave.  The counters of
    processes, threads and mutexes, which the code never reuses, are assumed to be below
    2^31 - 1 ([counters_room]).

    ** Not modelled

    - Start-up by main.c (main and startothers call the initialisers and start the other
      processors), kvmalloc of vm.c, uartinit of uart.c, and assembly (bootasm.S, entry.S,
      entryother.S, swtch.S, trapasm.S, initcode.S, usys.S): they set up the machine state
      that the models start from.
    - The scripts of the build; the test programs (usertests.c, forktest.c, stressfs.c,
      sanity.c, test1.c).
    - The small user programs kill.c, ln.c, mkdir.c, rm.c, init.c, zombie.c and helper1.c:
      sequences of system calls without state of their own.
    - What a thread does after it has slept inside file system code that a process calls:
      Trap.v ends the run there ([KBlocked]), with the locks, wakeups and tables as the
      code has left them.  The waits of proc.c itself are resumed by [resume_thread], those
      of the driver, pipes and console in their own files.
    - The task state segment's descriptor in switchuvm, lapiceoi in trap, and the
      wrap-around of the reference counts of files and inodes at 2^31.
    - Weak memory: processors see each other's writes in order. *)
From Stdlib Require Export ZArith Lia.
From stdpp Require Export prelude gmap strings functions.
From stdpp Require Export list.

#[export] Set Default Goal Selector "!".

(** ** Machine integers *)

Declare Scope cint_scope.
Delimit Scope cint_scope with cint.
Local Open Scope Z_scope.

(** [u8], [u16], [u32]: conversion to an unsigned C type of that width. *)
Definition u8 (z : Z) : Z := z mod 2 ^ 8.
Definition u16 (z : Z) : Z := z mod 2 ^ 16.
Definition u32 (z : Z) : Z := z mod 2 ^ 32.

(** [s8], [s16], [s32]: conversion to a signed (two's complement) C type. *)
Definition s8 (z : Z) : Z := (z + 2 ^ 7) mod 2 ^ 8 - 2 ^ 7.
Definition s16 (z : Z) : Z := (z + 2 ^ 15) mod 2 ^ 16 - 2 ^ 15.
Definition s32 (z : Z) : Z := (z + 2 ^ 31) mod 2 ^ 32 - 2 ^ 31.

(** A C truth value. *)
Definition c_true (z : Z) : bool := negb (z =? 0).

(** ** Record update

    [r <| f := v |>] is the record [r] with field [f] replaced, and
    [r <| f ::= g |>] applies [g] to the field.  A record supplies its
    eta-expansion as an instance of [Eta]; the setter of one projection is
    found by abstracting that projection out of the expansion. *)
Class Eta (R : Type) := eta : R -> R.
Class Setter {R T : Type} (proj : R -> T) := Build_Setter { setter : (T -> T) -> R -> R }.

Ltac derive_setter :=
  lazymatch goal with
  | |- @Setter ?R ?T ?proj =>
    let inst := constr:(_ : Eta R) in
    let g := constr:(fun (f : T -> T) (r : R) =>
      ltac:(let body := eval hnf in (inst r) in
            let pat := eval pattern (proj r) in body in
            lazymatch pat with
            | ?h _ => let b := eval cbv beta in (h (f (proj r))) in
                      tryif constr_eq b body then fail else exact b
            end)) in
    exact (Build_Setter R T proj g)
  end.

#[export] Hint Extern 1 (Setter _) => derive_setter : typeclass_instances.

Declare Scope record_scope.
Delimit Scope record_scope with rec.
Notation "r <| f := v |>" := (setter (proj := f) (fun _ => v) r)
  (at level 12, left associativity, f at level 10, v at level 100).
Notation "r <| f ::= g |>" := (setter (proj := f) g r)
  (at level 12, left associativity, f at level 10, g at level 100).

(** ** Outcomes of running code on one processor

    A run of kernel code from a state either returns a value, panics (the
    source's [panic(msg)]), does something C leaves undefined (a null
    dereference, an index outside its array), or stops because the processor
    cannot continue: it spins on a lock, or the thread gave the processor up.
    What "stops" means is the component's type [R]. *)
Inductive outcome (S R A : Type) : Type :=
| Ret (a : A) (s : S)
| Panic (msg : string) (s : S)
| Undef (msg : string) (s : S)
| Stop (r : R) (s : S).
Arguments Ret {S R A} a s.
Arguments Panic {S R A} msg s.
Arguments Undef {S R A} msg s.
Arguments Stop {S R A} r s.

Definition M (S R A : Type) : Type := S -> outcome S R A.

Declare Scope kernel_scope.
Delimit Scope kernel_scope with kernel.

Section Monad.
Context {S R : Type}.

Definition ret {A} (a : A) : M S R A := fun s => Ret a s.
Definition bind {A B} (m : M S R A) (f : A -> M S R B) : M S R B :=
  fun s => match m s with
           | Ret a s' => f a s'
           | Panic msg s' => Panic msg s'
           | Undef msg s' => Undef msg s'
           | Stop r s' => Stop r s'
           end.
Definition gets {A} (f : S -> A) : M S R A := fun s => Ret (f s) s.
Definition modify (f : S -> S) : M S R unit := fun s => Ret tt (f s).
Definition panic {A} (msg : string) : M S R A := fun s => Panic msg s.
Definition undef {A} (msg : string) : M S R A := fun s => Undef msg s.
Definition stop {A} (r : R) : M S R A := fun s => Stop r s.
Definition whenM (b : bool) (m : M S R unit) : M S R unit :=
  if b then m else ret tt.
(** The content of a pointer; [None] is the null pointer. *)
Definition derefM {A} (what : string) (o : option A) : M S R A :=
  match o with Some a => ret a | None => undef what end.

(** [for (x in l) body x]. *)
Fixpoint forM {A} (l : list A) (body : A -> M S R unit) : M S R unit :=
  match l with
  | [] => ret tt
  | x :: l' => bind (body x) (fun _ => forM l' body)
  end.
End Monad.

Notation "'do' x <- m ; k" := (bind m (fun x => k))
  (at level 10, x name, m at level 99, k at level 200) : kernel_scope.
Notation "'do' ' p <- m ; k" := (bind m (fun p => k))
  (at level 10, p strict pattern, m at level 99, k at level 200) : kernel_scope.
Notation "m ;; k" := (bind m (fun _ => k))
  (at level 100, k at level 200, right associativity) : kernel_scope.

(** A component's own spin lock, seen from the processor that runs its code: a
    flag that [acquire] finds clear and [release] finds set. *)
Definition lock_acq {S R} (get : S -> bool) (put : bool -> S -> S) : M S R unit :=
  bind (gets get) (fun h => if h then panic "acquire" else modify (put true)).
Definition lock_rel {S R} (get : S -> bool) (put : bool -> S -> S) : M S R unit :=
  bind (gets get) (fun h => if h then modify (put false) else panic "release").

(** Code of a component run inside a larger state. *)
Definition zoom {S T R R' A} (get : S -> T) (put : T -> S -> S) (why : R -> R')
    (m : M T R A) : M S R' A :=
  fun s => match m (get s) with
           | Ret a t => Ret a (put t s)
           | Panic msg t => Panic msg (put t s)
           | Undef msg t => Undef msg (put t s)
           | Stop r t => Stop (why r) (put t s)
           end.

(** ** Specifications of runs

    [sat o Q W]: the outcome is not a panic and not undefined; a return
    satisfies [Q] and a stop satisfies [W]. *)
Definition sat {S R A} (o : outcome S R A) (Q : A -> S -> Prop) (W : R -> S -> Prop) : Prop :=
  match o with
  | Ret a s => Q a s
  | Stop r s => W r s
  | Panic _ _ | Undef _ _ => False
  end.

Section Sat.
Context {S R : Type}.

Lemma sat_ret {A} (a : A) (s : S) (Q : A -> S -> Prop) (W : R -> S -> Prop) :
  Q a s -> sat (ret a s) Q W.
Proof. done. Qed.

Lemma sat_bind {A B} (m : M S R A) (f : A -> M S R B) s Q W :
  sat (m s) (fun a s' => sat (f a s') Q W) W -> sat (bind m f s) Q W.
Proof. unfold bind. destruct (m s); simpl; done. Qed.

Lemma sat_mono {A} (o : outcome S R A) Q W (Q' : A -> S -> Prop) (W' : R -> S -> Prop) :
  sat o Q W -> (forall a s, Q a s -> Q' a s) -> (forall r s, W r s -> W' r s) -> sat o Q' W'.
Proof. destruct o; simpl; naive_solver. Qed.

Lemma sat_forM {A} (I : S -> Prop) (W : R -> S -> Prop) (l : list A) (body : A -> M S R unit) s :
  I s ->
  (forall x s, x ∈ l -> I s -> sat (body x s) (fun _ => I) W) ->
  sat (forM l body s) (fun _ => I) W.
Proof.
  revert s. induction l as [|x l IH]; intros s Hs Hb; simpl; [done|].
  apply sat_bind. eapply sat_mono; [apply Hb; [by left|done] | | done].
  intros ? s' Hs'. apply IH; [done|]. intros y t Hy. apply Hb. by right.
Qed.

Lemma bind_ret_eq {A B} (m : M S R A) (f : A -> M S R B) s a s' :
  m s = Ret a s' -> bind m f s = f a s'.
Proof. unfold bind. by intros ->. Qed.

Lemma bind_gets {A B} (g : S -> A) (f : A -> M S R B) s : bind (gets g) f s = f (g s) s.
Proof. done. Qed.

Lemma bind_modify {B} (g : S -> S) (f : unit -> M S R B) s : bind (modify g) f s = f tt (g s).
Proof. done. Qed.

Lemma bind_ret {A B} (a : A) (f : A -> M S R B) s : bind (ret a) f s = f a s.
Proof. done. Qed.

Lemma bind_deref {A B} w (a : A) (f : A -> M S R B) s : bind (derefM w (Some a)) f s = f a s.
Proof. done. Qed.

Lemma bind_inv {A B} (m : M S R A) (f : A -> M S R B) s b s' :
  bind m f s = Ret b s' -> exists a s1, m s = Ret a s1 /\ f a s1 = Ret b s'.
Proof. unfold bind. destruct (m s); naive_solver. Qed.

Lemma bind_assoc {A B C} (m : M S R A) (f : A -> M S R B) (g : B -> M S R C) s :
  bind (bind m f) g s = bind m (fun a => bind (f a) g) s.
Proof. unfold bind. by destruct (m s). Qed.
End Sat.

(** [psat o Q W]: like [sat], but an outcome that ends the machine (a panic, or
    undefined behaviour) satisfies it: what is left to say is about runs that
    go on. *)
Definition psat {S R A} (o : outcome S R A) (Q : A -> S -> Prop) (W : R -> S -> Prop) : Prop :=
  match o with
  | Ret a s => Q a s
  | Stop r s => W r s
  | Panic _ _ | Undef _ _ => True
  end.

Section Psat.
Context {S R : Type}.

Lemma psat_bind {A B} (m : M S R A) (f : A -> M S R B) s Q W :
  psat (m s) (fun a s' => psat (f a s') Q W) W -> psat (bind m f s) Q W.
Proof. unfold bind. destruct (m s); simpl; done. Qed.

Lemma psat_mono {A} (o : outcome S R A) Q W (Q' : A -> S -> Prop) (W' : R -> S -> Prop) :
  psat o Q W -> (forall a s, Q a s -> Q' a s) -> (forall r s, W r s -> W' r s) -> psat o Q' W'.
Proof. destruct o; simpl; naive_solver. Qed.

Lemma psat_deref {A} w (o : option A) s (Q : A -> S -> Prop) (W : R -> S -> Prop) :
  (forall a, o = Some a -> Q a s) -> psat (derefM w o s) Q W.
Proof. destruct o; simpl; naive_solver. Qed.

Lemma psat_forM {A} (I : S -> Prop) (W : R -> S -> Prop) (l : list A) (body : A -> M S R unit) s :
  I s ->
  (forall x s, x ∈ l -> I s -> psat (body x s) (fun _ => I) W) ->
  psat (forM l body s) (fun _ => I) W.
Proof.
  revert s. induction l as [|x l IH]; intros s Hs Hb; simpl; [done|].
  apply psat_bind. eapply psat_mono; [apply Hb; [by left|done] | | done].
  intros ? s' Hs'. apply IH; [done|]. intros y t Hy. apply Hb. by right.
Qed.
End Psat.

(** ** Proof automation shared by the components *)

Create HintDb xv6.
Create Rewrite HintDb xv6.

(** Case analysis on the [if]s and [match]es of a definition that runs. *)
Ltac break_match :=
  match goal with
  | |- context [match ?x with _ => _ end] => destruct x eqn:?
  | H : context [match ?x with _ => _ end] |- _ => destruct x eqn:?
  end.

(** Boolean tests of the code as propositions. *)
Ltac to_prop :=
  repeat match goal with
  | H : _ && _ = true |- _ => apply andb_prop in H as [? ?]
  | H : _ || _ = false |- _ => apply orb_false_elim in H as [? ?]
  | H : negb _ = true |- _ => apply negb_true_iff in H
  | H : negb _ = false |- _ => apply negb_false_iff in H
  | H : (_ =? _)%Z = true |- _ => apply Z.eqb_eq in H
  | H : (_ =? _)%Z = false |- _ => apply Z.eqb_neq in H
  | H : (_ <? _)%Z = true |- _ => apply Z.ltb_lt in H
  | H : (_ <? _)%Z = false |- _ => apply Z.ltb_ge in H
  | H : (_ <=? _)%Z = true |- _ => apply Z.leb_le in H
  | H : (_ <=? _)%Z = false |- _ => apply Z.leb_gt in H
  | H : bool_decide _ = true |- _ => apply bool_decide_eq_true_1 in H
  | H : bool_decide _ = false |- _ => apply bool_decide_eq_false_1 in H
  end.

(** ** Integers *)

Lemma u32_range z : 0 <= u32 z < 2 ^ 32.
Proof. unfold u32. apply Z.mod_pos_bound. lia. Qed.

Lemma u32_small z : 0 <= z < 2 ^ 32 -> u32 z = z.
Proof. apply Z.mod_small. Qed.

Lemma s32_small z : - 2 ^ 31 <= z < 2 ^ 31 -> s32 z = z.
Proof. intros. unfold s32. rewrite Z.mod_small; lia. Qed.

Lemma s32_range z : - 2 ^ 31 <= s32 z < 2 ^ 31.
Proof. unfold s32. pose proof (Z.mod_pos_bound (z + 2 ^ 31) (2 ^ 32)). lia. Qed.

Lemma u32_u32 z : u32 (u32 z) = u32 z.
Proof. unfold u32. by rewrite Z.mod_mod by lia. Qed.

Lemma u8_range z : 0 <= u8 z < 256.
Proof. unfold u8. apply Z.mod_pos_bound. lia. Qed.

Lemma u8_small z : 0 <= z < 256 -> u8 z = z.
Proof. apply Z.mod_small. Qed.

#[export] Hint Resolve u32_range s32_range u8_range : xv6.

(** ** Lists *)

Lemma Forall_alter {A} (P : A -> Prop) (f : A -> A) (i : nat) (l : list A) :
  Forall P l -> (forall x, l !! i = Some x -> P x -> P (f x)) -> Forall P (alter f i l).
Proof.
  intros Hl Hf. apply Forall_lookup. intros j y Hy.
  destruct (decide (i = j)) as [->|Hne].
  - rewrite list_lookup_alter_eq in Hy.
    destruct (l !! j) as [x|] eqn:Hx; simplify_eq/=.
    apply Hf; [done|]. by eapply Forall_lookup_1.
  - rewrite list_lookup_alter_ne in Hy by done. by eapply Forall_lookup_1.
Qed.

Lemma list_alter_insert {A} (f : A -> A) i (l : list A) x :
  l !! i = Some x -> alter f i l = <[i := f x]> l.
Proof.
  intros Hx. apply list_eq. intros j. destruct (decide (i = j)) as [->|].
  - rewrite list_lookup_alter_eq, list_lookup_insert_eq by (by eapply lookup_lt_Some). by rewrite Hx.
  - by rewrite list_lookup_alter_ne, list_lookup_insert_ne.
Qed.

Lemma list_alter_alter {A} (f g : A -> A) i (l : list A) :
  alter f i (alter g i l) = alter (f ∘ g) i l.
Proof. revert i. induction l as [|x l IH]; intros [|i]; cbn; [done..|]. f_equal. apply IH. Qed.
