(* ===== verification/Bytes.v ===== *)
(** * Integers in byte arrays

    The on-disk structures of fs.h and log.c are read and written through
    pointers into the 512 data bytes of a disk buffer.  Here a byte array is a
    list of bytes and [ld]/[st] are a load and a store of a little-endian
    integer of [n] bytes at an offset; [None] is an access outside the array. *)
From S2P Require Import Prelude.
Local Open Scope Z_scope.

(** The [n] bytes of [v], least significant first, and back. *)
Fixpoint le_bytes (n : nat) (v : Z) : list Z :=
  match n with O => [] | S n' => v mod 256 :: le_bytes n' (v / 256) end.
Fixpoint le_value (l : list Z) : Z :=
  match l with [] => 0 | b :: l' => b + 256 * le_value l' end.

(** [sub o n l]: the [n] bytes of [l] from offset [o]. *)
Definition sub (o n : nat) (l : list Z) : option (list Z) :=
  if decide (o + n <= length l)%nat then Some (take n (drop o l)) else None.
(** [splice o d l]: [l] with the bytes from offset [o] replaced by [d]. *)
Definition splice (o : nat) (d l : list Z) : option (list Z) :=
  if decide (o + length d <= length l)%nat
  then Some (take o l ++ d ++ drop (o + length d) l) else None.

Definition ld (n o : nat) (l : list Z) : option Z := le_value <$> sub o n l.
Definition st (n o : nat) (v : Z) (l : list Z) : option (list Z) := splice o (le_bytes n v) l.

Definition is_byte (b : Z) : Prop := 0 <= b < 256.

(** ** Laws *)

Lemma le_bytes_length n v : length (le_bytes n v) = n.
Proof. revert v. induction n; intros; simpl; auto. Qed.

Lemma le_bytes_bytes n v : Forall is_byte (le_bytes n v).
Proof.
  revert v. induction n; intros; simpl; constructor; auto.
  apply Z.mod_pos_bound. lia.
Qed.

Lemma le_value_bytes n v : le_value (le_bytes n v) = v mod 256 ^ Z.of_nat n.
Proof.
  revert v. induction n as [|n IH]; intros v; [by rewrite Z.mod_1_r|].
  cbn [le_bytes le_value]. rewrite IH, Nat2Z.inj_succ, Z.pow_succ_r by lia.
  by rewrite (Z.rem_mul_r v 256 (256 ^ Z.of_nat n)) by lia.
Qed.

Lemma le_bytes_value l : Forall is_byte l -> le_bytes (length l) (le_value l) = l.
Proof.
  induction 1 as [|b l Hb Hl IH]; [done|]. cbn [length le_value le_bytes]. unfold is_byte in Hb.
  f_equal.
  - rewrite Z.mul_comm, Z.mod_add by lia. by apply Z.mod_small.
  - rewrite Z.mul_comm, Z.div_add by lia. rewrite Z.div_small by lia. done.
Qed.

Lemma le_value_range l : Forall is_byte l -> 0 <= le_value l < 256 ^ Z.of_nat (length l).
Proof.
  induction 1 as [|b l Hb Hl IH]; [done|]. cbn [length le_value]. unfold is_byte in Hb.
  rewrite Nat2Z.inj_succ, Z.pow_succ_r by lia. lia.
Qed.

Lemma splice_length o d l l' : splice o d l = Some l' -> length l' = length l.
Proof.
  unfold splice. case_decide; [|done]. intros [= <-].
  rewrite !length_app, length_take, length_drop. lia.
Qed.

Lemma splice_some o d l : (o + length d <= length l)%nat -> is_Some (splice o d l).
Proof. intros. unfold splice. rewrite decide_True by done. eauto. Qed.

Lemma sub_some o n l : (o + n <= length l)%nat -> is_Some (sub o n l).
Proof. intros. unfold sub. rewrite decide_True by done. eauto. Qed.

Lemma sub_length o n l d : sub o n l = Some d -> length d = n.
Proof. unfold sub. case_decide; [|done]. intros [= <-]. rewrite length_take, length_drop. lia. Qed.

Lemma sub_lookup o n l d k : sub o n l = Some d -> (k < n)%nat -> d !! k = l !! (o + k)%nat.
Proof.
  unfold sub. case_decide; [|done]. intros [= <-] Hk.
  by rewrite lookup_take_lt, lookup_drop by done.
Qed.

Lemma splice_lookup_in o d l l' k :
  splice o d l = Some l' -> (k < length d)%nat -> l' !! (o + k)%nat = d !! k.
Proof.
  unfold splice. case_decide; [|done]. intros [= <-] Hk.
  rewrite lookup_app_r by (rewrite length_take; lia).
  rewrite length_take, lookup_app_l by lia. f_equal. lia.
Qed.

Lemma splice_lookup_out o d l l' k :
  splice o d l = Some l' -> (k < o \/ o + length d <= k)%nat -> l' !! k = l !! k.
Proof.
  unfold splice. case_decide; [|done]. intros [= <-] [Hk|Hk].
  - rewrite lookup_app_l by (rewrite length_take; lia). by rewrite lookup_take_lt.
  - rewrite lookup_app_r by (rewrite length_take; lia).
    rewrite length_take, lookup_app_r by lia. rewrite lookup_drop. f_equal. lia.
Qed.

Lemma sub_splice_same o d l l' : splice o d l = Some l' -> sub o (length d) l' = Some d.
Proof.
  intros H. pose proof (splice_length _ _ _ _ H) as Hl.
  assert (o + length d <= length l)%nat by (revert H; unfold splice; by case_decide).
  destruct (sub_some o (length d) l') as [d' Hd]; [lia|]. rewrite Hd. f_equal.
  apply list_eq_same_length with (length d); [done|by eapply sub_length|].
  intros k x y Hk Hx Hy. rewrite (sub_lookup _ _ _ _ _ Hd), (splice_lookup_in _ _ _ _ _ H) in Hx by done.
  by simplify_eq.
Qed.

Lemma sub_splice_other o d l l' p n :
  splice o d l = Some l' -> (p + n <= o \/ o + length d <= p)%nat -> sub p n l' = sub p n l.
Proof.
  intros H Hd. unfold sub. rewrite (splice_length _ _ _ _ H). case_decide; [|done]. f_equal.
  apply list_eq. intros k. destruct (decide (k < n)%nat).
  - rewrite !lookup_take_lt, !lookup_drop by done. eapply splice_lookup_out; [done|lia].
  - by rewrite !lookup_take_ge by lia.
Qed.

Lemma st_length n o v l l' : st n o v l = Some l' -> length l' = length l.
Proof. apply splice_length. Qed.

Lemma st_some n o v l : (o + n <= length l)%nat -> is_Some (st n o v l).
Proof. intros. apply splice_some. by rewrite le_bytes_length. Qed.

Lemma ld_some n o l : (o + n <= length l)%nat -> is_Some (ld n o l).
Proof. intros H. unfold ld. destruct (sub_some _ _ _ H) as [d ->]. eauto. Qed.

Lemma ld_st_same n o v l l' : st n o v l = Some l' -> ld n o l' = Some (v mod 256 ^ Z.of_nat n).
Proof.
  unfold st, ld. intros H. pose proof (sub_splice_same _ _ _ _ H) as Hs.
  rewrite le_bytes_length in Hs. by rewrite Hs, <-le_value_bytes.
Qed.

Lemma ld_st_other n o v l l' p m :
  st n o v l = Some l' -> (p + m <= o \/ o + n <= p)%nat -> ld m p l' = ld m p l.
Proof.
  unfold st, ld. intros H Hd. by rewrite (sub_splice_other _ _ _ _ _ _ H) by (rewrite le_bytes_length; lia).
Qed.

#[export] Hint Resolve st_length splice_length le_bytes_bytes : xv6.
