(* ===== verification/Cstring.v ===== *)
(** * C strings: string.c and the string part of ulib.c

    A [char *] argument is the list of the bytes (0 to 255) from the pointer to
    the end of the object it points into.  A function that writes returns the
    new contents of the destination; [None] is an access outside the object. *)
From S2P Require Import Prelude.
Local Open Scope Z_scope.

(** Cons onto the rest of a destination that was written. *)
Definition ocons (x : Z) (o : option (list Z)) : option (list Z) := cons x <$> o.

(** ** string.c *)

(** [strncmp(p, q, n)]: while(n > 0 && *p && *p == *q) n--, p++, q++; *)
Fixpoint strncmp (p q : list Z) (n : nat) : option Z :=
  match n with
  | O => Some 0
  | S n' =>
    match p, q with
    | x :: p', y :: q' =>
      if negb (x =? 0) && (x =? y) then strncmp p' q' n' else Some (x - y)
    | _, _ => None
    end
  end.

(** while(n-- > 0) *s++ = 0; *)
Fixpoint zero_fill (s : list Z) (n : nat) : option (list Z) :=
  match n with
  | O => Some s
  | S n' => match s with [] => None | _ :: s' => ocons 0 (zero_fill s' n') end
  end.

(** [strncpy(s, t, n)]: the copy loop, then the fill with the count that is left. *)
Fixpoint strncpy (s t : list Z) (n : nat) : option (list Z) :=
  match n with
  | O => Some s
  | S n' =>
    match s, t with
    | _ :: s', x :: t' =>
      if x =? 0 then ocons 0 (zero_fill s' n') else ocons x (strncpy s' t' n')
    | _, _ => None
    end
  end.

(** The loop of [safestrcpy] with [k] copies left (the value of [--n]), and the
    final [*s = 0], which follows the copied NUL when there is one. *)
Fixpoint safestrcpy_loop (s t : list Z) (k : nat) : option (list Z) :=
  let finish (s : list Z) := match s with [] => None | _ :: s' => Some (0 :: s') end in
  match k with
  | O => finish s
  | S k' =>
    match s, t with
    | _ :: s', x :: t' =>
      if x =? 0 then ocons 0 (finish s') else ocons x (safestrcpy_loop s' t' k')
    | _, _ => None
    end
  end.

Definition safestrcpy (s t : list Z) (n : Z) : option (list Z) :=
  if n <=? 0 then Some s else safestrcpy_loop s t (Z.to_nat (n - 1)).

(** [strlen(s)]: for(n = 0; s[n]; n++) *)
Fixpoint strlen (s : list Z) : option nat :=
  match s with
  | [] => None
  | x :: s' => if x =? 0 then Some O else S <$> strlen s'
  end.

(** ** ulib.c *)

(** [strcpy(s, t)] *)
Fixpoint strcpy (s t : list Z) : option (list Z) :=
  match s, t with
  | _ :: s', x :: t' => if x =? 0 then Some (0 :: s') else ocons x (strcpy s' t')
  | _, _ => None
  end.

(** [strcmp(p, q)] *)
Fixpoint strcmp (p q : list Z) : option Z :=
  match p, q with
  | x :: p', y :: q' => if negb (x =? 0) && (x =? y) then strcmp p' q' else Some (x - y)
  | _, _ => None
  end.

(** [strchr(s, c)]: the rest of [s] from the first [c]; the inner [None] is the
    null pointer. *)
Fixpoint strchr (s : list Z) (c : Z) : option (option (list Z)) :=
  match s with
  | [] => None
  | x :: s' => if x =? 0 then Some None else if x =? c then Some (Some s) else strchr s' c
  end.

(** [atoi(s)]: n = n*10 + *s++ - '0' on [int]s. *)
Fixpoint atoi_loop (s : list Z) (n : Z) : option Z :=
  match s with
  | [] => None
  | x :: s' => if (48 <=? x) && (x <=? 57) then atoi_loop s' (s32 (n * 10 + x - 48)) else Some n
  end.
Definition atoi (s : list Z) : option Z := atoi_loop s 0.

(** ** Lengths: a copy stays inside its destination *)

Lemma safestrcpy_loop_length s t k l : safestrcpy_loop s t k = Some l -> length l = length s.
Proof.
  revert s t l. induction k as [|k IH]; intros [|y s] t l; simpl; try (intros; by simplify_eq).
  destruct t as [|x t]; [done|]. unfold ocons. case_match.
  - destruct s; intros; by simplify_eq/=.
  - intros (l' & Hl & ->)%fmap_Some. simpl. by rewrite (IH _ _ _ Hl).
Qed.

Lemma safestrcpy_length s t n l : safestrcpy s t n = Some l -> length l = length s.
Proof. unfold safestrcpy. case_match; [by intros [= <-]|]. apply safestrcpy_loop_length. Qed.
