(* ===== verification/Memory.v ===== *)
(** * Byte memory: the block operations of string.c and ulib.c

    Memory is a function from addresses to bytes.  An object never crosses the
    end of the address space, so pointer arithmetic is that of [Z].  A count is
    the number of times the loop runs. *)
From S2P Require Import Prelude.
Local Open Scope Z_scope.

Definition mem : Type := Z -> Z.
Definition store (m : mem) (a v : Z) : mem := fun b => if b =? a then u8 v else m b.

(** The little-endian word at [a]. *)
Definition load32 (m : mem) (a : Z) : Z :=
  m a + m (a + 1) * 2 ^ 8 + m (a + 2) * 2 ^ 16 + m (a + 3) * 2 ^ 24.
Definition store32 (m : mem) (a v : Z) : mem :=
  store (store (store (store m a v) (a + 1) (Z.shiftr v 8)) (a + 2) (Z.shiftr v 16)) (a + 3) (Z.shiftr v 24).

(** ** x86.h *)

(** rep stosb *)
Fixpoint stosb (m : mem) (addr data : Z) (cnt : nat) : mem :=
  match cnt with
  | O => m
  | S cnt' => stosb (store m addr data) (addr + 1) data cnt'
  end.

(** rep stosl *)
Fixpoint stosl (m : mem) (addr data : Z) (cnt : nat) : mem :=
  match cnt with
  | O => m
  | S cnt' => stosl (store32 m addr data) (addr + 4) data cnt'
  end.

(** ** string.c *)

Definition memset (m : mem) (dst c n : Z) : mem :=
  if (Z.rem (s32 dst) 4 =? 0) && (n mod 4 =? 0) then
    let c := Z.land c 0xFF in
    stosl m dst (Z.lor (Z.lor (Z.lor (Z.shiftl c 24) (Z.shiftl c 16)) (Z.shiftl c 8)) c) (Z.to_nat (n / 4))
  else stosb m dst c (Z.to_nat n).

Fixpoint memcmp (m : mem) (s1 s2 : Z) (n : nat) : Z :=
  match n with
  | O => 0
  | S n' => if m s1 =? m s2 then memcmp m (s1 + 1) (s2 + 1) n' else m s1 - m s2
  end.

(** while(n-- > 0) *d++ = *s++; *)
Fixpoint copy_up (m : mem) (d s : Z) (n : nat) : mem :=
  match n with
  | O => m
  | S n' => copy_up (store m d (m s)) (d + 1) (s + 1) n'
  end.

(** while(n-- > 0) *--d = *--s; *)
Fixpoint copy_down (m : mem) (d s : Z) (n : nat) : mem :=
  match n with
  | O => m
  | S n' => copy_down (store m (d - 1) (m (s - 1))) (d - 1) (s - 1) n'
  end.

Definition memmove (m : mem) (dst src n : Z) : mem :=
  if (src <? dst) && (dst <? src + n) then copy_down m (dst + n) (src + n) (Z.to_nat n)
  else copy_up m dst src (Z.to_nat n).

Definition memcpy (m : mem) (dst src n : Z) : mem := memmove m dst src n.

(** ** ulib.c *)
Definition ulib_memset (m : mem) (dst c n : Z) : mem := stosb m dst c (Z.to_nat n).
Definition ulib_memmove (m : mem) (vdst vsrc n : Z) : mem := copy_up m vdst vsrc (Z.to_nat n).

(** ** What they compute *)

(** Every address holds a byte. *)
Definition bytes (m : mem) : Prop := forall a, 0 <= m a < 256.

Lemma stosb_spec cnt m addr data a :
  stosb m addr data cnt a =
  if (addr <=? a) && (a <? addr + Z.of_nat cnt) then u8 data else m a.
Proof.
  revert m addr. induction cnt as [|cnt IH]; intros m addr; cbn [stosb].
  - destruct (_ && _) eqn:H; [|done]. to_prop. lia.
  - rewrite IH. unfold store.
    destruct (Z.eqb_spec a addr), (Z.leb_spec (addr + 1) a), (Z.ltb_spec a (addr + 1 + Z.of_nat cnt)),
      (Z.leb_spec addr a), (Z.ltb_spec a (addr + Z.of_nat (S cnt))); simpl; done || lia.
Qed.

(** Storing the byte [c] four times over is storing four bytes [c]. *)
Definition quad (c : Z) : Z := Z.lor (Z.lor (Z.lor (Z.shiftl c 24) (Z.shiftl c 16)) (Z.shiftl c 8)) c.

Lemma quad_bytes c i : 0 <= c < 256 -> i ∈ [0; 8; 16; 24] -> u8 (Z.shiftr (quad c) i) = c.
Proof.
  intros Hc Hi. apply Z.bits_inj'. intros n Hn. unfold u8. change 256 with (2 ^ 8).
  assert (forall k, 8 <= k -> Z.testbit c k = false) as Hh.
  { intros k Hk. destruct (Z.eq_dec c 0) as [->|]; [apply Z.testbit_0_l|].
    apply Z.bits_above_log2; [lia|]. assert (Z.log2 c < 8) by (apply Z.log2_lt_pow2; lia). lia. }
  destruct (Z.ltb_spec n 8) as [H8|H8]; [|by rewrite Z.mod_pow2_bits_high, Hh by lia].
  rewrite Z.mod_pow2_bits_low by lia. unfold quad.
  repeat (apply elem_of_cons in Hi as [->|Hi]); [..|by apply not_elem_of_nil in Hi];
    rewrite Z.shiftr_spec, !Z.lor_spec, !Z.shiftl_spec by lia.
  - rewrite (Z.testbit_neg_r _ (n + 0 - 24)), (Z.testbit_neg_r _ (n + 0 - 16)), (Z.testbit_neg_r _ (n + 0 - 8)) by lia.
    cbn [orb]. by rewrite Z.add_0_r.
  - rewrite (Z.testbit_neg_r _ (n + 8 - 24)), (Z.testbit_neg_r _ (n + 8 - 16)), (Hh (n + 8)) by lia.
    rewrite orb_false_r. cbn [orb]. f_equal. lia.
  - rewrite (Z.testbit_neg_r _ (n + 16 - 24)), (Hh (n + 16 - 8)), (Hh (n + 16)) by lia.
    rewrite !orb_false_r. cbn [orb]. f_equal. lia.
  - rewrite (Hh (n + 24 - 16)), (Hh (n + 24 - 8)), (Hh (n + 24)) by lia. rewrite !orb_false_r. f_equal. lia.
Qed.

Lemma store32_quad m addr c a :
  0 <= c < 256 -> store32 m addr (quad c) a = if (addr <=? a) && (a <? addr + 4) then c else m a.
Proof.
  intros Hc. unfold store32, store. rewrite !quad_bytes by (done || set_solver).
  rewrite <- (Z.shiftr_0_r (quad c)) at 1. rewrite quad_bytes by (done || set_solver).
  destruct (Z.eqb_spec a (addr + 3)), (Z.eqb_spec a (addr + 2)), (Z.eqb_spec a (addr + 1)), (Z.eqb_spec a addr);
    destruct (Z.leb_spec addr a), (Z.ltb_spec a (addr + 4)); simpl; done || lia.
Qed.

Lemma stosl_quad cnt m addr c a :
  0 <= c < 256 ->
  stosl m addr (quad c) cnt a = if (addr <=? a) && (a <? addr + 4 * Z.of_nat cnt) then c else m a.
Proof.
  intros Hc. revert m addr. induction cnt as [|cnt IH]; intros m addr; cbn [stosl].
  - destruct (_ && _) eqn:H; [|done]. to_prop. lia.
  - rewrite IH, store32_quad by done.
    destruct (Z.leb_spec (addr + 4) a), (Z.ltb_spec a (addr + 4 + 4 * Z.of_nat cnt)), (Z.leb_spec addr a),
      (Z.ltb_spec a (addr + 4)), (Z.ltb_spec a (addr + 4 * Z.of_nat (S cnt))); simpl; done || lia.
Qed.

Lemma land_ff c : Z.land c 0xFF = u8 c.
Proof. change 0xFF with (Z.ones 8). by rewrite Z.land_ones by lia. Qed.

Lemma memset_spec m dst c n a :
  0 <= n -> memset m dst c n a = if (dst <=? a) && (a <? dst + n) then u8 c else m a.
Proof.
  intros Hn. unfold memset. destruct (_ && _) eqn:H.
  - to_prop. fold (quad (Z.land c 0xFF)). rewrite land_ff, stosl_quad by (auto with xv6).
    rewrite Z2Nat.id by (apply Z.div_pos; lia).
    by replace (4 * (n / 4)) with n by (rewrite (Z.div_mod n 4) at 1; lia).
  - rewrite stosb_spec, Z2Nat.id by done. done.
Qed.

(** [memset] writes the low byte of [c] to the [n] bytes at [dst] and leaves
    the rest of memory alone, whether it stores words (aligned address and size)
    or bytes. *)
Theorem memset_fills m dst c n a :
  0 <= n -> memset m dst c n a = if (dst <=? a) && (a <? dst + n) then u8 c else m a.
Proof. apply memset_spec. Qed.

Lemma memset_fills_witness :
  0 <= 8 /\ memset (fun _ => 0) 4096 0x1FF 8 4103 = if (4096 <=? 4103) && (4103 <? 4096 + 8) then u8 0x1FF else 0.
Proof. split; [lia|]. apply (memset_fills (fun _ => 0) 4096 0x1FF 8 4103). lia. Defined.

(** ** Moving memory *)

(** The bytes [m0] had at [s] appear at [d]. *)
Definition moved (m0 : mem) (d s n a : Z) : Z :=
  if (d <=? a) && (a <? d + n) then m0 (s + (a - d)) else m0 a.

Lemma copy_up_spec n m d s a :
  bytes m -> (d <= s \/ s + Z.of_nat n <= d) -> copy_up m d s n a = moved m d s (Z.of_nat n) a.
Proof.
  unfold moved. revert m d s. induction n as [|n IH]; intros m d s Hb Hd; cbn [copy_up].
  - destruct (_ && _) eqn:H; [|done]. to_prop. lia.
  - assert (bytes (store m d (m s))) as Hb'.
    { intros b. unfold store. destruct (_ =? _); [auto with xv6|apply Hb]. }
    rewrite IH by (done || lia). unfold store.
    destruct (Z.leb_spec (d + 1) a), (Z.ltb_spec a (d + 1 + Z.of_nat n)), (Z.leb_spec d a),
      (Z.ltb_spec a (d + Z.of_nat (S n))); simpl; try lia.
    + destruct (Z.eqb_spec (s + 1 + (a - (d + 1))) d); [lia|]. f_equal. lia.
    + destruct (Z.eqb_spec a d); [lia|done].
    + destruct (Z.eqb_spec a d); [|lia]. subst. rewrite u8_small by done. f_equal. lia.
    + destruct (Z.eqb_spec a d); [lia|done].
Qed.

Lemma copy_down_spec n m d s a :
  bytes m -> s <= d ->
  copy_down m (d + Z.of_nat n) (s + Z.of_nat n) n a = moved m d s (Z.of_nat n) a.
Proof.
  unfold moved. revert m. induction n as [|n IH]; intros m Hb Hd; cbn [copy_down].
  - destruct (_ && _) eqn:H; [|done]. to_prop. lia.
  - assert (bytes (store m (d + Z.of_nat n) (m (s + Z.of_nat n)))) as Hb'.
    { intros b. unfold store. destruct (_ =? _); [auto with xv6|apply Hb]. }
    replace (d + Z.of_nat (S n) - 1) with (d + Z.of_nat n) by lia.
    replace (s + Z.of_nat (S n) - 1) with (s + Z.of_nat n) by lia.
    rewrite IH by done. unfold store.
    destruct (Z.leb_spec d a), (Z.ltb_spec a (d + Z.of_nat n)), (Z.ltb_spec a (d + Z.of_nat (S n)));
      simpl; try lia.
    + destruct (Z.eqb_spec (s + (a - d)) (d + Z.of_nat n)); [lia|done].
    + destruct (Z.eqb_spec a (d + Z.of_nat n)); [|lia]. rewrite u8_small by done. f_equal. lia.
    + destruct (Z.eqb_spec a (d + Z.of_nat n)); [lia|done].
    + destruct (Z.eqb_spec a (d + Z.of_nat n)); [lia|done].
Qed.

Lemma memmove_spec m dst src n a : bytes m -> 0 <= n -> memmove m dst src n a = moved m dst src n a.
Proof.
  intros Hb Hn. unfold memmove. destruct (_ && _) eqn:H; to_prop.
  - pose proof (copy_down_spec (Z.to_nat n) m dst src a Hb) as Hc. rewrite Z2Nat.id in Hc by done.
    apply Hc. lia.
  - rewrite copy_up_spec; rewrite ?Z2Nat.id by done; [done|done|].
    apply andb_false_iff in H as [H|H]; to_prop; lia.
Qed.

(** [memmove] leaves at [dst] the [n] bytes that were at [src] before the
    call, and nothing else changes, however the two regions overlap: the choice
    of the copying direction is right. *)
Theorem memmove_moves m dst src n a :
  bytes m -> 0 <= n -> memmove m dst src n a = moved m dst src n a.
Proof. apply memmove_spec. Qed.

Lemma memmove_moves_witness :
  memmove (fun a => u8 a) 101 100 8 104 = moved (fun a => u8 a) 101 100 8 104.
Proof. apply (memmove_moves (fun a => u8 a) 101 100 8 104); [intros a; auto with xv6|lia]. Defined.

(** [memcmp] is 0 exactly when the two regions hold the same bytes; otherwise
    it is the difference of the first two bytes that differ. *)
Theorem memcmp_first_difference m s1 s2 n :
  (memcmp m s1 s2 n = 0 /\ forall i, 0 <= i < Z.of_nat n -> m (s1 + i) = m (s2 + i)) \/
  exists k, 0 <= k < Z.of_nat n /\ (forall i, 0 <= i < k -> m (s1 + i) = m (s2 + i)) /\
            m (s1 + k) <> m (s2 + k) /\ memcmp m s1 s2 n = m (s1 + k) - m (s2 + k).
Proof.
  revert s1 s2. induction n as [|n IH]; intros s1 s2; cbn [memcmp].
  - left. split; [done|]. lia.
  - destruct (Z.eqb_spec (m s1) (m s2)) as [He|Hne].
    + assert (forall i, 0 <= i -> i = 0 \/ 0 <= i - 1) as Hi by lia.
      destruct (IH (s1 + 1) (s2 + 1)) as [[-> Hs]|(k & Hk & Hs & Hd & ->)]; [left; split; [done|]|].
      * intros i H. destruct (Hi i) as [->|H1]; [lia|by rewrite !Z.add_0_r|].
        specialize (Hs (i - 1)). replace (s1 + 1 + (i - 1)) with (s1 + i) in Hs by lia.
        replace (s2 + 1 + (i - 1)) with (s2 + i) in Hs by lia. apply Hs. lia.
      * right. exists (k + 1). replace (s1 + (k + 1)) with (s1 + 1 + k) by lia.
        replace (s2 + (k + 1)) with (s2 + 1 + k) by lia. split_and!; [lia|lia| |done|done].
        intros i H. destruct (Hi i) as [->|H1]; [lia|by rewrite !Z.add_0_r|].
        specialize (Hs (i - 1)). replace (s1 + 1 + (i - 1)) with (s1 + i) in Hs by lia.
        replace (s2 + 1 + (i - 1)) with (s2 + i) in Hs by lia. apply Hs. lia.
    + right. exists 0. rewrite !Z.add_0_r. split_and!; [lia|lia|lia|done|done].
Qed.

(** ** Words *)

Lemma load32_ext m m' a : (forall i, 0 <= i < 4 -> m' (a + i) = m (a + i)) -> load32 m' a = load32 m a.
Proof.
  intros H. unfold load32. rewrite <- (Z.add_0_r a) at 1 5. by rewrite !H by lia.
Qed.

Lemma store32_other m a v b : b < a \/ a + 4 <= b -> store32 m a v b = m b.
Proof.
  intros Hb. unfold store32, store.
  destruct (Z.eqb_spec b (a + 3)), (Z.eqb_spec b (a + 2)), (Z.eqb_spec b (a + 1)), (Z.eqb_spec b a); lia || done.
Qed.

(** A word read back is the word stored. *)
Lemma load_store32 m a v : 0 <= v < 2 ^ 32 -> load32 (store32 m a v) a = v.
Proof.
  intros Hv. unfold load32, store32, store.
  rewrite !Z.eqb_refl. replace (a =? a + 3) with false by lia. replace (a =? a + 2) with false by lia.
  replace (a =? a + 1) with false by lia. replace (a + 1 =? a + 3) with false by lia.
  replace (a + 1 =? a + 2) with false by lia. replace (a + 2 =? a + 3) with false by lia.
  unfold u8. rewrite !Z.shiftr_div_pow2 by lia.
  change (2 ^ 8) with 256. change (2 ^ 16) with (256 * 256). change (2 ^ 24) with (256 * 256 * 256).
  rewrite <- !Z.div_div by lia.
  assert (v / 256 / 256 / 256 < 256) by (rewrite !Z.div_div by lia; apply Z.div_lt_upper_bound; lia).
  assert (0 <= v / 256 / 256 / 256) by (rewrite !Z.div_div by lia; apply Z.div_pos; lia).
  rewrite (Z.mod_small (v / 256 / 256 / 256)) by lia.
  pose proof (Z.div_mod v 256). pose proof (Z.div_mod (v / 256) 256). pose proof (Z.div_mod (v / 256 / 256) 256).
  lia.
Qed.

Lemma bytes_store m a v : bytes m -> bytes (store m a v).
Proof. intros H b. unfold store. destruct (_ =? _); [auto with xv6|apply H]. Qed.

Lemma bytes_store32 m a v : bytes m -> bytes (store32 m a v).
Proof. intros H. by repeat apply bytes_store. Qed.

Lemma bytes_memset m dst c n : 0 <= n -> bytes m -> bytes (memset m dst c n).
Proof. intros Hn H a. rewrite memset_spec by done. destruct (_ && _); [auto with xv6|apply H]. Qed.
