(* ===== verification/Spinlock.v ===== *)
(** * Spin locks, processors and interrupt nesting

    Models spinlock.c, spinlock.h, the [struct cpu] of proc.h and the [mycpu]
    and [cpuid] functions of proc.c.  The state [mach] holds the [cpus] array,
    the registers of each processor the code reads or writes ([eflags], the
    local APIC id, [cr3], [tr]) and the spin locks of the kernel.  Code runs on
    the processor whose number is the first argument of each operation; a run
    that would spin stops with the lock it spins on. *)
From Stdlib Require Import FunctionalExtensionality.
From S2P Require Import Prelude.
Local Open Scope Z_scope.
Local Open Scope kernel_scope.

(** ** State *)

(** The spin locks of the kernel, one constructor per lock variable. *)
Inductive lockid : Type :=
| LPtable            (* ptable.lock *)
| LMtable            (* mtable.mlock *)
| LProc (p : nat)    (* ptable.proc[p].lock *)
| LKmem              (* kmem.lock *)
| LTicks             (* tickslock *)
| LCons              (* cons.lock *)
| LIde               (* idelock *)
| LBcache            (* bcache.lock *)
| LIcache            (* icache.lock *)
| LFtable            (* ftable.lock *)
| LLog               (* log.lock *)
| LPipe (p : nat)    (* the lock of a pipe *)
| LSleep (k : nat).  (* the inner lock of a sleep lock *)

#[export] Instance lockid_eq : EqDecision lockid.
Proof. solve_decision. Defined.

(** [struct spinlock] *)
Record spinlock := Spinlock {
  locked : Z;
  lname : string;
  lcpu : option nat;
  pcs : list Z
}.
#[export] Instance spinlock_eta : Eta spinlock :=
  fun r => Spinlock (locked r) (lname r) (lcpu r) (pcs r).

(** [struct cpu]: the [scheduler] context and the [gdt] are not in it. *)
Record cpu := Cpu {
  apicid : Z;
  ts_ss0 : Z;
  ts_esp0 : Z;
  ts_iomb : Z;
  started : Z;
  ncli : Z;
  intena : Z;
  cproc : option nat;
  cthread : option (nat * nat)
}.
#[export] Instance cpu_eta : Eta cpu :=
  fun r => Cpu (apicid r) (ts_ss0 r) (ts_esp0 r) (ts_iomb r) (started r) (ncli r) (intena r)
               (cproc r) (cthread r).

(** The registers of a processor. *)
Record hw := Hw {
  eflags : Z;
  lapic_id : Z;
  cr3 : Z;
  tr : Z
}.
#[export] Instance hw_eta : Eta hw :=
  fun r => Hw (eflags r) (lapic_id r) (cr3 r) (tr r).

(** [kwords] is kernel memory by words and [argaddr c] the address of the
    current function's first argument on processor [c]'s stack: what
    [getcallerpcs] walks. *)
Record mach := Mach {
  cpus : list cpu;
  ncpu : nat;
  hws : list hw;
  locks : lockid -> spinlock;
  kwords : Z -> Z;
  argaddr : nat -> Z
}.
#[export] Instance mach_eta : Eta mach :=
  fun r => Mach (cpus r) (ncpu r) (hws r) (locks r) (kwords r) (argaddr r).

Definition FL_IF : Z := 0x200.
Definition KERNBASE : Z := 0x80000000.

(** [x & FL_IF] is nonzero. *)
Definition if_set (x : Z) : bool := c_true (Z.land x FL_IF).

(** ** Operations *)

Definition readeflags (c : nat) : M mach lockid Z :=
  do h <- gets (fun s => hws s !! c);
  do h <- derefM "no such processor" h;
  ret (eflags h).

(** [lapicid()] of lapic.c on processor [c]. *)
Definition lapicid (c : nat) : M mach lockid Z :=
  do h <- gets (fun s => hws s !! c);
  do h <- derefM "no such processor" h;
  ret (lapic_id h).

Definition cli (c : nat) : M mach lockid unit :=
  modify (fun s => s <| hws ::= alter (fun h => h <| eflags ::= fun f => Z.ldiff f FL_IF |>) c |>).

Definition sti (c : nat) : M mach lockid unit :=
  modify (fun s => s <| hws ::= alter (fun h => h <| eflags ::= fun f => Z.lor f FL_IF |>) c |>).

Definition mycpu (c : nat) : M mach lockid nat :=
  do f <- readeflags c;
  if if_set f then panic "mycpu called with interrupts enabled" else
  do id <- lapicid c;
  do cs <- gets (fun s => take (ncpu s) (cpus s));
  match list_find (fun cp => apicid cp = id) cs with
  | Some (i, _) => ret i
  | None => panic "unknown apicid"
  end.

Definition cpuid (c : nat) : M mach lockid nat := mycpu c.

(** A field of [mycpu()]. *)
Definition cpu_field {A} (f : cpu -> A) (i : nat) : M mach lockid A :=
  do cp <- gets (fun s => cpus s !! i);
  do cp <- derefM "no such cpu" cp;
  ret (f cp).

Definition set_cpu (i : nat) (f : cpu -> cpu) : M mach lockid unit :=
  modify (fun s => s <| cpus ::= alter f i |>).

Definition pushcli (c : nat) : M mach lockid unit :=
  do f <- readeflags c;
  cli c;;
  do i <- mycpu c;
  do n <- cpu_field ncli i;
  whenM (n =? 0) (do i <- mycpu c; set_cpu i (fun cp => cp <| intena := Z.land f FL_IF |>));;
  do i <- mycpu c;
  set_cpu i (fun cp => cp <| ncli ::= fun n => n + 1 |>).

Definition popcli (c : nat) : M mach lockid unit :=
  do f <- readeflags c;
  if if_set f then panic "popcli - interruptible" else
  do i <- mycpu c;
  set_cpu i (fun cp => cp <| ncli ::= fun n => n - 1 |>);;
  do n <- cpu_field ncli i;
  if n <? 0 then panic "popcli" else
  do i <- mycpu c;
  do n <- cpu_field ncli i;
  do e <- cpu_field intena i;
  whenM ((n =? 0) && c_true e) (sti c).

(** The walk of [getcallerpcs] with [k] slots of [pcs] left to fill. *)
Fixpoint callerpcs_walk (word : Z -> Z) (k : nat) (ebp : Z) : list Z :=
  match k with
  | O => []
  | S k' =>
    if (ebp =? 0) || (ebp <? KERNBASE) || (ebp =? 0xffffffff) then replicate k 0
    else word (u32 (ebp + 4)) :: callerpcs_walk word k' (word ebp)
  end.

(** [getcallerpcs(v, pcs)]: the new contents of [pcs]. *)
Definition getcallerpcs (word : Z -> Z) (v : Z) : list Z :=
  callerpcs_walk word 10 (u32 (v - 8)).

Definition holding (c : nat) (lk : lockid) : M mach lockid bool :=
  pushcli c;;
  do l <- gets (fun s => locks s lk);
  do i <- mycpu c;
  let r := c_true (locked l) && bool_decide (lcpu l = Some i) in
  popcli c;;
  ret r.

Definition set_lock (lk : lockid) (f : spinlock -> spinlock) : M mach lockid unit :=
  modify (fun s => s <| locks ::= fun g => <[lk := f (g lk)]> g |>).

Definition initlock (lk : lockid) (name : string) : M mach lockid unit :=
  set_lock lk (fun l => l <| lname := name |> <| locked := 0 |> <| lcpu := None |>).

(** [xchg(&lk->locked, newval)]: the old value; the write is one step with it. *)
Definition xchg_locked (lk : lockid) (newval : Z) : M mach lockid Z :=
  do old <- gets (fun s => locked (locks s lk));
  set_lock lk (fun l => l <| locked := newval |>);;
  ret old.

Definition acquire (c : nat) (lk : lockid) : M mach lockid unit :=
  pushcli c;;
  do h <- holding c lk;
  if h : bool then panic "acquire" else
  do old <- xchg_locked lk 1;
  if c_true old then stop lk else
  do i <- mycpu c;
  set_lock lk (fun l => l <| lcpu := Some i |>);;
  do w <- gets kwords; do v <- gets (fun s => argaddr s c);
  set_lock lk (fun l => l <| pcs := getcallerpcs w v |>).

Definition release (c : nat) (lk : lockid) : M mach lockid unit :=
  do h <- holding c lk;
  if negb h then panic "release" else
  set_lock lk (fun l => l <| pcs ::= <[0%nat := 0]> |> <| lcpu := None |>);;
  set_lock lk (fun l => l <| locked := 0 |>);;
  popcli c.

(** ** The interrupt flag *)

Lemma FL_IF_bits n : Z.testbit FL_IF n = (n =? 9).
Proof.
  change FL_IF with (2 ^ 9). destruct (Z.leb_spec 0 n).
  - rewrite Z.pow2_bits_eqb by lia. lia.
  - rewrite Z.testbit_neg_r by lia. lia.
Qed.

Lemma if_set_testbit f : if_set f = Z.testbit f 9.
Proof.
  unfold if_set, c_true. destruct (Z.testbit f 9) eqn:E.
  - apply negb_true_iff, Z.eqb_neq. intros H.
    assert (Z.testbit (Z.land f FL_IF) 9 = false) as H' by (rewrite H; apply Z.bits_0).
    rewrite Z.land_spec, E, FL_IF_bits in H'. done.
  - apply negb_false_iff, Z.eqb_eq, Z.bits_inj'. intros n Hn.
    rewrite Z.land_spec, FL_IF_bits, Z.bits_0.
    destruct (Z.eqb_spec n 9) as [->|]; [by rewrite E | apply andb_false_r].
Qed.

Lemma if_set_cli f : if_set (Z.ldiff f FL_IF) = false.
Proof. rewrite if_set_testbit, Z.ldiff_spec, FL_IF_bits. apply andb_false_r. Qed.

Lemma if_set_sti f : if_set (Z.lor f FL_IF) = true.
Proof. rewrite if_set_testbit, Z.lor_spec, FL_IF_bits. apply orb_true_r. Qed.

Lemma cli_idem f : if_set f = false -> Z.ldiff f FL_IF = f.
Proof.
  rewrite if_set_testbit. intros H. apply Z.bits_inj'. intros n Hn.
  rewrite Z.ldiff_spec, FL_IF_bits. destruct (Z.eqb_spec n 9) as [->|]; cbn [negb].
  - by rewrite H, ?andb_false_r, ?orb_true_r.
  - apply andb_true_r.
Qed.

Lemma sti_cli f : if_set f = true -> Z.lor (Z.ldiff f FL_IF) FL_IF = f.
Proof.
  rewrite if_set_testbit. intros H. apply Z.bits_inj'. intros n Hn.
  rewrite Z.lor_spec, Z.ldiff_spec, FL_IF_bits. destruct (Z.eqb_spec n 9) as [->|]; cbn [negb].
  - by rewrite H, ?andb_false_r, ?orb_true_r.
  - by rewrite andb_true_r, orb_false_r.
Qed.

Lemma if_set_land f : if_set (Z.land f FL_IF) = if_set f.
Proof. rewrite !if_set_testbit, Z.land_spec, FL_IF_bits. apply andb_true_r. Qed.

Lemma c_true_land f : c_true (Z.land f FL_IF) = if_set f.
Proof. done. Qed.

(** ** Closed forms of the operations *)

(** The APIC scan of [mycpu] finds slot [c] for processor [c]. *)
Definition cpu_ok (s : mach) (c : nat) : Prop :=
  (c < ncpu s)%nat /\
  exists id, lapic_id <$> hws s !! c = Some id /\
             apicid <$> cpus s !! c = Some id /\
             forall j, (j < c)%nat -> apicid <$> cpus s !! j <> Some id.

Definition iflag (s : mach) (c : nat) : bool :=
  match hws s !! c with Some h => if_set (eflags h) | None => false end.

Definition ncli_of (s : mach) (c : nat) : Z :=
  match cpus s !! c with Some cp => ncli cp | None => 0 end.

Definition intena_of (s : mach) (c : nat) : Z :=
  match cpus s !! c with Some cp => intena cp | None => 0 end.

(** What [holding] computes. *)
Definition holds (s : mach) (c : nat) (lk : lockid) : bool :=
  c_true (locked (locks s lk)) && bool_decide (lcpu (locks s lk) = Some c).

(** Interrupts are off on [c] and will not come back on by one [popcli]. *)
Definition cli_ok (s : mach) (c : nat) : Prop :=
  cpu_ok s c /\ iflag s c = false /\ 0 < ncli_of s c.

Definition cli_step (h : hw) : hw := h <| eflags ::= fun f => Z.ldiff f FL_IF |>.
Definition sti_step (h : hw) : hw := h <| eflags ::= fun f => Z.lor f FL_IF |>.

(** [pushcli] read [f] from [eflags]. *)
Definition push_step (f : Z) (cp : cpu) : cpu :=
  (if ncli cp =? 0 then cp <| intena := Z.land f FL_IF |> else cp) <| ncli ::= fun n => n + 1 |>.
Definition pop_step (cp : cpu) : cpu := cp <| ncli ::= fun n => n - 1 |>.

Lemma cpu_ok_lookup s c :
  cpu_ok s c -> exists cp h, cpus s !! c = Some cp /\ hws s !! c = Some h /\ apicid cp = lapic_id h.
Proof.
  intros (_ & id & Hh & Hc & _).
  destruct (cpus s !! c) as [cp|]; [|done]. destruct (hws s !! c) as [h|]; [|done].
  simplify_eq/=. eauto.
Qed.

(** [cpu_ok] is about what nothing but booting changes. *)
Lemma cpu_ok_ext s s' c :
  ncpu s' = ncpu s -> lapic_id <$> hws s' !! c = lapic_id <$> hws s !! c ->
  (forall j, apicid <$> cpus s' !! j = apicid <$> cpus s !! j) ->
  cpu_ok s c -> cpu_ok s' c.
Proof.
  intros Hn Hh Hc (Hlt & id & H1 & H2 & H3). split; [by rewrite Hn|].
  exists id. rewrite Hh, Hc. repeat split; [done..|]. intros j Hj. rewrite Hc. by apply H3.
Qed.

Lemma apicid_alter (f : cpu -> cpu) (l : list cpu) (i j : nat) :
  (forall cp, apicid (f cp) = apicid cp) ->
  apicid <$> alter f i l !! j = apicid <$> l !! j.
Proof.
  intros Hf. destruct (decide (i = j)) as [->|].
  - rewrite list_lookup_alter_eq. destruct (l !! j); simpl; by rewrite ?Hf.
  - by rewrite list_lookup_alter_ne.
Qed.

Lemma lapic_alter (f : hw -> hw) (l : list hw) (i j : nat) :
  (forall h, lapic_id (f h) = lapic_id h) ->
  lapic_id <$> alter f i l !! j = lapic_id <$> l !! j.
Proof.
  intros Hf. destruct (decide (i = j)) as [->|].
  - rewrite list_lookup_alter_eq. destruct (l !! j); simpl; by rewrite ?Hf.
  - by rewrite list_lookup_alter_ne.
Qed.

Lemma mycpu_eq s c : cpu_ok s c -> iflag s c = false -> mycpu c s = Ret c s.
Proof.
  intros (Hlt & id & Hh & Hc & Hj) Hi. unfold iflag in Hi.
  destruct (hws s !! c) as [h|] eqn:Eh; [|done].
  destruct (cpus s !! c) as [cp|] eqn:Ec; [|done]. simplify_eq/=.
  unfold mycpu, readeflags, lapicid, bind, gets, derefM, ret. rewrite Eh. simpl.
  rewrite Hi, Eh.
  assert (list_find (fun cp => apicid cp = lapic_id h) (take (ncpu s) (cpus s)) = Some (c, cp))
    as ->; [|done].
  apply list_find_Some. split_and!.
  - by rewrite lookup_take_lt.
  - done.
  - intros j y Hy Hlt' Heq. rewrite lookup_take_lt in Hy by lia.
    apply (Hj j Hlt'). rewrite Hy. simpl. congruence.
Qed.

Definition pushed (s : mach) (c : nat) : mach :=
  match hws s !! c with
  | Some h => s <| hws ::= alter cli_step c |> <| cpus ::= alter (push_step (eflags h)) c |>
  | None => s
  end.

Definition popped (s : mach) (c : nat) : mach :=
  let s1 := s <| cpus ::= alter pop_step c |> in
  if (ncli_of s1 c =? 0) && c_true (intena_of s1 c) then s1 <| hws ::= alter sti_step c |> else s1.

(** Rewriting a run with a known first step. *)
Ltac run_step H := erewrite bind_ret_eq; [| exact H].

Lemma set_cpu_ok s c c' f :
  (forall cp, apicid (f cp) = apicid cp) -> cpu_ok s c -> cpu_ok (s <| cpus ::= alter f c' |>) c.
Proof. intros Hf. apply cpu_ok_ext; [done..|]. intros j. by apply apicid_alter. Qed.

Lemma set_hw_ok s c c' f :
  (forall h, lapic_id (f h) = lapic_id h) -> cpu_ok s c -> cpu_ok (s <| hws ::= alter f c' |>) c.
Proof. intros Hf. apply cpu_ok_ext; [done| |done]. by apply lapic_alter. Qed.

Lemma push_apicid f cp : apicid (push_step f cp) = apicid cp.
Proof. unfold push_step. by case_match. Qed.

#[export] Hint Resolve set_cpu_ok set_hw_ok push_apicid : xv6.

Lemma pushed_ok s c c' : cpu_ok s c -> cpu_ok (pushed s c') c.
Proof. intros H. unfold pushed. case_match; auto with xv6. Qed.

Lemma popped_ok s c c' : cpu_ok s c -> cpu_ok (popped s c') c.
Proof. intros H. unfold popped. case_match; auto with xv6. Qed.

#[export] Hint Resolve pushed_ok popped_ok : xv6.

Lemma readeflags_eq s c h : hws s !! c = Some h -> readeflags c s = Ret (eflags h) s.
Proof. intros H. unfold readeflags, bind, gets, derefM. by rewrite H. Qed.

Lemma cpu_field_eq {A} (f : cpu -> A) s i cp : cpus s !! i = Some cp -> cpu_field f i s = Ret (f cp) s.
Proof. intros H. unfold cpu_field, bind, gets, derefM. by rewrite H. Qed.

Lemma pushcli_eq s c : cpu_ok s c -> pushcli c s = Ret tt (pushed s c).
Proof.
  intros Hok. destruct (cpu_ok_lookup s c Hok) as (cp & h & Hcp & Hh & _).
  unfold pushcli. run_step (readeflags_eq s c h Hh).
  set (s1 := s <| hws ::= alter cli_step c |>).
  assert (cpu_ok s1 c) as Hok1 by (unfold s1; auto with xv6).
  assert (forall g, iflag (s1 <| cpus ::= g |>) c = false) as Hif.
  { intros g. unfold iflag, s1. simpl. rewrite list_lookup_alter_eq, Hh. apply if_set_cli. }
  run_step (eq_refl : cli c s = Ret tt s1).
  run_step (mycpu_eq s1 c Hok1 (Hif id)). run_step (cpu_field_eq ncli s1 c cp Hcp).
  unfold pushed. rewrite Hh. unfold whenM.
  destruct (ncli cp =? 0) eqn:En.
  - rewrite bind_assoc. run_step (mycpu_eq s1 c Hok1 (Hif id)).
    set (s2 := s1 <| cpus ::= alter (fun cp => cp <| intena := Z.land (eflags h) FL_IF |>) c |>).
    assert (cpu_ok s2 c) as Hok2 by (unfold s2; auto with xv6).
    run_step (eq_refl : set_cpu c _ s1 = Ret tt s2).
    run_step (mycpu_eq s2 c Hok2 (Hif _)).
    unfold set_cpu, modify. f_equal. unfold s2, s1, setter. simpl. f_equal.
    rewrite list_alter_alter_eq. apply list_alter_ext; [|done].
    intros x Hx. simplify_eq. unfold push_step, compose. by rewrite En.
  - rewrite bind_ret. run_step (mycpu_eq s1 c Hok1 (Hif id)).
    unfold set_cpu, modify. f_equal. unfold s1, setter. simpl. f_equal.
    apply list_alter_ext; [|done]. intros x Hx. simplify_eq. unfold push_step, compose. by rewrite En.
Qed.

Lemma popcli_eq s c : cli_ok s c -> popcli c s = Ret tt (popped s c).
Proof.
  intros (Hok & Hif & Hn). destruct (cpu_ok_lookup s c Hok) as (cp & h & Hcp & Hh & _).
  unfold popcli. run_step (readeflags_eq s c h Hh).
  assert (if_set (eflags h) = false) as -> by (by unfold iflag in Hif; rewrite Hh in Hif).
  run_step (mycpu_eq s c Hok Hif).
  set (s1 := s <| cpus ::= alter pop_step c |>).
  assert (cpu_ok s1 c) as Hok1 by (unfold s1; auto with xv6).
  assert (cpus s1 !! c = Some (pop_step cp)) as Hcp1.
  { unfold s1. simpl. by rewrite list_lookup_alter_eq, Hcp. }
  assert (ncli (pop_step cp) = ncli cp - 1) as Hp by done.
  unfold ncli_of in Hn. rewrite Hcp in Hn.
  run_step (eq_refl : set_cpu c _ s = Ret tt s1).
  run_step (cpu_field_eq ncli s1 c _ Hcp1).
  destruct (Z.ltb_spec (ncli (pop_step cp)) 0) as [|_]; [lia|].
  run_step (mycpu_eq s1 c Hok1 Hif).
  run_step (cpu_field_eq ncli s1 c _ Hcp1). run_step (cpu_field_eq intena s1 c _ Hcp1).
  unfold popped. fold s1. unfold ncli_of, intena_of. rewrite Hcp1.
  unfold whenM. by case_match.
Qed.

(** [pushcli] then [popcli] when interrupts are already off: no change. *)
Lemma popped_pushed s c : cli_ok s c -> popped (pushed s c) c = s.
Proof.
  intros (Hok & Hif & Hn). destruct (cpu_ok_lookup s c Hok) as (cp & h & Hcp & Hh & _).
  unfold ncli_of in Hn. rewrite Hcp in Hn. unfold iflag in Hif. rewrite Hh in Hif.
  unfold popped, pushed, ncli_of, intena_of. rewrite Hh. simpl.
  rewrite list_alter_alter_eq, list_lookup_alter_eq, Hcp. simpl.
  unfold pop_step at 1, push_step at 1. destruct (Z.eqb_spec (ncli cp) 0) as [|_]; [lia|]. simpl.
  destruct (Z.eqb_spec (ncli cp + 1 - 1) 0) as [|_]; [lia|]. simpl.
  destruct s as [cs n hs ls kw aa]. unfold setter. simpl in *. f_equal.
  - apply list_eq. intros j. rewrite ?list_alter_alter_eq, list_lookup_alter.
    case_decide; [subst|done]. rewrite Hcp. simpl. f_equal. unfold compose, pop_step, push_step.
    destruct (Z.eqb_spec (ncli cp) 0) as [|_]; [lia|].
    destruct cp. unfold setter. simpl. f_equal. lia.
  - apply list_eq. intros j. rewrite list_lookup_alter. case_decide; [subst|done].
    rewrite Hh. simpl. f_equal. destruct h. unfold cli_step, setter. simpl in *.
    by rewrite cli_idem.
Qed.

Lemma ncli_pushed s c : cpu_ok s c -> ncli_of (pushed s c) c = ncli_of s c + 1.
Proof.
  intros Hok. destruct (cpu_ok_lookup s c Hok) as (cp & h & Hcp & Hh & _).
  unfold ncli_of, pushed. rewrite Hh. simpl. rewrite list_lookup_alter_eq, Hcp. simpl.
  unfold push_step. by case_match.
Qed.

Lemma iflag_pushed s c : cpu_ok s c -> iflag (pushed s c) c = false.
Proof.
  intros Hok. destruct (cpu_ok_lookup s c Hok) as (cp & h & Hcp & Hh & _).
  unfold iflag, pushed. rewrite Hh. simpl. rewrite list_lookup_alter_eq, Hh. apply if_set_cli.
Qed.

Lemma pushed_cli_ok s c : cpu_ok s c -> 0 <= ncli_of s c -> cli_ok (pushed s c) c.
Proof.
  intros Hok Hn. split_and!; [auto with xv6 | by apply iflag_pushed |].
  rewrite ncli_pushed by done. lia.
Qed.

Lemma locks_pushed s c : locks (pushed s c) = locks s.
Proof. unfold pushed. by case_match. Qed.

Lemma locks_popped s c : locks (popped s c) = locks s.
Proof. unfold popped. by case_match. Qed.

#[export] Hint Rewrite locks_pushed locks_popped : xv6.

Lemma holding_eq s c lk : cli_ok s c -> holding c lk s = Ret (holds s c lk) s.
Proof.
  intros Hc. pose proof Hc as (Hok & Hif & Hn). unfold holding.
  assert (cli_ok (pushed s c) c) as Hc1 by (apply pushed_cli_ok; [done | lia]).
  run_step (pushcli_eq s c Hok).
  rewrite bind_gets.
  run_step (mycpu_eq _ c (proj1 Hc1) (proj1 (proj2 Hc1))).
  cbv zeta. run_step (popcli_eq _ c Hc1).
  rewrite popped_pushed, locks_pushed by done. done.
Qed.

(** The state after a successful [acquire]. *)
Definition acquired (s : mach) (c : nat) (lk : lockid) : mach :=
  pushed s c <| locks ::= fun g =>
    <[lk := Spinlock 1 (lname (g lk)) (Some c) (getcallerpcs (kwords s) (argaddr s c))]> g |>.

(** The state after [release]. *)
Definition released (s : mach) (c : nat) (lk : lockid) : mach :=
  popped (s <| locks ::= fun g =>
    <[lk := Spinlock 0 (lname (g lk)) None (<[0%nat := 0]> (pcs (g lk)))]> g |>) c.

Lemma set_locks_ext (s : mach) (f g : (lockid -> spinlock) -> (lockid -> spinlock)) :
  f (locks s) = g (locks s) -> s <| locks ::= f |> = s <| locks ::= g |>.
Proof. unfold setter. by intros ->. Qed.

Lemma fn_insert_insert {A} (g : lockid -> A) lk x y :
  <[lk := x]> (<[lk := y]> g) = <[lk := x]> g.
Proof.
  apply functional_extensionality. intros k.
  destruct (decide (lk = k)) as [->|]; [by rewrite !fn_lookup_insert | by rewrite !fn_lookup_insert_ne].
Qed.

(** What [acquire] does, by the three cases of the code. *)
Lemma acquire_eq s c lk :
  cpu_ok s c -> 0 <= ncli_of s c ->
  acquire c lk s =
    if holds s c lk then Panic "acquire" (pushed s c)
    else if c_true (locked (locks s lk))
         then Stop lk (pushed s c <| locks ::= fun g => <[lk := g lk <| locked := 1 |>]> g |>)
         else Ret tt (acquired s c lk).
Proof.
  intros Hok Hn. pose proof (pushed_cli_ok s c Hok Hn) as Hc1. unfold acquire.
  run_step (pushcli_eq s c Hok). run_step (holding_eq _ c lk Hc1).
  assert (holds (pushed s c) c lk = holds s c lk) as ->
    by (unfold holds; by rewrite locks_pushed).
  destruct (holds s c lk); [done|].
  unfold xchg_locked at 1. rewrite bind_assoc, bind_gets, bind_assoc, locks_pushed.
  set (s2 := pushed s c <| locks ::= fun g => <[lk := g lk <| locked := 1 |>]> g |>).
  run_step (eq_refl : set_lock lk _ (pushed s c) = Ret tt s2).
  rewrite bind_ret. destruct (c_true (locked (locks s lk))); [done|].
  run_step (mycpu_eq s2 c (proj1 Hc1) (proj1 (proj2 Hc1))).
  unfold bind, gets, set_lock, modify. f_equal. unfold acquired, s2, setter, pushed.
  destruct (hws s !! c); simpl; f_equal; by rewrite !fn_insert_insert, !fn_lookup_insert.
Qed.

Lemma release_eq s c lk :
  cli_ok s c ->
  release c lk s = if holds s c lk then Ret tt (released s c lk) else Panic "release" s.
Proof.
  intros Hc. unfold release. run_step (holding_eq s c lk Hc).
  destruct (holds s c lk); simpl; [|done].
  set (s1 := s <| locks ::= fun g =>
    <[lk := Spinlock 0 (lname (g lk)) None (<[0%nat := 0]> (pcs (g lk)))]> g |>).
  assert (cli_ok s1 c) as Hc1 by done.
  unfold bind, set_lock at 1 2, modify.
  change (released s c lk) with (popped s1 c).
  rewrite <- (popcli_eq s1 c Hc1). f_equal. unfold s1, setter. simpl. f_equal.
  by rewrite !fn_insert_insert, !fn_lookup_insert.
Qed.

(** ** Interrupt nesting

    "it takes two popcli to undo two pushcli; if interrupts are off, then
    pushcli, popcli leaves them off" (the comment above [pushcli]). *)

Fixpoint repeatM (n : nat) (m : M mach lockid unit) : M mach lockid unit :=
  match n with O => ret tt | S n' => m;; repeatM n' m end.

Lemma intena_pushed s c :
  cpu_ok s c -> c_true (intena_of (pushed s c) c) =
    if ncli_of s c =? 0 then iflag s c else c_true (intena_of s c).
Proof.
  intros Hok. destruct (cpu_ok_lookup s c Hok) as (cp & h & Hcp & Hh & _).
  unfold intena_of, pushed, ncli_of, iflag. rewrite Hh. simpl.
  rewrite list_lookup_alter_eq, Hcp. simpl. unfold push_step. by destruct (ncli cp =? 0).
Qed.

Lemma intena_popped s c : intena_of (popped s c) c = intena_of s c.
Proof.
  unfold popped. cbv zeta. destruct (_ && _); unfold intena_of; simpl;
    rewrite list_lookup_alter_eq; by destruct (cpus s !! c).
Qed.

Lemma ncli_popped s c : cpu_ok s c -> ncli_of (popped s c) c = ncli_of s c - 1.
Proof.
  intros Hok. destruct (cpu_ok_lookup s c Hok) as (cp & h & Hcp & Hh & _).
  unfold popped. cbv zeta. destruct (_ && _); unfold ncli_of; simpl;
    by rewrite list_lookup_alter_eq, Hcp.
Qed.

Lemma iflag_popped s c :
  cpu_ok s c -> iflag (popped s c) c = ((ncli_of s c =? 1) && c_true (intena_of s c)) || iflag s c.
Proof.
  intros Hok. destruct (cpu_ok_lookup s c Hok) as (cp & h & Hcp & Hh & _).
  unfold popped, ncli_of, intena_of, iflag. simpl. rewrite list_lookup_alter_eq, Hcp. simpl.
  replace (ncli cp - 1 =? 0) with (ncli cp =? 1) by lia.
  destruct ((ncli cp =? 1) && c_true (intena cp)); simpl; [|done].
  rewrite list_lookup_alter_eq, Hh. apply if_set_sti.
Qed.

Lemma ncli_pushed_ne s c c' : c <> c' -> ncli_of (pushed s c) c' = ncli_of s c'.
Proof.
  intros. unfold pushed. destruct (hws s !! c); [|done].
  unfold ncli_of; simpl; by rewrite ?list_lookup_alter_ne.
Qed.

Lemma iflag_pushed_ne s c c' : c <> c' -> iflag (pushed s c) c' = iflag s c'.
Proof.
  intros. unfold pushed. destruct (hws s !! c); [|done].
  unfold iflag; simpl; by rewrite ?list_lookup_alter_ne.
Qed.

Lemma ncli_popped_ne s c c' : c <> c' -> ncli_of (popped s c) c' = ncli_of s c'.
Proof.
  intros. unfold popped. cbv zeta.
  destruct (_ && _); unfold ncli_of; simpl; by rewrite ?list_lookup_alter_ne.
Qed.

Lemma iflag_popped_ne s c c' : c <> c' -> iflag (popped s c) c' = iflag s c'.
Proof.
  intros. unfold popped. cbv zeta.
  destruct (_ && _); unfold iflag; simpl; by rewrite ?list_lookup_alter_ne.
Qed.

(** After [n] nested [pushcli]s: the depth, and what the last [popcli] restores. *)
Lemma repeat_pushcli n s c :
  cpu_ok s c -> 0 <= ncli_of s c ->
  exists s1, repeatM n (pushcli c) s = Ret tt s1 /\ cpu_ok s1 c /\ locks s1 = locks s /\
    ncli_of s1 c = ncli_of s c + Z.of_nat n /\
    iflag s1 c = (if decide (n = O) then iflag s c else false) /\
    c_true (intena_of s1 c) = (if decide (n = O) then c_true (intena_of s c)
                               else if ncli_of s c =? 0 then iflag s c else c_true (intena_of s c)).
Proof.
  revert s. induction n as [|n IH]; intros s Hok Hn; simpl.
  { exists s. split_and!; try done; lia. }
  run_step (pushcli_eq s c Hok). pose proof (ncli_pushed s c Hok) as Hp.
  destruct (IH (pushed s c)) as (s1 & Hr & Hok1 & Hl & Hn1 & Hif1 & Hie); [auto with xv6 | lia |].
  exists s1. rewrite iflag_pushed in Hif1 by done. rewrite Hl, locks_pushed.
  split_and!; try done; try lia.
  - rewrite Hif1. by case_decide.
  - rewrite Hie, Hp, intena_pushed by done. destruct (Z.eqb_spec (ncli_of s c + 1) 0); [lia|].
    by case_decide.
Qed.

Lemma repeat_popcli n s c :
  cpu_ok s c -> Z.of_nat n <= ncli_of s c -> ((0 < n)%nat -> iflag s c = false) ->
  exists s1, repeatM n (popcli c) s = Ret tt s1 /\ cpu_ok s1 c /\ locks s1 = locks s /\
    ncli_of s1 c = ncli_of s c - Z.of_nat n /\
    iflag s1 c = (if decide (n = O) then iflag s c
                  else (ncli_of s c =? Z.of_nat n) && c_true (intena_of s c)).
Proof.
  revert s. induction n as [|n IH]; intros s Hok Hn Hi.
  { exists s. split_and!; try done; lia. }
  assert (cli_ok s c) as Hc by (split_and!; [done | apply Hi; lia | lia]).
  simpl. run_step (popcli_eq s c Hc). pose proof (ncli_popped s c Hok) as Hp.
  pose proof (iflag_popped s c Hok) as Hf. rewrite (proj1 (proj2 Hc)), orb_false_r in Hf.
  destruct (IH (popped s c)) as (s1 & Hr & Hok1 & Hl & Hn1 & Hif1); [auto with xv6 | lia | |].
  { intros Hpos. rewrite Hf. destruct (Z.eqb_spec (ncli_of s c) 1); [lia|done]. }
  exists s1. rewrite Hl, locks_popped. split_and!; try done; try lia.
  rewrite Hif1, Hf, Hp, intena_popped. case_decide; [subst; by rewrite andb_comm, andb_comm|].
  destruct (Z.eqb_spec (ncli_of s c - 1) (Z.of_nat n)), (Z.eqb_spec (ncli_of s c) (Z.of_nat (S n)));
    done || lia.
Qed.

(** [n] calls of [pushcli] followed by [n] calls of [popcli] never panic, interrupts are off in
    between, and the interrupt flag, the nesting depth and the locks end up as they were: "it takes two
    popcli to undo two pushcli; also, if interrupts are off, then pushcli, popcli leaves them off". *)
Theorem pushcli_popcli_nesting n s c :
  cpu_ok s c -> 0 <= ncli_of s c -> (0 < ncli_of s c -> iflag s c = false) ->
  exists s1 s2,
    repeatM n (pushcli c) s = Ret tt s1 /\ ((0 < n)%nat -> iflag s1 c = false) /\
    repeatM n (popcli c) s1 = Ret tt s2 /\
    iflag s2 c = iflag s c /\ ncli_of s2 c = ncli_of s c /\ locks s2 = locks s.
Proof.
  intros Hok Hn Hi.
  destruct (repeat_pushcli n s c Hok Hn) as (s1 & Hr1 & Hok1 & Hl1 & Hn1 & Hif1 & Hie1).
  destruct (repeat_popcli n s1 c Hok1) as (s2 & Hr2 & Hok2 & Hl2 & Hn2 & Hif2); [lia | |].
  { intros. rewrite Hif1. case_decide; [lia|done]. }
  exists s1, s2. split_and!; try done; try congruence; try lia.
  - intros. rewrite Hif1. case_decide; [lia|done].
  - rewrite Hif2, Hif1, Hn1, Hie1. case_decide; [done|].
    destruct (Z.eqb_spec (ncli_of s c) 0) as [E|E].
    + rewrite E. destruct (Z.eqb_spec (0 + Z.of_nat n) (Z.of_nat n)); [done|lia].
    + rewrite Hi by lia. destruct (Z.eqb_spec (ncli_of s c + Z.of_nat n) (Z.of_nat n)); [lia|done].
Qed.

(** ** All processors together

    The steps the processors take, in any interleaving: an [acquire] whose
    [xchg] won, a [release], and [pushcli]/[popcli] outside of them.  A
    [popcli] that is not the one inside [release] undoes a [pushcli] of its
    caller, so the depth is above the number of locks held. *)

Definition held_below (s : mach) (c : nat) (n : Z) : Prop :=
  forall L : list lockid, NoDup L -> (forall lk, lk ∈ L -> holds s c lk = true) ->
    Z.of_nat (length L) <= n.

Inductive spin_step : mach -> mach -> Prop :=
| step_acquire s s' c lk :
    (c < ncpu s)%nat -> acquire c lk s = Ret tt s' -> spin_step s s'
| step_release s s' c lk :
    (c < ncpu s)%nat -> release c lk s = Ret tt s' -> spin_step s s'
| step_pushcli s s' c :
    (c < ncpu s)%nat -> pushcli c s = Ret tt s' -> spin_step s s'
| step_popcli s s' c :
    (c < ncpu s)%nat -> held_below s c (ncli_of s c - 1) -> popcli c s = Ret tt s' -> spin_step s s'.

(** Every lock is free, or held by one processor. *)
Definition lock_ok (s : mach) (lk : lockid) : Prop :=
  (locked (locks s lk) = 0 /\ lcpu (locks s lk) = None) \/
  (exists c, (c < ncpu s)%nat /\ locked (locks s lk) = 1 /\ lcpu (locks s lk) = Some c).

(** A processor holds at most as many locks as its nesting depth, and has
    interrupts off while that is positive. *)
Definition spin_inv (s : mach) : Prop :=
  (forall c, (c < ncpu s)%nat -> cpu_ok s c) /\
  (forall lk, lock_ok s lk) /\
  (forall c, (c < ncpu s)%nat ->
     held_below s c (ncli_of s c) /\ (0 < ncli_of s c -> iflag s c = false)).

(** Booting: no lock held, depth zero everywhere. *)
Definition spin_init (s : mach) : Prop :=
  (forall c, (c < ncpu s)%nat -> cpu_ok s c /\ ncli_of s c = 0) /\
  (forall lk, locked (locks s lk) = 0 /\ lcpu (locks s lk) = None).

Lemma held_nonneg s c n : held_below s c n -> 0 <= n.
Proof. intros H. apply (H []); [constructor | by intros lk ?%not_elem_of_nil]. Qed.

Lemma held_pos s c lk n : held_below s c n -> holds s c lk = true -> 0 < n.
Proof.
  intros H Hh. specialize (H [lk]). simpl in H.
  assert (1 <= n); [|lia]. apply H.
  - apply NoDup_singleton.
  - intros ? ->%list_elem_of_singleton. done.
Qed.

Lemma holds_locks s s' c lk : locks s' lk = locks s lk -> holds s' c lk = holds s c lk.
Proof. unfold holds. by intros ->. Qed.

Lemma held_below_weaken s s' c n n' :
  (forall lk, holds s' c lk = true -> holds s c lk = true) -> n <= n' ->
  held_below s c n -> held_below s' c n'.
Proof. intros Hh Hle H L Hnd HL. etrans; [apply H; [done|]|done]. eauto. Qed.

(** One more lock, one more level. *)
Lemma held_below_add s s' c lk n :
  (forall lk', lk' <> lk -> holds s' c lk' = holds s c lk') ->
  held_below s c n -> held_below s' c (n + 1).
Proof.
  intros Hh H L Hnd HL. destruct (decide (lk ∈ L)) as [Hin|Hnin].
  - apply list_elem_of_split in Hin as (l1 & l2 & ->).
    rewrite <- Permutation_middle in Hnd. apply NoDup_cons in Hnd as [Hnin Hnd].
    assert (Z.of_nat (length (l1 ++ l2)) <= n); [|rewrite length_app in *; simpl; lia].
    apply H; [done|].
    intros x Hx. rewrite <- Hh; [apply HL; rewrite elem_of_app in Hx |- *; rewrite elem_of_cons; tauto|]. by intros ->.
  - etrans; [apply H; [done|]|lia]. intros x Hx. rewrite <- Hh; [auto|]. set_solver.
Qed.

(** One lock less: the level drops by one. *)
Lemma held_below_drop s s' c lk n :
  holds s c lk = true -> (forall lk', holds s' c lk' = true -> lk' <> lk /\ holds s c lk' = true) ->
  held_below s c n -> held_below s' c (n - 1).
Proof.
  intros Hlk Hh H L Hnd HL.
  assert (Z.of_nat (length (lk :: L)) <= n); [|simpl in *; lia].
  apply H.
  - apply NoDup_cons. split; [|done]. intros Hin. by destruct (Hh _ (HL _ Hin)).
  - intros x [->|Hx]%elem_of_cons; [done|]. by apply Hh, HL.
Qed.

Lemma ncpu_pushed s c : ncpu (pushed s c) = ncpu s.
Proof. unfold pushed. by case_match. Qed.

Lemma ncpu_popped s c : ncpu (popped s c) = ncpu s.
Proof. unfold popped. cbv zeta. by case_match. Qed.

Lemma holds_acquired s c lk c' lk' :
  holds (acquired s c lk) c' lk' = if decide (lk = lk') then bool_decide (c = c') else holds s c' lk'.
Proof.
  unfold acquired, holds. simpl. rewrite locks_pushed. case_decide as E; [subst|].
  - rewrite fn_lookup_insert. simpl. apply bool_decide_ext. naive_solver.
  - by rewrite fn_lookup_insert_ne.
Qed.

Lemma holds_released s c lk c' lk' :
  holds (released s c lk) c' lk' = if decide (lk = lk') then false else holds s c' lk'.
Proof.
  unfold released, holds. rewrite locks_popped. simpl. case_decide as E; [subst|].
  - by rewrite fn_lookup_insert.
  - by rewrite fn_lookup_insert_ne.
Qed.

Lemma spin_init_inv s : spin_init s -> spin_inv s.
Proof.
  intros [Hc Hl]. split_and!.
  - intros c Hlt. by apply Hc.
  - intros lk. left. apply Hl.
  - intros c Hlt. destruct (Hc c Hlt) as [_ Hz]. split; [|lia]. rewrite Hz.
    intros L Hnd HL. destruct L as [|lk L]; [done|]. exfalso.
    specialize (HL lk (list_elem_of_here _ _)). unfold holds in HL.
    destruct (Hl lk) as [Hlk _]. by rewrite Hlk in HL.
Qed.

(** A step that leaves the other processors alone keeps the invariant if it
    does so for its own processor and for the locks. *)
Lemma spin_inv_local s s' c :
  spin_inv s -> ncpu s' = ncpu s ->
  (forall c', cpu_ok s c' -> cpu_ok s' c') ->
  (forall lk, lock_ok s' lk) ->
  (forall c', c' <> c -> ncli_of s' c' = ncli_of s c' /\ iflag s' c' = iflag s c' /\
     forall lk, holds s' c' lk = true -> holds s c' lk = true) ->
  held_below s' c (ncli_of s' c) -> (0 < ncli_of s' c -> iflag s' c = false) ->
  spin_inv s'.
Proof.
  intros (Hc & Hl & Hh) Hn Hok Hlk Hne Hb Hi. split_and!.
  - intros c' Hlt. apply Hok, Hc. by rewrite <- Hn.
  - done.
  - intros c' Hlt. rewrite Hn in Hlt. destruct (decide (c' = c)) as [->|Hd]; [done|].
    destruct (Hne c' Hd) as (-> & -> & Hhl). destruct (Hh c' Hlt) as [Hb' Hi'].
    split; [|done]. by eapply held_below_weaken.
Qed.

Lemma lock_ok_ext s s' lk : ncpu s' = ncpu s -> locks s' lk = locks s lk -> lock_ok s lk -> lock_ok s' lk.
Proof. unfold lock_ok. by intros -> ->. Qed.

Lemma acquire_inv s s' c lk :
  spin_inv s -> (c < ncpu s)%nat -> acquire c lk s = Ret tt s' -> spin_inv s'.
Proof.
  intros Hinv Hlt Hrun. pose proof Hinv as (Hc & Hl & Hh). destruct (Hh c Hlt) as [Hb Hi].
  rewrite acquire_eq in Hrun by eauto using held_nonneg.
  destruct (holds s c lk) eqn:Eh; [done|]. destruct (c_true _) eqn:El; [done|].
  injection Hrun as <-.
  eapply (spin_inv_local s _ c Hinv); [apply ncpu_pushed | intros; by apply pushed_ok | | | |].
  - intros lk'. destruct (decide (lk = lk')) as [<-|Hne].
    + right. exists c. unfold acquired. simpl.
      rewrite fn_lookup_insert, ncpu_pushed. done.
    + eapply lock_ok_ext; [apply ncpu_pushed | | apply Hl].
      unfold acquired. simpl. by rewrite fn_lookup_insert_ne, locks_pushed.
  - intros c' Hne. split_and!; [by apply ncli_pushed_ne | by apply iflag_pushed_ne |].
    intros lk'. rewrite holds_acquired. case_decide; [|done]. by rewrite bool_decide_eq_false_2.
  - change (ncli_of (acquired s c lk) c) with (ncli_of (pushed s c) c).
    rewrite ncli_pushed by auto. eapply held_below_add; [|done].
    intros lk' Hne. rewrite holds_acquired. by rewrite decide_False.
  - intros _. apply (iflag_pushed s c). auto.
Qed.

Lemma held_cli_ok s c lk : spin_inv s -> (c < ncpu s)%nat -> holds s c lk = true -> cli_ok s c.
Proof.
  intros (Hc & _ & Hh) Hlt Hlk. destruct (Hh c Hlt) as [Hb Hi].
  pose proof (held_pos _ _ _ _ Hb Hlk). split_and!; auto.
Qed.

(** [release] returns only to the processor that holds the lock. *)
Lemma release_holds s s' c lk :
  spin_inv s -> (c < ncpu s)%nat -> release c lk s = Ret tt s' ->
  holds s c lk = true /\ cli_ok s c /\ s' = released s c lk.
Proof.
  intros Hinv Hlt Hrun. pose proof Hinv as (Hc & Hl & Hh). destruct (Hh c Hlt) as [Hb Hi].
  destruct (decide (0 < ncli_of s c)) as [Hpos|Hz].
  - assert (cli_ok s c) as Hcli by (split_and!; auto).
    rewrite release_eq in Hrun by done. destruct (holds s c lk); [|done]. by injection Hrun as <-.
  - exfalso. assert (ncli_of s c = 0) as Hn0 by (apply held_nonneg in Hb; lia).
    assert (holds s c lk = false) as Hf.
    { destruct (holds s c lk) eqn:E; [|done]. pose proof (held_pos _ _ _ _ Hb E). lia. }
    unfold release, holding in Hrun. rewrite bind_assoc in Hrun.
    rewrite (bind_ret_eq _ _ _ _ _ (pushcli_eq s c (Hc c Hlt))) in Hrun.
    assert (cli_ok (pushed s c) c) as Hc1 by (apply pushed_cli_ok; [auto|lia]).
    rewrite bind_assoc, bind_gets, bind_assoc in Hrun.
    rewrite (bind_ret_eq _ _ _ _ _ (mycpu_eq _ c (proj1 Hc1) (proj1 (proj2 Hc1)))) in Hrun.
    cbv zeta in Hrun. rewrite bind_assoc in Hrun.
    rewrite (bind_ret_eq _ _ _ _ _ (popcli_eq _ c Hc1)), bind_ret, locks_pushed in Hrun.
    fold (holds s c lk) in Hrun. rewrite Hf in Hrun. done.
Qed.

Lemma release_inv s s' c lk :
  spin_inv s -> (c < ncpu s)%nat -> release c lk s = Ret tt s' -> spin_inv s'.
Proof.
  intros Hinv Hlt Hrun. destruct (release_holds _ _ _ _ Hinv Hlt Hrun) as (Hlk & Hcli & ->).
  pose proof Hinv as (Hc & Hl & Hh). destruct (Hh c Hlt) as [Hb Hi].
  unfold released.
  set (s1 := s <| locks ::= _ |>). assert (cpu_ok s1 c) as Hok1 by apply Hcli.
  eapply (spin_inv_local s _ c Hinv); [exact (ncpu_popped s1 c) | intros c' H; by apply popped_ok | | | |].
  - intros lk'. destruct (decide (lk = lk')) as [<-|Hne].
    + left. rewrite locks_popped. unfold s1. simpl. by rewrite fn_lookup_insert.
    + apply (lock_ok_ext s); [exact (ncpu_popped s1 c) | | apply Hl].
      rewrite locks_popped. unfold s1. simpl. by rewrite fn_lookup_insert_ne.
  - intros c' Hne. split_and!; [by rewrite ncli_popped_ne | by rewrite iflag_popped_ne |].
    intros lk'. change (popped s1 c) with (released s c lk). rewrite holds_released. by case_decide.
  - rewrite ncli_popped by done. change (ncli_of s1 c) with (ncli_of s c).
    eapply held_below_drop; [done | | done]. intros lk'.
    change (popped s1 c) with (released s c lk). rewrite holds_released. case_decide; naive_solver.
  - rewrite ncli_popped, iflag_popped by done.
    change (ncli_of s1 c) with (ncli_of s c). change (iflag s1 c) with (iflag s c).
    intros Hpos. rewrite (proj1 (proj2 Hcli)).
    destruct (Z.eqb_spec (ncli_of s c) 1); [lia | done].
Qed.

Lemma pushcli_inv s s' c :
  spin_inv s -> (c < ncpu s)%nat -> pushcli c s = Ret tt s' -> spin_inv s'.
Proof.
  intros Hinv Hlt Hrun. pose proof Hinv as (Hc & Hl & Hh). destruct (Hh c Hlt) as [Hb Hi].
  rewrite pushcli_eq in Hrun by auto. injection Hrun as <-.
  assert (forall c' lk, holds (pushed s c) c' lk = holds s c' lk) as Hhl
    by (intros; by apply holds_locks; rewrite locks_pushed).
  eapply (spin_inv_local s _ c Hinv); [apply ncpu_pushed | intros; by apply pushed_ok | | | |].
  - intros lk. eapply lock_ok_ext; [apply ncpu_pushed | by rewrite locks_pushed | apply Hl].
  - intros c' Hne. split_and!; [by apply ncli_pushed_ne | by apply iflag_pushed_ne |].
    intros lk. by rewrite Hhl.
  - rewrite ncli_pushed by auto. eapply held_below_weaken; [| |done]; [|lia]. intros lk. by rewrite Hhl.
  - intros _. apply iflag_pushed. auto.
Qed.

Lemma popcli_inv s s' c :
  spin_inv s -> (c < ncpu s)%nat -> held_below s c (ncli_of s c - 1) ->
  popcli c s = Ret tt s' -> spin_inv s'.
Proof.
  intros Hinv Hlt Hb' Hrun. pose proof Hinv as (Hc & Hl & Hh). destruct (Hh c Hlt) as [Hb Hi].
  pose proof (held_nonneg _ _ _ Hb').
  assert (cli_ok s c) as Hcli by (split_and!; [auto | apply Hi; lia | lia]).
  rewrite popcli_eq in Hrun by done. injection Hrun as <-.
  assert (forall c' lk, holds (popped s c) c' lk = holds s c' lk) as Hhl
    by (intros; by apply holds_locks; rewrite locks_popped).
  eapply (spin_inv_local s _ c Hinv); [apply ncpu_popped | intros; by apply popped_ok | | | |].
  - intros lk. eapply lock_ok_ext; [apply ncpu_popped | by rewrite locks_popped | apply Hl].
  - intros c' Hne. split_and!; [by apply ncli_popped_ne | by apply iflag_popped_ne |].
    intros lk. by rewrite Hhl.
  - rewrite ncli_popped by apply Hcli. eapply held_below_weaken; [| |exact Hb']; [|lia]. intros lk. by rewrite Hhl.
  - rewrite ncli_popped, iflag_popped by apply Hcli. intros Hpos. rewrite (proj1 (proj2 Hcli)).
    destruct (Z.eqb_spec (ncli_of s c) 1); [lia | done].
Qed.

Lemma spin_step_inv s s' : spin_inv s -> spin_step s s' -> spin_inv s'.
Proof.
  intros Hinv Hstep. destruct Hstep;
    eauto using acquire_inv, release_inv, pushcli_inv, popcli_inv.
Qed.

Lemma spin_inv_reachable s0 s : spin_init s0 -> rtc spin_step s0 s -> spin_inv s.
Proof.
  intros H0 Hr. apply spin_init_inv in H0. induction Hr as [|a b d Hab _ IH]; [done|].
  apply IH. by eapply spin_step_inv.
Qed.

(** Mutual exclusion and interrupt safety.  In every state the processors can reach from boot, while
    processor [c] holds a spin lock no [acquire] of it returns on any processor, [release] of it panics on
    every other processor, and [c] runs with interrupts off. *)
Theorem spinlock_exclusion s0 s c lk :
  spin_init s0 -> rtc spin_step s0 s -> (c < ncpu s)%nat -> holds s c lk = true ->
  iflag s c = false /\
  (forall c' s', (c' < ncpu s)%nat -> acquire c' lk s <> Ret tt s') /\
  (forall c' s', (c' < ncpu s)%nat -> c' <> c -> release c' lk s <> Ret tt s').
Proof.
  intros H0 Hr Hlt Hlk. pose proof (spin_inv_reachable _ _ H0 Hr) as Hinv.
  pose proof Hinv as (Hc & Hl & Hh). destruct (held_cli_ok _ _ _ Hinv Hlt Hlk) as (_ & Hif & _).
  pose proof Hlk as Hlk'. unfold holds in Hlk'. apply andb_prop in Hlk' as [Ht Hcpu]. to_prop.
  split_and!; [done | |].
  - intros c' s' Hlt' Hrun. rewrite acquire_eq in Hrun; [|auto|eapply held_nonneg; by apply Hh].
    rewrite Ht in Hrun. by destruct (holds s c' lk).
  - intros c' s' Hlt' Hne Hrun. apply release_holds in Hrun as (Hl' & _ & _); [|done..].
    unfold holds in Hl'. to_prop. congruence.
Qed.

(** The holder keeps the lock through the steps of the others. *)
Lemma holds_stable s s' c lk :
  spin_inv s -> (c < ncpu s)%nat -> holds s c lk = true -> spin_step s s' ->
  holds s' c lk = true \/ release c lk s = Ret tt s'.
Proof.
  intros Hinv Hlt Hlk Hstep. pose proof Hinv as (Hc & Hl & Hh).
  destruct Hstep as [s s' c' lk' Hlt' Hrun | s s' c' lk' Hlt' Hrun | s s' c' Hlt' Hrun
                    | s s' c' Hlt' Hb Hrun].
  - left. rewrite acquire_eq in Hrun; [|auto|eapply held_nonneg; by apply Hh].
    destruct (holds s c' lk') eqn:E; [done|]. destruct (c_true _) eqn:El; [done|].
    injection Hrun as <-. rewrite holds_acquired. case_decide; [subst|done].
    unfold holds in Hlk. by rewrite El in Hlk.
  - pose proof (release_holds _ _ _ _ Hinv Hlt' Hrun) as (Hl' & _ & ->).
    rewrite holds_released. case_decide; [subst|by left]. right.
    unfold holds in Hl', Hlk. to_prop. assert (c = c') as -> by congruence. done.
  - left. rewrite pushcli_eq in Hrun by auto. injection Hrun as <-.
    rewrite (holds_locks s); [done|]. by rewrite locks_pushed.
  - left. destruct (Hh c' Hlt') as [_ Hi]. pose proof (held_nonneg _ _ _ Hb).
    rewrite popcli_eq in Hrun by (split_and!; [auto | apply Hi; lia | lia]). injection Hrun as <-.
    rewrite (holds_locks s); [done|]. by rewrite locks_popped.
Qed.

(** ** A two-processor machine, for the examples *)

Definition demo_cpu (id : Z) : cpu := Cpu id 0 0 0 1 0 0 None None.
Definition demo_mach : mach :=
  Mach [demo_cpu 0; demo_cpu 4] 2 [Hw FL_IF 0 0 0; Hw FL_IF 4 0 0]
       (fun _ => Spinlock 0 "lock" None (replicate 10 0)) (fun _ => 0) (fun _ => 0).

Lemma demo_cpu_ok c : (c < 2)%nat -> cpu_ok demo_mach c.
Proof.
  intros Hc. split; [done|]. destruct c as [|[|c]]; [| |lia].
  - exists 0. split_and!; [done..|lia].
  - exists 4. split_and!; [done..|]. intros j Hj. assert (j = O) as -> by lia. done.
Qed.

Lemma demo_spin_init : spin_init demo_mach.
Proof.
  split; [|done]. intros c Hc. split; [by apply demo_cpu_ok|].
  by destruct c as [|[|c]].
Qed.

Lemma pushcli_popcli_nesting_witness :
  exists s1 s2,
    repeatM 3 (pushcli 0) demo_mach = Ret tt s1 /\ ((0 < 3)%nat -> iflag s1 0 = false) /\
    repeatM 3 (popcli 0) s1 = Ret tt s2 /\
    iflag s2 0 = iflag demo_mach 0 /\ ncli_of s2 0 = ncli_of demo_mach 0 /\ locks s2 = locks demo_mach.
Proof.
  apply (pushcli_popcli_nesting 3 demo_mach 0); [apply demo_cpu_ok; lia | done | done].
Defined.

Lemma spinlock_exclusion_witness :
  let s := acquired demo_mach 1 LPtable in
  iflag s 1 = false /\
  (forall c' s', (c' < ncpu s)%nat -> acquire c' LPtable s <> Ret tt s') /\
  (forall c' s', (c' < ncpu s)%nat -> c' <> 1%nat -> release c' LPtable s <> Ret tt s').
Proof.
  cbv zeta. apply (spinlock_exclusion demo_mach (acquired demo_mach 1 LPtable) 1 LPtable).
  - apply demo_spin_init.
  - apply rtc_once. apply (step_acquire _ _ 1 LPtable); [simpl; lia|].
    apply acquire_eq; [apply demo_cpu_ok; lia | done].
  - simpl. lia.
  - reflexivity.
Defined.
