(* ===== verification/ProcDefs.v ===== *)
(** * Processes and threads: state and shared helpers

    Models proc.h, kthread.h and the data of proc.c: the process table with
    its threads, the mutex table, the counters, and the view of the rest of the
    kernel that proc.c calls into.  A pointer into a table is the index of the
    slot ([option] for a pointer that may be null); a sleep channel is the
    address of a kernel object. *)
From S2P Require Import Prelude Spinlock.
Local Open Scope Z_scope.
Local Open Scope kernel_scope.

(** ** Constants (param.h, kthread.h, mmu.h) *)
Definition NPROC : nat := 64.
Definition NTHREAD : nat := 16.
Definition NOFILE : nat := 16.
Definition MAX_MUTEXES : nat := 64.
Definition KSTACKSIZE : Z := 4096.
Definition MAX_STACK_SIZE : Z := 4000.
Definition PGSIZE : Z := 4096.
Definition SEG_UCODE : Z := 3.
Definition SEG_UDATA : Z := 4.
Definition DPL_USER : Z := 3.

(** ** Data *)

Inductive procstate := PUNUSED | PEMBRYO | PUSED | PZOMBIE.
Inductive threadstate :=
  TUNUSED | TEMBRYO | TSLEEPING | TRUNNABLE | TRUNNING | TZOMBIE | TINVALID.
Inductive mutexstate := MUNLOCKED | MLOCKED.

#[export] Instance procstate_eq : EqDecision procstate.
Proof. solve_decision. Defined.
#[export] Instance threadstate_eq : EqDecision threadstate.
Proof. solve_decision. Defined.
#[export] Instance mutexstate_eq : EqDecision mutexstate.
Proof. solve_decision. Defined.

(** The value of an enumerator. *)
Definition threadstate_code (t : threadstate) : Z :=
  match t with
  | TUNUSED => 0 | TEMBRYO => 1 | TSLEEPING => 2 | TRUNNABLE => 3
  | TRUNNING => 4 | TZOMBIE => 5 | TINVALID => 6
  end.

(** Addresses of kernel objects that threads sleep on. *)
Inductive kaddr :=
| AProc (p : nat)          (* &ptable.proc[p] *)
| AThread (p t : nat)      (* &ptable.proc[p].threads[t] *)
| AMutex (m : nat)         (* &mtable.mutex[m] *)
| ATicks                   (* &ticks *)
| ALog                     (* &log *)
| AInput                   (* &input.r *)
| ABuf (b : nat)           (* a disk buffer *)
| ASleepLock (k : nat)     (* a sleep lock *)
| APipeRead (p : nat)      (* &p->nread *)
| APipeWrite (p : nat).    (* &p->nwrite *)

#[export] Instance kaddr_eq : EqDecision kaddr.
Proof. solve_decision. Defined.

(** [struct trapframe] without its padding. *)
Record trapframe := Trapframe {
  tf_edi : Z; tf_esi : Z; tf_ebp : Z; tf_oesp : Z; tf_ebx : Z; tf_edx : Z; tf_ecx : Z; tf_eax : Z;
  tf_gs : Z; tf_fs : Z; tf_es : Z; tf_ds : Z; tf_trapno : Z;
  tf_err : Z; tf_eip : Z; tf_cs : Z; tf_eflags : Z; tf_esp : Z; tf_ss : Z
}.
#[export] Instance trapframe_eta : Eta trapframe := fun r =>
  Trapframe (tf_edi r) (tf_esi r) (tf_ebp r) (tf_oesp r) (tf_ebx r) (tf_edx r) (tf_ecx r) (tf_eax r)
    (tf_gs r) (tf_fs r) (tf_es r) (tf_ds r) (tf_trapno r)
    (tf_err r) (tf_eip r) (tf_cs r) (tf_eflags r) (tf_esp r) (tf_ss r).
Definition tf_zero : trapframe := Trapframe 0 0 0 0 0 0 0 0 0 0 0 0 0 0 0 0 0 0 0.
Definition sizeof_trapframe : Z := 76.
Definition sizeof_context : Z := 20.

(** Which call of [sleep] a sleeping thread returns to. *)
Inductive caller :=
| CWait                       (* wait *)
| CJoin (t : nat) (tid : Z)   (* kthread_join, its local t and argument *)
| CJoin2 (p t : nat)          (* kthread_join2 *)
| CMutexLock (m : nat)        (* kthread_mutex_lock, its local m *)
| CTicks (n ticks0 : Z)       (* sys_sleep *)
| COther.                     (* a sleep of another component *)

(** What [kill_other_threads] returns to. *)
Inductive after := AfterExit | AfterExec.

(** Where a switched-out kernel thread continues: the meaning of the saved
    kernel stack.  [RForkret] is the stack that [allocthread] and
    [kthread_create] build by hand. *)
Inductive resume :=
| RForkret
| RYield
| RSleep (chan : option kaddr) (lk : lockid) (who : caller)
| RKillOthers (a : after)
| RKthreadExit
| RZombie.

(** [struct thread].  [tf_ptr] and [ctx_ptr] are the pointers [tf] and
    [context], [tf] the trap frame they lead to, [kcont] what the saved context
    continues with, paired with the [intena] local of [sched]. *)
Record thread := Thread {
  tid : Z;
  tstate : threadstate;
  kstack : Z;
  tparent : option nat;
  tf_ptr : Z;
  tf : trapframe;
  ctx_ptr : Z;
  kcont : option (resume * Z);
  chan : option kaddr;
  tkilled : Z;
  tmutex : option nat
}.
#[export] Instance thread_eta : Eta thread := fun r =>
  Thread (tid r) (tstate r) (kstack r) (tparent r) (tf_ptr r) (tf r) (ctx_ptr r) (kcont r)
         (chan r) (tkilled r) (tmutex r).

(** [struct proc]; its [lock] is [LProc] of its index. *)
Record proc := Proc {
  psz : Z;
  pgdir : Z;
  pstate : procstate;
  pid : Z;
  pparent : option nat;
  pkilled : Z;
  ofile : list (option nat);
  cwd : option nat;
  pname : list Z;
  threads : list thread;
  num_of_threads : Z;
  invalid : Z
}.
#[export] Instance proc_eta : Eta proc := fun r =>
  Proc (psz r) (pgdir r) (pstate r) (pid r) (pparent r) (pkilled r) (ofile r) (cwd r) (pname r)
       (threads r) (num_of_threads r) (invalid r).

(** [struct kthread_mutex_t] *)
Record mutex := Mutex {
  mthread : option (nat * nat);
  mproc : option nat;
  mid : Z;
  mstate : mutexstate
}.
#[export] Instance mutex_eta : Eta mutex :=
  fun r => Mutex (mthread r) (mproc r) (mid r) (mstate r).

(** The globals of proc.c, with the processors and locks, the tick counter of
    trap.c, the [first] flag of [forkret], and the rest of the kernel [ext]. *)
Record kst (E : Type) := Kst {
  mch : mach;
  procs : list proc;
  mutexes : list mutex;
  initproc : option nat;
  nextpid : Z;
  nexttid : Z;
  nextmid : Z;
  helper : nat;
  ticks : Z;
  forkret_first : bool;
  ext : E
}.
Arguments Kst {E}. Arguments mch {E}. Arguments procs {E}. Arguments mutexes {E}.
Arguments initproc {E}. Arguments nextpid {E}. Arguments nexttid {E}. Arguments nextmid {E}.
Arguments helper {E}. Arguments ticks {E}. Arguments forkret_first {E}. Arguments ext {E}.
#[export] Instance kst_eta {E} : Eta (kst E) := fun r =>
  Kst (mch r) (procs r) (mutexes r) (initproc r) (nextpid r) (nexttid r) (nextmid r) (helper r)
      (ticks r) (forkret_first r) (ext r).

(** Why a run stops: it spins on a lock, the thread switched to the scheduler,
    or it sleeps inside another component. *)
Inductive kstop :=
| KSpin (lk : lockid)
| KSwitch
| KBlocked (a : kaddr).

(** ** What proc.c calls in the other components

    kalloc.c, vm.c, file.c, fs.c and log.c, acting on their own state [E].
    [Stop a] is a sleep on [a].  File system code also reads the running process and
    thread ([sv_load]), writes user memory ([sv_flush]), the open files and the current
    directory, and calls [wakeup]; these calls are collected in [sv_wakes] and forgotten
    by [sv_awake] when they have been made (see [onf] in Proc.v). *)
Class Services (E : Type) := {
  sv_kalloc : M E kaddr Z;
  sv_kfree : Z -> M E kaddr unit;
  sv_setupkvm : M E kaddr Z;
  sv_inituvm : Z -> M E kaddr unit;
  sv_copyuvm : Z -> Z -> M E kaddr Z;
  sv_allocuvm : Z -> Z -> Z -> M E kaddr Z;
  sv_deallocuvm : Z -> Z -> Z -> M E kaddr Z;
  sv_freevm : Z -> M E kaddr unit;
  sv_kpgdir : E -> Z;
  sv_filedup : nat -> M E kaddr nat;
  sv_fileclose : nat -> M E kaddr unit;
  sv_idup : option nat -> M E kaddr (option nat);
  sv_iput : option nat -> M E kaddr unit;
  sv_begin_op : M E kaddr unit;
  sv_end_op : M E kaddr unit;
  sv_namei_root : M E kaddr (option nat);
  sv_fsinit : M E kaddr unit;
  sv_load : proc -> thread -> E -> E;
  sv_flush : proc -> E -> E;
  sv_ofile : E -> list (option nat);
  sv_cwd : E -> nat;
  sv_wakes : E -> list kaddr;
  sv_awake : E -> E
}.

Section Helpers.
Context {E : Type}.
Definition K (A : Type) : Type := M (kst E) kstop A.

(** Code of spinlock.c and proc.c that only touches processors and locks. *)
Definition onm {A} (m : M mach lockid A) : K A :=
  zoom mch (fun t s => s <| mch := t |>) KSpin m.
(** A call into kalloc.c or vm.c, or of a function that only changes a reference count. *)
Definition ons {A} (m : M E kaddr A) : K A :=
  zoom ext (fun t s => s <| ext := t |>) KBlocked m.

Definition acq (c : nat) (lk : lockid) : K unit := onm (acquire c lk).
Definition rel (c : nat) (lk : lockid) : K unit := onm (release c lk).

Definition get_proc (s : kst E) (p : nat) : option proc := procs s !! p.
Definition get_thread (s : kst E) (p t : nat) : option thread :=
  pr ← procs s !! p; threads pr !! t.
Definition get_mutex (s : kst E) (m : nat) : option mutex := mutexes s !! m.

Definition set_proc (p : nat) (f : proc -> proc) (s : kst E) : kst E :=
  s <| procs ::= alter f p |>.
Definition set_thread (p t : nat) (f : thread -> thread) (s : kst E) : kst E :=
  set_proc p (fun pr => pr <| threads ::= alter f t |>) s.
Definition set_mutex (m : nat) (f : mutex -> mutex) (s : kst E) : kst E :=
  s <| mutexes ::= alter f m |>.

(** [p->f], [t->f], [m->f] for a valid pointer. *)
Definition proc_at (p : nat) : K proc :=
  do o <- gets (fun s => get_proc s p); derefM "proc out of range" o.
Definition thread_at (pt : nat * nat) : K thread :=
  do o <- gets (fun s => get_thread s pt.1 pt.2); derefM "thread out of range" o.
Definition mutex_at (m : nat) : K mutex :=
  do o <- gets (fun s => get_mutex s m); derefM "mutex out of range" o.

Definition upd_proc (p : nat) (f : proc -> proc) : K unit := modify (set_proc p f).
Definition upd_thread (pt : nat * nat) (f : thread -> thread) : K unit :=
  modify (set_thread pt.1 pt.2 f).
Definition upd_mutex (m : nat) (f : mutex -> mutex) : K unit := modify (set_mutex m f).

(** [myproc()] and [mythread()]. *)
Definition myproc (c : nat) : K (option nat) :=
  onm (pushcli c;;
       do i <- mycpu c;
       do p <- cpu_field cproc i;
       popcli c;;
       ret p).

Definition mythread (c : nat) : K (option (nat * nat)) :=
  onm (pushcli c;;
       do i <- mycpu c;
       do t <- cpu_field cthread i;
       popcli c;;
       ret t).
End Helpers.
