(* ===== verification/Proc.v ===== *)
(** * proc.c: processes, threads and scheduling

    One definition per function of proc.c.  A function that calls [sched] ends
    there with [Stop KSwitch], after saving where it continues in the thread;
    [resume_thread] is the code that runs when the scheduler switches back.  A
    loop around [sleep] is therefore one pass of its body, run at the call and
    again at every resumption. *)
From S2P Require Import Prelude Cstring Spinlock ProcDefs.
Local Open Scope Z_scope.
Local Open Scope kernel_scope.

Section Proc.
Context {E : Type} `{SV : Services E}.
Local Abbreviation K := (@K E).

(** ** Channels *)

(** The body of the loop of [wakeup1] and [wakeup2]. *)
Definition wake_thread (ch : option kaddr) (t : thread) : thread :=
  if bool_decide (tstate t = TSLEEPING) && bool_decide (chan t = ch)
  then t <| tstate := TRUNNABLE |> else t.

Definition wakeup1 (ch : option kaddr) : K unit :=
  modify (fun s => s <| procs ::= fmap (fun p => p <| threads ::= fmap (wake_thread ch) |>) |>).

Definition wakeup2 (curproc : nat) (ch : option kaddr) : K unit :=
  upd_proc curproc (fun p => p <| threads ::= fmap (wake_thread ch) |>).

Definition wakeup (c : nat) (ch : option kaddr) : K unit :=
  acq c LPtable;; wakeup1 ch;; rel c LPtable.

(** ** Calls into the file system and the drivers *)

(** The result, or the address that the call sleeps on. *)
Definition caught {A} (m : M E kaddr A) : M E kaddr (A + kaddr) := fun e =>
  match m e with
  | Ret a e' => Ret (inl a) e'
  | Stop r e' => Ret (inr r) e'
  | Panic w e' => Panic w e'
  | Undef w e' => Undef w e'
  end.

(** A call that may call [wakeup] and [sleep]: its wakeups are made on the thread table.
    When it sleeps, the run ends there. *)
Definition calling {A} (c : nat) (m : M E kaddr A) : K (A + kaddr) :=
  do o <- ons (caught m);
  do ws <- gets (fun s => sv_wakes (ext s));
  modify (fun s => s <| ext ::= sv_awake |>);;
  forM ws (fun a => wakeup c (Some a));;
  ret o.
Definition finish {A} (o : A + kaddr) : K A :=
  match o with inl a => ret a | inr r => stop (KBlocked r) end.

(** An interrupt handler. *)
Definition onw {A} (c : nat) (m : M E kaddr A) : K A := do o <- calling c m; finish o.

(** A call for the running process: the code sees its fields, and the entries of [ofile],
    [cwd] and the user memory are as the code left them, also when it sleeps. *)
Definition onf {A} (c : nat) (m : M E kaddr A) : K A :=
  do p <- myproc c;
  do p <- derefM "no process" p;
  do ct <- mythread c;
  do ct <- derefM "no thread" ct;
  do pr <- proc_at p;
  do t <- thread_at ct;
  modify (fun s => s <| ext ::= sv_load pr t |>);;
  do o <- calling c m;
  modify (fun s => s <| ext ::= sv_flush pr |>);;
  do e <- gets ext;
  upd_proc p (fun pr => pr <| ofile ::= imap (fun i f => default f (sv_ofile e !! i)) |>
                           <| cwd ::= fmap (fun _ => sv_cwd e) |>);;
  finish o.

(** ** Switching *)

(** [sched()], called where the thread then continues with [r]. *)
Definition sched (c : nat) (r : resume) : K unit :=
  do curthread <- mythread c;
  do h <- onm (holding c LPtable);
  if negb h then panic "sched ptable.lock" else
  do n <- onm (do i <- mycpu c; cpu_field ncli i);
  if negb (n =? 1) then panic "sched locks" else
  do ct <- derefM "sched: no thread" curthread;
  do t <- thread_at ct;
  if bool_decide (tstate t = TRUNNING) then panic "sched running" else
  do f <- onm (readeflags c);
  if if_set f then panic "sched interruptible" else
  do e <- onm (do i <- mycpu c; cpu_field intena i);
  upd_thread ct (fun t => t <| kcont := Some (r, e) |>);;
  stop KSwitch.

(** The rest of [sched] after the switch back: mycpu()->intena = intena. *)
Definition sched_back (c : nat) (e : Z) : K unit :=
  onm (do i <- mycpu c; set_cpu i (fun cp => cp <| intena := e |>)).

Definition yield (c : nat) : K unit :=
  acq c LPtable;;
  do ct <- mythread c;
  do ct <- derefM "yield: no thread" ct;
  upd_thread ct (fun t => t <| tstate := TRUNNABLE |>);;
  sched c RYield.

(** [sleep(chan, lk)] up to [sched]; [lk = None] is the null pointer. *)
Definition sleep (c : nat) (ch : option kaddr) (lk : option lockid) (who : caller) : K unit :=
  do curproc <- myproc c;
  do curthread <- mythread c;
  match curproc with
  | None => panic "sleep"
  | Some _ =>
    match lk with
    | None => panic "sleep without lk"
    | Some lk =>
      whenM (negb (bool_decide (lk = LPtable))) (acq c LPtable;; rel c lk);;
      do ct <- derefM "sleep: no thread" curthread;
      upd_thread ct (fun t => t <| chan := ch |>);;
      upd_thread ct (fun t => t <| tstate := TSLEEPING |>);;
      sched c (RSleep ch lk who)
    end
  end.

(** [sleep] after [sched] returned. *)
Definition sleep_back (c : nat) (lk : lockid) : K unit :=
  do ct <- mythread c;
  do ct <- derefM "sleep: no thread" ct;
  upd_thread ct (fun t => t <| chan := None |>);;
  whenM (negb (bool_decide (lk = LPtable))) (rel c LPtable;; acq c lk).

(** [forkret()]: the first code a new thread runs. *)
Definition forkret (c : nat) : K unit :=
  rel c LPtable;;
  do first <- gets forkret_first;
  whenM first (modify (fun s => s <| forkret_first := false |>);; onf c sv_fsinit).

(** ** Address spaces (vm.c) *)

Definition SEG_KDATA : Z := 2.
Definition SEG_TSS : Z := 5.
Definition V2P (a : Z) : Z := u32 (a - KERNBASE).

Definition set_hw (c : nat) (f : hw -> hw) : K unit :=
  onm (modify (fun s => s <| hws ::= alter f c |>)).

(** [switchuvm(p, t)]: the task state and the page table register; the task
    descriptor in the [gdt] is not modelled. *)
Definition switchuvm (c : nat) (p : option nat) (t : option (nat * nat)) : K unit :=
  match p with
  | None => panic "switchuvm: no process"
  | Some p =>
    do ct <- derefM "switchuvm: no thread" t;
    do th <- thread_at ct;
    if kstack th =? 0 then panic "switchuvm: no kstack" else
    do pr <- proc_at p;
    if pgdir pr =? 0 then panic "switchuvm: no pgdir" else
    onm (pushcli c);;
    onm (do i <- mycpu c;
         set_cpu i (fun cp => cp <| ts_ss0 := Z.shiftl SEG_KDATA 3 |>
                                 <| ts_esp0 := u32 (kstack th + KSTACKSIZE) |>
                                 <| ts_iomb := 0xFFFF |>));;
    set_hw c (fun h => h <| tr := Z.shiftl SEG_TSS 3 |>);;
    set_hw c (fun h => h <| cr3 := V2P (pgdir pr) |>);;
    onm (popcli c)
  end.

Definition switchkvm (c : nat) : K unit :=
  do k <- gets (fun s => sv_kpgdir (ext s));
  set_hw c (fun h => h <| cr3 := V2P k |>).

(** ** Allocation *)

(** [i++] of an [int] counter. *)
Definition incr (z : Z) : Z := s32 (z + 1).

(** The kernel stack of a new thread: the trap frame at the top, the return
    address [trapret] below it, then a context that starts at [forkret]. *)
Definition setup_kstack (ct : nat * nat) : K unit :=
  do t <- thread_at ct;
  let sp := u32 (kstack t + KSTACKSIZE) in
  let sp := u32 (sp - sizeof_trapframe) in
  upd_thread ct (fun t => t <| tf_ptr := sp |>);;
  let sp := u32 (sp - 4) in
  let sp := u32 (sp - sizeof_context) in
  upd_thread ct (fun t => t <| ctx_ptr := sp |> <| kcont := Some (RForkret, 0) |>).

Definition is_unused (p : proc) : Prop := pstate p = PUNUSED.
#[export] Instance is_unused_dec p : Decision (is_unused p).
Proof. unfold is_unused. apply _. Defined.

(** The two searches at the head of [allocthread]. *)
Definition find_unused (s : kst E) : option nat :=
  match list_find is_unused (drop (helper s) (procs s)) with
  | Some (i, _) => Some (helper s + i)%nat
  | None => fst <$> list_find is_unused (procs s)
  end.

Definition allocthread (c : nat) : K (option (nat * nat)) :=
  do found <- gets find_unused;
  match found with
  | None => ret None
  | Some p =>
    modify (fun s => s <| helper ::= fun h => if (h =? NPROC - 1)%nat then 0%nat else S h |>);;
    do n <- gets nextpid;
    upd_proc p (fun pr => pr <| pid := n |>);;
    modify (fun s => s <| nextpid ::= incr |>);;
    upd_proc p (fun pr => pr <| pstate := PEMBRYO |>);;
    onm (initlock (LProc p) "plock");;
    let t := (p, 0%nat) in
    upd_thread t (fun th => th <| tstate := TEMBRYO |>);;
    do n <- gets nexttid;
    upd_thread t (fun th => th <| tid := n |>);;
    modify (fun s => s <| nexttid ::= incr |>);;
    upd_thread t (fun th => th <| tparent := Some p |>);;
    do ks <- ons sv_kalloc;
    upd_thread t (fun th => th <| kstack := ks |>);;
    if ks =? 0 then
      upd_proc p (fun pr => pr <| pstate := PUNUSED |>);;
      upd_thread t (fun th => th <| tstate := TUNUSED |>);;
      ret None
    else
      setup_kstack t;;
      ret (Some t)
  end.

Definition bytes_of_string (s : string) : list Z :=
  (fun a => Z.of_nat (Ascii.nat_of_ascii a)) <$> String.list_ascii_of_string s.

Definition set_name (p : nat) (src : list Z) : K unit :=
  do pr <- proc_at p;
  do nm <- derefM "safestrcpy" (safestrcpy (pname pr) src 16);
  upd_proc p (fun pr => pr <| pname := nm |>).

(** [userinit()] *)
Definition userinit (c : nat) : K unit :=
  acq c LPtable;;
  do t <- allocthread c;
  do t <- derefM "userinit: no thread" t;
  do th <- thread_at t;
  do p <- derefM "userinit: no parent" (tparent th);
  modify (fun s => s <| initproc := Some p |>);;
  do pg <- ons sv_setupkvm;
  upd_proc p (fun pr => pr <| pgdir := pg |>);;
  if pg =? 0 then panic "userinit: out of memory?" else
  ons (sv_inituvm pg);;
  upd_proc p (fun pr => pr <| psz := PGSIZE |>);;
  let seg (n : Z) := Z.lor (Z.shiftl n 3) DPL_USER in
  upd_thread t (fun th => th <| tf := tf_zero
      <| tf_cs := seg SEG_UCODE |> <| tf_ds := seg SEG_UDATA |> <| tf_es := seg SEG_UDATA |>
      <| tf_ss := seg SEG_UDATA |> <| tf_eflags := FL_IF |> <| tf_esp := PGSIZE |> <| tf_eip := 0 |> |>);;
  set_name p (bytes_of_string "initcode" ++ [0]);;
  do ip <- ons sv_namei_root;
  upd_proc p (fun pr => pr <| cwd := ip |>);;
  upd_proc p (fun pr => pr <| pstate := PUSED |>);;
  upd_thread t (fun th => th <| tstate := TRUNNABLE |>);;
  rel c LPtable.

(** [growproc(n)] *)
Definition growproc (c : nat) (n : Z) : K Z :=
  do curproc <- myproc c;
  do ct <- mythread c;
  do cp <- derefM "growproc: no process" curproc;
  acq c (LProc cp);;
  do pr <- proc_at cp;
  let sz := psz pr in
  do sz <- (if 0 <? n then ons (sv_allocuvm (pgdir pr) sz (u32 (sz + n)))
            else if n <? 0 then ons (sv_deallocuvm (pgdir pr) sz (u32 (sz + n)))
            else ret sz);
  if negb (n =? 0) && (sz =? 0) then rel c (LProc cp);; ret (-1) else
  upd_proc cp (fun pr => pr <| psz := sz |>);;
  switchuvm c curproc ct;;
  rel c (LProc cp);;
  ret 0.

(** for(i = 0; i < NOFILE; i++) if(curproc->ofile[i]) p->ofile[i] = filedup(curproc->ofile[i]); *)
Definition dup_files (curproc p : nat) : K unit :=
  forM (seq 0 NOFILE) (fun i =>
    do pr <- proc_at curproc;
    do o <- derefM "ofile" (ofile pr !! i);
    match o with
    | None => ret tt
    | Some f => do f' <- ons (sv_filedup f);
                upd_proc p (fun pr => pr <| ofile ::= <[i := Some f']> |>)
    end).

Definition fork (c : nat) : K Z :=
  do curproc <- myproc c;
  do curthread <- mythread c;
  acq c LPtable;;
  do t <- allocthread c;
  match t with
  | None => rel c LPtable;; ret (-1)
  | Some t =>
    do th <- thread_at t;
    do p <- derefM "fork: no parent" (tparent th);
    do cp <- derefM "fork: no process" curproc;
    do cpr <- proc_at cp;
    do pg <- ons (sv_copyuvm (pgdir cpr) (psz cpr));
    upd_proc p (fun pr => pr <| pgdir := pg |>);;
    if pg =? 0 then
      do th <- thread_at t;
      ons (sv_kfree (kstack th));;
      upd_thread t (fun th => th <| kstack := 0 |>);;
      upd_thread t (fun th => th <| tstate := TUNUSED |>);;
      upd_proc p (fun pr => pr <| pstate := PUNUSED |>);;
      rel c LPtable;;
      ret (-1)
    else
      do cpr <- proc_at cp;
      upd_proc p (fun pr => pr <| psz := psz cpr |>);;
      upd_proc p (fun pr => pr <| pparent := Some cp |>);;
      do ct <- derefM "fork: no thread" curthread;
      do cth <- thread_at ct;
      upd_thread t (fun th => th <| tf := tf cth |>);;
      upd_thread t (fun th => th <| tf ::= fun f => f <| tf_eax := 0 |> |>);;
      dup_files cp p;;
      do cpr <- proc_at cp;
      do ip <- ons (sv_idup (cwd cpr));
      upd_proc p (fun pr => pr <| cwd := ip |>);;
      set_name p (pname cpr);;
      do pr <- proc_at p;
      let r := pid pr in
      upd_proc p (fun pr => pr <| pstate := PUSED |>);;
      upd_thread t (fun th => th <| tstate := TRUNNABLE |>);;
      rel c LPtable;;
      ret r
  end.

(** ** Mutexes *)

Definition find_mutex (id : Z) (s : kst E) : option nat :=
  fst <$> list_find (fun m => mid m = id) (mutexes s).

Definition kthread_mutex_alloc (c : nat) : K Z :=
  do curproc <- myproc c;
  do curthread <- mythread c;
  acq c LMtable;;
  do found <- gets (find_mutex 0);
  match found with
  | Some m =>
    do n <- gets nextmid;
    upd_mutex m (fun x => x <| mid := n |>);;
    modify (fun s => s <| nextmid ::= incr |>);;
    upd_mutex m (fun x => x <| mthread := None |>);;
    upd_mutex m (fun x => x <| mproc := curproc |>);;
    do ct <- derefM "mutex_alloc: no thread" curthread;
    upd_thread ct (fun t => t <| tmutex := Some m |>);;
    upd_mutex m (fun x => x <| mstate := MUNLOCKED |>);;
    rel c LMtable;;
    do x <- mutex_at m;
    ret (mid x)
  | None => rel c LMtable;; ret (-1)
  end.

Definition kthread_mutex_dealloc (c : nat) (mutex_id : Z) : K Z :=
  do curthread <- mythread c;
  acq c LMtable;;
  do found <- gets (find_mutex mutex_id);
  match found with
  | Some m =>
    do x <- mutex_at m;
    if bool_decide (mstate x = MLOCKED) then rel c LMtable;; ret (-1) else
    upd_mutex m (fun x => x <| mid := 0 |>);;
    upd_mutex m (fun x => x <| mthread := None |>);;
    upd_mutex m (fun x => x <| mstate := MUNLOCKED |>);;
    do ct <- derefM "mutex_dealloc: no thread" curthread;
    upd_thread ct (fun t => t <| tmutex := None |>);;
    rel c LMtable;;
    ret 0
  | None => rel c LMtable;; ret (-1)
  end.

(** One pass of while(xchg(&m->state, MLOCKED) != 0) sleep(m, &mtable.mlock);
    and what follows the loop. *)
Definition mutex_lock_pass (c m : nat) : K Z :=
  do x <- mutex_at m;
  upd_mutex m (fun x => x <| mstate := MLOCKED |>);;
  if bool_decide (mstate x = MLOCKED) then
    sleep c (Some (AMutex m)) (Some LMtable) (CMutexLock m);; ret 0
  else
    do curthread <- mythread c;
    upd_mutex m (fun x => x <| mthread := curthread |>);;
    rel c LMtable;;
    ret 0.

Definition kthread_mutex_lock (c : nat) (mutex_id : Z) : K Z :=
  do curthread <- mythread c;
  acq c LMtable;;
  do found <- gets (find_mutex mutex_id);
  match found with
  | Some m =>
    do x <- mutex_at m;
    if bool_decide (mstate x = MLOCKED) && bool_decide (mthread x = curthread)
    then rel c LMtable;; ret (-1)
    else mutex_lock_pass c m
  | None => rel c LMtable;; ret (-1)
  end.

Definition kthread_mutex_unlock (c : nat) (mutex_id : Z) : K Z :=
  acq c LMtable;;
  do found <- gets (find_mutex mutex_id);
  match found with
  | Some m =>
    do x <- mutex_at m;
    do bad <- (if bool_decide (mstate x = MUNLOCKED) then ret true else
               do ow <- derefM "m->mythread is null" (mthread x);
               do owt <- thread_at ow;
               do ct <- mythread c;
               do ct <- derefM "mutex_unlock: no thread" ct;
               do cth <- thread_at ct;
               ret (negb (tid owt =? tid cth)));
    if bad : bool then rel c LMtable;; ret (-1) else
    upd_mutex m (fun x => x <| mthread := None |>);;
    upd_mutex m (fun x => x <| mstate := MUNLOCKED |>);;
    rel c LMtable;;
    wakeup c (Some (AMutex m));;
    ret 0
  | None => rel c LMtable;; ret (-1)
  end.

(** ** Exit and wait *)

Definition remove_thread (c : nat) (ct : nat * nat) : K unit :=
  do t <- thread_at ct;
  whenM (negb (kstack t =? 0)) (ons (sv_kfree (kstack t)));;
  match tmutex t with
  | Some m => do x <- mutex_at m; do _ <- kthread_mutex_dealloc c (mid x); ret tt
  | None => ret tt
  end;;
  upd_thread ct (fun t => t <| kstack := 0 |> <| tid := 0 |> <| tstate := TUNUSED |>
                            <| tparent := None |> <| tkilled := 0 |>).

(** The inner loop of [kill_other_threads]; the result is [found]. *)
Fixpoint kill_scan (c p : nat) (curthread : nat * nat) (ts : list nat) (found : bool) : K bool :=
  match ts with
  | [] => ret found
  | i :: ts' =>
    do t <- thread_at (p, i);
    do ct <- thread_at curthread;
    if negb (tid t =? tid ct) && negb (bool_decide (tstate t = TUNUSED)) then
      upd_thread (p, i) (fun t => t <| tkilled := 1 |>);;
      whenM (bool_decide (tstate t = TSLEEPING) || bool_decide (tstate t = TZOMBIE))
            (remove_thread c (p, i));;
      kill_scan c p curthread ts' true
    else kill_scan c p curthread ts' found
  end.

(** One pass of for(;;) in [kill_other_threads], and the release after it. *)
Definition kill_others_pass (c : nat) (a : after) : K unit :=
  do curproc <- myproc c;
  do curthread <- mythread c;
  do p <- derefM "kill_other_threads: no process" curproc;
  do ct <- derefM "kill_other_threads: no thread" curthread;
  do found <- kill_scan c p ct (seq 0 NTHREAD) false;
  if found : bool then
    upd_thread ct (fun t => t <| tstate := TRUNNABLE |>);;
    sched c (RKillOthers a)
  else rel c LPtable.

Definition kill_other_threads (c : nat) (a : after) : K unit :=
  acq c LPtable;;
  do curthread <- mythread c;
  do ct <- derefM "kill_other_threads: no thread" curthread;
  do t <- thread_at ct;
  if tkilled t =? 1 then
    wakeup1 (Some (AThread ct.1 ct.2));;
    upd_thread ct (fun t => t <| tstate := TZOMBIE |>);;
    sched c (RKillOthers a)
  else kill_others_pass c a.

(** The file-closing loop of [safe_exit]. *)
Definition close_files (c p : nat) : K unit :=
  forM (seq 0 NOFILE) (fun fd =>
    do pr <- proc_at p;
    do o <- derefM "ofile" (ofile pr !! fd);
    match o with
    | None => ret tt
    | Some f => onf c (sv_fileclose f);;
                upd_proc p (fun pr => pr <| ofile ::= <[fd := None]> |>)
    end).

(** "Pass abandoned children to init." *)
Definition abandon (curproc : nat) : K unit :=
  do init <- gets initproc;
  forM (seq 0 NPROC) (fun i =>
    do p <- proc_at i;
    if bool_decide (pparent p = Some curproc) then
      upd_proc i (fun p => p <| pparent := init |>);;
      whenM (bool_decide (pstate p = PZOMBIE)) (wakeup1 (AProc <$> init))
    else ret tt).

Definition safe_exit (c : nat) : K unit :=
  do curproc <- myproc c;
  do curthread <- mythread c;
  do init <- gets initproc;
  if bool_decide (curproc = init) then panic "init exiting" else
  do p <- derefM "safe_exit: no process" curproc;
  do ct <- derefM "safe_exit: no thread" curthread;
  close_files c p;;
  onf c sv_begin_op;;
  do pr <- proc_at p;
  onf c (sv_iput (cwd pr));;
  onf c sv_end_op;;
  upd_proc p (fun pr => pr <| cwd := None |>);;
  acq c LPtable;;
  do pr <- proc_at p;
  wakeup1 (AProc <$> pparent pr);;
  abandon p;;
  upd_proc p (fun pr => pr <| pstate := PZOMBIE |>);;
  upd_thread ct (fun t => t <| tstate := TUNUSED |>);;
  sched c RZombie.

Definition exit (c : nat) : K unit :=
  do curproc <- myproc c;
  do init <- gets initproc;
  if bool_decide (curproc = init) then panic "init exiting" else
  kill_other_threads c AfterExit;;
  safe_exit c.

(** Reaping the zombie child [p] in [wait]. *)
Definition reap (c p : nat) : K Z :=
  forM (seq 0 NTHREAD) (fun i => remove_thread c (p, i));;
  do pr <- proc_at p;
  let r := pid pr in
  ons (sv_freevm (pgdir pr));;
  upd_proc p (fun pr => pr <| pid := 0 |> <| pparent := None |> <| pname ::= <[0%nat := 0]> |>
                           <| pkilled := 0 |> <| pstate := PUNUSED |>);;
  rel c LPtable;;
  ret r.

(** One pass of for(;;) in [wait]. *)
Definition wait_pass (c : nat) : K Z :=
  do curproc <- myproc c;
  do cp <- derefM "wait: no process" curproc;
  do zombie <- gets (fun s => list_find (fun p => pparent p = Some cp /\ pstate p = PZOMBIE) (procs s));
  match zombie with
  | Some (p, _) => reap c p
  | None =>
    do havekids <- gets (fun s => list_find (fun p => pparent p = Some cp) (procs s));
    do pr <- proc_at cp;
    match havekids with
    | None => rel c LPtable;; ret (-1)
    | Some _ =>
      if c_true (pkilled pr) then rel c LPtable;; ret (-1)
      else sleep c (Some (AProc cp)) (Some LPtable) CWait;; ret 0
    end
  end.

Definition wait (c : nat) : K Z := acq c LPtable;; wait_pass c.

Definition kill (c : nat) (id : Z) : K Z :=
  acq c LPtable;;
  do found <- gets (fun s => list_find (fun p => pid p = id) (procs s));
  match found with
  | Some (p, _) =>
    upd_proc p (fun pr => pr <| pkilled := 1 |>);;
    rel c LPtable;;
    ret 0
  | None => rel c LPtable;; ret (-1)
  end.
End Proc.
