(* ===== verification/Kthread.v ===== *)
(** * proc.c: the kernel-thread calls, the scheduler, and resumption *)
From S2P Require Import Prelude Spinlock ProcDefs Proc.
Local Open Scope Z_scope.
Local Open Scope kernel_scope.

Section Kthread.
Context {E : Type} `{SV : Services E}.
Local Abbreviation K := (@K E).

(** ** The kernel-thread calls *)

Definition kthread_create (c : nat) (start_func stack : Z) : K Z :=
  do curproc <- myproc c;
  do curthread <- mythread c;
  acq c LPtable;;
  do p <- derefM "kthread_create: no process" curproc;
  do pr <- proc_at p;
  match list_find (fun t => tstate t = TUNUSED) (threads pr) with
  | None => rel c LPtable;; ret (-1)
  | Some (i, _) =>
    let t := (p, i) in
    upd_thread t (fun th => th <| tstate := TEMBRYO |>);;
    do n <- gets nexttid;
    upd_thread t (fun th => th <| tid := n |>);;
    modify (fun s => s <| nexttid ::= incr |>);;
    upd_thread t (fun th => th <| tparent := Some p |>);;
    do ks <- ons sv_kalloc;
    upd_thread t (fun th => th <| kstack := ks |>);;
    if ks =? 0 then
      upd_thread t (fun th => th <| tstate := TUNUSED |>);;
      rel c LPtable;;
      ret (-1)
    else
      setup_kstack t;;
      do ct <- derefM "kthread_create: no thread" curthread;
      do cth <- thread_at ct;
      upd_thread t (fun th => th <| tf := tf cth |>);;
      upd_thread t (fun th => th <| tf ::= fun f => f <| tf_eip := start_func |> |>);;
      upd_thread t (fun th => th <| tf ::= fun f => f <| tf_esp := u32 (stack + MAX_STACK_SIZE) |> |>);;
      upd_thread t (fun th => th <| tstate := TRUNNABLE |>);;
      rel c LPtable;;
      do th <- thread_at t;
      ret (tid th)
  end.

Definition kthread_id (c : nat) : K Z :=
  do curthread <- mythread c;
  do p <- myproc c;
  match p, curthread with
  | Some _, Some ct => do t <- thread_at ct; ret (tid t)
  | _, _ => ret (-1)
  end.

(** Another thread of the process that is neither free nor a zombie. *)
Definition other_live (self : nat) (ts : list thread) : bool :=
  existsb (fun it => negb (Nat.eqb it.1 self) && negb (bool_decide (it.2.(tstate) = TUNUSED))
                     && negb (bool_decide (it.2.(tstate) = TZOMBIE)))
          (imap pair ts).

Definition kthread_exit (c : nat) : K unit :=
  do curproc <- myproc c;
  do curthread <- mythread c;
  acq c LPtable;;
  do p <- derefM "kthread_exit: no process" curproc;
  do ct <- derefM "kthread_exit: no thread" curthread;
  do pr <- proc_at p;
  let found := other_live ct.2 (threads pr) in
  whenM (negb found) (rel c LPtable;; exit c);;
  upd_thread ct (fun t => t <| tstate := TZOMBIE |>);;
  wakeup2 p (Some (AThread ct.1 ct.2));;
  sched c RKthreadExit.

(** One pass of for(;;) in [kthread_join2]. *)
Definition join2_pass (c p t : nat) : K Z :=
  do th <- thread_at (p, t);
  if negb (bool_decide (tstate th = TZOMBIE)) && negb (bool_decide (tstate th = TUNUSED)) then
    sleep c (Some (AThread p t)) (Some LPtable) (CJoin2 p t);; ret 0
  else if bool_decide (tstate th = TZOMBIE) then rel c LPtable;; ret 0
  else rel c LPtable;; ret (-1).

Definition kthread_join2 (c p t : nat) : K Z := acq c LPtable;; join2_pass c p t.

(** [t->tid] and [t->state] for [t] in [threads], or one past its end: there the
    words of [num_of_threads] and [invalid] follow the array in [struct proc]. *)
Definition tid_at (pr : proc) (t : nat) : option Z :=
  if (t =? NTHREAD)%nat then Some (num_of_threads pr) else tid <$> threads pr !! t.
Definition state_code_at (pr : proc) (t : nat) : option Z :=
  if (t =? NTHREAD)%nat then Some (invalid pr) else threadstate_code ∘ tstate <$> threads pr !! t.

(** One pass of for(;;) in [kthread_join] and what follows the loop. *)
Definition join_pass (c t : nat) (thread_id : Z) : K Z :=
  do curproc <- myproc c;
  do p <- derefM "kthread_join: no process" curproc;
  do pr <- proc_at p;
  do id <- derefM "thread out of range" (tid_at pr t);
  do st <- derefM "thread out of range" (state_code_at pr t);
  if (id =? thread_id) && negb (st =? threadstate_code TZOMBIE) && negb (st =? threadstate_code TUNUSED)
  then sleep c (Some (AThread p t)) (Some LPtable) (CJoin t thread_id);; ret 0
  else if st =? threadstate_code TZOMBIE then
    remove_thread c (p, t);;
    rel c LPtable;;
    ret 0
  else rel c LPtable;; ret (-1).

Definition kthread_join (c : nat) (thread_id : Z) : K Z :=
  do curproc <- myproc c;
  acq c LPtable;;
  do p <- derefM "kthread_join: no process" curproc;
  do pr <- proc_at p;
  let t := match list_find (fun t => tid t = thread_id) (threads pr) with
           | Some (i, _) => i
           | None => NTHREAD
           end in
  join_pass c t thread_id.

(** ** System calls of sysproc.c that sleep on the clock *)

(** One pass of while(ticks - ticks0 < n) in [sys_sleep]; the comparison is
    between [uint]s. *)
Definition sys_sleep_pass (c : nat) (n ticks0 : Z) : K Z :=
  do tk <- gets ticks;
  if u32 (tk - ticks0) <? u32 n then
    do curproc <- myproc c;
    do p <- derefM "sys_sleep: no process" curproc;
    do pr <- proc_at p;
    if c_true (pkilled pr) then rel c LTicks;; ret (-1)
    else sleep c (Some ATicks) (Some LTicks) (CTicks n ticks0);; ret 0
  else rel c LTicks;; ret 0.

(** [sys_sleep] with its argument fetched. *)
Definition sys_sleep (c : nat) (n : Z) : K Z :=
  acq c LTicks;;
  do ticks0 <- gets ticks;
  sys_sleep_pass c n ticks0.

Definition sys_uptime (c : nat) : K Z :=
  acq c LTicks;;
  do xticks <- gets ticks;
  rel c LTicks;;
  ret (s32 xticks).

(** The timer branch of [trap] on the first processor. *)
Definition clock_tick (c : nat) : K unit :=
  do i <- onm (cpuid c);
  whenM (i =? 0)%nat
    (acq c LTicks;;
     modify (fun s => s <| ticks ::= fun t => u32 (t + 1) |>);;
     wakeup c (Some ATicks);;
     rel c LTicks).

(** ** The scheduler

    [c] is the slot [mycpu()] returned when the processor entered
    [scheduler()]. *)

Definition cset (c : nat) (f : cpu -> cpu) : K unit := onm (set_cpu c f).

(** The loop over the threads [ts] of process [p], up to the switch. *)
Fixpoint sched_threads (c p : nat) (ts : list nat) : K (option (nat * nat)) :=
  match ts with
  | [] => ret None
  | i :: ts' =>
    do t <- thread_at (p, i);
    whenM (bool_decide (tstate t = TSLEEPING) && c_true (tkilled t))
          (upd_thread (p, i) (fun t => t <| tstate := TRUNNABLE |>));;
    do t <- thread_at (p, i);
    if negb (bool_decide (tstate t = TRUNNABLE)) then sched_threads c p ts' else
    cset c (fun cp => cp <| cthread := Some (p, i) |>);;
    upd_thread (p, i) (fun t => t <| tstate := TRUNNING |>);;
    switchuvm c (Some p) (Some (p, i));;
    ret (Some (p, i))
  end.

(** The loop over the processes [ps]. *)
Fixpoint sched_procs (c : nat) (ps : list nat) : K (option (nat * nat)) :=
  match ps with
  | [] => ret None
  | p :: ps' =>
    do pr <- proc_at p;
    if negb (bool_decide (pstate pr = PUSED)) then sched_procs c ps' else
    cset c (fun cp => cp <| cproc := Some p |>);;
    do r <- sched_threads c p (seq 0 NTHREAD);
    match r with
    | Some t => ret (Some t)
    | None =>
      cset c (fun cp => cp <| cthread := None |>);;
      cset c (fun cp => cp <| cproc := None |>);;
      sched_procs c ps'
    end
  end.

(** Nothing found in a whole pass: release(&ptable.lock). *)
Definition sched_done (c : nat) (r : option (nat * nat)) : K (option (nat * nat)) :=
  match r with
  | Some t => ret (Some t)
  | None => rel c LPtable;; ret None
  end.

(** A pass of for(;;) from its start: the thread it switches to, if any. *)
Definition scheduler_pass (c : nat) : K (option (nat * nat)) :=
  onm (sti c);;
  acq c LPtable;;
  do r <- sched_procs c (seq 0 NPROC);
  sched_done c r.

(** The rest of the pass after thread [(p, i)] switched back. *)
Definition scheduler_back (c p i : nat) : K (option (nat * nat)) :=
  switchkvm c;;
  cset c (fun cp => cp <| cthread := None |>);;
  do pr <- proc_at p;
  do r <- (if bool_decide (pstate pr = PUSED)
           then sched_threads c p (seq (S i) (NTHREAD - S i)) else ret None);
  do r <- match r with
          | Some t => ret (Some t)
          | None =>
            cset c (fun cp => cp <| cthread := None |>);;
            cset c (fun cp => cp <| cproc := None |>);;
            sched_procs c (seq (S p) (NPROC - S p))
          end;
  sched_done c r.

(** Entering [scheduler()]. *)
Definition scheduler_enter (c : nat) : K unit :=
  do i <- onm (mycpu c); cset i (fun cp => cp <| cproc := None |>).

(** ** Resumption *)

(** What the resumed kernel code goes on to. *)
Inductive kret :=
| KTrapret              (* a new thread returns to user space *)
| KYielded              (* yield() returned *)
| KSys (r : Z)          (* a system call returns r *)
| KExec                 (* exec() goes on after kill_other_threads *)
| KService.             (* another component goes on after sleep *)

Definition resume_caller (c : nat) (who : caller) : K kret :=
  match who with
  | CWait => do r <- wait_pass c; ret (KSys r)
  | CJoin t id => do r <- join_pass c t id; ret (KSys r)
  | CJoin2 p t => do r <- join2_pass c p t; ret (KSys r)
  | CMutexLock m => do r <- mutex_lock_pass c m; ret (KSys r)
  | CTicks n t0 => do r <- sys_sleep_pass c n t0; ret (KSys r)
  | COther => ret KService
  end.

(** swtch(&c->scheduler, t->context): the thread runs on from its saved context. *)
Definition resume_thread (c : nat) (ct : nat * nat) : K kret :=
  do t <- thread_at ct;
  do k <- derefM "no saved context" (kcont t);
  match k.1 with
  | RForkret => forkret c;; ret KTrapret
  | RYield => sched_back c k.2;; rel c LPtable;; ret KYielded
  | RSleep ch lk who => sched_back c k.2;; sleep_back c lk;; resume_caller c who
  | RKillOthers AfterExit =>
    sched_back c k.2;; kill_others_pass c AfterExit;; safe_exit c;; ret (KSys 0)
  | RKillOthers AfterExec => sched_back c k.2;; kill_others_pass c AfterExec;; ret KExec
  | RKthreadExit => sched_back c k.2;; ret (KSys 0)
  | RZombie => sched_back c k.2;; panic "zombie exit"
  end.
End Kthread.
