(* ===== verification/ProcRun.v ===== *)
(** * Running proc.c on one processor

    [runs m c held p t]: processor [c] executes process [p], thread [t], and
    holds exactly the locks [held]; every other lock is free.  Each primitive of
    proc.c that touches the processors is given by what it does to such a state,
    so that the theorems about operations only track the tables. *)
From S2P Require Import Prelude Spinlock ProcDefs Proc.
Local Open Scope Z_scope.
Local Open Scope kernel_scope.

Definition cproc_of (m : mach) (c : nat) : option nat := cp ← cpus m !! c; cproc cp.
Definition cthread_of (m : mach) (c : nat) : option (nat * nat) := cp ← cpus m !! c; cthread cp.

Record runs (m : mach) (c : nat) (held : list lockid) (p : option nat) (t : option (nat * nat)) : Prop := {
  r_ok : cpu_ok m c;
  r_ncli : ncli_of m c = Z.of_nat (length held);
  r_if : held <> [] -> iflag m c = false;
  r_held : forall lk, lk ∈ held -> holds m c lk = true;
  r_free : forall lk, lk ∉ held -> locked (locks m lk) = 0;
  r_proc : cproc_of m c = p;
  r_thread : cthread_of m c = t
}.

Lemma runs_cli_ok m c held p t : held <> [] -> runs m c held p t -> cli_ok m c.
Proof.
  intros Hne [Hok Hn Hi _ _ _ _]. split_and!; [done | auto |].
  rewrite Hn. destruct held; [done|]. simpl. lia.
Qed.

Lemma runs_cli m c lk held p t : runs m c (lk :: held) p t -> cli_ok m c.
Proof. by apply runs_cli_ok. Qed.

Lemma cur_alter m c (f : cpu -> cpu) :
  (forall cp, cproc (f cp) = cproc cp) -> (forall cp, cthread (f cp) = cthread cp) ->
  forall i, cproc_of (m <| cpus ::= alter f i |>) c = cproc_of m c /\
            cthread_of (m <| cpus ::= alter f i |>) c = cthread_of m c.
Proof.
  intros Hp Ht i. unfold cproc_of, cthread_of. simpl.
  destruct (decide (i = c)) as [->|].
  - rewrite list_lookup_alter_eq. destruct (cpus m !! c); simpl; by rewrite ?Hp, ?Ht.
  - by rewrite list_lookup_alter_ne.
Qed.

Lemma cur_pushed m c i : cproc_of (pushed m i) c = cproc_of m c /\ cthread_of (pushed m i) c = cthread_of m c.
Proof.
  unfold pushed. destruct (hws m !! i) as [h|]; [|done].
  refine (cur_alter (m <| hws ::= alter cli_step i |>) c (push_step (eflags h)) _ _ i);
    intros cp; unfold push_step; by case_match.
Qed.

Lemma cur_popped m c i : cproc_of (popped m i) c = cproc_of m c /\ cthread_of (popped m i) c = cthread_of m c.
Proof.
  unfold popped. cbv zeta.
  destruct (_ && _); exact (cur_alter m c pop_step (fun _ => eq_refl) (fun _ => eq_refl) i).
Qed.

(** [pushcli(); ...; popcli()] around a read. *)
Lemma runs_cycle m c held p t : runs m c held p t -> runs (popped (pushed m c) c) c held p t.
Proof.
  intros Hr. destruct (decide (held = [])) as [->|Hne].
  2:{ rewrite popped_pushed; [done|]. by eapply runs_cli_ok. }
  destruct Hr as [Hok Hn Hi Hh Hf Hp Ht]. simpl in Hn.
  assert (cli_ok (pushed m c) c) as Hc1 by (apply pushed_cli_ok; [done|lia]).
  constructor.
  - auto with xv6.
  - rewrite ncli_popped, ncli_pushed by apply Hc1 || done. simpl. lia.
  - done.
  - by intros lk ?%not_elem_of_nil.
  - intros lk Hlk. rewrite locks_popped, locks_pushed. auto.
  - by rewrite (proj1 (cur_popped _ _ _)), (proj1 (cur_pushed _ _ _)).
  - by rewrite (proj2 (cur_popped _ _ _)), (proj2 (cur_pushed _ _ _)).
Qed.

Lemma runs_acquired m c held p t lk :
  runs m c held p t -> lk ∉ held -> runs (acquired m c lk) c (lk :: held) p t.
Proof.
  intros Hr Hnin. destruct Hr as [Hok Hn Hi Hh Hf Hp Ht]. constructor.
  - by apply pushed_ok.
  - change (ncli_of (acquired m c lk) c) with (ncli_of (pushed m c) c).
    rewrite ncli_pushed by done. simpl. lia.
  - intros _. by apply (iflag_pushed m c).
  - intros lk' Hin. rewrite holds_acquired. case_decide; [by rewrite bool_decide_eq_true_2|].
    apply Hh. apply elem_of_cons in Hin as [|]; congruence.
  - intros lk' Hnin'. apply not_elem_of_cons in Hnin' as [Hne Hnin'].
    unfold acquired. simpl. rewrite fn_lookup_insert_ne by done. rewrite locks_pushed. auto.
  - rewrite <- Hp. apply (cur_pushed m c c).
  - rewrite <- Ht. apply (cur_pushed m c c).
Qed.

Lemma runs_released m c held p t lk :
  runs m c (lk :: held) p t -> lk ∉ held -> runs (released m c lk) c held p t.
Proof.
  intros Hr Hnin. pose proof (runs_cli _ _ _ _ _ _ Hr) as Hcli.
  destruct Hr as [Hok Hn Hi Hh Hf Hp Ht]. simpl in Hn. unfold released.
  set (m1 := m <| locks ::= _ |>).
  assert (cpu_ok m1 c) as Hok1 by done. assert (ncli_of m1 c = ncli_of m c) as Hn1 by done.
  constructor.
  - by apply popped_ok.
  - rewrite ncli_popped by done. lia.
  - intros Hne. rewrite iflag_popped by done. rewrite Hn1, Hn.
    change (iflag m1 c) with (iflag m c). rewrite (proj1 (proj2 Hcli)).
    destruct held as [|x held]; [done|].
    destruct (Z.eqb_spec (Z.of_nat (S (length (x :: held)))) 1) as [He|]; [simpl in He; lia|done].
  - intros lk' Hin. change (popped m1 c) with (released m c lk). rewrite holds_released.
    case_decide; [by subst|]. apply Hh. by right.
  - intros lk' Hnin'. rewrite locks_popped. unfold m1. simpl.
    destruct (decide (lk = lk')) as [->|]; [by rewrite fn_lookup_insert|].
    rewrite fn_lookup_insert_ne by done. apply Hf. by apply not_elem_of_cons.
  - rewrite (proj1 (cur_popped _ _ _)). done.
  - rewrite (proj2 (cur_popped _ _ _)). done.
Qed.

(** ** Machine code that keeps the current threads

    For theorems that follow the tables through code whose machine state is
    arbitrary: all that is left of the machine is which thread each processor
    runs. *)
Definition same_cur (m m' : mach) : Prop :=
  (forall c, cproc_of m' c = cproc_of m c /\ cthread_of m' c = cthread_of m c) /\
  (forall c, cpu_ok m c -> cpu_ok m' c).

#[export] Instance same_cur_preorder : PreOrder same_cur.
Proof.
  split; [by intros m|]. intros m1 m2 m3 [H1 H1'] [H2 H2']. split; [|auto].
  intros c. destruct (H1 c), (H2 c). split; congruence.
Qed.

Definition keeps_cur {A} (f : M mach lockid A) : Prop :=
  forall m, psat (f m) (fun _ => same_cur m) (fun _ => same_cur m).

Lemma keeps_pure {A} (f : M mach lockid A) :
  (forall m, match f m with Ret _ m' | Stop _ m' => m' = m | _ => True end) -> keeps_cur f.
Proof. intros H m. specialize (H m). destruct (f m); simplify_eq/=; done || reflexivity. Qed.

Lemma keeps_bind {A B} (f : M mach lockid A) (g : A -> M mach lockid B) :
  keeps_cur f -> (forall a, keeps_cur (g a)) -> keeps_cur (bind f g).
Proof.
  intros Hf Hg m. apply psat_bind. eapply psat_mono; [apply Hf| |done].
  intros a m1 H1. eapply psat_mono; [apply Hg| |]; intros ? m2 H2; exact (transitivity H1 H2).
Qed.

Lemma keeps_gets {A} (g : mach -> A) : keeps_cur (gets g).
Proof. by apply keeps_pure. Qed.
Lemma keeps_ret {A} (a : A) : keeps_cur (ret a).
Proof. by apply keeps_pure. Qed.
Lemma keeps_panic {A} w : keeps_cur (@panic _ _ A w).
Proof. by apply keeps_pure. Qed.
Lemma keeps_stop {A} r : keeps_cur (@stop _ _ A r).
Proof. by apply keeps_pure. Qed.
Lemma keeps_deref {A} w (o : option A) : keeps_cur (derefM w o).
Proof. by destruct o; apply keeps_pure. Qed.

Lemma keeps_set_cpu i f :
  (forall cp, apicid (f cp) = apicid cp /\ cproc (f cp) = cproc cp /\ cthread (f cp) = cthread cp) ->
  keeps_cur (set_cpu i f).
Proof.
  intros Hf m. split.
  - intros c. apply (cur_alter m c f); intros cp; apply Hf.
  - intros c. apply set_cpu_ok. apply Hf.
Qed.

Lemma keeps_hws i f : (forall h, lapic_id (f h) = lapic_id h) ->
  keeps_cur (modify (fun s => s <| hws ::= alter f i |>)).
Proof. intros Hf m. split; [done|]. intros c. by apply set_hw_ok. Qed.

Lemma keeps_set_lock lk f : keeps_cur (set_lock lk f).
Proof. done. Qed.

Create HintDb cur.
#[export] Hint Resolve keeps_gets keeps_ret keeps_panic keeps_stop keeps_deref keeps_set_cpu keeps_hws
  keeps_set_lock : cur.

(** Compositional code keeps the current threads when its parts do. *)
Ltac keeps := repeat first
  [ apply keeps_bind; [|intros]
  | progress cbv zeta
  | match goal with |- keeps_cur (whenM ?b _) => destruct b; simpl end
  | match goal with |- keeps_cur (if ?b then _ else _) => destruct b end
  | match goal with |- keeps_cur (match ?o with _ => _ end) => destruct o as [[]|] end
  | solve [auto with cur] ].

Lemma keeps_readeflags c : keeps_cur (readeflags c).
Proof. unfold readeflags. keeps. Qed.
Lemma keeps_lapicid c : keeps_cur (lapicid c).
Proof. unfold lapicid. keeps. Qed.
#[export] Hint Resolve keeps_readeflags keeps_lapicid : cur.
Lemma keeps_mycpu c : keeps_cur (mycpu c).
Proof. unfold mycpu. keeps. Qed.
Lemma keeps_cpu_field {A} (f : cpu -> A) i : keeps_cur (cpu_field f i).
Proof. unfold cpu_field. keeps. Qed.
Lemma keeps_cli c : keeps_cur (cli c).
Proof. unfold cli. keeps. Qed.
Lemma keeps_sti c : keeps_cur (sti c).
Proof. unfold sti. keeps. Qed.
#[export] Hint Resolve keeps_mycpu keeps_cpu_field keeps_cli keeps_sti : cur.
Lemma keeps_pushcli c : keeps_cur (pushcli c).
Proof. unfold pushcli. keeps. Qed.
Lemma keeps_popcli c : keeps_cur (popcli c).
Proof. unfold popcli. keeps. Qed.
#[export] Hint Resolve keeps_pushcli keeps_popcli : cur.
Lemma keeps_holding c lk : keeps_cur (holding c lk).
Proof. unfold holding. keeps. Qed.
Lemma keeps_initlock lk n : keeps_cur (initlock lk n).
Proof. unfold initlock. keeps. Qed.
#[export] Hint Resolve keeps_holding keeps_initlock : cur.
Lemma keeps_acquire c lk : keeps_cur (acquire c lk).
Proof. unfold acquire, xchg_locked. keeps. Qed.
Lemma keeps_release c lk : keeps_cur (release c lk).
Proof. unfold release. keeps. Qed.
#[export] Hint Resolve keeps_acquire keeps_release : cur.

(** Machine code that does not spin. *)
Definition nostop {A} (f : M mach lockid A) : Prop := forall m r m', f m <> Stop r m'.

Lemma nostop_bind {A B} (f : M mach lockid A) (g : A -> M mach lockid B) :
  nostop f -> (forall a, nostop (g a)) -> nostop (bind f g).
Proof. intros Hf Hg m r m'. unfold bind. specialize (Hf m). destruct (f m) eqn:Hm; [apply Hg|..]; naive_solver. Qed.
Lemma nostop_deref {A} w (o : option A) : nostop (derefM w o).
Proof. by destruct o. Qed.
Lemma nostop_when b f : nostop f -> nostop (whenM b f).
Proof. by destruct b. Qed.

Ltac nostop := repeat first
  [ apply nostop_bind; [|intros]
  | apply nostop_deref
  | apply nostop_when
  | match goal with |- nostop (if ?b then _ else _) => destruct b end
  | match goal with |- nostop (match ?o with _ => _ end) => destruct o as [[]|] end
  | solve [auto with cur]
  | done ].

Lemma nostop_mycpu c : nostop (mycpu c).
Proof. unfold mycpu, readeflags, lapicid. nostop. Qed.
Lemma nostop_cpu_field {A} (f : cpu -> A) i : nostop (cpu_field f i).
Proof. unfold cpu_field. nostop. Qed.
Lemma nostop_readeflags c : nostop (readeflags c).
Proof. unfold readeflags. nostop. Qed.
#[export] Hint Resolve nostop_mycpu nostop_cpu_field nostop_readeflags : cur.
Lemma nostop_pushcli c : nostop (pushcli c).
Proof. unfold pushcli. nostop. Qed.
Lemma nostop_popcli c : nostop (popcli c).
Proof. unfold popcli. nostop. Qed.
#[export] Hint Resolve nostop_pushcli nostop_popcli : cur.
Lemma nostop_holding c lk : nostop (holding c lk).
Proof. unfold holding. nostop. Qed.
#[export] Hint Resolve nostop_holding : cur.
Lemma nostop_release c lk : nostop (release c lk).
Proof. unfold release. nostop. Qed.
#[export] Hint Resolve nostop_release : cur.

(** [myproc] and [mythread] read the slot of their processor. *)
Lemma field_cur {A} (f : cpu -> option A) m c :
  cpu_ok m c -> (forall cp g, f (push_step g cp) = f cp) ->
  psat ((pushcli c;; do i <- mycpu c; do p <- cpu_field f i; popcli c;; ret p) m)
    (fun a m' => a = (cp ← cpus m !! c; f cp) /\ same_cur m m') (fun _ _ => False).
Proof.
  intros Hok Hf. pose proof (keeps_pushcli c m) as Hk. rewrite pushcli_eq in Hk by done. simpl in Hk.
  run_step (pushcli_eq m c Hok).
  run_step (mycpu_eq _ c (pushed_ok m c c Hok) (iflag_pushed m c Hok)).
  destruct (cpu_ok_lookup m c Hok) as (cp & h & Hcp & Hh & _).
  assert (cpus (pushed m c) !! c = Some (push_step (eflags h) cp)) as Hcp1.
  { unfold pushed. rewrite Hh. simpl. by rewrite list_lookup_alter_eq, Hcp. }
  run_step (cpu_field_eq f _ c _ Hcp1). apply psat_bind.
  pose proof (keeps_popcli c (pushed m c)) as Hm'. pose proof (nostop_popcli c (pushed m c)) as Hns.
  destruct (popcli c (pushed m c)) as [?? | | |]; simpl in *; [|done|done|naive_solver].
  split; [|exact (transitivity Hk Hm')]. rewrite Hcp. simpl. by rewrite Hf.
Qed.

(** ** The primitives on a kernel state *)
Section Run.
Context {E : Type}.
Implicit Types (s : kst E).

Lemma onm_eq {A} (f : M mach lockid A) s a m' :
  f (mch s) = Ret a m' -> onm f s = Ret a (s <| mch := m' |>).
Proof. unfold onm, zoom. by intros ->. Qed.

Lemma set_mch_id s : s <| mch := mch s |> = s.
Proof. by destruct s. Qed.

Lemma field_cycle {A} (f : cpu -> option A) m c :
  cpu_ok m c -> 0 <= ncli_of m c ->
  (forall cp g, f (push_step g cp) = f cp) ->
  (pushcli c;; do i <- mycpu c; do p <- cpu_field f i; popcli c;; ret p) m =
  Ret (cp ← cpus m !! c; f cp) (popped (pushed m c) c).
Proof.
  intros Hok Hn Hf. pose proof (pushed_cli_ok m c Hok Hn) as Hc1.
  run_step (pushcli_eq m c Hok). run_step (mycpu_eq _ c (proj1 Hc1) (proj1 (proj2 Hc1))).
  destruct (cpu_ok_lookup m c Hok) as (cp & h & Hcp & Hh & _).
  assert (cpus (pushed m c) !! c = Some (push_step (eflags h) cp)) as Hcp1.
  { unfold pushed. rewrite Hh. simpl. by rewrite list_lookup_alter_eq, Hcp. }
  run_step (cpu_field_eq f _ c _ Hcp1). run_step (popcli_eq _ c Hc1).
  unfold ret. rewrite Hcp. simpl. by rewrite Hf.
Qed.

Lemma myproc_run s c held p t :
  runs (mch s) c held p t ->
  exists m', myproc c s = Ret p (s <| mch := m' |>) /\ runs m' c held p t.
Proof.
  intros Hr. exists (popped (pushed (mch s) c) c). split; [|by apply runs_cycle].
  apply onm_eq. rewrite (field_cycle cproc).
  - by destruct Hr as [_ _ _ _ _ <- _].
  - apply Hr.
  - rewrite (r_ncli _ _ _ _ _ Hr). lia.
  - intros cp g. unfold push_step. by case_match.
Qed.

Lemma mythread_run s c held p t :
  runs (mch s) c held p t ->
  exists m', mythread c s = Ret t (s <| mch := m' |>) /\ runs m' c held p t.
Proof.
  intros Hr. exists (popped (pushed (mch s) c) c). split; [|by apply runs_cycle].
  apply onm_eq. rewrite (field_cycle cthread).
  - by destruct Hr as [_ _ _ _ _ _ <-].
  - apply Hr.
  - rewrite (r_ncli _ _ _ _ _ Hr). lia.
  - intros cp g. unfold push_step. by case_match.
Qed.

Lemma acq_run s c held p t lk :
  runs (mch s) c held p t -> lk ∉ held ->
  exists m', acq c lk s = Ret tt (s <| mch := m' |>) /\ runs m' c (lk :: held) p t.
Proof.
  intros Hr Hnin. exists (acquired (mch s) c lk). split; [|by apply runs_acquired].
  apply onm_eq. rewrite acquire_eq; [| apply Hr | rewrite (r_ncli _ _ _ _ _ Hr); lia].
  pose proof (r_free _ _ _ _ _ Hr lk Hnin) as Hz. unfold holds. by rewrite Hz.
Qed.

Lemma rel_run s c held p t lk :
  runs (mch s) c (lk :: held) p t -> lk ∉ held ->
  exists m', rel c lk s = Ret tt (s <| mch := m' |>) /\ runs m' c held p t.
Proof.
  intros Hr Hnin. exists (released (mch s) c lk). split; [|by apply runs_released].
  apply onm_eq. rewrite release_eq by (by eapply runs_cli).
  by rewrite (r_held _ _ _ _ _ Hr lk (list_elem_of_here _ _)).
Qed.

Lemma runs_swap m c l1 l2 held p t :
  runs m c (l1 :: l2 :: held) p t -> runs m c (l2 :: l1 :: held) p t.
Proof.
  intros [Hok Hn Hi Hh Hf Hp Ht]. constructor; try done.
  - intros _. by apply Hi.
  - intros lk Hin. apply Hh. rewrite !elem_of_cons in *. tauto.
  - intros lk Hnin. apply Hf. rewrite !elem_of_cons in *. tauto.
Qed.

(** The state [sched] leaves when it switches away. *)
Lemma sched_run s c p ct t r :
  runs (mch s) c [LPtable] p (Some ct) ->
  get_thread s ct.1 ct.2 = Some t -> tstate t <> TRUNNING ->
  exists m', sched c r s =
    Stop KSwitch (set_thread ct.1 ct.2 (fun t => t <| kcont := Some (r, intena_of (mch s) c) |>) s
                    <| mch := m' |>) /\
    runs m' c [LPtable] p (Some ct).
Proof.
  intros Hr Ht Hst. unfold sched. exists (mch s).
  pose proof (runs_cli _ _ _ _ _ _ Hr) as Hcli. pose proof Hcli as (Hok & Hif & Hn).
  destruct (cpu_ok_lookup _ _ Hok) as (cp & h & Hcp & Hh & _).
  assert (mythread c s = Ret (Some ct) s) as H1.
  { destruct (mythread_run s c _ _ _ Hr) as (m' & H & _). unfold mythread in *.
    rewrite (onm_eq _ s (Some ct) (mch s)); [by rewrite set_mch_id|].
    rewrite (field_cycle cthread), popped_pushed; [| done | done | lia |].
    - by destruct Hr as [_ _ _ _ _ _ <-].
    - intros x g. unfold push_step. by case_match. }
  run_step H1.
  assert (onm (holding c LPtable) s = Ret true s) as H2.
  { rewrite (onm_eq _ s true (mch s)); [by rewrite set_mch_id|].
    rewrite holding_eq by done. by rewrite (r_held _ _ _ _ _ Hr LPtable (list_elem_of_here _ _)). }
  run_step H2. cbn [negb].
  assert (forall A (f : cpu -> A), onm (do i <- mycpu c; cpu_field f i) s = Ret (f cp) s) as H3.
  { intros A f. rewrite (onm_eq _ s (f cp) (mch s)); [by rewrite set_mch_id|].
    run_step (mycpu_eq _ c Hok Hif). by apply cpu_field_eq. }
  run_step (H3 Z ncli).
  pose proof (r_ncli _ _ _ _ _ Hr) as Hn1. unfold ncli_of in Hn1. rewrite Hcp in Hn1.
  rewrite Hn1. change (negb (Z.of_nat (length [LPtable]) =? 1)) with false. cbv iota.
  rewrite bind_deref. unfold thread_at. rewrite bind_assoc, bind_gets, Ht, bind_deref.
  rewrite bool_decide_eq_false_2 by done.
  assert (onm (readeflags c) s = Ret (eflags h) s) as H4.
  { rewrite (onm_eq _ s (eflags h) (mch s)); [by rewrite set_mch_id|]. by apply readeflags_eq. }
  run_step H4. assert (if_set (eflags h) = false) as -> by (by unfold iflag in Hif; rewrite Hh in Hif).
  run_step (H3 Z intena). split; [|done].
  unfold upd_thread. rewrite bind_modify. unfold stop, intena_of. by rewrite Hcp.
Qed.
End Run.
