(* ===== verification/KSpec.v ===== *)
(** * The thread and mutex tables as a transition system

    [prim l s s'] lists the indivisible changes proc.c makes to its tables, each
    with the condition under which the code makes it.  The label names the changes
    the theorems talk about: a new identifier, a mutex locked or unlocked.  [tlife] is the life cycle of a
    thread slot.  KRefine.v shows that every function of proc.c runs as a
    sequence of these steps; the invariants here are proved once, by cases on
    the steps, and so hold for all of them. *)
From S2P Require Import Prelude Spinlock ProcDefs Proc.
Local Open Scope Z_scope.

(** ** The life cycle of a thread slot *)
Inductive tlife : threadstate -> threadstate -> Prop :=
| life_ready : tlife TEMBRYO TRUNNABLE       (* fork, kthread_create, userinit *)
| life_abort : tlife TEMBRYO TUNUSED         (* no memory *)
| life_dispatch : tlife TRUNNABLE TRUNNING   (* scheduler *)
| life_yield : tlife TRUNNING TRUNNABLE      (* yield, kill_other_threads *)
| life_sleep : tlife TRUNNING TSLEEPING      (* sleep *)
| life_wake : tlife TSLEEPING TRUNNABLE      (* wakeup1, wakeup2, scheduler of a killed thread *)
| life_zombie : tlife TRUNNING TZOMBIE       (* kthread_exit, kill_other_threads *)
| life_exit : tlife TRUNNING TUNUSED.        (* safe_exit *)

(** Unchanged, or one edge. *)
Definition life_ok (a b : threadstate) : Prop := a = b \/ tlife a b.

(** ** The life cycle of a process slot, after it is taken and until it is reaped *)
Inductive plife : procstate -> procstate -> Prop :=
| plife_ready : plife PEMBRYO PUSED          (* fork, userinit *)
| plife_abort : plife PEMBRYO PUNUSED        (* no memory *)
| plife_exit : plife PUSED PZOMBIE.          (* safe_exit *)

Inductive plabel :=
| Tau
| NewPid
| NewTid
| NewMid
| LockBy (m : nat) (who : option (nat * nat))
| UnlockBy (m : nat) (id : Z).

Section Spec.
Context {E : Type}.
Implicit Types s : kst E.

(** A change of process fields that are not its identity, its state or its threads. *)
Definition proc_keep (p : proc) (f : proc -> proc) : Prop :=
  pid (f p) = pid p /\ pstate (f p) = pstate p /\ threads (f p) = threads p /\
  length (ofile (f p)) = length (ofile p) /\ length (pname (f p)) = length (pname p) /\
  num_of_threads (f p) = num_of_threads p /\ invalid (f p) = invalid p.

(** A change of thread fields that are not its identity, along the life cycle. *)
Definition thread_keep (t : thread) (f : thread -> thread) : Prop :=
  tid (f t) = tid t /\ life_ok (tstate t) (tstate (f t)).

Inductive prim : plabel -> kst E -> kst E -> Prop :=
| prim_mach s m : prim Tau s (s <| mch := m |>)
| prim_ext s e : prim Tau s (s <| ext := e |>)
| prim_misc s ip tk ff :
    prim Tau s (s <| initproc := ip |> <| ticks := tk |> <| forkret_first := ff |>)
| prim_pid s p pr h :                       (* a process slot is taken *)
    procs s !! p = Some pr -> pstate pr = PUNUSED ->
    ((helper s < NPROC)%nat -> (h < NPROC)%nat) ->
    prim NewPid s (set_proc p (fun pr => pr <| pid := nextpid s |> <| pstate := PEMBRYO |>) s
                  <| nextpid ::= incr |> <| helper := h |>)
| prim_proc s p pr f :
    procs s !! p = Some pr -> proc_keep pr f -> prim Tau s (set_proc p f s)
| prim_pstate s p pr st :
    procs s !! p = Some pr -> plife (pstate pr) st ->
    prim Tau s (set_proc p (fun pr => pr <| pstate := st |>) s)
| prim_reap s p pr :                        (* a zombie process is collected *)
    procs s !! p = Some pr -> pstate pr = PZOMBIE ->
    prim Tau s (set_proc p (fun pr => pr <| pid := 0 |> <| pparent := None |>
                   <| pname ::= <[0%nat := 0]> |> <| pkilled := 0 |> <| pstate := PUNUSED |>) s)
| prim_tid s p i pr t :                     (* a thread slot is taken *)
    procs s !! p = Some pr -> threads pr !! i = Some t ->
    (tstate t = TUNUSED \/ (i = O /\ pstate pr = PEMBRYO)) ->
    prim NewTid s (set_thread p i (fun t => t <| tstate := TEMBRYO |> <| tid := nexttid s |>
                                           <| tparent := Some p |>) s <| nexttid ::= incr |>)
| prim_thread s p i t f :
    get_thread s p i = Some t -> thread_keep t f -> prim Tau s (set_thread p i f s)
| prim_wake s (sel : nat -> bool) ch :      (* wakeup1 and wakeup2 *)
    prim Tau s (s <| procs ::= imap (fun p pr =>
      if sel p then pr <| threads ::= fmap (wake_thread ch) |> else pr) |>)
| prim_remove s p i pr t :                  (* remove_thread *)
    procs s !! p = Some pr -> threads pr !! i = Some t ->
    (tstate t = TSLEEPING \/ tstate t = TZOMBIE \/ pstate pr = PZOMBIE) ->
    prim Tau s (set_thread p i (fun t => t <| kstack := 0 |> <| tid := 0 |> <| tstate := TUNUSED |>
                                           <| tparent := None |> <| tkilled := 0 |>) s)
| prim_mutex_alloc s m x cp :
    mutexes s !! m = Some x -> mid x = 0 ->
    prim NewMid s (set_mutex m (fun _ => Mutex None cp (nextmid s) MUNLOCKED) s <| nextmid ::= incr |>)
| prim_mutex_free s m x :
    mutexes s !! m = Some x -> mstate x = MUNLOCKED ->
    prim Tau s (set_mutex m (fun x => x <| mid := 0 |> <| mthread := None |> <| mstate := MUNLOCKED |>) s)
| prim_mutex_lock s m x who :
    mutexes s !! m = Some x -> mstate x = MUNLOCKED ->
    prim (LockBy m who) s (set_mutex m (fun x => x <| mstate := MLOCKED |> <| mthread := who |>) s)
| prim_mutex_unlock s m x ow owt id :
    mutexes s !! m = Some x -> mstate x = MLOCKED -> mthread x = Some ow ->
    get_thread s ow.1 ow.2 = Some owt -> tid owt = id ->
    prim (UnlockBy m id) s (set_mutex m (fun x => x <| mthread := None |> <| mstate := MUNLOCKED |>) s).

(** Sequences of steps with the labels that are not [Tau]. *)
Inductive prims : kst E -> list plabel -> kst E -> Prop :=
| prims_nil s : prims s [] s
| prims_tau s1 s2 s3 tr : prim Tau s1 s2 -> prims s2 tr s3 -> prims s1 tr s3
| prims_label s1 s2 s3 l tr : l <> Tau -> prim l s1 s2 -> prims s2 tr s3 -> prims s1 (l :: tr) s3.

Lemma prims_trans s1 s2 s3 tr1 tr2 : prims s1 tr1 s2 -> prims s2 tr2 s3 -> prims s1 (tr1 ++ tr2) s3.
Proof. induction 1; intros; simpl; eauto using prims. Qed.

Lemma prims_tau_r s1 s2 s3 tr : prims s1 tr s2 -> prim Tau s2 s3 -> prims s1 tr s3.
Proof.
  intros H1 H2. rewrite <- (app_nil_r tr). eapply prims_trans; [done|]. eauto using prims.
Qed.

Lemma prims_label_r s1 s2 s3 tr l : l <> Tau -> prims s1 tr s2 -> prim l s2 s3 -> prims s1 (tr ++ [l]) s3.
Proof. intros Hl H1 H2. eapply prims_trans; [done|]. eauto using prims. Qed.

(** An invariant of the steps is an invariant of the sequences. *)
Lemma prims_inv (I : kst E -> Prop) s tr s' :
  (forall l s s', I s -> prim l s s' -> I s') -> I s -> prims s tr s' -> I s'.
Proof. intros HI Hs H. induction H; eauto. Qed.

(** ** The tables keep their shape *)

Definition proc_shape (pr : proc) : Prop :=
  length (threads pr) = NTHREAD /\ length (ofile pr) = NOFILE /\ length (pname pr) = 16%nat.

Definition shape s : Prop :=
  length (procs s) = NPROC /\ Forall proc_shape (procs s) /\
  length (mutexes s) = MAX_MUTEXES /\ (helper s < NPROC)%nat.

Lemma shape_proc s p f :
  shape s -> (forall pr, procs s !! p = Some pr -> proc_shape pr -> proc_shape (f pr)) ->
  shape (set_proc p f s).
Proof.
  intros (H1 & H2 & H3 & H4) Hf. split_and!; simpl; [by rewrite length_alter| |done..].
  by apply Forall_alter.
Qed.

Lemma shape_thread s p i f : shape s -> shape (set_thread p i f s).
Proof.
  intros H. apply shape_proc; [done|]. intros pr _ (Ht & Ho & Hn). split_and!; simpl; [|done..].
  by rewrite length_alter.
Qed.

Lemma shape_mutex s m f : shape s -> shape (set_mutex m f s).
Proof. intros (H1 & H2 & H3 & H4). split_and!; simpl; [done..|by rewrite length_alter|done]. Qed.

Lemma prim_shape l s s' : shape s -> prim l s s' -> shape s'.
Proof.
  intros Hs Hp. pose proof Hs as (H1 & H2 & H3 & H4). destruct Hp; try done.
  - destruct (shape_proc s p (fun pr => pr <| pid := nextpid s |> <| pstate := PEMBRYO |>) Hs)
      as (? & ? & ? & ?); [done|]. split_and!; auto.
  - apply shape_proc; [done|]. intros pr' Hpr' (? & ? & ?).
    simplify_eq. destruct H0 as (? & ? & ? & ? & ? & _). split_and!; congruence.
  - by apply shape_proc.
  - apply shape_proc; [done|]. intros pr' _ (? & ? & ?). split_and!; simpl; [done..|].
    by rewrite length_insert.
  - exact (shape_thread s p i _ Hs).
  - by apply shape_thread.
  - split_and!; simpl; [by rewrite length_imap| |done..].
    apply Forall_lookup. intros q pr'. rewrite list_lookup_imap.
    intros (pr & Hpr & ->)%fmap_Some. destruct (Forall_lookup_1 _ _ _ _ H2 Hpr) as (? & ? & ?).
    case_match; [|done]. split_and!; simpl; [|done..]. by rewrite length_fmap.
  - by apply shape_thread.
  - exact (shape_mutex s m _ Hs).
  - by apply shape_mutex.
  - by apply shape_mutex.
  - by apply shape_mutex.
Qed.

Lemma prims_shape s tr s' : shape s -> prims s tr s' -> shape s'.
Proof. intros H. apply prims_inv; [intros; by eapply prim_shape|done]. Qed.
End Spec.
