(* ===== verification/KRefine.v ===== *)
(** * Following the tables through proc.c

    The rules and tactics that run a function of proc.c symbolically while its
    changes to the tables are matched with [prim] steps.  [here c ct s] is the
    situation the code is called in. *)
From S2P Require Import Prelude Spinlock ProcDefs Proc ProcRun KSpec.
Local Open Scope Z_scope.
Local Open Scope kernel_scope.

Section Refine.
Context {E : Type} `{SV : Services E}.
Implicit Types s : kst E.

(** The states of a thread slot and of a process slot. *)
Definition tst s (p i : nat) : option threadstate := tstate <$> get_thread s p i.
Definition pst s (p : nat) : option procstate := pstate <$> procs s !! p.

(** Processor [c] runs thread [ct]: its slot is RUNNING and its process is in use. *)
Definition here (c : nat) (ct : nat * nat) s : Prop :=
  cpu_ok (mch s) c /\ cproc_of (mch s) c = Some ct.1 /\ cthread_of (mch s) c = Some ct /\
  pst s ct.1 = Some PUSED /\ tst s ct.1 ct.2 = Some TRUNNING.

(** ** Lookups after an update *)

Lemma get_set_thread s p i f q j :
  get_thread (set_thread p i f s) q j =
  if decide ((p, i) = (q, j)) then f <$> get_thread s q j else get_thread s q j.
Proof.
  unfold get_thread, set_thread, set_proc. simpl.
  destruct (decide (p = q)) as [->|Hp].
  - rewrite list_lookup_alter_eq. destruct (procs s !! q) as [pr|]; simpl; [|by case_decide].
    destruct (decide (i = j)) as [->|Hi].
    + by rewrite list_lookup_alter_eq, decide_True.
    + by rewrite list_lookup_alter_ne, decide_False by congruence.
  - by rewrite list_lookup_alter_ne, decide_False by congruence.
Qed.

Lemma get_set_proc s p f q j :
  (forall pr, threads (f pr) = threads pr) -> get_thread (set_proc p f s) q j = get_thread s q j.
Proof.
  intros Hf. unfold get_thread, set_proc. simpl. rewrite list_lookup_alter.
  case_decide; [subst|done]. destruct (procs s !! q); simpl; by rewrite ?Hf.
Qed.

Lemma alter_none {A} (f : A -> A) i (l : list A) : l !! i = None -> alter f i l = l.
Proof.
  intros Hi. apply list_eq. intros j. rewrite list_lookup_alter. case_decide; [subst|done].
  by rewrite Hi.
Qed.

Lemma set_procs_eq s ps : ps = procs s -> s <| procs := ps |> = s.
Proof. intros ->. by destruct s. Qed.

Lemma set_procs_ext s (f g : list proc -> list proc) :
  f (procs s) = g (procs s) -> s <| procs ::= f |> = s <| procs ::= g |>.
Proof. intros H. unfold setter. by rewrite H. Qed.

Lemma set_thread_none s p i f : get_thread s p i = None -> set_thread p i f s = s.
Proof.
  unfold get_thread, set_thread, set_proc. intros H. apply set_procs_eq.
  apply list_eq. intros j. rewrite list_lookup_alter. case_decide; [subst|done].
  destruct (procs s !! j) as [pr|] eqn:Hp; simpl in *; [|done].
  f_equal. destruct pr. unfold setter. simpl in *. by rewrite alter_none.
Qed.

Lemma tst_thread_keep s p i f q j :
  (forall t, tstate (f t) = tstate t) -> tst (set_thread p i f s) q j = tst s q j.
Proof.
  intros Hf. unfold tst. rewrite get_set_thread. case_decide; [|done].
  destruct (get_thread s q j); simpl; by rewrite ?Hf.
Qed.

Lemma tst_thread_ne s p i f q j : (p, i) <> (q, j) -> tst (set_thread p i f s) q j = tst s q j.
Proof. intros H. unfold tst. by rewrite get_set_thread, decide_False. Qed.

Lemma tst_thread_eq s p i f st st' :
  tst s p i = Some st -> (forall t, tstate (f t) = st') -> tst (set_thread p i f s) p i = Some st'.
Proof.
  intros Hs Hf. unfold tst in *. rewrite get_set_thread, decide_True by done.
  destruct (get_thread s p i); simplify_eq/=. by rewrite Hf.
Qed.

Lemma tst_proc s p f q j :
  (forall pr, threads (f pr) = threads pr) -> tst (set_proc p f s) q j = tst s q j.
Proof. intros Hf. unfold tst. by rewrite get_set_proc. Qed.

Lemma pst_proc_keep s p f q :
  (forall pr, pstate (f pr) = pstate pr) -> pst (set_proc p f s) q = pst s q.
Proof.
  intros Hf. unfold pst, set_proc. simpl. rewrite list_lookup_alter. case_decide; [subst|done].
  destruct (procs s !! q); simpl; by rewrite ?Hf.
Qed.

Lemma pst_proc_ne s p f q : p <> q -> pst (set_proc p f s) q = pst s q.
Proof. intros H. unfold pst, set_proc. simpl. by rewrite list_lookup_alter_ne. Qed.

Lemma pst_proc_eq s p f st st' :
  pst s p = Some st -> (forall pr, pstate (f pr) = st') -> pst (set_proc p f s) p = Some st'.
Proof.
  intros Hs Hf. unfold pst, set_proc in *. simpl. rewrite list_lookup_alter_eq.
  destruct (procs s !! p); simplify_eq/=. by rewrite Hf.
Qed.

Lemma pst_thread s p i f q : pst (set_thread p i f s) q = pst s q.
Proof. by apply pst_proc_keep. Qed.

Lemma wake_awake ch t : tstate t <> TSLEEPING -> wake_thread ch t = t.
Proof. intros H. unfold wake_thread. by rewrite bool_decide_eq_false_2. Qed.

Lemma tst_wakeup1 s ch q j st :
  tst s q j = Some st -> st <> TSLEEPING ->
  tst (s <| procs ::= fmap (fun p => p <| threads ::= fmap (wake_thread ch) |>) |>) q j = Some st.
Proof.
  unfold tst, get_thread. intros H Hst. simpl. rewrite list_lookup_fmap.
  destruct (procs s !! q) as [pr|]; simpl in *; [|done].
  rewrite list_lookup_fmap. destruct (threads pr !! j) as [t|]; simplify_eq/=.
  by rewrite wake_awake.
Qed.

Lemma pst_wakeup1 s ch q :
  pst (s <| procs ::= fmap (fun p => p <| threads ::= fmap (wake_thread ch) |>) |>) q = pst s q.
Proof. unfold pst. simpl. rewrite list_lookup_fmap. by destruct (procs s !! q). Qed.

(** ** Steps of the transition system by the shape of the update *)

Lemma prims_mach s0 tr s m : prims s0 tr s -> prims s0 tr (s <| mch := m |>).
Proof. intros H. eapply prims_tau_r; [done|apply prim_mach]. Qed.

Lemma prims_ext s0 tr s e : prims s0 tr s -> prims s0 tr (s <| ext := e |>).
Proof. intros H. eapply prims_tau_r; [done|apply prim_ext]. Qed.

Lemma prims_first s0 tr s f : prims s0 tr s -> prims s0 tr (s <| forkret_first ::= f |>).
Proof.
  intros H. eapply prims_tau_r; [done|]. exact (prim_misc s (initproc s) (ticks s) (f (forkret_first s))).
Qed.

Lemma prims_ticks s0 tr s f : prims s0 tr s -> prims s0 tr (s <| ticks ::= f |>).
Proof.
  intros H. eapply prims_tau_r; [done|]. exact (prim_misc s (initproc s) (f (ticks s)) (forkret_first s)).
Qed.

Lemma prims_init s0 tr s f : prims s0 tr s -> prims s0 tr (s <| initproc ::= f |>).
Proof.
  intros H. eapply prims_tau_r; [done|]. exact (prim_misc s (f (initproc s)) (ticks s) (forkret_first s)).
Qed.

Lemma prims_proc s0 tr s p f :
  (forall pr, procs s !! p = Some pr -> proc_keep pr f) -> prims s0 tr s -> prims s0 tr (set_proc p f s).
Proof.
  intros Hf H. destruct (procs s !! p) as [pr|] eqn:Hp.
  - eapply prims_tau_r; [done|]. eapply prim_proc; eauto.
  - assert (set_proc p f s = s) as ->; [|done]. apply set_procs_eq. by rewrite alter_none.
Qed.

(** A thread update that keeps the life cycle, whatever the slot holds. *)
Lemma prims_thread s0 tr s p i f :
  (forall t, get_thread s p i = Some t -> thread_keep t f) ->
  prims s0 tr s -> prims s0 tr (set_thread p i f s).
Proof.
  intros Hf H. destruct (get_thread s p i) as [t|] eqn:Ht.
  - eapply prims_tau_r; [done|]. eapply prim_thread; eauto.
  - by rewrite set_thread_none.
Qed.

Lemma prims_wakeup1 s0 tr s ch :
  prims s0 tr s ->
  prims s0 tr (s <| procs ::= fmap (fun p => p <| threads ::= fmap (wake_thread ch) |>) |>).
Proof.
  intros H. eapply prims_tau_r; [done|].
  exact (eq_rect _ (prim Tau s) (prim_wake s (fun _ => true) ch) _
    (f_equal (fun ps => s <| procs := ps |>) (imap_const _ _))).
Qed.

Lemma prims_wakeup2 s0 tr s p ch :
  prims s0 tr s -> prims s0 tr (set_proc p (fun p => p <| threads ::= fmap (wake_thread ch) |>) s).
Proof.
  intros H. eapply prims_tau_r; [done|].
  refine (eq_rect _ (prim Tau s) (prim_wake s (fun q => bool_decide (q = p)) ch) _ _).
  apply set_procs_ext.
  apply list_eq. intros q. rewrite list_lookup_imap, list_lookup_alter.
  case_decide; [subst|]; destruct (procs s !! q); simpl; try done.
  - by rewrite bool_decide_eq_true_2.
  - by rewrite bool_decide_eq_false_2 by congruence.
Qed.

Lemma prims_pstate s0 tr s p a b :
  pst s p = Some a -> plife a b -> prims s0 tr s ->
  prims s0 tr (set_proc p (fun pr => pr <| pstate := b |>) s).
Proof.
  unfold pst. intros Ha Hl H. destruct (procs s !! p) as [pr|] eqn:Hp; simplify_eq/=.
  eapply prims_tau_r; [done|]. by eapply prim_pstate.
Qed.

(** ** [here] across updates *)

Lemma here_mach c ct s m : here c ct s -> same_cur (mch s) m -> here c ct (s <| mch := m |>).
Proof.
  intros (Hok & Hp & Hc & Hps & Ht) [Hs Hk]. destruct (Hs c) as [Hs1 Hs2].
  split_and!; simpl; [by apply Hk | congruence | congruence | done | done].
Qed.

Lemma here_thread c ct s p i f :
  here c ct s -> (p, i) <> ct \/ (forall t, tstate (f t) = tstate t) ->
  here c ct (set_thread p i f s).
Proof.
  intros (Hok & Hp & Hc & Hps & Ht) Hf. split_and!; [done..|by rewrite pst_thread|].
  destruct ct as [q j]. destruct Hf as [Hf|Hf]; [by rewrite tst_thread_ne|by rewrite tst_thread_keep].
Qed.

Lemma here_proc c ct s p f :
  here c ct s -> (forall pr, threads (f pr) = threads pr) ->
  p <> ct.1 \/ (forall pr, pstate (f pr) = pstate pr) -> here c ct (set_proc p f s).
Proof.
  intros (Hok & Hp & Hc & Hps & Ht) Hf Hs. split_and!; [done..| |by rewrite tst_proc].
  destruct Hs as [Hs|Hs]; [by rewrite pst_proc_ne|by rewrite pst_proc_keep].
Qed.

Lemma here_wakeup1 c ct s ch :
  here c ct s ->
  here c ct (s <| procs ::= fmap (fun p => p <| threads ::= fmap (wake_thread ch) |>) |>).
Proof.
  intros (Hok & Hp & Hc & Hps & Ht). split_and!; [done..|by rewrite pst_wakeup1|by apply tst_wakeup1].
Qed.

Lemma here_running c p i s : here c (p, i) s -> tst s p i = Some TRUNNING.
Proof. by intros (_ & _ & _ & _ & H). Qed.
Lemma here_used c p i s : here c (p, i) s -> pst s p = Some PUSED.
Proof. by intros (_ & _ & _ & H & _). Qed.

Lemma tst_get s p i t st : tst s p i = Some st -> get_thread s p i = Some t -> tstate t = st.
Proof. unfold tst. intros H Ht. rewrite Ht in H. by simplify_eq/=. Qed.
Lemma pst_get s p pr st : pst s p = Some st -> procs s !! p = Some pr -> pstate pr = st.
Proof. unfold pst. intros H Hp. rewrite Hp in H. by simplify_eq/=. Qed.

(** ** Rules for the calls *)

Lemma psat_onm {A} (f : M mach lockid A) s (Q : A -> kst E -> Prop) W :
  keeps_cur f ->
  (forall a m, same_cur (mch s) m -> Q a (s <| mch := m |>)) ->
  (forall r m, same_cur (mch s) m -> W r (s <| mch := m |>)) ->
  psat (onm f s) Q W.
Proof.
  intros Hf HQ HW. specialize (Hf (mch s)). unfold onm, zoom.
  destruct (f (mch s)); cbn [psat] in *; auto.
Qed.

Lemma psat_onm_go {A} (f : M mach lockid A) s (Q : A -> kst E -> Prop) W :
  keeps_cur f -> nostop f ->
  (forall a m, same_cur (mch s) m -> Q a (s <| mch := m |>)) ->
  psat (onm f s) Q W.
Proof.
  intros Hf Hn HQ. specialize (Hf (mch s)). specialize (Hn (mch s)). unfold onm, zoom.
  destruct (f (mch s)); cbn [psat] in *; naive_solver.
Qed.

Lemma psat_onm_any {A} (f : M mach lockid A) s (Q : A -> kst E -> Prop) W :
  (forall a m, Q a (s <| mch := m |>)) -> (forall r m, W r (s <| mch := m |>)) ->
  psat (onm f s) Q W.
Proof. intros HQ HW. unfold onm, zoom. destruct (f (mch s)); cbn [psat]; auto. Qed.

Lemma psat_ons {A} (f : M E kaddr A) s (Q : A -> kst E -> Prop) W :
  (forall a e, Q a (s <| ext := e |>)) -> (forall r e, W r (s <| ext := e |>)) ->
  psat (ons f s) Q W.
Proof. intros HQ HW. unfold ons, zoom. destruct (f (ext s)); cbn [psat]; auto. Qed.

Lemma psat_mythread c ct s Q W :
  here c ct s ->
  (forall m, same_cur (mch s) m -> Q (Some ct) (s <| mch := m |>)) ->
  psat (mythread c s) Q W.
Proof.
  intros (Hok & _ & Hc & _) HQ.
  assert (forall cp g, cthread (push_step g cp) = cthread cp) as Hg
    by (intros cp g; unfold push_step; by case_match).
  pose proof (field_cur cthread (mch s) c Hok Hg) as Hf. unfold mythread, onm, zoom.
  match type of Hf with psat ?o _ _ => destruct o end; simpl in *; try done.
  destruct Hf as [-> Hs]. unfold cthread_of in Hc. rewrite Hc. auto.
Qed.

Lemma psat_myproc c ct s Q W :
  here c ct s ->
  (forall m, same_cur (mch s) m -> Q (Some ct.1) (s <| mch := m |>)) ->
  psat (myproc c s) Q W.
Proof.
  intros (Hok & Hc & _) HQ.
  assert (forall cp g, cproc (push_step g cp) = cproc cp) as Hg
    by (intros cp g; unfold push_step; by case_match).
  pose proof (field_cur cproc (mch s) c Hok Hg) as Hf. unfold myproc, onm, zoom.
  match type of Hf with psat ?o _ _ => destruct o end; simpl in *; try done.
  destruct Hf as [-> Hs]. unfold cproc_of in Hc. rewrite Hc. auto.
Qed.

Lemma psat_thread_at ct s Q W :
  (forall t, get_thread s ct.1 ct.2 = Some t -> Q t s) -> psat (thread_at (E := E) ct s) Q W.
Proof. intros H. unfold thread_at, gets, bind. by apply psat_deref. Qed.

Lemma psat_proc_at p s Q W :
  (forall pr, procs s !! p = Some pr -> Q pr s) -> psat (proc_at (E := E) p s) Q W.
Proof. intros H. unfold proc_at, gets, bind. by apply psat_deref. Qed.

Lemma psat_mutex_at m s Q W :
  (forall x, mutexes s !! m = Some x -> Q x s) -> psat (mutex_at (E := E) m s) Q W.
Proof. intros H. unfold mutex_at, gets, bind. by apply psat_deref. Qed.
End Refine.

(** The outcome of a call that only takes unlabelled steps. *)
Abbreviation taus m s0 tr s :=
  (psat (m s) (fun _ s' => prims s0 tr s') (fun _ s' => prims s0 tr s')) (only parsing).
Abbreviation taus_stop m s0 tr s :=
  (psat (m s) (fun _ _ => False) (fun _ s' => prims s0 tr s')) (only parsing).
Abbreviation taus_here m c ct s0 tr s :=
  (psat (m s) (fun _ s' => prims s0 tr s' /\ here c ct s') (fun _ s' => prims s0 tr s')) (only parsing).

(** ** Symbolic execution *)

Ltac here_tac :=
  repeat first
  [ match goal with |- here _ _ ?s => is_var s; eassumption end
  | match goal with |- here ?c ?ct (set_mutex _ _ ?s) => change (here c ct s) end
  | apply here_wakeup1
  | apply here_mach; [|assumption]
  | match goal with |- here ?c ?ct (setter _ ?s) => change (here c ct s) end
  | apply here_proc; [|by intros []|first [right; by intros [] | left; simpl in *; congruence]]
  | apply here_thread; [|first [right; by intros | left; simpl in *; congruence]] ].

(** The state of a slot after updates. *)
Ltac st_tac :=
  repeat first
  [ match goal with |- tst ?s _ _ = _ => is_var s; eassumption end
  | match goal with |- pst ?s _ = _ => is_var s; eassumption end
  | match goal with |- tst (set_mutex _ _ ?s) ?p ?i = ?o => change (tst s p i = o) end
  | match goal with |- pst (set_mutex _ _ ?s) ?p = ?o => change (pst s p = o) end
  | match goal with |- tst (setter _ ?s) ?p ?i = ?o => change (tst s p i = o) end
  | match goal with |- pst (setter _ ?s) ?p = ?o => change (pst s p = o) end
  | rewrite pst_thread | rewrite pst_wakeup1
  | rewrite pst_proc_keep by (by intros [])
  | rewrite tst_proc by (by intros [])
  | rewrite tst_thread_keep by (by intros [])
  | rewrite pst_proc_ne by congruence
  | rewrite tst_thread_ne by congruence
  | apply tst_wakeup1; [|done]
  | (eapply here_running; solve [here_tac])
  | (eapply here_used; solve [here_tac])
  | (eapply tst_thread_eq; [|by intros []])
  | (eapply pst_proc_eq; [|by intros []]) ].

(** A change of a slot's state along its life cycle. *)
Ltac life :=
  match goal with
  | H : get_thread ?s ?p ?i = Some ?t |- life_ok (tstate ?t) _ =>
    erewrite (tst_get s p i t); [|solve [st_tac]|exact H]; right; constructor
  end.

(** [prims] of a state built by updates: one step per update. *)
Ltac peel :=
  repeat first
  [ match goal with |- prims _ _ ?s => is_var s; eassumption end
  | apply prims_mach | apply prims_ext | apply prims_first | apply prims_ticks | apply prims_init
  | apply prims_proc; [intros [] ?; unfold proc_keep; simpl; rewrite ?length_insert; by split_and!|]
  | (eapply prims_pstate; [solve [st_tac] | constructor |])
  | apply prims_wakeup1 | apply prims_wakeup2
  | apply prims_thread; [intros ? ?; split; [done|]; first [left; reflexivity | solve [life] | idtac]|] ].

(** One statement of the code. *)
Ltac kstep :=
  lazymatch goal with
  | |- psat (bind (bind _ _) _ _) _ _ => rewrite bind_assoc
  | |- psat (bind (ret _) _ _) _ _ => rewrite bind_ret
  | |- psat (bind (gets _) _ _) _ _ => rewrite bind_gets; cbv beta
  | |- psat (bind (modify _) _ _) _ _ => rewrite bind_modify; cbv beta
  | |- psat (bind (upd_thread _ _) _ _) _ _ => unfold upd_thread at 1; rewrite bind_modify; cbn [fst snd]
  | |- psat (bind (upd_proc _ _) _ _) _ _ => unfold upd_proc at 1; rewrite bind_modify
  | |- psat (bind (upd_mutex _ _) _ _) _ _ => unfold upd_mutex at 1; rewrite bind_modify
  | |- psat (bind (whenM ?b _) _ _) _ _ => destruct b eqn:?; cbn [whenM]
  | |- psat (bind (derefM _ (Some _)) _ _) _ _ => rewrite bind_deref
  | |- psat (bind (derefM _ _) _ _) _ _ => apply psat_bind, psat_deref; intros ? ?; simplify_eq
  | |- psat (bind (thread_at _) _ _) _ _ => apply psat_bind, psat_thread_at; intros ? ?
  | |- psat (bind (proc_at _) _ _) _ _ => apply psat_bind, psat_proc_at; intros ? ?
  | |- psat (bind (mutex_at _) _ _) _ _ => apply psat_bind, psat_mutex_at; intros ? ?
  | |- psat (bind (acq _ _) _ _) _ _ =>
      apply psat_bind, psat_onm; [auto with cur|intros ? ? ?|intros ? ? ?; cbv beta; peel]
  | |- psat (bind (rel _ _) _ _) _ _ =>
      apply psat_bind, psat_onm_go; [auto with cur|auto with cur|intros ? ? ?]
  | |- psat (bind (mythread _) _ _) _ _ =>
      apply psat_bind; eapply psat_mythread; [here_tac|intros ? ?]
  | |- psat (bind (myproc _) _ _) _ _ =>
      apply psat_bind; eapply psat_myproc; [here_tac|intros ? ?; cbn [fst snd]]
  | |- psat (bind (onm _) _ _) _ _ =>
      apply psat_bind, psat_onm_go; [keeps|nostop|intros ? ? ?]
  | |- psat (bind (ons _) _ _) _ _ =>
      apply psat_bind, psat_ons; [intros ? ?|intros ? ?; cbv beta; peel]
  | |- psat (bind (if ?b then _ else _) _ _) _ _ => destruct b eqn:?
  | |- psat (bind (match ?o with _ => _ end) _ _) _ _ => destruct o eqn:?
  | |- psat ((if ?b then _ else _) _) _ _ => destruct b eqn:?
  | |- psat (match ?o with _ => _ end _) _ _ => destruct o eqn:?
  | |- psat (ret _ _) _ _ => cbn [psat ret]
  | |- psat (modify _ _) _ _ => cbn [psat modify]
  | |- psat (upd_thread _ _ _) _ _ => cbn [psat upd_thread modify fst snd]
  | |- psat (upd_proc _ _ _) _ _ => cbn [psat upd_proc modify]
  | |- psat (whenM ?b _ _) _ _ => destruct b eqn:?; cbn [whenM]
  | |- psat (acq _ _ _) _ _ => apply psat_onm; [auto with cur|intros ? ? ?|intros ? ? ?; cbv beta; peel]
  | |- psat (rel _ _ _) _ _ => apply psat_onm_go; [auto with cur|auto with cur|intros ? ? ?]
  | |- psat (ons _ _) _ _ => apply psat_ons; [intros ? ?|intros ? ?; cbv beta; peel]
  | |- psat (onm _ _) _ _ => apply psat_onm_go; [keeps|nostop|intros ? ? ?]
  | |- psat (panic _ _) _ _ => exact I
  end.
Ltac ksteps := repeat kstep.
Ltac kdone := first [solve [peel] | split; [solve [peel]|solve [here_tac]]].

(** A call for which lemma [H] is known. *)
Tactic Notation "kcall" uconstr(H) :=
  lazymatch goal with |- psat (bind _ _ _) _ _ => apply psat_bind | _ => idtac end;
  eapply psat_mono; [eapply H; first [match goal with |- shape _ => eassumption end|solve [here_tac]|solve [peel]|idtac]
                    | intros ? ? ?; cbv beta in *; destruct_and?
                    | intros ? ? ?; cbv beta in *; first [assumption|idtac]].

(** Names the current state, so that what is asserted of it is all that is
    known from there on. *)
Ltac kname s :=
  match goal with |- psat (_ ?st) _ _ => set (s := st) in *; clearbody s end.
