(* ===== verification/KInv.v ===== *)
(** * Invariants of the table transition system

    Identifiers, and the owner of a locked mutex.  At the end, a small concrete state
    on which the theorems about proc.c are exercised: two processors, one process with
    one running thread, the rest of the tables free, and a page list for the services. *)
From S2P Require Import Prelude Spinlock ProcDefs Proc ProcRun KSpec KRefine.
Local Open Scope Z_scope.

Section Inv.
Context {E : Type}.
Implicit Types s : kst E.

(** ** Identifiers stay unique until a counter runs out *)

(** A table of identifiers: [f k] is the identifier in slot [k], 0 when the
    slot is free, and [n] the next one to give out. *)
Definition uniq {K} (f : K -> option Z) (n : Z) : Prop :=
  0 < n /\ (forall k z, f k = Some z -> 0 <= z < n) /\
  (forall k k' z, f k = Some z -> f k' = Some z -> z <> 0 -> k = k').

Lemma uniq_same {K} (f f' : K -> option Z) n : (forall k, f' k = f k) -> uniq f n -> uniq f' n.
Proof.
  intros H (H1 & H2 & H3). split_and!; [done| |].
  - intros k z. rewrite H. apply H2.
  - intros k k' z. rewrite !H. apply H3.
Qed.

Lemma uniq_new {K} `{EqDecision K} (f f' : K -> option Z) n k :
  f' k = Some n -> (forall k', k' <> k -> f' k' = f k') -> uniq f n -> uniq f' (n + 1).
Proof.
  intros Hk Ho (H1 & H2 & H3). split_and!; [lia| |].
  - intros k' z Hz. destruct (decide (k' = k)) as [->|Hne].
    + rewrite Hk in Hz. simplify_eq. lia.
    + rewrite Ho in Hz by done. apply H2 in Hz. lia.
  - intros k1 k2 z Hz1 Hz2 H0.
    destruct (decide (k1 = k)) as [->|Hn1], (decide (k2 = k)) as [->|Hn2]; [done|..].
    + rewrite Hk in Hz1. rewrite Ho in Hz2 by done. apply H2 in Hz2. simplify_eq. lia.
    + rewrite Hk in Hz2. rewrite Ho in Hz1 by done. apply H2 in Hz1. simplify_eq. lia.
    + rewrite Ho in Hz1, Hz2 by done. by eapply H3.
Qed.

Lemma uniq_free {K} `{EqDecision K} (f f' : K -> option Z) n k :
  f' k = Some 0 \/ f' k = None -> (forall k', k' <> k -> f' k' = f k') -> uniq f n -> uniq f' n.
Proof.
  intros Hk Ho (H1 & H2 & H3). split_and!; [done| |].
  - intros k' z Hz. destruct (decide (k' = k)) as [->|Hne].
    + destruct Hk; simplify_eq. lia.
    + rewrite Ho in Hz by done. by apply H2 in Hz.
  - intros k1 k2 z Hz1 Hz2 H0.
    destruct (decide (k1 = k)) as [->|Hn1], (decide (k2 = k)) as [->|Hn2]; [done|..].
    1,2: destruct Hk; simplify_eq.
    rewrite Ho in Hz1, Hz2 by done. by eapply H3.
Qed.

Definition pid_of s (p : nat) : option Z := pid <$> procs s !! p.
Definition tid_of s (k : nat * nat) : option Z := tid <$> get_thread s k.1 k.2.
Definition mid_of s (m : nat) : option Z := mid <$> mutexes s !! m.

Definition ids_ok s : Prop :=
  uniq (pid_of s) (nextpid s) /\ uniq (tid_of s) (nexttid s) /\ uniq (mid_of s) (nextmid s).

(** A thread that is not free has a tid. *)
Definition live_ok s : Prop :=
  forall p i t, get_thread s p i = Some t -> tstate t <> TUNUSED -> tid t <> 0.

Lemma pid_proc s p f q :
  pid_of (set_proc p f s) q = if decide (p = q) then pid ∘ f <$> procs s !! q else pid_of s q.
Proof.
  unfold pid_of, set_proc. simpl. rewrite list_lookup_alter. case_decide; [subst|done].
  by destruct (procs s !! q).
Qed.

Lemma pid_proc_keep s p f :
  (forall pr, procs s !! p = Some pr -> pid (f pr) = pid pr) -> forall q, pid_of (set_proc p f s) q = pid_of s q.
Proof.
  intros Hf q. rewrite pid_proc. case_decide; [subst|done].
  unfold pid_of. destruct (procs s !! q) eqn:Hq; simpl; [|done]. by rewrite Hf.
Qed.

Lemma tid_proc_keep s p f :
  (forall pr, procs s !! p = Some pr -> threads (f pr) = threads pr) ->
  forall k, tid_of (set_proc p f s) k = tid_of s k.
Proof.
  intros Hf [q j]. unfold tid_of, get_thread, set_proc. simpl. rewrite list_lookup_alter.
  case_decide; [subst|done]. destruct (procs s !! q) eqn:Hq; simpl; [|done]. by rewrite Hf.
Qed.

Lemma tid_thread s p i f k :
  tid_of (set_thread p i f s) k = if decide ((p, i) = k) then tid ∘ f <$> get_thread s p i else tid_of s k.
Proof.
  destruct k as [q j]. unfold tid_of. rewrite get_set_thread. simpl. case_decide; [|done].
  simplify_eq. by destruct (get_thread s q j).
Qed.

Lemma tid_thread_keep s p i f :
  (forall t, get_thread s p i = Some t -> tid (f t) = tid t) -> forall k, tid_of (set_thread p i f s) k = tid_of s k.
Proof.
  intros Hf k. rewrite tid_thread. case_decide; [subst|done]. unfold tid_of. simpl.
  destruct (get_thread s p i) eqn:Hg; simpl; [|done]. by rewrite Hf.
Qed.

Lemma pid_thread s p i f q : pid_of (set_thread p i f s) q = pid_of s q.
Proof. by apply pid_proc_keep. Qed.

Lemma mid_mutex s m f k :
  mid_of (set_mutex m f s) k = if decide (m = k) then mid ∘ f <$> mutexes s !! k else mid_of s k.
Proof.
  unfold mid_of, set_mutex. simpl. rewrite list_lookup_alter. case_decide; [subst|done].
  by destruct (mutexes s !! k).
Qed.

Lemma mid_mutex_keep s m f : (forall x, mid (f x) = mid x) -> forall k, mid_of (set_mutex m f s) k = mid_of s k.
Proof.
  intros Hf k. rewrite mid_mutex. case_decide; [subst|done]. unfold mid_of.
  destruct (mutexes s !! k); simpl; by rewrite ?Hf.
Qed.

Lemma wake_ids s sel ch :
  let s' := s <| procs ::= imap (fun (p : nat) (pr : proc) =>
    if (sel p : bool) then pr <| threads ::= fmap (wake_thread ch) |> else pr) |> in
  (forall q, pid_of s' q = pid_of s q) /\ (forall k, tid_of s' k = tid_of s k).
Proof.
  split.
  - intros q. unfold pid_of. simpl. rewrite list_lookup_imap. destruct (procs s !! q); [|done].
    simpl. by destruct (sel q).
  - intros [q j]. unfold tid_of, get_thread. simpl. rewrite list_lookup_imap.
    destruct (procs s !! q) as [pr|]; [|done]. simpl. destruct (sel q); [|done]. simpl.
    rewrite list_lookup_fmap. destruct (threads pr !! j) as [t|]; [|done]. simpl.
    unfold wake_thread. by case_match.
Qed.

(** How many identifiers of each kind a trace allocates. *)
Definition newc (l l' : plabel) : Z :=
  match l, l' with NewPid, NewPid | NewTid, NewTid | NewMid, NewMid => 1 | _, _ => 0 end.
Definition count (l : plabel) (tr : list plabel) : Z := foldr (fun x n => newc l x + n) 0 tr.

Definition counters_ok s (tr : list plabel) : Prop :=
  nextpid s + count NewPid tr < 2 ^ 31 /\ nexttid s + count NewTid tr < 2 ^ 31 /\
  nextmid s + count NewMid tr < 2 ^ 31.

Lemma incr_small z : 0 < z -> z + 1 < 2 ^ 31 -> incr z = z + 1.
Proof. intros. unfold incr. apply s32_small. lia. Qed.

(** An update that keeps or clears the identifier of its slot. *)
Lemma ids_proc s p f :
  (forall pr, procs s !! p = Some pr -> (pid (f pr) = pid pr \/ pid (f pr) = 0) /\ threads (f pr) = threads pr) ->
  ids_ok s -> ids_ok (set_proc p f s).
Proof.
  intros Hf (Hp & Ht & Hm). split_and!; [| |done].
  - destruct (procs s !! p) as [pr|] eqn:Hpr; [destruct (Hf _ eq_refl) as [[Hk|Hz] _]|].
    + eapply uniq_same; [|exact Hp]. apply pid_proc_keep. naive_solver.
    + eapply (uniq_free _ _ _ p); [| |exact Hp].
      * left. rewrite pid_proc, decide_True by done. rewrite Hpr. simpl. by rewrite Hz.
      * intros q Hq. by rewrite pid_proc, decide_False.
    + eapply uniq_same; [|exact Hp]. apply pid_proc_keep. naive_solver.
  - eapply uniq_same; [|exact Ht]. apply tid_proc_keep. intros pr Hpr. by apply Hf.
Qed.

Lemma ids_thread s p i f :
  (forall t, get_thread s p i = Some t -> tid (f t) = tid t \/ tid (f t) = 0) ->
  ids_ok s -> ids_ok (set_thread p i f s).
Proof.
  intros Hf (Hp & Ht & Hm). split_and!; [| |done].
  - eapply uniq_same; [|exact Hp]. apply pid_thread.
  - destruct (get_thread s p i) as [t|] eqn:Hg; [destruct (Hf _ eq_refl) as [Hk|Hz]|].
    + eapply uniq_same; [|exact Ht]. apply tid_thread_keep. naive_solver.
    + eapply (uniq_free _ _ _ (p, i)); [| |exact Ht].
      * left. rewrite tid_thread, decide_True by done. rewrite Hg. simpl. by rewrite Hz.
      * intros q Hq. by rewrite tid_thread, decide_False.
    + eapply uniq_same; [|exact Ht]. apply tid_thread_keep. naive_solver.
Qed.

Lemma ids_mutex s m f :
  (forall x, mid (f x) = mid x) \/ (forall x, mid (f x) = 0) -> ids_ok s -> ids_ok (set_mutex m f s).
Proof.
  intros Hf (Hp & Ht & Hm). split_and!; [done..|]. destruct Hf as [Hk|Hz].
  - eapply uniq_same; [|exact Hm]. by apply mid_mutex_keep.
  - eapply (uniq_free _ _ _ m); [| |exact Hm].
    + rewrite mid_mutex, decide_True by done. destruct (mutexes s !! m); simpl; rewrite ?Hz; auto.
    + intros k Hk. by rewrite mid_mutex, decide_False.
Qed.

(** One step keeps the identifiers unique and moves each counter by what its
    label says. *)
Lemma prim_ids l s s' :
  ids_ok s -> counters_ok s [l] -> prim l s s' ->
  ids_ok s' /\ nextpid s' = nextpid s + newc NewPid l /\ nexttid s' = nexttid s + newc NewTid l /\
  nextmid s' = nextmid s + newc NewMid l.
Proof.
  intros Hi (Cp & Ct & Cm) H. pose proof Hi as (Hp & Ht & Hm). unfold count in *.
  pose proof (proj1 Hp). pose proof (proj1 Ht). pose proof (proj1 Hm).
  destruct H; cbn [foldr newc] in *; rewrite ?Z.add_0_r in *; try (split; [|done]); try done.
  - rewrite <- incr_small by lia. split; [|done]. split_and!; [| |done].
    + match goal with |- uniq ?f _ => change (uniq f (incr (nextpid s))) end.
      rewrite incr_small by lia. eapply (uniq_new _ _ _ p); [| |exact Hp].
      * exact (eq_trans (pid_proc s p _ p) (eq_trans (decide_True _ _ eq_refl) (f_equal _ H))).
      * intros q Hq. exact (eq_trans (pid_proc s p _ q) (decide_False _ _ (not_eq_sym Hq))).
    + eapply uniq_same; [|exact Ht].
      exact (tid_proc_keep s p (fun pr => pr <| pid := nextpid s |> <| pstate := PEMBRYO |>) (fun _ _ => eq_refl)).
  - apply ids_proc; [|done]. intros pr' Hpr'. simplify_eq. destruct H3 as (? & ? & ? & _). auto.
  - by apply ids_proc; [auto|].
  - by apply ids_proc; [auto|].
  - rewrite <- incr_small by lia. split; [|done]. split_and!; [|  |done].
    + eapply uniq_same; [|exact Hp]. exact (pid_thread s p i _).
    + match goal with |- uniq ?f _ => change (uniq f (incr (nexttid s))) end.
      rewrite incr_small by lia. eapply (uniq_new _ _ _ (p, i)); [| |exact Ht].
      * refine (eq_trans (tid_thread s p i _ (p, i)) (eq_trans (decide_True _ _ eq_refl) _)).
        unfold get_thread. rewrite H. simpl. by rewrite H3.
      * intros q Hq. exact (eq_trans (tid_thread s p i _ q) (decide_False _ _ (not_eq_sym Hq))).
  - apply ids_thread; [|done]. intros t' Ht'. simplify_eq. left. apply H3.
  - destruct (wake_ids s sel ch) as [W1 W2]. split_and!; [by eapply uniq_same|by eapply uniq_same|done].
  - by apply ids_thread; [auto|].
  - rewrite <- incr_small by lia. split; [|done]. split_and!; [done..|].
    match goal with |- uniq ?f _ => change (uniq f (incr (nextmid s))) end.
    rewrite incr_small by lia. eapply (uniq_new _ _ _ m); [| |exact Hm].
    + refine (eq_trans (mid_mutex s m _ m) (eq_trans (decide_True _ _ eq_refl) _)). by rewrite H.
    + intros q Hq. exact (eq_trans (mid_mutex s m _ q) (decide_False _ _ (not_eq_sym Hq))).
  - by apply ids_mutex; [right|].
  - by apply ids_mutex; [left|].
  - by apply ids_mutex; [left|].
Qed.

Lemma newc_nonneg l l' : 0 <= newc l l'.
Proof. destruct l, l'; simpl; lia. Qed.

Lemma count_nonneg l tr : 0 <= count l tr.
Proof. unfold count. induction tr as [|x tr IH]; simpl; [lia|]. pose proof (newc_nonneg l x). lia. Qed.

(** ** Live threads have a tid *)

Lemma live_thread s p i f :
  live_ok s ->
  (forall t, get_thread s p i = Some t -> tstate (f t) <> TUNUSED ->
     (tstate t <> TUNUSED /\ tid (f t) = tid t) \/ tid (f t) <> 0) ->
  live_ok (set_thread p i f s).
Proof.
  intros Hl Hf q j t. rewrite get_set_thread. case_decide; [simplify_eq|apply Hl].
  intros (t0 & Ht & ->)%fmap_Some Hn. destruct (Hf t0 Ht Hn) as [[H1 ->]|H1]; [|done]. by eapply Hl.
Qed.

Lemma live_proc s p f :
  live_ok s -> (forall pr, procs s !! p = Some pr -> threads (f pr) = threads pr) -> live_ok (set_proc p f s).
Proof.
  intros Hl Hf q j t. unfold get_thread, set_proc. simpl. rewrite list_lookup_alter.
  case_decide; [subst|apply Hl]. intros (pr & Hpr & Ht)%bind_Some.
  apply fmap_Some in Hpr as (pr0 & Hpr0 & ->). rewrite Hf in Ht by done. apply (Hl q j).
  unfold get_thread. by rewrite Hpr0.
Qed.

Lemma prim_live l s s' : live_ok s -> 0 < nexttid s -> prim l s s' -> live_ok s'.
Proof.
  intros Hl Hn H. destruct H; try done.
  - exact (live_proc s p (fun pr => pr <| pid := nextpid s |> <| pstate := PEMBRYO |>) Hl (fun _ _ => eq_refl)).
  - apply live_proc; [done|]. intros pr' ?. simplify_eq. destruct H0 as (? & ? & ? & _). done.
  - by apply live_proc.
  - by apply live_proc.
  - refine (live_thread s p i _ Hl _). intros t' _ _. right. simpl. lia.
  - apply live_thread; [done|]. intros t' Ht' Hn'. simplify_eq. left. destruct H0 as [Hid Hlf].
    split; [|done]. intros Hu. rewrite Hu in Hlf. destruct Hlf as [He|He]; [congruence|inversion He].
  - intros q j t. unfold get_thread. simpl. rewrite list_lookup_imap.
    intros (pr & Hpr & Ht)%bind_Some. apply fmap_Some in Hpr as (pr0 & Hpr0 & ->).
    specialize (Hl q j). unfold get_thread in Hl. rewrite Hpr0 in Hl. simpl in Hl.
    destruct (sel q); [|by apply Hl]. simpl in Ht. rewrite list_lookup_fmap in Ht.
    apply fmap_Some in Ht as (t0 & Ht0 & ->). unfold wake_thread. case_match; [|by apply Hl].
    to_prop. intros _. apply (Hl t0 Ht0). congruence.
  - by apply live_thread.
Qed.

(** Both invariants along a sequence of steps with room in the counters. *)
Lemma prims_ids s tr s' :
  prims s tr s' -> ids_ok s -> live_ok s -> counters_ok s tr -> ids_ok s' /\ live_ok s'.
Proof.
  induction 1 as [|s1 s2 s3 tr H1 H2 IH|s1 s2 s3 l tr Hl H1 H2 IH]; intros Hi Hv Hc; [done|..].
  - assert (counters_ok s1 [Tau]) as Hc1.
    { destruct Hc as (? & ? & ?). pose proof (count_nonneg NewPid tr). pose proof (count_nonneg NewTid tr).
      pose proof (count_nonneg NewMid tr). unfold counters_ok, count in *. simpl. lia. }
    destruct (prim_ids _ _ _ Hi Hc1 H1) as (Hi2 & Hp & Ht & Hm). apply IH; [done|by eapply prim_live; [|apply Hi|]|].
    unfold counters_ok in *. rewrite Hp, Ht, Hm. simpl. rewrite !Z.add_0_r. done.
  - assert (counters_ok s1 [l]) as Hc1.
    { destruct Hc as (? & ? & ?). pose proof (count_nonneg NewPid tr). pose proof (count_nonneg NewTid tr).
      pose proof (count_nonneg NewMid tr). unfold counters_ok, count in *. simpl in *. lia. }
    destruct (prim_ids _ _ _ Hi Hc1 H1) as (Hi2 & Hp & Ht & Hm). apply IH; [done|by eapply prim_live; [|apply Hi|]|].
    unfold counters_ok, count in *. rewrite Hp, Ht, Hm. simpl in *. lia.
Qed.

(** ** The owner of a locked mutex *)

(** Mutex [m], allocated with identifier [id], is locked by [o]. *)
Definition owns s (m : nat) (id : Z) (o : nat * nat) : Prop :=
  exists x, mutexes s !! m = Some x /\ mid x = id /\ id <> 0 /\ mstate x = MLOCKED /\ mthread x = Some o.

Lemma owns_ne s m f k id o : m <> k -> owns s k id o -> owns (set_mutex m f s) k id o.
Proof. intros Hne (x & Hx & H). exists x. split; [|done]. simpl. by rewrite list_lookup_alter_ne. Qed.

Lemma prim_owns l s s' k id o :
  owns s k id o -> prim l s s' -> (forall z, l <> UnlockBy k z) ->
  owns s' k id o /\ forall who, l <> LockBy k who.
Proof.
  intros Ho H Hl. pose proof Ho as (x' & Hx' & Hid & Hz & Hk & Hw).
  assert (forall m f, m <> k -> owns (set_mutex m f s) k id o) as Hne by (intros; by apply owns_ne).
  destruct H; try done; destruct (decide (m = k)) as [->|Hmk]; try (simplify_eq; congruence).
  - split; [exact (Hne _ _ Hmk)|done].
  - split; [by apply Hne|done].
  - split; [by apply Hne|naive_solver].
  - by destruct (Hl (tid owt)); f_equal.
  - split; [by apply Hne|done].
Qed.

Lemma prims_owns s tr s' k id o :
  prims s tr s' -> owns s k id o -> (forall z, UnlockBy k z ∉ tr) ->
  owns s' k id o /\ forall who, LockBy k who ∉ tr.
Proof.
  induction 1 as [|s1 s2 s3 tr H1 H2 IH|s1 s2 s3 l tr Hl H1 H2 IH]; intros Ho Hn.
  - split; [done|]. intros who. apply not_elem_of_nil.
  - apply IH; [|done]. by eapply prim_owns.
  - destruct (prim_owns _ _ _ _ _ _ Ho H1) as [Ho2 Hl2].
    { intros z ->. apply (Hn z). by left. }
    destruct (IH Ho2) as [Ho3 Hl3]. { intros z Hz. apply (Hn z). by right. }
    split; [done|]. intros who [He|He]%elem_of_cons; [by apply (Hl2 who)|by apply (Hl3 who)].
Qed.

(** The tid of the running thread is its own. *)
Lemma here_tid c ct s o : here c ct s -> ids_ok s -> live_ok s -> tid_of s o = tid_of s ct -> o = ct.
Proof.
  intros Hh (_ & (_ & _ & Hq) & _) Hv He. destruct Hh as (_ & _ & _ & _ & Ht).
  unfold tst in Ht. destruct (get_thread s ct.1 ct.2) as [t|] eqn:Hg; [|done]. injection Ht as Ht.
  assert (Hct : tid_of s ct = Some (tid t)) by (unfold tid_of; by rewrite Hg).
  eapply Hq; [by rewrite He|done|]. eapply Hv; [done|congruence].
Qed.
End Inv.

(** ** A small concrete kernel state *)

(** The free pages; every other service succeeds without an effect. *)
#[export] Instance demo_services : Services (list Z) := {|
  sv_kalloc := fun l => match l with [] => Ret 0 [] | x :: l => Ret x l end;
  sv_kfree := fun x l => Ret tt (x :: l);
  sv_setupkvm := fun l => match l with [] => Ret 0 [] | x :: l => Ret x l end;
  sv_inituvm := fun _ l => Ret tt l;
  sv_copyuvm := fun _ _ l => match l with [] => Ret 0 [] | x :: l => Ret x l end;
  sv_allocuvm := fun _ _ n l => Ret n l;
  sv_deallocuvm := fun _ _ n l => Ret n l;
  sv_freevm := fun x l => Ret tt (x :: l);
  sv_kpgdir := fun _ => 0x80400000;
  sv_filedup := fun f l => Ret f l;
  sv_fileclose := fun _ l => Ret tt l;
  sv_idup := fun i l => Ret i l;
  sv_iput := fun _ l => Ret tt l;
  sv_begin_op := fun l => Ret tt l;
  sv_end_op := fun l => Ret tt l;
  sv_namei_root := fun l => Ret (Some 0%nat) l;
  sv_fsinit := fun l => Ret tt l;
  sv_load := fun _ _ l => l;
  sv_flush := fun _ l => l;
  sv_ofile := fun _ => [];
  sv_cwd := fun _ => O;
  sv_wakes := fun _ => [];
  sv_awake := fun l => l
|}.

Definition thread0 : thread := Thread 0 TUNUSED 0 None 0 tf_zero 0 None None 0 None.
Definition proc0 : proc :=
  Proc 0 0 PUNUSED 0 None 0 (replicate NOFILE None) None (replicate 16 0) (replicate NTHREAD thread0) 0 0.
Definition mutex0 : mutex := Mutex None None 0 MUNLOCKED.

(** A thread with tid [id] in slot [i] of process [p]. *)
Definition with_thread (p i : nat) (id : Z) (st : threadstate) (ps : list proc) : list proc :=
  alter (fun pr => pr <| pstate := PUSED |> <| pgdir := 0x80500000 |>
    <| threads ::= alter (fun t => t <| tid := id |> <| tstate := st |> <| kstack := 0x80600000 |>
                                     <| tparent := Some p |>) i |>) p ps.

(** Process 0 (pid 1) has two running threads, with tids 1 and 2. *)
Definition demo_procs : list proc :=
  alter (fun pr => pr <| pid := 1 |>) 0%nat
    (with_thread 0 1 2 TRUNNING (with_thread 0 0 1 TRUNNING (replicate NPROC proc0))).

Definition on_cpu (p i c : nat) (cs : list cpu) : list cpu :=
  alter (fun cp => cp <| cproc := Some p |> <| cthread := Some (p, i) |>) c cs.

(** Processor 0 runs the first, processor 1 the second, which has locked the
    mutex with identifier 1. *)
Definition demo : kst (list Z) :=
  Kst (demo_mach <| cpus ::= fun cs => on_cpu 0 1 1 (on_cpu 0 0 0 cs) |>) demo_procs
      (<[0%nat := Mutex (Some (0%nat, 1%nat)) (Some 0%nat) 1 MLOCKED]> (replicate MAX_MUTEXES mutex0))
      (Some 1%nat) 2 3 2 0 0 true [0x80700000; 0x80701000; 0x80702000].

Lemma demo_shape : shape demo.
Proof. split_and!; [reflexivity| |reflexivity|vm_compute; lia]. vm_compute. by repeat constructor. Qed.

Lemma demo_here (c : nat) : (c < 2)%nat -> here c (0%nat, c) demo.
Proof.
  intros Hc. assert (c = 0 \/ c = 1)%nat as [-> | ->] by lia; (split_and!; [|reflexivity..]).
  - split; [vm_compute; lia|]. exists 0. split_and!; [reflexivity..|]. intros j Hj. lia.
  - split; [vm_compute; lia|]. eexists. split_and!; [reflexivity..|].
    intros j Hj. by assert (j = 0)%nat as -> by lia.
Qed.

Lemma demo_runs : runs (mch demo) 0 [] (Some 0%nat) (Some (0%nat, 0%nat)).
Proof.
  constructor; [apply (demo_here 0); lia|reflexivity|done| |done|reflexivity|reflexivity].
  by intros lk ?%not_elem_of_nil.
Qed.

Lemma replicate_get {A} (n i : nat) (x y : A) : replicate n x !! i = Some y -> y = x.
Proof. intros H. by apply lookup_replicate in H as [-> _]. Qed.

Lemma demo_pid p z : pid_of demo p = Some z -> (p = 0%nat /\ z = 1) \/ z = 0.
Proof.
  unfold pid_of. destruct p as [|p].
  - vm_compute. intros [= <-]. by left.
  - change (procs demo !! S p) with (replicate 63 proc0 !! p).
    intros (pr & Hpr & ->)%fmap_Some. apply replicate_get in Hpr as ->. by right.
Qed.

Lemma demo_get p i t :
  get_thread demo p i = Some t ->
  (p = 0%nat /\ (i < 2)%nat /\ tid t = Z.of_nat i + 1) \/ t = thread0.
Proof.
  unfold get_thread. destruct p as [|p].
  - intros (pr & Hpr & Ht)%bind_Some. vm_compute in Hpr. simplify_eq. destruct i as [|[|i]].
    + simpl in Ht. simplify_eq. left. split_and!; [done|lia|done].
    + simpl in Ht. simplify_eq. left. split_and!; [done|lia|done].
    + change (replicate 14 thread0 !! i = Some t) in Ht. apply replicate_get in Ht as ->. by right.
  - change (procs demo !! S p) with (replicate 63 proc0 !! p).
    intros (pr & Hpr & Ht)%bind_Some. apply replicate_get in Hpr as ->.
    apply (replicate_get NTHREAD) in Ht as ->. by right.
Qed.

Lemma demo_mid m z : mid_of demo m = Some z -> (m = 0%nat /\ z = 1) \/ z = 0.
Proof.
  unfold mid_of. destruct m as [|m].
  - vm_compute. intros [= <-]. by left.
  - change (mutexes demo !! S m) with (replicate 63 mutex0 !! m).
    intros (x & Hx & ->)%fmap_Some. apply replicate_get in Hx as ->. by right.
Qed.

Lemma demo_ids : ids_ok demo.
Proof.
  split_and!; split_and!; try done.
  - intros p z [[_ ->]| ->]%demo_pid; vm_compute; split; congruence.
  - intros p q z [[-> ->]| ->]%demo_pid [[-> _]|?]%demo_pid; done.
  - intros [p i] z (t & Hg & ->)%fmap_Some. change (nexttid demo) with 3.
    destruct (demo_get _ _ _ Hg) as [(_ & Hi & Ht)| ->]; [rewrite Ht; lia|simpl; lia].
  - intros [p i] [q j] z (t & Hg & ->)%fmap_Some (t' & Hg' & He)%fmap_Some Hz.
    destruct (demo_get _ _ _ Hg) as [(Hp & Hi & Ht)| ->]; [|done]. simpl in Hp, Hi.
    destruct (demo_get _ _ _ Hg') as [(Hp' & Hi' & Ht')| ->]; simpl in *; [|lia].
    subst. f_equal. lia.
  - intros m z [[_ ->]| ->]%demo_mid; vm_compute; split; congruence.
  - intros m m' z [[-> ->]| ->]%demo_mid [[-> _]|?]%demo_mid; done.
Qed.

Lemma demo_live : live_ok demo.
Proof. intros p i t [(_ & Hi & ->)| ->]%demo_get; [lia|done]. Qed.

Lemma demo_owns : owns demo 0 1 (0%nat, 1%nat).
Proof. eexists. by split_and!; [reflexivity|..]. Qed.
