(* ===== verification/KCalls.v ===== *)
(** * proc.c refines the table transition system

    Every function of Proc.v and Kthread.v, run where processor [c] executes a
    thread whose slot is RUNNING, changes the tables by a sequence of [prim]
    steps.  Only [kthread_mutex_lock] and [kthread_mutex_unlock] take labelled
    steps. *)
From S2P Require Import Prelude Cstring Spinlock ProcDefs Proc Kthread ProcRun KSpec KRefine.
Local Open Scope Z_scope.
Local Open Scope kernel_scope.

Section Calls.
Context {E : Type} `{SV : Services E}.
Implicit Types s : kst E.

Lemma sched_prims c r s0 tr s : prims s0 tr s -> taus_stop (sched c r) s0 tr s.
Proof.
  intros Hp. unfold sched. apply psat_bind, psat_onm_any; [intros a m|intros; by peel].
  ksteps. cbn [psat stop]. by peel.
Qed.

Lemma yield_prims c ct s0 tr s : here c ct s -> prims s0 tr s -> taus_stop (yield c) s0 tr s.
Proof.
  destruct ct as [p i]. intros Hh Hp. unfold yield. ksteps.
  apply sched_prims. peel.
Qed.

Lemma sleep_prims c ct s0 tr s ch lk who :
  here c ct s -> prims s0 tr s -> taus_stop (sleep c ch lk who) s0 tr s.
Proof.
  destruct ct as [p i]. intros Hh Hp. unfold sleep. ksteps; apply sched_prims; peel.
Qed.

Lemma sleep_back_prims c ct s0 tr s lk :
  here c ct s -> prims s0 tr s -> taus_here (sleep_back c lk) c ct s0 tr s.
Proof.
  destruct ct as [p i]. intros Hh Hp. unfold sleep_back. ksteps; kdone.
Qed.

Lemma sched_back_prims c ct s0 tr s e :
  here c ct s -> prims s0 tr s -> taus_here (sched_back c e) c ct s0 tr s.
Proof. intros Hh Hp. unfold sched_back. ksteps; kdone. Qed.

Lemma wakeup_prims c ct s0 tr s ch :
  here c ct s -> prims s0 tr s -> taus_here (wakeup c ch) c ct s0 tr s.
Proof. intros Hh Hp. unfold wakeup, wakeup1. ksteps; kdone. Qed.

Lemma wakeups_prims c ct s0 tr ws s :
  here c ct s -> prims s0 tr s -> taus_here (forM ws (fun a => wakeup c (Some a))) c ct s0 tr s.
Proof.
  intros Hh Hp. apply psat_forM; [done|]. intros a s1 _ [Hp1 Hh1]. by apply wakeup_prims.
Qed.

Lemma calling_prims {A} c ct s0 tr s (m : M E kaddr A) :
  here c ct s -> prims s0 tr s -> taus_here (calling c m) c ct s0 tr s.
Proof. intros Hh Hp. unfold calling. do 3 kstep. kcall wakeups_prims. ksteps. kdone. Qed.

Lemma finish_prims {A} c ct s0 tr s (o : A + kaddr) :
  here c ct s -> prims s0 tr s -> taus_here (finish o) c ct s0 tr s.
Proof. intros Hh Hp. by destruct o. Qed.

Lemma onw_prims {A} c ct s0 tr s (m : M E kaddr A) :
  here c ct s -> prims s0 tr s -> taus_here (onw c m) c ct s0 tr s.
Proof. intros Hh Hp. unfold onw. kcall calling_prims. by apply finish_prims. Qed.

Lemma onf_prims {A} c ct s0 tr s (m : M E kaddr A) :
  here c ct s -> prims s0 tr s -> taus_here (onf c m) c ct s0 tr s.
Proof.
  intros Hh Hp. unfold onf. do 7 kstep. kcall calling_prims. do 3 kstep. apply finish_prims; [here_tac|].
  apply prims_proc; [intros pr' _; unfold proc_keep; cbn; rewrite length_imap; by split_and!|peel].
Qed.

Lemma forkret_prims c ct s0 tr s :
  here c ct s -> prims s0 tr s -> taus_here (forkret c) c ct s0 tr s.
Proof.
  intros Hh Hp. unfold forkret. ksteps; [apply onf_prims; [here_tac|peel]|kdone].
Qed.

Lemma switchuvm_prims c ct s0 tr s p t :
  here c ct s -> prims s0 tr s -> taus_here (switchuvm c p t) c ct s0 tr s.
Proof. intros Hh Hp. unfold switchuvm, set_hw. ksteps; kdone. Qed.

Lemma growproc_prims c ct s0 tr s n :
  here c ct s -> prims s0 tr s -> taus_here (growproc c n) c ct s0 tr s.
Proof.
  intros Hh Hp. unfold growproc. ksteps; try kdone; kcall switchuvm_prims; ksteps; kdone.
Qed.

(** ** Allocation *)

Lemma set_proc_twice s p f g : set_proc p f (set_proc p g s) = set_proc p (fun x => f (g x)) s.
Proof.
  unfold set_proc. unfold setter. simpl. f_equal. apply list_alter_alter_eq.
Qed.

Lemma set_thread_twice s p i f g :
  set_thread p i f (set_thread p i g s) = set_thread p i (fun x => f (g x)) s.
Proof.
  unfold set_thread. rewrite set_proc_twice. unfold set_proc, setter. simpl. f_equal.
  apply list_alter_ext; [|done]. intros pr _. f_equal. apply list_alter_alter_eq.
Qed.

Lemma set_mutex_twice s m f g : set_mutex m f (set_mutex m g s) = set_mutex m (fun x => f (g x)) s.
Proof. unfold set_mutex, setter. simpl. f_equal. apply list_alter_alter_eq. Qed.

(** A process slot is taken: helper, pid, nextpid and state. *)
Lemma prims_pid s0 tr s p :
  prims s0 tr s -> pst s p = Some PUNUSED ->
  prims s0 (tr ++ [NewPid])
    (set_proc p (fun pr => pr <| pstate := PEMBRYO |>)
      (set_proc p (fun pr => pr <| pid := nextpid s |>)
        (s <| helper ::= fun h => if (h =? NPROC - 1)%nat then 0%nat else S h |>)
       <| nextpid ::= incr |>)).
Proof.
  unfold pst. intros H Hp. destruct (procs s !! p) as [pr|] eqn:Hl; simplify_eq/=.
  eapply prims_label_r; [|done|]; [done|].
  pose proof (prim_pid s p pr (if (helper s =? NPROC - 1)%nat then 0%nat else S (helper s)) Hl Hp) as Hprim.
  refine (eq_rect _ (prim NewPid s) (Hprim _) _ _).
  - unfold NPROC. intros Hlt. destruct (Nat.eqb_spec (helper s) (64 - 1)); lia.
  - unfold set_proc, setter. simpl. f_equal. symmetry. apply list_alter_alter_eq.
Qed.

(** A thread slot is taken: state, tid, nexttid and tparent. *)
Lemma prims_tid s0 tr s p i :
  prims s0 tr s -> tst s p i = Some TUNUSED \/ (i = O /\ pst s p = Some PEMBRYO /\ is_Some (tst s p i)) ->
  prims s0 (tr ++ [NewTid])
    (set_thread p i (fun t => t <| tparent := Some p |>)
      (set_thread p i (fun t => t <| tid := nexttid s |>)
        (set_thread p i (fun t => t <| tstate := TEMBRYO |>) s)
       <| nexttid ::= incr |>)).
Proof.
  unfold pst, tst, get_thread. intros H Hor. eapply prims_label_r; [|done|]; [done|].
  destruct (procs s !! p) as [pr|] eqn:Hl; simpl in *; [|naive_solver].
  destruct (threads pr !! i) as [t|] eqn:Ht; simpl in *.
  2:{ destruct Hor as [|(_ & _ & [? ?])]; done. }
  refine (eq_rect _ (prim NewTid s) (prim_tid s p i pr t Hl Ht _) _ _); [naive_solver|].
  symmetry. etrans; [|exact (f_equal (setter (proj := nexttid) incr) (set_thread_twice s p i _ _))].
  exact (f_equal (fun s' => set_thread p i _ (setter (proj := nexttid) incr s')) (set_thread_twice s p i _ _)).
Qed.

Lemma setup_kstack_prims c ct s0 tr s t :
  here c ct s -> prims s0 tr s ->
  psat (setup_kstack t s)
    (fun _ s' => (prims s0 tr s' /\ here c ct s') /\ (forall q, pst s' q = pst s q) /\
                 (forall q j, tst s' q j = tst s q j /\
                              tparent <$> get_thread s' q j = tparent <$> get_thread s q j))
    (fun _ s' => prims s0 tr s').
Proof.
  destruct t as [p i]. intros Hh Hp. unfold setup_kstack. ksteps. cbn [fst snd].
  split; [kdone|]. split; [by intros; rewrite !pst_thread|].
  intros q j. rewrite !tst_thread_keep by done. split; [done|].
  rewrite !get_set_thread. case_decide; [|done]. by destruct (get_thread s q j).
Qed.

Lemma find_unused_unused s p : find_unused s = Some p -> pst s p = Some PUNUSED.
Proof.
  unfold find_unused, pst.
  destruct (list_find is_unused (drop (helper s) (procs s))) as [[i x]|] eqn:H.
  - intros [= <-]. apply list_find_Some in H as (Hi & Hx & _). rewrite lookup_drop in Hi.
    rewrite Hi. simpl. by rewrite Hx.
  - intros ([j x] & Hj & ->)%fmap_Some. apply list_find_Some in Hj as (Hi & Hx & _). simpl.
    rewrite Hi. simpl. by rewrite Hx.
Qed.

Lemma shape_thread0 s p : shape s -> is_Some (pst s p) -> is_Some (tst s p 0).
Proof.
  intros (_ & Hf & _) [st Hp]. unfold pst, tst, get_thread in *.
  destruct (procs s !! p) as [pr|] eqn:Hl; [|done]. simpl.
  destruct (Forall_lookup_1 _ _ _ _ Hf Hl) as (Ht & _).
  destruct (threads pr !! 0%nat) eqn:H0; [by eexists|]. apply lookup_ge_None in H0.
  rewrite Ht in H0. unfold NTHREAD in H0. lia.
Qed.

(** After a call that may allocate the identifiers [ls], in this order. *)
Definition prims_upto s0 tr (ls : list plabel) s : Prop :=
  exists l, l `prefix_of` ls /\ prims s0 (tr ++ l) s.

Lemma prims_upto_nil s0 tr ls s : prims s0 tr s -> prims_upto s0 tr ls s.
Proof. exists []. split; [apply prefix_nil|]. by rewrite app_nil_r. Qed.

Lemma prims_upto_all s0 tr ls s : prims s0 (tr ++ ls) s -> prims_upto s0 tr ls s.
Proof. by exists ls. Qed.

Lemma prims_upto_one s0 tr l ls s : prims s0 (tr ++ [l]) s -> prims_upto s0 tr (l :: ls) s.
Proof. exists [l]. split; [|done]. by apply prefix_cons, prefix_nil. Qed.

(** A thread that [allocthread] returns. *)
Definition fresh_thread (ct t : nat * nat) s : Prop :=
  t.1 <> ct.1 /\ pst s t.1 = Some PEMBRYO /\ tst s t.1 t.2 = Some TEMBRYO /\
  tparent <$> get_thread s t.1 t.2 = Some (Some t.1).

Lemma allocthread_prims c ct s0 tr s :
  shape s0 -> here c ct s -> prims s0 tr s ->
  psat (allocthread c s)
    (fun a s' => here c ct s' /\
       match a with
       | Some t => prims s0 (tr ++ [NewPid; NewTid]) s' /\ fresh_thread ct t s'
       | None => prims_upto s0 tr [NewPid; NewTid] s'
       end)
    (fun _ s' => prims_upto s0 tr [NewPid; NewTid] s').
Proof.
  intros Hsh Hh Hp. destruct ct as [cp ci]. unfold allocthread. kstep.
  destruct (find_unused s) as [p|] eqn:Hf; [|by split; [|apply prims_upto_nil]].
  apply find_unused_unused in Hf. pose proof (here_used _ _ _ _ Hh) as Hu.
  assert (p <> cp) as Hne by congruence. do 5 kstep.
  match goal with |- psat (_ ?st) _ _ =>
    assert (prims s0 (tr ++ [NewPid]) st) as Hp1 by exact (prims_pid _ _ _ _ Hp Hf);
    assert (here c (cp, ci) st) as Hh1 by here_tac;
    assert (pst st p = Some PEMBRYO) as He by st_tac
  end. kname s1. kstep.
  pose proof (shape_thread0 _ p (prims_shape _ _ _ Hsh Hp1) (mk_is_Some _ _ He)) as H0.
  do 5 kstep.
  match goal with |- psat (_ ?st) _ _ =>
    assert (prims s0 ((tr ++ [NewPid]) ++ [NewTid]) st) as Hp2
      by (refine (prims_tid _ _ _ _ _ (prims_mach _ _ _ _ Hp1) (or_intror (conj eq_refl (conj _ _)))); done);
    assert (here c (cp, ci) st) as Hh2 by here_tac;
    assert (pst st p = Some PEMBRYO) as He2 by st_tac;
    assert (tst st p 0 = Some TEMBRYO) as Ht2 by (destruct H0 as [x H0]; st_tac);
    assert (tparent <$> get_thread st p 0 = Some (Some p)) as Hpar
  end.
  { rewrite get_set_thread, decide_True by done. destruct H0 as [x H0].
    unfold tst in H0. destruct (get_thread s1 p 0) eqn:Hg; [|done].
    change (get_thread (setter _ ?s') p 0) with (get_thread s' p 0).
    rewrite !get_set_thread, !decide_True by done.
    change (get_thread (setter _ ?s') p 0) with (get_thread s' p 0). by rewrite Hg. }
  kname s2. rewrite <- app_assoc in Hp2. kstep; [|apply prims_upto_all; peel]. kstep. kstep; ksteps.
  - split; [here_tac|]. apply prims_upto_all. peel.
  - apply psat_bind. eapply psat_mono; [eapply setup_kstack_prims; [here_tac|peel]| |].
    2:{ intros. by apply prims_upto_all. }
    intros _ s3 ((? & ?) & ? & ?). rename select (forall q, pst s3 q = _) into Hq. rename select (forall q j, _ /\ _) into Ht. ksteps.
    destruct (Ht p 0%nat) as [Ht3 Hpar3].
    unfold fresh_thread. split_and!; simpl; [done|done|done|rewrite Hq; by rewrite pst_thread| |].
    + rewrite Ht3. by rewrite tst_thread_keep.
    + rewrite Hpar3, get_set_thread, decide_True by done.
      change (get_thread (s2 <| ext := e |>) p 0) with (get_thread s2 p 0). by destruct (get_thread s2 p 0).
Qed.

(** ** Process creation *)

Lemma fresh_tac_thread ct t s p i f :
  (forall t, tstate (f t) = tstate t /\ tparent (f t) = tparent t) ->
  fresh_thread ct t s -> fresh_thread ct t (set_thread p i f s).
Proof.
  intros Hf (H1 & H2 & H3 & H4). split_and!; [done|by rewrite pst_thread| |].
  - rewrite tst_thread_keep; [done|]. apply Hf.
  - rewrite get_set_thread. case_decide; [|done]. destruct (get_thread s t.1 t.2); [|done].
    simpl in *. rewrite (proj2 (Hf _)). congruence.
Qed.

Lemma fresh_tac_proc ct t s p f :
  (forall pr, pstate (f pr) = pstate pr /\ threads (f pr) = threads pr) ->
  fresh_thread ct t s -> fresh_thread ct t (set_proc p f s).
Proof.
  intros Hf (H1 & H2 & H3 & H4). split_and!; [done| | |].
  - rewrite pst_proc_keep; [done|]. apply Hf.
  - rewrite tst_proc; [done|]. apply Hf.
  - rewrite get_set_proc; [done|]. apply Hf.
Qed.
End Calls.

Ltac fresh_tac :=
  repeat first
  [ eassumption
  | match goal with |- fresh_thread ?c ?ct (setter _ ?s) => change (fresh_thread c ct s) end
  | apply fresh_tac_thread; [by intros []|]
  | apply fresh_tac_proc; [by intros []|] ].

Section Calls2.
Context {E : Type} `{SV : Services E}.
Implicit Types s : kst E.

Lemma dup_files_prims c ct s0 tr s cp p t :
  here c ct s -> prims s0 tr s -> fresh_thread ct t s ->
  psat (dup_files cp p s)
    (fun _ s' => prims s0 tr s' /\ here c ct s' /\ fresh_thread ct t s') (fun _ s' => prims s0 tr s').
Proof.
  intros Hh Hp Hf. unfold dup_files. apply psat_forM; [done|].
  intros i s1 _ (Hp1 & Hh1 & Hf1). ksteps; split_and!; first [by peel|by here_tac|by fresh_tac].
Qed.

Lemma set_name_prims c ct s0 tr s p nm t :
  here c ct s -> prims s0 tr s -> fresh_thread ct t s ->
  psat (set_name p nm s)
    (fun _ s' => prims s0 tr s' /\ here c ct s' /\ fresh_thread ct t s') (fun _ s' => prims s0 tr s').
Proof.
  intros Hh Hp Hf. unfold set_name. ksteps. cbn. split_and!; [|here_tac|fresh_tac].
  apply prims_proc; [|done]. intros pr' Hpr'. simplify_eq. apply safestrcpy_length in H0 as Hl.
  by split_and!.
Qed.

(** From a call that allocated [ls] on, only unlabelled steps. *)
Lemma psat_upto {A} (o : outcome (kst E) kstop A) c ct s0 tr ls :
  psat o (fun _ s' => prims s0 (tr ++ ls) s' /\ here c ct s') (fun _ s' => prims s0 (tr ++ ls) s') ->
  psat o (fun _ s' => prims_upto s0 tr ls s' /\ here c ct s') (fun _ s' => prims_upto s0 tr ls s').
Proof. intros H. eapply psat_mono; [exact H|intros ? ? []|intros]; eauto using prims_upto_all. Qed.

Lemma fork_prims c ct s0 tr s :
  shape s0 -> here c ct s -> prims s0 tr s ->
  psat (fork c s) (fun _ s' => prims_upto s0 tr [NewPid; NewTid] s' /\ here c ct s')
                  (fun _ s' => prims_upto s0 tr [NewPid; NewTid] s').
Proof.
  destruct ct as [cp ci]. intros Hsh Hh Hp. unfold fork. do 2 kstep.
  kstep; [|apply prims_upto_nil; peel]. kcall allocthread_prims.
  destruct a0 as [[p i]|].
  2:{ rename select (prims_upto _ _ _ _) into Hu. destruct Hu as (l & Hl & Hpl). ksteps.
      split; [exists l; split; [done|peel]|here_tac]. }
  destruct_and?. rename select (fresh_thread _ _ _) into Hf. pose proof Hf as (Hne & Hpe & Hte & Hpar).
  simpl in Hne, Hpe, Hte, Hpar. apply psat_upto. kstep.
  simplify_eq/=. rename select (get_thread s1 p i = _) into Hg.
  rewrite Hg in Hpar. simplify_eq/=. rewrite Hpar. ksteps; [kdone|].
  kcall dup_files_prims; [fresh_tac|]. ksteps. clear Hf. kcall set_name_prims; [fresh_tac|].
  rename select (fresh_thread _ _ _) into Hf. destruct Hf as (Hne3 & Hpe3 & Hte3 & _).
  simpl in *. ksteps. kdone.
Qed.

Lemma kthread_create_prims c ct s0 tr s f st :
  here c ct s -> prims s0 tr s ->
  psat (kthread_create c f st s) (fun _ s' => prims_upto s0 tr [NewTid] s' /\ here c ct s')
                                 (fun _ s' => prims_upto s0 tr [NewTid] s').
Proof.
  destruct ct as [p ci]. intros Hh Hp. unfold kthread_create. do 2 kstep.
  kstep; [|apply prims_upto_nil; peel]. do 2 kstep.
  destruct (list_find _ _) as [[i t]|] eqn:Hfind.
  2:{ ksteps. split; [apply prims_upto_nil; peel|here_tac]. }
  apply list_find_Some in Hfind as (Hi & Hu & _).
  match goal with |- psat (_ ?st) _ _ =>
    assert (tst st p i = Some TUNUSED) as Hun; [|assert (prims s0 tr st) as Hp1 by peel;
      assert (here c (p, ci) st) as Hh1 by here_tac; kname s1]
  end.
  { unfold tst, get_thread. rename select (procs _ !! p = _) into Hpr. rewrite Hpr. simpl.
    rewrite Hi. simpl. by rewrite Hu. }
  assert (i <> ci) as Hne by (intros ->; pose proof (here_running _ _ _ _ Hh1); congruence).
  do 5 kstep. match goal with |- psat (_ ?st) _ _ =>
    assert (prims s0 (tr ++ [NewTid]) st) as Hp2 by exact (prims_tid _ _ _ _ _ Hp1 (or_introl Hun));
    assert (here c (p, ci) st) as Hh2 by here_tac;
    assert (tst st p i = Some TEMBRYO) as Ht2 by st_tac
  end.
  kname s2. apply psat_upto. ksteps; [kdone|]. kcall setup_kstack_prims.
  rename select (forall q j, _ /\ _) into Ht.
  assert (tst s3 p i = Some TEMBRYO) as Ht3 by (rewrite (proj1 (Ht p i)); st_tac).
  ksteps. kdone.
Qed.

End Calls2.

(** ** The mutex calls *)

Section Mutex.
Context {E : Type} `{SV : Services E}.
Implicit Types s : kst E.

(** ** Mutexes *)

Lemma find_mutex_Some id s m :
  find_mutex id s = Some m -> exists x, mutexes s !! m = Some x /\ mid x = id.
Proof.
  unfold find_mutex. intros ([j x] & Hj & ->)%fmap_Some.
  apply list_find_Some in Hj as (Hi & Hx & _). eauto.
Qed.

Lemma set_mutex_thread s m f p i g : set_mutex m f (set_thread p i g s) = set_thread p i g (set_mutex m f s).
Proof. done. Qed.
Lemma set_mutex_nextmid s m f g : set_mutex m f (s <| nextmid ::= g |>) = set_mutex m f s <| nextmid ::= g |>.
Proof. done. Qed.

Lemma prims_mutex_alloc s0 tr s m p i cp :
  prims s0 tr s -> (exists x, mutexes s !! m = Some x /\ mid x = 0) ->
  prims s0 (tr ++ [NewMid])
    (set_mutex m (fun x => x <| mstate := MUNLOCKED |>)
      (set_thread p i (fun t => t <| tmutex := Some m |>)
        (set_mutex m (fun x => x <| mproc := cp |>)
          (set_mutex m (fun x => x <| mthread := None |>)
            (set_mutex m (fun x => x <| mid := nextmid s |>) s <| nextmid ::= incr |>))))).
Proof.
  intros H (x & Hx & H0).
  assert (prims s0 (tr ++ [NewMid]) (set_thread p i (fun t => t <| tmutex := Some m |>)
    (set_mutex m (fun _ => Mutex None cp (nextmid s) MUNLOCKED) s <| nextmid ::= incr |>))) as H1.
  { apply prims_thread; [by intros; split; [|left]|].
    eapply prims_label_r; [|done|]; [done|]. by eapply prim_mutex_alloc. }
  rewrite set_mutex_thread, !set_mutex_nextmid, !set_mutex_twice. exact H1.
Qed.

Lemma prims_mutex_free s0 tr s m x p i :
  prims s0 tr s -> mutexes s !! m = Some x -> mstate x <> MLOCKED ->
  prims s0 tr
    (set_thread p i (fun t => t <| tmutex := None |>)
      (set_mutex m (fun x => x <| mstate := MUNLOCKED |>)
        (set_mutex m (fun x => x <| mthread := None |>)
          (set_mutex m (fun x => x <| mid := 0 |>) s)))).
Proof.
  intros H Hx Hu. apply prims_thread; [by intros; split; [|left]|].
  rewrite !set_mutex_twice. eapply prims_tau_r; [done|]. eapply prim_mutex_free; [done|].
  by destruct (mstate x).
Qed.

Lemma kthread_mutex_alloc_prims c ct s0 tr s :
  here c ct s -> prims s0 tr s ->
  psat (kthread_mutex_alloc c s) (fun _ s' => prims_upto s0 tr [NewMid] s' /\ here c ct s')
                                 (fun _ s' => prims_upto s0 tr [NewMid] s').
Proof.
  destruct ct as [p ci]. intros Hh Hp. unfold kthread_mutex_alloc. do 2 kstep.
  kstep; [|apply prims_upto_nil; peel]. kstep.
  destruct (find_mutex 0 _) as [mi|] eqn:Hf.
  2:{ ksteps. split; [apply prims_upto_nil; peel|here_tac]. }
  apply find_mutex_Some in Hf. do 8 kstep.
  match goal with |- psat (_ ?st) _ _ =>
    assert (prims s0 (tr ++ [NewMid]) st) as Hp1 by (apply prims_mutex_alloc; [peel|done]);
    assert (here c (p, ci) st) as Hh1 by here_tac
  end.
  kname s1. apply psat_upto. ksteps. kdone.
Qed.

(** What a deallocation leaves alone. *)
Definition same_states s s' : Prop := (forall q, pst s' q = pst s q) /\ (forall q j, tst s' q j = tst s q j).

Lemma kthread_mutex_dealloc_prims c ct s0 tr s id :
  here c ct s -> prims s0 tr s ->
  psat (kthread_mutex_dealloc c id s)
    (fun _ s' => prims s0 tr s' /\ here c ct s' /\ same_states s s') (fun _ s' => prims s0 tr s').
Proof.
  destruct ct as [p ci]. intros Hh Hp. unfold kthread_mutex_dealloc. do 3 kstep.
  destruct (find_mutex id _) as [m'|] eqn:Hf; [|ksteps; by split_and!; [peel|here_tac|split]].
  apply find_mutex_Some in Hf. do 2 kstep; [ksteps; by split_and!; [peel|here_tac|split]|].
  do 5 kstep. match goal with |- psat (_ ?st) _ _ =>
    assert (prims s0 tr st) as Hp1 by (eapply prims_mutex_free; [peel|done|by to_prop]);
    assert (here c (p, ci) st) as Hh1 by here_tac;
    assert (same_states s st) as Hss by (split; intros; [by rewrite pst_thread|by rewrite tst_thread_keep])
  end.
  kname s1. ksteps. by split_and!; [peel|here_tac|].
Qed.

(** Locking: no labelled step, or [LockBy m] by the running thread. *)
Definition locks_by m ct s0 tr s' : Prop :=
  prims (E := E) s0 tr s' \/ prims s0 (tr ++ [LockBy m (Some ct)]) s'.

Lemma set_mutex_same s m f x : mutexes s !! m = Some x -> f x = x -> set_mutex m f s = s.
Proof.
  intros Hx Hf. assert (alter f m (mutexes s) = mutexes s) as H.
  { apply list_eq. intros j. rewrite list_lookup_alter. case_decide; [subst|done].
    rewrite Hx. simpl. by rewrite Hf. }
  unfold set_mutex. destruct s. unfold setter. simpl in *. by rewrite H.
Qed.

Lemma mutex_lock_pass_prims c ct s0 tr s m :
  here c ct s -> prims s0 tr s ->
  psat (mutex_lock_pass c m s)
    (fun r s' => r = 0 /\ prims s0 (tr ++ [LockBy m (Some ct)]) s' /\ here c ct s')
    (fun _ s' => locks_by m ct s0 tr s').
Proof.
  intros Hh Hp. unfold mutex_lock_pass. do 3 kstep.
  - rewrite (set_mutex_same _ _ _ x); [|done|by to_prop; destruct x; simplify_eq/=].
    apply psat_bind. eapply psat_mono; [eapply sleep_prims; [done|exact Hp] | |].
    + done.
    + intros. by left.
  - assert (mstate x = MUNLOCKED) as Hu by (to_prop; by destruct (mstate x)).
    do 2 kstep. rename select (same_cur _ _) into Hsc.
    match goal with |- psat (_ ?st) _ _ =>
      assert (prims s0 (tr ++ [LockBy m (Some ct)]) st) as Hp1; [|assert (here c ct st) as Hh1 by here_tac]
    end.
    { rename select (mutexes s !! m = Some x) into Hx. apply (prims_mach _ _ _ m0) in Hp.
      pose proof (prim_mutex_lock (s <| mch := m0 |>) m x (Some ct) Hx Hu) as Hl.
      assert (LockBy m (Some ct) <> Tau) as Hne by done.
      pose proof (prims_label_r _ _ _ _ _ Hne Hp Hl) as H1.
      rewrite <- (set_mutex_twice _ _ (fun x => x <| mthread := Some ct |>)) in H1. exact H1. }
    kname s1. ksteps. split_and!; [done|peel|here_tac].
Qed.

Lemma kthread_mutex_lock_prims c ct s0 tr s id :
  here c ct s -> prims s0 tr s ->
  psat (kthread_mutex_lock c id s)
    (fun r s' => exists m, (r = -1 /\ prims s0 tr s' \/ r = 0 /\ prims s0 (tr ++ [LockBy m (Some ct)]) s')
                 /\ here c ct s')
    (fun _ s' => exists m, locks_by m ct s0 tr s').
Proof.
  intros Hh Hp. unfold kthread_mutex_lock. kstep. kstep; [|exists 0%nat; left; peel].
  kstep. destruct (find_mutex id _) as [mi|] eqn:Hf.
  2:{ ksteps. exists 0%nat. split; [left; split; [done|peel]|here_tac]. }
  do 2 kstep. { ksteps. exists 0%nat. split; [left; split; [done|peel]|here_tac]. }
  eapply psat_mono; [eapply mutex_lock_pass_prims; [here_tac|peel]| |].
  - intros r s' (-> & ? & ?). exists mi. auto.
  - intros r s' ?. by exists mi.
Qed.

Lemma kthread_mutex_unlock_prims c ct s0 tr s id :
  here c ct s -> prims s0 tr s ->
  psat (kthread_mutex_unlock c id s)
    (fun r s' => (r = -1 /\ prims s0 tr s' \/
                  r = 0 /\ exists m t, get_thread s ct.1 ct.2 = Some t /\
                                      prims s0 (tr ++ [UnlockBy m (tid t)]) s')
                 /\ here c ct s')
    (fun _ s' => prims s0 tr s' \/
       exists m t, get_thread s ct.1 ct.2 = Some t /\ prims s0 (tr ++ [UnlockBy m (tid t)]) s').
Proof.
  intros Hh Hp. unfold kthread_mutex_unlock. kstep; [|left; peel].
  kstep. destruct (find_mutex id _) as [mi|] eqn:Hf; [|ksteps; split; [left; split; [done|peel]|here_tac]].
  do 2 kstep.
  { ksteps. split; [left; split; [done|peel]|here_tac]. }
  do 10 kstep. rename select (get_thread _ ct.1 ct.2 = Some _) into Hct. kstep.
  kstep. { ksteps. split; [left; split; [done|peel]|here_tac]. }
  to_prop. do 2 kstep. match goal with |- psat (_ ?st) _ _ =>
    assert (prims s0 (tr ++ [UnlockBy mi (tid t0)]) st) as Hp1; [|assert (here c ct st) as Hh1 by here_tac; kname s1]
  end.
  { rewrite set_mutex_twice. eapply prims_label_r; [done| |].
    2:{ eapply prim_mutex_unlock; [eassumption|by destruct (mstate x)|eassumption|eassumption|done]. }
    by repeat apply prims_mach. }
  kstep. apply psat_bind. eapply psat_mono; [eapply wakeup_prims; [here_tac|peel]| |].
  - intros _ s2 [? ?]. ksteps. split; [right; split; [done|by exists mi, t0]|done].
  - intros. right. by exists mi, t0.
Qed.
End Mutex.
