(* ===== verification/KExit.v ===== *)
(** * Exit, wait, join and the scheduler refine the table transition system *)
From S2P Require Import Prelude Spinlock ProcDefs Proc Kthread ProcRun KSpec KRefine KCalls.
Local Open Scope Z_scope.
Local Open Scope kernel_scope.

Section Exit.
Context {E : Type} `{SV : Services E}.
Implicit Types s : kst E.

(** The slots [remove_thread] may clear. *)
Definition removable s p i : Prop :=
  tst s p i = Some TSLEEPING \/ tst s p i = Some TZOMBIE \/ pst s p = Some PZOMBIE.

Lemma removable_same s s' p i : same_states s s' -> removable s p i -> removable s' p i.
Proof. intros [Hp Ht]. unfold removable. by rewrite Hp, Ht. Qed.

Lemma prims_remove s0 tr s p i :
  prims s0 tr s -> removable s p i ->
  prims s0 tr (set_thread p i (fun t => t <| kstack := 0 |> <| tid := 0 |> <| tstate := TUNUSED |>
                                         <| tparent := None |> <| tkilled := 0 |>) s).
Proof.
  unfold removable, tst, pst, get_thread. intros H Hr.
  destruct (procs s !! p) as [pr|] eqn:Hp.
  2:{ rewrite set_thread_none; [done|]. unfold get_thread. by rewrite Hp. }
  simpl in *. destruct (threads pr !! i) as [t|] eqn:Ht.
  2:{ rewrite set_thread_none; [done|]. unfold get_thread. by rewrite Hp. }
  eapply prims_tau_r; [done|]. eapply prim_remove; [done..|]. simpl in Hr. naive_solver.
Qed.

Lemma remove_thread_prims c ct s0 tr s p i :
  here c ct s -> prims s0 tr s -> removable s p i -> (p, i) <> ct ->
  psat (remove_thread c (p, i) s)
    (fun _ s' => prims s0 tr s' /\ here c ct s' /\ forall q, pst s' q = pst s q)
    (fun _ s' => prims s0 tr s').
Proof.
  intros Hh Hp Hr Hne. unfold remove_thread. kstep.
  match goal with |- psat (bind ?m _ _) _ _ =>
    assert (psat (m s) (fun _ s' => prims s0 tr s' /\ here c ct s' /\ same_states s s')
                       (fun _ s' => prims s0 tr s')) as H1
  end.
  { ksteps; split_and!; by peel || by here_tac || by split. }
  apply psat_bind. eapply psat_mono; [exact H1| |done]. intros _ s1 (Hp1 & Hh1 & Hs1).
  match goal with |- psat (bind ?m _ _) _ _ =>
    assert (psat (m s1) (fun _ s' => prims s0 tr s' /\ here c ct s' /\ same_states s s')
                       (fun _ s' => prims s0 tr s')) as H2
  end.
  { destruct (tmutex t) as [m|]; [|done]. kstep. kcall kthread_mutex_dealloc_prims.
    ksteps. split_and!; [done..|].
    destruct Hs1 as [Ha Hb]. rename select (same_states s1 _) into Hs2. destruct Hs2 as [Ha' Hb'].
    split; intros; by rewrite ?Ha', ?Hb', ?Ha, ?Hb. }
  apply psat_bind. eapply psat_mono; [exact H2| |done]. intros _ s2 (Hp2 & Hh2 & Hs2).
  cbn [upd_thread modify psat fst snd]. split_and!.
  - apply prims_remove; [done|]. by eapply removable_same.
  - by apply here_thread; [|left].
  - intros q. rewrite pst_thread. apply Hs2.
Qed.

(** The scan of [kill_other_threads] never touches the scanning thread. *)
Lemma kill_scan_prims c ct s0 tr p ts s found :
  here c ct s -> prims s0 tr s -> taus_here (kill_scan c p ct ts found) c ct s0 tr s.
Proof.
  revert s found. induction ts as [|i ts IH]; intros s found Hh Hp; simpl; [done|].
  ksteps; [| |by apply IH].
  - cbn [fst snd] in *. to_prop. kcall remove_thread_prims; [| |by apply IH].
    + unfold removable. rewrite !tst_thread_keep by done. unfold tst.
      repeat match goal with H : get_thread _ p i = Some _ |- _ => rewrite H end. simpl.
      rename select (bool_decide _ || bool_decide _ = true) into Hb.
      apply orb_true_iff in Hb as [Hb|Hb]; to_prop; rewrite Hb; auto.
    + intros <-. simpl in *. congruence.
  - cbn [fst snd] in *. apply IH; [here_tac|peel].
Qed.

Lemma kill_others_pass_prims c ct s0 tr s a :
  here c ct s -> prims s0 tr s -> taus_here (kill_others_pass c a) c ct s0 tr s.
Proof.
  destruct ct as [p i]. intros Hh Hp. unfold kill_others_pass. ksteps. kcall kill_scan_prims.
  ksteps; [|kdone]. eapply psat_mono; [eapply sched_prims; peel|done|done].
Qed.

Lemma kill_other_threads_prims c ct s0 tr s a :
  here c ct s -> prims s0 tr s -> taus_here (kill_other_threads c a) c ct s0 tr s.
Proof.
  destruct ct as [p i]. intros Hh Hp. unfold kill_other_threads, wakeup1. ksteps.
  - eapply psat_mono; [eapply sched_prims; peel|done|done].
  - apply kill_others_pass_prims; [here_tac|peel].
Qed.

Lemma close_files_prims c ct s0 tr s p :
  here c ct s -> prims s0 tr s -> taus_here (close_files c p) c ct s0 tr s.
Proof.
  intros Hh Hp. unfold close_files. apply psat_forM; [done|].
  intros i s1 _ (Hp1 & Hh1). ksteps; [|kdone]. kcall onf_prims. ksteps. kdone.
Qed.

Lemma abandon_prims c ct s0 tr s p :
  here c ct s -> prims s0 tr s -> taus_here (abandon p) c ct s0 tr s.
Proof.
  intros Hh Hp. unfold abandon, wakeup1. kstep. apply psat_forM; [done|].
  intros i s1 _ (Hp1 & Hh1). ksteps; kdone.
Qed.

Lemma safe_exit_prims c ct s0 tr s :
  here c ct s -> prims s0 tr s -> taus_stop (safe_exit c) s0 tr s.
Proof.
  destruct ct as [p i]. intros Hh Hp. unfold safe_exit, wakeup1. ksteps.
  kcall close_files_prims. kcall onf_prims. kstep. kcall onf_prims. kcall onf_prims. ksteps. kcall abandon_prims. ksteps.
  eapply psat_mono; [eapply sched_prims; peel|done|done].
Qed.

Lemma exit_prims c ct s0 tr s :
  here c ct s -> prims s0 tr s -> taus_stop (exit c) s0 tr s.
Proof.
  intros Hh Hp. unfold exit. ksteps. kcall kill_other_threads_prims.
  by eapply safe_exit_prims.
Qed.

Lemma reap_prims c ct s0 tr s p :
  here c ct s -> prims s0 tr s -> pst s p = Some PZOMBIE -> taus_here (reap c p) c ct s0 tr s.
Proof.
  intros Hh Hp Hz. unfold reap. apply psat_bind.
  assert (ct.1 <> p) as Hne by (intros <-; destruct ct; pose proof (here_used _ _ _ _ Hh); simpl in *; congruence).
  eapply psat_mono;
    [apply (psat_forM (fun s' => prims s0 tr s' /\ here c ct s' /\ pst s' p = Some PZOMBIE)
                          (fun _ s' => prims s0 tr s'))| |].
  - done.
  - intros i s1 _ (Hp1 & Hh1 & Hz1). kcall remove_thread_prims.
    + by right; right.
    + intros <-. done.
    + rename select (forall q, pst _ q = _) into Hq. split_and!; [done..|]. by rewrite Hq.
  - intros _ s1 (Hp1 & Hh1 & Hz1). ksteps.
    match goal with |- _ /\ here _ _ (?st <| mch := _ |>) =>
      assert (prims s0 tr st) as Hp2; [|assert (here c ct st) as Hh2 by here_tac;
        split; [by apply prims_mach|by apply here_mach]]
    end.
    eapply prims_tau_r; [by apply prims_ext|]. eapply prim_reap; [done|].
    eapply pst_get; [exact Hz1|done].
  - done.
Qed.

Lemma wait_pass_prims c ct s0 tr s :
  here c ct s -> prims s0 tr s -> taus_here (wait_pass c) c ct s0 tr s.
Proof.
  intros Hh Hp. unfold wait_pass. do 3 kstep.
  destruct (list_find _ _) as [[p pr]|] eqn:Hf.
  - apply list_find_Some in Hf as (Hi & [_ Hz] & _). apply reap_prims; [here_tac|peel|].
    unfold pst. rewrite Hi. simpl. by rewrite Hz.
  - ksteps; try kdone. by kcall sleep_prims.
Qed.

Lemma wait_prims c ct s0 tr s :
  here c ct s -> prims s0 tr s -> taus_here (wait c) c ct s0 tr s.
Proof. intros Hh Hp. unfold wait. kstep. apply wait_pass_prims; [here_tac|peel]. Qed.

Lemma kill_prims c ct s0 tr s id :
  here c ct s -> prims s0 tr s -> taus_here (kill c id) c ct s0 tr s.
Proof. intros Hh Hp. unfold kill. do 2 kstep. destruct (list_find _ _) as [[p pr]|]; ksteps; kdone. Qed.

Lemma kthread_exit_prims c ct s0 tr s :
  here c ct s -> prims s0 tr s -> taus_stop (kthread_exit c) s0 tr s.
Proof.
  destruct ct as [p i]. intros Hh Hp. unfold kthread_exit, wakeup2. ksteps.
  - by kcall exit_prims.
  - eapply psat_mono; [eapply sched_prims; peel|done|done].
Qed.

Lemma join2_pass_prims c ct s0 tr s p t :
  here c ct s -> prims s0 tr s -> taus_here (join2_pass c p t) c ct s0 tr s.
Proof. intros Hh Hp. unfold join2_pass. ksteps; try kdone. by kcall sleep_prims. Qed.

Lemma kthread_join2_prims c ct s0 tr s p t :
  here c ct s -> prims s0 tr s -> taus_here (kthread_join2 c p t) c ct s0 tr s.
Proof. intros Hh Hp. unfold kthread_join2. kstep. apply join2_pass_prims; [here_tac|peel]. Qed.

Lemma join_pass_prims c ct s0 tr s t id :
  shape s0 -> here c ct s -> prims s0 tr s -> taus_here (join_pass c t id) c ct s0 tr s.
Proof.
  destruct ct as [p i]. intros Hsh Hh Hp. unfold join_pass. ksteps; try kdone.
  - by kcall sleep_prims.
  - to_prop. rename select (procs _ !! p = Some pr) into Hpr.
    assert (tst s p t = Some TZOMBIE \/ get_thread s p t = None) as [Hz|Hn].
    { rename select (state_code_at pr t = Some _) into Hst. unfold state_code_at in Hst.
      unfold tst, get_thread. change (procs s !! p = Some pr) in Hpr. rewrite Hpr. simpl.
      destruct (Nat.eqb_spec t NTHREAD) as [->|].
      - right. apply lookup_ge_None. pose proof (prims_shape _ _ _ Hsh Hp) as (_ & Hf & _).
        by destruct (Forall_lookup_1 _ _ _ _ Hf Hpr) as (-> & _).
      - left. destruct (threads pr !! t) as [x|]; [|done]. simpl in *. simplify_eq.
        by destruct (tstate x). }
    + kcall remove_thread_prims.
      * by right; left.
      * intros [= ->]. pose proof (here_running _ _ _ _ Hh). congruence.
      * ksteps. kdone.
    + unfold remove_thread. kstep. apply psat_bind, psat_thread_at. intros x Hx.
      change (get_thread s p t = Some x) in Hx. congruence.
Qed.

Lemma kthread_join_prims c ct s0 tr s id :
  shape s0 -> here c ct s -> prims s0 tr s -> taus_here (kthread_join c id) c ct s0 tr s.
Proof.
  intros Hsh Hh Hp. unfold kthread_join. do 4 kstep. apply join_pass_prims; [done|here_tac|peel].
Qed.

Lemma kthread_id_prims c ct s0 tr s :
  here c ct s -> prims s0 tr s -> taus_here (kthread_id c) c ct s0 tr s.
Proof. intros Hh Hp. unfold kthread_id. ksteps; kdone. Qed.

Lemma sys_sleep_pass_prims c ct s0 tr s n t0 :
  here c ct s -> prims s0 tr s -> taus_here (sys_sleep_pass c n t0) c ct s0 tr s.
Proof. intros Hh Hp. unfold sys_sleep_pass. ksteps; try kdone. by kcall sleep_prims. Qed.

Lemma sys_sleep_prims c ct s0 tr s n :
  here c ct s -> prims s0 tr s -> taus_here (sys_sleep c n) c ct s0 tr s.
Proof. intros Hh Hp. unfold sys_sleep. do 2 kstep. apply sys_sleep_pass_prims; [here_tac|peel]. Qed.

Lemma sys_uptime_prims c ct s0 tr s :
  here c ct s -> prims s0 tr s -> taus_here (sys_uptime c) c ct s0 tr s.
Proof. intros Hh Hp. unfold sys_uptime. ksteps; kdone. Qed.

Lemma clock_tick_prims c ct s0 tr s :
  here c ct s -> prims s0 tr s -> taus_here (clock_tick c) c ct s0 tr s.
Proof. intros Hh Hp. unfold clock_tick. ksteps; try kdone. kcall wakeup_prims. ksteps; kdone. Qed.
End Exit.
