(* ===== verification/KSystem.v ===== *)
(** * The kernel calls, the scheduler and resumption as one system

    [kop] names every entry into the code of Proc.v and Kthread.v.  The first
    theorem is the refinement: each of them, run where it can be called,
    changes the tables only along the steps of KSpec.v, with the labels its
    name allows.  The others are what follows for every call at once: tables
    keep their shape, identifiers stay unique, a locked mutex keeps its owner
    until that thread unlocks it. *)
From S2P Require Import Prelude Spinlock ProcDefs Proc Kthread ProcRun KSpec KRefine KInv.
From S2P Require Import KCalls KExit.
Local Open Scope Z_scope.
Local Open Scope kernel_scope.

(** What a processor that runs a thread can enter: a system call, the two
    branches of the timer interrupt, or the switch back into the thread. *)
Inductive kop :=
| OFork | OExit | OWait | OKill (pid : Z) | OGrow (n : Z) | OSleep (n : Z) | OUptime
| OTick | OYield
| OCreate (start stack : Z) | OId | OThreadExit | OJoin (tid : Z)
| OMutexAlloc | OMutexDealloc (id : Z) | OMutexLock (id : Z) | OMutexUnlock (id : Z)
| OKillOthers                    (* exec's call of kill_other_threads *)
| OResume.                       (* swtch back into the thread *)

#[export] Instance kop_eq : EqDecision kop.
Proof. solve_decision. Defined.

Section System.
Context {E : Type} `{SV : Services E}.
Implicit Types s : kst E.

Definition run_op (c : nat) (ct : nat * nat) (op : kop) : K unit :=
  match op with
  | OFork => do _ <- fork c; ret tt
  | OExit => exit c
  | OWait => do _ <- wait c; ret tt
  | OKill id => do _ <- kill c id; ret tt
  | OGrow n => do _ <- growproc c n; ret tt
  | OSleep n => do _ <- sys_sleep c n; ret tt
  | OUptime => do _ <- sys_uptime c; ret tt
  | OTick => clock_tick c
  | OYield => yield c
  | OCreate f st => do _ <- kthread_create c f st; ret tt
  | OId => do _ <- kthread_id c; ret tt
  | OThreadExit => kthread_exit c
  | OJoin id => do _ <- kthread_join c id; ret tt
  | OMutexAlloc => do _ <- kthread_mutex_alloc c; ret tt
  | OMutexDealloc id => do _ <- kthread_mutex_dealloc c id; ret tt
  | OMutexLock id => do _ <- kthread_mutex_lock c id; ret tt
  | OMutexUnlock id => do _ <- kthread_mutex_unlock c id; ret tt
  | OKillOthers => kill_other_threads c AfterExec
  | OResume => do _ <- resume_thread c ct; ret tt
  end.

Definition lock_trace (ct : nat * nat) (l : list plabel) : Prop :=
  l = [] \/ exists m, l = [LockBy m (Some ct)].

(** The labels a call may take, run by thread [ct] in [s]. *)
Definition op_trace s (ct : nat * nat) (op : kop) (l : list plabel) : Prop :=
  match op with
  | OFork => l `prefix_of` [NewPid; NewTid]
  | OCreate _ _ => l `prefix_of` [NewTid]
  | OMutexAlloc => l `prefix_of` [NewMid]
  | OMutexLock _ | OResume => lock_trace ct l
  | OMutexUnlock _ =>
    l = [] \/ exists m t, get_thread s ct.1 ct.2 = Some t /\ l = [UnlockBy m (tid t)]
  | _ => l = []
  end.

Definition steps_as s ct op s' : Prop := exists l, prims s l s' /\ op_trace s ct op l.

(** A call whose result is passed on. *)
Lemma psat_result {A B} (m : M (kst E) kstop A) (f : A -> B) s (P : kst E -> Prop) W :
  psat (m s) (fun _ => P) W -> psat (bind m (fun r => ret (f r)) s) (fun _ => P) W.
Proof. intros H. apply psat_bind. eapply psat_mono; [exact H|done|done]. Qed.

(** A call that takes unlabelled steps only. *)
Lemma psat_silent {A} (o : outcome (kst E) kstop A) c ct s0 (P : kst E -> Prop) :
  (forall s', prims s0 [] s' -> P s') ->
  psat o (fun _ s' => prims s0 [] s' /\ here c ct s') (fun _ s' => prims s0 [] s') ->
  psat o (fun _ => P) (fun _ => P).
Proof. intros HP H. eapply psat_mono; [exact H|intros ? ? []|intros]; auto. Qed.

(** ** Resumption *)

Lemma resume_caller_prims c ct s0 s who :
  shape s0 -> here c ct s -> prims s0 [] s ->
  psat (resume_caller c who s) (fun _ s' => exists l, prims s0 l s' /\ lock_trace ct l)
                               (fun _ s' => exists l, prims s0 l s' /\ lock_trace ct l).
Proof.
  intros Hsh Hh Hp. assert (forall s', prims s0 [] s' -> exists l, prims s0 l s' /\ lock_trace ct l) as Hl
    by (intros; eexists; split; [done|by left]).
  destruct who; simpl; try apply psat_result.
  - eapply psat_silent; [done|by apply wait_pass_prims].
  - eapply psat_silent; [done|by apply join_pass_prims].
  - eapply psat_silent; [done|by apply join2_pass_prims].
  - eapply psat_mono; [by eapply mutex_lock_pass_prims| |].
    + intros r s1 (_ & H1 & _). eexists. split; [done|right; eauto].
    + intros r s1 [H1|H1]; [by apply Hl|]. eexists. split; [done|right; eauto].
  - eapply psat_silent; [done|by apply sys_sleep_pass_prims].
  - by apply Hl.
Qed.

Lemma resume_thread_prims c ct s :
  shape s -> here c ct s ->
  psat (resume_thread c ct s) (fun _ s' => steps_as s ct OResume s') (fun _ s' => steps_as s ct OResume s').
Proof.
  intros Hsh Hh. pose proof (prims_nil s) as Hp. unfold resume_thread, steps_as, op_trace.
  assert (forall s', prims s [] s' -> exists l, prims s l s' /\ lock_trace ct l) as Hl
    by (intros; eexists; split; [done|by left]).
  do 2 kstep. destruct (a.1) as [| |ch lk who|[]| |].
  3:{ kcall sched_back_prims; [|by apply Hl]. kcall sleep_back_prims; [|by apply Hl].
      by eapply resume_caller_prims. }
  all: eapply (psat_mono _ (fun _ s' => prims s [] s') (fun _ s' => prims s [] s')); [|by auto..].
  - by kcall forkret_prims.
  - kcall sched_back_prims. ksteps. peel.
  - kcall sched_back_prims. kcall kill_others_pass_prims. by kcall safe_exit_prims.
  - kcall sched_back_prims. by kcall kill_others_pass_prims.
  - by kcall sched_back_prims.
  - by kcall sched_back_prims.
Qed.

Lemma run_op_steps c ct s op :
  shape s -> here c ct s ->
  psat (run_op c ct op s) (fun _ s' => steps_as s ct op s') (fun _ s' => steps_as s ct op s').
Proof.
  intros Hsh Hh. pose proof (prims_nil s) as Hp.
  assert (forall s', op_trace s ct op [] -> prims s [] s' -> steps_as s ct op s') as Hl by (intros; by eexists).
  destruct op; unfold run_op; try apply psat_result.
  - eapply psat_mono; [by apply fork_prims|..]; [intros ? s' [(l & ? & ?) _] | intros ? s' (l & ? & ?)];
      by exists l.
  - eapply psat_mono; [by eapply exit_prims|done|]. intros; by apply Hl.
  - eapply psat_silent; [|by apply wait_prims]. intros; by apply Hl.
  - eapply psat_silent; [|by apply kill_prims]. intros; by apply Hl.
  - eapply psat_silent; [|by apply growproc_prims]. intros; by apply Hl.
  - eapply psat_silent; [|by apply sys_sleep_prims]. intros; by apply Hl.
  - eapply psat_silent; [|by apply sys_uptime_prims]. intros; by apply Hl.
  - eapply psat_silent; [|by apply clock_tick_prims]. intros; by apply Hl.
  - eapply psat_mono; [by eapply yield_prims|done|]. intros; by apply Hl.
  - eapply psat_mono; [by apply kthread_create_prims|..]; [intros ? s' [(l & ? & ?) _] | intros ? s' (l & ? & ?)];
      by exists l.
  - eapply psat_silent; [|by apply kthread_id_prims]. intros; by apply Hl.
  - eapply psat_mono; [by eapply kthread_exit_prims|done|]. intros; by apply Hl.
  - eapply psat_silent; [|by apply kthread_join_prims]. intros; by apply Hl.
  - eapply psat_mono; [by apply kthread_mutex_alloc_prims|..];
      [intros ? s' [(l & ? & ?) _] | intros ? s' (l & ? & ?)]; by exists l.
  - eapply psat_mono; [by apply kthread_mutex_dealloc_prims|intros ? ? (? & _)|intros]; by apply Hl.
  - eapply psat_mono; [by apply kthread_mutex_lock_prims|..].
    + intros r s' (m & [[_ H]|[_ H]] & _); [apply Hl; [by left|done]|]. eexists. split; [done|right; eauto].
    + intros r s' (m & [H|H]); [apply Hl; [by left|done]|]. eexists. split; [done|right; eauto].
  - eapply psat_mono; [by apply kthread_mutex_unlock_prims|..].
    + intros r s' ([[_ H]|[_ (m & t & Ht & H)]] & _); [apply Hl; [by left|done]|].
      eexists. split; [done|right; eauto].
    + intros r s' [H|(m & t & Ht & H)]; [apply Hl; [by left|done]|].
      eexists. split; [done|right; eauto].
  - eapply psat_silent; [|by apply kill_other_threads_prims]. intros; by apply Hl.
  - by apply resume_thread_prims.
Qed.

(** ** The scheduler *)

Lemma cset_eq c f s : cset c f s = Ret tt (s <| mch ::= fun m => m <| cpus ::= alter f c |> |>).
Proof. done. Qed.

Lemma cset_ok m c f : (forall cp, apicid (f cp) = apicid cp) -> cpu_ok m c -> cpu_ok (m <| cpus ::= alter f c |>) c.
Proof. intros Hf. by apply (set_cpu_ok m c c f). Qed.

Lemma cur_cset m c f :
  cpu_ok m c -> exists cp, cpus m !! c = Some cp /\
    cproc_of (m <| cpus ::= alter f c |>) c = cproc (f cp) /\
    cthread_of (m <| cpus ::= alter f c |>) c = cthread (f cp).
Proof.
  intros Hok. destruct (cpu_ok_lookup _ _ Hok) as (cp & h & Hc & _). exists cp. split; [done|].
  unfold cproc_of, cthread_of. simpl. by rewrite list_lookup_alter_eq, Hc.
Qed.

(** The loop over the threads of a process in use either finds nothing, or
    leaves the processor running a thread of it. *)
Lemma sched_threads_prims c p ts s0 tr s :
  cpu_ok (mch s) c -> cproc_of (mch s) c = Some p -> pst s p = Some PUSED -> prims s0 tr s ->
  psat (sched_threads c p ts s)
    (fun r s' => prims s0 tr s' /\
       match r with Some t => t.1 = p /\ here c t s' | None => cpu_ok (mch s') c end)
    (fun _ s' => prims s0 tr s').
Proof.
  revert s. induction ts as [|i ts IH]; intros s Hok Hc Hu Hp; cbn [sched_threads]; [done|].
  kstep. rename select (get_thread s _ _ = Some t) into Ht. simpl in Ht.
  match goal with |- psat (bind ?m _ _) _ _ =>
    assert (psat (m s) (fun _ s' => prims s0 tr s' /\ mch s' = mch s /\ pst s' p = Some PUSED)
                       (fun _ s' => prims s0 tr s')) as H1
  end.
  { kstep; [|done]. kstep. split_and!; [|done|by rewrite pst_thread].
    apply prims_thread; [|done]. intros t' Ht'. simpl in *. split; [done|]. right.
    assert (t' = t) as -> by congruence.
    to_prop. rename select (tstate t = TSLEEPING) into Hsl. rewrite Hsl. constructor. }
  apply psat_bind. eapply psat_mono; [exact H1| |done]. intros _ s1 (Hp1 & Hm & Hu1). clear H1 Hp Hu Ht t.
  kstep. rename select (get_thread s1 _ _ = Some t) into Ht. simpl in Ht. kstep.
  { apply IH; congruence || done. }
  to_prop. run_step (cset_eq c (fun cp => cp <| cthread := Some (p, i) |>) s1). kstep.
  match goal with |- psat (_ ?st) _ _ =>
    assert (prims s0 tr st) as Hp2; [|assert (here c (p, i) st) as Hh2; [|kname s2]]
  end.
  - apply prims_thread; [|by apply prims_mach]. intros t' Ht'. change (get_thread s1 p i = Some t') in Ht'.
    assert (t' = t) as -> by congruence. split; [done|]. right.
    rename select (tstate t = TRUNNABLE) into Hr. rewrite Hr. constructor.
  - rewrite <- Hm in Hok, Hc. destruct (cur_cset _ _ (fun cp => cp <| cthread := Some (p, i) |>) Hok)
      as (cp & Hcp & H1 & H2). unfold cproc_of in Hc. rewrite Hcp in Hc. simpl in Hc.
    split_and!; [by apply cset_ok|exact (eq_trans H1 Hc)|exact H2|by rewrite pst_thread|].
    apply (tst_thread_eq _ p i _ (tstate t)); [|done]. change (tst s1 p i = Some (tstate t)).
    unfold tst. by rewrite Ht.
  - apply psat_bind. eapply psat_mono; [by eapply switchuvm_prims| |done]. intros _ s3 [? ?]. by ksteps.
Qed.

Lemma sched_procs_prims c ps s0 tr s :
  cpu_ok (mch s) c -> prims s0 tr s ->
  psat (sched_procs c ps s)
    (fun r s' => prims s0 tr s' /\ match r with Some t => here c t s' | None => cpu_ok (mch s') c end)
    (fun _ s' => prims s0 tr s').
Proof.
  revert s. induction ps as [|p ps IH]; intros s Hok Hp; cbn [sched_procs]; [done|].
  kstep. kstep; [by apply IH|]. to_prop. run_step (cset_eq c (fun cp => cp <| cproc := Some p |>) s).
  destruct (cur_cset _ _ (fun cp => cp <| cproc := Some p |>) Hok) as (cp & Hcp & H1 & H2).
  apply psat_bind. eapply psat_mono; [apply (sched_threads_prims c p _ s0 tr)| |done].
  - by apply cset_ok.
  - exact H1.
  - rename select (procs s !! p = Some pr) into Hpr. unfold pst. simpl. rewrite Hpr. simpl. by f_equal.
  - by apply prims_mach.
  - intros [t|] s1 [Hp1 Ht]; [by destruct Ht|].
    run_step (cset_eq c (fun cp => cp <| cthread := None |>) s1). set (s2 := s1 <| mch ::= _ |>).
    run_step (cset_eq c (fun cp => cp <| cproc := None |>) s2).
    apply IH; [apply cset_ok; [done|by apply cset_ok]|by do 2 apply prims_mach].
Qed.

Lemma sched_done_prims c r s0 tr s :
  prims s0 tr s -> (match r with Some t => here c t s | None => cpu_ok (mch s) c end) ->
  psat (sched_done c r s)
    (fun r s' => prims s0 tr s' /\ match r with Some t => here c t s' | None => True end)
    (fun _ s' => prims s0 tr s').
Proof.
  intros Hp Hr. destruct r as [t|]; simpl; [done|]. ksteps. split; [peel|done].
Qed.

Lemma scheduler_pass_prims c s :
  cpu_ok (mch s) c ->
  psat (scheduler_pass c s)
    (fun r s' => prims s [] s' /\ match r with Some t => here c t s' | None => True end)
    (fun _ s' => prims s [] s').
Proof.
  intros Hok. pose proof (prims_nil s) as Hp. unfold scheduler_pass.
  kstep. rename select (same_cur _ _) into H1. kstep. rename select (same_cur _ m0) into H2.
  apply psat_bind. eapply psat_mono; [apply (sched_procs_prims c _ s [])| |done].
  - apply H2, H1, Hok.
  - peel.
  - intros r s1 [? ?]. by apply sched_done_prims.
Qed.

Lemma scheduler_back_prims c p i s :
  cpu_ok (mch s) c -> cproc_of (mch s) c = Some p ->
  psat (scheduler_back c p i s)
    (fun r s' => prims s [] s' /\ match r with Some t => here c t s' | None => True end)
    (fun _ s' => prims s [] s').
Proof.
  intros Hok Hc. pose proof (prims_nil s) as Hp. unfold scheduler_back, switchkvm, set_hw. do 3 kstep.
  rename select (same_cur _ _) into H1.
  match goal with |- psat (_ ?st) _ _ => set (s1 := st) in * end.
  assert (cpu_ok (mch s1) c) as Hok1 by apply H1, Hok.
  assert (cproc_of (mch s1) c = Some p) as Hc1 by (rewrite <- Hc; apply H1).
  run_step (cset_eq c (fun cp => cp <| cthread := None |>) s1).
  destruct (cur_cset _ _ (fun cp => cp <| cthread := None |>) Hok1) as (cp & Hcp & H2 & H3).
  unfold cproc_of in Hc1. rewrite Hcp in Hc1. simpl in Hc1.
  change (cproc (cp <| cthread := None |>)) with (cproc cp) in H2. rewrite Hc1 in H2.
  assert (prims s [] (s1 <| mch ::= fun m => m <| cpus ::= alter (fun cp => cp <| cthread := None |>) c |> |>))
    as Hp2 by (unfold s1; peel).
  apply (cset_ok _ _ (fun cp => cp <| cthread := None |>)) in Hok1; [|done].
  set (s2 := s1 <| mch ::= _ |>) in *. kstep.
  rename select (procs s2 !! p = Some pr) into Hpr. apply psat_bind.
  match goal with |- psat (?m s2) _ _ =>
    assert (psat (m s2) (fun r s' => prims s [] s' /\
      match r with Some t => here c t s' | None => cpu_ok (mch s') c end) (fun _ s' => prims s [] s')) as H4
  end.
  { case_match; [|done]. eapply psat_mono; [apply (sched_threads_prims c p _ s []); [done..| |done]| |done].
    - unfold pst. rewrite Hpr. simpl. f_equal. by to_prop.
    - intros [t|] s3 [? Ht]; [by destruct Ht|done]. }
  eapply psat_mono; [exact H4| |done]. intros r s3 [Hp3 Hr3]. apply psat_bind.
  match goal with |- psat (?m s3) _ _ =>
    assert (psat (m s3) (fun r s' => prims s [] s' /\
      match r with Some t => here c t s' | None => cpu_ok (mch s') c end) (fun _ s' => prims s [] s')) as H5
  end.
  { destruct r as [t|]; [done|]. run_step (cset_eq c (fun cp => cp <| cthread := None |>) s3).
    set (s4 := s3 <| mch ::= _ |>). run_step (cset_eq c (fun cp => cp <| cproc := None |>) s4).
    apply sched_procs_prims; [apply cset_ok; [done|by apply cset_ok]|by do 2 apply prims_mach]. }
  eapply psat_mono; [exact H5| |done]. intros r' s4 [? ?]. by apply sched_done_prims.
Qed.

(** ** What the refinement gives for every call *)

(** The invariant of the tables, and room for one more identifier of each kind. *)
Definition tables_ok s : Prop := shape s /\ ids_ok s /\ live_ok s.
Definition counters_room s : Prop :=
  nextpid s < 2 ^ 31 - 1 /\ nexttid s < 2 ^ 31 - 1 /\ nextmid s < 2 ^ 31 - 1.

(** The labels of one call by thread [ct], or none. *)
Definition one_call (ct : nat * nat) (l : list plabel) : Prop :=
  l `prefix_of` [NewPid; NewTid] \/ l `prefix_of` [NewTid] \/ l `prefix_of` [NewMid] \/
  (exists m, l = [LockBy m (Some ct)]) \/ (exists m z, l = [UnlockBy m z]).

Lemma op_one_call s ct op l : op_trace s ct op l -> one_call ct l.
Proof.
  unfold one_call. intros Ho.
  destruct op; simpl in Ho; subst; auto using prefix_nil; destruct Ho as [->|Ho]; naive_solver auto using prefix_nil.
Qed.

Lemma one_call_counters s ct l : one_call ct l -> counters_room s -> counters_ok s l.
Proof.
  intros Hl (H1 & H2 & H3). unfold counters_ok.
  assert (count NewPid l <= 1 /\ count NewTid l <= 1 /\ count NewMid l <= 1) as (? & ? & ?); [|lia].
  destruct Hl as [H|[H|[H|[(m & ->)|(m & z & ->)]]]]; [| | |by vm_compute|by vm_compute].
  all: destruct l as [|x [|y [|z l]]]; [vm_compute; intuition congruence| | |].
  all: try (apply prefix_length in H; simpl in H; lia).
  all: destruct H as [k Hk]; simplify_eq/=; vm_compute; intuition congruence.
Qed.

(** Steps with the labels of one call keep the invariant. *)
Lemma one_call_tables s ct l s' : tables_ok s -> counters_room s -> prims s l s' -> one_call ct l -> tables_ok s'.
Proof.
  intros (Hsh & Hi & Hv) Hc Hp Hl. destruct (prims_ids _ _ _ Hp Hi Hv) as [? ?]; [by eapply one_call_counters|].
  split; [by eapply prims_shape|done].
Qed.

Lemma run_op_tables c ct s op :
  tables_ok s -> counters_room s -> here c ct s ->
  psat (run_op c ct op s) (fun _ s' => tables_ok s') (fun _ s' => tables_ok s').
Proof.
  intros Ht Hc Hh. assert (forall s', steps_as s ct op s' -> tables_ok s') as H.
  { intros s' (l & Hp & Hl). eapply one_call_tables; [done..|by eapply op_one_call]. }
  eapply psat_mono; [apply run_op_steps; [apply Ht|done]|auto|auto].
Qed.

(** ** A locked mutex keeps its owner *)

(** Mutex [m] with identifier [id] is not locked. *)
Definition unlocked s (m : nat) (id : Z) : Prop :=
  exists x, mutexes s !! m = Some x /\ mid x = id /\ mstate x = MUNLOCKED /\ mthread x = None.

(** Unlocking with an identifier of another mutex, or by a thread with another tid. *)
Lemma unlock_other c ct s id m k o :
  here c ct s -> owns s m k o -> id <> k \/ tid_of s o <> tid_of s ct ->
  psat (kthread_mutex_unlock c id s) (fun _ s' => owns s' m k o) (fun _ s' => owns s' m k o).
Proof.
  intros Hh Ho Hne. unfold kthread_mutex_unlock, wakeup, wakeup1. ksteps; try exact Ho.
  all: rename select (find_mutex id _ = Some n) into Hf; rename select (mthread x = Some a0) into Hx.
  all: assert (n <> m); [intros ->|].
  all: try (refine (owns_ne (set_mutex _ _ s) n _ m k o _ (owns_ne s n _ m k o _ Ho)); done).
  all: apply find_mutex_Some in Hf as (xf & Hxf & Hmf); cbn in Hxf.
  all: destruct Ho as (x' & Hx' & Hmx & _ & _ & Ho); change (mutexes s !! m = Some x) in H0; to_prop.
  all: assert (x' = x) as -> by congruence; assert (a0 = o) as -> by congruence; assert (xf = x) as -> by congruence.
  all: destruct Hne as [Hne|Hne]; [congruence|].
  all: apply Hne; unfold tid_of; change (get_thread s o.1 o.2 = Some t) in H2.
  all: change (get_thread s ct.1 ct.2 = Some t0) in H4; rewrite H2, H4; simpl; congruence.
Qed.

(** Unlocking by the owner. *)
Lemma unlock_own c ct s m id :
  tables_ok s -> here c ct s -> owns s m id ct ->
  psat (kthread_mutex_unlock c id s) (fun _ s' => unlocked s' m id) (fun _ s' => owns s' m id ct \/ unlocked s' m id).
Proof.
  intros (_ & (_ & _ & (_ & _ & Hq)) & _) Hh Ho. pose proof Ho as (x0 & Hx0 & Hid & Hz & Hst & Hth).
  assert (Hfound : forall s1, mutexes s1 = mutexes s -> find_mutex id s1 = Some m).
  { intros s1 Em. destruct (find_mutex id s1) as [n|] eqn:Hf.
    - apply find_mutex_Some in Hf as (y & Hy & Hyid). rewrite Em in Hy. f_equal. eapply (Hq n m id); unfold mid_of; rewrite ?Hy, ?Hx0; simpl; congruence.
    - unfold find_mutex in Hf. rewrite Em in Hf. apply fmap_None, list_find_None in Hf. eapply Forall_lookup_1 in Hf; [|exact Hx0]. done. }
  unfold kthread_mutex_unlock. kstep; [|by left]. kstep. rewrite Hfound by done. kstep. change (mutexes s !! m = Some x) in H0. assert (x = x0) as -> by congruence. rewrite Hst, Hth. rewrite bool_decide_false by done.
  assert (Hun : forall s1, mutexes s1 = alter (fun x => x <| mstate := MUNLOCKED |>) m (alter (fun x => x <| mthread := None |>) m (mutexes s)) -> unlocked s1 m id).
  { intros s1 Em. eexists. rewrite Em, !list_lookup_alter_eq, Hx0. by split_and!. }
  do 10 kstep. change (get_thread s ct.1 ct.2 = Some t) in H1. change (get_thread s ct.1 ct.2 = Some t0) in H3.
  assert (t0 = t) as -> by congruence. rewrite bind_ret, Z.eqb_refl. cbn [negb]. unfold wakeup, wakeup1.
  ksteps; try right; by apply Hun.
Qed.

Lemma run_op_owner c ct s op m id o :
  tables_ok s -> here c ct s -> owns s m id o ->
  psat (run_op c ct op s)
    (fun _ s' => if decide (op = OMutexUnlock id /\ ct = o) then unlocked s' m id else owns s' m id o)
    (fun _ s' => owns s' m id o \/ (op = OMutexUnlock id /\ ct = o /\ unlocked s' m id)).
Proof.
  intros Ht Hh Ho. destruct (match op with OMutexUnlock _ => true | _ => false end) eqn:Hop.
  - destruct op as [| | | | | | | | | | | | | | | |z| |]; try done. unfold run_op. apply psat_result. destruct (decide (OMutexUnlock z = OMutexUnlock id /\ ct = o)) as [Hd|Hd].
    + destruct Hd as [[= ->] ->]. eapply psat_mono; [by apply unlock_own|done|]. intros r s' [?|?]; [by left|by right].
    + eapply psat_mono; [apply (unlock_other c ct s z m id o Hh Ho)|done|intros; by left].
      destruct (decide (z = id)) as [->|]; [right|by left]. intros He. apply Hd. split; [done|]. symmetry.
      destruct Ht as (_ & ? & ?). by eapply here_tid.
  - assert (Hd : ~ (op = OMutexUnlock id /\ ct = o)) by (intros [-> _]; done).
    pose proof Ht as (Hsh & _).
    eapply psat_mono; [by apply run_op_steps|..]; intros r s' (l & Hp & Hl); [rewrite decide_False by done|left];
      (eapply prims_owns; [exact Hp|done|]); intros z Hz;
      destruct op; simpl in Hl; try done; subst; try (by apply not_elem_of_nil in Hz).
    all: try (destruct Hl as [->|[k ->]]; [by apply not_elem_of_nil in Hz|by apply list_elem_of_singleton in Hz]).
    all: destruct Hl as [k Hk]; assert (UnlockBy m z ∈ l ++ k) as Hin by (apply elem_of_app; by left);
      rewrite <- Hk in Hin; rewrite !elem_of_cons in Hin; destruct_or?; try done;
      by apply not_elem_of_nil in Hin.
Qed.

(** C5: Every kernel call, and every resumption of a switched-out thread,
    changes the process, thread and mutex tables by a sequence of the steps of
    the transition system, whose labels are those the call may take: only fork
    and kthread_create allocate identifiers of processes and threads, only
    kthread_mutex_lock and a resumed waiter lock a mutex, and then for the
    running thread, only kthread_mutex_unlock unlocks one, and then one whose
    owner has the tid of the running thread. *)
Theorem calls_refine_tables c ct s op :
  shape s -> here c ct s ->
  psat (run_op c ct op s) (fun _ s' => steps_as s ct op s') (fun _ s' => steps_as s ct op s').
Proof. apply run_op_steps. Qed.

(** C6: The tables stay well formed through every kernel call and every
    resumption: 64 processes of 16 threads, 16 files and a 16-byte name, 64
    mutexes; nonzero pids, tids and mutex ids are unique, nonnegative and below
    their counters; and a thread slot that is not free has a nonzero tid.  The
    call starts with room in the three [int] counters. *)
Theorem calls_keep_tables c ct s op :
  tables_ok s -> counters_room s -> here c ct s ->
  psat (run_op c ct op s) (fun _ s' => tables_ok s') (fun _ s' => tables_ok s').
Proof. apply run_op_tables. Qed.

(** C2: Mutual exclusion.  While an allocated mutex is locked and the thread slot [o] is
    recorded as its owner, no call by any thread and no resumption changes its
    identifier, its locked state or its owner, except [kthread_mutex_unlock] of this
    mutex called by the thread in [o] itself, after which it is unlocked.  (The owner is a
    slot of the thread table, as in the code: [slot_inherits] below shows what that means
    for a thread that ends without unlocking.) *)
Theorem mutex_owner_stable c ct s op m id o :
  tables_ok s -> here c ct s -> owns s m id o ->
  psat (run_op c ct op s)
    (fun _ s' => if decide (op = OMutexUnlock id /\ ct = o) then unlocked s' m id else owns s' m id o)
    (fun _ s' => owns s' m id o \/ (op = OMutexUnlock id /\ ct = o /\ unlocked s' m id)).
Proof. apply run_op_owner. Qed.

(** The scheduler.  A pass over the tables on processor [c] only takes steps
    of the transition system without labels; when it switches to a thread, that
    thread's slot is RUNNING, its process is in use, and they are the processor's
    current thread and process, which is what every kernel call starts from. *)
Theorem scheduler_dispatch c s :
  cpu_ok (mch s) c ->
  psat (scheduler_pass c s)
    (fun r s' => prims s [] s' /\ match r with Some t => here c t s' | None => True end)
    (fun _ s' => prims s [] s').
Proof. apply scheduler_pass_prims. Qed.

(** After a thread switched back, the scheduler goes on with the threads
    behind it and the later processes, with the same guarantee. *)
Theorem scheduler_goes_on c p i s :
  cpu_ok (mch s) c -> cproc_of (mch s) c = Some p ->
  psat (scheduler_back c p i s)
    (fun r s' => prims s [] s' /\ match r with Some t => here c t s' | None => True end)
    (fun _ s' => prims s [] s').
Proof. apply scheduler_back_prims. Qed.
End System.

(** ** The theorems on a concrete state *)

Lemma demo_tables : tables_ok demo.
Proof. exact (conj demo_shape (conj demo_ids demo_live)). Qed.

Lemma demo_room : counters_room demo.
Proof. by vm_compute. Qed.

Lemma calls_refine_tables_witness :
  psat (run_op 0 (0%nat, 0%nat) OFork demo) (fun _ s' => steps_as demo (0%nat, 0%nat) OFork s')
       (fun _ s' => steps_as demo (0%nat, 0%nat) OFork s').
Proof. apply (calls_refine_tables 0 (0%nat, 0%nat) demo OFork); [exact demo_shape|apply (demo_here 0); lia]. Defined.

Lemma calls_keep_tables_witness :
  psat (run_op 0 (0%nat, 0%nat) (OCreate 0x100 0x4000) demo) (fun _ s' => tables_ok s') (fun _ s' => tables_ok s').
Proof.
  apply (calls_keep_tables 0 (0%nat, 0%nat) demo (OCreate 0x100 0x4000));
    [exact demo_tables|exact demo_room|apply (demo_here 0); lia].
Defined.

Lemma mutex_owner_stable_witness :
  psat (run_op 0 (0%nat, 0%nat) (OMutexUnlock 1) demo) (fun _ s' => owns s' 0 1 (0%nat, 1%nat))
       (fun _ s' => owns s' 0 1 (0%nat, 1%nat)).
Proof.
  eapply psat_mono; [apply (mutex_owner_stable 0 (0%nat, 0%nat) demo (OMutexUnlock 1) 0 1 (0%nat, 1%nat));
    [exact demo_tables|apply (demo_here 0); lia|exact demo_owns]|done|].
  intros r s' [Ho|(_ & [=] & _)]. exact Ho.
Defined.

(** The state in which a run returns or gives up the processor. *)
Definition state_of {S R A} (o : outcome S R A) : option S := match o with Ret _ s | Stop _ s => Some s | _ => None end.

(** A mutex does not notice that its owner has ended: the second thread of the small
    kernel exits without unlocking the mutex it has locked, the first collects it and
    creates a thread, with a new tid, which gets the slot; the new thread is the owner and
    can unlock the mutex. *)
Theorem slot_inherits :
  (s ← state_of (kthread_exit 1 demo);
   s ← state_of (scheduler_back 1 0 1 s);
   s ← state_of (kthread_join 0 2 s);
   s ← state_of (kthread_create 0 0x100 0x4000 s);
   s ← state_of (scheduler_pass 1 s);
   s ← state_of (resume_thread 1 (0%nat, 1%nat) s);
   Some (tid_of demo (0%nat, 1%nat), tid_of s (0%nat, 1%nat),
         match kthread_mutex_unlock 1 1 s with Ret r _ => Some r | _ => None end)) =
  Some (Some 2, Some 3, Some 0).
Proof. vm_compute. reflexivity. Qed.

(** The second thread gives its processor up; the pass dispatches it again. *)
Definition demo_ready : kst (list Z) :=
  set_thread 0 1 (fun t => t <| tstate := TRUNNABLE |>) demo
    <| mch ::= fun m => m <| cpus ::= alter (fun cp => cp <| cproc := None |> <| cthread := None |>) 1%nat |> |>.

Lemma demo_ready_ok : cpu_ok (mch demo_ready) 1.
Proof.
  split; [vm_compute; lia|]. eexists. split_and!; [reflexivity..|].
  intros j Hj. by assert (j = 0)%nat as -> by lia.
Qed.

Lemma scheduler_dispatch_witness :
  (exists s', scheduler_pass 1 demo_ready = Ret (Some (0%nat, 1%nat)) s') /\
  psat (scheduler_pass 1 demo_ready)
    (fun r s' => prims demo_ready [] s' /\ match r with Some t => here 1 t s' | None => True end)
    (fun _ s' => prims demo_ready [] s').
Proof.
  split; [eexists; vm_compute; reflexivity|].
  apply (scheduler_dispatch 1 demo_ready). exact demo_ready_ok.
Defined.

Lemma scheduler_goes_on_witness :
  psat (scheduler_back 1 0 1 demo)
    (fun r s' => prims demo [] s' /\ match r with Some t => here 1 t s' | None => True end)
    (fun _ s' => prims demo [] s').
Proof. apply (scheduler_goes_on 1 0 1 demo); [apply (demo_here 1); lia|reflexivity]. Defined.
