(* ===== verification/Kalloc.v ===== *)
(** * kalloc.c: the physical page allocator

    Free pages are linked through their own first word.  [kend] is the linker's
    symbol [end]. *)
From S2P Require Import Prelude Spinlock ProcDefs Proc Memory.
Local Open Scope Z_scope.
Local Open Scope kernel_scope.

Definition PHYSTOP : Z := 0xE000000.
Definition PGROUNDUP (sz : Z) : Z := Z.land (u32 (sz + PGSIZE - 1)) (Z.lnot (PGSIZE - 1)).
Definition PGROUNDDOWN (a : Z) : Z := Z.land a (Z.lnot (PGSIZE - 1)).

(** [struct kmem], with the memory the pages live in. *)
Record kmem := Kmem {
  kram : mem;
  use_lock : bool;
  freelist : Z;
  klocked : bool
}.
#[export] Instance kmem_eta : Eta kmem :=
  fun r => Kmem (kram r) (use_lock r) (freelist r) (klocked r).

Section Kalloc.
Context (kend : Z) {R : Type}.
Local Abbreviation MM := (M kmem R).

Definition kmem_acquire : MM unit := lock_acq klocked (fun b s => s <| klocked := b |>).
Definition kmem_release : MM unit := lock_rel klocked (fun b s => s <| klocked := b |>).

(** (uint)v % PGSIZE || v < end || V2P(v) >= PHYSTOP *)
Definition kfree_bad (v : Z) : bool :=
  c_true (v mod PGSIZE) || (v <? kend) || (PHYSTOP <=? V2P v).

Definition kfree (v : Z) : MM unit :=
  if kfree_bad v then panic "kfree" else
  modify (fun s => s <| kram ::= fun m => memset m v 1 PGSIZE |>);;
  do ul <- gets use_lock;
  whenM ul kmem_acquire;;
  do fl <- gets freelist;
  modify (fun s => s <| kram ::= fun m => store32 m v fl |>);;
  modify (fun s => s <| freelist := v |>);;
  do ul <- gets use_lock;
  whenM ul kmem_release.

Definition kalloc : MM Z :=
  do ul <- gets use_lock;
  whenM ul kmem_acquire;;
  do r <- gets freelist;
  whenM (c_true r) (modify (fun s => s <| freelist := load32 (kram s) r |>));;
  do ul <- gets use_lock;
  whenM ul kmem_release;;
  ret r.

(** for(; p + PGSIZE <= vend; p += PGSIZE) kfree(p); with at most [n] tests. *)
Fixpoint freerange_loop (n : nat) (p vend : Z) : MM unit :=
  match n with
  | O => undef "freerange: out of rounds"
  | S n' => if u32 (p + PGSIZE) <=? vend then kfree p;; freerange_loop n' (u32 (p + PGSIZE)) vend else ret tt
  end.

(** How often a page fits between the ends, and one test more. *)
Definition freerange (vstart vend : Z) : MM unit :=
  freerange_loop (S (Z.to_nat ((vend - PGROUNDUP vstart) / PGSIZE))) (PGROUNDUP vstart) vend.

Definition kinit1 (vstart vend : Z) : MM unit :=
  modify (fun s => s <| klocked := false |>);;
  modify (fun s => s <| use_lock := false |>);;
  freerange vstart vend.

Definition kinit2 (vstart vend : Z) : MM unit :=
  freerange vstart vend;;
  modify (fun s => s <| use_lock := true |>).

(** ** The free list *)

Definition page_ok (v : Z) : Prop := 0 < v < 2 ^ 32 /\ kfree_bad v = false.

(** The list linked from [p] through the first words of its pages is [l]. *)
Fixpoint chain (m : mem) (p : Z) (l : list Z) : Prop :=
  match l with
  | [] => p = 0
  | x :: l' => p = x /\ chain m (load32 m x) l'
  end.

(** The allocator's free pages are [l]; its lock is free. *)
Definition kmem_inv (s : kmem) (l : list Z) : Prop :=
  bytes (kram s) /\ chain (kram s) (freelist s) l /\ NoDup l /\ Forall page_ok l /\ klocked s = false.

Lemma page_mod v : page_ok v -> v mod PGSIZE = 0.
Proof. intros [_ H]. unfold kfree_bad, c_true in H. by to_prop. Qed.

(** Distinct pages do not meet. *)
Lemma pages_apart v x : page_ok v -> page_ok x -> v <> x -> v + PGSIZE <= x \/ x + PGSIZE <= v.
Proof.
  intros Hv%page_mod Hx%page_mod Hne. unfold PGSIZE in *.
  pose proof (Z.div_mod v 4096). pose proof (Z.div_mod x 4096). lia.
Qed.

Lemma chain_ext m m' p l :
  (forall x i, x ∈ l -> 0 <= i < 4 -> m' (x + i) = m (x + i)) -> chain m p l -> chain m' p l.
Proof.
  revert p. induction l as [|x l IH]; intros p Hm; simpl; [done|].
  intros [-> Hc]. split; [done|]. rewrite (load32_ext m m') by (intros; apply Hm; [by left|done]).
  apply IH; [|done]. intros y i Hy. apply Hm. by right.
Qed.

Lemma kalloc_run s l :
  kmem_inv s l ->
  exists s', kalloc s = Ret (default 0 (head l)) s' /\ kmem_inv s' (tail l) /\
             kram s' = kram s /\ use_lock s' = use_lock s.
Proof.
  intros (Hb & Hc & Hn & Hf & Hk). unfold kalloc, kmem_acquire, kmem_release, lock_acq, lock_rel.
  unfold bind, gets, modify, whenM, ret. destruct s as [m ul fl lk]. simpl in *. subst lk.
  destruct l as [|x l]; simpl in *.
  - subst fl. destruct ul; simpl; eexists; split_and!; done.
  - destruct Hc as [-> Hc]. inversion_clear Hn. inversion_clear Hf as [|?? [Hx _] ?].
    assert (c_true x = true) as Hx0 by (unfold c_true; lia).
    destruct ul; simpl; rewrite Hx0; (eexists; split; [reflexivity|]; split; [|done]; by split_and!).
Qed.

Lemma kfree_run s l v :
  kmem_inv s l -> page_ok v -> v ∉ l ->
  exists s', kfree v s = Ret tt s' /\ kmem_inv s' (v :: l) /\ use_lock s' = use_lock s /\
             forall a, a < v \/ v + PGSIZE <= a -> kram s' a = kram s a.
Proof.
  intros (Hb & Hc & Hn & Hf & Hk) Hv Hnin. unfold kfree. rewrite (proj2 Hv).
  unfold kmem_acquire, kmem_release, lock_acq, lock_rel, bind, gets, modify, whenM, ret.
  destruct s as [m ul fl lk]. simpl in *. subst lk.
  set (m1 := store32 (memset m v 1 PGSIZE) v fl).
  assert (forall a, a < v \/ v + PGSIZE <= a -> m1 a = m a) as Hout.
  { intros a Ha. unfold m1. rewrite store32_other by (unfold PGSIZE in *; lia).
    rewrite memset_spec by (unfold PGSIZE; lia).
    destruct (Z.leb_spec v a), (Z.ltb_spec a (v + PGSIZE)); simpl; lia || done. }
  exists (Kmem m1 ul v false). split_and!; [by destruct ul| |done|exact Hout].
  split_and!; simpl; [|split; [done|]|by constructor|by constructor|done].
  - by apply bytes_store32, bytes_memset.
  - destruct Hv as [Hv Hvb]. assert (load32 m1 v = fl) as ->.
    { apply load_store32. destruct l as [|x l]; simpl in Hc; [lia|]. destruct Hc as [-> _].
      inversion_clear Hf as [|?? [Hx _] ?]. lia. }
    apply (chain_ext m); [|done]. intros x i Hx Hi. apply Hout.
    assert (page_ok x) as Hxp by (by eapply Forall_forall).
    destruct (pages_apart v x); [done|done|by intros ->|unfold PGSIZE in *; lia..].
Qed.

(** Which pages [freerange] frees, in order. *)
Definition range_pages (p vend : Z) : list Z :=
  (fun i => p + Z.of_nat i * PGSIZE) <$> seq 0 (Z.to_nat ((vend - p) / PGSIZE)).

Lemma range_pages_step p vend :
  p + PGSIZE <= vend -> range_pages p vend = p :: range_pages (p + PGSIZE) vend.
Proof.
  intros H. unfold range_pages, PGSIZE in *.
  replace (vend - p) with ((vend - (p + 4096)) + 1 * 4096) by lia.
  rewrite Z.div_add by lia. rewrite Z.add_1_r, Z2Nat.inj_succ by (apply Z.div_pos; lia).
  simpl. f_equal; [lia|]. rewrite <- fmap_S_seq, <- list_fmap_compose. apply list_fmap_ext.
  intros _ i _. simpl. lia.
Qed.

Lemma range_pages_end p vend : vend < p + PGSIZE -> range_pages p vend = [].
Proof.
  intros H. unfold range_pages, PGSIZE in *.
  assert ((vend - p) / 4096 < 1) by (apply Z.div_lt_upper_bound; lia).
  by replace (Z.to_nat ((vend - p) / 4096)) with O by lia.
Qed.

Lemma range_pages_ge p vend x : x ∈ range_pages p vend -> p <= x.
Proof. unfold range_pages, PGSIZE. intros (i & -> & _)%list_elem_of_fmap. lia. Qed.

Lemma freerange_run n p vend s l :
  Z.of_nat n > (vend - p) / PGSIZE -> (0 < n)%nat -> 0 <= p < 2 ^ 32 - PGSIZE -> 0 <= vend <= 2 ^ 32 - 2 * PGSIZE ->
  kmem_inv s l -> Forall page_ok (range_pages p vend) ->
  (forall x, x ∈ range_pages p vend -> x ∉ l) ->
  exists s', freerange_loop n p vend s = Ret tt s' /\ kmem_inv s' (reverse (range_pages p vend) ++ l) /\
             use_lock s' = use_lock s.
Proof.
  revert p s l. induction n as [|n IH]; intros p s l Hn H0 Hp0 Hv Hi Hf Hd; [lia|]. cbn [freerange_loop].
  rewrite u32_small by (unfold PGSIZE in *; lia).
  destruct (Z.leb_spec (p + PGSIZE) vend) as [Hle|Hlt]; [|rewrite range_pages_end by done; by exists s].
  rewrite range_pages_step in * by done. inversion_clear Hf as [|?? Hp Hf'].
  destruct (kfree_run s l p Hi Hp) as (s1 & H1 & Hi1 & Hu & _); [apply Hd; by left|].
  run_step H1. assert (Hm : (vend - (p + PGSIZE)) / PGSIZE = (vend - p) / PGSIZE - 1).
  { replace (vend - (p + PGSIZE)) with (vend - p + (-1) * PGSIZE) by lia. rewrite Z.div_add by (unfold PGSIZE; lia). lia. }
  assert (1 <= (vend - p) / PGSIZE) by (apply Z.div_le_lower_bound; unfold PGSIZE in *; lia).
  destruct (IH (p + PGSIZE) s1 (p :: l)) as (s2 & H2 & Hi2 & Hu2); [lia|lia|unfold PGSIZE in *; lia|done|done|done| |].
  - intros x Hx [->|Hxl]%elem_of_cons; [apply range_pages_ge in Hx; unfold PGSIZE in Hx; lia|].
    apply (Hd x); [by right|done].
  - exists s2. split_and!; [done| |congruence]. by rewrite reverse_cons, <- app_assoc.
Qed.

(** ** The allocator as a stack of pages *)

Inductive kcall := KAlloc | KFree (v : Z).

(** What the allocator promises: the free pages are a stack; [None] is a call
    outside its contract. *)
Definition stack_call (l : list Z) (k : kcall) : option (Z * list Z) :=
  match k with
  | KAlloc => Some (default 0 (head l), tail l)
  | KFree v => if bool_decide (0 < v < 2 ^ 32) && negb (kfree_bad v) && bool_decide (v ∉ l)
               then Some (0, v :: l) else None
  end.

Fixpoint stack_calls (l : list Z) (ks : list kcall) : option (list Z * list Z) :=
  match ks with
  | [] => Some ([], l)
  | k :: ks' => '(r, l1) ← stack_call l k; '(rs, l2) ← stack_calls l1 ks'; Some (r :: rs, l2)
  end.

Definition mem_call (k : kcall) : MM Z :=
  match k with KAlloc => kalloc | KFree v => kfree v;; ret 0 end.

Fixpoint mem_calls (ks : list kcall) : MM (list Z) :=
  match ks with
  | [] => ret []
  | k :: ks' => do r <- mem_call k; do rs <- mem_calls ks'; ret (r :: rs)
  end.

Lemma mem_call_run s l k r l' :
  kmem_inv s l -> stack_call l k = Some (r, l') -> exists s', mem_call k s = Ret r s' /\ kmem_inv s' l'.
Proof.
  intros Hi Hs. destruct k as [|v]; simpl in Hs.
  - simplify_eq. destruct (kalloc_run s l Hi) as (s' & H & Hi' & _). eauto.
  - case_match; simplify_eq. to_prop.
    destruct (kfree_run s l v Hi) as (s' & Hf & Hi' & _); [done|done|].
    exists s'. split; [|done]. simpl. by run_step Hf.
Qed.

(** C11: The page allocator implements a stack of pages.  Along any sequence of
    [kalloc] and [kfree] calls that frees only pages that are not free already,
    every call returns what the stack gives (0 when it is empty), no call
    panics, and the list linked through the free pages stays the stack, without
    repetition, so that a page handed out is not handed out again before it is
    freed. *)
Theorem allocator_refines_stack s l ks rs l' :
  kmem_inv s l -> stack_calls l ks = Some (rs, l') ->
  exists s', mem_calls ks s = Ret rs s' /\ kmem_inv s' l'.
Proof.
  revert s l rs l'. induction ks as [|k ks IH]; intros s l rs l' Hi Hs; simpl in *.
  - simplify_eq. by exists s.
  - destruct (stack_call l k) as [[r l1]|] eqn:Hk; [|done]. simpl in Hs.
    destruct (stack_calls l1 ks) as [[rs2 l2]|] eqn:Hks; [|done]. simplify_eq/=.
    destruct (mem_call_run _ _ _ _ _ Hi Hk) as (s1 & H1 & Hi1).
    destruct (IH _ _ _ _ Hi1 Hks) as (s2 & H2 & Hi2). exists s2. split; [|done].
    run_step H1. by run_step H2.
Qed.

(** [freerange] frees every whole page of its range, so that after it each of
    them is handed out once before [kalloc] runs dry; [kinit1] and [kinit2] are
    calls of it.  The range ends below the last two pages of the address space, where the
    addresses would wrap around. *)
Theorem freerange_frees vstart vend s l :
  0 <= PGROUNDUP vstart < 2 ^ 32 - PGSIZE -> 0 <= vend <= 2 ^ 32 - 2 * PGSIZE ->
  kmem_inv s l -> Forall page_ok (range_pages (PGROUNDUP vstart) vend) ->
  (forall x, x ∈ range_pages (PGROUNDUP vstart) vend -> x ∉ l) ->
  exists s', freerange vstart vend s = Ret tt s' /\
             kmem_inv s' (reverse (range_pages (PGROUNDUP vstart) vend) ++ l).
Proof.
  intros Hs Hv Hi Hf Hd. unfold freerange.
  destruct (freerange_run (S (Z.to_nat ((vend - PGROUNDUP vstart) / PGSIZE))) (PGROUNDUP vstart) vend s l)
    as (s' & H & Hi' & _); [lia|lia|done..|]. exists s'. split; [exact H|exact Hi'].
Qed.
End Kalloc.

(** ** On a small machine *)

Definition kmem0 : kmem := Kmem (fun _ => 0) true 0 false.

Lemma allocator_refines_stack_witness :
  stack_calls 0x80100000 [] [KFree 0x80200000; KFree 0x80201000; KAlloc; KAlloc; KAlloc] =
    Some ([0; 0; 0x80201000; 0x80200000; 0], []) /\
  exists s', mem_calls 0x80100000 (R := unit)
               [KFree 0x80200000; KFree 0x80201000; KAlloc; KAlloc; KAlloc] kmem0 =
             Ret [0; 0; 0x80201000; 0x80200000; 0] s' /\ kmem_inv 0x80100000 s' [].
Proof.
  split; [reflexivity|].
  apply (allocator_refines_stack 0x80100000 kmem0 []); [|reflexivity].
  split_and!; [|done|constructor|constructor|done]. intros a. simpl. lia.
Defined.

Lemma freerange_frees_witness :
  exists s', freerange 0x80100000 (R := unit) 0x80200010 0x80204000 kmem0 = Ret tt s' /\
             kmem_inv 0x80100000 s' (reverse (range_pages (PGROUNDUP 0x80200010) 0x80204000) ++ []).
Proof.
  apply (freerange_frees 0x80100000 0x80200010 0x80204000 kmem0 []).
  - by vm_compute.
  - by vm_compute.
  - split_and!; [|done|constructor|constructor|done]. intros a. simpl. lia.
  - change (range_pages (PGROUNDUP 0x80200010) 0x80204000) with [0x80201000; 0x80202000; 0x80203000].
    repeat (apply Forall_cons; split; [split; [lia|reflexivity]|]). apply Forall_nil_2.
  - intros x _. apply not_elem_of_nil.
Defined.
