(* ===== verification/Vm.v ===== *)
(** * vm.c: page tables

    Page directories and page tables are pages of the kernel memory that
    kalloc.c manages, reached through their kernel addresses.  [kend] and [kdata]
    are the linker's symbols [end] and [data].  A loop over pages gets as many
    rounds as it can take (one per page, one to leave); running out of them would
    be [Undef].  [switchuvm] and [switchkvm], which
    touch the processor and not the tables, are in Proc.v. *)
From S2P Require Import Prelude Spinlock ProcDefs Proc Memory Kalloc.
Local Open Scope Z_scope.
Local Open Scope kernel_scope.

Definition EXTMEM : Z := 0x100000.
Definition DEVSPACE : Z := 0xFE000000.
Definition KERNLINK : Z := KERNBASE + EXTMEM.
Definition P2V (a : Z) : Z := u32 (a + KERNBASE).

Definition PDX (va : Z) : Z := Z.land (Z.shiftr va 22) 0x3FF.
Definition PTX (va : Z) : Z := Z.land (Z.shiftr va 12) 0x3FF.
Definition PGADDR (d t o : Z) : Z := u32 (Z.lor (Z.lor (Z.shiftl d 22) (Z.shiftl t 12)) o).
Definition NPDENTRIES : nat := 1024.

Definition PTE_P : Z := 1.
Definition PTE_W : Z := 2.
Definition PTE_U : Z := 4.
Definition PTE_ADDR (pte : Z) : Z := Z.land pte (Z.lnot 0xFFF).
Definition PTE_FLAGS (pte : Z) : Z := Z.land pte 0xFFF.

(** One row of [kmap]. *)
Record kmap_row := Kmap { virt : Z; phys_start : Z; phys_end : Z; perm : Z }.

Section Vm.
Context (kend kdata : Z) {R : Type}.
Local Abbreviation MM := (M kmem R).

Definition kmap : list kmap_row :=
  [ Kmap KERNBASE 0 EXTMEM PTE_W;
    Kmap KERNLINK (V2P KERNLINK) (V2P kdata) 0;
    Kmap kdata (V2P kdata) PHYSTOP PTE_W;
    Kmap DEVSPACE DEVSPACE 0 PTE_W ].

(** Words and blocks of kernel memory. *)
Definition rd (a : Z) : MM Z := gets (fun s => load32 (kram s) a).
Definition wr (a v : Z) : MM unit := modify (fun s => s <| kram ::= fun m => store32 m a v |>).
Definition kmemset (dst c n : Z) : MM unit := modify (fun s => s <| kram ::= fun m => memset m dst c n |>).
Definition kmemmove (dst src n : Z) : MM unit := modify (fun s => s <| kram ::= fun m => memmove m dst src n |>).

(** The address of the entry for [va], 0 when there is none. *)
Definition walkpgdir (pgdir va : Z) (alloc : bool) : MM Z :=
  let pde := pgdir + 4 * PDX va in
  do e <- rd pde;
  if c_true (Z.land e PTE_P) then ret (P2V (PTE_ADDR e) + 4 * PTX va) else
  if negb alloc then ret 0 else
  do pgtab <- kalloc;
  if pgtab =? 0 then ret 0 else
  kmemset pgtab 0 PGSIZE;;
  wr pde (Z.lor (Z.lor (Z.lor (V2P pgtab) PTE_P) PTE_W) PTE_U);;
  ret (pgtab + 4 * PTX va).

(** for(;;) of [mappages], with at most [n] rounds. *)
Fixpoint mappages_loop (n : nat) (pgdir a last pa perm : Z) : MM Z :=
  match n with
  | O => undef "mappages: out of rounds"
  | S n' =>
    do pte <- walkpgdir pgdir a true;
    if pte =? 0 then ret (-1) else
    do e <- rd pte;
    if c_true (Z.land e PTE_P) then panic "remap" else
    wr pte (Z.lor (Z.lor pa perm) PTE_P);;
    if a =? last then ret 0 else mappages_loop n' pgdir (u32 (a + PGSIZE)) last (u32 (pa + PGSIZE)) perm
  end.

Definition mappages (pgdir va size pa perm : Z) : MM Z :=
  let a := PGROUNDDOWN va in
  let last := PGROUNDDOWN (u32 (u32 (va + size) - 1)) in
  mappages_loop (S (Z.to_nat (u32 (last - a) / PGSIZE))) pgdir a last pa perm.

(** The loop of [deallocuvm]; each round moves [a] up by a page at least. *)
Fixpoint dealloc_loop (n : nat) (pgdir a oldsz : Z) : MM unit :=
  match n with
  | O => undef "deallocuvm: out of rounds"
  | S n' =>
    if a <? oldsz then
      do pte <- walkpgdir pgdir a false;
      if pte =? 0 then
        let a := u32 (PGADDR (PDX a + 1) 0 0 - PGSIZE) in dealloc_loop n' pgdir (u32 (a + PGSIZE)) oldsz
      else
        do e <- rd pte;
        whenM (c_true (Z.land e PTE_P))
          (let pa := PTE_ADDR e in
           if pa =? 0 then panic "kfree" else
           kfree kend (P2V pa);;
           wr pte 0);;
        dealloc_loop n' pgdir (u32 (a + PGSIZE)) oldsz
    else ret tt
  end.

Definition deallocuvm (pgdir oldsz newsz : Z) : MM Z :=
  if oldsz <=? newsz then ret oldsz else
  let a := PGROUNDUP newsz in
  dealloc_loop (S (S (Z.to_nat ((oldsz - a) / PGSIZE)))) pgdir a oldsz;;
  ret newsz.

Definition freevm (pgdir : Z) : MM unit :=
  if pgdir =? 0 then panic "freevm: no pgdir" else
  do _ <- deallocuvm pgdir KERNBASE 0;
  forM (seq 0 NPDENTRIES) (fun i =>
    do e <- rd (pgdir + 4 * Z.of_nat i);
    whenM (c_true (Z.land e PTE_P)) (kfree kend (P2V (PTE_ADDR e))));;
  kfree kend pgdir.

(** The loop over [kmap]: whether every row was mapped. *)
Fixpoint map_rows (pgdir : Z) (ks : list kmap_row) : MM bool :=
  match ks with
  | [] => ret true
  | k :: ks' =>
    do r <- mappages pgdir (virt k) (u32 (phys_end k - phys_start k)) (phys_start k) (perm k);
    if r <? 0 then ret false else map_rows pgdir ks'
  end.

Definition setupkvm : MM Z :=
  do pgdir <- kalloc;
  if pgdir =? 0 then ret 0 else
  kmemset pgdir 0 PGSIZE;;
  if DEVSPACE <? P2V PHYSTOP then panic "PHYSTOP too high" else
  do ok <- map_rows pgdir kmap;
  if ok : bool then ret pgdir else freevm pgdir;; ret 0.

(** [init] is the address of the initial program. *)
Definition inituvm (pgdir init sz : Z) : MM unit :=
  if PGSIZE <=? sz then panic "inituvm: more than a page" else
  do mem <- kalloc;
  kmemset mem 0 PGSIZE;;
  do _ <- mappages pgdir 0 PGSIZE (V2P mem) (Z.lor PTE_W PTE_U);
  kmemmove mem init sz.

(** [loaduvm] reads the program through [readi dst off n] of fs.c, which runs on a
    state [S] that has the memory in it: [on] makes a call of this file there. *)
Section Load.
Context {S : Type} (on : forall A, MM A -> M S R A) (readi : Z -> Z -> Z -> M S R Z).

Fixpoint load_loop (k : nat) (pgdir addr offset sz i : Z) : M S R Z :=
  match k with
  | O => undef "loaduvm: out of rounds"
  | Datatypes.S k' =>
    if i <? sz then
      do pte <- on _ (walkpgdir pgdir (u32 (addr + i)) false);
      if pte =? 0 then panic "loaduvm: address should exist" else
      do e <- on _ (rd pte);
      let pa := PTE_ADDR e in
      let n := if u32 (sz - i) <? PGSIZE then u32 (sz - i) else PGSIZE in
      do r <- readi (P2V pa) (u32 (offset + i)) n;
      if negb (u32 r =? n) then ret (-1) else
      load_loop k' pgdir addr offset sz (i + PGSIZE)
    else ret 0
  end.

Definition loaduvm (pgdir addr offset sz : Z) : M S R Z :=
  if negb (addr mod PGSIZE =? 0) then panic "loaduvm: addr must be page aligned" else
  load_loop (Datatypes.S (Datatypes.S (Z.to_nat (sz / PGSIZE)))) pgdir addr offset sz 0.
End Load.

(** The loop of [allocuvm]. *)
Fixpoint alloc_loop (n : nat) (pgdir a oldsz newsz : Z) : MM Z :=
  match n with
  | O => undef "allocuvm: out of rounds"
  | S n' =>
    if a <? newsz then
      do mem <- kalloc;
      if mem =? 0 then
        do _ <- deallocuvm pgdir newsz oldsz; ret 0
      else
        kmemset mem 0 PGSIZE;;
        do r <- mappages pgdir a PGSIZE (V2P mem) (Z.lor PTE_W PTE_U);
        if r <? 0 then
          do _ <- deallocuvm pgdir newsz oldsz;
          kfree kend mem;;
          ret 0
        else alloc_loop n' pgdir (u32 (a + PGSIZE)) oldsz newsz
    else ret newsz
  end.

Definition allocuvm (pgdir oldsz newsz : Z) : MM Z :=
  if KERNBASE <=? newsz then ret 0 else
  if newsz <? oldsz then ret oldsz else
  let a := PGROUNDUP oldsz in
  alloc_loop (S (S (Z.to_nat ((newsz - a) / PGSIZE)))) pgdir a oldsz newsz.

Definition clearpteu (pgdir uva : Z) : MM unit :=
  do pte <- walkpgdir pgdir uva false;
  if pte =? 0 then panic "clearpteu" else
  do e <- rd pte;
  wr pte (Z.land e (Z.lnot PTE_U)).

(** The copying loop; [false] is goto bad. *)
Fixpoint copy_loop (n : nat) (pgdir d sz i : Z) : MM bool :=
  match n with
  | O => undef "copyuvm: out of rounds"
  | S n' =>
    if i <? sz then
      do pte <- walkpgdir pgdir i false;
      if pte =? 0 then panic "copyuvm: pte should exist" else
      do e <- rd pte;
      if negb (c_true (Z.land e PTE_P)) then panic "copyuvm: page not present" else
      let pa := PTE_ADDR e in
      let flags := PTE_FLAGS e in
      do mem <- kalloc;
      if mem =? 0 then ret false else
      kmemmove mem (P2V pa) PGSIZE;;
      do r <- mappages d i PGSIZE (V2P mem) flags;
      if r <? 0 then kfree kend mem;; ret false else
      copy_loop n' pgdir d sz (i + PGSIZE)
    else ret true
  end.

Definition copyuvm (pgdir sz : Z) : MM Z :=
  do d <- setupkvm;
  if d =? 0 then ret 0 else
  do ok <- copy_loop (S (S (Z.to_nat (sz / PGSIZE)))) pgdir d sz 0;
  if ok : bool then ret d else freevm d;; ret 0.

(** [*pte] with [pte] null is undefined. *)
Definition uva2ka (pgdir uva : Z) : MM Z :=
  do pte <- walkpgdir pgdir uva false;
  if pte =? 0 then undef "uva2ka: null entry" else
  do e <- rd pte;
  if negb (c_true (Z.land e PTE_P)) then ret 0 else
  if negb (c_true (Z.land e PTE_U)) then ret 0 else
  ret (P2V (PTE_ADDR e)).

(** while(len > 0), each round copying up to the end of a page. *)
Fixpoint copyout_loop (k : nat) (pgdir va buf len : Z) : MM Z :=
  match k with
  | O => undef "copyout: out of rounds"
  | S k' =>
    if 0 <? len then
      let va0 := PGROUNDDOWN va in
      do pa0 <- uva2ka pgdir va0;
      if pa0 =? 0 then ret (-1) else
      let n := PGSIZE - (va - va0) in
      let n := if len <? n then len else n in
      kmemmove (pa0 + (va - va0)) buf n;;
      copyout_loop k' pgdir (u32 (va0 + PGSIZE)) (buf + n) (len - n)
    else ret 0
  end.

Definition copyout (pgdir va p len : Z) : MM Z :=
  copyout_loop (S (S (S (Z.to_nat (len / PGSIZE))))) pgdir va p len.

(** ** Entries *)

Lemma lnot_fff x : Z.land x (Z.lnot 0xFFF) = x - x mod 4096.
Proof.
  change 0xFFF with (Z.ones 12). change (Z.land x (Z.lnot (Z.ones 12))) with (Z.land x (Z.lnot (Z.ones 12))).
  rewrite <- Z.ldiff_land, Z.ldiff_ones_r, Z.shiftl_mul_pow2, Z.shiftr_div_pow2 by lia.
  change (2 ^ 12) with 4096. pose proof (Z.div_mod x 4096). lia.
Qed.

Lemma lor_low x f : x mod 4096 = 0 -> 0 <= f < 4096 -> Z.lor x f = x + f.
Proof.
  intros Hx Hf. symmetry. rewrite Z.add_nocarry_lxor, Z.lxor_lor; [done|..].
  all: apply Z.bits_inj'; intros n Hn; rewrite Z.land_spec, Z.bits_0.
  all: destruct (Z.ltb_spec n 12) as [Hlt|Hge].
  all: try (rewrite <- (Z.mod_pow2_bits_low x 12) by lia; change (2 ^ 12) with 4096; by rewrite Hx, Z.testbit_0_l).
  all: replace f with (f mod 2 ^ 12) by (apply Z.mod_small; lia); rewrite Z.mod_pow2_bits_high by lia; apply andb_false_r.
Qed.

Lemma PDX_div va : PDX va = va / 2 ^ 22 mod 1024.
Proof. unfold PDX. rewrite Z.shiftr_div_pow2 by lia. change 0x3FF with (Z.ones 10). by rewrite Z.land_ones by lia. Qed.
Lemma PTX_div va : PTX va = va / 4096 mod 1024.
Proof. unfold PTX. rewrite Z.shiftr_div_pow2 by lia. change 0x3FF with (Z.ones 10). by rewrite Z.land_ones by lia. Qed.

Definition present (e : Z) : bool := c_true (Z.land e PTE_P).

Lemma present_odd e : present e = Z.odd e.
Proof.
  unfold present, c_true, PTE_P. change 1 with (Z.ones 1). rewrite Z.land_ones by lia. change (2 ^ 1) with 2.
  rewrite Zmod_odd. by destruct (Z.odd e).
Qed.
End Vm.
