(* ===== verification/VmMap.v ===== *)
(** * What page tables map

    [maps m pgdir va] is the present entry that the hardware finds for [va].
    Under [table_inv], which says that the directory, its page tables and the
    free pages are all different pages, [walkpgdir] changes no mapping and
    [mappages] changes exactly the mappings of its range. *)
From S2P Require Import Prelude Spinlock ProcDefs Proc Memory Kalloc Vm.
Local Open Scope Z_scope.
Local Open Scope kernel_scope.

Section Map.
Context (kend : Z) {R : Type}.
Hypothesis kend_high : KERNBASE <= kend.
Local Abbreviation page_ok := (page_ok kend).
Local Abbreviation kmem_inv := (kmem_inv kend).

Definition pde (m : mem) (pgdir i : Z) : Z := load32 m (pgdir + 4 * i).
Definition tab (m : mem) (pgdir i : Z) : Z := P2V (PTE_ADDR (pde m pgdir i)).

Definition maps (m : mem) (pgdir va : Z) : option Z :=
  if present (pde m pgdir (PDX va)) then
    let e := load32 m (tab m pgdir (PDX va) + 4 * PTX va) in
    if present e then Some e else None
  else None.

(** The page tables of [pgdir] are the pages [ts], the free pages [l]. *)
Record table_inv (s : kmem) (pgdir : Z) (ts l : list Z) : Prop := {
  ti_mem : kmem_inv s l;
  ti_dir : page_ok pgdir;
  ti_tabs : Forall page_ok ts;
  ti_nodup : NoDup (pgdir :: ts ++ l);
  ti_in : forall i, 0 <= i < 1024 -> present (pde (kram s) pgdir i) = true -> tab (kram s) pgdir i ∈ ts;
  ti_inj : forall i j, 0 <= i < 1024 -> 0 <= j < 1024 ->
    present (pde (kram s) pgdir i) = true -> present (pde (kram s) pgdir j) = true ->
    tab (kram s) pgdir i = tab (kram s) pgdir j -> i = j
}.

Lemma PDX_range va : 0 <= PDX va < 1024.
Proof. rewrite PDX_div. apply Z.mod_pos_bound. lia. Qed.
Lemma PTX_range va : 0 <= PTX va < 1024.
Proof. rewrite PTX_div. apply Z.mod_pos_bound. lia. Qed.

(** A page is at a kernel address, so its physical address names it. *)
Lemma page_phys x : page_ok x -> V2P x = x - KERNBASE /\ 0 <= x - KERNBASE < PHYSTOP /\ x mod 4096 = 0.
Proof.
  intros [Hx Hb]. unfold kfree_bad, c_true in Hb. to_prop. unfold V2P in *.
  assert (u32 (x - KERNBASE) = x - KERNBASE) as He by (apply u32_small; unfold KERNBASE in *; lia).
  rewrite He in *. split_and!; [done|lia|lia|done].
Qed.

Definition dir_entry (x : Z) : Z := Z.lor (Z.lor (Z.lor (V2P x) PTE_P) PTE_W) PTE_U.

Lemma dir_entry_eq x : page_ok x -> dir_entry x = x - KERNBASE + 7.
Proof.
  intros (Hv & Hr & Hm)%page_phys. unfold dir_entry. rewrite Hv, <- !Z.lor_assoc.
  change (Z.lor PTE_P (Z.lor PTE_W PTE_U)) with 7. apply lor_low; [|lia].
  unfold KERNBASE. rewrite Zminus_mod, Hm. done.
Qed.

Lemma dir_entry_ok x :
  page_ok x -> present (dir_entry x) = true /\ P2V (PTE_ADDR (dir_entry x)) = x /\ 0 <= dir_entry x < 2 ^ 32.
Proof.
  intros Hx. rewrite dir_entry_eq by done. destruct (page_phys x Hx) as (_ & Hr & Hm).
  assert ((x - KERNBASE) mod 4096 = 0) as H0 by (unfold KERNBASE; rewrite Zminus_mod, Hm; done).
  split_and!; [| |lia|unfold PHYSTOP in *; lia].
  - rewrite present_odd. replace (x - KERNBASE + 7) with (1 + 2 * ((x - KERNBASE) / 4096 * 2048 + 3)).
    + by rewrite Z.odd_add_mul_2.
    + pose proof (Z.div_mod (x - KERNBASE) 4096). lia.
  - unfold PTE_ADDR, P2V. rewrite lnot_fff.
    replace ((x - KERNBASE + 7) mod 4096) with 7.
    + rewrite u32_small; [lia|]. unfold PHYSTOP, KERNBASE in *. lia.
    + symmetry. rewrite Z.add_mod, H0 by lia. done.
Qed.

(** ** Writes inside one page *)

(** [m'] differs from [m] only inside page [x]. *)
Definition within (x : Z) (m m' : mem) : Prop := forall a, a < x \/ x + PGSIZE <= a -> m' a = m a.

Lemma within_word x y m m' o :
  page_ok x -> page_ok y -> x <> y -> within x m m' -> 0 <= o -> o + 4 <= PGSIZE ->
  load32 m' (y + o) = load32 m (y + o).
Proof.
  intros Hx Hy Hne Hw H0 Ho. apply load32_ext. intros i Hi. apply Hw.
  destruct (pages_apart kend x y); [done|done|done|lia|lia].
Qed.

Lemma kmem_write s l x m' :
  kmem_inv s l -> page_ok x -> x ∉ l -> within x (kram s) m' -> bytes m' -> kmem_inv (s <| kram := m' |>) l.
Proof.
  intros (Hb & Hc & Hn & Hf & Hk) Hx Hnin Hw Hb'. split_and!; try done. simpl.
  apply (chain_ext (kram s)); [|done]. intros y i Hy Hi. apply Hw.
  assert (page_ok y) as Hyp by (by eapply Forall_forall).
  destruct (pages_apart kend x y); [done|done|by intros ->|unfold PGSIZE in *; lia..].
Qed.

Lemma within_store32 x m o v : 0 <= o -> o + 4 <= PGSIZE -> within x m (store32 m (x + o) v).
Proof. intros H0 Ho a Ha. apply store32_other. lia. Qed.

Lemma within_trans x m1 m2 m3 : within x m1 m2 -> within x m2 m3 -> within x m1 m3.
Proof. intros H1 H2 a Ha. rewrite H2 by done. auto. Qed.

Lemma within_memset x m c : within x m (memset m x c PGSIZE).
Proof.
  intros a Ha. rewrite memset_spec by (unfold PGSIZE; lia).
  destruct (Z.leb_spec x a), (Z.ltb_spec a (x + PGSIZE)); simpl; lia || done.
Qed.

(** The tables are pages, different from the directory and from each other. *)
Lemma tab_page s pgdir ts l i :
  table_inv s pgdir ts l -> 0 <= i < 1024 -> present (pde (kram s) pgdir i) = true ->
  page_ok (tab (kram s) pgdir i) /\ tab (kram s) pgdir i <> pgdir /\ tab (kram s) pgdir i ∉ l.
Proof.
  intros Ht Hi Hp. pose proof (ti_in _ _ _ _ Ht i Hi Hp) as Hin.
  pose proof (ti_nodup _ _ _ _ Ht) as [Hd Hnd]%NoDup_cons. split_and!.
  - eapply Forall_forall; [apply (ti_tabs _ _ _ _ Ht)|done].
  - intros He. apply Hd. rewrite He in Hin. apply elem_of_app. by left.
  - intros Hl. apply NoDup_app in Hnd as (_ & H & _). by apply (H _ Hin).
Qed.

Lemma pde_within m m' x pgdir i :
  page_ok x -> page_ok pgdir -> x <> pgdir -> within x m m' -> 0 <= i < 1024 -> pde m' pgdir i = pde m pgdir i.
Proof. intros. unfold pde. eapply (within_word x); unfold PGSIZE; done || lia. Qed.

Lemma tab_within m m' x pgdir i :
  page_ok x -> page_ok pgdir -> x <> pgdir -> within x m m' -> 0 <= i < 1024 -> tab m' pgdir i = tab m pgdir i.
Proof. intros. unfold tab. by rewrite (pde_within m m' x). Qed.

(** Writing an entry of a page table. *)
Lemma set_pte s pgdir ts l va v :
  table_inv s pgdir ts l -> present (pde (kram s) pgdir (PDX va)) = true -> 0 <= v < 2 ^ 32 -> 0 <= va < 2 ^ 32 ->
  let m' := store32 (kram s) (tab (kram s) pgdir (PDX va) + 4 * PTX va) v in
  table_inv (s <| kram := m' |>) pgdir ts l /\
  forall va', 0 <= va' < 2 ^ 32 ->
    maps m' pgdir va' = if va' / 4096 =? va / 4096 then if present v then Some v else None
                        else maps (kram s) pgdir va'.
Proof.
  intros Ht Hp Hv Hva m'. set (t := tab (kram s) pgdir (PDX va)) in *.
  destruct (tab_page _ _ _ _ _ Ht (PDX_range va) Hp) as (Hpg & Hne & Hnl).
  pose proof (PTX_range va) as Hx.
  assert (within t (kram s) m') as Hw by (apply within_store32; unfold PGSIZE; lia).
  assert (bytes m') as Hb by (apply bytes_store32, (ti_mem _ _ _ _ Ht)).
  pose proof (ti_dir _ _ _ _ Ht) as Hd. split.
  - constructor; simpl.
    + apply (kmem_write s l t m'); [apply Ht|done..].
    + done.
    + apply Ht.
    + apply Ht.
    + intros i Hi. rewrite (tab_within (kram s) m' t), (pde_within (kram s) m' t) by done. by apply Ht.
    + intros i j Hi Hj. rewrite !(tab_within (kram s) m' t), !(pde_within (kram s) m' t) by done. by apply Ht.
  - intros va' Hva'. unfold maps. pose proof (PDX_range va') as Hi. pose proof (PTX_range va') as Hj.
    rewrite (pde_within (kram s) m' t), (tab_within (kram s) m' t) by done.
    destruct (Z.eqb_spec (va' / 4096) (va / 4096)) as [He|Hn].
    + assert (PTX va' = PTX va) as -> by (rewrite !PTX_div; congruence).
      assert (PDX va' = PDX va) as ->.
      { rewrite !PDX_div. change (2 ^ 22) with (4096 * 1024). rewrite <- !Z.div_div by lia. congruence. }
      rewrite Hp. fold t. unfold m'. by rewrite load_store32.
    + destruct (present (pde (kram s) pgdir (PDX va'))) eqn:Hp'; [|done].
      assert (load32 m' (tab (kram s) pgdir (PDX va') + 4 * PTX va') =
              load32 (kram s) (tab (kram s) pgdir (PDX va') + 4 * PTX va')) as ->; [|done].
      destruct (tab_page _ _ _ _ _ Ht Hi Hp') as (Hpg' & _ & _).
      destruct (decide (tab (kram s) pgdir (PDX va') = t)) as [Het|Hnt].
      * assert (PDX va' = PDX va) as Hdx by (by eapply (ti_inj _ _ _ _ Ht); try apply PDX_range).
        assert (PTX va' <> PTX va) as Hpx.
        { intros Hpx. apply Hn. rewrite PDX_div, PDX_div in Hdx. rewrite PTX_div, PTX_div in Hpx.
          change (2 ^ 22) with (4096 * 1024) in Hdx. rewrite <- !Z.div_div in Hdx by lia.
          assert (va / 4096 < 2 ^ 20) by (apply Z.div_lt_upper_bound; lia).
          assert (va' / 4096 < 2 ^ 20) by (apply Z.div_lt_upper_bound; lia).
          assert (0 <= va / 4096) by (apply Z.div_pos; lia). assert (0 <= va' / 4096) by (apply Z.div_pos; lia).
          rewrite !(Z.mod_small (_ / 4096 / 1024)) in Hdx
            by (split; [apply Z.div_pos; lia|apply Z.div_lt_upper_bound; lia]).
          pose proof (Z.div_mod (va / 4096) 1024). pose proof (Z.div_mod (va' / 4096) 1024). lia. }
        rewrite Het. apply load32_ext. intros k Hk. apply store32_other. lia.
      * apply (within_word t); try done; unfold PGSIZE; lia.
Qed.

(** A fresh, cleared page table for an entry that was not present. *)
Lemma new_table s pgdir ts x l va :
  table_inv s pgdir ts (x :: l) -> present (pde (kram s) pgdir (PDX va)) = false ->
  forall s', kmem_inv s' l -> kram s' = kram s ->
  let m' := store32 (memset (kram s) x 0 PGSIZE) (pgdir + 4 * PDX va) (dir_entry x) in
  table_inv (s' <| kram := m' |>) pgdir (x :: ts) l /\
  present (pde m' pgdir (PDX va)) = true /\ tab m' pgdir (PDX va) = x /\
  forall va', maps m' pgdir va' = maps (kram s) pgdir va'.
Proof.
  intros Ht Hp s' Hs' Hr m'. set (m1 := memset (kram s) x 0 PGSIZE) in *.
  pose proof (ti_dir _ _ _ _ Ht) as Hd. pose proof (ti_mem _ _ _ _ Ht) as (Hb & _ & Hnl & Hfl & _).
  apply Forall_cons in Hfl as [Hx Hfl]. apply NoDup_cons in Hnl as [Hxl Hnl].
  pose proof (ti_nodup _ _ _ _ Ht) as [Hdn Hnd]%NoDup_cons.
  assert (x <> pgdir) as Hxd. { intros ->. apply Hdn, elem_of_app. right. by left. }
  assert (pgdir ∉ l) as Hdl. { intros H. apply Hdn, elem_of_app. right. by right. }
  assert (x ∉ ts) as Hxt. { intros H. apply NoDup_app in Hnd as (_ & H2 & _). apply (H2 x H). by left. }
  pose proof (PDX_range va) as Hi. destruct (dir_entry_ok x Hx) as (He1 & He2 & He3).
  assert (within x (kram s) m1) as Hw1 by apply within_memset.
  assert (within pgdir m1 m') as Hw2 by (apply within_store32; unfold PGSIZE; lia).
  assert (bytes m1) as Hb1 by (apply bytes_memset; [unfold PGSIZE; lia|done]).
  assert (pde m' pgdir (PDX va) = dir_entry x) as Hpde by (apply load_store32; done).
  assert (forall i, 0 <= i < 1024 -> i <> PDX va -> pde m' pgdir i = pde (kram s) pgdir i) as Hpde'.
  { intros i Hir Hne. transitivity (pde m1 pgdir i); [|by apply (pde_within (kram s) m1 x)].
    apply load32_ext. intros k Hk. apply store32_other. lia. }
  assert (tab m' pgdir (PDX va) = x) as Htab by (unfold tab; by rewrite Hpde).
  assert (present (pde m' pgdir (PDX va)) = true) as Hpr by (by rewrite Hpde).
  assert (forall i, 0 <= i < 1024 -> i <> PDX va -> tab m' pgdir i = tab (kram s) pgdir i) as Htab'
    by (intros; unfold tab; by rewrite Hpde').
  split_and!; [constructor; simpl|done|done|].
  - rewrite <- Hr in Hw1.
    pose proof (kmem_write s' l x m1 Hs' Hx Hxl Hw1 Hb1) as H1.
    exact (kmem_write _ l pgdir m' H1 Hd Hdl Hw2 (bytes_store32 _ _ _ Hb1)).
  - done.
  - constructor; [done|apply Ht].
  - apply NoDup_cons. split.
    + rewrite elem_of_cons. intros [H|H]; [by destruct Hxd|]. apply Hdn. rewrite elem_of_app in H |- *.
      destruct H; [by left|right; by right].
    + apply NoDup_cons. split; [rewrite elem_of_app; by intros [?|?]|].
      apply NoDup_app in Hnd as (Hn1 & Hn2 & Hn3). apply NoDup_app. split_and!; [done| |done].
      intros y Hy Hyl. apply (Hn2 y Hy). by right.
  - intros i Hir. destruct (decide (i = PDX va)) as [->|Hne]; [rewrite Htab; by left|].
    rewrite Hpde', Htab' by done. intros H. right. by apply Ht.
  - assert (forall i, 0 <= i < 1024 -> i <> PDX va -> present (pde m' pgdir i) = true ->
      tab m' pgdir i <> x) as Hnx.
    { intros i Hir Hne. rewrite Hpde', Htab' by done. intros H He. apply Hxt. rewrite <- He. by apply Ht. }
    intros i j Hir Hjr. destruct (decide (i = PDX va)) as [->|Hni], (decide (j = PDX va)) as [->|Hnj]; [done|..].
    + intros _ H1 H2. destruct (Hnx j Hjr Hnj H1). congruence.
    + intros H1 _ H2. destruct (Hnx i Hir Hni H1). congruence.
    + rewrite !Hpde', !Htab' by done. by apply Ht.
  - intros va'. unfold maps. pose proof (PDX_range va') as Hir. pose proof (PTX_range va') as Hjr.
    destruct (decide (PDX va' = PDX va)) as [He|Hne].
    + rewrite He, Hpr, Htab, Hp.
      assert (load32 m' (x + 4 * PTX va') = 0) as ->; [|done].
      unfold load32. rewrite <- (Z.add_0_r (x + 4 * PTX va')) at 1.
      assert (forall k, 0 <= k < 4 -> m' (x + 4 * PTX va' + k) = 0) as Hz.
      { intros k Hk. rewrite Hw2.
        - unfold m1. rewrite memset_spec by (unfold PGSIZE; lia).
          destruct (Z.leb_spec x (x + 4 * PTX va' + k)), (Z.ltb_spec (x + 4 * PTX va' + k) (x + PGSIZE));
            unfold PGSIZE in *; simpl; done || lia.
        - destruct (pages_apart kend pgdir x); [done|done|done|unfold PGSIZE in *; lia..]. }
      rewrite !Hz by lia. done.
    + rewrite Hpde', Htab' by done. destruct (present (pde (kram s) pgdir (PDX va'))) eqn:Hp'; [|done].
      destruct (tab_page _ _ _ _ _ Ht Hir Hp') as (Hpg & Hnp & Hnf).
      assert (load32 m' (tab (kram s) pgdir (PDX va') + 4 * PTX va') =
              load32 (kram s) (tab (kram s) pgdir (PDX va') + 4 * PTX va')) as ->; [|done].
      rewrite (within_word pgdir _ m1 m') by (done || unfold PGSIZE; lia).
      apply (within_word x); try (done || unfold PGSIZE; lia). intros ->. apply Hnf. by left.
Qed.

(** [walkpgdir] with allocation finds or makes the entry, and maps nothing. *)
Lemma walk_alloc s pgdir ts l va :
  table_inv s pgdir ts l ->
  (exists s', walkpgdir (R := R) pgdir va true s = Ret 0 s' /\ l = [] /\ table_inv s' pgdir ts [] /\ kram s' = kram s) \/
  (exists s' ts' l', walkpgdir (R := R) pgdir va true s = Ret (tab (kram s') pgdir (PDX va) + 4 * PTX va) s' /\
     table_inv s' pgdir ts' l' /\ present (pde (kram s') pgdir (PDX va)) = true /\
     (exists fr, l = fr ++ l' /\ ts' = fr ++ ts) /\
     forall va', maps (kram s') pgdir va' = maps (kram s) pgdir va').
Proof.
  intros Ht. unfold walkpgdir, rd. rewrite bind_gets. fold (pde (kram s) pgdir (PDX va)).
  change (c_true (Z.land (pde (kram s) pgdir (PDX va)) PTE_P)) with (present (pde (kram s) pgdir (PDX va))).
  destruct (present _) eqn:Hp.
  - right. exists s, ts, l. split_and!; [done|done|done|by exists []|done].
  - cbn [negb]. destruct (kalloc_run kend (R := R) s l (ti_mem _ _ _ _ Ht)) as (s1 & Hk & Hi1 & Hr1 & _).
    run_step Hk. destruct l as [|x l]; simpl in *.
    + left. exists s1. split_and!; [done|done| |done].
      destruct Ht as [? ? ? ? ? ?]. constructor; rewrite ?Hr1; done.
    + right. pose proof (ti_mem _ _ _ _ Ht) as (_ & _ & _ & Hfl & _).
      apply Forall_cons in Hfl as [[Hx0 Hxb] _]. replace (x =? 0) with false by lia.
      destruct (new_table _ _ _ _ _ _ Ht Hp s1 Hi1 Hr1) as (Ht' & Hp' & Htab & Hm).
      unfold kmemset, wr. rewrite !bind_modify. cbn [ret].
      eexists _, (x :: ts), l. split; [|split; [exact Ht'|]].
      * simpl. rewrite <- Htab at 1. rewrite <- Hr1. reflexivity.
      * split_and!; [done|by exists [x]|done].
Qed.

(** The entry [mappages] writes for physical page [pa]. *)
Definition entry (pa perm : Z) : Z := Z.lor (Z.lor pa perm) PTE_P.

Lemma lor_bound x y : 0 <= x < 2 ^ 32 -> 0 <= y < 2 ^ 32 -> 0 <= Z.lor x y < 2 ^ 32.
Proof.
  intros Hx Hy. split; [apply Z.lor_nonneg; lia|].
  assert (forall z, 0 <= z < 2 ^ 32 -> Z.log2 z < 32) as Hl.
  { intros z Hz. destruct (Z.eq_dec z 0) as [->|]; [done|]. apply Z.log2_lt_pow2; lia. }
  destruct (Z.eq_dec (Z.lor x y) 0) as [->|Hne]; [lia|].
  assert (0 <= Z.lor x y) by (apply Z.lor_nonneg; lia).
  apply Z.log2_lt_pow2; [lia|]. rewrite Z.log2_lor by lia. apply Z.max_lub_lt; by apply Hl.
Qed.

Lemma entry_ok pa perm :
  0 <= pa < 2 ^ 32 -> 0 <= perm < 2 ^ 32 -> 0 <= entry pa perm < 2 ^ 32 /\ present (entry pa perm) = true.
Proof.
  intros Hpa Hperm. unfold entry. split.
  - apply lor_bound; [by apply lor_bound|unfold PTE_P; lia].
  - rewrite present_odd, <- Z.bit0_odd, !Z.lor_spec. apply orb_true_r.
Qed.

(** The page of [va] is one of the [k + 1] pages from [a] on. *)
Definition in_pages (a : Z) (k : nat) (va : Z) : bool := (a / 4096 <=? va / 4096) && (va / 4096 <=? a / 4096 + Z.of_nat k).

Lemma in_pagesP a k va :
  BoolSpec (a / 4096 <= va / 4096 <= a / 4096 + Z.of_nat k)
           (va / 4096 < a / 4096 \/ a / 4096 + Z.of_nat k < va / 4096) (in_pages a k va).
Proof.
  unfold in_pages. destruct (Z.leb_spec (a / 4096) (va / 4096)), (Z.leb_spec (va / 4096) (a / 4096 + Z.of_nat k));
    constructor; lia.
Qed.

Definition mapped (m m' : mem) (pgdir a pa perm : Z) (k : nat) : Prop :=
  forall va, 0 <= va < 2 ^ 32 ->
    maps m' pgdir va = if in_pages a k va then Some (entry (pa + (va / 4096 - a / 4096) * 4096) perm)
                       else maps m pgdir va.

Lemma div_add_page a j : (a + j * 4096) / 4096 = a / 4096 + j.
Proof. by rewrite Z.div_add by lia. Qed.

(** One round at a page that is not mapped. *)
Lemma map_round n s pgdir ts l a last pa perm :
  table_inv s pgdir ts l -> 0 <= a < 2 ^ 32 -> 0 <= pa < 2 ^ 32 -> 0 <= perm < 2 ^ 32 ->
  maps (kram s) pgdir a = None ->
  (exists s', mappages_loop (R := R) (S n) pgdir a last pa perm s = Ret (-1) s' /\
              table_inv s' pgdir ts [] /\ kram s' = kram s) \/
  (exists s' ts' l', table_inv s' pgdir ts' l' /\ mapped (kram s) (kram s') pgdir a pa perm 0 /\
     mappages_loop (R := R) (S n) pgdir a last pa perm s =
       if a =? last then Ret 0 s' else mappages_loop n pgdir (u32 (a + PGSIZE)) last (u32 (pa + PGSIZE)) perm s').
Proof.
  intros Ht Ha Hpa Hperm Hn. cbn [mappages_loop].
  destruct (walk_alloc s pgdir ts l a Ht) as
    [(s1 & Hw & -> & Ht1 & Hr)|(s1 & ts1 & l1 & Hw & Ht1 & Hp1 & _ & Hm1)]; run_step Hw.
  - left. exists s1. by split_and!.
  - right. rewrite <- Hm1 in Hn. unfold maps in Hn. rewrite Hp1 in Hn.
    destruct (entry_ok pa perm Hpa Hperm) as [He1 He2].
    destruct (set_pte _ _ _ _ _ _ Ht1 Hp1 He1 Ha) as [Ht2 Hm2].
    destruct (tab_page _ _ _ _ _ Ht1 (PDX_range a) Hp1) as ([[Hlo _] _] & _).
    pose proof (PTX_range a).
    replace (tab (kram s1) pgdir (PDX a) + 4 * PTX a =? 0) with false by lia.
    unfold rd. rewrite bind_gets. fold (present (load32 (kram s1) (tab (kram s1) pgdir (PDX a) + 4 * PTX a))).
    destruct (present (load32 _ _)) eqn:Hpe; [done|].
    unfold wr. rewrite bind_modify. fold (entry pa perm).
    eexists _, ts1, l1. split; [exact Ht2|]. split.
    + intros va Hva. simpl. rewrite Hm2, He2 by done.
      destruct (in_pagesP a 0 va), (Z.eqb_spec (va / 4096) (a / 4096)) as [He|Hne]; try lia; [|apply Hm1].
      by rewrite He, Z.sub_diag, Z.mul_0_l, Z.add_0_r.
    + by destruct (a =? last).
Qed.

Lemma mappages_loop_run k n s pgdir ts l a pa perm :
  table_inv s pgdir ts l -> (k < n)%nat ->
  0 <= a -> a mod 4096 = 0 -> a + Z.of_nat k * 4096 < 2 ^ 32 ->
  0 <= pa -> pa + Z.of_nat k * 4096 < 2 ^ 32 -> 0 <= perm < 2 ^ 32 ->
  (forall j, 0 <= j <= Z.of_nat k -> maps (kram s) pgdir (a + j * 4096) = None) ->
  exists s' ts' l', table_inv s' pgdir ts' l' /\
    ((mappages_loop (R := R) n pgdir a (a + Z.of_nat k * 4096) pa perm s = Ret 0 s' /\
      mapped (kram s) (kram s') pgdir a pa perm k) \/
     (mappages_loop (R := R) n pgdir a (a + Z.of_nat k * 4096) pa perm s = Ret (-1) s' /\ l' = [] /\
      forall va, 0 <= va < 2 ^ 32 -> in_pages a k va = false -> maps (kram s') pgdir va = maps (kram s) pgdir va)).
Proof.
  revert n s ts l a pa. induction k as [|k IH]; intros n s ts l a pa Ht Hn Ha Ham Hal Hpa Hpal Hperm Hfree.
  all: destruct n as [|n]; [lia|].
  all: assert (maps (kram s) pgdir a = None) as Hfree0
    by (specialize (Hfree 0); rewrite Z.add_0_r in Hfree; apply Hfree; lia).
  all: match goal with |- context [mappages_loop _ _ _ ?last _ _ _] =>
    destruct (map_round n s pgdir ts l a last pa perm Ht) as
      [(s1 & Hw & Ht1 & Hr)|(s1 & ts1 & l1 & Ht1 & Hm1 & Hw)]; [lia|lia|done|done| |]; rewrite Hw
  end.
  all: try (exists s1, ts, []; split; [done|right; split_and!; [done|done|]; intros; by rewrite Hr]).
  - destruct (Z.eqb_spec a (a + Z.of_nat 0 * 4096)); [|lia]. exists s1, ts1, l1. auto.
  - destruct (Z.eqb_spec a (a + Z.of_nat (S k) * 4096)); [lia|]. unfold PGSIZE.
    rewrite !u32_small by lia.
    replace (a + Z.of_nat (S k) * 4096) with (a + 4096 + Z.of_nat k * 4096) by lia.
    assert ((a + 4096) / 4096 = a / 4096 + 1) as Hd by apply (div_add_page a 1).
    destruct (IH n s1 ts1 l1 (a + 4096) (pa + 4096)) as (s2 & ts2 & l2 & Ht2 & Hor); try done || lia.
    { by rewrite Z.add_mod, Ham by lia. }
    { intros j Hj. replace (a + 4096 + j * 4096) with (a + (j + 1) * 4096) by lia. rewrite Hm1 by lia.
      destruct (in_pagesP a 0 (a + (j + 1) * 4096)) as [H|]; [rewrite div_add_page in H; lia|]. apply Hfree. lia. }
    exists s2, ts2, l2. split; [done|]. destruct Hor as [[H1 H2]|(H1 & H2 & H3)]; [left|right].
    + split; [done|]. intros va Hva. rewrite H2, Hm1 by done. rewrite Hd.
      destruct (in_pagesP (a + 4096) k va), (in_pagesP a 0 va), (in_pagesP a (S k) va); try lia; [|done|done].
      all: f_equal; f_equal; lia.
    + split_and!; [done|done|]. intros va Hva Hnin. rewrite H3; [rewrite Hm1 by done|done|].
      * destruct (in_pagesP a 0 va), (in_pagesP a (S k) va); done || lia.
      * destruct (in_pagesP (a + 4096) k va), (in_pagesP a (S k) va); done || lia.
Qed.

Lemma PGROUNDDOWN_eq a : PGROUNDDOWN a = a - a mod 4096.
Proof. unfold PGROUNDDOWN, PGSIZE. change (4096 - 1) with 0xFFF. apply lnot_fff. Qed.

(** C9: [mappages] maps what it is asked to.  On a directory whose range of pages
    is unmapped it never panics; it returns 0 with every page of the range mapped
    to the corresponding physical page with the given permissions and every
    other mapping as before, or it returns -1 because no page is free for a page
    table, and then mappings outside the range are as before.  Either way the
    directory, its page tables and the free pages stay disjoint. *)
Theorem mappages_maps s pgdir ts l va size pa perm :
  table_inv s pgdir ts l ->
  0 <= va -> 0 < size -> va + size <= 2 ^ 32 -> 0 <= perm < 2 ^ 32 ->
  0 <= pa -> pa + ((va + size - 1) / 4096 - va / 4096) * 4096 < 2 ^ 32 ->
  (forall va', va / 4096 <= va' / 4096 <= (va + size - 1) / 4096 -> maps (kram s) pgdir va' = None) ->
  exists s' ts' l', table_inv s' pgdir ts' l' /\
    ((mappages (R := R) pgdir va size pa perm s = Ret 0 s' /\
      forall va', 0 <= va' < 2 ^ 32 ->
        maps (kram s') pgdir va' =
          if (va / 4096 <=? va' / 4096) && (va' / 4096 <=? (va + size - 1) / 4096)
          then Some (entry (pa + (va' / 4096 - va / 4096) * 4096) perm)
          else maps (kram s) pgdir va') \/
     (mappages (R := R) pgdir va size pa perm s = Ret (-1) s' /\ l' = [] /\
      forall va', 0 <= va' < 2 ^ 32 ->
        (va / 4096 <=? va' / 4096) && (va' / 4096 <=? (va + size - 1) / 4096) = false ->
        maps (kram s') pgdir va' = maps (kram s) pgdir va')).
Proof.
  intros Ht Hva Hsz Hend Hperm Hpa Hpal Hfree. unfold mappages.
  assert (u32 (u32 (va + size) - 1) = va + size - 1) as ->.
  { destruct (Z.eq_dec (va + size) (2 ^ 32)) as [->|]; [done|]. rewrite (u32_small (va + size)) by lia.
    apply u32_small. lia. }
  rewrite !PGROUNDDOWN_eq. set (last := va + size - 1) in *.
  set (a := va - va mod 4096). set (k := Z.to_nat (last / 4096 - va / 4096)).
  pose proof (Z.div_mod va 4096). pose proof (Z.mod_pos_bound va 4096).
  pose proof (Z.div_mod last 4096). pose proof (Z.mod_pos_bound last 4096).
  assert (va / 4096 <= last / 4096) by (apply Z.div_le_mono; unfold last; lia).
  assert (0 <= va / 4096) by (apply Z.div_pos; lia).
  assert (last - last mod 4096 = a + Z.of_nat k * 4096) as Hlast by (unfold a, k; lia).
  assert (a / 4096 = va / 4096) as Hda.
  { replace a with (0 + va / 4096 * 4096) by (unfold a; lia). rewrite Z.div_add by lia. done. }
  assert (Z.of_nat k = last / 4096 - va / 4096) as Hk by (unfold k; lia).
  rewrite Hlast. replace (u32 (a + Z.of_nat k * 4096 - a)) with (Z.of_nat k * 4096)
    by (rewrite u32_small; unfold a, k, last in *; lia).
  unfold PGSIZE. rewrite Z.div_mul, Nat2Z.id by lia.
  destruct (mappages_loop_run k (S k) s pgdir ts l a pa perm) as (s' & ts' & l' & Ht' & Hor);
    [done|lia|unfold a; lia| |unfold a, last in *; lia|done|lia|done| |].
  { replace a with (va / 4096 * 4096) by (unfold a; lia). by rewrite Z.mod_mul by lia. }
  { intros j Hj. apply Hfree. rewrite div_add_page, Hda. lia. }
  assert (forall va', in_pages a k va' = (va / 4096 <=? va' / 4096) && (va' / 4096 <=? last / 4096)) as Hin.
  { intros va'. unfold in_pages. rewrite Hda, Hk. do 2 f_equal. lia. }
  exists s', ts', l'. split; [done|]. destruct Hor as [[Hr Hm]|(Hr & Hl & Hm)]; [left|right].
  - split; [done|]. intros va' Hva'. rewrite Hm, Hin, Hda by done. done.
  - split_and!; [done|done|]. intros va' Hva' Hn. apply Hm; [done|]. by rewrite Hin.
Qed.

(** C37: [copyout] to an address without a page table dereferences the null pointer
    that [walkpgdir] returned to [uva2ka]. *)
Theorem copyout_null_entry s pgdir va p len :
  0 < len -> present (pde (kram s) pgdir (PDX (PGROUNDDOWN va))) = false ->
  copyout (R := R) pgdir va p len s = Undef "uva2ka: null entry" s.
Proof.
  intros Hl Hp. unfold copyout, copyout_loop. replace (0 <? len) with true by lia. cbv iota zeta.
  unfold uva2ka, walkpgdir, rd, bind, gets.
  change (c_true (Z.land (load32 (kram s) (pgdir + 4 * PDX (PGROUNDDOWN va))) PTE_P))
    with (present (pde (kram s) pgdir (PDX (PGROUNDDOWN va)))). rewrite Hp. done.
Qed.
End Map.

(** ** A directory with one free page *)

Definition vm_demo : kmem := Kmem (fun _ => 0) true 0x80301000 false.

Lemma vm_demo_page x : x ∈ [0x80300000; 0x80301000] -> page_ok 0x80100000 x.
Proof. rewrite !elem_of_cons, elem_of_nil. intros [->|[->|[]]]; (split; [lia|reflexivity]). Qed.

Lemma vm_demo_inv : table_inv 0x80100000 vm_demo 0x80300000 [] [0x80301000].
Proof.
  constructor.
  - split_and!; [intros a; simpl; lia|done| | |done].
    + apply NoDup_singleton.
    + apply Forall_singleton, vm_demo_page. set_solver.
  - apply vm_demo_page. set_solver.
  - done.
  - apply NoDup_cons. split; [|apply NoDup_singleton]. by intros ?%list_elem_of_singleton.
  - done.
  - done.
Qed.

Lemma mappages_maps_witness :
  exists s' ts' l', table_inv 0x80100000 s' 0x80300000 ts' l' /\
    ((mappages (R := unit) 0x80300000 0x1000 0x2000 0x5000 6 vm_demo = Ret 0 s' /\
      forall va', 0 <= va' < 2 ^ 32 ->
        maps (kram s') 0x80300000 va' =
          if (0x1000 / 4096 <=? va' / 4096) && (va' / 4096 <=? (0x1000 + 0x2000 - 1) / 4096)
          then Some (entry (0x5000 + (va' / 4096 - 0x1000 / 4096) * 4096) 6)
          else maps (kram vm_demo) 0x80300000 va') \/
     (mappages (R := unit) 0x80300000 0x1000 0x2000 0x5000 6 vm_demo = Ret (-1) s' /\ l' = [] /\
      forall va', 0 <= va' < 2 ^ 32 ->
        (0x1000 / 4096 <=? va' / 4096) && (va' / 4096 <=? (0x1000 + 0x2000 - 1) / 4096) = false ->
        maps (kram s') 0x80300000 va' = maps (kram vm_demo) 0x80300000 va')).
Proof.
  apply (mappages_maps 0x80100000 ltac:(unfold KERNBASE; lia) vm_demo 0x80300000 [] [0x80301000]);
    [exact vm_demo_inv|lia|lia|lia|lia|lia|vm_compute; reflexivity|done].
Defined.

Lemma copyout_null_entry_witness :
  copyout (R := unit) 0x80300000 0x4000 0x80302000 4 vm_demo = Undef "uva2ka: null entry" vm_demo.
Proof. apply (copyout_null_entry vm_demo 0x80300000 0x4000 0x80302000 4); [lia|reflexivity]. Defined.
