(* ===== verification/VmCopy.v ===== *)
(** * Copying to user memory

    [frame m pgdir va] is the kernel address of the page that user code reaches at
    [va], [umem] the memory it sees.  Under [space], an address space whose user pages
    are apart from the page tables and from each other, [copyout] writes exactly the
    bytes it is given. *)
From S2P Require Import Prelude Spinlock ProcDefs Proc Memory Kalloc Vm VmMap.
Local Open Scope Z_scope.
Local Open Scope kernel_scope.

Definition frame (m : mem) (pgdir va : Z) : option Z :=
  match maps m pgdir va with
  | Some e => if c_true (Z.land e PTE_U) then Some (P2V (PTE_ADDR e)) else None
  | None => None
  end.
Definition umem (m : mem) (pgdir va : Z) : Z :=
  match frame m pgdir va with Some x => m (x + va mod 4096) | None => 0 end.

Section Copy.
Context (kend : Z) {R : Type}.
Local Abbreviation page_ok := (page_ok kend).
Local Abbreviation table_inv := (table_inv kend).

(** A page that is none of the directory, the page tables [ts] and the free pages [l]. *)
Definition apart (x pgdir : Z) (ts l : list Z) : Prop := page_ok x /\ x <> pgdir /\ (x ∉ ts) /\ (x ∉ l).

(** The user pages are [us], the page tables [ts], the free pages [l]. *)
Record space (s : kmem) (pgdir : Z) (ts us l : list Z) : Prop := {
  sp_tables : table_inv s pgdir ts l;
  sp_apart x : x ∈ us -> apart x pgdir ts l;
  sp_in va x : 0 <= va < 2 ^ 32 -> frame (kram s) pgdir va = Some x -> x ∈ us;
  sp_inj va va' x : 0 <= va < 2 ^ 32 -> 0 <= va' < 2 ^ 32 ->
    frame (kram s) pgdir va = Some x -> frame (kram s) pgdir va' = Some x -> va / 4096 = va' / 4096
}.

(** Outside the user pages. *)
Definition outside (us : list Z) (a : Z) : Prop := forall x, x ∈ us -> a < x \/ x + 4096 <= a.

Lemma maps_page m pgdir va va' : va / 4096 = va' / 4096 -> maps m pgdir va = maps m pgdir va'.
Proof.
  intros Hp. assert (PDX va = PDX va' /\ PTX va = PTX va') as [H1 H2].
  { rewrite !PDX_div, !PTX_div. change (2 ^ 22) with (4096 * 1024). by rewrite <- !Z.div_div, Hp by lia. }
  unfold maps. by rewrite H1, H2.
Qed.
Lemma frame_page m pgdir va va' : va / 4096 = va' / 4096 -> frame m pgdir va = frame m pgdir va'.
Proof. intros Hp. unfold frame. by rewrite (maps_page _ _ _ _ Hp). Qed.

(** Writing in a page apart from the tables changes no translation. *)
Lemma pde_keep s pgdir ts l x m' i :
  table_inv s pgdir ts l -> apart x pgdir ts l -> within x (kram s) m' -> 0 <= i < 1024 -> pde m' pgdir i = pde (kram s) pgdir i.
Proof. intros Ht (Hx & Hd & _) Hw Hi. apply (pde_within kend (kram s) m' x pgdir); [done|apply Ht|done..]. Qed.

Lemma maps_within s pgdir ts l x m' va :
  table_inv s pgdir ts l -> apart x pgdir ts l -> within x (kram s) m' -> maps m' pgdir va = maps (kram s) pgdir va.
Proof.
  intros Ht Hap Hw. destruct Hap as (Hxp & Hd & Hnt & Hnl) eqn:Hap'. clear Hap'.
  pose proof (PDX_range va) as Hi. pose proof (PTX_range va) as Hj. unfold maps, tab. rewrite (pde_keep s pgdir ts l x m') by done.
  destruct (present (pde (kram s) pgdir (PDX va))) eqn:Hp; [|done]. fold (tab (kram s) pgdir (PDX va)).
  destruct (tab_page kend _ _ _ _ _ Ht Hi Hp) as (Htp & _ & _). pose proof (ti_in _ _ _ _ _ Ht _ Hi Hp) as Hin.
  assert (Hne : x <> tab (kram s) pgdir (PDX va)) by (intros ->; done).
  rewrite (within_word kend x _ (kram s) m'); [done|done|done|done|done|lia|unfold PGSIZE; lia].
Qed.

Lemma frame_within s pgdir ts l x m' va :
  table_inv s pgdir ts l -> apart x pgdir ts l -> within x (kram s) m' -> frame m' pgdir va = frame (kram s) pgdir va.
Proof. intros Ht Hx Hw. unfold frame. by rewrite (maps_within _ _ _ _ _ _ _ Ht Hx Hw). Qed.

Lemma space_within s pgdir ts us l x m' :
  space s pgdir ts us l -> apart x pgdir ts l -> within x (kram s) m' -> bytes m' -> space (s <| kram := m' |>) pgdir ts us l.
Proof.
  intros Hs Hx Hw Hb. pose proof (sp_tables _ _ _ _ _ Hs) as Ht.
  assert (Hf : forall va, frame m' pgdir va = frame (kram s) pgdir va) by (intros; by eapply frame_within).
  assert (Hp : forall i, 0 <= i < 1024 -> pde m' pgdir i = pde (kram s) pgdir i) by (intros; by eapply pde_keep).
  destruct Hs as [[Hm Hdir Htabs Hnd Hin Hinj] Hap Hsi Hsj]. split; [split| | |]; try done.
  - apply (kmem_write kend s l x m'); try done; apply Hx.
  - cbn. intros i Hi. unfold tab. rewrite Hp by done. by apply Hin.
  - cbn. intros i j Hi Hj. unfold tab. rewrite !Hp by done. by apply Hinj.
  - cbn. intros va y Hva. rewrite Hf. by apply Hsi.
  - cbn. intros va va' y Hva Hva'. rewrite !Hf. by apply Hsj.
Qed.

Lemma page_index va : 0 <= va -> PDX (va - va mod 4096) = PDX va /\ PTX (va - va mod 4096) = PTX va.
Proof.
  intros Hva. assert ((va - va mod 4096) / 4096 = va / 4096) as Hp.
  { pose proof (Z.div_mod va 4096). replace (va - va mod 4096) with (va / 4096 * 4096) by lia. by rewrite Z.div_mul. }
  rewrite !PDX_div, !PTX_div. change (2 ^ 22) with (4096 * 1024). by rewrite <- !Z.div_div, Hp by lia.
Qed.

Lemma uva2ka_run s pgdir ts us l va :
  space s pgdir ts us l -> 0 <= va < 2 ^ 32 -> present (pde (kram s) pgdir (PDX va)) = true ->
  uva2ka (R := R) pgdir (PGROUNDDOWN va) s = Ret (default 0 (frame (kram s) pgdir va)) s.
Proof.
  intros Hs Hva Hp. rewrite PGROUNDDOWN_eq. unfold uva2ka, walkpgdir. destruct (page_index va) as [-> ->]; [lia|]. cbv zeta. unfold rd.
  rewrite bind_assoc, bind_gets. fold (pde (kram s) pgdir (PDX va)). fold (present (pde (kram s) pgdir (PDX va))). rewrite Hp, bind_ret.
  fold (tab (kram s) pgdir (PDX va)). pose proof (PTX_range va). pose proof (PDX_range va) as Hi.
  destruct (tab_page kend _ _ _ _ _ (sp_tables _ _ _ _ _ Hs) Hi Hp) as ([Hpos _] & _). rewrite (proj2 (Z.eqb_neq _ _)) by lia.
  rewrite bind_gets. unfold frame, maps. rewrite Hp. unfold present at 1. destruct (c_true _); cbn [negb]; [|done]. by destruct (c_true _).
Qed.

Definition in_range (va n a : Z) : bool := (va <=? a) && (a <? va + n).

(** One memmove of the loop: [n] bytes at [va], in the user page [x]. *)
Lemma copy_page s pgdir ts us l va x p n :
  space s pgdir ts us l -> 0 <= va -> va + n <= 2 ^ 32 -> frame (kram s) pgdir va = Some x -> 0 < n <= 4096 - va mod 4096 ->
  let m' := memmove (kram s) (x + va mod 4096) p n in
  space (s <| kram := m' |>) pgdir ts us l /\
  (forall a, frame m' pgdir a = frame (kram s) pgdir a) /\
  (forall i, 0 <= i < 1024 -> pde m' pgdir i = pde (kram s) pgdir i) /\
  (forall a, outside us a -> m' a = kram s a) /\
  (forall a, 0 <= a < 2 ^ 32 -> umem m' pgdir a = if in_range va n a then kram s (p + (a - va)) else umem (kram s) pgdir a).
Proof.
  intros Hs Hva Hend Hf Hn m'. pose proof (Z.mod_pos_bound va 4096) as Ho.
  pose proof (sp_apart _ _ _ _ _ Hs x (sp_in _ _ _ _ _ Hs va x ltac:(lia) Hf)) as Hx. pose proof (sp_tables _ _ _ _ _ Hs) as Ht. pose proof (ti_mem _ _ _ _ _ (sp_tables _ _ _ _ _ Hs)) as [Hb _].
  assert (Hm : forall a, m' a = moved (kram s) (x + va mod 4096) p n a) by (intros; apply memmove_spec; [done|lia]). unfold moved in Hm.
  assert (Hw : within x (kram s) m').
  { intros a Ha. rewrite Hm. unfold PGSIZE in Ha. destruct (Z.leb_spec (x + va mod 4096) a), (Z.ltb_spec a (x + va mod 4096 + n)); cbn [andb]; lia || done. }
  assert (Hb' : bytes m') by (intros a; rewrite Hm; case_match; apply Hb).
  assert (Hfr : forall a, frame m' pgdir a = frame (kram s) pgdir a) by (intros; by eapply frame_within).
  split; [by eapply space_within|]. split; [done|]. split; [intros; by eapply pde_keep|].
  split; [intros a Ha; apply Hw; unfold PGSIZE; apply Ha; apply (sp_in _ _ _ _ _ Hs va x ltac:(lia) Hf)|]. intros a Ha. unfold umem. rewrite Hfr.
  pose proof (Z.div_mod va 4096). pose proof (Z.div_mod a 4096). pose proof (Z.mod_pos_bound a 4096).
  destruct (in_range va n a) eqn:Hin.
  - unfold in_range in Hin. to_prop. assert (a / 4096 = va / 4096) as Hpg by (symmetry; apply (Z.div_unique_pos a 4096 (va / 4096) (a - va + va mod 4096)); lia).
    rewrite (frame_page _ _ a va), Hf by done. rewrite Hm, (proj2 (Z.leb_le _ _)), (proj2 (Z.ltb_lt _ _)) by lia. cbn [andb]. f_equal. lia.
  - destruct (frame (kram s) pgdir a) as [y|] eqn:Hy; [|done]. rewrite Hm. destruct (_ && _) eqn:Hc; [|done]. exfalso.
    destruct (decide (y = x)) as [->|Hne].
    + pose proof (sp_inj _ _ _ _ _ Hs a va x Ha ltac:(lia) Hy Hf). unfold in_range in Hin. to_prop. apply andb_false_iff in Hin as [Hin|Hin]; to_prop; lia.
    + destruct (sp_apart _ _ _ _ _ Hs y (sp_in _ _ _ _ _ Hs a y Ha Hy)) as [Hyp _]. destruct Hx as [Hxp _].
      to_prop. destruct (pages_apart kend x y); [done|done|done|unfold PGSIZE in *; lia..].
Qed.

(** What a copy of [len] bytes from [p] to [va] does. *)
Record copied (s s' : kmem) (pgdir : Z) (ts us l : list Z) (va p len r : Z) : Prop := {
  cp_space : space s' pgdir ts us l;
  cp_frame a : frame (kram s') pgdir a = frame (kram s) pgdir a;
  cp_kernel a : outside us a -> kram s' a = kram s a;
  cp_result : (r = 0 /\ (forall a, va <= a < va + len -> is_Some (frame (kram s) pgdir a)) /\
      forall a, 0 <= a < 2 ^ 32 -> umem (kram s') pgdir a = if in_range va len a then kram s (p + (a - va)) else umem (kram s) pgdir a) \/
    (r = -1 /\ exists a, va <= a < va + len /\ frame (kram s) pgdir a = None)
}.

Definition tables_for (s : kmem) (pgdir va len : Z) : Prop :=
  forall a, va <= a < va + len -> present (pde (kram s) pgdir (PDX a)) = true.

Lemma copied_step s s1 s2 pgdir ts us l va p len n r :
  0 < n <= len -> (forall i, 0 <= i < len -> outside us (p + i)) ->
  copied s s1 pgdir ts us l va p n 0 -> copied s1 s2 pgdir ts us l (va + n) (p + n) (len - n) r ->
  copied s s2 pgdir ts us l va p len r.
Proof.
  intros Hn Hsrc [_ Hf1 Hk1 Hr1] [Hs2 Hf2 Hk2 Hr2]. destruct Hr1 as [(_ & Ha1 & Hu1)|[? _]]; [|done]. split; [done| | |].
  - intros a. by rewrite Hf2, Hf1.
  - intros a Ha. by rewrite Hk2, Hk1.
  - destruct Hr2 as [(-> & Ha2 & Hu2)|(-> & a & Ha & Hfa)]; [left|right].
    + split; [done|]. split.
      * intros a Ha. destruct (decide (a < va + n)); [apply Ha1; lia|]. rewrite <-Hf1. apply Ha2. lia.
      * intros a Ha. rewrite Hu2, Hu1 by done. unfold in_range.
        destruct (Z.leb_spec (va + n) a), (Z.ltb_spec a (va + n + (len - n))), (Z.leb_spec va a), (Z.ltb_spec a (va + n)), (Z.ltb_spec a (va + len));
          cbn [andb]; try lia; try done. replace (p + n + (a - (va + n))) with (p + (a - va)) by lia. apply Hk1, Hsrc. lia.
    + split; [done|]. exists a. rewrite Hf1 in Hfa. split; [lia|done].
Qed.

Lemma copied_nil s pgdir ts us l va p : space s pgdir ts us l -> copied s s pgdir ts us l va p 0 0.
Proof.
  intros Hs. split; try done. left. split; [done|]. split; [intros; lia|]. intros a _. unfold in_range.
  destruct (Z.leb_spec va a), (Z.ltb_spec a (va + 0)); cbn [andb]; lia || done.
Qed.

Lemma copied_page s pgdir ts us l va x p n :
  space s pgdir ts us l -> 0 <= va -> va + n <= 2 ^ 32 -> frame (kram s) pgdir va = Some x -> 0 < n <= 4096 - va mod 4096 ->
  copied s (s <| kram := memmove (kram s) (x + va mod 4096) p n |>) pgdir ts us l va p n 0.
Proof.
  intros Hs Hva Hend Hf Hn. destruct (copy_page s pgdir ts us l va x p n Hs Hva Hend Hf Hn) as (Hs' & Hfr & _ & Hk & Hu).
  split; [done..|]. left. split; [done|]. split; [|done]. intros a Ha. exists x. rewrite <-Hf. apply frame_page.
  pose proof (Z.mod_pos_bound va 4096). pose proof (Z.div_mod va 4096). symmetry. apply (Z.div_unique_pos a 4096 (va / 4096) (a - va + va mod 4096)); lia.
Qed.

Lemma copyout_loop_run k s pgdir ts us l va p len :
  space s pgdir ts us l -> 0 <= va -> 0 <= len -> va + len < 2 ^ 32 -> tables_for s pgdir va len ->
  (forall i, 0 <= i < len -> outside us (p + i)) -> va mod 4096 + len <= Z.of_nat k * 4096 ->
  exists r s', copyout_loop (R := R) (S k) pgdir va p len s = Ret r s' /\ copied s s' pgdir ts us l va p len r.
Proof.
  revert s va p len. induction k as [|k IH]; intros s va p len Hs Hva Hlen Hend Htab Hsrc Hk; pose proof (Z.mod_pos_bound va 4096) as Ho;
    (destruct (decide (len = 0)) as [->|Hne]; [exists 0, s; split; [done|by apply copied_nil]|]); [lia|].
  remember (S k) as k1 eqn:Hk1. cbn [copyout_loop]. rewrite (proj2 (Z.ltb_lt 0 len)) by lia. cbv zeta.
  erewrite bind_ret_eq; [|eapply uva2ka_run; [exact Hs|lia|apply Htab; lia]]. rewrite PGROUNDDOWN_eq. unfold PGSIZE.
  replace (va - (va - va mod 4096)) with (va mod 4096) by lia. set (n := if len <? _ then _ else _).
  assert (Hn : n = Z.min len (4096 - va mod 4096)) by (unfold n; destruct (Z.ltb_spec len (4096 - va mod 4096)); lia).
  destruct (frame (kram s) pgdir va) as [x|] eqn:Hf; [change (default 0 (Some x)) with x|].
  2:{ exists (-1), s. split; [done|]. split; try done. right. split; [done|]. exists va. split; [lia|done]. }
  destruct (sp_apart _ _ _ _ _ Hs x (sp_in _ _ _ _ _ Hs va x ltac:(lia) Hf)) as [[Hx0 _] _].
  rewrite (proj2 (Z.eqb_neq x 0)) by lia. unfold kmemmove. rewrite bind_modify.
  pose proof (copied_page s pgdir ts us l va x p n Hs Hva ltac:(lia) Hf ltac:(lia)) as Hc.
  set (s1 := s <| kram := memmove (kram s) (x + va mod 4096) p n |>) in *.
  change (s <| kram ::= fun m => memmove m (x + va mod 4096) p n |>) with s1.
  destruct (decide (n = len)) as [Heq|Hlt].
  - exists 0, s1. rewrite Hk1. cbn [copyout_loop]. rewrite (proj2 (Z.ltb_ge 0 (len - n))) by lia. split; [done|]. by rewrite Heq in Hc.
  - assert (Hva' : u32 (va - va mod 4096 + 4096) = va + n) by (rewrite u32_small; lia). rewrite Hva'. subst k1.
    destruct (copy_page s pgdir ts us l va x p n Hs Hva ltac:(lia) Hf ltac:(lia)) as (Hs1 & _ & Hpde & _).
    destruct (IH s1 (va + n) (p + n) (len - n)) as (r & s2 & E & Hc2); [done|lia|lia|lia|..].
    + intros a Ha. cbn. rewrite Hpde by apply PDX_range. apply Htab. lia.
    + intros i Hi. rewrite <-Z.add_assoc. apply Hsrc. lia.
    + replace ((va + n) mod 4096) with 0; [lia|]. replace (va + n) with ((va / 4096 + 1) * 4096) by (pose proof (Z.div_mod va 4096); lia). by rewrite Z.mod_mul.
    + exists r, s2. split; [exact E|]. by apply (copied_step s s1 s2 _ _ _ _ _ _ _ n); [lia|..].
Qed.

(** C10: Copying to user memory.  In an address space whose tables cover the range, and
    from kernel memory that is no user page, [copyout] ends; it returns 0 exactly when
    user code can reach every byte of the range, and then user memory has the bytes
    there and is otherwise as before; else it returns -1.  Translations, page tables
    and kernel memory are as before in both cases. *)
Theorem copyout_copies s pgdir ts us l va p len :
  space s pgdir ts us l -> 0 <= va -> 0 <= len -> va + len < 2 ^ 32 -> tables_for s pgdir va len ->
  (forall i, 0 <= i < len -> outside us (p + i)) ->
  exists r s', copyout (R := R) pgdir va p len s = Ret r s' /\ copied s s' pgdir ts us l va p len r.
Proof.
  intros Hs Hva Hlen Hend Htab Hsrc. apply copyout_loop_run; try done.
  pose proof (Z.mod_pos_bound va 4096). pose proof (Z.div_mod len 4096). pose proof (Z.mod_pos_bound len 4096).
  assert (0 <= len / 4096) by (apply Z.div_pos; lia). unfold PGSIZE. lia.
Qed.
End Copy.

(** ** An address space with one user page *)

(** The directory at 0x80300000, its first table at 0x80301000, the page of address 0
    at 0x80302000; the bytes 0, 1, 2, ... at 0x80303000. *)
Definition base_mem : mem := fun a => if in_range 0x80303000 4096 a then u8 a else 0.
Definition one_page : kmem := Kmem (store32 (store32 base_mem 0x80301000 0x302007) 0x80300000 0x301007) true 0 false.

Lemma load32_zero m a : (forall i, 0 <= i < 4 -> m (a + i) = 0) -> load32 m a = 0.
Proof. intros Hm. rewrite (load32_ext (fun _ => 0) m a) by done. done. Qed.

Lemma base_zero a : a < 0x80303000 -> base_mem a = 0.
Proof. intros Ha. unfold base_mem, in_range. by rewrite (proj2 (Z.leb_gt _ _)) by lia. Qed.

Lemma one_pde i : 0 <= i < 1024 -> pde (kram one_page) 0x80300000 i = if i =? 0 then 0x301007 else 0.
Proof.
  intros Hi. destruct (Z.eqb_spec i 0) as [->|Hne]; [by vm_compute|]. apply load32_zero. intros k Hk. cbn -[store32 base_mem].
  rewrite !store32_other by lia. apply base_zero. lia.
Qed.

Lemma one_pte j : 0 <= j < 1024 -> load32 (kram one_page) (0x80301000 + 4 * j) = if j =? 0 then 0x302007 else 0.
Proof.
  intros Hi. destruct (Z.eqb_spec j 0) as [->|Hne]; [by vm_compute|]. apply load32_zero. intros k Hk. cbn -[store32 base_mem].
  rewrite !store32_other by lia. apply base_zero. lia.
Qed.

Lemma one_frame va : 0 <= va < 2 ^ 32 -> frame (kram one_page) 0x80300000 va = if va / 4096 =? 0 then Some 0x80302000 else None.
Proof.
  intros Hva. unfold frame, maps, tab. pose proof (PDX_range va). pose proof (PTX_range va). rewrite one_pde by done.
  assert (Hpg : va / 4096 = PDX va * 1024 + PTX va).
  { rewrite PDX_div, PTX_div. change (2 ^ 22) with (4096 * 1024). rewrite <-Z.div_div by lia.
    rewrite (Z.mod_small (va / 4096 / 1024)) by (split; [apply Z.div_pos; [apply Z.div_pos|]; lia|rewrite Z.div_div by lia; apply Z.div_lt_upper_bound; lia]).
    pose proof (Z.div_mod (va / 4096) 1024). lia. }
  rewrite Hpg. destruct (Z.eqb_spec (PDX va) 0) as [->|Hne].
  - change (P2V (PTE_ADDR 0x301007)) with 0x80301000. change (present 0x301007) with true. cbv iota zeta. rewrite one_pte by done. rewrite Z.mul_0_l, Z.add_0_l.
    by destruct (PTX va =? 0).
  - change (present 0) with false. cbv iota. by rewrite (proj2 (Z.eqb_neq _ _)) by lia.
Qed.

Lemma one_page_space : space 0x80100000 one_page 0x80300000 [0x80301000] [0x80302000] [].
Proof.
  assert (Hok : forall x, x ∈ [0x80300000; 0x80301000; 0x80302000] -> Kalloc.page_ok 0x80100000 x).
  { intros x Hx. rewrite !elem_of_cons, elem_of_nil in Hx. destruct Hx as [->|[->|[->|[]]]]; (split; [lia|reflexivity]). }
  split; [split| | |].
  - split_and!; [|done|apply NoDup_nil_2|done|done]. cbn -[store32]. do 2 apply bytes_store32. intros a. unfold base_mem. destruct (in_range _ _ _); [apply u8_range|lia].
  - apply Hok. set_solver.
  - apply Forall_singleton, Hok. set_solver.
  - vm_compute. repeat constructor; set_solver.
  - intros i Hi. unfold tab. rewrite one_pde by done. destruct (i =? 0); [|done]. intros _. vm_compute. set_solver.
  - intros i j Hi Hj. unfold tab. rewrite !one_pde by done. destruct (Z.eqb_spec i 0), (Z.eqb_spec j 0); by subst.
  - intros x ->%list_elem_of_singleton. split; [apply Hok; set_solver|]. split_and!; [done|set_solver..].
  - intros va x Hva. rewrite one_frame by done. destruct (_ =? 0); [|done]. intros [= <-]. set_solver.
  - intros va va' x Hva Hva'. rewrite !one_frame by done. destruct (Z.eqb_spec (va / 4096) 0), (Z.eqb_spec (va' / 4096) 0); try done. congruence.
Qed.

Lemma copyout_copies_witness :
  exists s', copyout (R := unit) 0x80300000 5 0x80303001 3 one_page = Ret 0 s' /\
    map (umem (kram s') 0x80300000) [4; 5; 6; 7; 8] = [0; 1; 2; 3; 0].
Proof.
  destruct (copyout_copies 0x80100000 (R := unit) one_page 0x80300000 [0x80301000] [0x80302000] [] 5 0x80303001 3 one_page_space)
    as (r & s' & E & Hc); [lia|lia|lia|..].
  - intros a Ha. rewrite one_pde by apply PDX_range. assert (PDX a = 0) as ->; [|reflexivity].
    rewrite PDX_div, Z.div_small by lia. reflexivity.
  - intros i Hi x ->%list_elem_of_singleton. lia.
  - exists s'. destruct (cp_result _ _ _ _ _ _ _ _ _ _ _ Hc) as [(-> & _ & Hu)|(_ & a & Ha & Hf)].
    + split; [exact E|]. cbn [map]. rewrite !Hu by lia. vm_compute. reflexivity.
    + exfalso. rewrite one_frame, Z.div_small in Hf by lia. discriminate Hf.
Defined.
