(* ===== verification/FsDefs.v ===== *)
(** * The file system's data, its sleep locks and the disk driver interface

    Models buf.h, sleeplock.h, fs.h, file.h, the data of bio.c, log.c, fs.c,
    file.c and pipe.c, and the operations of sleeplock.c.  All of these
    components run on one state [fsys D]; [D] is the state of the disk driver,
    reached through the class [Driver].  A pointer to a slot of a table is the
    index of the slot.  [Stop a] is a run that sleeps on the address [a]: the
    loop around that [sleep] tests its condition again when the thread runs
    next.  [wakeup] calls are recorded in the order they are made. *)
From S2P Require Import Prelude Bytes Memory Spinlock ProcDefs Kalloc.
Local Open Scope Z_scope.
Local Open Scope kernel_scope.

(** ** Constants (param.h, fs.h, buf.h, stat.h, file.h, pipe.c) *)
Definition NFILE : nat := 100.
Definition NINODE : nat := 50.
Definition NDEV : Z := 10.
Definition ROOTDEV : Z := 1.
Definition MAXOPBLOCKS : Z := 10.
Definition LOGSIZE : nat := 30.
Definition NBUF : nat := 30.
Definition ROOTINO : Z := 1.
Definition BSIZE : Z := 512.
Definition NDIRECT : Z := 12.
Definition NINDIRECT : Z := 128.
Definition MAXFILE : Z := NDIRECT + NINDIRECT.
Definition IPB : Z := 8.
Definition BPB : Z := BSIZE * 8.
Definition DIRSIZ : nat := 14.
Definition B_VALID : Z := 2.
Definition B_DIRTY : Z := 4.
Definition T_DIR : Z := 1.
Definition T_FILE : Z := 2.
Definition T_DEV : Z := 3.
Definition PIPESIZE : Z := 512.

(** ** Data *)

(** [struct sleeplock]; [sl_lk] is the state of its spin lock. *)
Record sleeplock := Sleeplock {
  sl_locked : Z;
  sl_lk : bool;
  sl_name : string;
  sl_pid : Z
}.
#[export] Instance sleeplock_eta : Eta sleeplock := fun r =>
  Sleeplock (sl_locked r) (sl_lk r) (sl_name r) (sl_pid r).

(** [struct buf].  The pointers of the LRU list are indices into
    [bcache.buf], and [NBUF] is [&bcache.head]. *)
Record buf := Buf {
  bflags : Z;
  bdev : Z;
  blockno : Z;
  block : sleeplock;
  brefcnt : Z;
  bprev : nat;
  bnext : nat;
  bqnext : option nat;
  bdata : list Z
}.
#[export] Instance buf_eta : Eta buf := fun r =>
  Buf (bflags r) (bdev r) (blockno r) (block r) (brefcnt r) (bprev r) (bnext r) (bqnext r) (bdata r).

(** [struct log] with its [struct logheader]. *)
Record logst := Logst {
  lg_lock : bool;
  lg_start : Z;
  lg_size : Z;
  outstanding : Z;
  committing : Z;
  lg_dev : Z;
  lh_n : Z;
  lh_block : list Z
}.
#[export] Instance logst_eta : Eta logst := fun r =>
  Logst (lg_lock r) (lg_start r) (lg_size r) (outstanding r) (committing r) (lg_dev r) (lh_n r)
        (lh_block r).

(** [struct superblock] *)
Record superblock := Superblock {
  sb_size : Z;
  sb_nblocks : Z;
  sb_ninodes : Z;
  sb_nlog : Z;
  sb_logstart : Z;
  sb_inodestart : Z;
  sb_bmapstart : Z
}.
#[export] Instance superblock_eta : Eta superblock := fun r =>
  Superblock (sb_size r) (sb_nblocks r) (sb_ninodes r) (sb_nlog r) (sb_logstart r)
             (sb_inodestart r) (sb_bmapstart r).

(** [struct inode] *)
Record inode := Inode {
  idev : Z;
  inum : Z;
  iref : Z;
  ilk : sleeplock;
  ivalid : Z;
  itype : Z;
  imajor : Z;
  iminor : Z;
  inlink : Z;
  isize : Z;
  iaddrs : list Z
}.
#[export] Instance inode_eta : Eta inode := fun r =>
  Inode (idev r) (inum r) (iref r) (ilk r) (ivalid r) (itype r) (imajor r) (iminor r) (inlink r)
        (isize r) (iaddrs r).

(** [struct file] *)
Inductive ftype := FD_NONE | FD_PIPE | FD_INODE.
#[export] Instance ftype_eq : EqDecision ftype.
Proof. solve_decision. Defined.

Record file := File {
  f_type : ftype;
  f_ref : Z;
  f_readable : Z;
  f_writable : Z;
  f_pipe : Z;
  f_ip : nat;
  f_off : Z
}.
#[export] Instance file_eta : Eta file := fun r =>
  File (f_type r) (f_ref r) (f_readable r) (f_writable r) (f_pipe r) (f_ip r) (f_off r).

(** [struct pipe]; a pipe lives in the page at its address. *)
Record pipe := Pipe {
  p_lock : bool;
  p_data : list Z;
  p_nread : Z;
  p_nwrite : Z;
  p_readopen : Z;
  p_writeopen : Z
}.
#[export] Instance pipe_eta : Eta pipe := fun r =>
  Pipe (p_lock r) (p_data r) (p_nread r) (p_nwrite r) (p_readopen r) (p_writeopen r).

(** What the code reads and writes of the running process and thread: [pid],
    [killed], [cwd], [ofile] and [sz] of [myproc()], [tf->esp] of [mythread()]
    and the user memory. *)
Record curproc := Curproc {
  c_pid : Z;
  c_killed : Z;
  c_cwd : nat;
  c_ofile : list (option nat);
  c_sz : Z;
  c_esp : Z;
  c_mem : mem
}.
#[export] Instance curproc_eta : Eta curproc := fun r =>
  Curproc (c_pid r) (c_killed r) (c_cwd r) (c_ofile r) (c_sz r) (c_esp r) (c_mem r).

Record fsys (D : Type) := Fsys {
  cur : curproc;
  wakes : list kaddr;
  disk : D;
  bc_lock : bool;
  bufs : list buf;
  lg : logst;
  sb : superblock;
  ic_lock : bool;
  inodes : list inode;
  ft_lock : bool;
  files : list file;
  pipes : gmap Z pipe;
  pages : kmem
}.
Arguments Fsys {D}.
Arguments cur {D}. Arguments wakes {D}. Arguments disk {D}. Arguments bc_lock {D}.
Arguments bufs {D}. Arguments lg {D}. Arguments sb {D}. Arguments ic_lock {D}.
Arguments inodes {D}. Arguments ft_lock {D}. Arguments files {D}. Arguments pipes {D}.
Arguments pages {D}.
#[export] Instance fsys_eta {D} : Eta (fsys D) := fun r =>
  Fsys (cur r) (wakes r) (disk r) (bc_lock r) (bufs r) (lg r) (sb r) (ic_lock r) (inodes r)
       (ft_lock r) (files r) (pipes r) (pages r).

(** The entry of the disk driver that bio.c calls. *)
Class Driver (D : Type) := { iderw : nat -> M (fsys D) kaddr unit }.

(** Sleep locks, by the object they are in. *)
Inductive slock := BufLock (i : nat) | InodeLock (i : nat).

Section FsDefs.
Context {D : Type}.
Definition F (A : Type) : Type := M (fsys D) kaddr A.

(** [b->f], [ip->f], ... through a valid pointer. *)
Definition buf_at (i : nat) : F buf :=
  do o <- gets (fun s => bufs s !! i); derefM "buf" o.
Definition upd_buf (i : nat) (f : buf -> buf) : F unit :=
  do _ <- buf_at i; modify (fun s => s <| bufs ::= alter f i |>).
Definition inode_at (i : nat) : F inode :=
  do o <- gets (fun s => inodes s !! i); derefM "inode" o.
Definition upd_inode (i : nat) (f : inode -> inode) : F unit :=
  do _ <- inode_at i; modify (fun s => s <| inodes ::= alter f i |>).
Definition upd_log (f : logst -> logst) : F unit := modify (fun s => s <| lg ::= f |>).
(** An access that C leaves undefined outside its object. *)
Definition orUndef {A} (what : string) (o : option A) : F A := derefM what o.

(** [wakeup(chan)] *)
Definition wakeup (a : kaddr) : F unit := modify (fun s => s <| wakes ::= fun l => l ++ [a] |>).

Definition bcache_acquire : F unit := lock_acq bc_lock (fun b s => s <| bc_lock := b |>).
Definition bcache_release : F unit := lock_rel bc_lock (fun b s => s <| bc_lock := b |>).
Definition icache_acquire : F unit := lock_acq ic_lock (fun b s => s <| ic_lock := b |>).
Definition icache_release : F unit := lock_rel ic_lock (fun b s => s <| ic_lock := b |>).
Definition ftable_acquire : F unit := lock_acq ft_lock (fun b s => s <| ft_lock := b |>).
Definition ftable_release : F unit := lock_rel ft_lock (fun b s => s <| ft_lock := b |>).
Definition log_acquire : F unit :=
  lock_acq (fun s => lg_lock (lg s)) (fun b s => s <| lg ::= fun l => l <| lg_lock := b |> |>).
Definition log_release : F unit :=
  lock_rel (fun s => lg_lock (lg s)) (fun b s => s <| lg ::= fun l => l <| lg_lock := b |> |>).

(** ** sleeplock.c *)

Definition slock_addr (k : slock) : kaddr :=
  match k with BufLock i => ASleepLock i | InodeLock i => ASleepLock (NBUF + i) end.
Definition slock_get (k : slock) (s : fsys D) : option sleeplock :=
  match k with
  | BufLock i => block <$> bufs s !! i
  | InodeLock i => ilk <$> inodes s !! i
  end.
Definition slock_set (k : slock) (f : sleeplock -> sleeplock) (s : fsys D) : fsys D :=
  match k with
  | BufLock i => s <| bufs ::= alter (fun b => b <| block ::= f |>) i |>
  | InodeLock i => s <| inodes ::= alter (fun ip => ip <| ilk ::= f |>) i |>
  end.
Definition slock_at (k : slock) : F sleeplock :=
  do o <- gets (slock_get k); derefM "sleeplock" o.

(** [acquire(&lk->lk)] and [release(&lk->lk)] *)
Definition sl_acquire (k : slock) : F unit :=
  do l <- slock_at k;
  if sl_lk l then panic "acquire" else modify (slock_set k (fun l => l <| sl_lk := true |>)).
Definition sl_release (k : slock) : F unit :=
  do l <- slock_at k;
  if sl_lk l then modify (slock_set k (fun l => l <| sl_lk := false |>)) else panic "release".

Definition initsleeplock (name : string) (l : sleeplock) : sleeplock :=
  l <| sl_lk := false |> <| sl_name := name |> <| sl_locked := 0 |> <| sl_pid := 0 |>.

Definition acquiresleep (k : slock) : F unit :=
  sl_acquire k;;
  do l <- slock_at k;
  if c_true (sl_locked l) then sl_release k;; stop (slock_addr k) else
  modify (slock_set k (fun l => l <| sl_locked := 1 |>));;
  do me <- gets cur;
  modify (slock_set k (fun l => l <| sl_pid := c_pid me |>));;
  sl_release k.

Definition releasesleep (k : slock) : F unit :=
  sl_acquire k;;
  modify (slock_set k (fun l => l <| sl_locked := 0 |>));;
  modify (slock_set k (fun l => l <| sl_pid := 0 |>));;
  wakeup (slock_addr k);;
  sl_release k.

Definition holdingsleep (k : slock) : F bool :=
  sl_acquire k;;
  do l <- slock_at k;
  do me <- gets cur;
  let r := c_true (sl_locked l) && (sl_pid l =? c_pid me) in
  sl_release k;;
  ret r.
End FsDefs.
Arguments F : clear implicits.

(** ** Runs of the helpers and of the sleep locks *)

(** Runs the first call of a sequence of which the outcome is known. *)
Ltac runs1 H := rewrite (bind_ret_eq _ _ _ _ _ H).

Section Runs.
Context {D : Type}.
Implicit Types s : fsys D.

Lemma buf_at_run s i b : bufs s !! i = Some b -> buf_at i s = Ret b s.
Proof. unfold buf_at. intros H. rewrite bind_gets, H. done. Qed.

Lemma upd_buf_run s i b f :
  bufs s !! i = Some b -> upd_buf i f s = Ret tt (s <| bufs := <[i := f b]> (bufs s) |>).
Proof.
  intros H. unfold upd_buf. runs1 (buf_at_run _ _ _ H). unfold modify. destruct s; cbn in *.
  by rewrite (list_alter_insert _ _ _ _ H).
Qed.

Lemma inode_at_run s i b : inodes s !! i = Some b -> inode_at i s = Ret b s.
Proof. unfold inode_at. intros H. rewrite bind_gets, H. done. Qed.

Lemma upd_inode_run s i b f :
  inodes s !! i = Some b -> upd_inode i f s = Ret tt (s <| inodes := <[i := f b]> (inodes s) |>).
Proof.
  intros H. unfold upd_inode. runs1 (inode_at_run _ _ _ H). unfold modify. destruct s; cbn in *.
  by rewrite (list_alter_insert _ _ _ _ H).
Qed.

Lemma slock_get_set k f s : slock_get k (slock_set k f s) = f <$> slock_get k s.
Proof.
  destruct k, s; cbn; rewrite list_lookup_alter_eq, <-!option_fmap_compose; done.
Qed.

Lemma slock_set_set k f g s : slock_set k f (slock_set k g s) = slock_set k (f ∘ g) s.
Proof.
  destruct k, s; cbn; by rewrite list_alter_alter.
Qed.

Lemma slock_set_id k f s l : slock_get k s = Some l -> f l = l -> slock_set k f s = s.
Proof.
  destruct k as [i|i], s; cbn; intros (b & Hb & ->)%fmap_Some Hf;
    rewrite (list_alter_insert _ _ _ _ Hb), list_insert_id; try done;
    rewrite Hb; f_equal; destruct b; cbn in *; by rewrite Hf.
Qed.

Lemma slock_set_ext k f g s l :
  slock_get k s = Some l -> f l = g l -> slock_set k f s = slock_set k g s.
Proof.
  destruct k as [i|i], s; cbn; intros (b & Hb & ->)%fmap_Some Hf;
    rewrite !(list_alter_insert _ _ _ _ Hb); destruct b; cbn in *; by rewrite Hf.
Qed.

Lemma slock_set_cur k f s : cur (slock_set k f s) = cur s.
Proof. by destruct k, s. Qed.

Lemma slock_set_wakes k f s : wakes (slock_set k f s) = wakes s.
Proof. by destruct k, s. Qed.
End Runs.

(** ** Sleep locks: what their operations do

    The exact outcome of [acquiresleep], [releasesleep] and [holdingsleep] on a lock
    whose inner spin lock is free, for a lock in a buffer or in an inode alike. *)

(** The state of a sleep lock, as its users see it. *)
Definition sl_held (pid : Z) (l : sleeplock) : sleeplock := l <| sl_locked := 1 |> <| sl_pid := pid |>.
Definition sl_free (l : sleeplock) : sleeplock := l <| sl_locked := 0 |> <| sl_pid := 0 |>.

Section Sleeplock.
Context {D : Type}.
Implicit Types s : fsys D.

Lemma slock_at_run k s l : slock_get k s = Some l -> slock_at k s = Ret l s.
Proof. intros H. unfold slock_at. rewrite bind_gets, H. done. Qed.

Lemma sl_acquire_run k s l :
  slock_get k s = Some l -> sl_lk l = false ->
  sl_acquire k s = Ret tt (slock_set k (fun l => l <| sl_lk := true |>) s).
Proof. intros H Hl. unfold sl_acquire. runs1 (slock_at_run _ _ _ H). by rewrite Hl. Qed.

Lemma sl_release_run k s l :
  slock_get k s = Some l -> sl_lk l = true ->
  sl_release k s = Ret tt (slock_set k (fun l => l <| sl_lk := false |>) s).
Proof. intros H Hl. unfold sl_release. runs1 (slock_at_run _ _ _ H). by rewrite Hl. Qed.

Lemma acquiresleep_run k s l :
  slock_get k s = Some l -> sl_lk l = false ->
  acquiresleep k s =
    if c_true (sl_locked l) then Stop (slock_addr k) s
    else Ret tt (slock_set k (sl_held (c_pid (cur s))) s).
Proof.
  intros H Hl. unfold acquiresleep. runs1 (sl_acquire_run _ _ _ H Hl).
  set (s1 := slock_set k _ s).
  assert (H1 : slock_get k s1 = Some (l <| sl_lk := true |>)).
  { unfold s1. by rewrite slock_get_set, H. }
  runs1 (slock_at_run _ _ _ H1). cbn [sl_locked setter].
  change (sl_locked (l <| sl_lk := true |>)) with (sl_locked l).
  destruct (c_true (sl_locked l)) eqn:Hc.
  - runs1 (sl_release_run _ _ _ H1 eq_refl). unfold stop, s1. f_equal.
    rewrite slock_set_set. eapply slock_set_id; [exact H|]. destruct l; cbn in *; by subst.
  - rewrite bind_modify, bind_gets, bind_modify.
    set (s2 := slock_set k _ (slock_set k _ s1)).
    assert (H2 : slock_get k s2 =
      Some (l <| sl_lk := true |> <| sl_locked := 1 |> <| sl_pid := c_pid (cur s1) |>)).
    { unfold s2. by rewrite !slock_get_set, H1, slock_set_cur. }
    rewrite (sl_release_run _ _ _ H2 eq_refl). f_equal. unfold s2, s1.
    rewrite !slock_set_set. eapply slock_set_ext; [exact H|].
    rewrite !slock_set_cur. destruct l; cbn in *; by subst.
Qed.

Lemma holdingsleep_run k s l :
  slock_get k s = Some l -> sl_lk l = false ->
  holdingsleep k s = Ret (c_true (sl_locked l) && (sl_pid l =? c_pid (cur s))) s.
Proof.
  intros H Hl. unfold holdingsleep. runs1 (sl_acquire_run _ _ _ H Hl).
  set (s1 := slock_set k _ s).
  assert (H1 : slock_get k s1 = Some (l <| sl_lk := true |>)).
  { unfold s1. by rewrite slock_get_set, H. }
  runs1 (slock_at_run _ _ _ H1). rewrite bind_gets.
  runs1 (sl_release_run _ _ _ H1 eq_refl). unfold ret, s1. rewrite slock_set_cur. f_equal.
  rewrite slock_set_set. eapply slock_set_id; [exact H|]. destruct l; cbn in *; by subst.
Qed.

Lemma releasesleep_run k s l :
  slock_get k s = Some l -> sl_lk l = false ->
  releasesleep k s = Ret tt (slock_set k sl_free (s <| wakes ::= fun w => w ++ [slock_addr k] |>)).
Proof.
  intros H Hl. unfold releasesleep. runs1 (sl_acquire_run _ _ _ H Hl).
  rewrite !bind_modify. unfold wakeup. rewrite bind_modify.
  set (s2 := setter _ _).
  assert (H2 : slock_get k s2 = Some (l <| sl_lk := true |> <| sl_locked := 0 |> <| sl_pid := 0 |>)).
  { transitivity (slock_get k (slock_set k (fun l => l <| sl_pid := 0 |>)
      (slock_set k (fun l => l <| sl_locked := 0 |>) (slock_set k (fun l => l <| sl_lk := true |>) s)))).
    - unfold s2. by destruct k, s.
    - by rewrite !slock_get_set, H. }
  rewrite (sl_release_run _ _ _ H2 eq_refl). f_equal. unfold s2.
  transitivity (slock_set k sl_free s <| wakes ::= fun w => w ++ [slock_addr k] |>); [|by destruct k, s].
  assert (Hc : forall f (t : fsys D), slock_set k f (t <| wakes ::= fun w => w ++ [slock_addr k] |>)
     = slock_set k f t <| wakes ::= fun w => w ++ [slock_addr k] |>) by (intros; by destruct k, t).
  rewrite Hc. f_equal. rewrite !slock_set_set. eapply slock_set_ext; [exact H|].
  destruct l; cbn in *; by subst.
Qed.
End Sleeplock.
