(* ===== verification/Bio.v ===== *)
(** * The buffer cache: bio.c, and the memory disk driver memide.c

    The cache is the array of [NBUF] buffers linked in a ring through
    [bcache.head], most recently used first.  Index [NBUF] of [bufs] is the
    head. *)
From S2P Require Import Prelude Bytes Spinlock ProcDefs Memory Kalloc FsDefs.
Local Open Scope Z_scope.
Local Open Scope kernel_scope.

(** ** memide.c *)

(** The memory the disk image is in ([memdisk]), its size in blocks
    ([disksize]), and the writes done so far, as (block number, data): the
    last is not in the code, it records the order in which data reaches the
    disk. *)
Record memdisk := Memdisk {
  md_image : list Z;
  disksize : Z;
  md_writes : list (Z * list Z)
}.
#[export] Instance memdisk_eta : Eta memdisk := fun r =>
  Memdisk (md_image r) (disksize r) (md_writes r).

(** [ideinit]: [img] is the image linked at [_binary_fs_img_start]. *)
Definition memide_ideinit (img : list Z) : memdisk :=
  Memdisk img (Z.of_nat (length img) / BSIZE) [].

Definition memide_iderw (i : nat) : F memdisk unit :=
  do h <- holdingsleep (BufLock i);
  if negb h then panic "iderw: buf not locked" else
  do b <- buf_at i;
  if Z.land (bflags b) (Z.lor B_VALID B_DIRTY) =? B_VALID then panic "iderw: nothing to do" else
  if negb (bdev b =? 1) then panic "iderw: request not for disk 1" else
  do d <- gets disk;
  if u32 (disksize d) <=? blockno b then panic "iderw: block out of range" else
  let p := Z.to_nat (u32 (blockno b * BSIZE)) in
  (if c_true (Z.land (bflags b) B_DIRTY) then
     upd_buf i (fun b => b <| bflags ::= fun f => Z.land f (Z.lnot B_DIRTY) |>);;
     do img <- orUndef "memdisk" (splice p (bdata b) (md_image d));
     modify (fun s => s <| disk ::= fun d =>
       d <| md_image := img |> <| md_writes ::= fun w => w ++ [(blockno b, bdata b)] |> |>)
   else
     do data <- orUndef "memdisk" (sub p (Z.to_nat BSIZE) (md_image d));
     upd_buf i (fun b => b <| bdata := data |>));;
  upd_buf i (fun b => b <| bflags ::= fun f => Z.lor f B_VALID |>).

#[export] Instance memide : Driver memdisk := { iderw := memide_iderw }.

(** ** bio.c *)
Section Bio.
Context {D : Type} `{!Driver D}.

Definition binit_one (b : nat) : F D unit :=
  do h <- buf_at NBUF;
  upd_buf b (fun r => r <| bnext := bnext h |>);;
  upd_buf b (fun r => r <| bprev := NBUF |>);;
  upd_buf b (fun r => r <| block ::= initsleeplock "buffer" |>);;
  upd_buf (bnext h) (fun r => r <| bprev := b |>);;
  upd_buf NBUF (fun r => r <| bnext := b |>).

Definition binit : F D unit :=
  modify (fun s => s <| bc_lock := false |>);;
  upd_buf NBUF (fun r => r <| bprev := NBUF |>);;
  upd_buf NBUF (fun r => r <| bnext := NBUF |>);;
  forM (seq 0 NBUF) binit_one.

(** The first loop of [bget] from [b]: [None] when it reaches the head.  A ring
    that does not come back to the head within [NBUF] buffers would make the
    loop run forever. *)
Fixpoint bget_cached (n : nat) (b : nat) (dev bno : Z) : F D (option nat) :=
  match n with
  | O => undef "bcache list"
  | S n' =>
    if decide (b = NBUF) then ret None else
    do r <- buf_at b;
    if (bdev r =? dev) && (blockno r =? bno) then ret (Some b)
    else bget_cached n' (bnext r) dev bno
  end.

(** The second loop of [bget]. *)
Fixpoint bget_unused (n : nat) (b : nat) : F D (option nat) :=
  match n with
  | O => undef "bcache list"
  | S n' =>
    if decide (b = NBUF) then ret None else
    do r <- buf_at b;
    if (brefcnt r =? 0) && (Z.land (bflags r) B_DIRTY =? 0) then ret (Some b)
    else bget_unused n' (bprev r)
  end.

Definition bget (dev bno : Z) : F D nat :=
  bcache_acquire;;
  do h <- buf_at NBUF;
  do o <- bget_cached (S NBUF) (bnext h) dev bno;
  match o with
  | Some b =>
    upd_buf b (fun r => r <| brefcnt ::= fun n => u32 (n + 1) |>);;
    bcache_release;;
    acquiresleep (BufLock b);;
    ret b
  | None =>
    do h <- buf_at NBUF;
    do o <- bget_unused (S NBUF) (bprev h);
    match o with
    | Some b =>
      upd_buf b (fun r => r <| bdev := dev |>);;
      upd_buf b (fun r => r <| blockno := bno |>);;
      upd_buf b (fun r => r <| bflags := 0 |>);;
      upd_buf b (fun r => r <| brefcnt := 1 |>);;
      bcache_release;;
      acquiresleep (BufLock b);;
      ret b
    | None => panic "bget: no buffers"
    end
  end.

Definition bread (dev bno : Z) : F D nat :=
  do b <- bget dev bno;
  do r <- buf_at b;
  whenM (Z.land (bflags r) B_VALID =? 0) (iderw b);;
  ret b.

Definition bwrite (b : nat) : F D unit :=
  do h <- holdingsleep (BufLock b);
  if negb h then panic "bwrite" else
  upd_buf b (fun r => r <| bflags ::= fun f => Z.lor f B_DIRTY |>);;
  iderw b.

(** b->next->prev = b->prev; ... bcache.head.next = b; *)
Definition brelse_move (b : nat) : F D unit :=
  do r <- buf_at b;
  upd_buf (bnext r) (fun x => x <| bprev := bprev r |>);;
  do r <- buf_at b;
  upd_buf (bprev r) (fun x => x <| bnext := bnext r |>);;
  do h <- buf_at NBUF;
  upd_buf b (fun x => x <| bnext := bnext h |>);;
  upd_buf b (fun x => x <| bprev := NBUF |>);;
  do h <- buf_at NBUF;
  upd_buf (bnext h) (fun x => x <| bprev := b |>);;
  upd_buf NBUF (fun x => x <| bnext := b |>).

Definition brelse (b : nat) : F D unit :=
  do h <- holdingsleep (BufLock b);
  if negb h then panic "brelse" else
  releasesleep (BufLock b);;
  bcache_acquire;;
  upd_buf b (fun r => r <| brefcnt ::= fun n => u32 (n - 1) |>);;
  do r <- buf_at b;
  whenM (brefcnt r =? 0) (brelse_move b);;
  bcache_release.
End Bio.
