(* ===== verification/BioRing.v ===== *)
(** * The LRU ring of the buffer cache

    [ring bs l]: following [next] from the head visits the buffers [l] in order
    and comes back, and following [prev] visits them in reverse.  The lemmas
    say what the two loops of [bget] find in such a ring, that [binit] builds
    one, and that [brelse] moves a buffer to its front. *)
From S2P Require Import Prelude Bytes Spinlock ProcDefs Memory Kalloc FsDefs Bio.
Local Open Scope Z_scope.
Local Open Scope kernel_scope.

Definition nx (bs : list buf) (i : nat) : nat := from_option bnext 0%nat (bs !! i).
Definition pv (bs : list buf) (i : nat) : nat := from_option bprev 0%nat (bs !! i).

(** A doubly linked path from [x] through [l] to [z]. *)
Fixpoint path (n p : nat -> nat) (x : nat) (l : list nat) (z : nat) : Prop :=
  match l with
  | [] => n x = z /\ p z = x
  | y :: l' => n x = y /\ p y = x /\ path n p y l' z
  end.

Definition ring (bs : list buf) (l : list nat) : Prop :=
  length bs = S NBUF /\ l ≡ₚ seq 0 NBUF /\ path (nx bs) (pv bs) NBUF l NBUF.

Lemma path_app n p x l1 y l2 z :
  path n p x (l1 ++ y :: l2) z <-> path n p x l1 y /\ path n p y l2 z.
Proof. revert x. induction l1 as [|a l1 IH]; intros x; simpl; [naive_solver|]. rewrite IH. naive_solver. Qed.

Lemma path_ext n p n' p' x l z :
  path n p x l z -> (forall a, a ∈ x :: l -> n' a = n a) -> (forall a, a ∈ l ++ [z] -> p' a = p a) ->
  path n' p' x l z.
Proof.
  revert x. induction l as [|y l IH]; simpl; intros x Hp Hn Hq.
  - rewrite Hn, Hq by set_solver. done.
  - destruct Hp as (H1 & H2 & Hp). rewrite Hn, Hq by set_solver. split_and!; [done..|].
    apply IH; [done|set_solver|set_solver].
Qed.

(** The end points of a path. *)
Lemma path_first n p x l z : path n p x l z -> n x = hd z l /\ p (hd z l) = x.
Proof. destruct l; simpl; naive_solver. Qed.

(** The last element of a list, [d] when it is empty. *)
Fixpoint lastd (l : list nat) (d : nat) : nat :=
  match l with [] => d | x :: l' => lastd l' x end.

Lemma lastd_snoc l x d : lastd (l ++ [x]) d = x.
Proof. revert d. induction l; simpl; auto. Qed.

Lemma path_last n p x l z : path n p x l z -> n (lastd l x) = z /\ p z = lastd l x.
Proof. revert x. induction l as [|y l IH]; intros x; simpl; [done|]. intros (_ & _ & H). auto. Qed.

Definition upd (f : nat -> nat) (i v : nat) : nat -> nat := fun j => if decide (j = i) then v else f j.

Lemma upd_same f i v : upd f i v i = v.
Proof. unfold upd. by rewrite decide_True. Qed.
Lemma upd_other f i v j : j <> i -> upd f i v j = f j.
Proof. unfold upd. intros. by rewrite decide_False. Qed.

Lemma hd_elem {A} (l : list A) z : hd z l ∈ l ++ [z].
Proof. destruct l; simpl; set_solver. Qed.

(** A path whose first link is redirected to it. *)
Lemma path_relink n p a l h :
  NoDup (a :: l) -> NoDup (l ++ [h]) -> (exists b, path n p b l h) ->
  path (upd n a (hd h l)) (upd p (hd h l) a) a l h.
Proof.
  intros Ha Hd [b Hp]. destruct l as [|c l]; simpl in *.
  - by rewrite !upd_same.
  - rewrite !upd_same. destruct Hp as (_ & _ & Hp). split_and!; [done..|].
    apply NoDup_cons in Ha as [Ha _], Hd as [Hd _].
    eapply path_ext; [exact Hp| |]; intros x Hx; apply upd_other; intros ->; set_solver.
Qed.

(** b->next->prev = b->prev; b->prev->next = b->next takes [b] out. *)
Lemma path_unlink n p h l1 b l2 :
  NoDup (h :: l1 ++ b :: l2) -> path n p h (l1 ++ b :: l2) h ->
  path (upd n (p b) (n b)) (upd p (n b) (p b)) h (l1 ++ l2) h.
Proof.
  intros Hd [H1 H2]%path_app.
  destruct (path_last _ _ _ _ _ H1) as [_ ->], (path_first _ _ _ _ _ H2) as [-> _].
  assert (Hh : NoDup (l2 ++ [h])).
  { apply NoDup_app. apply NoDup_cons in Hd as [? (? & ? & [? ?]%NoDup_cons)%NoDup_app].
    split_and!; [done|set_solver|apply NoDup_singleton]. }
  destruct l1 as [|a l1 _] using rev_ind.
  - apply path_relink; [|done|by eauto]. simpl in *.
    apply NoDup_cons in Hd as [? [? ?]%NoDup_cons]. constructor; [set_solver|done].
  - rewrite lastd_snoc, <-app_assoc in *. apply path_app in H1 as [H1 _]. apply path_app.
    simpl in Hd. apply NoDup_cons in Hd as [? (Hd1 & Hd2 & Hd3)%NoDup_app].
    rewrite !NoDup_cons in Hd3. destruct Hd3 as (? & ? & ?). split.
    + pose proof (hd_elem l2 h) as Hc.
      eapply path_ext; [exact H1| |]; intros x Hx; apply upd_other; intros ->.
      * set_solver.
      * revert Hx Hc. generalize (hd h l2). intros c Hx [Hc|Hc]%elem_of_app; set_solver.
    + apply path_relink; [|done|by eauto]. constructor; set_solver.
Qed.

(** b->next = head.next; b->prev = &head; head.next->prev = b; head.next = b
    puts [b] in front. *)
Lemma path_push n p h b l :
  NoDup (h :: b :: l) -> path n p h l h ->
  path (upd (upd n b (n h)) h b) (upd (upd p b h) (n h) b) h (b :: l) h.
Proof.
  intros Hd Hp. destruct (path_first _ _ _ _ _ Hp) as [-> _].
  rewrite !NoDup_cons in Hd. destruct Hd as (Hh & Hb & Hl). simpl.
  pose proof (hd_elem l h). rewrite upd_same, (upd_other _ (hd h l)), upd_same by set_solver.
  split_and!; [done..|].
  eapply path_ext; [apply (path_relink n p b l h)| |].
  - by constructor.
  - apply NoDup_app. split_and!; [done|set_solver|apply NoDup_singleton].
  - eauto.
  - intros a Ha. rewrite (upd_other _ h) by set_solver. unfold upd. by repeat case_decide.
  - intros a Ha. unfold upd. repeat case_decide; subst; try done. set_solver.
Qed.

(** ** The pointer updates of the code *)

(** A buffer without its list pointers. *)
Definition core (b : buf) : buf := b <| bprev := 0%nat |> <| bnext := 0%nat |>.
Definition same_core (bs bs' : list buf) : Prop := forall i, core <$> bs' !! i = core <$> bs !! i.

Lemma same_core_refl bs : same_core bs bs.
Proof. done. Qed.
Lemma same_core_trans a b c : same_core a b -> same_core b c -> same_core a c.
Proof. intros H1 H2 i. by rewrite H2. Qed.

Lemma same_core_length bs bs' : same_core bs bs' -> length bs' = length bs.
Proof.
  intros H. pose proof (H (length bs)) as H1. pose proof (H (length bs')) as H2.
  rewrite (lookup_ge_None_2 bs) in H1 by done. rewrite (lookup_ge_None_2 bs') in H2 by done.
  symmetry in H2. apply fmap_None, lookup_ge_None_1 in H1, H2. lia.
Qed.

Lemma same_core_lookup bs bs' i b :
  same_core bs bs' -> bs !! i = Some b -> exists b', bs' !! i = Some b' /\ core b' = core b.
Proof. intros H Hb. specialize (H i). rewrite Hb in H. apply fmap_Some in H as (b' & ? & ?). eauto. Qed.

(** [s'] is [s] with list pointers changed. *)
Definition relinked {D} (s s' : fsys D) : Prop :=
  exists bs', s' = s <| bufs := bs' |> /\ same_core (bufs s) bs'.
(** The [next] and [prev] pointers of all buffers. *)
Definition links {D} (s : fsys D) (n p : nat -> nat) : Prop :=
  length (bufs s) = S NBUF /\ forall j, nx (bufs s) j = n j /\ pv (bufs s) j = p j.

Section Links.
Context {D : Type}.
Implicit Types s : fsys D.

Lemma relinked_refl s : relinked s s.
Proof. exists (bufs s). split; [by destruct s|apply same_core_refl]. Qed.

Lemma relinked_trans s1 s2 s3 : relinked s1 s2 -> relinked s2 s3 -> relinked s1 s3.
Proof.
  intros (b1 & -> & H1) (b2 & -> & H2). exists b2. split; [done|]. by eapply same_core_trans.
Qed.

Lemma upd_prev_links s i v n p :
  links s n p -> (i < S NBUF)%nat ->
  exists s', upd_buf i (fun x => x <| bprev := v |>) s = Ret tt s' /\ relinked s s' /\
    links s' n (upd p i v).
Proof.
  intros [Hl Hk] Hi. destruct (lookup_lt_is_Some_2 (bufs s) i) as [b Hb]; [lia|].
  eexists. rewrite (upd_buf_run _ _ _ _ Hb). split_and!; [done|eexists; split; [done|]|split].
  - intros j. destruct (decide (j = i)) as [->|];
      rewrite ?list_lookup_insert_eq, ?list_lookup_insert_ne, ?Hb by (done || lia); done.
  - cbn. by rewrite length_insert.
  - intros j. specialize (Hk j). cbn. unfold nx, pv, upd in *. destruct (decide (j = i)) as [->|].
    + rewrite list_lookup_insert_eq by lia. rewrite Hb in Hk. naive_solver.
    + by rewrite list_lookup_insert_ne by done.
Qed.

Lemma upd_next_links s i v n p :
  links s n p -> (i < S NBUF)%nat ->
  exists s', upd_buf i (fun x => x <| bnext := v |>) s = Ret tt s' /\ relinked s s' /\
    links s' (upd n i v) p.
Proof.
  intros [Hl Hk] Hi. destruct (lookup_lt_is_Some_2 (bufs s) i) as [b Hb]; [lia|].
  eexists. rewrite (upd_buf_run _ _ _ _ Hb). split_and!; [done|eexists; split; [done|]|split].
  - intros j. destruct (decide (j = i)) as [->|];
      rewrite ?list_lookup_insert_eq, ?list_lookup_insert_ne, ?Hb by (done || lia); done.
  - cbn. by rewrite length_insert.
  - intros j. specialize (Hk j). cbn. unfold nx, pv, upd in *. destruct (decide (j = i)) as [->|].
    + rewrite list_lookup_insert_eq by lia. rewrite Hb in Hk. naive_solver.
    + by rewrite list_lookup_insert_ne by done.
Qed.

(** Reads of the pointers. *)
Lemma buf_at_links s i n p :
  links s n p -> (i < S NBUF)%nat ->
  exists b, buf_at i s = Ret b s /\ bufs s !! i = Some b /\ bnext b = n i /\ bprev b = p i.
Proof.
  intros [Hl Hk] Hi. destruct (lookup_lt_is_Some_2 (bufs s) i) as [b Hb]; [lia|]. exists b.
  destruct (Hk i) as [<- <-]. unfold nx, pv. rewrite (buf_at_run _ _ _ Hb), Hb. done.
Qed.

Lemma links_self s : length (bufs s) = S NBUF -> links s (nx (bufs s)) (pv (bufs s)).
Proof. done. Qed.
End Links.

Lemma ring_nodup bs l : ring bs l -> NoDup (NBUF :: l).
Proof.
  intros (_ & Hl & _). rewrite Hl. constructor; [|apply NoDup_seq].
  rewrite elem_of_seq. lia.
Qed.

Lemma ring_lt bs l i : ring bs l -> i ∈ NBUF :: l -> (i < length bs)%nat.
Proof.
  intros (-> & Hl & _). rewrite Hl, elem_of_cons, elem_of_seq. lia.
Qed.

Lemma ring_next_lt bs l i : ring bs l -> i ∈ NBUF :: l -> nx bs i ∈ NBUF :: l.
Proof.
  intros (_ & _ & Hp) [->|Hi]%elem_of_cons.
  - destruct (path_first _ _ _ _ _ Hp) as [-> _]. pose proof (hd_elem l NBUF). set_solver.
  - apply list_elem_of_split in Hi as (l1 & l2 & ->). apply path_app in Hp as [_ Hp].
    destruct (path_first _ _ _ _ _ Hp) as [-> _]. pose proof (hd_elem l2 NBUF). set_solver.
Qed.

Lemma lastd_elem l d : lastd l d ∈ d :: l.
Proof. revert d. induction l as [|x l IH]; intros d; simpl; [set_solver|]. specialize (IH x). set_solver. Qed.

Lemma ring_prev_lt bs l i : ring bs l -> i ∈ NBUF :: l -> pv bs i ∈ NBUF :: l.
Proof.
  intros (_ & _ & Hp) [->|Hi]%elem_of_cons.
  - destruct (path_last _ _ _ _ _ Hp) as [_ ->]. apply lastd_elem.
  - apply list_elem_of_split in Hi as (l1 & l2 & ->). apply path_app in Hp as [Hp _].
    destruct (path_last _ _ _ _ _ Hp) as [_ ->]. pose proof (lastd_elem l1 NBUF). set_solver.
Qed.

(** ** The loops of [bget] *)

Fixpoint first (P : nat -> bool) (l : list nat) : option nat :=
  match l with [] => None | i :: l' => if P i then Some i else first P l' end.

Lemma first_some P l i : first P l = Some i -> i ∈ l /\ P i = true.
Proof. induction l as [|x l IH]; simpl; [done|]. case_match; intros; simplify_eq; set_solver. Qed.

Lemma first_none P l i : first P l = None -> i ∈ l -> P i = false.
Proof. induction l as [|x l IH]; simpl; [set_solver|]. case_match; intros; [done|]. set_solver. Qed.

Definition is_block (dev bno : Z) (b : buf) : bool := (bdev b =? dev) && (blockno b =? bno).
Definition is_unused (b : buf) : bool := (brefcnt b =? 0) && (Z.land (bflags b) B_DIRTY =? 0).
Definition at_buf (bs : list buf) (P : buf -> bool) (i : nat) : bool := from_option P false (bs !! i).

Section Walk.
Context {D : Type} `{!Driver D}.
Implicit Types s : fsys D.

Lemma bget_cached_walk s dev bno l x n :
  path (nx (bufs s)) (pv (bufs s)) x l NBUF -> NBUF ∉ l ->
  (forall i, i ∈ l -> (i < length (bufs s))%nat) -> (length l < n)%nat ->
  bget_cached n (hd NBUF l) dev bno s = Ret (first (at_buf (bufs s) (is_block dev bno)) l) s.
Proof.
  revert x n. induction l as [|y l IH]; intros x [|n] Hp Hn Hlt Hlen; simpl in Hlen; try lia; cbn [hd bget_cached first].
  - by rewrite decide_True.
  - rewrite decide_False by set_solver.
    destruct (lookup_lt_is_Some_2 (bufs s) y) as [b Hb]; [set_solver|].
    runs1 (buf_at_run _ _ _ Hb).
    unfold at_buf at 1. rewrite Hb. cbn [from_option]. fold (is_block dev bno b).
    destruct (is_block dev bno b); [done|].
    destruct Hp as (_ & _ & Hp). destruct (path_first _ _ _ _ _ Hp) as [Hnx _]. unfold nx in Hnx. rewrite Hb in Hnx. cbn in Hnx.
    rewrite Hnx.
    eapply IH; [exact Hp|set_solver|set_solver|lia].
Qed.

Lemma bget_unused_walk s l n :
  (exists z, path (nx (bufs s)) (pv (bufs s)) NBUF l z) -> NBUF ∉ l ->
  (forall i, i ∈ l -> (i < length (bufs s))%nat) -> (length l < n)%nat ->
  bget_unused n (lastd l NBUF) s = Ret (first (at_buf (bufs s) is_unused) (reverse l)) s.
Proof.
  revert n. induction l as [|y l IH] using rev_ind; intros [|n] [z Hp] Hn Hlt Hlen;
    rewrite ?length_app in Hlen; simpl in Hlen; try lia.
  - cbn [lastd bget_unused]. by rewrite decide_True.
  - rewrite lastd_snoc, reverse_snoc. cbn [app bget_unused first]. rewrite decide_False by set_solver.
    destruct (lookup_lt_is_Some_2 (bufs s) y) as [b Hb]; [set_solver|].
    runs1 (buf_at_run _ _ _ Hb).
    unfold at_buf at 1. rewrite Hb. cbn [from_option]. fold (is_unused b).
    destruct (is_unused b); [done|].
    apply path_app in Hp as [Hp _]. destruct (path_last _ _ _ _ _ Hp) as [_ Hpv]. unfold pv in Hpv. rewrite Hb in Hpv. cbn in Hpv.
    rewrite Hpv.
    apply IH; [by eauto|set_solver|set_solver|lia].
Qed.

Lemma bget_cached_run s l dev bno h :
  ring (bufs s) l -> bufs s !! NBUF = Some h ->
  bget_cached (S NBUF) (bnext h) dev bno s = Ret (first (at_buf (bufs s) (is_block dev bno)) l) s.
Proof.
  intros Hr Hh. pose proof (ring_nodup _ _ Hr) as [? _]%NoDup_cons.
  pose proof Hr as (Hlen & Hl & Hp).
  replace (bnext h) with (hd NBUF l).
  - eapply bget_cached_walk; [done|done|intros; eapply ring_lt; [done|set_solver]|].
    rewrite Hl, length_seq. lia.
  - destruct (path_first _ _ _ _ _ Hp) as [<- _]. unfold nx. by rewrite Hh.
Qed.

Lemma bget_unused_run s l h :
  ring (bufs s) l -> bufs s !! NBUF = Some h ->
  bget_unused (S NBUF) (bprev h) s = Ret (first (at_buf (bufs s) is_unused) (reverse l)) s.
Proof.
  intros Hr Hh. pose proof (ring_nodup _ _ Hr) as [? _]%NoDup_cons.
  pose proof Hr as (Hlen & Hl & Hp).
  replace (bprev h) with (lastd l NBUF).
  - eapply bget_unused_walk; [by eauto|done|intros; eapply ring_lt; [done|set_solver]|].
    rewrite Hl, length_seq. lia.
  - destruct (path_last _ _ _ _ _ Hp) as [_ <-]. unfold pv. by rewrite Hh.
Qed.
End Walk.

(** ** Moving a buffer to the front, and building the ring *)

(** Reads or writes one pointer of the code. *)
Ltac link_read H b Hn Hp :=
  let Hat := fresh "Hat" in
  destruct (buf_at_links _ b _ _ H) as (? & Hat & _ & Hn & Hp); [auto|];
  runs1 Hat; rewrite ?Hn, ?Hp; clear Hat.
Ltac link_write lem E R L :=
  let s' := fresh "s" in
  destruct lem as (s' & E & R & L); [auto|first [runs1 E|rewrite E]]; clear E.

Section Move.
Context {D : Type}.
Implicit Types s : fsys D.

Lemma brelse_move_run s l1 b l2 :
  ring (bufs s) (l1 ++ b :: l2) ->
  exists s', brelse_move b s = Ret tt s' /\ relinked s s' /\ ring (bufs s') (b :: l1 ++ l2).
Proof.
  intros Hr. unfold brelse_move.
  assert (Hb : b ∈ NBUF :: l1 ++ b :: l2) by set_solver.
  assert (Hlt : forall i, i ∈ NBUF :: l1 ++ b :: l2 -> (i < S NBUF)%nat).
  { intros i Hi. pose proof Hr as [<- _]. by eapply ring_lt. }
  assert (Hh : (NBUF < S NBUF)%nat) by lia.
  pose proof (Hlt _ (ring_next_lt _ _ _ Hr Hb)) as Hnb.
  pose proof (Hlt _ (ring_prev_lt _ _ _ Hr Hb)) as Hpb. apply Hlt in Hb.
  pose proof (ring_nodup _ _ Hr) as Hd. pose proof Hr as (Hlen & Hperm & Hp).
  pose proof (links_self s Hlen) as L0.
  set (n := nx (bufs s)) in *. set (p := pv (bufs s)) in *.
  assert (Hnn : n b <> b /\ p b <> b).
  { apply path_app in Hp as [Hp1 Hp2]. destruct (path_last _ _ _ _ _ Hp1) as [_ ->].
    destruct (path_first _ _ _ _ _ Hp2) as [-> _].
    pose proof (lastd_elem l1 NBUF). pose proof (hd_elem l2 NBUF).
    apply NoDup_cons in Hd as [Hd0 (Hd1 & Hd2 & [Hd3 _]%NoDup_cons)%NoDup_app].
    split; intros Heq; rewrite Heq in *; set_solver. }
  destruct Hnn as [Hn1 Hn2].
  link_read L0 b Hn Hq. link_write (upd_prev_links s (n b) (p b) n p L0) E R1 L1.
  link_read L1 b Hn' Hq'. rewrite (upd_other _ _ _ b) by done.
  link_write (upd_next_links _ (p b) (n b) _ _ L1) E R2 L2.
  pose proof (path_unlink _ _ _ _ _ _ Hd Hp) as Hu.
  set (n1 := upd n (p b) (n b)) in *. set (p1 := upd p (n b) (p b)) in *.
  assert (Hlt1 : (n1 NBUF < S NBUF)%nat).
  { destruct (path_first _ _ _ _ _ Hu) as [-> _]. apply Hlt.
    pose proof (hd_elem (l1 ++ l2) NBUF). set_solver. }
  link_read L2 NBUF Hn2' Hq2. link_write (upd_next_links _ b (n1 NBUF) _ _ L2) E R3 L3.
  link_write (upd_prev_links _ b NBUF _ _ L3) E R4 L4.
  assert (Hbn : NBUF <> b) by (apply NoDup_cons in Hd as [? _]; set_solver).
  link_read L4 NBUF Hn4 Hq4. rewrite (upd_other _ _ _ NBUF) by done.
  link_write (upd_prev_links _ (n1 NBUF) b _ _ L4) E R5 L5.
  link_write (upd_next_links _ NBUF b _ _ L5) E R6 L6.
  eexists. split_and!; [done|eauto 10 using relinked_trans|].
  split; [apply L6|]. split; [by rewrite Permutation_middle|].
  eapply path_ext; [apply (path_push n1 p1 NBUF b (l1 ++ l2)); [|done]| |].
  - by rewrite Permutation_middle.
  - intros a _. apply L6.
  - intros a _. apply L6.
Qed.

(** The buffer that [binit] leaves at index [i] when it has done [k] of them,
    up to the list pointers. *)
Definition binit_buf (k i : nat) (b : buf) : buf :=
  core (if decide (i < k)%nat then b <| block ::= initsleeplock "buffer" |> else b).

Definition binit_done (k : nat) (s s' : fsys D) : Prop :=
  exists bs', s' = s <| bufs := bs' |> /\
    forall i, core <$> bs' !! i = binit_buf k i <$> bufs s !! i.

Lemma binit_done_relinked k s s1 s2 : binit_done k s s1 -> relinked s1 s2 -> binit_done k s s2.
Proof.
  intros (b1 & -> & H1) (b2 & -> & H2). exists b2. split; [done|].
  intros i. rewrite H2. apply H1.
Qed.

Lemma binit_done_next k s s1 n p :
  (k < NBUF)%nat -> binit_done k s s1 -> links s1 n p ->
  exists s2, upd_buf k (fun r => r <| block ::= initsleeplock "buffer" |>) s1 = Ret tt s2 /\
    binit_done (S k) s s2 /\ links s2 n p.
Proof.
  intros Hk (bs & -> & H1) [Hl Hn]. cbn in Hl, Hn.
  destruct (lookup_lt_is_Some_2 bs k) as [b Hb]; [lia|].
  eexists. rewrite (upd_buf_run _ k b) by done. split_and!; [done|eexists; split; [done|]|split].
  - intros i. specialize (H1 i). cbn. unfold binit_buf in *. destruct (decide (i = k)) as [->|].
    + rewrite list_lookup_insert_eq by lia. rewrite Hb in H1.
      destruct (bufs s !! k) as [b'|]; [|done]. cbn [fmap option_fmap option_map] in *.
      rewrite decide_True by lia. rewrite decide_False in H1 by lia. destruct b, b'. unfold core in *. cbn in *. congruence.
    + rewrite list_lookup_insert_ne, H1 by done. destruct (bufs s !! i); [|done]. f_equal.
      repeat case_decide; (done || lia).
  - cbn. by rewrite length_insert.
  - intros j. cbn. specialize (Hn j). unfold nx, pv in *. destruct (decide (j = k)) as [->|].
    + rewrite list_lookup_insert_eq by lia. by rewrite Hb in Hn.
    + by rewrite list_lookup_insert_ne.
Qed.

Lemma binit_one_run k s s1 n p :
  (k < NBUF)%nat -> binit_done k s s1 -> links s1 n p -> path n p NBUF (reverse (seq 0 k)) NBUF ->
  exists s2 n' p', binit_one k s1 = Ret tt s2 /\ binit_done (S k) s s2 /\ links s2 n' p' /\
    path n' p' NBUF (reverse (seq 0 (S k))) NBUF.
Proof.
  intros Hk Hi L0 Hp. assert (Hh : (NBUF < S NBUF)%nat) by lia.
  assert (Hk' : (k < S NBUF)%nat) by lia. unfold binit_one.
  assert (Hn : (n NBUF < S NBUF)%nat).
  { destruct (path_first _ _ _ _ _ Hp) as [-> _].
    assert (Hin : hd NBUF (reverse (seq 0 k)) ∈ reverse (seq 0 k) ++ [NBUF]) by apply hd_elem.
    rewrite elem_of_app, elem_of_reverse, elem_of_seq, list_elem_of_singleton in Hin. lia. }
  link_read L0 NBUF Hn1 Hp1. link_write (upd_next_links _ k (n NBUF) _ _ L0) E R1 L1.
  link_write (upd_prev_links _ k NBUF _ _ L1) E R2 L2.
  assert (Hi2 : binit_done k s s2) by eauto using binit_done_relinked.
  destruct (binit_done_next k s s2 _ _ Hk Hi2 L2) as (s3 & E & Hi3 & L3). runs1 E. clear E.
  link_write (upd_prev_links _ (n NBUF) k _ _ L3) E R4 L4.
  link_write (upd_next_links _ NBUF k _ _ L4) E R5 L5.
  do 3 eexists. split_and!; [done|eauto using binit_done_relinked|exact L5|].
  rewrite seq_S, reverse_snoc. apply (path_push n p NBUF k); [|done].
  rewrite reverse_Permutation. repeat constructor; try apply NoDup_seq;
    rewrite ?elem_of_cons, elem_of_seq; lia.
Qed.

Lemma binit_loop_run m k s s1 n p :
  (k + m = NBUF)%nat -> binit_done k s s1 -> links s1 n p -> path n p NBUF (reverse (seq 0 k)) NBUF ->
  exists s2 n' p', forM (seq k m) binit_one s1 = Ret tt s2 /\ binit_done NBUF s s2 /\ links s2 n' p' /\
    path n' p' NBUF (reverse (seq 0 NBUF)) NBUF.
Proof.
  revert k s1 n p. induction m as [|m IH]; intros k s1 n p Hk Hi L Hp.
  - rewrite Nat.add_0_r in Hk. subst. do 3 eexists. split; [done|]. done.
  - destruct (binit_one_run k s s1 n p) as (s2 & n' & p' & E & Hi2 & L2 & Hp2); [lia|done..|].
    cbn [seq forM]. runs1 E. eapply IH; [|done..]. lia.
Qed.

Lemma binit_run s :
  length (bufs s) = S NBUF ->
  exists s', binit s = Ret tt s' /\ binit_done NBUF (s <| bc_lock := false |>) s' /\
    ring (bufs s') (reverse (seq 0 NBUF)).
Proof.
  intros Hl. unfold binit. rewrite bind_modify. set (s0 := s <| bc_lock := false |>).
  assert (Hh : (NBUF < S NBUF)%nat) by lia. assert (L0 : links s0 _ _) by (apply links_self; exact Hl).
  link_write (upd_prev_links _ NBUF NBUF _ _ L0) E R1 L1.
  link_write (upd_next_links _ NBUF NBUF _ _ L1) E R2 L2.
  assert (Hi0 : binit_done 0 s0 s2).
  { destruct (relinked_trans _ _ _ R1 R2) as (bs & -> & Hc). exists bs. split; [done|].
    intros i. rewrite Hc. apply option_fmap_ext. intros b. unfold binit_buf. case_decide; [lia|done]. }
  destruct (binit_loop_run NBUF 0 s0 s2 _ _ eq_refl Hi0 L2) as (s3 & n & p & E & Hi & L3 & Hp).
  - simpl. by rewrite !upd_same.
  - exists s3. split_and!; [exact E|done|]. split; [apply L3|]. split; [by rewrite reverse_Permutation|].
    eapply path_ext; [exact Hp|intros; apply L3..].
Qed.
End Move.
