(* ===== verification/BioSpec.v ===== *)
(** * The buffer cache: contract of the disk and specification of the cache

    [DriverSpec] states what bio.c relies on in a disk driver; memide.c is
    proved to provide it.  [bio_ok] is the invariant of the cache when other
    threads may hold buffers; under it the cache shows one content per block,
    [vw], and the operations are specified against that view. *)
From S2P Require Import Prelude Bytes Spinlock ProcDefs Memory Kalloc FsDefs Bio BioRing.
Local Open Scope Z_scope.
Local Open Scope kernel_scope.

(** The running process holds the buffer. *)
Definition mine {D} (s : fsys D) (b : buf) : Prop :=
  sl_lk (block b) = false /\ c_true (sl_locked (block b)) = true /\ sl_pid (block b) = c_pid (cur s).

Class DriverSpec (D : Type) `{!Driver D} := {
  drv_ok : D -> Prop;
  dsize : D -> Z;
  dblock : D -> Z -> list Z;
  dwrites : D -> list (Z * list Z);
  drv_size d : drv_ok d -> dsize d <= 2 ^ 31;
  drv_length d n : drv_ok d -> 0 <= n < dsize d -> length (dblock d n) = Z.to_nat BSIZE;
  drv_read s i b :
    drv_ok (disk s) -> bufs s !! i = Some b -> mine s b -> bdev b = 1 ->
    0 <= blockno b < dsize (disk s) -> bflags b = 0 ->
    iderw i s = Ret tt (s <| bufs :=
      <[i := b <| bdata := dblock (disk s) (blockno b) |> <| bflags := B_VALID |>]> (bufs s) |>);
  drv_write s i b :
    drv_ok (disk s) -> bufs s !! i = Some b -> mine s b -> bdev b = 1 ->
    0 <= blockno b < dsize (disk s) -> bflags b = Z.lor B_VALID B_DIRTY ->
    length (bdata b) = Z.to_nat BSIZE ->
    exists d, iderw i s = Ret tt (s <| disk := d |> <| bufs :=
        <[i := b <| bflags := B_VALID |>]> (bufs s) |>) /\
      drv_ok d /\ dsize d = dsize (disk s) /\
      (forall n, 0 <= n < dsize d -> dblock d n = if n =? blockno b then bdata b else dblock (disk s) n) /\
      dwrites d = dwrites (disk s) ++ [(blockno b, bdata b)]
}.

(** ** memide.c keeps the contract *)

Definition memide_ok (d : memdisk) : Prop :=
  disksize d = Z.of_nat (length (md_image d)) / BSIZE /\ Z.of_nat (length (md_image d)) < 2 ^ 32.
Definition memide_block (d : memdisk) (n : Z) : list Z :=
  default [] (sub (Z.to_nat (n * BSIZE)) (Z.to_nat BSIZE) (md_image d)).

Lemma memide_sub d n :
  memide_ok d -> 0 <= n < disksize d ->
  sub (Z.to_nat (u32 (n * BSIZE))) (Z.to_nat BSIZE) (md_image d) = Some (memide_block d n) /\
  u32 (n * BSIZE) = n * BSIZE /\ (Z.to_nat (n * BSIZE) + Z.to_nat BSIZE <= length (md_image d))%nat.
Proof.
  intros [Hs Hl] Hn. unfold BSIZE in *.
  assert (Hm : 512 * (n + 1) <= Z.of_nat (length (md_image d))).
  { rewrite Hs in Hn. pose proof (Z.mul_div_le (Z.of_nat (length (md_image d))) 512). lia. }
  rewrite u32_small by lia. unfold memide_block, BSIZE.
  destruct (sub_some (Z.to_nat (n * 512)) (Z.to_nat 512) (md_image d)) as [x ->]; [lia|].
  split_and!; [done..|lia].
Qed.

Lemma memide_entry (s : fsys memdisk) i b :
  memide_ok (disk s) -> bufs s !! i = Some b -> mine s b -> bdev b = 1 ->
  0 <= blockno b < disksize (disk s) ->
  (Z.land (bflags b) (Z.lor B_VALID B_DIRTY) =? B_VALID) = false ->
  memide_iderw i s =
  ((if c_true (Z.land (bflags b) B_DIRTY) then
     upd_buf i (fun b => b <| bflags ::= fun f => Z.land f (Z.lnot B_DIRTY) |>);;
     do img <- orUndef "memdisk" (splice (Z.to_nat (blockno b * BSIZE)) (bdata b) (md_image (disk s)));
     modify (fun s => s <| disk ::= fun d =>
       d <| md_image := img |> <| md_writes ::= fun w => w ++ [(blockno b, bdata b)] |> |>)
   else
     upd_buf i (fun x => x <| bdata := memide_block (disk s) (blockno b) |>));;
  upd_buf i (fun b => b <| bflags ::= fun f => Z.lor f B_VALID |>)) s.
Proof.
  intros Hok Hb (Hk & Hc & Hp) Hd Hn Hf. unfold memide_iderw.
  destruct (memide_sub _ _ Hok Hn) as (Hsub & Hu & _).
  rewrite (bind_ret_eq _ _ _ _ _ (holdingsleep_run (BufLock i) s (block b)
    ltac:(simpl; by rewrite Hb) Hk)).
  rewrite Hc, Hp, Z.eqb_refl. simpl negb. cbn [andb negb].
  runs1 (buf_at_run _ _ _ Hb). rewrite Hf, Hd. cbn [Z.eqb Pos.eqb negb]. rewrite bind_gets.
  assert (Hlt : 0 <= disksize (disk s) < 2 ^ 32).
  { destruct Hok as [-> ?]. unfold BSIZE. split; [apply Z.div_pos; lia|].
    apply Z.div_lt_upper_bound; lia. }
  rewrite u32_small by done. replace (disksize (disk s) <=? blockno b) with false by lia.
  cbv zeta. rewrite Hsub, Hu. by case_match.
Qed.

Lemma memide_read (s : fsys memdisk) i b :
  memide_ok (disk s) -> bufs s !! i = Some b -> mine s b -> bdev b = 1 ->
  0 <= blockno b < disksize (disk s) -> bflags b = 0 ->
  memide_iderw i s = Ret tt (s <| bufs :=
    <[i := b <| bdata := memide_block (disk s) (blockno b) |> <| bflags := B_VALID |>]> (bufs s) |>).
Proof.
  intros Hok Hb Hm Hd Hn Hf. rewrite (memide_entry s i b) by (done || by rewrite Hf). rewrite Hf.
  change (c_true (Z.land 0 B_DIRTY)) with false. cbv iota.
  runs1 (upd_buf_run s i b (fun x => x <| bdata := memide_block (disk s) (blockno b) |>) Hb).
  assert (Hlt := lookup_lt_Some _ _ _ Hb).
  rewrite (upd_buf_run _ i (b <| bdata := memide_block (disk s) (blockno b) |>))
    by (cbn; by rewrite list_lookup_insert_eq).
  cbn [bufs]. f_equal. cbn. rewrite list_insert_insert_eq. destruct b; cbn in *. by subst.
Qed.

Lemma memide_write (s : fsys memdisk) i b :
  memide_ok (disk s) -> bufs s !! i = Some b -> mine s b -> bdev b = 1 ->
  0 <= blockno b < disksize (disk s) -> bflags b = Z.lor B_VALID B_DIRTY ->
  length (bdata b) = Z.to_nat BSIZE ->
  exists d, memide_iderw i s = Ret tt (s <| disk := d |> <| bufs :=
      <[i := b <| bflags := B_VALID |>]> (bufs s) |>) /\
    memide_ok d /\ disksize d = disksize (disk s) /\
    (forall n, 0 <= n < disksize d ->
       memide_block d n = if n =? blockno b then bdata b else memide_block (disk s) n) /\
    md_writes d = md_writes (disk s) ++ [(blockno b, bdata b)].
Proof.
  intros Hok Hb Hm Hd Hn Hf Hl. rewrite (memide_entry s i b) by (done || by rewrite Hf). rewrite Hf.
  change (c_true (Z.land (Z.lor B_VALID B_DIRTY) B_DIRTY)) with true. cbv iota.
  destruct (memide_sub _ _ Hok Hn) as (_ & _ & Hle).
  destruct (splice_some (Z.to_nat (blockno b * BSIZE)) (bdata b) (md_image (disk s))) as [img Himg]; [lia|].
  assert (Hlt := lookup_lt_Some _ _ _ Hb).
  rewrite bind_assoc.
  runs1 (upd_buf_run s i b (fun b => b <| bflags ::= fun f => Z.land f (Z.lnot B_DIRTY) |>) Hb).
  rewrite Himg. rewrite bind_assoc. unfold orUndef. rewrite bind_deref, bind_modify.
  rewrite (upd_buf_run _ i (b <| bflags := Z.land (bflags b) (Z.lnot B_DIRTY) |>))
    by (cbn; by rewrite list_lookup_insert_eq).
  exists (disk s <| md_image := img |> <| md_writes ::= fun w => w ++ [(blockno b, bdata b)] |>).
  split_and!.
  - f_equal. destruct s; cbn in *. rewrite list_insert_insert_eq. destruct b; cbn in *. by subst.
  - destruct Hok as [H1 H2]. split; cbn; by rewrite (splice_length _ _ _ _ Himg).
  - done.
  - cbn. intros n Hn'. unfold memide_block. cbn. unfold BSIZE in *. destruct (Z.eqb_spec n (blockno b)) as [->|Hne].
    + rewrite <-Hl, (sub_splice_same _ _ _ _ Himg). done.
    + rewrite (sub_splice_other _ _ _ _ _ _ Himg); [done|]. rewrite Hl. lia.
  - done.
Qed.

#[export] Program Instance memide_spec : DriverSpec memdisk := {|
  drv_ok := memide_ok;
  dsize := disksize;
  dblock := memide_block;
  dwrites := md_writes;
  drv_read := memide_read;
  drv_write := memide_write
|}.
Next Obligation.
  intros d [-> Hl]. simpl. unfold BSIZE. apply Z.div_le_upper_bound; lia.
Qed.
Next Obligation.
  intros d n Hok Hn. destruct (memide_sub d n Hok Hn) as (Hs & _). by eapply sub_length.
Qed.

(** ** The invariant of the cache *)

Section Cache.
Context {D : Type} `{!Driver D, !DriverSpec D}.
Implicit Types s : fsys D.

(** Buffer [i] of the array. *)
Definition bufi s (i : nat) (b : buf) : Prop := (i < NBUF)%nat /\ bufs s !! i = Some b.
(** A buffer that stands for block [n]. *)
Definition for_block (n : Z) (b : buf) : Prop := bdev b = 1 /\ blockno b = n.
#[export] Instance for_block_dec n b : Decision (for_block n b).
Proof. unfold for_block. apply _. Defined.
Definition unlocked (b : buf) : Prop := sl_locked (block b) = 0.
Definition dirty (b : buf) : Prop := bflags b = Z.lor B_VALID B_DIRTY.

(** One buffer: its flags take the values the code gives them, a buffer nobody
    refers to is unlocked, and an unlocked buffer of the disk is valid and, if
    the log has not pinned it, has the content of its block. *)
Record buf_ok (d : D) (b : buf) : Prop := {
  bk_data : length (bdata b) = Z.to_nat BSIZE;
  bk_spin : sl_lk (block b) = false;
  bk_flags : bflags b = 0 \/ bflags b = B_VALID \/ dirty b;
  bk_ref : 0 <= brefcnt b < 2 ^ 32;
  bk_unref : brefcnt b = 0 -> unlocked b;
  bk_range : bdev b = 1 -> 0 <= blockno b < dsize d;
  bk_valid : bdev b = 1 -> unlocked b -> bflags b <> 0;
  bk_clean : bdev b = 1 -> unlocked b -> bflags b = B_VALID -> bdata b = dblock d (blockno b)
}.

Record bio_ok s (l : list nat) : Prop := {
  bo_ring : ring (bufs s) l;
  bo_lock : bc_lock s = false;
  bo_disk : drv_ok (disk s);
  bo_buf : forall i b, bufi s i b -> buf_ok (disk s) b;
  bo_uniq : forall i j b c, bufi s i b -> bufi s j c -> bdev b = 1 -> bdev c = 1 ->
    blockno b = blockno c -> i = j
}.

(** The content of block [n] as the users of the cache see it. *)
Definition vw s (n : Z) : list Z :=
  match first (at_buf (bufs s) (is_block 1 n)) (seq 0 NBUF) with
  | Some i => from_option bdata [] (bufs s !! i)
  | None => dblock (disk s) n
  end.

Lemma is_block_spec n b : is_block 1 n b = true <-> for_block n b.
Proof. unfold is_block, for_block. rewrite andb_true_iff, !Z.eqb_eq. done. Qed.

Lemma first_seq s P i b : bufi s i b -> P b = true -> first (at_buf (bufs s) P) (seq 0 NBUF) <> None.
Proof.
  intros [Hi Hb] HP Hf. apply (first_none _ _ i) in Hf; [|rewrite elem_of_seq; lia].
  unfold at_buf in Hf. rewrite Hb in Hf. simpl in Hf. congruence.
Qed.

Lemma at_buf_true s P i : at_buf (bufs s) P i = true -> exists b, bufs s !! i = Some b /\ P b = true.
Proof. unfold at_buf. destruct (bufs s !! i); simpl; naive_solver. Qed.

Definition uncached s (n : Z) : Prop := forall i b, bufi s i b -> ~ for_block n b.

Lemma cached_dec s n : (exists i b, bufi s i b /\ for_block n b) \/ uncached s n.
Proof.
  destruct (first (at_buf (bufs s) (is_block 1 n)) (seq 0 NBUF)) as [i|] eqn:Hf.
  - left. apply first_some in Hf as [Hi (b & Hb & Hn)%at_buf_true].
    exists i, b. rewrite elem_of_seq in Hi. split; [split; [lia|done]|by apply is_block_spec].
  - right. intros i b Hb Hn%is_block_spec. by eapply first_seq.
Qed.

Lemma vw_uncached s n : uncached s n -> vw s n = dblock (disk s) n.
Proof.
  intros Hu. unfold vw. destruct (first _ _) as [i|] eqn:Hf; [|done].
  apply first_some in Hf as [Hi (b & Hb & Hn%is_block_spec)%at_buf_true].
  rewrite elem_of_seq in Hi. by destruct (Hu i b); [split; [lia|]|].
Qed.

Lemma vw_uniq s n i b :
  (forall i j b c, bufi s i b -> bufi s j c -> bdev b = 1 -> bdev c = 1 -> blockno b = blockno c -> i = j) ->
  bufi s i b -> for_block n b -> vw s n = bdata b.
Proof.
  intros Hu Hb Hn. unfold vw. destruct (first _ _) as [j|] eqn:Hf.
  - apply first_some in Hf as [Hj (c & Hc & Hm%is_block_spec)%at_buf_true].
    rewrite elem_of_seq in Hj. destruct Hn as [Hn1 Hn2], Hm as [Hm1 Hm2].
    assert (i = j) as <- by (eapply Hu; [exact Hb|split; [|exact Hc]; lia|done..|congruence]).
    destruct Hb as [_ Hb]. rewrite Hb in Hc. by simplify_eq/=; rewrite Hb.
  - exfalso. eapply first_seq; [exact Hb| |exact Hf]. by apply is_block_spec.
Qed.

Lemma vw_cached s l n i b : bio_ok s l -> bufi s i b -> for_block n b -> vw s n = bdata b.
Proof. intros Hok. apply vw_uniq. apply (bo_uniq _ _ Hok). Qed.

(** The pinned and the unpinned blocks agree with the disk unless a buffer of
    theirs is pinned or held. *)
Lemma vw_clean s l n :
  bio_ok s l -> (forall i b, bufi s i b -> for_block n b -> unlocked b /\ ~ dirty b) ->
  vw s n = dblock (disk s) n.
Proof.
  intros Hok H. destruct (cached_dec s n) as [(i & b & Hb & Hn)|Hu]; [|by apply vw_uncached].
  rewrite (vw_cached _ _ _ _ _ Hok Hb Hn). destruct (H _ _ Hb Hn) as [Hu Hd].
  pose proof (bo_buf _ _ Hok _ _ Hb) as Hk. destruct Hn as [Hn <-].
  apply Hk; [done..|]. destruct (bk_flags _ _ Hk) as [?|[?|?]]; [by destruct (bk_valid _ _ Hk)|done|done].
Qed.

(** ** Changing one buffer *)

Definition put s (i : nat) (b : buf) : fsys D := s <| bufs := <[i := b]> (bufs s) |>.

Lemma put_put s i b c : put (put s i b) i c = put s i c.
Proof. unfold put. destruct s; cbn. by rewrite list_insert_insert_eq. Qed.

Lemma bufi_put s i b b' j c :
  bufi s i b -> bufi (put s i b') j c <-> (j = i /\ c = b') \/ (j <> i /\ bufi s j c).
Proof.
  intros [Hi Hb]. unfold bufi, put. cbn. pose proof (lookup_lt_Some _ _ _ Hb) as Hlt.
  destruct (decide (j = i)) as [->|Hne].
  - rewrite list_lookup_insert_eq by done. naive_solver.
  - rewrite list_lookup_insert_ne by done. naive_solver.
Qed.

Lemma put_same s i b b' : bufi s i b -> bufi (put s i b') i b'.
Proof. intros Hb. apply (bufi_put _ _ _ _ _ _ Hb). by left. Qed.

Lemma put_bufs s i b b' : bufi s i b -> bufs (put s i b') !! i = Some b'.
Proof. intros Hb. by apply (put_same s i b). Qed.

Lemma ring_put s i b b' l :
  bufs s !! i = Some b -> bprev b' = bprev b -> bnext b' = bnext b ->
  ring (bufs s) l -> ring (bufs (put s i b')) l.
Proof.
  intros Hb Hp Hn (Hlen & Hl & Hpath). unfold put. cbn. pose proof (lookup_lt_Some _ _ _ Hb) as Hlt.
  split; [by rewrite length_insert|]. split; [done|].
  eapply path_ext; [exact Hpath| |]; intros a _; unfold nx, pv;
    (destruct (decide (a = i)) as [->|];
      [rewrite list_lookup_insert_eq, Hb by done|rewrite list_lookup_insert_ne by done]); done.
Qed.

Lemma bio_ok_put s l i b b' :
  bio_ok s l -> bufi s i b -> bprev b' = bprev b -> bnext b' = bnext b -> buf_ok (disk s) b' ->
  (bdev b' = 1 -> forall j c, bufi s j c -> j <> i -> bdev c = 1 -> blockno c <> blockno b') ->
  bio_ok (put s i b') l.
Proof.
  intros Hok Hb Hp Hn Hk Hu. split.
  - eapply ring_put; [apply Hb|done..|apply Hok].
  - apply Hok.
  - apply Hok.
  - intros j c [[-> ->]|[_ Hc]]%(bufi_put _ _ _ _ _ _ Hb); [by destruct Hk|].
    by destruct (bo_buf _ _ Hok _ _ Hc).
  - intros j k c d Hc Hd. apply (bufi_put _ _ _ _ _ _ Hb) in Hc, Hd.
    destruct Hc as [[-> ->]|[? Hc]], Hd as [[-> ->]|[? Hd]]; intros H1 H2 H3; try done.
    + by destruct (Hu H1 _ _ Hd).
    + by destruct (Hu H2 _ _ Hc).
    + by eapply (bo_uniq _ _ Hok).
Qed.

(** A change that keeps the block a buffer stands for. *)
Lemma bio_ok_put_same s l i b b' :
  bio_ok s l -> bufi s i b -> bprev b' = bprev b -> bnext b' = bnext b -> buf_ok (disk s) b' ->
  bdev b' = bdev b -> blockno b' = blockno b -> bio_ok (put s i b') l.
Proof.
  intros Hok Hb Hp Hn Hk Hd Hno. eapply bio_ok_put; [done..|].
  intros H1 j c Hc Hne H2 H3. apply Hne. eapply (bo_uniq _ _ Hok); [done..| |]; congruence.
Qed.

(** The view after a change of one buffer. *)
Lemma vw_put_other s l l' i b b' n :
  bio_ok s l -> bio_ok (put s i b') l' -> bufi s i b -> ~ for_block n b -> ~ for_block n b' ->
  vw (put s i b') n = vw s n.
Proof.
  intros Hok Hok' Hb Hn Hn'. destruct (cached_dec s n) as [(j & c & Hc & Hm)|Hu].
  - rewrite (vw_cached _ _ _ _ _ Hok Hc Hm). eapply vw_cached; [done| |exact Hm].
    apply (bufi_put _ _ _ _ _ _ Hb). right. split; [|done]. intros ->.
    destruct Hb as [_ Hb], Hc as [_ Hc]. naive_solver.
  - rewrite !vw_uncached; [done..|]. intros j c [[-> ->]|[_ Hc]]%(bufi_put _ _ _ _ _ _ Hb); [done|].
    by eapply Hu.
Qed.

Lemma vw_put_same s l l' i b b' n :
  bio_ok s l -> bio_ok (put s i b') l' -> bufi s i b -> bdev b' = bdev b -> blockno b' = blockno b ->
  vw (put s i b') n = if decide (for_block n b) then bdata b' else vw s n.
Proof.
  intros Hok Hok' Hb Hd Hn. case_decide as Hf.
  - eapply vw_cached; [done|by eapply put_same|]. destruct Hf. split; congruence.
  - eapply vw_put_other; [done..|]. intros [? ?]. apply Hf. split; congruence.
Qed.
End Cache.
