(* ===== verification/BioOps.v ===== *)
(** * The operations of the buffer cache against its invariant

    What [bget], [bread], [bwrite] and [brelse] return and leave behind, from a
    state that satisfies [bio_ok]. *)
From S2P Require Import Prelude Bytes Spinlock ProcDefs Memory Kalloc FsDefs Bio BioRing BioSpec.
Local Open Scope Z_scope.
Local Open Scope kernel_scope.

Lemma remove_middle (l1 : list nat) i l2 :
  NoDup (l1 ++ i :: l2) -> List.remove Nat.eq_dec i (l1 ++ i :: l2) = l1 ++ l2.
Proof.
  intros Hd. apply NoDup_app in Hd as (_ & H1 & [H2 _]%NoDup_cons).
  rewrite remove_app. simpl. destruct (Nat.eq_dec i i); [|done].
  rewrite !notin_remove; [done|..]; rewrite <-list_elem_of_In; [done|].
  intros Hi. by destruct (H1 i Hi); left.
Qed.

Section Ops.
Context {D : Type} `{!Driver D, !DriverSpec D}.
Implicit Types s : fsys D.

Definition pidof s : Z := c_pid (cur s).

Lemma upd_put s i b f : bufi s i b -> upd_buf i f s = Ret tt (put s i (f b)).
Proof. intros [_ Hb]. by apply upd_buf_run. Qed.

Lemma upd_put_put s i b b' f : bufi s i b -> upd_buf i f (put s i b') = Ret tt (put s i (f b')).
Proof. intros Hb. rewrite (upd_put _ i b') by (by eapply put_same). by rewrite put_put. Qed.

Lemma bcache_acquire_run s : bc_lock s = false -> bcache_acquire s = Ret tt (s <| bc_lock := true |>).
Proof. intros H. unfold bcache_acquire, lock_acq. by rewrite bind_gets, H. Qed.

Lemma bcache_release_run s : bc_lock s = true -> bcache_release s = Ret tt (s <| bc_lock := false |>).
Proof. intros H. unfold bcache_release, lock_rel. by rewrite bind_gets, H. Qed.

(** Inside the cache lock. *)
Lemma locked_put s i b : put (s <| bc_lock := true |>) i b <| bc_lock := false |> =
  put (s <| bc_lock := false |>) i b.
Proof. by destruct s. Qed.

Lemma unlock_id s : bc_lock s = false -> s <| bc_lock := false |> = s.
Proof. destruct s; cbn. by intros ->. Qed.

Lemma acquiresleep_buf s i b :
  bufi s i b -> sl_lk (block b) = false ->
  acquiresleep (BufLock i) s =
    if c_true (sl_locked (block b)) then Stop (ASleepLock i) s
    else Ret tt (put s i (b <| block ::= sl_held (pidof s) |>)).
Proof.
  intros [Hi Hb] Hl. rewrite (acquiresleep_run (BufLock i) s (block b)) by (try done; simpl; by rewrite Hb).
  case_match; [done|]. f_equal. unfold put. cbn. by rewrite (list_alter_insert _ _ _ _ Hb).
Qed.

Lemma head_lookup s l : ring (bufs s) l -> exists h, bufs s !! NBUF = Some h.
Proof. intros Hr. apply lookup_lt_is_Some_2. eapply ring_lt; [done|]. set_solver. Qed.

Lemma ring_bufi s l i b : ring (bufs s) l -> i ∈ l -> bufs s !! i = Some b -> bufi s i b.
Proof. intros (_ & Hl & _) Hi Hb. split; [|done]. rewrite Hl, elem_of_seq in Hi. lia. Qed.

Lemma bufi_ring s l i b : ring (bufs s) l -> bufi s i b -> i ∈ l.
Proof. intros (_ & Hl & _) [Hi Hb]. rewrite Hl, elem_of_seq. lia. Qed.

(** ** bget *)

Definition hit_buf (pid : Z) (b : buf) : buf :=
  b <| brefcnt ::= fun n => u32 (n + 1) |> <| block ::= sl_held pid |>.
Definition miss_buf (pid n : Z) (b : buf) : buf :=
  b <| bdev := 1 |> <| blockno := n |> <| bflags := 0 |> <| brefcnt := 1 |> <| block ::= sl_held pid |>.

Lemma bget_first s l n i b :
  bio_ok s l -> bufi s i b -> for_block n b -> first (at_buf (bufs s) (is_block 1 n)) l = Some i.
Proof.
  intros Hok Hb Hn. destruct (first _ l) as [j|] eqn:Hf.
  - apply first_some in Hf as [Hj (c & Hc & [Hm1 Hm2]%is_block_spec)%at_buf_true].
    f_equal. destruct Hn. eapply (bo_uniq _ _ Hok); [eapply ring_bufi; [apply Hok|done..]|exact Hb|done..|congruence].
  - apply (first_none _ _ i) in Hf; [|eapply bufi_ring; [apply Hok|done]].
    unfold at_buf in Hf. destruct Hb as [_ Hb]. rewrite Hb in Hf. simpl in Hf.
    apply is_block_spec in Hn. congruence.
Qed.

Lemma bget_none s l n :
  bio_ok s l -> uncached s n -> first (at_buf (bufs s) (is_block 1 n)) l = None.
Proof.
  intros Hok Hu. destruct (first _ l) as [j|] eqn:Hf; [|done].
  apply first_some in Hf as [Hj (c & Hc & Hm%is_block_spec)%at_buf_true].
  exfalso. eapply Hu; [eapply ring_bufi; [apply Hok|done..]|done].
Qed.

Lemma bget_hit s l n i b :
  bio_ok s l -> bufi s i b -> for_block n b ->
  bget 1 n s =
    if c_true (sl_locked (block b)) then Stop (ASleepLock i) (put s i (b <| brefcnt ::= fun n => u32 (n + 1) |>))
    else Ret i (put s i (hit_buf (pidof s) b)).
Proof.
  intros Hok Hb Hn. unfold bget. runs1 (bcache_acquire_run s (bo_lock _ _ Hok)).
  set (s1 := s <| bc_lock := true |>).
  destruct (head_lookup s l (bo_ring _ _ Hok)) as [h Hh].
  runs1 (buf_at_run s1 NBUF h Hh). runs1 (bget_cached_run s1 l 1 n h (bo_ring _ _ Hok) Hh).
  change (bufs s1) with (bufs s). rewrite (bget_first _ _ _ _ _ Hok Hb Hn).
  runs1 (upd_put s1 i b (fun r => r <| brefcnt ::= fun n => u32 (n + 1) |>) Hb).
  runs1 (bcache_release_run (put s1 i (b <| brefcnt ::= fun n => u32 (n + 1) |>)) eq_refl).
  unfold s1. rewrite locked_put, unlock_id by apply Hok.
  set (b1 := b <| brefcnt ::= fun n => u32 (n + 1) |>).
  unfold bind. rewrite (acquiresleep_buf _ i b1) by (by eapply put_same || apply (bo_buf _ _ Hok _ _ Hb)).
  change (sl_locked (block b1)) with (sl_locked (block b)). destruct (c_true _); [done|].
  unfold ret. by rewrite put_put.
Qed.

Lemma bget_miss s l n j b :
  bio_ok s l -> uncached s n -> first (at_buf (bufs s) is_unused) (reverse l) = Some j -> bufi s j b ->
  bget 1 n s = Ret j (put s j (miss_buf (pidof s) n b)).
Proof.
  intros Hok Hu Hj Hb. unfold bget. runs1 (bcache_acquire_run s (bo_lock _ _ Hok)).
  set (s1 := s <| bc_lock := true |>).
  destruct (head_lookup s l (bo_ring _ _ Hok)) as [h Hh].
  runs1 (buf_at_run s1 NBUF h Hh). runs1 (bget_cached_run s1 l 1 n h (bo_ring _ _ Hok) Hh).
  change (bufs s1) with (bufs s). rewrite (bget_none _ _ _ Hok Hu).
  runs1 (buf_at_run s1 NBUF h Hh). runs1 (bget_unused_run s1 l h (bo_ring _ _ Hok) Hh).
  change (bufs s1) with (bufs s). rewrite Hj.
  assert (Hun : unlocked b).
  { apply first_some in Hj as [_ (c & Hc & Hcu)%at_buf_true]. destruct Hb as [Hi Hb].
    rewrite Hb in Hc. simplify_eq. apply andb_prop in Hcu as [Hr%Z.eqb_eq _].
    by apply (bk_unref _ _ (bo_buf _ _ Hok j c (conj Hi Hb))). }
  runs1 (upd_put s1 j b (fun r => r <| bdev := 1 |>) Hb).
  erewrite bind_ret_eq; [|exact (upd_put_put s1 j b _ _ Hb)].
  erewrite bind_ret_eq; [|exact (upd_put_put s1 j b _ _ Hb)].
  erewrite bind_ret_eq; [|exact (upd_put_put s1 j b _ _ Hb)].
  set (b1 := b <| bdev := 1 |> <| blockno := n |> <| bflags := 0 |> <| brefcnt := 1 |>).
  runs1 (bcache_release_run (put s1 j b1) eq_refl).
  unfold s1. rewrite locked_put, unlock_id by apply Hok.
  unfold bind. rewrite (acquiresleep_buf _ j b1) by (by eapply put_same || apply (bo_buf _ _ Hok _ _ Hb)).
  change (sl_locked (block b1)) with (sl_locked (block b)). rewrite Hun.
  unfold ret. simpl. by rewrite put_put.
Qed.

Lemma bget_full s l n :
  bio_ok s l -> uncached s n -> (forall i b, bufi s i b -> is_unused b = false) ->
  exists s', bget 1 n s = Panic "bget: no buffers" s'.
Proof.
  intros Hok Hu Hf. unfold bget. runs1 (bcache_acquire_run s (bo_lock _ _ Hok)).
  set (s1 := s <| bc_lock := true |>).
  destruct (head_lookup s l (bo_ring _ _ Hok)) as [h Hh].
  runs1 (buf_at_run s1 NBUF h Hh). runs1 (bget_cached_run s1 l 1 n h (bo_ring _ _ Hok) Hh).
  change (bufs s1) with (bufs s). rewrite (bget_none _ _ _ Hok Hu).
  runs1 (buf_at_run s1 NBUF h Hh). runs1 (bget_unused_run s1 l h (bo_ring _ _ Hok) Hh).
  change (bufs s1) with (bufs s). destruct (first _ _) as [j|] eqn:Hj; [|by eexists].
  apply first_some in Hj as [Hj (b & Hb & Hbu)%at_buf_true].
  rewrite (Hf j b) in Hbu; [done|]. exact (ring_bufi s l j b (bo_ring _ _ Hok) (proj1 (elem_of_reverse _ _) Hj) Hb).
Qed.

(** ** bread *)

Definition read_buf (pid n : Z) (data : list Z) (b : buf) : buf :=
  miss_buf pid n b <| bdata := data |> <| bflags := B_VALID |>.

Lemma valid_flag s b : buf_ok (disk s) b -> bflags b <> 0 -> (Z.land (bflags b) B_VALID =? 0) = false.
Proof. intros Hk Hn. destruct (bk_flags _ _ Hk) as [|[->| ->]]; done. Qed.

Lemma bread_hit s l n i b :
  bio_ok s l -> bufi s i b -> for_block n b -> unlocked b ->
  bread 1 n s = Ret i (put s i (hit_buf (pidof s) b)).
Proof.
  intros Hok Hb Hn Hu. unfold bread.
  assert (Hg := bget_hit s l n i b Hok Hb Hn). rewrite Hu in Hg. runs1 Hg.
  runs1 (buf_at_run _ _ _ (put_bufs s i b (hit_buf (pidof s) b) Hb)).
  pose proof (bo_buf _ _ Hok _ _ Hb) as Hk.
  change (bflags (hit_buf (pidof s) b)) with (bflags b).
  rewrite (valid_flag _ _ Hk); [done|]. apply Hk; [apply Hn|done].
Qed.

Lemma bread_miss s l n j b :
  bio_ok s l -> uncached s n -> 0 <= n < dsize (disk s) ->
  first (at_buf (bufs s) is_unused) (reverse l) = Some j -> bufi s j b ->
  bread 1 n s = Ret j (put s j (read_buf (pidof s) n (dblock (disk s) n) b)).
Proof.
  intros Hok Hu Hn Hj Hb. unfold bread. runs1 (bget_miss s l n j b Hok Hu Hj Hb).
  set (b1 := miss_buf (pidof s) n b).
  runs1 (buf_at_run _ _ _ (put_bufs s j b b1 Hb)). unfold whenM. cbn [bflags].
  change (bflags b1) with 0. change (Z.land 0 B_VALID =? 0) with true. cbv iota.
  assert (Hm : mine (put s j b1) b1).
  { split; [apply (bk_spin _ _ (bo_buf _ _ Hok _ _ Hb))|]. done. }
  runs1 (drv_read (put s j b1) j b1 (bo_disk _ _ Hok) (put_bufs s j b b1 Hb) Hm eq_refl Hn eq_refl).
  unfold ret. f_equal. apply put_put.
Qed.

(** The buffer [bread] returns is held by the caller and has the content of the
    block. *)
Lemma bio_ok_hit s l n i b :
  bio_ok s l -> bufi s i b -> for_block n b -> brefcnt b + 1 < 2 ^ 32 ->
  bio_ok (put s i (hit_buf (pidof s) b)) l.
Proof.
  intros Hok Hb Hn Hr. eapply bio_ok_put_same; [done..| |done|done].
  destruct (bo_buf _ _ Hok _ _ Hb). split; try done; cbn; rewrite ?u32_small by lia; try lia.
Qed.

Lemma bio_ok_miss s l n j b :
  bio_ok s l -> uncached s n -> 0 <= n < dsize (disk s) -> bufi s j b ->
  bio_ok (put s j (read_buf (pidof s) n (dblock (disk s) n) b)) l.
Proof.
  intros Hok Hu Hn Hb. eapply bio_ok_put; [done..| |].
  - destruct (bo_buf _ _ Hok _ _ Hb). split; try done; cbn.
    + apply drv_length; [apply Hok|done].
    + by right; left.
  - cbn. intros _ i c Hc _ Hd Hno. by eapply (Hu i c).
Qed.

(** ** bwrite and brelse *)

Lemma holdingsleep_buf s i b :
  bufi s i b -> mine s b -> holdingsleep (BufLock i) s = Ret true s.
Proof.
  intros [Hi Hb] (Hk & Hc & Hp).
  rewrite (holdingsleep_run _ _ (block b)); [|simpl; by rewrite Hb|done].
  by rewrite Hc, Hp, Z.eqb_refl.
Qed.

Lemma bwrite_run s l i b :
  bio_ok s l -> bufi s i b -> mine s b -> bdev b = 1 -> bflags b <> 0 ->
  exists d, bwrite i s = Ret tt (put (s <| disk := d |>) i (b <| bflags := B_VALID |>)) /\
    drv_ok d /\ dsize d = dsize (disk s) /\
    (forall n, 0 <= n < dsize d -> dblock d n = if n =? blockno b then bdata b else dblock (disk s) n) /\
    dwrites d = dwrites (disk s) ++ [(blockno b, bdata b)].
Proof.
  intros Hok Hb Hm Hd Hf. unfold bwrite. runs1 (holdingsleep_buf _ _ _ Hb Hm). cbn [negb].
  runs1 (upd_put s i b (fun r => r <| bflags ::= fun f => Z.lor f B_DIRTY |>) Hb).
  set (b1 := setter _ _).
  pose proof (bo_buf _ _ Hok _ _ Hb) as Hk.
  assert (Hf1 : bflags b1 = Z.lor B_VALID B_DIRTY).
  { change (bflags b1) with (Z.lor (bflags b) B_DIRTY).
    destruct (bk_flags _ _ Hk) as [?|[->| ->]]; done. }
  destruct (drv_write (put s i b1) i b1 (bo_disk _ _ Hok) (put_bufs s i b b1 Hb) Hm Hd
    (bk_range _ _ Hk Hd) Hf1 (bk_data _ _ Hk)) as (d & Hrun & H1 & H2 & H3 & H4).
  exists d. rewrite Hrun. split_and!; [|done..].
  f_equal. transitivity (put (put (s <| disk := d |>) i b1) i (b1 <| bflags := B_VALID |>)); [done|].
  by rewrite put_put.
Qed.

(** The flags and the data of a held buffer may be anything of the right form. *)
Lemma bio_ok_held s l i b f d :
  bio_ok s l -> bufi s i b -> mine s b -> length d = Z.to_nat BSIZE ->
  (f = 0 \/ f = B_VALID \/ f = Z.lor B_VALID B_DIRTY) ->
  bio_ok (put s i (b <| bflags := f |> <| bdata := d |>)) l.
Proof.
  intros Hok Hb (_ & Hc & _) Hl Hf. eapply bio_ok_put_same; [done..| |done|done].
  destruct (bo_buf _ _ Hok i b Hb).
  split; try done; unfold unlocked; cbn; intros _ Hu; exfalso; by rewrite Hu in Hc.
Qed.

(** Writing a held buffer: the block on the disk becomes the buffer's data. *)
Lemma bio_ok_write s l i b d :
  bio_ok s l -> bufi s i b -> mine s b -> bdev b = 1 ->
  drv_ok d -> dsize d = dsize (disk s) ->
  (forall n, 0 <= n < dsize d -> dblock d n = if n =? blockno b then bdata b else dblock (disk s) n) ->
  bio_ok (put (s <| disk := d |>) i (b <| bflags := B_VALID |>)) l.
Proof.
  intros Hok Hb Hm Hd Hdo Hds Hbl.
  set (b' := b <| bflags := B_VALID |>). set (s' := put s i b').
  assert (Hok' : bio_ok s' l).
  { apply (bio_ok_held s l i b B_VALID (bdata b)); [done..|apply (bo_buf _ _ Hok _ _ Hb)|tauto]. }
  split; try apply Hok'; [done|].
  intros j c Hc. pose proof (bo_buf _ _ Hok' j c Hc) as [? ? ? ? ? Hr Hv Hcl].
  split; try done.
  - intros H. cbn. rewrite Hds. by apply Hr.
  - intros H H0 H1. cbn. rewrite Hbl by (rewrite Hds; by apply Hr).
    destruct (Z.eqb_spec (blockno c) (blockno b)) as [Heq|]; [|by apply Hcl].
    exfalso. assert (j = i) as ->.
    { eapply (bo_uniq _ _ Hok' j i c b'); [done|by eapply put_same|done..]. }
    destruct Hm as (_ & Hc2 & _). rewrite <-not_false_iff_true in Hc2. apply Hc2.
    destruct Hc as [_ Hc]. unfold unlocked in H0.
    pose proof (put_bufs s i b b' Hb) as Hp. change (bufs s' !! i = Some c) in Hc.
    unfold s' in Hc. rewrite Hp in Hc. simplify_eq. cbn in H0. by rewrite H0.
Qed.

(** Changes of the list pointers do not show. *)
Lemma relinked_bufi s s' i b' :
  relinked s s' -> bufi s' i b' -> exists b, bufi s i b /\ core b' = core b.
Proof.
  intros (bs & -> & Hc) [Hi Hb]. specialize (Hc i). cbn in Hb. rewrite Hb in Hc.
  symmetry in Hc. apply fmap_Some in Hc as (b & Hb' & Hcore). exists b. split; [by split|done].
Qed.

Lemma relinked_bufi_inv s s' i b :
  relinked s s' -> bufi s i b -> exists b', bufi s' i b' /\ core b' = core b.
Proof.
  intros (bs & -> & Hc) [Hi Hb]. destruct (same_core_lookup _ _ _ _ Hc Hb) as (b' & Hb' & Hcore).
  exists b'. by split.
Qed.

Lemma core_fields b c : core b = core c ->
  bflags b = bflags c /\ bdev b = bdev c /\ blockno b = blockno c /\ block b = block c /\
  brefcnt b = brefcnt c /\ bdata b = bdata c.
Proof. destruct b, c. unfold core. cbn. intros [= -> -> -> -> -> -> ->]. done. Qed.

Lemma buf_ok_core s b c : core b = core c -> buf_ok (disk s) b -> buf_ok (disk s) c.
Proof.
  intros (Hf & Hd & Hn & Hl & Hr & Hda)%core_fields [].
  unfold dirty, unlocked in *. rewrite Hf, Hd, Hn, Hl, Hr, Hda in *. by split.
Qed.

Lemma bio_ok_relinked s s' l l' :
  bio_ok s l -> relinked s s' -> ring (bufs s') l' -> bio_ok s' l'.
Proof.
  intros Hok Hr Hring. pose proof Hr as (bs & -> & Hc). split; [done|apply Hok|apply Hok|..].
  - intros i b' Hb. destruct (relinked_bufi _ _ _ _ Hr Hb) as (b & Hb0 & Hcore).
    destruct (buf_ok_core s b b' (eq_sym Hcore) (bo_buf _ _ Hok _ _ Hb0)). by split.
  - intros i j b c Hb Hcc. destruct (relinked_bufi _ _ _ _ Hr Hb) as (b0 & Hb0 & Hcb).
    destruct (relinked_bufi _ _ _ _ Hr Hcc) as (c0 & Hc0 & Hccc).
    apply core_fields in Hcb as (_ & -> & -> & _), Hccc as (_ & -> & -> & _).
    apply (bo_uniq _ _ Hok i j b0 c0 Hb0 Hc0).
Qed.

Lemma vw_relinked s s' l l' n :
  bio_ok s l -> bio_ok s' l' -> relinked s s' -> vw s' n = vw s n.
Proof.
  intros Hok Hok' Hr. destruct (cached_dec s n) as [(i & b & Hb & Hf)|Hu].
  - rewrite (vw_cached _ _ _ _ _ Hok Hb Hf).
    destruct (relinked_bufi_inv _ _ _ _ Hr Hb) as (b' & Hb' & (_ & Hd & Hn & _ & _ & <-)%core_fields).
    eapply vw_cached; [done|exact Hb'|]. destruct Hf. split; congruence.
  - rewrite !vw_uncached; [by destruct Hr as (? & -> & _)|done|].
    intros i b' Hb' [Hf1 Hf2]. destruct (relinked_bufi _ _ _ _ Hr Hb') as (b & Hb & (_ & Hd & Hn & _)%core_fields).
    apply (Hu i b Hb). split; congruence.
Qed.

Lemma relinked_lookup s s' i b :
  relinked s s' -> bufi s i b ->
  exists b', bufi s' i b' /\ bflags b' = bflags b /\ bdev b' = bdev b /\ blockno b' = blockno b /\
    block b' = block b /\ brefcnt b' = brefcnt b /\ bdata b' = bdata b.
Proof. intros Hr Hb. destruct (relinked_bufi_inv _ _ _ _ Hr Hb) as (b' & ? & ?%core_fields). eauto. Qed.

(** ** brelse *)

Definition rel_buf (b : buf) : buf :=
  b <| block ::= sl_free |> <| brefcnt ::= fun n => u32 (n - 1) |>.
Definition woken s (i : nat) : fsys D := s <| wakes ::= fun w => w ++ [ASleepLock i] |>.

Lemma releasesleep_buf s i b :
  bufi s i b -> sl_lk (block b) = false ->
  releasesleep (BufLock i) s = Ret tt (put (woken s i) i (b <| block ::= sl_free |>)).
Proof.
  intros [Hi Hb] Hl. rewrite (releasesleep_run (BufLock i) s (block b)) by (try done; simpl; by rewrite Hb).
  f_equal. unfold put, woken. cbn. by rewrite (list_alter_insert _ _ _ _ Hb).
Qed.

(** A buffer is released: it may be let go of when its data is what the disk or
    the log will have. *)
Definition releasable s (b : buf) : Prop :=
  bdev b = 1 -> bflags b <> 0 /\ (bflags b = B_VALID -> bdata b = dblock (disk s) (blockno b)).

Lemma bio_ok_rel s l i b :
  bio_ok s l -> bufi s i b -> 1 <= brefcnt b -> releasable s b ->
  bio_ok (put (woken s i) i (rel_buf b)) l.
Proof.
  intros Hok Hb Hr Hre. assert (Hok' : bio_ok (woken s i) l) by (by destruct Hok).
  eapply bio_ok_put_same; [done|exact Hb|done..| |done|done].
  destruct (bo_buf _ _ Hok _ _ Hb). split; try done; cbn.
  - rewrite u32_small by lia. lia.
  - intros Hd _. by apply Hre.
  - intros Hd _. by apply Hre.
Qed.

Lemma brelse_run s l i b :
  bio_ok s l -> bufi s i b -> mine s b -> 1 <= brefcnt b -> releasable s b ->
  exists s' l', brelse i s = Ret tt s' /\ relinked (put (woken s i) i (rel_buf b)) s' /\ bio_ok s' l' /\
    l' = if brefcnt b =? 1 then i :: List.remove Nat.eq_dec i l else l.
Proof.
  intros Hok Hb Hm Hr Hre. unfold brelse. runs1 (holdingsleep_buf _ _ _ Hb Hm). cbn [negb].
  pose proof (bo_buf _ _ Hok _ _ Hb) as Hk. runs1 (releasesleep_buf s i b Hb (bk_spin _ _ Hk)).
  set (s1 := put (woken s i) i _).
  assert (Hw : bufi (woken s i) i b) by exact Hb.
  runs1 (bcache_acquire_run s1 (bo_lock _ _ Hok)).
  assert (Hb1 : bufi (s1 <| bc_lock := true |>) i (b <| block ::= sl_free |>)) by exact (put_same _ _ _ _ Hw).
  runs1 (upd_put _ i _ (fun r => r <| brefcnt ::= fun n => u32 (n - 1) |>) Hb1).
  fold (rel_buf b). set (s2 := put (s1 <| bc_lock := true |>) i (rel_buf b)).
  assert (Hs2 : s2 = put (woken s i) i (rel_buf b) <| bc_lock := true |>).
  { unfold s2, s1, put, woken. destruct s; cbn. by rewrite list_insert_insert_eq. }
  assert (Hb2 : bufs s2 !! i = Some (rel_buf b)) by exact (put_bufs _ _ _ _ Hb1).
  runs1 (buf_at_run _ _ _ Hb2).
  assert (Hok2 : bio_ok (put (woken s i) i (rel_buf b)) l) by (by apply bio_ok_rel).
  change (brefcnt (rel_buf b)) with (u32 (brefcnt b - 1)). rewrite u32_small by (pose proof (bk_ref _ _ Hk); lia).
  destruct (Z.eqb_spec (brefcnt b) 1) as [Heq|Hne].
  - replace (brefcnt b - 1 =? 0) with true by lia. cbn [whenM].
    assert (Hin : i ∈ l) by (eapply bufi_ring; [apply Hok|exact Hb]).
    apply list_elem_of_split in Hin as (l1 & l2 & ->).
    destruct (brelse_move_run s2 l1 i l2) as (s3 & E & Hrl & Hring); [by rewrite Hs2; apply Hok2|].
    assert (Hl3 : bc_lock s3 = true) by (destruct Hrl as (? & -> & _); done).
    runs1 E. rewrite (bcache_release_run s3 Hl3). exists (s3 <| bc_lock := false |>). eexists.
    assert (Hrel : relinked (put (woken s i) i (rel_buf b)) (s3 <| bc_lock := false |>)).
    { rewrite Hs2 in Hrl. destruct Hrl as (bs & -> & Hc). exists bs. split; [|exact Hc].
      pose proof (bo_lock _ _ Hok) as Hlk. destruct s; cbn in *. by subst. }
    split_and!; [done|exact Hrel| |done].
    rewrite (remove_middle l1 i l2).
    + eapply bio_ok_relinked; [exact Hok2|exact Hrel|exact Hring].
    + pose proof (ring_nodup _ _ (bo_ring _ _ Hok)) as [_ Hnd]%NoDup_cons. done.
  - replace (brefcnt b - 1 =? 0) with false by lia. unfold whenM. rewrite bind_ret.
    rewrite (bcache_release_run s2 eq_refl). exists (put (woken s i) i (rel_buf b)), l.
    split_and!; [|apply relinked_refl|done|done]. f_equal. rewrite Hs2.
    pose proof (bo_lock _ _ Hok) as Hlk. destruct s; cbn in *. by subst.
Qed.
End Ops.
