(* ===== verification/BioSeq.v ===== *)
(** * The buffer cache seen by one thread

    [idle s l P H]: the blocks in [H] are held by the running process, the
    blocks in [P] are pinned by the log, and no other buffer is in use.  The
    lemmas are the contract log.c uses: what [bread], [bwrite] and [brelse]
    return, what they do to the view [vw] and to the disk, and that [bread]
    always finds a buffer while fewer than [NBUF] blocks are pinned or held. *)
From S2P Require Import Prelude Bytes Spinlock ProcDefs Memory Kalloc FsDefs Bio BioRing BioSpec BioOps.
Local Open Scope Z_scope.
Local Open Scope kernel_scope.

Section Seq.
Context {D : Type} `{!Driver D, !DriverSpec D}.
Implicit Types s : fsys D.
Implicit Types P H : gset Z.

Record idle s (l : list nat) P H : Prop := {
  id_ok : bio_ok s l;
  id_ref : forall i b, bufi s i b -> brefcnt b = if decide (bdev b = 1 /\ blockno b ∈ H) then 1 else 0;
  id_mine : forall i b, bufi s i b -> bdev b = 1 -> blockno b ∈ H -> mine s b /\ bflags b <> 0;
  id_pin : forall i b, bufi s i b -> dirty b <-> bdev b = 1 /\ blockno b ∈ P;
  id_cached : forall n, n ∈ P ∪ H -> exists i b, bufi s i b /\ for_block n b
}.

(** Buffer [i] is the buffer of block [n], with data [d]. *)
Definition shows s (i : nat) (n : Z) (d : list Z) : Prop :=
  exists b, bufi s i b /\ for_block n b /\ bdata b = d.

(** Only the cache, the disk and the recorded wakeups differ. *)
Definition below s s' : Prop :=
  s' = s <| wakes := wakes s' |> <| disk := disk s' |> <| bufs := bufs s' |>.

Lemma below_refl s : below s s.
Proof. by destruct s. Qed.
Lemma below_trans s1 s2 s3 : below s1 s2 -> below s2 s3 -> below s1 s3.
Proof. unfold below. destruct s1, s2, s3. cbn. congruence. Qed.
#[export] Instance below_preorder : PreOrder below.
Proof. split; [exact below_refl|exact below_trans]. Qed.

Lemma below_put s i b : below s (put s i b).
Proof. by destruct s. Qed.
Lemma below_relinked s s' : relinked s s' -> below s s'.
Proof. intros (bs & -> & _). by destruct s. Qed.
Lemma below_cur s s' : below s s' -> cur s' = cur s.
Proof. by intros ->. Qed.
Lemma below_lg s s' : below s s' -> lg s' = lg s.
Proof. by intros ->. Qed.

Lemma idle_shows s l P H i n d : idle s l P H -> shows s i n d -> vw s n = d.
Proof. intros Hi (b & Hb & Hn & <-). eapply vw_cached; [apply Hi|done..]. Qed.

(** ** There is a buffer to recycle *)

Lemma idle_unused s l P H :
  idle s l P H -> (size (P ∪ H) < NBUF)%nat ->
  exists j b, first (at_buf (bufs s) is_unused) (reverse l) = Some j /\ bufi s j b /\
    brefcnt b = 0 /\ ~ dirty b.
Proof.
  intros Hi Hs. pose proof (id_ok _ _ _ _ Hi) as Hok.
  destruct (first _ _) as [j|] eqn:Hf.
  { apply first_some in Hf as [Hj (b & Hb & [Hr%Z.eqb_eq Hd%Z.eqb_eq]%andb_prop)%at_buf_true].
    exists j, b. split_and!; [done| |done|].
    - eapply ring_bufi; [apply Hok|by apply elem_of_reverse|done].
    - unfold dirty. intros Hd'. by rewrite Hd' in Hd. }
  exfalso. apply (Nat.lt_irrefl NBUF). eapply Nat.le_lt_trans; [|exact Hs].
  set (no := fun i => from_option blockno 0 (bufs s !! i)).
  assert (Hall : forall i, (i < NBUF)%nat -> exists b, bufi s i b /\ bdev b = 1 /\ blockno b ∈ P ∪ H).
  { intros i Hlt. pose proof (bo_ring _ _ Hok) as (Hlen & Hl & _).
    destruct (lookup_lt_is_Some_2 (bufs s) i) as [b Hb]; [lia|]. assert (Hbi : bufi s i b) by done.
    apply (first_none _ _ i) in Hf; [|rewrite elem_of_reverse, Hl, elem_of_seq; lia].
    unfold at_buf in Hf. rewrite Hb in Hf. cbn in Hf. exists b. split; [done|].
    pose proof (id_ref _ _ _ _ Hi i b Hbi) as Hr. unfold is_unused in Hf.
    case_decide as Hd; [set_solver|]. rewrite Hr in Hf. cbn in Hf.
    destruct (bk_flags _ _ (bo_buf _ _ Hok i b Hbi)) as [Hz|[Hz|Hz]]; [by rewrite Hz in Hf..|].
    apply (id_pin _ _ _ _ Hi i b Hbi) in Hz. set_solver. }
  assert (Hsize : size (list_to_set (no <$> seq 0 NBUF) : gset Z) = NBUF).
  { rewrite size_list_to_set; [by rewrite length_fmap, length_seq|].
    apply NoDup_fmap_2_strong; [|apply NoDup_seq]. intros i j Hii Hjj Heq.
    rewrite elem_of_seq in Hii, Hjj.
    destruct (Hall i) as (b & Hb & Hb1 & _); [lia|]. destruct (Hall j) as (c & Hc & Hc1 & _); [lia|].
    eapply (bo_uniq _ _ Hok); [done..|]. unfold no in Heq.
    destruct Hb as [_ Hb], Hc as [_ Hc]. by rewrite Hb, Hc in Heq. }
  rewrite <-Hsize at 1. apply subseteq_size. intros n Hn.
  apply elem_of_list_to_set, list_elem_of_fmap in Hn as (i & -> & Hin). rewrite elem_of_seq in Hin.
  destruct (Hall i) as (b & [_ Hb] & _ & Hin'); [lia|]. unfold no. by rewrite Hb.
Qed.

(** ** Changing one buffer *)

Lemma idle_put s l P H P' H' i b b' :
  idle s l P H -> bufi s i b -> bio_ok (put s i b') l -> bdev b' = 1 ->
  (forall m, m <> blockno b' -> (m ∈ H' <-> m ∈ H) /\ (m ∈ P' <-> m ∈ P)) ->
  (bdev b = 1 -> blockno b <> blockno b' -> blockno b ∉ P ∪ H) ->
  brefcnt b' = (if decide (blockno b' ∈ H') then 1 else 0) ->
  (blockno b' ∈ H' -> mine s b' /\ bflags b' <> 0) -> (dirty b' <-> blockno b' ∈ P') ->
  idle (put s i b') l P' H'.
Proof.
  intros Hi Hb Hok Hd Hm Hold Href Hmine Hpin.
  assert (Hb' : bufi (put s i b') i b') by (by eapply put_same).
  assert (Hoth : forall j c, bufi s j c -> j <> i -> bdev c = 1 -> blockno c <> blockno b').
  { intros j c Hc Hne H1 Heq. apply Hne. eapply (bo_uniq _ _ Hok); [|exact Hb'|done..].
    apply (bufi_put _ _ _ _ _ _ Hb). by right. }
  split; [done|..].
  - intros j c [[-> ->]|[Hne Hc]]%(bufi_put _ _ _ _ _ _ Hb).
    + rewrite Href. repeat case_decide; naive_solver.
    + rewrite (id_ref _ _ _ _ Hi j c Hc). specialize (Hoth j c Hc Hne).
      repeat case_decide; try done; specialize (Hm (blockno c)); naive_solver.
  - intros j c [[-> ->]|[Hne Hc]]%(bufi_put _ _ _ _ _ _ Hb) H1 H2; [by apply Hmine|].
    apply (id_mine _ _ _ _ Hi j c Hc H1). by apply Hm; [eapply Hoth|].
  - intros j c [[-> ->]|[Hne Hc]]%(bufi_put _ _ _ _ _ _ Hb); [rewrite Hpin; naive_solver|].
    rewrite (id_pin _ _ _ _ Hi j c Hc). specialize (Hoth j c Hc Hne). specialize (Hm (blockno c)). naive_solver.
  - intros n Hn. destruct (decide (n = blockno b')) as [->|Hne]; [exists i, b'; by split|].
    assert (Hn0 : n ∈ P ∪ H) by (destruct (Hm n Hne); set_solver).
    destruct (id_cached _ _ _ _ Hi n Hn0) as (j & c & Hc & [Hc1 Hc2]). exists j, c. split; [|by split].
    apply (bufi_put _ _ _ _ _ _ Hb). right. split; [|done]. intros ->.
    destruct Hb as [_ Hb], Hc as [_ Hc]. rewrite Hb in Hc. simplify_eq. by apply Hold.
Qed.

Lemma shows_put_ne s i b b' j n d : bufi s i b -> j <> i -> shows s j n d -> shows (put s i b') j n d.
Proof. intros Hb Hne (c & Hc & ?). exists c. split; [|done]. apply (bufi_put _ _ _ _ _ _ Hb). by right. Qed.

(** ** bread *)

(** What a [bread] of block [n] gives the thread. *)
Definition bread_post s (l : list nat) P H (n : Z) (o : outcome (fsys D) kaddr nat) : Prop :=
  exists i s', o = Ret i s' /\ idle s' l P (H ∪ {[n]}) /\ shows s' i n (vw s n) /\
    (forall m, vw s' m = vw s m) /\ below s s' /\ disk s' = disk s /\
    (forall j m d, m ∈ H -> shows s j m d -> shows s' j m d).

Lemma bread_seq_hit s l P H n i b :
  idle s l P H -> n ∉ H -> bufi s i b -> for_block n b -> bread_post s l P H n (bread 1 n s).
Proof.
  intros Hi Hn Hb [Hf1 Hf2]. pose proof (id_ok _ _ _ _ Hi) as Hok.
  pose proof (id_ref _ _ _ _ Hi i b Hb) as Href.
  rewrite decide_False in Href by (rewrite Hf2; naive_solver).
  pose proof (bo_buf _ _ Hok i b Hb) as Hk. pose proof (bk_unref _ _ Hk Href) as Hun.
  rewrite (bread_hit s l n i b Hok Hb (conj Hf1 Hf2) Hun). set (b' := hit_buf _ b).
  assert (Hok' : bio_ok (put s i b') l) by (eapply bio_ok_hit; [done..|]; lia).
  exists i, (put s i b'). split_and!; [done|..].
  - eapply idle_put; [exact Hi|exact Hb|done|done|set_solver|naive_solver|..]; cbn.
    + rewrite decide_True by set_solver. by rewrite Href.
    + intros _. split; [split_and!; [apply Hk|done..]|]. by apply Hk.
    + rewrite Hf2. change (dirty b <-> n ∈ P). rewrite (id_pin _ _ _ _ Hi i b Hb), Hf2. naive_solver.
  - exists b'. split_and!; [by eapply put_same|done|]. by rewrite (vw_cached _ _ _ _ _ Hok Hb (conj Hf1 Hf2)).
  - intros m. rewrite (vw_put_same s l l i b b' m) by done. case_decide; [|done].
    by rewrite (vw_cached _ _ _ _ _ Hok Hb).
  - apply below_put.
  - done.
  - intros j m d Hm Hs. eapply shows_put_ne; [done| |done]. intros ->.
    destruct Hs as (c & [_ Hc] & [_ ?] & _), Hb as [_ Hb]. rewrite Hb in Hc. simplify_eq. done.
Qed.

(** Recycling a buffer that is not in use does not change what blocks show. *)
Lemma vw_recycle s l j b b' n m :
  bio_ok s l -> bio_ok (put s j b') l -> bufi s j b -> unlocked b -> ~ dirty b -> uncached s n ->
  for_block n b' -> bdata b' = dblock (disk s) n -> vw (put s j b') m = vw s m.
Proof.
  intros Hok Hok' Hb Hun Hnd Hu Hf Hd. destruct (decide (m = n)) as [->|Hne].
  { rewrite (vw_uncached s n Hu), <-Hd. eapply vw_cached; [done|by eapply put_same|done]. }
  destruct (decide (for_block m b)) as [[Hm1 Hm2]|Hfm].
  - rewrite (vw_clean s l m Hok).
    + apply (vw_uncached (put s j b') m).
      intros k c [[-> ->]|[Hk Hc]]%(bufi_put _ _ _ _ _ _ Hb) [Hf1 Hf2]; [destruct Hf; congruence|].
      apply Hk. eapply (bo_uniq _ _ Hok); [done..|congruence].
    + intros k c Hc [Hf1 Hf2].
      assert (k = j) as -> by (eapply (bo_uniq _ _ Hok); [done..|congruence]).
      destruct Hb as [? Hb], Hc as [_ Hc]. rewrite Hb in Hc. by simplify_eq.
  - eapply vw_put_other; [done..|]. intros [_ ?]. destruct Hf. congruence.
Qed.

Lemma bread_seq_miss s l P H n :
  idle s l P H -> uncached s n -> 0 <= n < dsize (disk s) -> (size (P ∪ H) < NBUF)%nat ->
  bread_post s l P H n (bread 1 n s).
Proof.
  intros Hi Hu Hr Hsz. pose proof (id_ok _ _ _ _ Hi) as Hok.
  destruct (idle_unused s l P H Hi Hsz) as (j & b & Hj & Hb & Href & Hnd).
  rewrite (bread_miss s l n j b Hok Hu Hr Hj Hb). set (b' := read_buf _ n _ b).
  assert (Hok' : bio_ok (put s j b') l) by (by apply bio_ok_miss).
  pose proof (bo_buf _ _ Hok j b Hb) as Hk.
  assert (Hold : bdev b = 1 -> blockno b ∉ P ∪ H).
  { intros H1 H2. pose proof (id_ref _ _ _ _ Hi j b Hb) as H3. rewrite Href in H3.
    case_decide as H4; [done|]. apply Hnd, (id_pin _ _ _ _ Hi j b Hb). set_solver. }
  exists j, (put s j b'). split_and!; [done|..].
  - eapply idle_put; [exact Hi|exact Hb|done|done|set_solver|by intros; apply Hold|..]; cbn.
    + by rewrite decide_True by set_solver.
    + intros _. split; [split_and!; [apply Hk|done..]|done].
    + split; [done|]. intros HP. destruct (id_cached _ _ _ _ Hi n) as (k & c & Hc & Hf); [set_solver|].
      by destruct (Hu k c).
  - exists b'. split_and!; [by eapply put_same|done|]. by rewrite vw_uncached.
  - intros m. apply (vw_recycle s l j b b' n m Hok Hok' Hb (bk_unref _ _ Hk Href) Hnd Hu); done.
  - apply below_put.
  - done.
  - intros k m d Hm Hs. eapply shows_put_ne; [done| |done]. intros ->.
    destruct Hs as (c & [_ Hc] & [Hd1 <-] & _). pose proof Hb as [_ Hb']. rewrite Hb' in Hc. simplify_eq.
    apply (Hold Hd1). set_solver.
Qed.

Lemma bread_seq s l P H n :
  idle s l P H -> n ∉ H -> 0 <= n < dsize (disk s) -> (n ∈ P \/ (size (P ∪ H) < NBUF)%nat) ->
  bread_post s l P H n (bread 1 n s).
Proof.
  intros Hi Hn Hr Hroom. destruct (cached_dec s n) as [(i & b & Hb & Hf)|Hu].
  - by eapply bread_seq_hit.
  - destruct Hroom as [HP|Hsz]; [|by apply bread_seq_miss].
    destruct (id_cached _ _ _ _ Hi n) as (i & b & Hb & Hf); [set_solver|]. by destruct (Hu i b).
Qed.

(** ** Changing the data of a held buffer *)

Lemma set_data_seq s l P H i n d d' :
  idle s l P H -> n ∈ H -> shows s i n d -> length d' = Z.to_nat BSIZE ->
  exists s', upd_buf i (fun b => b <| bdata := d' |>) s = Ret tt s' /\ idle s' l P H /\ shows s' i n d' /\
    (forall m, vw s' m = if m =? n then d' else vw s m) /\ below s s' /\ disk s' = disk s /\
    (forall j m e, j <> i -> shows s j m e -> shows s' j m e).
Proof.
  intros Hi Hn (b & Hb & Hf & <-) Hl. rewrite (upd_put s i b _ Hb). set (b' := b <| bdata := d' |>).
  pose proof (id_ok _ _ _ _ Hi) as Hok. pose proof Hf as [Hf1 Hf2].
  destruct (id_mine _ _ _ _ Hi i b Hb Hf1) as [Hm Hfl]; [by rewrite Hf2|].
  assert (Hok' : bio_ok (put s i b') l).
  { apply (bio_ok_held s l i b (bflags b) d'); [done..|apply (bo_buf _ _ Hok i b Hb)]. }
  eexists. split_and!; [done|..].
  - eapply idle_put; [exact Hi|exact Hb|done|done|done|naive_solver|..]; cbn.
    + rewrite decide_True by (by rewrite Hf2). rewrite (id_ref _ _ _ _ Hi i b Hb).
      by rewrite decide_True by (by rewrite Hf2).
    + done.
    + change (dirty b <-> blockno b ∈ P). rewrite (id_pin _ _ _ _ Hi i b Hb). naive_solver.
  - exists b'. by split; [eapply put_same|].
  - intros m. rewrite (vw_put_same s l l i b b' m) by done.
    destruct (Z.eqb_spec m n) as [->|]; case_decide as Hfm; [done|done|by destruct Hfm; congruence|done].
  - apply below_put.
  - done.
  - intros. by eapply shows_put_ne.
Qed.

(** ** bwrite *)

Lemma bwrite_seq s l P H i n d :
  idle s l P H -> n ∈ H -> shows s i n d ->
  exists s', bwrite i s = Ret tt s' /\ idle s' l (P ∖ {[n]}) H /\ shows s' i n d /\
    (forall m, 0 <= m < dsize (disk s) -> vw s' m = vw s m) /\ below s s' /\
    dsize (disk s') = dsize (disk s) /\
    (forall m, 0 <= m < dsize (disk s) -> dblock (disk s') m = if m =? n then d else dblock (disk s) m) /\
    dwrites (disk s') = dwrites (disk s) ++ [(n, d)] /\
    (forall j m e, j <> i -> shows s j m e -> shows s' j m e).
Proof.
  intros Hi Hn (b & Hb & Hf & <-). pose proof (id_ok _ _ _ _ Hi) as Hok. pose proof Hf as [Hf1 Hf2].
  destruct (id_mine _ _ _ _ Hi i b Hb Hf1) as [Hm Hfl]; [by rewrite Hf2|].
  destruct (bwrite_run s l i b Hok Hb Hm Hf1 Hfl) as (dk & Hrun & Hd1 & Hd2 & Hd3 & Hd4).
  rewrite Hf2 in Hd3, Hd4. set (b' := b <| bflags := B_VALID |>).
  assert (Hokd : bio_ok (put (s <| disk := dk |>) i b') l).
  { apply bio_ok_write; try done. by rewrite Hf2. }
  assert (Hok' : bio_ok (put s i b') l).
  { apply (bio_ok_held s l i b B_VALID (bdata b)); [done..|apply (bo_buf _ _ Hok i b Hb)|tauto]. }
  assert (Hid : idle (put s i b') l (P ∖ {[n]}) H).
  { eapply idle_put; [exact Hi|exact Hb|done|done|set_solver|naive_solver|..]; cbn.
    - rewrite (id_ref _ _ _ _ Hi i b Hb). rewrite !decide_True; rewrite ?Hf2; done.
    - intros _. by split.
    - rewrite Hf2. split; [done|]. set_solver. }
  eexists. split_and!; [exact Hrun|by destruct Hid|..].
  - exists b'. by split; [eapply (put_same (s <| disk := dk |>))|].
  - intros m Hm'. rewrite <-Hd2 in Hm'.
    assert (Hvw : vw (put s i b') m = vw s m).
    { rewrite (vw_put_same s l l i b b' m) by done. case_decide; [|done].
      by rewrite (vw_cached _ _ _ _ _ Hok Hb). }
    rewrite <-Hvw. destruct (cached_dec (put s i b') m) as [(j & c & Hc & Hcf)|Hu].
    + rewrite (vw_cached _ _ _ _ _ Hok' Hc Hcf). by apply (vw_cached _ _ _ _ _ Hokd Hc Hcf).
    + rewrite (vw_uncached _ _ Hu). rewrite vw_uncached by exact Hu. cbn. rewrite Hd3 by done.
      destruct (Z.eqb_spec m n) as [->|]; [|done]. destruct (Hu i b'); [by eapply put_same|done].
  - destruct s; done.
  - done.
  - intros m Hm'. by rewrite <-Hd2 in Hm'; apply Hd3.
  - done.
  - intros j m e Hne Hs. exact (shows_put_ne _ _ _ b' _ _ _ Hb Hne Hs).
Qed.

(** ** brelse *)

Lemma idle_relinked s s' l l' P H : idle s l P H -> relinked s s' -> bio_ok s' l' -> idle s' l' P H.
Proof.
  intros Hi Hr Hok. split; [done|..].
  - intros i b' Hb. destruct (relinked_bufi _ _ _ _ Hr Hb) as (b & Hb0 & (_ & -> & -> & _ & -> & _)%core_fields).
    by apply (id_ref _ _ _ _ Hi i).
  - intros i b' Hb. destruct (relinked_bufi _ _ _ _ Hr Hb) as (b & Hb0 & (Hf & -> & -> & Hl & _)%core_fields).
    unfold mine. rewrite Hl, Hf. destruct Hr as (? & -> & _). apply (id_mine _ _ _ _ Hi i b Hb0).
  - intros i b' Hb. destruct (relinked_bufi _ _ _ _ Hr Hb) as (b & Hb0 & (Hf & -> & -> & _)%core_fields).
    unfold dirty. rewrite Hf. apply (id_pin _ _ _ _ Hi i b Hb0).
  - intros n Hn. destruct (id_cached _ _ _ _ Hi n Hn) as (i & b & Hb & Hf).
    destruct (relinked_lookup _ _ _ _ Hr Hb) as (b' & Hb' & _ & Hd & Hno & _).
    exists i, b'. split; [done|]. destruct Hf. split; congruence.
Qed.

Lemma shows_relinked s s' i n d : relinked s s' -> shows s i n d -> shows s' i n d.
Proof.
  intros Hr (b & Hb & [Hf1 Hf2] & Hd). destruct (relinked_lookup _ _ _ _ Hr Hb) as (b' & Hb' & _ & H1 & H2 & _ & _ & H3).
  exists b'. split_and!; [done|split; congruence|congruence].
Qed.

Lemma brelse_seq s l P H i n d :
  idle s l P H -> n ∈ H -> shows s i n d -> (n ∈ P \/ d = dblock (disk s) n) ->
  exists s' l', brelse i s = Ret tt s' /\ idle s' l' P (H ∖ {[n]}) /\
    (forall m, vw s' m = vw s m) /\ below s s' /\ disk s' = disk s /\
    (forall j m e, j <> i -> shows s j m e -> shows s' j m e).
Proof.
  intros Hi Hn (b & Hb & Hf & <-) Hrel. pose proof (id_ok _ _ _ _ Hi) as Hok. pose proof Hf as [Hf1 Hf2].
  destruct (id_mine _ _ _ _ Hi i b Hb Hf1) as [Hm Hfl]; [by rewrite Hf2|].
  pose proof (id_ref _ _ _ _ Hi i b Hb) as Hr. rewrite decide_True in Hr by (by rewrite Hf2).
  assert (Hre : releasable s b).
  { intros _. split; [done|]. intros Hv. rewrite Hf2. destruct Hrel as [HP|]; [|done]. exfalso.
    assert (Hdd : dirty b) by (apply (id_pin _ _ _ _ Hi i b Hb); by rewrite Hf2).
    unfold dirty in Hdd. by rewrite Hv in Hdd. }
  destruct (brelse_run s l i b Hok Hb Hm) as (s' & l' & Hrun & Hrl & Hok' & _); [lia|done|].
  set (b' := rel_buf b) in *.
  assert (Hokw : bio_ok (put (woken s i) i b') l) by (apply bio_ok_rel; [done..|lia|done]).
  assert (Hokp : bio_ok (put s i b') l) by (by destruct Hokw).
  assert (Hid : idle (put s i b') l P (H ∖ {[n]})).
  { eapply idle_put; [exact Hi|exact Hb|done|done|rewrite <-Hf2; set_solver|naive_solver|..]; cbn.
    - rewrite decide_False by (rewrite Hf2; set_solver). by rewrite Hr.
    - rewrite Hf2. set_solver.
    - change (dirty b <-> blockno b ∈ P). rewrite (id_pin _ _ _ _ Hi i b Hb). naive_solver. }
  assert (Hvw : forall m, vw (put s i b') m = vw s m).
  { intros m. rewrite (vw_put_same s l l i b b' m) by done. case_decide; [|done].
    by rewrite (vw_cached _ _ _ _ _ Hok Hb). }
  assert (Hidw : idle (put (woken s i) i b') l P (H ∖ {[n]})) by (by destruct Hid).
  exists s', l'. split_and!; [done|by eapply idle_relinked| | | |].
  - intros m. rewrite <-Hvw. by apply (vw_relinked _ s' l l' m Hokw).
  - etransitivity; [|by apply below_relinked]. by destruct s.
  - by destruct Hrl as (? & -> & _).
  - intros j m e Hne Hs. eapply shows_relinked; [done|].
    apply (shows_put_ne (woken s i) i b b'); [exact Hb|done|exact Hs].
Qed.
End Seq.
