(* ===== verification/Log.v ===== *)
(** * The log: log.c

    The write-ahead log over the buffer cache.  The header block is read and
    written through a pointer into the data of its buffer: [n] at offset 0 and
    [block[i]] at offset [4 + 4 i]. *)
From S2P Require Import Prelude Bytes Spinlock ProcDefs Memory Kalloc FsDefs Bio.
Local Open Scope Z_scope.
Local Open Scope kernel_scope.

Section Log.
Context {D : Type} `{!Driver D}.

(** Writes through a pointer into [b->data]; [f] gives the new bytes, [None]
    when the access is outside of it. *)
Definition set_data (b : nat) (f : list Z -> option (list Z)) : F D unit :=
  do r <- buf_at b;
  do d <- orUndef "b->data" (f (bdata r));
  upd_buf b (fun r => r <| bdata := d |>).

(** [log.lh.block[i]] *)
Definition get_lh (i : nat) : F D Z :=
  do l <- gets lg; orUndef "log.lh.block" (lh_block l !! i).
Definition set_lh (i : nat) (v : Z) : F D unit :=
  do l <- gets lg;
  if decide (i < length (lh_block l))%nat then upd_log (fun l => l <| lh_block ::= <[i := s32 v]> |>)
  else undef "log.lh.block".

(** fs.c: [readsb(dev, &sb)] *)
Definition parse_sb (d : list Z) : option superblock :=
  a ← ld 4 0 d; b ← ld 4 4 d; c ← ld 4 8 d; e ← ld 4 12 d;
  f ← ld 4 16 d; g ← ld 4 20 d; h ← ld 4 24 d;
  Some (Superblock a b c e f g h).

Definition readsb (dev : Z) : F D superblock :=
  do bp <- bread dev 1;
  do r <- buf_at bp;
  do x <- orUndef "superblock" (parse_sb (bdata r));
  brelse bp;;
  ret x.

Definition install_one (tail : nat) : F D unit :=
  do l <- gets lg;
  do lbuf <- bread (u32 (lg_dev l)) (u32 (lg_start l + Z.of_nat tail + 1));
  do x <- get_lh tail;
  do dbuf <- bread (u32 (lg_dev l)) (u32 x);
  do r <- buf_at lbuf;
  set_data dbuf (fun _ => Some (bdata r));;
  bwrite dbuf;;
  brelse lbuf;;
  brelse dbuf.

Definition install_trans : F D unit :=
  do l <- gets lg;
  forM (seq 0 (Z.to_nat (lh_n l))) install_one.

Definition read_head : F D unit :=
  do l <- gets lg;
  do buf <- bread (u32 (lg_dev l)) (u32 (lg_start l));
  do r <- buf_at buf;
  do n <- orUndef "lh->n" (ld 4 0 (bdata r));
  upd_log (fun l => l <| lh_n := s32 n |>);;
  forM (seq 0 (Z.to_nat (s32 n))) (fun i =>
    do v <- orUndef "lh->block" (ld 4 (4 + 4 * i) (bdata r));
    set_lh i v);;
  brelse buf.

Definition write_head : F D unit :=
  do l <- gets lg;
  do buf <- bread (u32 (lg_dev l)) (u32 (lg_start l));
  set_data buf (st 4 0 (lh_n l));;
  forM (seq 0 (Z.to_nat (lh_n l))) (fun i =>
    do v <- get_lh i;
    set_data buf (st 4 (4 + 4 * i) v));;
  bwrite buf;;
  brelse buf.

Definition recover_from_log : F D unit :=
  read_head;;
  install_trans;;
  upd_log (fun l => l <| lh_n := 0 |>);;
  write_head.

(** [sizeof(struct logheader)] is 4 * (1 + LOGSIZE). *)
Definition initlog (dev : Z) : F D unit :=
  if BSIZE <=? 4 * (1 + Z.of_nat LOGSIZE) then panic "initlog: too big logheader" else
  upd_log (fun l => l <| lg_lock := false |>);;
  do x <- readsb (u32 dev);
  upd_log (fun l => l <| lg_start := s32 (sb_logstart x) |>);;
  upd_log (fun l => l <| lg_size := s32 (sb_nlog x) |>);;
  upd_log (fun l => l <| lg_dev := dev |>);;
  recover_from_log.

(** One pass of the loop of [begin_op]; [sleep] gives the lock back. *)
Definition begin_op : F D unit :=
  log_acquire;;
  do l <- gets lg;
  if c_true (committing l) then log_release;; stop ALog else
  if Z.of_nat LOGSIZE <? lh_n l + (outstanding l + 1) * MAXOPBLOCKS then log_release;; stop ALog else
  upd_log (fun l => l <| outstanding ::= fun n => s32 (n + 1) |>);;
  log_release.

Definition write_one (tail : nat) : F D unit :=
  do l <- gets lg;
  do to <- bread (u32 (lg_dev l)) (u32 (lg_start l + Z.of_nat tail + 1));
  do x <- get_lh tail;
  do from <- bread (u32 (lg_dev l)) (u32 x);
  do r <- buf_at from;
  set_data to (fun _ => Some (bdata r));;
  bwrite to;;
  brelse from;;
  brelse to.

Definition write_log : F D unit :=
  do l <- gets lg;
  forM (seq 0 (Z.to_nat (lh_n l))) write_one.

Definition commit : F D unit :=
  do l <- gets lg;
  if 0 <? lh_n l then
    write_log;;
    write_head;;
    install_trans;;
    upd_log (fun l => l <| lh_n := 0 |>);;
    write_head
  else ret tt.

Definition end_op : F D unit :=
  log_acquire;;
  upd_log (fun l => l <| outstanding ::= fun n => s32 (n - 1) |>);;
  do l <- gets lg;
  if c_true (committing l) then panic "log.committing" else
  (if outstanding l =? 0 then upd_log (fun l => l <| committing := 1 |>) else wakeup ALog);;
  log_release;;
  if outstanding l =? 0 then
    commit;;
    log_acquire;;
    upd_log (fun l => l <| committing := 0 |>);;
    wakeup ALog;;
    log_release
  else ret tt.

(** for (i = 0; i < log.lh.n; i++) if (log.lh.block[i] == b->blockno) break; *)
Fixpoint absorb (bl : list Z) (bno : Z) : nat :=
  match bl with
  | [] => 0
  | x :: bl' => if u32 x =? bno then 0%nat else S (absorb bl' bno)
  end.

Definition log_write (b : nat) : F D unit :=
  do l <- gets lg;
  if (Z.of_nat LOGSIZE <=? lh_n l) || (lg_size l - 1 <=? lh_n l) then panic "too big a transaction" else
  if outstanding l <? 1 then panic "log_write outside of trans" else
  log_acquire;;
  do r <- buf_at b;
  let i := absorb (take (Z.to_nat (lh_n l)) (lh_block l)) (blockno r) in
  set_lh i (blockno r);;
  whenM (Z.of_nat i =? lh_n l) (upd_log (fun l => l <| lh_n ::= fun n => n + 1 |>));;
  upd_buf b (fun r => r <| bflags ::= fun f => Z.lor f B_DIRTY |>);;
  log_release.
End Log.
