(* ===== verification/LogSpec.v ===== *)
(** * What the log does to the disk

    [writes s P ws o]: a piece of log.c ran to the end without a panic, wrote
    the blocks [ws] to the disk in that order, and left the cache idle with the
    blocks [P] pinned.  The lemmas give the writes of [write_log],
    [write_head] and [install_trans]. *)
From S2P Require Import Prelude Bytes Spinlock ProcDefs Memory Kalloc FsDefs.
From S2P Require Import Bio BioRing BioSpec BioOps BioSeq Log.
Local Open Scope Z_scope.
Local Open Scope kernel_scope.

(** The contents of blocks after writes, the last write of a block counting. *)
Fixpoint applyw (ws : list (Z * list Z)) (f : Z -> list Z) : Z -> list Z :=
  match ws with
  | [] => f
  | (n, d) :: ws' => applyw ws' (fun m => if m =? n then d else f m)
  end.

Lemma applyw_app ws1 ws2 f : applyw (ws1 ++ ws2) f = applyw ws2 (applyw ws1 f).
Proof. revert f. induction ws1 as [|[n d] ws IH]; intros f; simpl; [done|apply IH]. Qed.

Lemma applyw_ext ws f g m : f m = g m -> applyw ws f m = applyw ws g m.
Proof.
  revert f g. induction ws as [|[n d] ws IH]; intros f g H; simpl; [done|].
  apply IH. by destruct (m =? n).
Qed.

Lemma applyw_other ws f m : m ∉ ws.*1 -> applyw ws f m = f m.
Proof.
  revert f. induction ws as [|[n d] ws IH]; intros f H; simpl; [done|].
  rewrite IH by set_solver. destruct (Z.eqb_spec m n); [set_solver|done].
Qed.

Lemma applyw_in ws f m d : NoDup ws.*1 -> (m, d) ∈ ws -> applyw ws f m = d.
Proof.
  revert f. induction ws as [|[n e] ws IH]; intros f Hd Hin; [set_solver|]. simpl in *.
  apply NoDup_cons in Hd as [Hn Hd]. apply elem_of_cons in Hin as [[= -> ->]|Hin].
  - by rewrite applyw_other, Z.eqb_refl.
  - by apply IH.
Qed.

Section LogSpec.
Context {D : Type} `{!Driver D, !DriverSpec D}.
Implicit Types s : fsys D.
Implicit Types P H : gset Z.

Definition rng s (m : Z) : Prop := 0 <= m < dsize (disk s).

Definition writes s P (ws : list (Z * list Z)) (o : outcome (fsys D) kaddr unit) : Prop :=
  exists s' l', o = Ret tt s' /\ idle s' l' P ∅ /\ below s s' /\ dsize (disk s') = dsize (disk s) /\
    dwrites (disk s') = dwrites (disk s) ++ ws /\
    (forall m, rng s m -> dblock (disk s') m = applyw ws (dblock (disk s)) m) /\
    (forall m, rng s m -> vw s' m = applyw ws (vw s) m).

Lemma writes_ret s l P : idle s l P ∅ -> writes s P [] (ret tt s).
Proof. intros Hi. exists s, l. rewrite app_nil_r. split_and!; try done. Qed.

Lemma writes_bind s P1 P2 ws1 ws2 (m k : F D unit) :
  writes s P1 ws1 (m s) ->
  (forall s' l', idle s' l' P1 ∅ -> below s s' -> dsize (disk s') = dsize (disk s) ->
     (forall m, rng s m -> vw s' m = applyw ws1 (vw s) m) -> writes s' P2 ws2 (k s')) ->
  writes s P2 (ws1 ++ ws2) ((m;; k) s).
Proof.
  intros (s1 & l1 & E & Hi & Hb & Hsz & Hw & Hd & Hv) Hk. runs1 E.
  destruct (Hk s1 l1 Hi Hb Hsz Hv) as (s2 & l2 & E2 & Hi2 & Hb2 & Hsz2 & Hw2 & Hd2 & Hv2).
  exists s2, l2. split_and!; [done|done|by etransitivity|congruence|..].
  - by rewrite Hw2, Hw, app_assoc.
  - intros n Hn. rewrite applyw_app, Hd2 by (unfold rng in *; by rewrite Hsz).
    apply applyw_ext. by apply Hd.
  - intros n Hn. rewrite applyw_app, Hv2 by (unfold rng in *; by rewrite Hsz).
    apply applyw_ext. by apply Hv.
Qed.

Lemma vw_length s l P H n : idle s l P H -> rng s n -> length (vw s n) = Z.to_nat BSIZE.
Proof.
  intros Hi Hn. pose proof (id_ok _ _ _ _ Hi) as Hok.
  destruct (cached_dec s n) as [(i & b & Hb & Hf)|Hu].
  - rewrite (vw_cached _ _ _ _ _ Hok Hb Hf). apply (bo_buf _ _ Hok i b Hb).
  - rewrite vw_uncached by done. apply drv_length; [apply Hok|done].
Qed.

(** A block that is neither pinned nor held shows the disk. *)
Lemma idle_disk s l P H n : idle s l P H -> n ∉ P ∪ H -> vw s n = dblock (disk s) n.
Proof.
  intros Hi Hn. apply (vw_clean s l); [apply Hi|]. intros i b Hb [Hf1 Hf2]. split.
  - apply (bk_unref _ _ (bo_buf _ _ (id_ok _ _ _ _ Hi) i b Hb)).
    rewrite (id_ref _ _ _ _ Hi i b Hb). rewrite decide_False; [done|set_solver].
  - rewrite (id_pin _ _ _ _ Hi i b Hb). set_solver.
Qed.

Lemma shows_buf_at s i n d : shows s i n d -> exists r, buf_at i s = Ret r s /\ bdata r = d.
Proof. intros (b & [_ Hb] & _ & Hd). exists b. split; [by apply buf_at_run|done]. Qed.

Lemma set_data_run s i n d f d' :
  shows s i n d -> f d = Some d' ->
  set_data i f s = upd_buf i (fun r => r <| bdata := d' |>) s.
Proof.
  intros (b & [_ Hb] & _ & <-) Hf. unfold set_data. runs1 (buf_at_run _ _ _ Hb).
  rewrite Hf. done.
Qed.

Lemma u32_block s l P H n : idle s l P H -> rng s n -> u32 n = n.
Proof.
  intros Hi Hn. pose proof (drv_size _ (bo_disk _ _ (id_ok _ _ _ _ Hi))). unfold rng in Hn.
  apply u32_small. lia.
Qed.

(** The log area: the header block [st] and the [LOGSIZE - 1] log blocks. *)
Definition in_log (st n : Z) : Prop := st <= n < st + Z.of_nat LOGSIZE.

(** The in-memory log names the blocks [bs], and the log lies at [st]. *)
Record log_at s (st : Z) (bs : list Z) : Prop := {
  la_dev : lg_dev (lg s) = 1;
  la_start : lg_start (lg s) = st;
  la_n : lh_n (lg s) = Z.of_nat (length bs);
  la_block : exists rest, lh_block (lg s) = bs ++ rest;
  la_cap : length (lh_block (lg s)) = LOGSIZE;
  la_len : (length bs < LOGSIZE)%nat;
  la_area : 0 <= st /\ st + Z.of_nat LOGSIZE <= dsize (disk s);
  la_home : forall b, b ∈ bs -> rng s b /\ ~ in_log st b;
  la_nodup : NoDup bs
}.

Lemma log_at_below s s' st bs :
  log_at s st bs -> below s s' -> dsize (disk s') = dsize (disk s) -> log_at s' st bs.
Proof.
  intros [] Hb Hsz. pose proof (below_lg _ _ Hb) as Hl. unfold rng in *.
  split; unfold rng; rewrite ?Hl, ?Hsz; done.
Qed.

Lemma get_lh_run s st bs k b : log_at s st bs -> bs !! k = Some b -> get_lh k s = Ret b s.
Proof.
  intros Hl Hk. unfold get_lh. rewrite bind_gets. destruct (la_block _ _ _ Hl) as [rest ->].
  rewrite lookup_app_l by (by eapply lookup_lt_Some). by rewrite Hk.
Qed.

Lemma shows_ne s i j n m d e : shows s i n d -> shows s j m e -> n <> m -> i <> j.
Proof.
  intros (b & [_ Hb] & [_ Hf] & _) (c & [_ Hc] & [_ Hg] & _) Hne ->. rewrite Hb in Hc. simplify_eq.
Qed.

Lemma log_block_rng s st bs k :
  log_at s st bs -> (k < length bs)%nat ->
  rng s (st + Z.of_nat k + 1) /\ in_log st (st + Z.of_nat k + 1).
Proof. intros Hl Hk. pose proof (la_area _ _ _ Hl). pose proof (la_len _ _ _ Hl). unfold rng, in_log. lia. Qed.

(** The end of both copying loops: the data of [src] into [dst], written and
    both released. *)
Lemma copy_writes s l P H dst src i j e d :
  idle s l P H -> H = {[dst; src]} -> shows s i dst e -> shows s j src d -> dst <> src ->
  rng s dst -> rng s src -> (src ∈ P \/ d = dblock (disk s) src) ->
  writes s (P ∖ {[dst]}) [(dst, d)]
    ((set_data i (fun _ => Some d);; bwrite i;; brelse j;; brelse i) s).
Proof.
  intros Hi -> Sh1 Sh2 Hne Hr1 Hr2 Hsrc.
  pose proof (shows_ne _ _ _ _ _ _ _ Sh1 Sh2 Hne) as Hij.
  pose proof (vw_length _ _ _ _ _ Hi Hr2) as Hlen. rewrite (idle_shows _ _ _ _ _ _ _ Hi Sh2) in Hlen.
  destruct (set_data_seq s l P {[dst; src]} i dst e d) as (s1 & E & Hi1 & Sh3 & V1 & B1 & D1 & Fr1);
    [done|set_solver|done|done|].
  rewrite <-(set_data_run _ _ _ _ (fun _ => Some d) d Sh1 eq_refl) in E. runs1 E. clear E.
  apply Fr1 in Sh2; [|done].
  destruct (bwrite_seq s1 l P {[dst; src]} i dst d) as (s2 & E & Hi2 & Sh4 & V2 & B2 & Z2 & D2 & W2 & Fr2);
    [done|set_solver|done|]. runs1 E. clear E. apply Fr2 in Sh2; [|done]. rewrite D1 in *.
  destruct (brelse_seq s2 l (P ∖ {[dst]}) {[dst; src]} j src d) as (s3 & l3 & E & Hi3 & V3 & B3 & D3 & Fr3);
    [done|set_solver|done| |].
  { destruct Hsrc as [?|Hd]; [left; set_solver|right]. rewrite D2 by done.
    destruct (Z.eqb_spec src dst); [by subst|done]. }
  runs1 E. clear E. apply Fr3 in Sh4; [|done].
  destruct (brelse_seq s3 l3 (P ∖ {[dst]}) ({[dst; src]} ∖ {[src]}) i dst d) as (s4 & l4 & E & Hi4 & V4 & B4 & D4 & _);
    [done|set_solver|done| |].
  { right. rewrite D3, D2, Z.eqb_refl by done. done. }
  exists s4, l4. rewrite E. split_and!; [done|..].
  - replace ({[dst; src]} ∖ {[src]} ∖ {[dst]}) with (∅ : gset Z) in Hi4 by set_solver. done.
  - by rewrite B1, B2, B3, B4.
  - by rewrite D4, D3, Z2.
  - by rewrite D4, D3, W2.
  - intros m Hm. rewrite D4, D3, D2 by done. done.
  - intros m Hm. rewrite V4, V3, V2, V1 by done. done.
Qed.

Lemma write_one_writes s l P st bs k b :
  idle s l P ∅ -> log_at s st bs -> bs !! k = Some b -> b ∈ P -> (size P < NBUF)%nat ->
  (forall m, in_log st m -> m ∉ P) ->
  writes s P [(st + Z.of_nat k + 1, vw s b)] (write_one k s).
Proof.
  intros Hi Hl Hk HbP Hsz Hdis. set (to := st + Z.of_nat k + 1).
  destruct (log_block_rng s st bs k Hl) as [Hto1 Hto2]; [by eapply lookup_lt_Some|]. fold to in Hto1, Hto2.
  destruct (la_home _ _ _ Hl b) as [Hb1 Hb2]; [by eapply list_elem_of_lookup_2|].
  assert (Hne : to <> b) by (intros ->; done). assert (HtoP := Hdis to Hto2).
  unfold write_one. rewrite bind_gets, (la_dev _ _ _ Hl), (la_start _ _ _ Hl). fold to.
  change (u32 1) with 1. rewrite (u32_block _ _ _ _ to Hi Hto1).
  destruct (bread_seq s l P ∅ to) as (i & s1 & E & Hi1 & Sh1 & V1 & B1 & D1 & _);
    [done|set_solver|done|right; by rewrite union_empty_r_L|]. runs1 E. clear E.
  pose proof (log_at_below _ _ _ _ Hl B1 ltac:(by rewrite D1)) as Hl1.
  runs1 (get_lh_run _ _ _ _ _ Hl1 Hk). rewrite (u32_block _ _ _ _ b Hi Hb1).
  destruct (bread_seq s1 l P (∅ ∪ {[to]}) b) as (j & s2 & E & Hi2 & Sh2 & V2 & B2 & D2 & Fr2);
    [done|set_solver|by rewrite D1|by left|]. runs1 E. clear E.
  apply (Fr2 i to) in Sh1; [|set_solver]. rewrite V1 in Sh2.
  destruct (shows_buf_at _ _ _ _ Sh2) as (r & E & Hr). runs1 E. clear E. rewrite Hr.
  assert (Hst : below s s2 /\ disk s2 = disk s) by (split; [by rewrite B1, B2|congruence]).
  destruct Hst as [B Dk].
  destruct (copy_writes s2 l P _ to b i j (vw s to) (vw s b) Hi2) as (s3 & l3 & E & Hi3 & B3 & Z3 & W3 & D3 & V3);
    [set_solver|done|done|done|unfold rng; by rewrite Dk|unfold rng; by rewrite Dk|by left|].
  unfold rng in *. rewrite Dk in *. exists s3, l3. split_and!; [exact E| |by rewrite B, B3|done..|].
  - by replace (P ∖ {[to]}) with P in Hi3 by set_solver.
  - intros m Hm. rewrite V3 by done. apply applyw_ext. by rewrite V2, V1.
Qed.

Lemma install_one_writes s l P st bs k b :
  idle s l P ∅ -> log_at s st bs -> bs !! k = Some b -> (size P < NBUF)%nat ->
  (b ∈ P \/ (S (size P) < NBUF)%nat) -> (forall m, in_log st m -> m ∉ P) ->
  writes s (P ∖ {[b]}) [(b, vw s (st + Z.of_nat k + 1))] (install_one k s).
Proof.
  intros Hi Hl Hk Hsz HbP Hdis. set (lb := st + Z.of_nat k + 1).
  destruct (log_block_rng s st bs k Hl) as [Hto1 Hto2]; [by eapply lookup_lt_Some|]. fold lb in Hto1, Hto2.
  destruct (la_home _ _ _ Hl b) as [Hb1 Hb2]; [by eapply list_elem_of_lookup_2|].
  assert (Hne : b <> lb) by (intros ->; done). assert (HtoP := Hdis lb Hto2).
  unfold install_one. rewrite bind_gets, (la_dev _ _ _ Hl), (la_start _ _ _ Hl). fold lb.
  change (u32 1) with 1. rewrite (u32_block _ _ _ _ lb Hi Hto1).
  destruct (bread_seq s l P ∅ lb) as (i & s1 & E & Hi1 & Sh1 & V1 & B1 & D1 & _);
    [done|set_solver|done|right; by rewrite union_empty_r_L|]. runs1 E. clear E.
  pose proof (log_at_below _ _ _ _ Hl B1 ltac:(by rewrite D1)) as Hl1.
  runs1 (get_lh_run _ _ _ _ _ Hl1 Hk). rewrite (u32_block _ _ _ _ b Hi Hb1).
  destruct (bread_seq s1 l P (∅ ∪ {[lb]}) b) as (j & s2 & E & Hi2 & Sh2 & V2 & B2 & D2 & Fr2);
    [done|set_solver|by rewrite D1| |].
  { destruct HbP as [?|Hlt]; [by left|right]. rewrite (union_empty_l_L {[lb]}), size_union by set_solver.
    rewrite size_singleton. lia. }
  runs1 E. clear E. apply (Fr2 i lb) in Sh1; [|set_solver].
  destruct (shows_buf_at _ _ _ _ Sh1) as (r & E & Hr). runs1 E. clear E. rewrite Hr.
  assert (Hst : below s s2 /\ disk s2 = disk s) by (split; [by rewrite B1, B2|congruence]).
  destruct Hst as [B Dk].
  destruct (copy_writes s2 l P _ b lb j i (vw s1 b) (vw s lb) Hi2) as (s3 & l3 & E & Hi3 & B3 & Z3 & W3 & D3 & V3);
    [set_solver|done|done|done|unfold rng; by rewrite Dk|unfold rng; by rewrite Dk| |].
  { right. rewrite Dk. eapply idle_disk; [exact Hi|set_solver]. }
  unfold rng in *. rewrite Dk in *. exists s3, l3. split_and!; [exact E|done|by rewrite B, B3|done..|].
  intros m Hm. rewrite V3 by done. apply applyw_ext. by rewrite V2, V1.
Qed.

(** ** The loops *)

(** The writes of [write_log] from position [k] on. *)
Fixpoint log_copies (st : Z) (k : nat) (f : Z -> list Z) (bs : list Z) : list (Z * list Z) :=
  match bs with
  | [] => []
  | b :: bs' => (st + Z.of_nat k + 1, f b) :: log_copies st (S k) f bs'
  end.
(** The writes of [install_trans]. *)
Fixpoint installs (st : Z) (k : nat) (f : Z -> list Z) (bs : list Z) : list (Z * list Z) :=
  match bs with
  | [] => []
  | b :: bs' => (b, f (st + Z.of_nat k + 1)) :: installs st (S k) f bs'
  end.

Lemma log_copies_ext st k f g bs : (forall b, b ∈ bs -> f b = g b) -> log_copies st k f bs = log_copies st k g bs.
Proof.
  revert k. induction bs as [|b bs IH]; intros k Hfg; simpl; [done|].
  rewrite Hfg by set_solver. f_equal. apply IH. set_solver.
Qed.

Lemma installs_ext st k f g bs :
  (forall j, (k <= j < k + length bs)%nat -> f (st + Z.of_nat j + 1) = g (st + Z.of_nat j + 1)) ->
  installs st k f bs = installs st k g bs.
Proof.
  revert k. induction bs as [|b bs IH]; intros k Hfg; simpl in *; [done|].
  rewrite Hfg by lia. f_equal. apply IH. intros j Hj. apply Hfg. lia.
Qed.

Lemma write_log_loop s l P st bs k bs' :
  idle s l P ∅ -> log_at s st bs -> (exists pre, bs = pre ++ bs' /\ length pre = k) ->
  (forall b, b ∈ bs -> b ∈ P) -> (size P < NBUF)%nat -> (forall m, in_log st m -> m ∉ P) ->
  writes s P (log_copies st k (vw s) bs') (forM (seq k (length bs')) write_one s).
Proof.
  revert s l k. induction bs' as [|b bs' IH]; intros s l k Hi Hl (pre & Hpre & Hlen) HP Hsz Hdis.
  - by eapply writes_ret.
  - cbn [length seq forM log_copies]. change ((st + Z.of_nat k + 1, vw s b) :: log_copies st (S k) (vw s) bs')
      with ([(st + Z.of_nat k + 1, vw s b)] ++ log_copies st (S k) (vw s) bs').
    assert (Hk : bs !! k = Some b) by (rewrite Hpre, lookup_app_r, Hlen, Nat.sub_diag by lia; done).
    eapply writes_bind.
    + eapply write_one_writes; [done..| |done|done]. apply HP. by eapply list_elem_of_lookup_2.
    + intros s' l' Hi' Hb Hz Hv. erewrite log_copies_ext; [eapply IH; [done|by eapply log_at_below| |done..]|].
      * exists (pre ++ [b]). rewrite <-app_assoc, length_app. simpl. split; [done|lia].
      * intros c Hc. assert (Hcbs : c ∈ bs) by set_solver. destruct (la_home _ _ _ Hl c Hcbs) as [Hr Hnl].
        rewrite Hv by done. symmetry. apply applyw_other. simpl. intros [->|?]%elem_of_cons; [|set_solver].
        apply Hnl. apply (log_block_rng s st bs k Hl). by eapply lookup_lt_Some.
Qed.

Lemma write_log_writes s l P st bs :
  idle s l P ∅ -> log_at s st bs -> (forall b, b ∈ bs -> b ∈ P) -> (size P < NBUF)%nat ->
  (forall m, in_log st m -> m ∉ P) -> writes s P (log_copies st 0 (vw s) bs) (write_log s).
Proof.
  intros Hi Hl HP Hsz Hdis. unfold write_log. rewrite bind_gets, (la_n _ _ _ Hl), Nat2Z.id.
  eapply write_log_loop; [done|done|by exists []|done..].
Qed.

Lemma install_loop s l P st bs k bs' :
  idle s l P ∅ -> log_at s st bs -> (exists pre, bs = pre ++ bs' /\ length pre = k) ->
  (size P < NBUF)%nat -> ((forall b, b ∈ bs' -> b ∈ P) \/ (S (size P) < NBUF)%nat) ->
  (forall m, in_log st m -> m ∉ P) ->
  writes s (P ∖ list_to_set bs') (installs st k (vw s) bs') (forM (seq k (length bs')) install_one s).
Proof.
  revert s l k P. induction bs' as [|b bs' IH]; intros s l k P Hi Hl (pre & Hpre & Hlen) Hsz HP Hdis.
  - simpl. replace (P ∖ ∅) with P by set_solver. by eapply writes_ret.
  - cbn [length seq forM installs].
    change ((b, vw s (st + Z.of_nat k + 1)) :: installs st (S k) (vw s) bs')
      with ([(b, vw s (st + Z.of_nat k + 1))] ++ installs st (S k) (vw s) bs').
    assert (Hk : bs !! k = Some b) by (rewrite Hpre, lookup_app_r, Hlen, Nat.sub_diag by lia; done).
    assert (Hb : b ∉ bs').
    { pose proof (la_nodup _ _ _ Hl) as Hnd. rewrite Hpre in Hnd. by apply NoDup_app in Hnd as (_ & _ & [? _]%NoDup_cons). }
    assert (Hle : (size (P ∖ {[b]}) <= size P)%nat) by (apply subseteq_size; set_solver).
    eapply writes_bind.
    + eapply install_one_writes; [done..| |done]. destruct HP as [HP|]; [left; set_solver|by right].
    + intros s' l' Hi' Hbe Hz Hv.
      replace (P ∖ list_to_set (b :: bs')) with (P ∖ {[b]} ∖ list_to_set bs') by set_solver.
      erewrite installs_ext; [eapply IH; [done|by eapply log_at_below| |lia| |set_solver]|].
      * exists (pre ++ [b]). rewrite <-app_assoc, length_app. simpl. split; [done|lia].
      * destruct HP as [HP|]; [left; set_solver|right; lia].
      * intros j Hj. assert (Hjl : (j < length bs)%nat) by (rewrite Hpre, length_app; simpl; lia).
        destruct (log_block_rng s st bs j Hl Hjl) as [Hr Hin]. rewrite Hv by done. symmetry.
        apply applyw_other. simpl. intros [Heq|?]%elem_of_cons; [|set_solver].
        destruct (la_home _ _ _ Hl b) as [_ Hnl]; [by eapply list_elem_of_lookup_2|]. by rewrite Heq in Hin.
Qed.

Lemma install_trans_writes s l P st bs :
  idle s l P ∅ -> log_at s st bs -> (size P < NBUF)%nat ->
  ((forall b, b ∈ bs -> b ∈ P) \/ (S (size P) < NBUF)%nat) -> (forall m, in_log st m -> m ∉ P) ->
  writes s (P ∖ list_to_set bs) (installs st 0 (vw s) bs) (install_trans s).
Proof.
  intros Hi Hl Hsz HP Hdis. unfold install_trans. rewrite bind_gets, (la_n _ _ _ Hl), Nat2Z.id.
  eapply install_loop; [done|done|by exists []|done..].
Qed.

(** ** The header block *)

(** The stores of [write_head] into the header's data. *)
Fixpoint hdr_blocks (k : nat) (bs : list Z) (d : list Z) : option (list Z) :=
  match bs with
  | [] => Some d
  | b :: bs' => st 4 (4 + 4 * k) b d ≫= hdr_blocks (S k) bs'
  end.
Definition hdr (bs : list Z) (d : list Z) : option (list Z) :=
  st 4 0 (Z.of_nat (length bs)) d ≫= hdr_blocks 0 bs.

(** What [read_head] finds in them. *)
Definition hdr_is (d : list Z) (bs : list Z) : Prop :=
  ld 4 0 d = Some (Z.of_nat (length bs)) /\
  forall k b, bs !! k = Some b -> ld 4 (4 + 4 * k) d = Some b.

Lemma hdr_blocks_some k bs d :
  (4 + 4 * (k + length bs) <= length d)%nat ->
  exists d', hdr_blocks k bs d = Some d' /\ length d' = length d /\
    (forall p m, (p + m <= 4 + 4 * k)%nat -> ld m p d' = ld m p d) /\
    (Forall (fun b => 0 <= b < 2 ^ 32) bs ->
     forall j b, bs !! j = Some b -> ld 4 (4 + 4 * (k + j)) d' = Some b).
Proof.
  revert k d. induction bs as [|b bs IH]; intros k d Hl; simpl in *; [by exists d|].
  destruct (st_some 4 (4 + 4 * k) b d) as [d1 H1]; [lia|]. simpl in H1. rewrite H1. simpl.
  pose proof (st_length _ _ _ _ _ H1) as Hl1.
  destruct (IH (S k) d1) as (d' & Hd' & Hl' & Hlow & Hin); [lia|].
  exists d'. split_and!; [done|lia|..].
  - intros p m Hp. rewrite Hlow by lia. eapply ld_st_other; [exact H1|]. left. lia.
  - intros [Hb Hbs]%Forall_cons j c Hj. destruct j as [|j].
    + injection Hj as <-. rewrite Nat.add_0_r, Hlow by lia. rewrite (ld_st_same _ _ _ _ _ H1).
      f_equal. apply Z.mod_small. exact Hb.
    + rewrite <-(Hin Hbs j c Hj). f_equal. lia.
Qed.

Lemma hdr_some bs d :
  (length bs < LOGSIZE)%nat -> length d = Z.to_nat BSIZE -> Forall (fun b => 0 <= b < 2 ^ 32) bs ->
  exists d', hdr bs d = Some d' /\ length d' = Z.to_nat BSIZE /\ hdr_is d' bs.
Proof.
  intros Hb Hd Hbs. unfold LOGSIZE, BSIZE in *. unfold hdr.
  destruct (st_some 4 0 (Z.of_nat (length bs)) d) as [d1 H1]; [lia|]. rewrite H1. simpl.
  pose proof (st_length _ _ _ _ _ H1) as Hl1.
  destruct (hdr_blocks_some 0 bs d1) as (d' & Hd' & Hl' & Hlow & Hin); [lia|].
  exists d'. split_and!; [done|lia|split].
  - rewrite Hlow by lia. rewrite (ld_st_same _ _ _ _ _ H1). f_equal. apply Z.mod_small. simpl. lia.
  - intros k b Hk. apply (Hin Hbs k b Hk).
Qed.

Lemma set_data_to s l P H i n d f d' :
  idle s l P H -> n ∈ H -> shows s i n d -> f d = Some d' -> length d' = Z.to_nat BSIZE ->
  exists s', set_data i f s = Ret tt s' /\ idle s' l P H /\ shows s' i n d' /\
    (forall m, vw s' m = if m =? n then d' else vw s m) /\ below s s' /\ disk s' = disk s.
Proof.
  intros Hi Hn Hs Hf Hl. rewrite (set_data_run _ _ _ _ f d' Hs Hf).
  destruct (set_data_seq s l P H i n d d') as (s' & ? & ? & ? & ? & ? & ? & _); [done..|eauto 10].
Qed.

Lemma write_head_loop s l P (st : Z) bs k bs' i d d' :
  idle s l P {[st]} -> log_at s st bs -> (exists pre, bs = pre ++ bs' /\ length pre = k) ->
  shows s i st d -> hdr_blocks k bs' d = Some d' -> length d = Z.to_nat BSIZE ->
  exists s', forM (seq k (length bs')) (fun i0 => do v <- get_lh i0; set_data i (Bytes.st 4 (4 + 4 * i0) v)) s
      = Ret tt s' /\ idle s' l P {[st]} /\ shows s' i st d' /\
    (forall m, m <> st -> vw s' m = vw s m) /\ below s s' /\ disk s' = disk s.
Proof.
  revert s k d. induction bs' as [|b bs' IH]; intros s k d Hi Hl (pre & Hpre & Hlen) Hs Hh Hd.
  - simpl in *. simplify_eq. exists s. split_and!; done.
  - cbn [length seq forM hdr_blocks] in *.
    assert (Hk : bs !! k = Some b) by (rewrite Hpre, lookup_app_r, Hlen, Nat.sub_diag by lia; done).
    destruct (Bytes.st 4 (4 + 4 * k) b d) as [d1|] eqn:H1; [|done].
    rewrite bind_assoc. runs1 (get_lh_run _ _ _ _ _ Hl Hk).
    pose proof (st_length _ _ _ _ _ H1) as Hl1.
    destruct (set_data_to s l P {[st]} i st d (Bytes.st 4 (4 + 4 * k) b) d1 Hi) as (s1 & E & Hi1 & Sh1 & V1 & B1 & D1);
      [set_solver|done|done|lia|]. runs1 E. clear E.
    destruct (IH s1 (S k) d1) as (s2 & E & Hi2 & Sh2 & V2 & B2 & D2);
      [done|eapply log_at_below; [done..|by rewrite D1]| |done|done|lia|].
    { exists (pre ++ [b]). rewrite <-app_assoc, length_app. simpl. split; [done|lia]. }
    exists s2. split_and!; [done|done|done| |by rewrite B1, B2|congruence].
    intros m Hm. rewrite V2, V1 by done. by rewrite (proj2 (Z.eqb_neq m st) Hm).
Qed.

Lemma write_head_writes s l P (st : Z) bs :
  idle s l P ∅ -> log_at s st bs -> (size P < NBUF)%nat -> (forall m, in_log st m -> m ∉ P) ->
  exists d, hdr_is d bs /\ writes s P [(st, d)] (write_head s).
Proof.
  intros Hi Hl Hsz Hdis. pose proof (la_area _ _ _ Hl) as Ha.
  assert (Hst : rng s st) by (unfold rng, LOGSIZE in *; lia).
  assert (Hin : in_log st st) by (unfold in_log, LOGSIZE; lia). assert (HstP := Hdis st Hin).
  assert (Hbs : Forall (fun b => 0 <= b < 2 ^ 32) bs).
  { apply Forall_forall. intros b Hb. destruct (la_home _ _ _ Hl b Hb) as [Hr _]. unfold rng in Hr.
    pose proof (drv_size _ (bo_disk _ _ (id_ok _ _ _ _ Hi))). lia. }
  unfold write_head. rewrite bind_gets, (la_dev _ _ _ Hl), (la_start _ _ _ Hl), (la_n _ _ _ Hl), Nat2Z.id.
  change (u32 1) with 1. rewrite (u32_block _ _ _ _ st Hi Hst).
  destruct (bread_seq s l P ∅ st) as (i & s1 & E & Hi1 & Sh1 & V1 & B1 & D1 & _);
    [done|set_solver|done|right; by rewrite union_empty_r_L|]. runs1 E. clear E.
  rewrite (union_empty_l_L {[st]}) in Hi1.
  destruct (hdr_some bs (vw s st) (la_len _ _ _ Hl)) as (d' & Hd' & Hl' & Hhdr);
    [by eapply vw_length|done|]. exists d'. split; [done|].
  unfold hdr in Hd'. destruct (Bytes.st 4 0 (Z.of_nat (length bs)) (vw s st)) as [d0|] eqn:H0; [|done].
  cbn in Hd'. pose proof (vw_length _ _ _ _ _ Hi Hst) as Hlen. pose proof (st_length _ _ _ _ _ H0) as Hl0.
  destruct (set_data_to s1 l P {[st]} i st (vw s st) (Bytes.st 4 0 (Z.of_nat (length bs))) d0 Hi1) as (s2 & E & Hi2 & Sh2 & V2 & B2 & D2);
    [set_solver|done|done|lia|]. runs1 E. clear E.
  pose proof (log_at_below _ _ _ _ Hl B1 ltac:(by rewrite D1)) as Hl1.
  pose proof (log_at_below _ _ _ _ Hl1 B2 ltac:(by rewrite D2)) as Hl2.
  destruct (write_head_loop s2 l P st bs 0 bs i d0 d' Hi2 Hl2) as (s3 & E & Hi3 & Sh3 & V3 & B3 & D3);
    [by exists []|done|done|lia|]. runs1 E. clear E.
  destruct (bwrite_seq s3 l P {[st]} i st d') as (s4 & E & Hi4 & Sh4 & V4 & B4 & Z4 & D4 & W4 & _);
    [done|set_solver|done|]. runs1 E. clear E.
  rewrite D3, D2, D1 in *.
  destruct (brelse_seq s4 l (P ∖ {[st]}) {[st]} i st d') as (s5 & l5 & E & Hi5 & V5 & B5 & D5 & _);
    [done|set_solver|done|right; by rewrite D4, Z.eqb_refl|].
  exists s5, l5. rewrite E. split_and!; [done|..].
  - replace (P ∖ {[st]}) with P in Hi5 by set_solver. by replace ({[st]} ∖ {[st]}) with (∅ : gset Z) in Hi5 by set_solver.
  - by rewrite B1, B2, B3, B4, B5.
  - by rewrite D5.
  - by rewrite D5.
  - intros m Hm. by rewrite D5, D4.
  - intros m Hm. rewrite V5, V4 by done. simpl. destruct (Z.eqb_spec m st) as [->|Hne].
    + eapply idle_shows; [exact Hi3|done].
    + rewrite V3, V2, V1 by done. by rewrite (proj2 (Z.eqb_neq m st) Hne).
Qed.
End LogSpec.
