(* ===== verification/LogCrash.v ===== *)
(** * Commit, recovery, crashes and transactions

    [commit] writes the log blocks, then the header, then the home locations,
    then an empty header, one block at a time.  Whatever prefix of these
    writes has reached the disk when the machine stops, [recover_from_log] on
    the next boot makes the file system either what it was before the
    transaction or what it is after it.  Then the operations: what [log_write] does to
    the log and to the pinned blocks, when [begin_op] lets a system call in, and that
    the last [end_op] makes the file system on disk what the cache shows. *)
From S2P Require Import Prelude Bytes Memory Spinlock ProcDefs Kalloc FsDefs Bio BioRing BioSpec BioOps BioSeq Log LogSpec.
Local Open Scope Z_scope.
Local Open Scope kernel_scope.

(** ** The positions of the log's writes *)

Lemma log_copies_fst st k f bs n : n ∈ (log_copies st k f bs).*1 -> st + Z.of_nat k < n <= st + Z.of_nat (k + length bs).
Proof.
  revert k. induction bs as [|b bs IH]; intros k; simpl; [set_solver|].
  intros [->|Hn]%elem_of_cons; [lia|]. apply IH in Hn. lia.
Qed.

Lemma log_copies_nodup st k f bs : NoDup (log_copies st k f bs).*1.
Proof.
  revert k. induction bs as [|b bs IH]; intros k; simpl; constructor; [|apply IH].
  intros Hn%log_copies_fst. lia.
Qed.

Lemma log_copies_in st k f bs j b :
  bs !! j = Some b -> (st + Z.of_nat (k + j) + 1, f b) ∈ log_copies st k f bs.
Proof.
  revert k j. induction bs as [|c bs IH]; intros k [|j] Hj; simplify_eq/=.
  - rewrite Nat.add_0_r. by left.
  - right. replace (k + S j)%nat with (S k + j)%nat by lia. by apply IH.
Qed.

Lemma log_copies_length st k f bs : length (log_copies st k f bs) = length bs.
Proof. revert k. induction bs; intros; simpl; auto. Qed.

Lemma installs_fst st k f bs : (installs st k f bs).*1 = bs.
Proof. revert k. induction bs; intros; simpl; f_equal; auto. Qed.

Lemma installs_length st k f bs : length (installs st k f bs) = length bs.
Proof. revert k. induction bs; intros; simpl; auto. Qed.

Lemma installs_in st k f bs j b : bs !! j = Some b -> (b, f (st + Z.of_nat (k + j) + 1)) ∈ installs st k f bs.
Proof.
  revert k j. induction bs as [|c bs IH]; intros k [|j] Hj; simplify_eq/=.
  - rewrite Nat.add_0_r. by left.
  - right. replace (k + S j)%nat with (S k + j)%nat by lia. by apply IH.
Qed.

Lemma take_fst (ws : list (Z * list Z)) k n : n ∈ (take k ws).*1 -> n ∈ ws.*1.
Proof.
  intros (x & -> & (i & Hi & _)%elem_of_take)%list_elem_of_fmap. apply list_elem_of_fmap.
  exists x. split; [done|]. by eapply list_elem_of_lookup_2.
Qed.

Section Crash.
Context {D : Type} `{!Driver D, !DriverSpec D}.
Implicit Types s t : fsys D.
Implicit Types P H : gset Z.

(** ** commit *)

Lemma idle_lg s l P H g : idle s l P H -> idle (s <| lg ::= g |>) l P H.
Proof. intros [[] ? ? ? ?]. by split. Qed.

Lemma vw_lg s g n : vw (s <| lg ::= g |>) n = vw s n.
Proof. done. Qed.

Definition clear_lh (l : logst) : logst := l <| lh_n := 0 |>.

Lemma log_at_clear s st bs : log_at s st bs -> log_at (s <| lg ::= clear_lh |>) st [].
Proof.
  intros []. split; try done; unfold LOGSIZE in *; cbn; [by eexists|lia|set_solver|constructor].
Qed.

(** The end of [commit] and of [recover_from_log]: log.lh.n = 0; write_head(). *)
Lemma clear_head_writes s l (st : Z) bs :
  idle s l ∅ ∅ -> log_at s st bs ->
  exists d, hdr_is d [] /\ writes (s <| lg ::= clear_lh |>) ∅ [(st, d)] ((upd_log clear_lh;; write_head) s).
Proof.
  intros Hi Hl. unfold upd_log. rewrite bind_modify.
  eapply write_head_writes; [by apply idle_lg|by eapply log_at_clear| |].
  - rewrite size_empty. unfold NBUF. lia.
  - intros m _. set_solver.
Qed.

(** The writes of a commit of [bs] at [st], with header contents [h1] and [h0]. *)
Definition commit_ws (st : Z) (f : Z -> list Z) (bs : list Z) (h1 h0 : list Z) : list (Z * list Z) :=
  log_copies st 0 f bs ++ (st, h1) :: ((fun b => (b, f b)) <$> bs) ++ [(st, h0)].

Lemma installs_copied st f g h bs :
  installs st 0 (applyw (log_copies st 0 f bs ++ [(st, h)]) g) bs = (fun b => (b, f b)) <$> bs.
Proof.
  assert (Hv : forall j b, bs !! j = Some b ->
    applyw (log_copies st 0 f bs ++ [(st, h)]) g (st + Z.of_nat j + 1) = f b).
  { intros j b Hj. rewrite applyw_app. simpl. rewrite (proj2 (Z.eqb_neq _ _)) by lia.
    apply applyw_in; [apply log_copies_nodup|]. by apply (log_copies_in st 0). }
  revert Hv. generalize (applyw (log_copies st 0 f bs ++ [(st, h)]) g). intros F Hv.
  assert (Hgen : forall k bs', (forall j b, bs' !! j = Some b -> F (st + Z.of_nat (k + j) + 1) = f b) ->
    installs st k F bs' = (fun b => (b, f b)) <$> bs').
  { intros k bs'. revert k. induction bs' as [|b bs' IH]; intros k Hk; simpl; [done|]. f_equal.
    - specialize (Hk 0%nat b eq_refl). rewrite Nat.add_0_r in Hk. by rewrite Hk.
    - apply IH. intros j c Hj. specialize (Hk (S j) c Hj). by replace (S k + j)%nat with (k + S j)%nat by lia. }
  apply Hgen. done.
Qed.

(** The state a commit starts from: the blocks of the log are the pinned ones. *)
Definition logged s (l : list nat) (st : Z) (bs : list Z) : Prop :=
  idle s l (list_to_set bs) ∅ /\ log_at s st bs.

Lemma logged_pins s l st bs :
  logged s l st bs -> (size (list_to_set bs : gset Z) < NBUF)%nat /\
    (forall m, in_log st m -> m ∉ (list_to_set bs : gset Z)).
Proof.
  intros [_ Hl]. split.
  - rewrite size_list_to_set by apply (la_nodup _ _ _ Hl). apply (la_len _ _ _ Hl).
  - intros m Hm Hin. apply elem_of_list_to_set in Hin. by destruct (la_home _ _ _ Hl m Hin).
Qed.

Lemma commit_run s l (st : Z) bs :
  logged s l st bs -> bs <> [] ->
  exists h1 h0, hdr_is h1 bs /\ hdr_is h0 [] /\
    writes (s <| lg ::= clear_lh |>) ∅ (commit_ws st (vw s) bs h1 h0) (commit s).
Proof.
  intros Hlg Hne. destruct (logged_pins _ _ _ _ Hlg) as [Hsz Hdis]. destruct Hlg as [Hi Hl].
  set (P := list_to_set bs : gset Z) in *.
  assert (HP : forall b, b ∈ bs -> b ∈ P) by (intros b Hb; by apply elem_of_list_to_set).
  unfold commit. rewrite bind_gets, (la_n _ _ _ Hl).
  assert (Hpos : (0 <? Z.of_nat (length bs)) = true) by (destruct bs; [done|apply Z.ltb_lt; simpl; lia]).
  rewrite Hpos.
  destruct (write_log_writes s l P st bs Hi Hl HP Hsz Hdis) as (s1 & l1 & E & Hi1 & B1 & Z1 & W1 & D1 & V1).
  runs1 E. clear E. pose proof (log_at_below _ _ _ _ Hl B1 Z1) as Hl1.
  destruct (write_head_writes s1 l1 P st bs Hi1 Hl1 Hsz Hdis) as (h1 & Hh1 & s2 & l2 & E & Hi2 & B2 & Z2 & W2 & D2 & V2).
  runs1 E. clear E. pose proof (log_at_below _ _ _ _ Hl1 B2 Z2) as Hl2.
  destruct (install_trans_writes s2 l2 P st bs Hi2 Hl2 Hsz (or_introl HP) Hdis)
    as (s3 & l3 & E & Hi3 & B3 & Z3 & W3 & D3 & V3). runs1 E. clear E.
  pose proof (log_at_below _ _ _ _ Hl2 B3 Z3) as Hl3. unfold P in Hi3. rewrite difference_diag_L in Hi3.
  destruct (clear_head_writes s3 l3 st bs Hi3 Hl3) as (h0 & Hh0 & s4 & l4 & E & Hi4 & B4 & Z4 & W4 & D4 & V4).
  exists h1, h0. split_and!; [done..|]. exists s4, l4. split; [exact E|]. clear E. unfold rng in *.
  change (disk (s3 <| lg ::= clear_lh |>)) with (disk s3) in *.
  change (disk (s <| lg ::= clear_lh |>)) with (disk s) in *. rewrite Z3, Z2, Z1 in *.
  assert (Hin : installs st 0 (vw s2) bs = (fun b => (b, vw s b)) <$> bs).
  { rewrite <-(installs_copied st (vw s) (vw s) h1). apply installs_ext. intros j Hj.
    destruct (log_block_rng s st bs j Hl) as [Hr _]; [lia|]. rewrite V2, applyw_app by done.
    apply applyw_ext. by apply V1. }
  rewrite Hin in *.
  assert (Hws : commit_ws st (vw s) bs h1 h0 =
    ((log_copies st 0 (vw s) bs ++ [(st, h1)]) ++ ((fun b => (b, vw s b)) <$> bs)) ++ [(st, h0)]).
  { unfold commit_ws. by rewrite <-!app_assoc. }
  split_and!; [done| |congruence|..].
  - unfold below in *. rewrite B4 at 1. rewrite B3 at 1. rewrite B2 at 1. rewrite B1 at 1. by destruct s, s1, s2, s3.
  - by rewrite Hws, W4, W3, W2, W1, !app_assoc.
  - intros m Hm. rewrite Hws, !applyw_app, D4 by done. apply applyw_ext. rewrite D3 by done. apply applyw_ext.
    rewrite D2 by done. apply applyw_ext. by apply D1.
  - intros m Hm. change (vw (s <| lg ::= clear_lh |>)) with (vw s).
    rewrite Hws, !applyw_app, V4 by done. apply applyw_ext.
    change (vw (s3 <| lg ::= clear_lh |>) m) with (vw s3 m). rewrite V3 by done. apply applyw_ext.
    rewrite V2 by done. apply applyw_ext. by apply V1.
Qed.

(** ** recover_from_log *)

Lemma read_blocks_run s d bs' k :
  (forall j b, bs' !! j = Some b -> ld 4 (4 + 4 * (k + j)) d = Some b /\ 0 <= b < 2 ^ 31) ->
  (k + length bs' <= length (lh_block (lg s)))%nat ->
  exists blk, forM (seq k (length bs')) (fun i => do v <- orUndef "lh->block" (ld 4 (4 + 4 * i) d); set_lh i v) s
      = Ret tt (s <| lg ::= fun g => g <| lh_block := blk |> |>) /\
    length blk = length (lh_block (lg s)) /\ (forall j, (j < k)%nat -> blk !! j = lh_block (lg s) !! j) /\
    (forall j b, bs' !! j = Some b -> blk !! (k + j)%nat = Some b).
Proof.
  revert k s. induction bs' as [|b bs' IH]; intros k s Hd Hl; cbn [length seq forM] in *.
  - exists (lh_block (lg s)). split_and!; try done. unfold ret. f_equal. by destruct s as [? ? ? ? ? [] ? ? ? ? ? ? ?].
  - destruct (Hd 0%nat b eq_refl) as [Hb Hb2]. rewrite Nat.add_0_r in Hb.
    rewrite bind_assoc. unfold orUndef at 1. rewrite Hb, bind_deref.
    assert (Hset : set_lh k b s = Ret tt (s <| lg ::= fun g => g <| lh_block ::= <[k := b]> |> |>)).
    { unfold set_lh. rewrite bind_gets, decide_True by lia. unfold upd_log, modify. f_equal.
      rewrite s32_small by lia. done. }
    runs1 Hset. set (s1 := s <| lg ::= fun g => g <| lh_block ::= <[k := b]> |> |>).
    assert (Hblk : lh_block (lg s1) = <[k := b]> (lh_block (lg s))) by done.
    destruct (IH (S k) s1) as (blk & E & Hlen & Hlow & Hin).
    { intros j c Hj. destruct (Hd (S j) c Hj) as [H1 H2]. split; [|done]. rewrite <-H1. f_equal. lia. }
    { rewrite Hblk, length_insert. lia. }
    rewrite Hblk in *. rewrite length_insert in Hlen. exists blk. rewrite E. split_and!; [done|done|..].
    + intros j Hj. rewrite Hlow by lia. by rewrite list_lookup_insert_ne by lia.
    + intros [|j] c Hj; simplify_eq/=.
      * rewrite Nat.add_0_r, Hlow by lia. by rewrite list_lookup_insert_eq by lia.
      * rewrite <-(Hin j c Hj). f_equal. lia.
Qed.

(** A log area at [st], on the disk of a machine that has just started. *)
Record booted s (l : list nat) (st : Z) : Prop := {
  bt_idle : idle s l ∅ ∅;
  bt_dev : lg_dev (lg s) = 1;
  bt_start : lg_start (lg s) = st;
  bt_cap : length (lh_block (lg s)) = LOGSIZE;
  bt_area : 0 <= st /\ st + Z.of_nat LOGSIZE <= dsize (disk s)
}.

Lemma read_head_run s l (st : Z) bs :
  booted s l st -> hdr_is (dblock (disk s) st) bs -> (length bs < LOGSIZE)%nat -> NoDup bs ->
  (forall b, b ∈ bs -> rng s b /\ ~ in_log st b) ->
  exists s' l', read_head s = Ret tt s' /\ booted s' l' st /\ log_at s' st bs /\ disk s' = disk s.
Proof.
  intros Hbt [Hn Hh] Hlen Hnd Hhome. pose proof (bt_idle _ _ _ Hbt) as Hi.
  pose proof (bt_area _ _ _ Hbt) as Ha. pose proof (drv_size _ (bo_disk _ _ (id_ok _ _ _ _ Hi))) as Hsz.
  assert (Hst : rng s st) by (unfold rng, LOGSIZE in *; lia).
  unfold read_head. rewrite bind_gets, (bt_dev _ _ _ Hbt), (bt_start _ _ _ Hbt).
  change (u32 1) with 1. rewrite (u32_block _ _ _ _ st Hi Hst).
  destruct (bread_seq s l ∅ ∅ st) as (i & s1 & E & Hi1 & Sh1 & V1 & B1 & D1 & _);
    [done|set_solver|done|right; rewrite union_empty_l_L, size_empty; unfold NBUF; lia|]. runs1 E. clear E.
  rewrite (idle_disk s l ∅ ∅ st Hi) in Sh1 by set_solver.
  destruct (shows_buf_at _ _ _ _ Sh1) as (r & E & Hr). runs1 E. clear E. rewrite Hr.
  unfold orUndef at 1. rewrite Hn, bind_deref. unfold LOGSIZE in *. rewrite s32_small by lia.
  unfold upd_log. rewrite bind_modify, Nat2Z.id. set (s2 := s1 <| lg ::= _ |>).
  destruct (read_blocks_run s2 (dblock (disk s) st) bs 0) as (blk & E & Hbl & _ & Hin).
  { intros j b Hj. split; [by apply Hh|]. destruct (Hhome b) as [Hrg _]; [by eapply list_elem_of_lookup_2|].
    unfold rng in Hrg. lia. }
  { change (lh_block (lg s2)) with (lh_block (lg s1)). rewrite (below_lg _ _ B1), (bt_cap _ _ _ Hbt). unfold LOGSIZE. lia. }
  runs1 E. clear E. set (s3 := s2 <| lg ::= _ |>).
  assert (Hi3 : idle s3 l ∅ (∅ ∪ {[st]})) by (unfold s3, s2; by apply idle_lg, idle_lg).
  assert (Sh3 : shows s3 i st (dblock (disk s) st)) by exact Sh1.
  destruct (brelse_seq s3 l ∅ (∅ ∪ {[st]}) i st (dblock (disk s) st) Hi3) as (s4 & l4 & E & Hi4 & V4 & B4 & D4 & _);
    [set_solver|exact Sh3|right; change (disk s3) with (disk s1); by rewrite D1|].
  replace ((∅ ∪ {[st]}) ∖ {[st]}) with (∅ : gset Z) in Hi4 by set_solver.
  assert (Hd4 : disk s4 = disk s) by (rewrite D4; exact D1).
  assert (Hlg : lg s4 = lg s <| lh_n := Z.of_nat (length bs) |> <| lh_block := blk |>).
  { rewrite (below_lg _ _ B4). unfold s3, s2. rewrite <-(below_lg _ _ B1). done. }
  change (lh_block (lg s2)) with (lh_block (lg s1)) in Hbl. rewrite (below_lg _ _ B1) in Hbl.
  exists s4, l4. split_and!; [done| | |done].
  - destruct Hbt. split; rewrite ?Hlg, ?Hd4; try done. cbn. rewrite Hbl. exact bt_cap0.
  - destruct Hbt. split; rewrite ?Hlg, ?Hd4; try done; cbn.
    + exists (drop (length bs) blk). apply list_eq. intros j. destruct (decide (j < length bs)%nat) as [Hj|Hj].
      * destruct (lookup_lt_is_Some_2 bs j Hj) as [b Hb]. rewrite lookup_app_l by done.
        rewrite Hb. by apply (Hin j).
      * rewrite lookup_app_r, lookup_drop by lia. f_equal. lia.
    + rewrite Hbl. exact bt_cap0.
    + intros b Hb. unfold rng. rewrite Hd4. by apply Hhome.
Qed.

Lemma recover_run s l (st : Z) bs :
  booted s l st -> hdr_is (dblock (disk s) st) bs -> (length bs < LOGSIZE)%nat -> NoDup bs ->
  (forall b, b ∈ bs -> rng s b /\ ~ in_log st b) ->
  exists s' l', recover_from_log s = Ret tt s' /\ idle s' l' ∅ ∅ /\ log_at s' st [] /\
    dsize (disk s') = dsize (disk s) /\ hdr_is (dblock (disk s') st) [] /\
    (forall m, rng s m -> m <> st ->
      dblock (disk s') m = applyw (installs st 0 (dblock (disk s)) bs) (dblock (disk s)) m).
Proof.
  intros Hbt Hh Hlen Hnd Hhome. unfold recover_from_log.
  destruct (read_head_run s l st bs Hbt Hh Hlen Hnd Hhome) as (s1 & l1 & E & Hbt1 & Hl1 & D1).
  runs1 E. clear E. pose proof (bt_idle _ _ _ Hbt1) as Hi1.
  destruct (install_trans_writes s1 l1 ∅ st bs Hi1 Hl1) as (s2 & l2 & E & Hi2 & B2 & Z2 & W2 & D2 & _);
    [rewrite size_empty; unfold NBUF; lia|right; rewrite size_empty; unfold NBUF; lia|set_solver|].
  runs1 E. clear E. replace (∅ ∖ list_to_set bs) with (∅ : gset Z) in Hi2 by set_solver.
  pose proof (log_at_below _ _ _ _ Hl1 B2 Z2) as Hl2.
  destruct (clear_head_writes s2 l2 st bs Hi2 Hl2) as (h0 & Hh0 & s3 & l3 & E & Hi3 & B3 & Z3 & W3 & D3 & _).
  unfold rng in *. change (disk (s2 <| lg ::= clear_lh |>)) with (disk s2) in *. rewrite Z2, D1 in *.
  exists s3, l3. split; [exact E|]. split_and!; [done| |done|..].
  - eapply log_at_below; [by eapply log_at_clear|exact B3|]. change (dsize (disk s3) = dsize (disk s2)). congruence.
  - pose proof (bt_area _ _ _ Hbt). rewrite D3 by (unfold LOGSIZE in *; lia). simpl. by rewrite Z.eqb_refl.
  - intros m Hm Hne. rewrite D3 by done. simpl. rewrite (proj2 (Z.eqb_neq m st) Hne), D2 by done.
    erewrite installs_ext; [done|]. intros j Hj. rewrite (idle_disk s1 l1 ∅ ∅ _ Hi1) by set_solver. by rewrite D1.
Qed.

(** ** Crashes *)

(** The disk of [t] is the disk of [s] after the writes [ws]. *)
Definition disk_after s (ws : list (Z * list Z)) t : Prop :=
  dsize (disk t) = dsize (disk s) /\
  forall m, rng s m -> dblock (disk t) m = applyw ws (dblock (disk s)) m.

(** The file system on disk: every block outside of the log area. *)
Definition home_is t (st : Z) (f : Z -> list Z) : Prop :=
  forall m, rng t m -> ~ in_log st m -> dblock (disk t) m = f m.

Lemma in_log_start (st : Z) : in_log st st.
Proof. unfold in_log, LOGSIZE. lia. Qed.

(** A crash before the header is written. *)
Lemma crash_before s t l (st : Z) ws :
  booted t l st -> disk_after s ws t -> (forall n, n ∈ ws.*1 -> st < n < st + Z.of_nat LOGSIZE) ->
  hdr_is (dblock (disk s) st) [] ->
  exists t' l', recover_from_log t = Ret tt t' /\ logged t' l' st [] /\ dsize (disk t') = dsize (disk s) /\
    home_is t' st (dblock (disk s)).
Proof.
  intros Hbt [Hsz Hd] Hws Hh. pose proof (bt_area _ _ _ Hbt) as Ha. unfold rng in *.
  destruct (recover_run t l st [] Hbt) as (t' & l' & E & Hi & Hl & Z' & Hh' & D').
  - rewrite Hd by (unfold LOGSIZE in *; lia). rewrite applyw_other; [done|]. intros Hn%Hws. lia.
  - unfold LOGSIZE. simpl. lia.
  - constructor.
  - set_solver.
  - exists t', l'. split_and!; [done|by split|congruence|]. intros m Hm Hnl. unfold rng in *. rewrite Z' in Hm.
    rewrite D' by (done || (intros ->; by apply Hnl, in_log_start)). simpl.
    rewrite Hd by (by rewrite <-Hsz). apply applyw_other. intros Hn%Hws. apply Hnl. unfold in_log. lia.
Qed.

(** A crash after it: [k] home locations have been written. *)
Lemma crash_after s t l l0 (st : Z) bs h1 k :
  logged s l0 st bs -> booted t l st -> hdr_is h1 bs ->
  disk_after s (log_copies st 0 (vw s) bs ++ (st, h1) :: take k ((fun b => (b, vw s b)) <$> bs)) t ->
  exists t' l', recover_from_log t = Ret tt t' /\ logged t' l' st [] /\ dsize (disk t') = dsize (disk s) /\
    home_is t' st (vw s).
Proof.
  intros [Hi Hl] Hbt Hh [Hsz Hd]. pose proof (bt_area _ _ _ Hbt) as Ha. unfold rng in *.
  set (B := (fun b => (b, vw s b)) <$> bs) in *. set (A := log_copies st 0 (vw s) bs) in *.
  assert (HB : forall n, n ∈ (take k B).*1 -> n ∈ bs).
  { intros n Hn%take_fst. unfold B in Hn. rewrite <-list_fmap_compose in Hn.
    by apply list_elem_of_fmap in Hn as (b & -> & ?). }
  assert (Hlogd : forall m, in_log st m -> applyw (A ++ (st, h1) :: take k B) (dblock (disk s)) m =
    applyw (A ++ [(st, h1)]) (dblock (disk s)) m).
  { intros m Hm. rewrite cons_middle, app_assoc, (applyw_app (A ++ [(st, h1)])). apply applyw_other.
    intros Hn%HB. by destruct (la_home _ _ _ Hl m Hn). }
  assert (Hin : forall j b, bs !! j = Some b -> dblock (disk t) (st + Z.of_nat j + 1) = vw s b).
  { intros j b Hj. destruct (log_block_rng s st bs j Hl) as [Hr Hil]; [by eapply lookup_lt_Some|].
    rewrite Hd, Hlogd by done. rewrite applyw_app. simpl. rewrite (proj2 (Z.eqb_neq _ _)) by lia.
    apply applyw_in; [apply log_copies_nodup|]. by apply (log_copies_in st 0). }
  destruct (recover_run t l st bs Hbt) as (t' & l' & E & Hi' & Hl' & Z' & Hh' & D').
  - rewrite Hd by (unfold LOGSIZE in *; lia). rewrite Hlogd by apply in_log_start.
    rewrite applyw_app. simpl. by rewrite Z.eqb_refl.
  - apply Hl.
  - apply Hl.
  - intros b Hb. unfold rng. rewrite Hsz. by apply Hl.
  - exists t', l'. split_and!; [done|by split|congruence|]. intros m Hm Hnl. unfold rng in *. rewrite Z' in Hm.
    rewrite D' by (done || (intros ->; by apply Hnl, in_log_start)). rewrite Hsz in Hm.
    destruct (decide (m ∈ bs)) as [(j & Hj)%list_elem_of_lookup|Hout].
    + apply applyw_in; [rewrite installs_fst; apply Hl|]. rewrite <-(Hin j m Hj). by apply (installs_in st 0).
    + rewrite applyw_other by (by rewrite installs_fst). rewrite Hd by done.
      rewrite applyw_other; [symmetry; eapply idle_disk; [exact Hi|set_solver]|].
      rewrite fmap_app, fmap_cons. simpl. intros [Hn%log_copies_fst|[->|Hn%HB]%elem_of_cons]%elem_of_app; [|by apply Hnl, in_log_start|done].
      apply Hnl. unfold in_log. pose proof (la_len _ _ _ Hl). lia.
Qed.

(** What the whole commit leaves on the disk. *)
Lemma commit_ws_home s l (st : Z) bs h1 h0 m :
  logged s l st bs -> rng s m -> ~ in_log st m ->
  applyw (commit_ws st (vw s) bs h1 h0) (dblock (disk s)) m = vw s m.
Proof.
  intros [Hi Hl] Hm Hnl. unfold commit_ws. rewrite cons_middle, !app_assoc, applyw_app. simpl.
  rewrite (proj2 (Z.eqb_neq m st)) by (intros ->; by apply Hnl, in_log_start).
  rewrite applyw_app. destruct (decide (m ∈ bs)) as [Hin|Hout].
  - apply applyw_in.
    + rewrite <-list_fmap_compose. simpl. rewrite list_fmap_id. apply Hl.
    + apply list_elem_of_fmap. by exists m.
  - rewrite applyw_other by (rewrite <-list_fmap_compose; simpl; by rewrite list_fmap_id).
    rewrite applyw_other; [symmetry; eapply idle_disk; [exact Hi|set_solver]|].
    rewrite fmap_app. intros [Hn%log_copies_fst|Hn]%elem_of_app.
    + apply Hnl. unfold in_log. pose proof (la_len _ _ _ Hl). lia.
    + simpl in Hn. apply list_elem_of_singleton in Hn as ->. by apply Hnl, in_log_start.
Qed.

(** A crash when everything has been written. *)
Lemma crash_done s t l l0 (st : Z) bs h1 h0 :
  logged s l0 st bs -> booted t l st -> hdr_is h0 [] ->
  disk_after s (commit_ws st (vw s) bs h1 h0) t ->
  exists t' l', recover_from_log t = Ret tt t' /\ logged t' l' st [] /\ dsize (disk t') = dsize (disk s) /\
    home_is t' st (vw s).
Proof.
  intros Hlg Hbt Hh [Hsz Hd]. pose proof (bt_area _ _ _ Hbt) as Ha.
  destruct (recover_run t l st [] Hbt) as (t' & l' & E & Hi & Hl & Z' & Hh' & D').
  - rewrite Hd by (unfold rng, LOGSIZE in *; lia). unfold commit_ws.
    rewrite cons_middle, !app_assoc, applyw_app. simpl. by rewrite Z.eqb_refl.
  - unfold LOGSIZE. simpl. lia.
  - constructor.
  - set_solver.
  - exists t', l'. split_and!; [done|by split|congruence|]. intros m Hm Hnl. unfold rng in *. rewrite Z' in Hm.
    rewrite D' by (done || (intros ->; by apply Hnl, in_log_start)). simpl. rewrite Hsz in Hm.
    rewrite Hd by done. by eapply commit_ws_home.
Qed.

(** The three cases of a prefix of the writes. *)
Lemma commit_prefix st f bs h1 h0 k :
  let ws := commit_ws st f bs h1 h0 in
  (k <= length bs -> take k ws = take k (log_copies st 0 f bs))%nat /\
  (length bs < k <= S (length bs + length bs) ->
    take k ws = log_copies st 0 f bs ++ (st, h1) :: take (k - S (length bs)) ((fun b => (b, f b)) <$> bs))%nat /\
  (S (length bs + length bs) < k -> take k ws = ws)%nat.
Proof.
  intros ws. unfold ws, commit_ws. pose proof (log_copies_length st 0 f bs) as HA. split_and!; intros Hk.
  - by rewrite take_app_le by lia.
  - rewrite take_app_ge, HA by lia. f_equal. replace (k - length bs)%nat with (S (k - S (length bs))) by lia.
    simpl. f_equal. rewrite take_app_le; [done|]. rewrite length_fmap. lia.
  - apply take_ge. rewrite !length_app, HA. simpl. rewrite length_app, length_fmap. simpl. lia.
Qed.

Lemma commit_crash s l (st : Z) bs :
  logged s l st bs -> hdr_is (dblock (disk s) st) [] ->
  exists s' l' ws, commit s = Ret tt s' /\ logged s' l' st [] /\ home_is s' st (vw s) /\
    dwrites (disk s') = dwrites (disk s) ++ ws /\
    forall k t lt, booted t lt st -> disk_after s (take k ws) t ->
      exists t' lt', recover_from_log t = Ret tt t' /\ logged t' lt' st [] /\ dsize (disk t') = dsize (disk s) /\
        home_is t' st (if decide (k <= length bs)%nat then dblock (disk s) else vw s).
Proof.
  intros Hlg Hh. pose proof Hlg as [Hi Hl]. destruct (decide (bs = [])) as [->|Hne].
  { exists s, l, []. rewrite app_nil_r. split_and!; [|done| |done|].
    - unfold commit. rewrite bind_gets, (la_n _ _ _ Hl). done.
    - intros m Hm Hnl. symmetry. eapply idle_disk; [exact Hi|set_solver].
    - intros k t lt Hbt Hd. rewrite take_nil in Hd.
      destruct (crash_before s t lt st [] Hbt Hd) as (t' & l' & E & Hlg' & Hdz & Hhome); [set_solver|done|].
      exists t', l'. split_and!; [done..|]. case_decide; [done|]. intros m Hm Hnl. rewrite Hhome by done.
      symmetry. eapply idle_disk; [exact Hi|set_solver]. }
  destruct (commit_run s l st bs Hlg Hne) as (h1 & h0 & Hh1 & Hh0 & s' & l' & E & Hi' & B & Z' & W & D' & V').
  exists s', l', (commit_ws st (vw s) bs h1 h0). split_and!; [done|split; [done|]| |done|].
  - eapply log_at_below; [exact (log_at_clear s st bs Hl)|exact B|done].
  - intros m Hm Hnl. unfold rng in *. rewrite Z' in Hm. rewrite D' by done.
    exact (commit_ws_home s l st bs h1 h0 m Hlg Hm Hnl).
  - intros k t lt Hbt Hd. destruct (commit_prefix st (vw s) bs h1 h0 k) as (H1 & H2 & H3). case_decide as Hk.
    + rewrite H1 in Hd by done. eapply crash_before; [done..| |done].
      intros n Hn%take_fst%log_copies_fst. pose proof (la_len _ _ _ Hl). lia.
    + destruct (decide (k <= S (length bs + length bs))%nat).
      * rewrite H2 in Hd by lia. by eapply crash_after.
      * rewrite H3 in Hd by lia. by eapply crash_done.
Qed.
End Crash.

(** ** begin_op, log_write and end_op *)

(** A buffer of the zeroed memory the kernel starts with. *)
Definition buf0 : buf := Buf 0 0 0 (Sleeplock 0 false "" 0) 0 0 0 None (replicate (Z.to_nat BSIZE) 0).

Section LogOps.
Context {D : Type} `{!Driver D, !DriverSpec D}.
Implicit Types s : fsys D.
Implicit Types P H : gset Z.

(** ** Boot *)

Lemma binit_idle s :
  bufs s = replicate (S NBUF) buf0 -> drv_ok (disk s) ->
  exists s', binit s = Ret tt s' /\ idle s' (reverse (seq 0 NBUF)) ∅ ∅ /\
    s' = s <| bc_lock := false |> <| bufs := bufs s' |>.
Proof.
  intros Hb Hd. destruct (binit_run s) as (s' & E & (bs & Hs & Hc) & Hr); [by rewrite Hb, length_replicate|].
  exists s'. split; [done|].
  assert (Hbuf : forall i b, bufi s' i b -> core b = core (buf0 <| block ::= initsleeplock "buffer" |>)).
  { intros i b [Hi Hlk]. rewrite Hs in Hlk. specialize (Hc i). cbn in Hlk. change (bufs (s <| bc_lock := false |>)) with (bufs s) in Hc.
    rewrite Hlk, Hb, lookup_replicate_2 in Hc by lia. apply (inj Some) in Hc. rewrite Hc.
    unfold binit_buf. by rewrite decide_True by lia. }
  assert (Hdev : forall i b, bufi s' i b -> bdev b = 0 /\ bflags b = 0 /\ brefcnt b = 0).
  { intros i b Hi. destruct (core_fields _ _ (Hbuf i b Hi)) as (H1 & H2 & _ & _ & H3 & _).
    rewrite H1, H2, H3. done. }
  split; [split; [split|..]|by rewrite Hs].
  - exact Hr.
  - by rewrite Hs.
  - by rewrite Hs.
  - intros i b Hi. eapply (buf_ok_core s'); [symmetry; by eapply Hbuf|]. split; cbn; try done; [by left|lia..].
  - intros i j b c Hi Hj H1. destruct (Hdev i b Hi) as [H0 _]. by rewrite H0 in H1.
  - intros i b Hi. destruct (Hdev i b Hi) as (H0 & _ & ->). rewrite decide_False; [done|]. by intros [H1 _]; rewrite H0 in H1.
  - intros i b Hi H1. destruct (Hdev i b Hi) as (H0 & _). by rewrite H0 in H1.
  - intros i b Hi. destruct (Hdev i b Hi) as (H0 & Hf & _). unfold dirty. rewrite Hf, H0. naive_solver.
  - set_solver.
Qed.

(** ** log_write *)

Definition log_add (bs : list Z) (n : Z) : list Z := if decide (n ∈ bs) then bs else bs ++ [n].

Lemma absorb_in bs n : Forall (fun b => 0 <= b < 2 ^ 32) bs -> n ∈ bs -> bs !! absorb bs n = Some n /\ (absorb bs n < length bs)%nat.
Proof.
  induction 1 as [|b bs Hb Hbs IH]; [set_solver|]. simpl. rewrite u32_small by lia.
  destruct (Z.eqb_spec b n) as [->|Hne]; [intros _; split; [done|lia]|].
  intros [?|Hn]%elem_of_cons; [congruence|]. destruct (IH Hn). split; [done|lia].
Qed.

Lemma absorb_out bs n : Forall (fun b => 0 <= b < 2 ^ 32) bs -> n ∉ bs -> absorb bs n = length bs.
Proof.
  induction 1 as [|b bs Hb Hbs IH]; intros Hn; simpl; [done|]. rewrite u32_small by lia.
  destruct (Z.eqb_spec b n) as [->|Hne]; [set_solver|]. f_equal. apply IH. set_solver.
Qed.

Lemma log_acquire_run s : lg_lock (lg s) = false ->
  log_acquire s = Ret tt (s <| lg ::= fun l => l <| lg_lock := true |> |>).
Proof. intros H. unfold log_acquire, lock_acq. by rewrite bind_gets, H. Qed.
Lemma log_release_run s : lg_lock (lg s) = true ->
  log_release s = Ret tt (s <| lg ::= fun l => l <| lg_lock := false |> |>).
Proof. intros H. unfold log_release, lock_rel. by rewrite bind_gets, H. Qed.

(** The in-memory header after [log_write] of block [n]. *)
Lemma log_add_block bs rest n :
  Forall (fun b => 0 <= b < 2 ^ 32) bs -> (length bs < length (bs ++ rest))%nat ->
  (exists rest', <[absorb bs n := n]> (bs ++ rest) = log_add bs n ++ rest') /\
  (absorb bs n < length (bs ++ rest))%nat /\
  (if Z.of_nat (absorb bs n) =? Z.of_nat (length bs) then Z.of_nat (length bs) + 1 else Z.of_nat (length bs))
    = Z.of_nat (length (log_add bs n)).
Proof.
  intros Hbs Hl. unfold log_add. case_decide as Hn.
  - destruct (absorb_in bs n Hbs Hn) as [Hlk Hlt]. split_and!; [|lia|].
    + exists rest. by rewrite insert_app_l, list_insert_id.
    + by rewrite (proj2 (Z.eqb_neq _ _)) by lia.
  - rewrite (absorb_out bs n Hbs Hn), Z.eqb_refl. split_and!; [|done|].
    + destruct rest as [|x rest]; [rewrite app_nil_r in Hl; lia|]. exists rest.
      rewrite insert_app_r_alt, Nat.sub_diag by lia. by rewrite <-app_assoc.
    + rewrite length_app. simpl. lia.
Qed.

Lemma log_add_set bs n : list_to_set (log_add bs n) = (list_to_set bs ∪ {[n]} : gset Z).
Proof. unfold log_add. case_decide; set_solver. Qed.

(** Pinning a held buffer. *)
Lemma pin_seq s l P H i n d :
  idle s l P H -> n ∈ H -> shows s i n d ->
  exists s', upd_buf i (fun r => r <| bflags ::= fun f => Z.lor f B_DIRTY |>) s = Ret tt s' /\
    idle s' l (P ∪ {[n]}) H /\ shows s' i n d /\ (forall m, vw s' m = vw s m) /\
    s' = s <| bufs := bufs s' |> /\ (forall j m e, j <> i -> shows s j m e -> shows s' j m e).
Proof.
  intros Hi Hn (b & Hb & Hf & <-). rewrite (upd_put s i b _ Hb).
  pose proof (id_ok _ _ _ _ Hi) as Hok. pose proof Hf as [Hf1 Hf2].
  destruct (id_mine _ _ _ _ Hi i b Hb Hf1) as [Hm Hfl]; [by rewrite Hf2|].
  pose proof (bo_buf _ _ Hok i b Hb) as Hk.
  set (b' := b <| bflags ::= fun f => Z.lor f B_DIRTY |>).
  assert (Hd' : dirty b').
  { unfold dirty. change (bflags b') with (Z.lor (bflags b) B_DIRTY). destruct (bk_flags _ _ Hk) as [?|[->| ->]]; done. }
  assert (Hok' : bio_ok (put s i b') l).
  { apply (bio_ok_held s l i b (bflags b') (bdata b)); [done..|apply Hk|by right; right]. }
  exists (put s i b'). split_and!; [done|..].
  - eapply idle_put; [exact Hi|exact Hb|done|done|set_solver|naive_solver|..].
    + change (brefcnt b') with (brefcnt b). change (blockno b') with (blockno b).
      rewrite (id_ref _ _ _ _ Hi i b Hb). by rewrite !decide_True by (by rewrite Hf2).
    + intros _. split; [done|]. by rewrite Hd'.
    + split; [|done]. intros _. change (blockno b') with (blockno b). set_solver.
  - exists b'. by split; [eapply put_same|].
  - intros m. rewrite (vw_put_same s l l i b b' m) by done. case_decide; [|done].
    by rewrite (vw_cached _ _ _ _ _ Hok Hb).
  - by destruct s.
  - intros. by eapply shows_put_ne.
Qed.

Lemma log_write_run s l P H (st : Z) bs i n d :
  idle s l P H -> log_at s st bs -> n ∈ H -> shows s i n d -> ~ in_log st n ->
  lg_lock (lg s) = false -> 1 <= outstanding (lg s) ->
  Z.of_nat (length bs) < lg_size (lg s) - 1 <= Z.of_nat LOGSIZE - 1 ->
  exists s', log_write i s = Ret tt s' /\ idle s' l (P ∪ {[n]}) H /\ log_at s' st (log_add bs n) /\
    shows s' i n d /\ (forall m, vw s' m = vw s m) /\ (forall j m e, j <> i -> shows s j m e -> shows s' j m e) /\
    exists blk, s' = s <| bufs := bufs s' |> <| lg ::= fun g =>
      g <| lh_n := Z.of_nat (length (log_add bs n)) |> <| lh_block := blk |> |>.
Proof.
  intros Hi Hl Hn Hs Hnl Hlk Ho Hsz. pose proof Hs as (b & Hb & [Hf1 Hf2] & _).
  pose proof (id_ok _ _ _ _ Hi) as Hok. pose proof (drv_size _ (bo_disk _ _ Hok)) as Hds.
  pose proof (bk_range _ _ (bo_buf _ _ Hok i b Hb) Hf1) as Hrn. rewrite Hf2 in Hrn.
  assert (Hbs : Forall (fun b => 0 <= b < 2 ^ 32) bs).
  { apply Forall_forall. intros c Hc. destruct (la_home _ _ _ Hl c Hc) as [Hr _]. unfold rng in Hr. lia. }
  destruct (la_block _ _ _ Hl) as [rest Hblk]. pose proof (la_cap _ _ _ Hl) as Hcap.
  destruct (log_add_block bs rest n Hbs) as ((rest' & Hins) & Hab & Hlen);
    [rewrite <-Hblk, Hcap; apply (la_len _ _ _ Hl)|].
  unfold log_write. rewrite bind_gets, (la_n _ _ _ Hl).
  rewrite (proj2 (Z.leb_gt (Z.of_nat LOGSIZE) _)), (proj2 (Z.leb_gt _ (Z.of_nat (length bs)))) by lia.
  rewrite (proj2 (Z.ltb_ge (outstanding (lg s)) 1)) by lia. cbn [orb].
  runs1 (log_acquire_run s Hlk). set (s1 := s <| lg ::= _ |>).
  runs1 (buf_at_run s1 i b (proj2 Hb)). cbv zeta. rewrite Nat2Z.id, Hblk, take_app_length, Hf2.
  assert (Hset : set_lh (absorb bs n) n s1 =
    Ret tt (s1 <| lg ::= fun g => g <| lh_block := log_add bs n ++ rest' |> |>)).
  { unfold set_lh. rewrite bind_gets. change (lh_block (lg s1)) with (lh_block (lg s)).
    rewrite Hblk, decide_True by done. unfold upd_log, modify. f_equal. rewrite s32_small by lia.
    rewrite <-Hins, <-Hblk. done. }
  runs1 Hset. set (s2 := s1 <| lg ::= _ |>).
  assert (Hnn : whenM (Z.of_nat (absorb bs n) =? Z.of_nat (length bs)) (upd_log (fun l0 => l0 <| lh_n ::= fun n0 => n0 + 1 |>)) s2 =
    Ret tt (s2 <| lg ::= fun g => g <| lh_n := Z.of_nat (length (log_add bs n)) |> |>)).
  { rewrite <-Hlen, <-(la_n _ _ _ Hl). unfold whenM, upd_log, modify, ret, s2, s1. clear.
    destruct s as [? ? ? ? ? [] ? ? ? ? ? ? ?]. cbn. by destruct (_ =? _). }
  runs1 Hnn. set (s3 := s2 <| lg ::= _ |>).
  assert (Hi3 : idle s3 l P H) by (unfold s3, s2, s1; by repeat apply idle_lg).
  destruct (pin_seq s3 l P H i n d Hi3 Hn Hs) as (s4 & E & Hi4 & Hs4 & V4 & B4 & Fr4). runs1 E. clear E.
  assert (Hlg4 : lg s4 = lg s3) by (by rewrite B4).
  rewrite (log_release_run s4) by (by rewrite Hlg4).
  assert (Hfin : s4 <| lg ::= fun l0 => l0 <| lg_lock := false |> |> = s <| bufs := bufs s4 |> <| lg ::= fun g =>
    g <| lh_n := Z.of_nat (length (log_add bs n)) |> <| lh_block := log_add bs n ++ rest' |> |>).
  { rewrite B4. unfold s3, s2, s1. destruct s as [? ? ? ? ? [] ? ? ? ? ? ? ?]. cbn in *. by subst. }
  eexists. split_and!; [done|by apply idle_lg| |exact Hs4|exact V4|exact Fr4|].
  - rewrite Hfin. destruct Hl as [Hl1 Hl2 Hl3 Hl4 Hl5 Hl6 Hl7 Hhome Hl9]. split; try done; cbn.
    + by eexists.
    + rewrite <-Hins, length_insert, <-Hblk. done.
    + apply Nat2Z.inj_lt. rewrite <-Hlen. unfold LOGSIZE in *. case_match; lia.
    + intros c Hc. unfold log_add in Hc. case_decide; [by apply Hhome|].
      apply elem_of_app in Hc as [Hc|Hc]; [by apply Hhome|]. apply list_elem_of_singleton in Hc as ->. by split.
    + unfold log_add. case_decide; [done|]. apply NoDup_app. split_and!; [done|set_solver|apply NoDup_singleton].
  - exists (log_add bs n ++ rest'). rewrite Hfin. done.
Qed.

(** ** begin_op *)

Lemma begin_op_run s :
  lg_lock (lg s) = false -> - 2 ^ 31 <= outstanding (lg s) < 2 ^ 31 - 1 ->
  begin_op s =
    if c_true (committing (lg s)) ||
       (Z.of_nat LOGSIZE <? lh_n (lg s) + (outstanding (lg s) + 1) * MAXOPBLOCKS)
    then Stop ALog s
    else Ret tt (s <| lg ::= fun l => l <| outstanding ::= fun n => n + 1 |> |>).
Proof.
  intros Hl Ho. unfold begin_op. runs1 (log_acquire_run s Hl). rewrite bind_gets.
  destruct s as [? ? ? ? ? g ? ? ? ? ? ? ?]. cbn in *. destruct (c_true (committing g)) eqn:Hc; cbn.
  { unfold bind, log_release, lock_rel, gets, stop, modify. cbn. unfold bind. cbn. destruct g; cbn in *. by subst. }
  destruct (Z.of_nat LOGSIZE <? _) eqn:Hr.
  - unfold bind, log_release, lock_rel, gets, stop, modify. cbn. unfold bind. cbn. destruct g; cbn in *. by subst.
  - unfold bind, log_release, lock_rel, upd_log, gets, modify. cbn. unfold bind. cbn. f_equal.
    destruct g; cbn in *. subst. rewrite s32_small by lia. done.
Qed.

(** ** end_op *)

(** No operation is in the log's code and [k] of them are running. *)
Definition quiet s (k : Z) : Prop :=
  lg_lock (lg s) = false /\ committing (lg s) = 0 /\ outstanding (lg s) = k.

(** Only the cache, the disk and the header matter to [logged]. *)
Lemma logged_ext s s' l st bs :
  bufs s' = bufs s -> disk s' = disk s -> bc_lock s' = bc_lock s -> cur s' = cur s ->
  lg_dev (lg s') = lg_dev (lg s) -> lg_start (lg s') = lg_start (lg s) ->
  lh_n (lg s') = lh_n (lg s) -> lh_block (lg s') = lh_block (lg s) ->
  logged s l st bs -> logged s' l st bs.
Proof.
  intros H1 H2 H3 H4 H5 H6 H7 H8 [Hi Hl]. split.
  - destruct s, s'. cbn in *. subst. destruct Hi as [[] ? ? ? ?]. by split.
  - destruct Hl. split; unfold rng; rewrite ?H2, ?H5, ?H6, ?H7, ?H8; done.
Qed.

Lemma end_op_last s l (st : Z) bs :
  logged s l st bs -> hdr_is (dblock (disk s) st) [] -> quiet s 1 ->
  exists s' l' ws, end_op s = Ret tt s' /\ logged s' l' st [] /\ quiet s' 0 /\ home_is s' st (vw s) /\
    dsize (disk s') = dsize (disk s) /\ dwrites (disk s') = dwrites (disk s) ++ ws /\
    forall k t lt, booted t lt st -> disk_after s (take k ws) t ->
      exists t' lt', recover_from_log t = Ret tt t' /\ logged t' lt' st [] /\ dsize (disk t') = dsize (disk s) /\
        home_is t' st (if decide (k <= length bs)%nat then dblock (disk s) else vw s).
Proof.
  intros Hlg Hh (Hlk & Hc & Ho). unfold end_op. runs1 (log_acquire_run s Hlk).
  unfold upd_log. rewrite bind_modify, bind_gets.
  set (s1 := s <| lg ::= fun l0 => l0 <| lg_lock := true |> |> <| lg ::= fun l0 => l0 <| outstanding ::= fun n => s32 (n - 1) |> |>).
  assert (Hg1 : lg s1 = lg s <| lg_lock := true |> <| outstanding := 0 |>).
  { unfold s1. cbn. rewrite Ho. done. }
  rewrite Hg1. cbn [committing outstanding setter].
  change (committing (lg s <| lg_lock := true |> <| outstanding := 0 |>)) with (committing (lg s)). rewrite Hc.
  change (outstanding (lg s <| lg_lock := true |> <| outstanding := 0 |>)) with 0.
  change (c_true 0) with false. change (0 =? 0) with true. cbv iota. rewrite bind_modify.
  set (s2 := s1 <| lg ::= fun l0 => l0 <| committing := 1 |> |>).
  assert (Hlk2 : lg_lock (lg s2) = true) by done.
  runs1 (log_release_run s2 Hlk2). set (s3 := s2 <| lg ::= _ |>).
  assert (Hlg3 : logged s3 l st bs) by (by eapply (logged_ext s)).
  destruct (commit_crash s3 l st bs Hlg3 Hh) as (s4 & l4 & ws & E & Hlg4 & Hhome & Hw & Hcr).
  assert (Hcm : lg s4 = lg s3 <| lh_n := 0 |> /\ dsize (disk s4) = dsize (disk s)).
  { destruct (decide (bs = [])) as [->|Hne].
    - revert E. unfold commit. rewrite bind_gets. destruct Hlg3 as [_ Hl3]. rewrite (la_n _ _ _ Hl3).
      intros [= <-]. split; [|done]. pose proof (la_n _ _ _ Hl3) as Hn. destruct (lg s3); cbn in *. by subst.
    - destruct (commit_run s3 l st bs Hlg3 Hne) as (h1 & h0 & _ & _ & s4' & l4' & E' & _ & B & Z' & _).
      rewrite E in E'. injection E' as <-. split; [by rewrite (below_lg _ _ B)|done]. }
  destruct Hcm as [Hg4 Hz4]. runs1 E. clear E.
  runs1 (log_acquire_run s4 ltac:(by rewrite Hg4)). unfold wakeup. rewrite !bind_modify.
  rewrite log_release_run by done. eexists _, l4, ws. split; [done|].
  split_and!.
  - by eapply (logged_ext s4).
  - split_and!; [done|done|]. transitivity (outstanding (lg s4)); [done|]. rewrite Hg4.
    transitivity (outstanding (lg s1)); [done|]. by rewrite Hg1.
  - intros m Hm Hnl. by apply Hhome.
  - done.
  - exact Hw.
  - exact Hcr.
Qed.

(** [end_op] of an operation that is not the last: nothing is committed. *)
Lemma end_op_more s k :
  quiet s k -> 1 < k < 2 ^ 31 ->
  end_op s = Ret tt (s <| lg ::= fun l => l <| outstanding := k - 1 |> |> <| wakes ::= fun w => w ++ [ALog] |>).
Proof.
  intros (Hlk & Hc & Ho) Hk. unfold end_op. runs1 (log_acquire_run s Hlk).
  unfold upd_log. rewrite bind_modify, bind_gets.
  destruct s as [? ? ? ? ? g ? ? ? ? ? ? ?]. destruct g. cbn in *. subst. cbn.
  rewrite s32_small by lia. replace (k - 1 =? 0) with false by lia. done.
Qed.

(** ** A transaction *)

(** The use of the log that log.c describes: bp = bread(...); modify
    bp->data[]; log_write(bp); brelse(bp). *)
Definition modify_block (n : Z) (f : list Z -> option (list Z)) : F D unit :=
  do bp <- bread 1 n;
  set_data bp f;;
  log_write bp;;
  brelse bp.

Lemma modify_block_run s l (st : Z) bs n f d k :
  logged s l st bs -> quiet s k -> 1 <= k ->
  Z.of_nat (length bs) < lg_size (lg s) - 1 <= Z.of_nat LOGSIZE - 1 ->
  rng s n -> ~ in_log st n -> f (vw s n) = Some d -> length d = Z.to_nat BSIZE ->
  exists s' l', modify_block n f s = Ret tt s' /\ logged s' l' st (log_add bs n) /\ quiet s' k /\
    lg_size (lg s') = lg_size (lg s) /\ disk s' = disk s /\
    (forall m, vw s' m = if m =? n then d else vw s m).
Proof.
  intros Hlg (Hlk & Hc & Ho) Hk Hsz Hn Hnl Hf Hd. unfold modify_block.
  destruct (logged_pins _ _ _ _ Hlg) as [Hps _]. destruct Hlg as [Hi Hl].
  destruct (bread_seq s l (list_to_set bs) ∅ n) as (i & s1 & E & Hi1 & Sh1 & V1 & B1 & D1 & _);
    [done|set_solver|done|right; by rewrite union_empty_r_L|]. runs1 E. clear E.
  rewrite (union_empty_l_L {[n]}) in Hi1.
  destruct (set_data_to s1 l (list_to_set bs) {[n]} i n (vw s n) f d Hi1) as (s2 & E & Hi2 & Sh2 & V2 & B2 & D2);
    [set_solver|done|done|done|]. runs1 E. clear E.
  assert (B : below s s2) by (by rewrite B1, B2). pose proof (below_lg _ _ B) as Hg2.
  assert (Hd2 : disk s2 = disk s) by (by rewrite D2, D1).
  destruct (log_write_run s2 l (list_to_set bs) {[n]} st bs i n d) as (s3 & E & Hi3 & Hl3 & Sh3 & V3 & _ & blk & Hs3);
    [done|eapply log_at_below; [exact Hl|exact B|by rewrite Hd2]|set_solver|done|done|by rewrite Hg2|rewrite Hg2; lia|by rewrite Hg2|].
  runs1 E. clear E. rewrite <-log_add_set in Hi3.
  destruct (brelse_seq s3 l (list_to_set (log_add bs n)) {[n]} i n d Hi3) as (s4 & l4 & E & Hi4 & V4 & B4 & D4 & _);
    [set_solver|done|left; rewrite log_add_set; set_solver|].
  replace ({[n]} ∖ {[n]}) with (∅ : gset Z) in Hi4 by set_solver.
  assert (Hx : forall A (p : logst -> A), (forall g x b, p (g <| lh_n := x |> <| lh_block := b |>) = p g) ->
    p (lg s4) = p (lg s)) by (intros A p Hp; rewrite (below_lg _ _ B4), Hs3, <-Hg2; apply (Hp (lg s2))).
  exists s4, l4. rewrite E. split_and!; [done|split; [done|]|split_and!|..].
  - eapply log_at_below; [exact Hl3|exact B4|by rewrite D4].
  - by rewrite Hx.
  - by rewrite Hx.
  - by rewrite Hx.
  - by rewrite Hx.
  - rewrite D4, Hs3. exact Hd2.
  - intros m. rewrite V4, V3, V2. destruct (m =? n); [done|]. apply V1.
Qed.

(** begin_op(); one modification; end_op(). *)
Definition update_block (n : Z) (f : list Z -> option (list Z)) : F D unit :=
  begin_op;; modify_block n f;; end_op.

Lemma update_block_run s l (st : Z) n f d :
  logged s l st [] -> hdr_is (dblock (disk s) st) [] -> quiet s 0 ->
  0 < lg_size (lg s) - 1 <= Z.of_nat LOGSIZE - 1 ->
  rng s n -> ~ in_log st n -> f (vw s n) = Some d -> length d = Z.to_nat BSIZE ->
  exists s' l', update_block n f s = Ret tt s' /\ logged s' l' st [] /\ quiet s' 0 /\
    home_is s' st (fun m => if m =? n then d else vw s m).
Proof.
  intros Hlg Hh (Hlk & Hc & Ho) Hsz Hn Hnl Hf Hd. unfold update_block.
  assert (E : begin_op s = Ret tt (s <| lg ::= fun l => l <| outstanding ::= fun n => n + 1 |> |>)).
  { rewrite begin_op_run by (done || lia). destruct Hlg as [_ Hl]. rewrite Hc, Ho, (la_n _ _ _ Hl). done. }
  runs1 E. clear E. set (s0 := s <| lg ::= _ |>).
  assert (Hlg0 : logged s0 l st []) by (by eapply (logged_ext s)).
  assert (Hq0 : quiet s0 1) by (split_and!; [done|done|]; cbn; by rewrite Ho).
  destruct (modify_block_run s0 l st [] n f d 1 Hlg0 Hq0) as (s1 & l1 & E & Hlg1 & Hq1 & _ & D1 & V1); [done..|].
  runs1 E. clear E.
  destruct (end_op_last s1 l1 st _ Hlg1) as (s2 & l2 & ws & E & Hlg2 & Hq2 & Hhome & _); [by rewrite D1|done|].
  exists s2, l2. rewrite E. split_and!; [done..|]. intros m Hm Hml. by rewrite (Hhome m Hm Hml), V1.
Qed.
End LogOps.
