(* ===== verification/LogTheorems.v ===== *)
(** * The log: theorems

    Crash safety of [commit], durability of a transaction, when [begin_op]
    lets a system call in, and where the space it promises and the space
    [log_write] accepts differ. *)
From S2P Require Import Prelude Bytes Spinlock ProcDefs Memory Kalloc FsDefs.
From S2P Require Import Bio BioRing BioSpec BioOps BioSeq Log LogSpec LogCrash.
Local Open Scope Z_scope.
Local Open Scope kernel_scope.

(** ** A machine to run on: 40 blocks of zeros, the log at block 2 *)

Definition demo_cur : curproc := Curproc 1 0 0 (replicate 16 None) 0 0 (fun _ => 0).
Definition demo_disk : memdisk := memide_ideinit (replicate (40 * 512) 0).
Definition demo_fs (l : logst) : fsys memdisk :=
  Fsys demo_cur [] demo_disk false (replicate (S NBUF) buf0) l
       (Superblock 0 0 0 0 0 0 0) false [] false [] ∅ (Kmem (fun _ => 0) true 0 false).
Definition demo_log (n : Z) (bl : list Z) : logst := Logst false 2 30 n 0 1 0 bl.

Lemma demo_img_ok : memide_ok demo_disk.
Proof. split; [done|]. vm_compute. done. Qed.

Lemma demo_hdr : hdr_is (memide_block demo_disk 2) [].
Proof. split; [vm_compute; done|]. intros k b Hk. by rewrite lookup_nil in Hk. Qed.

Lemma demo_booted :
  exists s l, booted s l 2 /\ logged s l 2 [] /\ disk s = demo_disk /\
    lg s = demo_log 0 (replicate 30 0).
Proof.
  assert (Hok : drv_ok (disk (demo_fs (demo_log 0 (replicate 30 0))))) by exact demo_img_ok.
  destruct (binit_idle (demo_fs (demo_log 0 (replicate 30 0))) eq_refl Hok) as (s & _ & Hi & Hs).
  exists s, (reverse (seq 0 NBUF)).
  assert (Hd : disk s = demo_disk) by (by rewrite Hs).
  assert (Hg : lg s = demo_log 0 (replicate 30 0)) by (by rewrite Hs).
  assert (Hz : dsize (disk s) = 40) by (rewrite Hd; by vm_compute).
  split_and!; [|split; [done|]|done|done].
  - split; [done|by rewrite Hg..|by rewrite Hz].
  - split; rewrite ?Hg, ?Hz; try done; [by eexists|unfold LOGSIZE; simpl; lia|set_solver|constructor].
Qed.

(** One block modified and logged: a transaction ready to commit. *)
Lemma demo_logged :
  exists s l, logged s l 2 [35] /\ hdr_is (dblock (disk s) 2) [] /\ quiet s 1 /\
    vw s 35 = replicate 512 7 /\ dblock (disk s) 35 = replicate 512 0.
Proof.
  destruct demo_booted as (s & l & _ & Hlg & Hd & Hg).
  set (s0 := s <| lg ::= fun g => g <| outstanding := 1 |> |>).
  assert (Hlg0 : logged s0 l 2 []) by (by eapply (logged_ext s)).
  assert (Hq : quiet s0 1) by (split_and!; unfold s0; cbn; by rewrite ?Hg).
  destruct (modify_block_run s0 l 2 [] 35 (fun _ => Some (replicate 512 7)) (replicate 512 7) 1 Hlg0 Hq)
    as (s1 & l1 & _ & Hlg1 & Hq1 & _ & D1 & V1).
  - done.
  - unfold s0. cbn. rewrite Hg. unfold LOGSIZE. cbn. lia.
  - unfold rng. change (disk s0) with (disk s). rewrite Hd. by vm_compute.
  - unfold in_log, LOGSIZE. lia.
  - done.
  - done.
  - exists s1, l1. rewrite D1. change (disk s0) with (disk s). rewrite Hd. split_and!; [exact Hlg1|exact demo_hdr|done|by rewrite V1|].
    vm_compute. done.
Qed.

(** ** Theorems *)

(** C1: A commit is atomic across a crash.  Let the log name the blocks [bs], with
    an empty header on disk.  [commit] runs to the end; let [ws] be the disk
    writes it does, in order.  If the machine stops after any [k] of them and
    [recover_from_log] runs on what is on the disk, then every block outside
    the log area is what it was before the transaction (when [k] is at most the
    number of log blocks) or what the cache showed when the commit began (when
    the header had been written), and the log is empty again. *)
Theorem commit_crash_safe {D} `{!Driver D, !DriverSpec D} (s : fsys D) l (st : Z) bs :
  logged s l st bs -> hdr_is (dblock (disk s) st) [] ->
  exists s' l' ws, commit s = Ret tt s' /\ logged s' l' st [] /\ home_is s' st (vw s) /\
    dwrites (disk s') = dwrites (disk s) ++ ws /\
    forall k t lt, booted t lt st -> disk_after s (take k ws) t ->
      exists t' lt', recover_from_log t = Ret tt t' /\ logged t' lt' st [] /\ dsize (disk t') = dsize (disk s) /\
        home_is t' st (if decide (k <= length bs)%nat then dblock (disk s) else vw s).
Proof. apply commit_crash. Qed.

Lemma commit_crash_safe_witness :
  exists (s : fsys memdisk), vw s 35 = replicate 512 7 /\ dblock (disk s) 35 = replicate 512 0 /\
  exists s' l' ws, commit s = Ret tt s' /\ logged s' l' 2 [] /\ home_is s' 2 (vw s) /\
    dwrites (disk s') = dwrites (disk s) ++ ws /\
    forall k t lt, booted t lt 2 -> disk_after s (take k ws) t ->
      exists t' lt', recover_from_log t = Ret tt t' /\ logged t' lt' 2 [] /\ dsize (disk t') = dsize (disk s) /\
        home_is t' 2 (if decide (k <= length [35])%nat then dblock (disk s) else vw s).
Proof.
  destruct demo_logged as (s & l & H1 & H2 & _ & H3 & H4). exists s.
  split; [exact H3|]. split; [exact H4|]. apply (commit_crash_safe s l 2 [35] H1 H2).
Defined.



(** [begin_op] starts an operation when no commit is running and the log has
    room for [MAXOPBLOCKS] blocks of every operation that would then run;
    otherwise the thread sleeps on the log and nothing has changed. *)
Theorem begin_op_admits {D} `{!Driver D} (s : fsys D) :
  lg_lock (lg s) = false -> - 2 ^ 31 <= outstanding (lg s) < 2 ^ 31 - 1 ->
  begin_op s =
    if c_true (committing (lg s)) ||
       (Z.of_nat LOGSIZE <? lh_n (lg s) + (outstanding (lg s) + 1) * MAXOPBLOCKS)
    then Stop ALog s
    else Ret tt (s <| lg ::= fun l => l <| outstanding ::= fun n => n + 1 |> |>).
Proof. apply begin_op_run. Qed.

Lemma begin_op_admits_witness :
  begin_op (demo_fs (demo_log 3 [])) = Stop ALog (demo_fs (demo_log 3 [])) /\
  begin_op (demo_fs (demo_log 2 [])) = Ret tt (demo_fs (demo_log 3 [])).
Proof.
  split.
  - rewrite (begin_op_admits (demo_fs (demo_log 3 []))); [reflexivity|reflexivity|cbn; lia].
  - rewrite (begin_op_admits (demo_fs (demo_log 2 []))); [reflexivity|reflexivity|cbn; lia].
Defined.

(** C34: The space [begin_op] promises is one block more than [log_write] accepts.
    With a log of [LOGSIZE] blocks (what mkfs makes), three operations may run
    at once, which reserves 3 * MAXOPBLOCKS = 30 blocks; the log_write of a
    30th block panics, because one of the log's blocks is the header. *)
Theorem log_space_mismatch {D} `{!Driver D} (s : fsys D) b :
  quiet s 0 -> lh_n (lg s) = 0 -> lg_size (lg s) = Z.of_nat LOGSIZE ->
  exists s3, (begin_op;; begin_op;; begin_op) s = Ret tt s3 /\ quiet s3 3 /\
    forall t : fsys D, lg t = lg s3 <| lh_n := 3 * MAXOPBLOCKS - 1 |> -> log_write b t = Panic "too big a transaction" t.
Proof.
  intros Hq Hn Hs.
  assert (Hgo : forall (t : fsys D) k, quiet t k -> lh_n (lg t) = 0 -> 0 <= k < 3 ->
    begin_op t = Ret tt (t <| lg ::= fun l => l <| outstanding ::= fun n => n + 1 |> |>) /\
    quiet (t <| lg ::= fun l => l <| outstanding ::= fun n => n + 1 |> |>) (k + 1)).
  { intros t k (Hlk & Hc & Ho) Hn0 Hk. rewrite begin_op_run by (done || lia).
    rewrite Hc, Ho, Hn0. change (c_true 0) with false. unfold LOGSIZE, MAXOPBLOCKS. cbn [orb].
    rewrite (proj2 (Z.ltb_ge _ _)) by lia. split; [done|]. split_and!; [done|done|]. cbn. by rewrite Ho. }
  destruct (Hgo s 0 Hq Hn) as [E1 Hq1]; [lia|]. runs1 E1.
  destruct (Hgo _ 1 Hq1 Hn) as [E2 Hq2]; [lia|]. runs1 E2.
  destruct (Hgo _ 2 Hq2 Hn) as [E3 Hq3]; [lia|]. rewrite E3. eexists. split; [done|]. split; [done|].
  intros t Ht. unfold log_write. rewrite bind_gets, Ht. cbn. rewrite Hs. done.
Qed.

Lemma log_space_mismatch_witness :
  exists s3, (begin_op;; begin_op;; begin_op) (demo_fs (demo_log 0 (replicate 30 0))) = Ret tt s3 /\ quiet s3 3 /\
    forall t : fsys memdisk, lg t = lg s3 <| lh_n := 3 * MAXOPBLOCKS - 1 |> -> log_write 0 t = Panic "too big a transaction" t.
Proof. apply (log_space_mismatch (demo_fs (demo_log 0 (replicate 30 0))) 0); [done|reflexivity|reflexivity]. Defined.
