(* ===== verification/Fs.v ===== *)
(** * The file system: fs.c

    Blocks and the free map, inodes and the inode cache, inode contents,
    directories and path names.  A [char *] destination is modelled by the bytes
    that the call stores there, a source by the bytes it holds; the on-disk
    structures are read and written in the bytes of a buffer:
    a [struct dinode] is 64 bytes (four shorts, [size], 13 addresses), a
    [struct dirent] 16 (a ushort and 14 characters).  The device table
    [devsw] is reached through the class [Devices]. *)
From S2P Require Import Prelude Bytes Cstring Spinlock ProcDefs Memory Kalloc FsDefs Bio Log.
Local Open Scope Z_scope.
Local Open Scope kernel_scope.

(** [devsw[major].read] and [.write]; [None] is a null function pointer. *)
Class Devices (D : Type) := {
  devsw_read : Z -> option (nat -> Z -> F D (Z * list Z));
  devsw_write : Z -> option (nat -> list Z -> Z -> F D Z)
}.

(** [struct stat] *)
Record stat := Stat { st_type : Z; st_dev : Z; st_ino : Z; st_nlink : Z; st_size : Z }.

Definition zeros (n : nat) : list Z := replicate n 0.
Definition sizeof_dinode : nat := 64.
Definition sizeof_dirent : Z := 16.

(** ** Blocks *)
Section Fs.
Context {D : Type} `{!Driver D}.

Definition BBLOCK (b : Z) (x : superblock) : Z := u32 (b / BPB + sb_bmapstart x).
Definition IBLOCK (i : Z) (x : superblock) : Z := u32 (i / IPB + sb_inodestart x).

Definition bzero (dev bno : Z) : F D unit :=
  do bp <- bread dev bno;
  set_data bp (fun d => splice 0 (zeros (Z.to_nat BSIZE)) d);;
  log_write bp;;
  brelse bp.

(** The bit of block [bi] of a bitmap block. *)
Definition bit_of (bi : Z) : Z := Z.shiftl 1 (bi mod 8).

(** for(bi = 0; bi < BPB && b + bi < sb.size; bi++) if((data[bi/8] & m) == 0) ...
    from [bi], with [n] rounds left; the outer [None] is an access outside the data. *)
Fixpoint find_free (n : nat) (data : list Z) (size b bi : Z) : option (option Z) :=
  match n with
  | O => Some None
  | S n' =>
    if (bi <? BPB) && (b + bi <? size) then
      x ← data !! Z.to_nat (bi / 8);
      if Z.land x (bit_of bi) =? 0 then Some (Some bi) else find_free n' data size b (bi + 1)
    else Some None
  end.

(** bp->data[bi/8] = f(bp->data[bi/8]) *)
Definition set_byte (bi : Z) (f : Z -> Z) (data : list Z) : option (list Z) :=
  x ← data !! Z.to_nat (bi / 8);
  Some (<[Z.to_nat (bi / 8) := u8 (f x)]> data).

(** The outer loop of [balloc] from block [b], with [n] bitmap blocks left. *)
Fixpoint balloc_loop (n : nat) (dev b : Z) : F D Z :=
  match n with
  | O => panic "balloc: out of blocks"
  | S n' =>
    do x <- gets sb;
    if b <? sb_size x then
      do bp <- bread dev (BBLOCK b x);
      do r <- buf_at bp;
      do o <- orUndef "bp->data" (find_free (Z.to_nat BPB) (bdata r) (sb_size x) b 0);
      match o with
      | Some bi =>
        set_data bp (set_byte bi (fun v => Z.lor v (bit_of bi)));;
        log_write bp;;
        brelse bp;;
        bzero dev (b + bi);;
        ret (b + bi)
      | None => brelse bp;; balloc_loop n' dev (b + BPB)
      end
    else panic "balloc: out of blocks"
  end.

Definition balloc (dev : Z) : F D Z :=
  do x <- gets sb;
  balloc_loop (Z.to_nat (sb_size x / BPB + 1)) dev 0.

Definition bfree (dev b : Z) : F D unit :=
  do y <- readsb dev;
  modify (fun s => s <| sb := y |>);;
  do x <- gets sb;
  do bp <- bread dev (BBLOCK b x);
  let bi := b mod BPB in
  do r <- buf_at bp;
  do v <- orUndef "bp->data" (bdata r !! Z.to_nat (bi / 8));
  if Z.land v (bit_of bi) =? 0 then panic "freeing free block" else
  set_data bp (set_byte bi (fun v => Z.land v (Z.lnot (bit_of bi))));;
  log_write bp;;
  brelse bp.

(** ** Inodes *)

Definition iinit (dev : Z) : F D unit :=
  modify (fun s => s <| ic_lock := false |>);;
  forM (seq 0 NINODE) (fun i => upd_inode i (fun ip => ip <| ilk ::= initsleeplock "inode" |>));;
  do y <- readsb dev;
  modify (fun s => s <| sb := y |>).

(** (struct dinode* )bp->data + inum%IPB *)
Definition dip_off (i : Z) : nat := (Z.to_nat (i mod IPB) * sizeof_dinode)%nat.

(** The loop of [iget] over the cache: the entry of the inode, or the first
    free entry. *)
Fixpoint iget_scan (l : list inode) (i : nat) (dev ino : Z) (empty : option nat) : nat + option nat :=
  match l with
  | [] => inr empty
  | ip :: l' =>
    if (0 <? iref ip) && (idev ip =? dev) && (inum ip =? ino) then inl i
    else iget_scan l' (S i) dev ino
      (match empty with None => if iref ip =? 0 then Some i else None | Some e => Some e end)
  end.

(** [ref] is an int; its wrap-around at 2^31 references is not modelled. *)
Definition iget (dev ino : Z) : F D nat :=
  icache_acquire;;
  do l <- gets inodes;
  match iget_scan l 0 dev ino None with
  | inl i =>
    upd_inode i (fun ip => ip <| iref ::= fun n => n + 1 |>);;
    icache_release;;
    ret i
  | inr None => panic "iget: no inodes"
  | inr (Some i) =>
    upd_inode i (fun ip => ip <| idev := dev |>);;
    upd_inode i (fun ip => ip <| inum := ino |>);;
    upd_inode i (fun ip => ip <| iref := 1 |>);;
    upd_inode i (fun ip => ip <| ivalid := 0 |>);;
    icache_release;;
    ret i
  end.

(** for(inum = 1; inum < sb.ninodes; inum++) from [ino], [n] rounds left. *)
Fixpoint ialloc_loop (n : nat) (dev type ino : Z) : F D nat :=
  match n with
  | O => panic "ialloc: no inodes"
  | S n' =>
    do x <- gets sb;
    if ino <? sb_ninodes x then
      do bp <- bread dev (IBLOCK ino x);
      do r <- buf_at bp;
      do t <- orUndef "dip->type" (ld 2 (dip_off ino) (bdata r));
      if s16 t =? 0 then
        set_data bp (splice (dip_off ino) (zeros sizeof_dinode));;
        set_data bp (st 2 (dip_off ino) type);;
        log_write bp;;
        brelse bp;;
        iget dev ino
      else brelse bp;; ialloc_loop n' dev type (ino + 1)
    else panic "ialloc: no inodes"
  end.

Definition ialloc (dev type : Z) : F D nat :=
  do x <- gets sb;
  ialloc_loop (Z.to_nat (sb_ninodes x)) dev type 1.

(** The stores of [iupdate] into the dinode at offset [o]. *)
Definition put_dinode (ip : inode) (o : nat) (d : list Z) : option (list Z) :=
  d ← st 2 o (itype ip) d;
  d ← st 2 (o + 2) (imajor ip) d;
  d ← st 2 (o + 4) (iminor ip) d;
  d ← st 2 (o + 6) (inlink ip) d;
  d ← st 4 (o + 8) (isize ip) d;
  splice (o + 12) (concat (le_bytes 4 <$> iaddrs ip)) d.

(** The loads of [ilock]. *)
Definition get_addrs (o : nat) (d : list Z) : option (list Z) :=
  mapM (fun k => ld 4 (o + 4 * k) d) (seq 0 (Z.to_nat NDIRECT + 1)).
Definition get_dinode (o : nat) (d : list Z) (ip : inode) : option inode :=
  t ← ld 2 o d; mj ← ld 2 (o + 2) d; mn ← ld 2 (o + 4) d; nl ← ld 2 (o + 6) d; sz ← ld 4 (o + 8) d;
  a ← get_addrs (o + 12) d;
  Some (ip <| itype := s16 t |> <| imajor := s16 mj |> <| iminor := s16 mn |> <| inlink := s16 nl |>
           <| isize := sz |> <| iaddrs := a |>).

Definition iupdate (i : nat) : F D unit :=
  do ip <- inode_at i;
  do x <- gets sb;
  do bp <- bread (idev ip) (IBLOCK (inum ip) x);
  do ip <- inode_at i;
  set_data bp (put_dinode ip (dip_off (inum ip)));;
  log_write bp;;
  brelse bp.

Definition idup (i : nat) : F D nat :=
  icache_acquire;;
  upd_inode i (fun ip => ip <| iref ::= fun n => n + 1 |>);;
  icache_release;;
  ret i.

(** [ip] null is the argument [None]. *)
Definition ilock (o : option nat) : F D unit :=
  match o with
  | None => panic "ilock"
  | Some i =>
    do ip <- inode_at i;
    if iref ip <? 1 then panic "ilock" else
    acquiresleep (InodeLock i);;
    do ip <- inode_at i;
    if ivalid ip =? 0 then
      do x <- gets sb;
      do bp <- bread (idev ip) (IBLOCK (inum ip) x);
      do r <- buf_at bp;
      do ip' <- orUndef "dip" (get_dinode (dip_off (inum ip)) (bdata r) ip);
      upd_inode i (fun ip => ip <| itype := itype ip' |> <| imajor := imajor ip' |>
        <| iminor := iminor ip' |> <| inlink := inlink ip' |> <| isize := isize ip' |>
        <| iaddrs := iaddrs ip' |>);;
      brelse bp;;
      upd_inode i (fun ip => ip <| ivalid := 1 |>);;
      if itype ip' =? 0 then panic "ilock: no type" else ret tt
    else ret tt
  end.

Definition iunlock (o : option nat) : F D unit :=
  match o with
  | None => panic "iunlock"
  | Some i =>
    do h <- holdingsleep (InodeLock i);
    do ip <- inode_at i;
    if negb h || (iref ip <? 1) then panic "iunlock" else
    releasesleep (InodeLock i)
  end.

(** for(i = 0; i < NDIRECT; i++) if(ip->addrs[i]) { bfree(...); ip->addrs[i] = 0; } *)
Definition itrunc_direct (i : nat) (k : nat) : F D unit :=
  do ip <- inode_at i;
  do a <- orUndef "ip->addrs" (iaddrs ip !! k);
  whenM (c_true a)
    (bfree (idev ip) a;;
     upd_inode i (fun ip => ip <| iaddrs ::= <[k := 0]> |>)).

Definition itrunc (i : nat) : F D unit :=
  forM (seq 0 (Z.to_nat NDIRECT)) (itrunc_direct i);;
  do ip <- inode_at i;
  do a <- orUndef "ip->addrs" (iaddrs ip !! Z.to_nat NDIRECT);
  whenM (c_true a)
    (do bp <- bread (idev ip) a;
     forM (seq 0 (Z.to_nat NINDIRECT)) (fun j =>
       do r <- buf_at bp;
       do aj <- orUndef "a[j]" (ld 4 (4 * j) (bdata r));
       whenM (c_true aj) (bfree (idev ip) aj));;
     brelse bp;;
     bfree (idev ip) a;;
     upd_inode i (fun ip => ip <| iaddrs ::= <[Z.to_nat NDIRECT := 0]> |>));;
  upd_inode i (fun ip => ip <| isize := 0 |>);;
  iupdate i.

Definition iput (i : nat) : F D unit :=
  acquiresleep (InodeLock i);;
  do ip <- inode_at i;
  whenM (c_true (ivalid ip) && (inlink ip =? 0))
    (icache_acquire;;
     do ip <- inode_at i;
     icache_release;;
     whenM (iref ip =? 1)
       (itrunc i;;
        upd_inode i (fun ip => ip <| itype := 0 |>);;
        iupdate i;;
        upd_inode i (fun ip => ip <| ivalid := 0 |>)));;
  releasesleep (InodeLock i);;
  icache_acquire;;
  upd_inode i (fun ip => ip <| iref ::= fun n => n - 1 |>);;
  icache_release.

Definition iunlockput (i : nat) : F D unit := iunlock (Some i);; iput i.

(** ** Inode content *)

Definition bmap (i : nat) (bn : Z) : F D Z :=
  do ip <- inode_at i;
  if bn <? NDIRECT then
    do addr <- orUndef "ip->addrs" (iaddrs ip !! Z.to_nat bn);
    if addr =? 0 then
      do addr <- balloc (idev ip);
      upd_inode i (fun ip => ip <| iaddrs ::= <[Z.to_nat bn := addr]> |>);;
      ret addr
    else ret addr
  else
  let bn := bn - NDIRECT in
  if bn <? NINDIRECT then
    do addr <- orUndef "ip->addrs" (iaddrs ip !! Z.to_nat NDIRECT);
    do addr <-
      (if addr =? 0 then
         do addr <- balloc (idev ip);
         upd_inode i (fun ip => ip <| iaddrs ::= <[Z.to_nat NDIRECT := addr]> |>);;
         ret addr
       else ret addr);
    do bp <- bread (idev ip) addr;
    do r <- buf_at bp;
    do addr <- orUndef "a[bn]" (ld 4 (4 * Z.to_nat bn) (bdata r));
    do addr <-
      (if addr =? 0 then
         do addr <- balloc (idev ip);
         set_data bp (st 4 (4 * Z.to_nat bn) addr);;
         log_write bp;;
         ret addr
       else ret addr);
    brelse bp;;
    ret addr
  else panic "bmap: out of range".

Definition stati (i : nat) : F D stat :=
  do ip <- inode_at i;
  ret (Stat (itype ip) (idev ip) (inum ip) (inlink ip) (isize ip)).

(** The loop of [readi]: what is stored at dst from here on. *)
Fixpoint readi_loop (k : nat) (i : nat) (off n tot : Z) : F D (list Z) :=
  match k with
  | O => undef "readi loop"
  | S k' =>
    if tot <? n then
      do ip <- inode_at i;
      do a <- bmap i (off / BSIZE);
      do bp <- bread (idev ip) a;
      let m := Z.min (n - tot) (BSIZE - off mod BSIZE) in
      do r <- buf_at bp;
      do d <- orUndef "bp->data" (sub (Z.to_nat (off mod BSIZE)) (Z.to_nat m) (bdata r));
      brelse bp;;
      do rest <- readi_loop k' i (u32 (off + m)) n (tot + m);
      ret (d ++ rest)
    else ret []
  end.

Context `{!Devices D}.

(** [readi(ip, dst, off, n)]: the result and the bytes stored at [dst]. *)
Definition readi (i : nat) (off n : Z) : F D (Z * list Z) :=
  do ip <- inode_at i;
  if itype ip =? T_DEV then
    match (if (imajor ip <? 0) || (NDEV <=? imajor ip) then None else devsw_read (imajor ip)) with
    | None => ret (-1, [])
    | Some f => f i (s32 n)
    end
  else
  if (isize ip <? off) || (u32 (off + n) <? off) then ret (-1, []) else
  let n := if isize ip <? u32 (off + n) then u32 (isize ip - off) else n in
  do d <- readi_loop (Z.to_nat (n / BSIZE) + 3) i off n 0;
  ret (s32 n, d).

Fixpoint writei_loop (k : nat) (i : nat) (src : list Z) (off n tot : Z) : F D Z :=
  match k with
  | O => undef "writei loop"
  | S k' =>
    if tot <? n then
      do ip <- inode_at i;
      do a <- bmap i (off / BSIZE);
      do bp <- bread (idev ip) a;
      let m := Z.min (n - tot) (BSIZE - off mod BSIZE) in
      do d <- orUndef "src" (sub 0 (Z.to_nat m) src);
      set_data bp (splice (Z.to_nat (off mod BSIZE)) d);;
      log_write bp;;
      brelse bp;;
      writei_loop k' i (drop (Z.to_nat m) src) (u32 (off + m)) n (tot + m)
    else ret off
  end.

(** [writei(ip, src, off, n)] *)
Definition writei (i : nat) (src : list Z) (off n : Z) : F D Z :=
  do ip <- inode_at i;
  if itype ip =? T_DEV then
    match (if (imajor ip <? 0) || (NDEV <=? imajor ip) then None else devsw_write (imajor ip)) with
    | None => ret (-1)
    | Some f => f i src (s32 n)
    end
  else
  if (isize ip <? off) || (u32 (off + n) <? off) then ret (-1) else
  if MAXFILE * BSIZE <? u32 (off + n) then ret (-1) else
  do off' <- writei_loop (Z.to_nat (n / BSIZE) + 3) i src off n 0;
  do ip <- inode_at i;
  whenM ((0 <? n) && (isize ip <? off'))
    (upd_inode i (fun ip => ip <| isize := off' |>);;
     iupdate i);;
  ret (s32 n).

(** ** Directories *)

(** [namecmp(s, t)]; [None] is a read outside one of the names. *)
Definition namecmp (s t : list Z) : option Z := strncmp s t DIRSIZ.

(** The fields of a [struct dirent]. *)
Definition de_inum (de : list Z) : option Z := ld 2 0 de.
Definition de_name (de : list Z) : option (list Z) := sub 2 DIRSIZ de.

(** readi(dp, (char* )&de, off, sizeof(de)) != sizeof(de) panics with [msg]. *)
Definition read_dirent (msg : string) (dp : nat) (off : Z) : F D (list Z) :=
  do '(r, de) <- readi dp off sizeof_dirent;
  if r =? sizeof_dirent then ret de else panic msg.

(** The loop of [dirlookup] from offset [off]: the inode and the offset. *)
Fixpoint dirlookup_loop (k : nat) (dp : nat) (name : list Z) (off : Z) : F D (option (nat * Z)) :=
  match k with
  | O => undef "dirlookup loop"
  | S k' =>
    do d <- inode_at dp;
    if off <? isize d then
      do de <- read_dirent "dirlookup read" dp off;
      do ino <- orUndef "de" (de_inum de);
      if ino =? 0 then dirlookup_loop k' dp name (u32 (off + sizeof_dirent)) else
      do nm <- orUndef "de" (de_name de);
      do c <- orUndef "namecmp" (namecmp name nm);
      if c =? 0 then
        do ip <- iget (idev d) ino;
        ret (Some (ip, off))
      else dirlookup_loop k' dp name (u32 (off + sizeof_dirent))
    else ret None
  end.

Definition dirlookup (dp : nat) (name : list Z) : F D (option (nat * Z)) :=
  do d <- inode_at dp;
  if negb (itype d =? T_DIR) then panic "dirlookup not DIR" else
  dirlookup_loop (Z.to_nat (isize d / sizeof_dirent) + 2) dp name 0.

(** for(off = 0; off < dp->size; off += sizeof(de)) ... if(de.inum == 0) break; *)
Fixpoint empty_dirent (k : nat) (dp : nat) (off : Z) : F D Z :=
  match k with
  | O => undef "dirlink loop"
  | S k' =>
    do d <- inode_at dp;
    if off <? isize d then
      do de <- read_dirent "dirlink read" dp off;
      do ino <- orUndef "de" (de_inum de);
      if ino =? 0 then ret off else empty_dirent k' dp (off + sizeof_dirent)
    else ret off
  end.

Definition dirlink (dp : nat) (name : list Z) (ino : Z) : F D Z :=
  do o <- dirlookup dp name;
  match o with
  | Some (ip, _) => iput ip;; ret (-1)
  | None =>
    do d <- inode_at dp;
    do off <- empty_dirent (Z.to_nat (isize d / sizeof_dirent) + 2) dp 0;
    do nm <- orUndef "strncpy" (strncpy (zeros DIRSIZ) name DIRSIZ);
    do r <- writei dp (le_bytes 2 ino ++ nm) off sizeof_dirent;
    if negb (r =? sizeof_dirent) then panic "dirlink" else ret 0
  end.

(** ** Paths *)

(** while( *path == '/') path++; *)
Fixpoint skip_slashes (path : list Z) : option (list Z) :=
  match path with
  | [] => None
  | c :: p => if c =? 47 then skip_slashes p else Some path
  end.
(** while( *path != '/' && *path != 0) path++; the element and what follows. *)
Fixpoint path_elem (path : list Z) : option (list Z * list Z) :=
  match path with
  | [] => None
  | c :: p =>
    if (c =? 47) || (c =? 0) then Some ([], path)
    else '(e, r) ← path_elem p; Some (c :: e, r)
  end.

(** [skipelem(path, name)]: the outer [None] is a read past the end of [path]
    or a store outside of [name], the inner one the null pointer. *)
Definition skipelem (path name : list Z) : option (option (list Z * list Z)) :=
  path ← skip_slashes path;
  c ← head path;
  if c =? 0 then Some None else
  '(e, rest) ← path_elem path;
  name ←
    (if decide (DIRSIZ <= length e)%nat then splice 0 (take DIRSIZ e) name
     else name ← splice 0 e name; splice (length e) [0] name);
  rest ← skip_slashes rest;
  Some (Some (rest, name)).

(** The loop of [namex]; the name buffer is part of the result. *)
Fixpoint namex_loop (k : nat) (ip : nat) (path : list Z) (par : bool) (name : list Z)
    : F D (option nat * list Z) :=
  match k with
  | O => undef "namex loop"
  | S k' =>
    do o <- orUndef "skipelem" (skipelem path name);
    match o with
    | None =>
      if par then iput ip;; ret (None, name) else ret (Some ip, name)
    | Some (path, name) =>
      ilock (Some ip);;
      do d <- inode_at ip;
      if negb (itype d =? T_DIR) then iunlockput ip;; ret (None, name) else
      do c <- orUndef "path" (head path);
      if par && (c =? 0) then iunlock (Some ip);; ret (Some ip, name) else
      do o <- dirlookup ip name;
      match o with
      | None => iunlockput ip;; ret (None, name)
      | Some (next, _) => iunlockput ip;; namex_loop k' next path par name
      end
    end
  end.

Definition namex (path : list Z) (par : bool) (name : list Z) : F D (option nat * list Z) :=
  do c <- orUndef "path" (head path);
  do ip <- (if c =? 47 then iget ROOTDEV ROOTINO else do me <- gets cur; idup (c_cwd me));
  namex_loop (S (length path)) ip path par name.

Definition namei (path : list Z) : F D (option nat) :=
  do '(ip, _) <- namex path false (zeros DIRSIZ);
  ret ip.

Definition nameiparent (path name : list Z) : F D (option nat * list Z) := namex path true name.
End Fs.
