(* ===== verification/File.v ===== *)
(** * Open files and pipes: file.c and pipe.c

    The two files call each other: closing a file closes its pipe, and making a
    pipe allocates and, on failure, closes files.  A pipe is in the page
    [kalloc] returned; [pipes] is keyed by that address. *)
From S2P Require Import Prelude Bytes Cstring Spinlock ProcDefs Memory Kalloc FsDefs Bio Log Fs.
Local Open Scope Z_scope.
Local Open Scope kernel_scope.

Section File.
Context (kend : Z) {D : Type} `{!Driver D, !Devices D}.

(** A call into kalloc.c. *)
Definition on_pages {A} (m : M kmem kaddr A) : F D A :=
  zoom pages (fun t s => s <| pages := t |>) (fun r => r) m.

Definition file_at (f : nat) : F D file :=
  do o <- gets (fun s => files s !! f); derefM "file" o.
Definition upd_file (f : nat) (g : file -> file) : F D unit :=
  do _ <- file_at f; modify (fun s => s <| files ::= alter g f |>).
Definition pipe_at (p : Z) : F D pipe :=
  do o <- gets (fun s => pipes s !! p); derefM "pipe" o.
Definition upd_pipe (p : Z) (g : pipe -> pipe) : F D unit :=
  do _ <- pipe_at p; modify (fun s => s <| pipes ::= alter g p |>).

(** acquire(&p->lock), release(&p->lock) *)
Definition pipe_acquire (p : Z) : F D unit :=
  do r <- pipe_at p;
  if p_lock r then panic "acquire" else upd_pipe p (fun r => r <| p_lock := true |>).
Definition pipe_release (p : Z) : F D unit :=
  do r <- pipe_at p;
  if p_lock r then upd_pipe p (fun r => r <| p_lock := false |>) else panic "release".

(** &p->nread and &p->nwrite, as sleep channels. *)
Definition chan_nread (p : Z) : kaddr := APipeRead (Z.to_nat p).
Definition chan_nwrite (p : Z) : kaddr := APipeWrite (Z.to_nat p).

(** ** file.c: the table *)

Definition fileinit : F D unit := modify (fun s => s <| ft_lock := false |>).

Definition filealloc : F D (option nat) :=
  ftable_acquire;;
  do l <- gets files;
  match list_find (fun f => f_ref f = 0) l with
  | Some (i, _) =>
    upd_file i (fun f => f <| f_ref := 1 |>);;
    ftable_release;;
    ret (Some i)
  | None => ftable_release;; ret None
  end.

(** The count is an int; a wrap-around would take 2^31 references, and is not modelled. *)
Definition filedup (i : nat) : F D nat :=
  ftable_acquire;;
  do f <- file_at i;
  if f_ref f <? 1 then panic "filedup" else
  upd_file i (fun f => f <| f_ref ::= fun n => n + 1 |>);;
  ftable_release;;
  ret i.

(** ** pipe.c *)

Definition pipeclose (p writable : Z) : F D unit :=
  pipe_acquire p;;
  (if c_true writable then
     upd_pipe p (fun r => r <| p_writeopen := 0 |>);; wakeup (chan_nread p)
   else
     upd_pipe p (fun r => r <| p_readopen := 0 |>);; wakeup (chan_nwrite p));;
  do r <- pipe_at p;
  if (p_readopen r =? 0) && (p_writeopen r =? 0) then
    pipe_release p;;
    modify (fun s => s <| pipes ::= delete p |>);;
    on_pages (kfree kend p)
  else pipe_release p.

(** The loop of [pipewrite] with the bytes [addr] still to write: [inl r] is
    [return r], [inr rest] a sleep with [rest] left. *)
Fixpoint pipewrite_loop (p : Z) (addr : list Z) (n : Z) : F D (Z + list Z) :=
  match addr with
  | [] =>
    wakeup (chan_nread p);;
    pipe_release p;;
    ret (inl n)
  | c :: rest =>
    do r <- pipe_at p;
    if p_nwrite r =? u32 (p_nread r + PIPESIZE) then
      do me <- gets cur;
      if (p_readopen r =? 0) || c_true (c_killed me) then pipe_release p;; ret (inl (-1))
      else wakeup (chan_nread p);; pipe_release p;; ret (inr addr)
    else
      upd_pipe p (fun r => r <| p_data ::= <[Z.to_nat (p_nwrite r mod PIPESIZE) := c]> |>);;
      upd_pipe p (fun r => r <| p_nwrite ::= fun n => u32 (n + 1) |>);;
      pipewrite_loop p rest n
  end.

(** From the [acquire], at the start or when [sleep] returns. *)
Definition pipewrite_pass (p : Z) (addr : list Z) (n : Z) : F D (Z + list Z) :=
  pipe_acquire p;;
  pipewrite_loop p addr n.

Definition pipewrite (p : Z) (addr : list Z) (n : Z) : F D Z :=
  do l <- orUndef "addr" (sub 0 (Z.to_nat n) addr);
  do r <- pipewrite_pass p l n;
  match r with inl v => ret v | inr _ => stop (chan_nwrite p) end.

(** for(i = 0; i < n; i++) ... with [k] rounds left: the bytes stored. *)
Fixpoint piperead_loop (k : nat) (p : Z) : F D (list Z) :=
  match k with
  | O => ret []
  | S k' =>
    do r <- pipe_at p;
    if p_nread r =? p_nwrite r then ret [] else
    do c <- orUndef "p->data" (p_data r !! Z.to_nat (p_nread r mod PIPESIZE));
    upd_pipe p (fun r => r <| p_nread ::= fun n => u32 (n + 1) |>);;
    do l <- piperead_loop k' p;
    ret (c :: l)
  end.

Definition piperead (p n : Z) : F D (Z * list Z) :=
  pipe_acquire p;;
  do r <- pipe_at p;
  if (p_nread r =? p_nwrite r) && c_true (p_writeopen r) then
    do me <- gets cur;
    if c_true (c_killed me) then pipe_release p;; ret (-1, [])
    else pipe_release p;; stop (chan_nread p)
  else
    do l <- piperead_loop (Z.to_nat n) p;
    wakeup (chan_nwrite p);;
    pipe_release p;;
    ret (Z.of_nat (length l), l).

(** ** file.c: operations on a file *)

Definition fileclose (i : nat) : F D unit :=
  ftable_acquire;;
  do f <- file_at i;
  if f_ref f <? 1 then panic "fileclose" else
  upd_file i (fun f => f <| f_ref ::= fun n => n - 1 |>);;
  do ff <- file_at i;
  if 0 <? f_ref ff then ftable_release else
  upd_file i (fun f => f <| f_ref := 0 |>);;
  upd_file i (fun f => f <| f_type := FD_NONE |>);;
  ftable_release;;
  match f_type ff with
  | FD_PIPE => pipeclose (f_pipe ff) (f_writable ff)
  | FD_INODE => begin_op;; iput (f_ip ff);; end_op
  | FD_NONE => ret tt
  end.

(** The result, and the [struct stat] stored when it is 0. *)
Definition filestat (i : nat) : F D (Z * option stat) :=
  do f <- file_at i;
  match f_type f with
  | FD_INODE =>
    ilock (Some (f_ip f));;
    do x <- stati (f_ip f);
    iunlock (Some (f_ip f));;
    ret (0, Some x)
  | _ => ret (-1, None)
  end.

Definition fileread (i : nat) (n : Z) : F D (Z * list Z) :=
  do f <- file_at i;
  if f_readable f =? 0 then ret (-1, []) else
  match f_type f with
  | FD_PIPE => piperead (f_pipe f) n
  | FD_INODE =>
    ilock (Some (f_ip f));;
    do '(r, d) <- readi (f_ip f) (f_off f) (u32 n);
    whenM (0 <? r) (upd_file i (fun f => f <| f_off ::= fun o => u32 (o + r) |>));;
    iunlock (Some (f_ip f));;
    ret (r, d)
  | FD_NONE => panic "fileread"
  end.

(** ((MAXOPBLOCKS-1-1-2) / 2) * 512 *)
Definition filewrite_max : Z := ((MAXOPBLOCKS - 1 - 1 - 2) / 2) * 512.

(** while(i < n) ...: the value of [i] when the loop ends or breaks. *)
Fixpoint filewrite_loop (k : nat) (fd : nat) (addr : list Z) (n i : Z) : F D Z :=
  match k with
  | O => undef "filewrite loop"
  | S k' =>
    if i <? n then
      let n1 := if filewrite_max <? n - i then filewrite_max else n - i in
      begin_op;;
      do f <- file_at fd;
      ilock (Some (f_ip f));;
      do f <- file_at fd;
      do r <- writei (f_ip f) (drop (Z.to_nat i) addr) (f_off f) (u32 n1);
      whenM (0 <? r) (upd_file fd (fun f => f <| f_off ::= fun o => u32 (o + r) |>));;
      iunlock (Some (f_ip f));;
      end_op;;
      if r <? 0 then ret i else
      if negb (r =? n1) then panic "short filewrite" else
      filewrite_loop k' fd addr n (i + r)
    else ret i
  end.

Definition filewrite (fd : nat) (addr : list Z) (n : Z) : F D Z :=
  do f <- file_at fd;
  if f_writable f =? 0 then ret (-1) else
  match f_type f with
  | FD_PIPE => pipewrite (f_pipe f) addr n
  | FD_INODE =>
    do i <- filewrite_loop (Z.to_nat (n / filewrite_max) + 2) fd addr n 0;
    ret (if i =? n then n else -1)
  | FD_NONE => panic "filewrite"
  end.

(** ** pipealloc *)

(** sizeof(struct spinlock): the offset of [data] in a [struct pipe]. *)
Definition pipe_data_off : Z := 52.
Definition page_pipe (m : mem) (p : Z) : pipe :=
  Pipe false ((fun k => m (p + pipe_data_off + Z.of_nat k)) <$> seq 0 (Z.to_nat PIPESIZE)) 0 0 1 1.

(** if(o) fileclose(o); *)
Definition close_if (o : option nat) : F D unit :=
  match o with Some f => fileclose f | None => ret tt end.

(** The result and [*f0], [*f1].  Before [bad] the page is either not
    allocated or in use, so [bad] has no page to free. *)
Definition pipealloc : F D (Z * option nat * option nat) :=
  do f0 <- filealloc;
  match f0 with
  | None => close_if None;; close_if None;; ret (-1, None, None)
  | Some a =>
    do f1 <- filealloc;
    match f1 with
    | None => close_if (Some a);; close_if None;; ret (-1, Some a, None)
    | Some b =>
      do p <- on_pages kalloc;
      if p =? 0 then close_if (Some a);; close_if (Some b);; ret (-1, Some a, Some b) else
      modify (fun s => s <| pipes ::= <[p := page_pipe (kram (pages s)) p]> |>);;
      upd_file a (fun f => f <| f_type := FD_PIPE |> <| f_readable := 1 |> <| f_writable := 0 |> <| f_pipe := p |>);;
      upd_file b (fun f => f <| f_type := FD_PIPE |> <| f_readable := 0 |> <| f_writable := 1 |> <| f_pipe := p |>);;
      ret (0, Some a, Some b)
    end
  end.
End File.
