(* ===== verification/Sysfile.v ===== *)
(** * System calls on files: the argument checks of syscall.c, and sysfile.c

    The calls run for the process in [cur]: its user memory, its size [sz], its
    stack pointer and its open files.  A user pointer is an address; a string
    argument is the bytes from that address to the end of the process. *)
From S2P Require Import Prelude Bytes Cstring Spinlock ProcDefs Memory Kalloc FsDefs Bio Log Fs File.
Local Open Scope Z_scope.
Local Open Scope kernel_scope.

Definition O_RDONLY : Z := 0.
Definition O_WRONLY : Z := 1.
Definition O_RDWR : Z := 2.
Definition O_CREATE : Z := 0x200.
Definition MAXARG : nat := 32.

(** The bytes [l] stored from address [a] on. *)
Fixpoint store_bytes (m : mem) (a : Z) (l : list Z) : mem :=
  match l with [] => m | b :: l' => store_bytes (store m a b) (a + 1) l' end.

(** The first zero byte at or after [a], within [n] bytes. *)
Fixpoint find_nul (m : mem) (a : Z) (n : nat) : option Z :=
  match n with
  | O => None
  | S n' => if m a =? 0 then Some a else find_nul m (a + 1) n'
  end.

(** The bytes from address [a] to the end of the process. *)
Definition ustring (me : curproc) (a : Z) : list Z :=
  (fun k => c_mem me (a + Z.of_nat k)) <$> seq 0 (Z.to_nat (c_sz me - a)).

(** [struct stat] in memory: type, padding, dev, ino, nlink, padding, size. *)
Definition stat_stores (m : mem) (p : Z) (x : stat) : mem :=
  store_bytes (store_bytes (store_bytes (store_bytes (store_bytes m p (le_bytes 2 (st_type x)))
    (p + 4) (le_bytes 4 (st_dev x))) (p + 8) (le_bytes 4 (st_ino x)))
    (p + 12) (le_bytes 2 (st_nlink x))) (p + 16) (le_bytes 4 (st_size x)).
Definition sizeof_stat : Z := 20.

Section Sysfile.
Context (kend : Z) {D : Type} `{!Driver D, !Devices D}.

(** ** syscall.c: fetching arguments; [None] is the return value -1 *)

Definition fetchint (addr : Z) : F D (option Z) :=
  do me <- gets cur;
  if (c_sz me <=? addr) || (c_sz me <? u32 (addr + 4)) then ret None
  else ret (Some (s32 (load32 (c_mem me) addr))).

(** The length of the string at [addr]; the pointer stored is [addr] itself. *)
Definition fetchstr (addr : Z) : F D (option Z) :=
  do me <- gets cur;
  if c_sz me <=? addr then ret None else
  match find_nul (c_mem me) addr (Z.to_nat (c_sz me - addr)) with
  | Some s => ret (Some (s - addr))
  | None => ret None
  end.

Definition argint (n : Z) : F D (option Z) :=
  do me <- gets cur;
  fetchint (u32 (c_esp me + 4 + 4 * n)).

Definition argptr (n size : Z) : F D (option Z) :=
  do me <- gets cur;
  do o <- argint n;
  match o with
  | None => ret None
  | Some i =>
    if (size <? 0) || (c_sz me <=? u32 i) || (c_sz me <? u32 (u32 i + size)) then ret None
    else ret (Some (u32 i))
  end.

(** The string's address. *)
Definition argstr (n : Z) : F D (option Z) :=
  do o <- argint n;
  match o with
  | None => ret None
  | Some a =>
    do r <- fetchstr (u32 a);
    match r with Some _ => ret (Some (u32 a)) | None => ret None end
  end.

Definition get_str (a : Z) : F D (list Z) := do me <- gets cur; ret (ustring me a).

(** ** sysfile.c *)

Definition argfd (n : Z) : F D (option (Z * nat)) :=
  do o <- argint n;
  match o with
  | None => ret None
  | Some fd =>
    do me <- gets cur;
    if (fd <? 0) || (Z.of_nat NOFILE <=? fd) then ret None else
    match c_ofile me !! Z.to_nat fd with
    | Some (Some f) => ret (Some (fd, f))
    | _ => ret None
    end
  end.

Definition set_ofile (fd : nat) (o : option nat) : F D unit :=
  modify (fun s => s <| cur ::= fun me => me <| c_ofile ::= <[fd := o]> |> |>).

Definition fdalloc (f : nat) : F D (option nat) :=
  do me <- gets cur;
  match list_find (fun o => o = None) (c_ofile me) with
  | Some (fd, _) => set_ofile fd (Some f);; ret (Some fd)
  | None => ret None
  end.

Definition sys_dup : F D Z :=
  do o <- argfd 0;
  match o with
  | None => ret (-1)
  | Some (_, f) =>
    do r <- fdalloc f;
    match r with
    | None => ret (-1)
    | Some fd => filedup f;; ret (Z.of_nat fd)
    end
  end.

Definition store_user (p : Z) (l : list Z) : F D unit :=
  modify (fun s => s <| cur ::= fun me => me <| c_mem ::= fun m => store_bytes m p l |> |>).

Definition sys_read : F D Z :=
  do o <- argfd 0;
  match o with
  | None => ret (-1)
  | Some (_, f) =>
    do n <- argint 2;
    match n with
    | None => ret (-1)
    | Some n =>
      do p <- argptr 1 n;
      match p with
      | None => ret (-1)
      | Some p =>
        do '(r, l) <- fileread f n;
        store_user p l;;
        ret r
      end
    end
  end.

Definition sys_write : F D Z :=
  do o <- argfd 0;
  match o with
  | None => ret (-1)
  | Some (_, f) =>
    do n <- argint 2;
    match n with
    | None => ret (-1)
    | Some n =>
      do p <- argptr 1 n;
      match p with
      | None => ret (-1)
      | Some p =>
        do me <- gets cur;
        filewrite f ((fun k => c_mem me (p + Z.of_nat k)) <$> seq 0 (Z.to_nat n)) n
      end
    end
  end.

Definition sys_close : F D Z :=
  do o <- argfd 0;
  match o with
  | None => ret (-1)
  | Some (fd, f) =>
    set_ofile (Z.to_nat fd) None;;
    fileclose kend f;;
    ret 0
  end.

Definition sys_fstat : F D Z :=
  do o <- argfd 0;
  match o with
  | None => ret (-1)
  | Some (_, f) =>
    do p <- argptr 1 sizeof_stat;
    match p with
    | None => ret (-1)
    | Some p =>
      do '(r, x) <- filestat f;
      match x with
      | Some x => modify (fun s => s <| cur ::= fun me => me <| c_mem ::= fun m => stat_stores m p x |> |>)
      | None => ret tt
      end;;
      ret r
    end
  end.

(** bad: of [sys_link] *)
Definition link_bad (ip : nat) : F D Z :=
  ilock (Some ip);;
  upd_inode ip (fun x => x <| inlink ::= fun n => s16 (n - 1) |>);;
  iupdate ip;;
  iunlockput ip;;
  end_op;;
  ret (-1).

Definition sys_link : F D Z :=
  do o <- argstr 0;
  match o with
  | None => ret (-1)
  | Some old =>
    do o <- argstr 1;
    match o with
    | None => ret (-1)
    | Some new =>
      begin_op;;
      do pold <- get_str old;
      do r <- namei pold;
      match r with
      | None => end_op;; ret (-1)
      | Some ip =>
        ilock (Some ip);;
        do x <- inode_at ip;
        if itype x =? T_DIR then iunlockput ip;; end_op;; ret (-1) else
        upd_inode ip (fun x => x <| inlink ::= fun n => s16 (n + 1) |>);;
        iupdate ip;;
        iunlock (Some ip);;
        do pnew <- get_str new;
        do '(r, name) <- nameiparent pnew (zeros DIRSIZ);
        match r with
        | None => link_bad ip
        | Some dp =>
          ilock (Some dp);;
          do d <- inode_at dp;
          do x <- inode_at ip;
          do ok <- (if negb (idev d =? idev x) then ret false
                    else do r <- dirlink dp name (inum x); ret (negb (r <? 0)));
          if negb ok then iunlockput dp;; link_bad ip else
          iunlockput dp;;
          iput ip;;
          end_op;;
          ret 0
        end
      end
    end
  end.

(** for(off=2*sizeof(de); off<dp->size; off+=sizeof(de)) from [off] *)
Fixpoint isdirempty_loop (k : nat) (dp : nat) (off : Z) : F D bool :=
  match k with
  | O => undef "isdirempty loop"
  | S k' =>
    do d <- inode_at dp;
    if off <? isize d then
      do de <- read_dirent "isdirempty: readi" dp off;
      do ino <- orUndef "de" (de_inum de);
      if negb (ino =? 0) then ret false else isdirempty_loop k' dp (off + sizeof_dirent)
    else ret true
  end.

Definition isdirempty (dp : nat) : F D bool :=
  do d <- inode_at dp;
  isdirempty_loop (Z.to_nat (isize d / sizeof_dirent) + 2) dp (2 * sizeof_dirent).

(** The strings . and .. *)
Definition dot : list Z := [46; 0].
Definition dotdot : list Z := [46; 46; 0].

(** bad: of [sys_unlink] *)
Definition unlink_bad (dp : nat) : F D Z := iunlockput dp;; end_op;; ret (-1).

Definition sys_unlink : F D Z :=
  do o <- argstr 0;
  match o with
  | None => ret (-1)
  | Some path =>
    begin_op;;
    do p <- get_str path;
    do '(r, name) <- nameiparent p (zeros DIRSIZ);
    match r with
    | None => end_op;; ret (-1)
    | Some dp =>
      ilock (Some dp);;
      do c1 <- orUndef "namecmp" (namecmp name dot);
      do c2 <- (if c1 =? 0 then ret 0 else orUndef "namecmp" (namecmp name dotdot));
      if c2 =? 0 then unlink_bad dp else
      do o <- dirlookup dp name;
      match o with
      | None => unlink_bad dp
      | Some (ip, off) =>
        ilock (Some ip);;
        do x <- inode_at ip;
        if inlink x <? 1 then panic "unlink: nlink < 1" else
        do full <- (if itype x =? T_DIR then do e <- isdirempty ip; ret (negb e) else ret false);
        if full then iunlockput ip;; unlink_bad dp else
        do r <- writei dp (zeros (Z.to_nat sizeof_dirent)) off sizeof_dirent;
        if negb (r =? sizeof_dirent) then panic "unlink: writei" else
        do x <- inode_at ip;
        whenM (itype x =? T_DIR)
          (upd_inode dp (fun d => d <| inlink ::= fun n => s16 (n - 1) |>);; iupdate dp);;
        iunlockput dp;;
        upd_inode ip (fun x => x <| inlink ::= fun n => s16 (n - 1) |>);;
        iupdate ip;;
        iunlockput ip;;
        end_op;;
        ret 0
      end
    end
  end.

Definition create (path : list Z) (type major minor : Z) : F D (option nat) :=
  do '(r, name) <- nameiparent path (zeros DIRSIZ);
  match r with
  | None => ret None
  | Some dp =>
    ilock (Some dp);;
    do o <- dirlookup dp name;
    match o with
    | Some (ip, _) =>
      iunlockput dp;;
      ilock (Some ip);;
      do x <- inode_at ip;
      if (type =? T_FILE) && (itype x =? T_FILE) then ret (Some ip)
      else iunlockput ip;; ret None
    | None =>
      do d <- inode_at dp;
      do ip <- ialloc (idev d) type;
      ilock (Some ip);;
      upd_inode ip (fun x => x <| imajor := major |>);;
      upd_inode ip (fun x => x <| iminor := minor |>);;
      upd_inode ip (fun x => x <| inlink := 1 |>);;
      iupdate ip;;
      whenM (type =? T_DIR)
        (upd_inode dp (fun d => d <| inlink ::= fun n => s16 (n + 1) |>);;
         iupdate dp;;
         do x <- inode_at ip;
         do r1 <- dirlink ip dot (inum x);
         if r1 <? 0 then panic "create dots" else
         do d <- inode_at dp;
         do r2 <- dirlink ip dotdot (inum d);
         if r2 <? 0 then panic "create dots" else ret tt);;
      do x <- inode_at ip;
      do r <- dirlink dp name (inum x);
      if r <? 0 then panic "create: dirlink" else
      iunlockput dp;;
      ret (Some ip)
    end
  end.

(** The inode [sys_open] opens, locked; [None] is a failure. *)
Definition open_inode (path : Z) (omode : Z) : F D (option nat) :=
  do p <- get_str path;
  if c_true (Z.land omode O_CREATE) then create p T_FILE 0 0
  else
    do r <- namei p;
    match r with
    | None => ret None
    | Some ip =>
      ilock (Some ip);;
      do x <- inode_at ip;
      if (itype x =? T_DIR) && negb (omode =? O_RDONLY) then iunlockput ip;; ret None
      else ret (Some ip)
    end.

Definition sys_open : F D Z :=
  do o <- argstr 0;
  match o with
  | None => ret (-1)
  | Some path =>
    do o <- argint 1;
    match o with
    | None => ret (-1)
    | Some omode =>
      begin_op;;
      do r <- open_inode path omode;
      match r with
      | None => end_op;; ret (-1)
      | Some ip =>
        do f <- filealloc;
        do fd <- (match f with None => ret None | Some f => fdalloc f end);
        match f, fd with
        | Some f, Some fd =>
          iunlock (Some ip);;
          end_op;;
          upd_file f (fun x => x <| f_type := FD_INODE |> <| f_ip := ip |> <| f_off := 0 |>
            <| f_readable := if c_true (Z.land omode O_WRONLY) then 0 else 1 |>
            <| f_writable := if c_true (Z.land omode O_WRONLY) || c_true (Z.land omode O_RDWR) then 1 else 0 |>);;
          ret (Z.of_nat fd)
        | _, _ =>
          close_if kend f;;
          iunlockput ip;;
          end_op;;
          ret (-1)
        end
      end
    end
  end.

Definition sys_mkdir : F D Z :=
  begin_op;;
  do o <- argstr 0;
  do r <- (match o with None => ret None | Some path => do p <- get_str path; create p T_DIR 0 0 end);
  match r with
  | None => end_op;; ret (-1)
  | Some ip => iunlockput ip;; end_op;; ret 0
  end.

Definition sys_mknod : F D Z :=
  begin_op;;
  do o <- argstr 0;
  do r <- (match o with
           | None => ret None
           | Some path =>
             do o1 <- argint 1;
             match o1 with
             | None => ret None
             | Some major =>
               do o2 <- argint 2;
               match o2 with
               | None => ret None
               | Some minor => do p <- get_str path; create p T_DEV (s16 major) (s16 minor)
               end
             end
           end);
  match r with
  | None => end_op;; ret (-1)
  | Some ip => iunlockput ip;; end_op;; ret 0
  end.

Definition sys_chdir : F D Z :=
  begin_op;;
  do o <- argstr 0;
  do r <- (match o with None => ret None | Some path => do p <- get_str path; namei p end);
  match r with
  | None => end_op;; ret (-1)
  | Some ip =>
    ilock (Some ip);;
    do x <- inode_at ip;
    if negb (itype x =? T_DIR) then iunlockput ip;; end_op;; ret (-1) else
    iunlock (Some ip);;
    do me <- gets cur;
    iput (c_cwd me);;
    end_op;;
    modify (fun s => s <| cur ::= fun me => me <| c_cwd := ip |> |>);;
    ret 0
  end.

(** The loop of [sys_exec] that fetches argv: the addresses of the strings. *)
Fixpoint fetch_argv (k : nat) (uargv : Z) (i : Z) : F D (option (list Z)) :=
  match k with
  | O => ret None
  | S k' =>
    do o <- fetchint (u32 (uargv + 4 * i));
    match o with
    | None => ret None
    | Some uarg =>
      if uarg =? 0 then ret (Some []) else
      do r <- fetchstr (u32 uarg);
      match r with
      | None => ret None
      | Some _ =>
        do l <- fetch_argv k' uargv (i + 1);
        ret (cons (u32 uarg) <$> l)
      end
    end
  end.

(** [sys_exec] up to the call exec(path, argv): its arguments, or -1. *)
Definition exec_args : F D (option (Z * list Z)) :=
  do o <- argstr 0;
  match o with
  | None => ret None
  | Some path =>
    do o <- argint 1;
    match o with
    | None => ret None
    | Some uargv =>
      do l <- fetch_argv MAXARG (u32 uargv) 0;
      ret (pair path <$> l)
    end
  end.

Definition sys_pipe : F D Z :=
  do o <- argptr 0 8;
  match o with
  | None => ret (-1)
  | Some fd =>
    do '(r, rf, wf) <- pipealloc kend;
    match r <? 0, rf, wf with
    | false, Some rf, Some wf =>
      do fd0 <- fdalloc rf;
      do fd1 <- (match fd0 with None => ret None | Some _ => fdalloc wf end);
      match fd0, fd1 with
      | Some fd0, Some fd1 =>
        store_user fd (le_bytes 4 (Z.of_nat fd0));;
        store_user (fd + 4) (le_bytes 4 (Z.of_nat fd1));;
        ret 0
      | _, _ =>
        match fd0 with Some k => set_ofile k None | None => ret tt end;;
        fileclose kend rf;;
        fileclose kend wf;;
        ret (-1)
      end
    | _, _, _ => ret (-1)
    end
  end.
End Sysfile.
