(* ===== verification/Ring.v ===== *)
(** * Ring buffers with wrapping counters

    pipe.c and console.c keep bytes in an array of [N] and count reads and writes
    with [uint]s that wrap around; the byte a counter [c] names is at [c % N].
    [ring] is the list of the bytes between two counters. *)
From S2P Require Import Prelude.
Local Open Scope Z_scope.

(** ** Differences of unsigned counters *)

Lemma u32_u32_add a b : u32 (u32 a + b) = u32 (a + b).
Proof. unfold u32. by rewrite Z.add_mod_idemp_l. Qed.

Lemma u32_u32_sub a b : u32 (u32 a - b) = u32 (a - b).
Proof. unfold u32. by rewrite Zminus_mod_idemp_l. Qed.

Lemma u32_sub_u32 a b : u32 (a - u32 b) = u32 (a - b).
Proof. unfold u32. by rewrite Zminus_mod_idemp_r. Qed.

Lemma u32_minus a b :
  0 <= a < 2 ^ 32 -> 0 <= b < 2 ^ 32 -> u32 (a - b) = if b <=? a then a - b else a - b + 2 ^ 32.
Proof.
  intros Ha Hb. unfold u32. destruct (Z.leb_spec b a).
  - apply Z.mod_small. lia.
  - rewrite <-(Z.mod_add _ 1) by lia. rewrite Z.mod_small; lia.
Qed.

Lemma u32_plus a b :
  0 <= a < 2 ^ 32 -> 0 <= b < 2 ^ 32 -> u32 (a + b) = if a + b <? 2 ^ 32 then a + b else a + b - 2 ^ 32.
Proof.
  intros Ha Hb. unfold u32. destruct (Z.ltb_spec (a + b) (2 ^ 32)).
  - apply Z.mod_small. lia.
  - rewrite <-(Z.mod_add _ (-1)) by lia. rewrite Z.mod_small; lia.
Qed.

Definition is_u32 (z : Z) : Prop := 0 <= z < 2 ^ 32.

(** How far counter [w] is ahead of counter [r]. *)
Definition ahead (r w : Z) : nat := Z.to_nat (u32 (w - r)).

Lemma ahead_zero r w : is_u32 r -> is_u32 w -> ahead r w = O <-> r = w.
Proof. unfold is_u32. intros. unfold ahead. rewrite u32_minus by done. destruct (Z.leb_spec r w); lia. Qed.

(** One more write, one more read, one write undone. *)
Lemma ahead_succ r w : Z.of_nat (ahead r w) < 2 ^ 32 - 1 -> ahead r (u32 (w + 1)) = S (ahead r w).
Proof.
  unfold ahead. rewrite u32_u32_sub. replace (w + 1 - r) with (w - r + 1) by lia.
  pose proof (u32_range (w - r)). intros. rewrite <- u32_u32_add, (u32_small (u32 _ + 1)) by lia. lia.
Qed.
Lemma ahead_pop r w : (0 < ahead r w)%nat -> S (ahead (u32 (r + 1)) w) = ahead r w.
Proof.
  unfold ahead. rewrite u32_sub_u32. replace (w - (r + 1)) with (w - r - 1) by lia.
  pose proof (u32_range (w - r)). intros. rewrite <- u32_u32_sub, (u32_small (u32 _ - 1)) by lia. lia.
Qed.
Lemma ahead_pred r w : (0 < ahead r w)%nat -> S (ahead r (u32 (w - 1))) = ahead r w.
Proof.
  unfold ahead. rewrite u32_u32_sub. replace (w - 1 - r) with (w - r - 1) by lia.
  pose proof (u32_range (w - r)). intros. rewrite <- u32_u32_sub, (u32_small (u32 _ - 1)) by lia. lia.
Qed.

(** w == r + n, as the code tests it. *)
Lemma ahead_full r w n :
  is_u32 r -> is_u32 w -> 0 <= n < 2 ^ 32 -> (w =? u32 (r + n)) = (ahead r w =? Z.to_nat n)%nat.
Proof.
  unfold is_u32. intros Hr Hw Hn. unfold ahead. rewrite u32_minus, u32_plus by done.
  destruct (Z.leb_spec r w), (Z.ltb_spec (r + n) (2 ^ 32));
    repeat match goal with |- context [(?a =? ?b)%Z] => destruct (Z.eqb_spec a b)
                       | |- context [(?a =? ?b)%nat] => destruct (Nat.eqb_spec a b) end; lia.
Qed.

(** ** The bytes between two counters *)
Section Ring.
Context (N : Z) (HN : 0 < N) (k : Z) (Hk : 2 ^ 32 = N * k).

Definition slot (c : Z) : nat := Z.to_nat (c mod N).
Definition ring (data : list Z) (r w : Z) : list Z :=
  (fun i => data !!! slot (r + Z.of_nat i)) <$> seq 0 (ahead r w).

Lemma slot_lt c : (slot c < Z.to_nat N)%nat.
Proof. unfold slot. pose proof (Z.mod_pos_bound c N HN). lia. Qed.

(** 2^32 is a multiple of the ring's size: a wrapped counter is in the same slot. *)
Lemma slot_u32 c i : slot (u32 c + i) = slot (c + i).
Proof.
  unfold slot, u32. f_equal. rewrite Hk. assert (k <> 0) by lia.
  rewrite <-(Z.add_mod_idemp_l (c mod _)), Z.rem_mul_r, (Z.mul_comm N), Z.mod_add, Z.mod_mod, Z.add_mod_idemp_l by lia. done.
Qed.

Lemma slot_inj c i j :
  (i < Z.to_nat N)%nat -> (j < Z.to_nat N)%nat -> slot (c + Z.of_nat i) = slot (c + Z.of_nat j) -> i = j.
Proof.
  unfold slot. intros Hi Hj H.
  pose proof (Z.mod_pos_bound (c + Z.of_nat i) N HN). pose proof (Z.mod_pos_bound (c + Z.of_nat j) N HN).
  assert (E : (c + Z.of_nat i) mod N = (c + Z.of_nat j) mod N) by lia.
  assert (D : (Z.of_nat i - Z.of_nat j) mod N = 0).
  { replace (Z.of_nat i - Z.of_nat j) with ((c + Z.of_nat i) - (c + Z.of_nat j)) by lia.
    rewrite Zminus_mod, E, Z.sub_diag. done. }
  apply Z.mod_divide in D as [q Hq]; [|lia]. assert (-1 < q < 1) by nia. lia.
Qed.

Lemma length_ring data r w : length (ring data r w) = ahead r w.
Proof. unfold ring. by rewrite length_fmap, length_seq. Qed.

Lemma ring_empty data r w : is_u32 r -> is_u32 w -> (r =? w) = bool_decide (ring data r w = []).
Proof.
  intros Hr Hw. pose proof (ahead_zero r w Hr Hw) as Hz. rewrite <- (length_ring data) in Hz.
  destruct (Z.eqb_spec r w) as [E|E].
  - rewrite bool_decide_true; [done|]. by apply length_zero_iff_nil, Hz.
  - rewrite bool_decide_false; [done|]. intros Hq. apply E, Hz. by rewrite Hq.
Qed.

(** The slot after the last byte is the one [w] names. *)
Lemma ahead_slot r w : slot (r + Z.of_nat (ahead r w)) = slot w.
Proof.
  unfold ahead. pose proof (u32_range (w - r)). rewrite Z2Nat.id by lia.
  rewrite Z.add_comm, slot_u32. f_equal. lia.
Qed.

Section Data.
Context (data : list Z) (Hd : length data = Z.to_nat N).

Lemma ring_write r w c :
  (ahead r w < Z.to_nat N)%nat -> Z.of_nat (ahead r w) < 2 ^ 32 - 1 ->
  ring (<[slot w := c]> data) r (u32 (w + 1)) = ring data r w ++ [c].
Proof.
  intros Hlt Hs. unfold ring. rewrite (ahead_succ r w Hs), seq_S, fmap_app. cbn [fmap list_fmap Nat.add]. f_equal.
  - apply list_fmap_ext. intros i j [-> Hj]%lookup_seq. cbn. rewrite list_lookup_total_insert_ne; [done|].
    rewrite <- (ahead_slot r w). intros E. apply slot_inj in E; lia.
  - f_equal. rewrite ahead_slot. apply list_lookup_total_insert_eq. rewrite Hd. apply slot_lt.
Qed.

(** A write elsewhere does not show. *)
Lemma ring_write_other r w e c :
  (ahead r w + ahead w e < Z.to_nat N)%nat -> ahead r e = (ahead r w + ahead w e)%nat ->
  ring (<[slot e := c]> data) r w = ring data r w.
Proof.
  intros Hlt He. apply list_fmap_ext. intros i j [-> Hj]%lookup_seq. cbn. rewrite list_lookup_total_insert_ne; [done|].
  rewrite <- (ahead_slot r e), He. intros E. apply slot_inj in E; lia.
Qed.

Lemma ring_read r w c q :
  ring data r w = c :: q -> ring data (u32 (r + 1)) w = q /\ data !! slot r = Some c.
Proof.
  intros Hq. assert (Hpos : (0 < ahead r w)%nat) by (rewrite <- (length_ring data), Hq; cbn; lia).
  pose proof (ahead_pop r w Hpos) as Hl. unfold ring in Hq. rewrite <- Hl in Hq. cbn [seq fmap list_fmap] in Hq.
  injection Hq as Hc Hq. rewrite Z.add_0_r in Hc. split.
  - rewrite <- Hq. unfold ring. rewrite <- (fmap_S_seq 0), <- list_fmap_compose. apply list_fmap_ext. intros i j _.
    cbn. rewrite slot_u32. do 2 f_equal. lia.
  - rewrite <- Hc. apply list_lookup_lookup_total_lt. rewrite Hd. apply slot_lt.
Qed.

Lemma ring_undo r w : (0 < ahead r w)%nat -> exists c, ring data r w = ring data r (u32 (w - 1)) ++ [c] /\ data !! slot (w - 1) = Some c.
Proof.
  intros Hpos. pose proof (ahead_pred r w Hpos) as Hl. exists (data !!! slot (w - 1)). split.
  - unfold ring. rewrite <- Hl, seq_S, fmap_app. cbn [fmap list_fmap Nat.add]. do 3 f_equal.
    rewrite ahead_slot. rewrite <- (Z.add_0_r (u32 _)), slot_u32. f_equal. lia.
  - apply list_lookup_lookup_total_lt. rewrite Hd. apply slot_lt.
Qed.

Lemma ring_app r w e : ahead r e = (ahead r w + ahead w e)%nat -> ring data r e = ring data r w ++ ring data w e.
Proof.
  intros He. unfold ring. rewrite He, seq_app, fmap_app. f_equal. rewrite Nat.add_0_l.
  rewrite <- (Nat.add_0_r (ahead r w)) at 1. rewrite <- fmap_add_seq, <- list_fmap_compose. apply list_fmap_ext.
  intros i j _. cbn. unfold ahead. pose proof (u32_range (w - r)).
  rewrite Nat2Z.inj_add, Z2Nat.id by lia. rewrite Z.add_assoc, (Z.add_comm r), <- Z.add_assoc, slot_u32. do 2 f_equal. lia.
Qed.
End Data.
End Ring.
