(* ===== verification/PipeSpec.v ===== *)
(** * Pipes are bounded FIFO queues

    A [struct pipe] is a ring of [PIPESIZE] bytes and two counters that wrap
    around at 2^32.  The abstract pipe is a queue of at most [PIPESIZE] bytes;
    [queue] is the abstraction function and [pipe_ok] the representation
    invariant.  The runs of [pipewrite] and [piperead], each from its [acquire]
    to its return or its [sleep], are given exactly in terms of the queue, and
    any interleaving of them is shown to deliver the bytes in order. *)
From S2P Require Import Prelude Bytes Cstring Spinlock ProcDefs Memory Kalloc FsDefs Bio Log Fs File Ring.
Local Open Scope Z_scope.
Local Open Scope kernel_scope.

(** ** The queue of a pipe *)

(** How many bytes are in the pipe: nwrite - nread on uints. *)
Definition pipe_len (r : pipe) : nat := ahead (p_nread r) (p_nwrite r).
Definition queue (r : pipe) : list Z := ring PIPESIZE (p_data r) (p_nread r) (p_nwrite r).

Record pipe_ok (r : pipe) : Prop := {
  pk_data : length (p_data r) = Z.to_nat PIPESIZE;
  pk_read : 0 <= p_nread r < 2 ^ 32;
  pk_write : 0 <= p_nwrite r < 2 ^ 32;
  pk_len : (pipe_len r <= Z.to_nat PIPESIZE)%nat
}.

(** ** The abstract pipe *)

Definition room (q : list Z) : nat := (Z.to_nat PIPESIZE - length q)%nat.

(** What a writer that has the bytes [l] left finds: it returns, or it goes to
    sleep with the rest. *)
Definition fifo_write (killed ropen : bool) (q l : list Z) (n : Z) : (Z + list Z) * bool :=
  match drop (room q) l with
  | [] => (inl n, true)
  | rest => if negb ropen || killed then (inl (-1), false) else (inr rest, true)
  end.

(** A turn of a user of the pipe: what it does with the lock, from the [acquire]
    to the return or the [sleep], as a thread with this [killed] flag. *)
Inductive pipe_op :=
| PWrite (killed : Z) (l : list Z) (n : Z)
| PRead (killed : Z) (n : Z)
| PClose (writable : Z).
Inductive turn_res :=
| Wrote (v : Z + list Z)
| Got (v : Z) (l : list Z)
| Slept
| Closed.

(** The bytes a turn delivered to its caller. *)
Definition delivered (t : turn_res) : list Z := match t with Got _ l => l | _ => [] end.

Record fifo := Fifo { q_bytes : list Z; q_ropen : bool; q_wopen : bool }.

(** A turn on the abstract pipe: its result, the bytes it put in the queue, and
    the pipe after it; [None] when it closes the second end, which frees the pipe. *)
Definition fifo_step (o : pipe_op) (a : fifo) : option (turn_res * list Z * fifo) :=
  let '(Fifo q ro wo) := a in
  match o with
  | PWrite k l n =>
    Some (Wrote (fifo_write (c_true k) ro q l n).1, take (room q) l, Fifo (q ++ take (room q) l) ro wo)
  | PRead k n =>
    if bool_decide (q = []) && wo then
      Some (if c_true k then Got (-1) [] else Slept, [], a)
    else
      let d := take (Z.to_nat n) q in
      Some (Got (Z.of_nat (length d)) d, [], Fifo (drop (Z.to_nat n) q) ro wo)
  | PClose w =>
    if c_true w then (if ro then Some (Closed, [], Fifo q ro false) else None)
    else (if wo then Some (Closed, [], Fifo q false wo) else None)
  end.

Fixpoint fifo_run (ops : list pipe_op) (a : fifo) : option (list turn_res * list Z * fifo) :=
  match ops with
  | [] => Some ([], [], a)
  | o :: ops' =>
    '(t, i, a1) ← fifo_step o a;
    '(ts, is', a2) ← fifo_run ops' a1;
    Some (t :: ts, i ++ is', a2)
  end.

(** ** Counters *)

Lemma pipe_size : 0 < PIPESIZE /\ 2 ^ 32 = PIPESIZE * 2 ^ 23.
Proof. done. Qed.

Lemma length_queue r : length (queue r) = pipe_len r.
Proof. apply length_ring. Qed.

(** nread == nwrite: the queue is empty. *)
Lemma empty_test r : pipe_ok r -> (p_nread r =? p_nwrite r) = bool_decide (queue r = []).
Proof. intros [_ Hr Hw _]. by apply ring_empty. Qed.

(** nwrite == nread + PIPESIZE: the queue is full. *)
Lemma full_test r :
  pipe_ok r -> (p_nwrite r =? u32 (p_nread r + PIPESIZE)) = (room (queue r) =? 0)%nat.
Proof.
  intros [_ Hr Hw Hl]. unfold room. rewrite length_queue, ahead_full by done. unfold pipe_len in *.
  destruct (Nat.eqb_spec (ahead (p_nread r) (p_nwrite r)) (Z.to_nat PIPESIZE)),
    (Nat.eqb_spec (Z.to_nat PIPESIZE - ahead (p_nread r) (p_nwrite r)) 0); lia.
Qed.

(** ** Storing and taking one byte *)

(** p->data[p->nwrite++ % PIPESIZE] = c *)
Definition push (c : Z) (r : pipe) : pipe :=
  r <| p_data ::= <[slot PIPESIZE (p_nwrite r) := c]> |> <| p_nwrite ::= fun n => u32 (n + 1) |>.
(** p->nread++ *)
Definition pop (r : pipe) : pipe := r <| p_nread ::= fun n => u32 (n + 1) |>.

Lemma push_ok r c :
  pipe_ok r -> (0 < room (queue r))%nat -> pipe_ok (push c r) /\ queue (push c r) = queue r ++ [c].
Proof.
  intros [Hd Hr Hw Hl]. unfold room. rewrite length_queue. unfold pipe_len in *. intros Hroom.
  assert (Hs : Z.of_nat (ahead (p_nread r) (p_nwrite r)) < 2 ^ 32 - 1) by (unfold PIPESIZE in *; lia).
  split; [|apply (ring_write PIPESIZE eq_refl (2 ^ 23) eq_refl (p_data r) Hd (p_nread r) (p_nwrite r)); [lia|done]].
  split; [by cbn; rewrite length_insert|done|apply u32_range|]. change (ahead (p_nread r) (u32 (p_nwrite r + 1)) <= Z.to_nat PIPESIZE)%nat. rewrite ahead_succ; [lia|done].
Qed.

Lemma pop_ok r c q :
  pipe_ok r -> queue r = c :: q ->
  pipe_ok (pop r) /\ queue (pop r) = q /\ p_data r !! slot PIPESIZE (p_nread r) = Some c.
Proof.
  intros [Hd Hr Hw Hl] Hq.
  assert (Hpos : (0 < pipe_len r)%nat) by (rewrite <-length_queue, Hq; simpl; lia).
  split; [|by apply (ring_read PIPESIZE eq_refl (2 ^ 23) eq_refl)].
  split; [done|apply u32_range|done|]. pose proof (ahead_pop _ _ Hpos). unfold pipe_len in *.
  change (ahead (u32 (p_nread r + 1)) (p_nwrite r) <= Z.to_nat PIPESIZE)%nat. lia.
Qed.

(** ** The operations *)
Section PipeRuns.
Context {D : Type}.
Implicit Types s : fsys D.

Definition put_pipe (p : Z) (r : pipe) s : fsys D := s <| pipes ::= <[p := r]> |>.
Definition woken (l : list kaddr) s : fsys D := s <| wakes ::= fun w => w ++ l |>.

Lemma pipe_at_run s p r : pipes s !! p = Some r -> pipe_at p s = Ret r s.
Proof. intros H. unfold pipe_at. by rewrite bind_gets, H. Qed.

Lemma upd_pipe_run s p r g : pipes s !! p = Some r -> upd_pipe p g s = Ret tt (put_pipe p (g r) s).
Proof.
  intros H. unfold upd_pipe. runs1 (pipe_at_run _ _ _ H). unfold modify, put_pipe. f_equal.
  destruct s; cbn in *. f_equal. apply map_eq. intros k. destruct (decide (p = k)) as [->|].
  - by rewrite lookup_alter_eq, lookup_insert_eq, H.
  - by rewrite lookup_alter_ne, lookup_insert_ne.
Qed.

Lemma pipe_put_put p r r' s : put_pipe p r (put_pipe p r' s) = put_pipe p r s.
Proof. destruct s. unfold put_pipe; cbn. f_equal. apply insert_insert_eq. Qed.

Lemma put_get p r s : pipes (put_pipe p r s) !! p = Some r.
Proof. apply lookup_insert_eq. Qed.

Lemma put_id p r s : pipes s !! p = Some r -> put_pipe p r s = s.
Proof. intros H. destruct s. unfold put_pipe; cbn in *. f_equal. by apply insert_id. Qed.

Lemma pipe_acquire_run s p r :
  pipes s !! p = Some r -> p_lock r = false ->
  pipe_acquire p s = Ret tt (put_pipe p (r <| p_lock := true |>) s).
Proof.
  intros H Hl. unfold pipe_acquire. runs1 (pipe_at_run _ _ _ H). rewrite Hl. by apply upd_pipe_run.
Qed.

Lemma pipe_release_run s p r :
  p_lock r = true ->
  pipe_release p (put_pipe p r s) = Ret tt (put_pipe p (r <| p_lock := false |>) s).
Proof.
  intros Hl. unfold pipe_release. runs1 (pipe_at_run _ _ _ (put_get p r s)). rewrite Hl.
  rewrite (upd_pipe_run _ _ _ _ (put_get p r s)). by rewrite pipe_put_put.
Qed.

Lemma wakeup_put a p r s : wakeup a (put_pipe p r s) = Ret tt (put_pipe p r (woken [a] s)).
Proof. done. Qed.

(** The pipe of a turn's end: unlocked, the ends as they were, this queue. *)
Definition pipe_now (r : pipe) (q : list Z) (r' : pipe) : Prop :=
  pipe_ok r' /\ queue r' = q /\ p_lock r' = false /\
  p_readopen r' = p_readopen r /\ p_writeopen r' = p_writeopen r.

Definition write_wakes (p : Z) (b : bool) : list kaddr := if b then [chan_nread p] else [].

Lemma pipewrite_loop_run p n addr : forall s r,
  pipe_ok r -> p_lock r = true ->
  exists r', pipe_now r (queue r ++ take (room (queue r)) addr) r' /\
    let '(res, w) := fifo_write (c_true (c_killed (cur s))) (c_true (p_readopen r)) (queue r) addr n in
    pipewrite_loop p addr n (put_pipe p r s) = Ret res (put_pipe p r' (woken (write_wakes p w) s)).
Proof.
  induction addr as [|c rest IH]; intros s r Hok Hl.
  - exists (r <| p_lock := false |>). unfold fifo_write. rewrite drop_nil, take_nil, app_nil_r.
    split; [by destruct Hok|]. cbn [pipewrite_loop].
    runs1 (wakeup_put (chan_nread p) p r s). by runs1 (pipe_release_run (woken [chan_nread p] s) p r Hl).
  - cbn [pipewrite_loop]. runs1 (pipe_at_run _ _ _ (put_get p r s)). rewrite full_test by done.
    destruct (Nat.eqb_spec (room (queue r)) 0) as [E|E].
    + exists (r <| p_lock := false |>). unfold fifo_write. rewrite E, take_0, drop_0, app_nil_r.
      split; [by destruct Hok|]. rewrite bind_gets. change (cur (put_pipe p r s)) with (cur s).
      replace (negb (c_true (p_readopen r))) with (p_readopen r =? 0) by (unfold c_true; by rewrite negb_involutive).
      destruct ((p_readopen r =? 0) || c_true (c_killed (cur s))).
      * runs1 (pipe_release_run s p r Hl). unfold ret, woken. destruct s; cbn. by rewrite app_nil_r.
      * runs1 (wakeup_put (chan_nread p) p r s). by runs1 (pipe_release_run (woken [chan_nread p] s) p r Hl).
    + destruct (push_ok r c Hok) as [Hok' Hq']; [lia|].
      destruct (IH s (push c r) Hok' Hl) as (r' & Hnow & Hrun). exists r'.
      assert (Er : room (queue r) = S (room (queue (push c r)))).
      { revert E. rewrite Hq'. unfold room. rewrite length_app. simpl. lia. }
      revert Hnow Hrun. unfold fifo_write. rewrite Er. cbn [drop take]. rewrite Hq', <-app_assoc.
      intros Hnow Hrun. split; [exact Hnow|].
      runs1 (upd_pipe_run _ _ _ (fun r => r <| p_data ::= <[Z.to_nat (p_nwrite r mod PIPESIZE) := c]> |>)
               (put_get p r s)).
      rewrite pipe_put_put. runs1 (upd_pipe_run _ _ _ (fun r => r <| p_nwrite ::= fun n => u32 (n + 1) |>)
               (put_get p (r <| p_data ::= <[slot PIPESIZE (p_nwrite r) := c]> |>) s)).
      rewrite pipe_put_put. exact Hrun.
Qed.

(** A writer's turn, at the start or after a sleep. *)
Lemma pipewrite_pass_run s p r addr n :
  pipes s !! p = Some r -> pipe_ok r -> p_lock r = false ->
  exists r', pipe_now r (queue r ++ take (room (queue r)) addr) r' /\
    let '(res, w) := fifo_write (c_true (c_killed (cur s))) (c_true (p_readopen r)) (queue r) addr n in
    pipewrite_pass p addr n s = Ret res (put_pipe p r' (woken (write_wakes p w) s)).
Proof.
  intros H Hok Hl. unfold pipewrite_pass. runs1 (pipe_acquire_run _ _ _ H Hl).
  refine (pipewrite_loop_run p n addr s (r <| p_lock := true |>) _ eq_refl). by destruct Hok.
Qed.

Lemma piperead_loop_run p k : forall s r,
  pipe_ok r ->
  exists r', pipe_ok r' /\ queue r' = drop k (queue r) /\ p_lock r' = p_lock r /\
    p_readopen r' = p_readopen r /\ p_writeopen r' = p_writeopen r /\
    piperead_loop k p (put_pipe p r s) = Ret (take k (queue r)) (put_pipe p r' s).
Proof.
  induction k as [|k IH]; intros s r Hok; [by exists r|]. cbn [piperead_loop].
  runs1 (pipe_at_run _ _ _ (put_get p r s)). rewrite empty_test by done.
  destruct (queue r) as [|c q] eqn:Hq.
  - exists r. by rewrite drop_nil, take_nil.
  - rewrite bool_decide_false by done. destruct (pop_ok r c q Hok Hq) as (Hok' & Hq' & Hd).
    destruct (IH s (pop r) Hok') as (r' & H1 & H2 & H3 & H4 & H5 & Hrun). rewrite Hq' in *.
    exists r'. split_and!; [done..|]. fold (slot PIPESIZE (p_nread r)). unfold orUndef. rewrite Hd, bind_deref.
    runs1 (upd_pipe_run _ _ _ (fun r => r <| p_nread ::= fun n => u32 (n + 1) |>) (put_get p r s)).
    rewrite pipe_put_put. by runs1 Hrun.
Qed.

(** A reader's turn: it sleeps or is killed on an empty pipe that can still be
    written, and takes what is there, up to [n] bytes, otherwise. *)
Lemma piperead_run s p r n :
  pipes s !! p = Some r -> pipe_ok r -> p_lock r = false ->
  if bool_decide (queue r = []) && c_true (p_writeopen r) then
    piperead p n s = if c_true (c_killed (cur s)) then Ret (-1, []) s else Stop (chan_nread p) s
  else
    exists r', pipe_now r (drop (Z.to_nat n) (queue r)) r' /\
      piperead p n s = Ret (Z.of_nat (length (take (Z.to_nat n) (queue r))), take (Z.to_nat n) (queue r))
                           (put_pipe p r' (woken [chan_nwrite p] s)).
Proof.
  intros H Hok Hl. unfold piperead. runs1 (pipe_acquire_run _ _ _ H Hl).
  set (r1 := r <| p_lock := true |>). runs1 (pipe_at_run _ _ _ (put_get p r1 s)).
  assert (Hok1 : pipe_ok r1) by (by destruct Hok).
  rewrite (empty_test r1) by done. change (queue r1) with (queue r). change (p_writeopen r1) with (p_writeopen r).
  assert (Hback : put_pipe p (r1 <| p_lock := false |>) s = s).
  { apply put_id. rewrite H. f_equal. destruct r; cbn in *. by subst. }
  destruct (bool_decide (queue r = []) && c_true (p_writeopen r)).
  - rewrite bind_gets. change (cur (put_pipe p r1 s)) with (cur s).
    destruct (c_true (c_killed (cur s))); runs1 (pipe_release_run s p r1 eq_refl); by rewrite Hback.
  - destruct (piperead_loop_run p (Z.to_nat n) s r1 Hok1) as (r' & H1 & H2 & H3 & H4 & H5 & Hrun).
    exists (r' <| p_lock := false |>). split; [by destruct H1|]. runs1 Hrun.
    runs1 (wakeup_put (chan_nwrite p) p r' s). by runs1 (pipe_release_run (woken [chan_nwrite p] s) p r' H3).
Qed.
End PipeRuns.

(** ** Interleavings *)
Section PipeHistory.
Context (kend : Z) {D : Type}.
Implicit Types s : fsys D.

(** The thread that runs has this [killed] flag. *)
Definition running (k : Z) s : fsys D := s <| cur ::= fun me => me <| c_killed := k |> |>.

Definition pipe_turn (p : Z) (o : pipe_op) s : option (turn_res * fsys D) :=
  match o with
  | PWrite k l n =>
    match pipewrite_pass p l n (running k s) with Ret v s' => Some (Wrote v, s') | _ => None end
  | PRead k n =>
    match piperead p n (running k s) with
    | Ret (v, l) s' => Some (Got v l, s')
    | Stop _ s' => Some (Slept, s')
    | _ => None
    end
  | PClose w => match pipeclose kend p w s with Ret _ s' => Some (Closed, s') | _ => None end
  end.

Fixpoint pipe_turns (p : Z) (ops : list pipe_op) s : option (list turn_res * fsys D) :=
  match ops with
  | [] => Some ([], s)
  | o :: ops' =>
    '(t, s1) ← pipe_turn p o s;
    '(ts, s2) ← pipe_turns p ops' s1;
    Some (t :: ts, s2)
  end.

Definition fifo_of (r : pipe) : fifo := Fifo (queue r) (c_true (p_readopen r)) (c_true (p_writeopen r)).

(** A pipe in memory that implements the abstract pipe. *)
Definition implements (p : Z) s (a : fifo) : Prop :=
  exists r, pipes s !! p = Some r /\ pipe_ok r /\ p_lock r = false /\ fifo_of r = a.

Lemma pipeclose_run s p r w :
  pipes s !! p = Some r -> p_lock r = false ->
  c_true (if c_true w then p_readopen r else p_writeopen r) = true ->
  pipeclose kend p w s =
    Ret tt (put_pipe p (if c_true w then r <| p_writeopen := 0 |> else r <| p_readopen := 0 |>)
              (woken [if c_true w then chan_nread p else chan_nwrite p] s)).
Proof.
  intros H Hl Ho. unfold pipeclose. runs1 (pipe_acquire_run _ _ _ H Hl).
  set (r1 := r <| p_lock := true |>).
  assert (Hlast : forall r2 a, p_lock r2 = true -> (p_readopen r2 =? 0) && (p_writeopen r2 =? 0) = false ->
    (do r <- pipe_at p;
     if (p_readopen r =? 0) && (p_writeopen r =? 0) then
       pipe_release p;; modify (fun s => s <| pipes ::= delete p |>);; on_pages (kfree kend p)
     else pipe_release p) (put_pipe p r2 (woken [a] s)) =
    Ret tt (put_pipe p (r2 <| p_lock := false |>) (woken [a] s))).
  { intros r2 a Hl2 Ho2. runs1 (pipe_at_run _ _ _ (put_get p r2 (woken [a] s))). rewrite Ho2.
    by apply pipe_release_run. }
  unfold c_true at 1 in Ho. apply negb_true_iff in Ho.
  destruct (c_true w); rewrite bind_assoc.
  - runs1 (upd_pipe_run _ _ _ (fun r => r <| p_writeopen := 0 |>) (put_get p r1 s)). rewrite pipe_put_put.
    runs1 (wakeup_put (chan_nread p) p (r1 <| p_writeopen := 0 |>) s). rewrite Hlast; [|done|].
    + destruct r; cbn in *; by subst.
    + cbn. by rewrite Ho.
  - runs1 (upd_pipe_run _ _ _ (fun r => r <| p_readopen := 0 |>) (put_get p r1 s)). rewrite pipe_put_put.
    runs1 (wakeup_put (chan_nwrite p) p (r1 <| p_readopen := 0 |>) s). rewrite Hlast; [|done|].
    + destruct r; cbn in *; by subst.
    + cbn. by rewrite Ho.
Qed.

Lemma pipe_now_implements p s r q r' a :
  pipe_now r q r' -> Fifo q (c_true (p_readopen r)) (c_true (p_writeopen r)) = a ->
  implements p (put_pipe p r' s) a.
Proof.
  intros (Hok & Hq & Hl & Hr & Hw) <-. exists r'. split_and!; [apply put_get|done|done|].
  unfold fifo_of. by rewrite Hq, Hr, Hw.
Qed.

(** One turn of the code is one step of the abstract pipe. *)
Lemma turn_refines p o s a t i a' :
  implements p s a -> fifo_step o a = Some (t, i, a') ->
  exists s', pipe_turn p o s = Some (t, s') /\ implements p s' a'.
Proof.
  intros (r & H & Hok & Hl & <-) Hs. destruct o as [k l n|k n|w]; cbn in Hs.
  - injection Hs as <- <- <-.
    destruct (pipewrite_pass_run (running k s) p r l n H Hok Hl) as (r' & Hnow & Hrun).
    change (c_killed (cur (running k s))) with k in Hrun. cbn [pipe_turn]. destruct (fifo_write _ _ _ _ _) as [res b]. rewrite Hrun. eexists. split; [done|].
    by eapply pipe_now_implements.
  - pose proof (piperead_run (running k s) p r n H Hok Hl) as Hrun. cbn [pipe_turn].
    destruct (bool_decide (queue r = []) && c_true (p_writeopen r)).
    + injection Hs as <- <- <-. change (c_killed (cur (running k s))) with k in Hrun.
      exists (running k s). split; [|by exists r]. rewrite Hrun. by destruct (c_true k).
    + destruct Hrun as (r' & Hnow & Hrun). injection Hs as <- <- <-. rewrite Hrun. eexists. split; [done|].
      by eapply pipe_now_implements.
  - pose proof (pipeclose_run s p r w H Hl) as Hrun. cbn [pipe_turn].
    destruct (c_true w); destruct (c_true _) eqn:Ho in Hs; simplify_eq; rewrite (Hrun Ho);
      (eexists; split; [done|]; eexists; split_and!; [apply put_get|by destruct Hok|done|]);
      unfold fifo_of; cbn; by rewrite Ho.
Qed.

Lemma turns_refine p ops : forall s a ts is' a',
  implements p s a -> fifo_run ops a = Some (ts, is', a') ->
  exists s', pipe_turns p ops s = Some (ts, s') /\ implements p s' a'.
Proof.
  induction ops as [|o ops IH]; intros s a ts is' a' Hi Hr; cbn in Hr; [simplify_eq; by exists s|].
  destruct (fifo_step o a) as [[[t i] a1]|] eqn:Hs; [|done]. cbn in Hr.
  destruct (fifo_run ops a1) as [[[ts1 is1] a2]|] eqn:Hr1; [|done]. cbn in Hr. simplify_eq.
  destruct (turn_refines _ _ _ _ _ _ _ Hi Hs) as (s1 & Ht & Hi1).
  destruct (IH _ _ _ _ _ Hi1 Hr1) as (s2 & Hts & Hi2). exists s2. split; [|done].
  cbn. rewrite Ht. cbn. by rewrite Hts.
Qed.

(** The abstract pipe delivers what was put in, in order. *)
Lemma fifo_order ops : forall a ts is' a',
  fifo_run ops a = Some (ts, is', a') ->
  concat (delivered <$> ts) ++ q_bytes a' = q_bytes a ++ is'.
Proof.
  induction ops as [|o ops IH]; intros a ts is' a' Hr; cbn in Hr; [simplify_eq; by rewrite app_nil_r|].
  destruct (fifo_step o a) as [[[t i] a1]|] eqn:Hs; [|done]. cbn in Hr.
  destruct (fifo_run ops a1) as [[[ts1 is1] a2]|] eqn:Hr1; [|done]. cbn in Hr. simplify_eq.
  cbn. rewrite <-app_assoc, (IH _ _ _ _ Hr1), !app_assoc. f_equal.
  destruct a as [q ro wo], o as [k l n|k n|w]; cbn in Hs; repeat case_match; simplify_eq/=;
    rewrite ?app_nil_r; try done. by rewrite take_drop.
Qed.
End PipeHistory.

(** ** Theorems *)

(** C14: a pipe is a first-in first-out queue of at most [PIPESIZE] bytes, for any
    interleaving of the turns of its readers and writers and across the
    wrap-around of its 32-bit counters: each turn of [pipewrite], [piperead] and
    [pipeclose] has the result of the abstract pipe (it never panics and never
    leaves [data]), and at any time the bytes delivered to readers followed by
    the bytes still queued are the bytes that were queued before followed by the
    bytes accepted from writers, in order. *)
Theorem pipe_fifo kend {D} (p : Z) (ops : list pipe_op) (s : fsys D) (a : fifo)
    (ts : list turn_res) (acc : list Z) (a' : fifo)
    (Himpl : implements p s a) (Habs : fifo_run ops a = Some (ts, acc, a')) :
  (exists s', pipe_turns kend p ops s = Some (ts, s') /\ implements p s' a') /\
  concat (delivered <$> ts) ++ q_bytes a' = q_bytes a ++ acc /\
  (length (q_bytes a') <= Z.to_nat PIPESIZE)%nat.
Proof.
  destruct (turns_refine kend p ops s a ts acc a' Himpl Habs) as (s' & Hrun & Hi).
  split_and!; [by exists s'|by eapply fifo_order|].
  destruct Hi as (r & _ & Hok & _ & <-). cbn. rewrite length_queue. apply (pk_len r Hok).
Qed.

(** A pipe with one byte, its write counter about to wrap around. *)
Definition demo_pipe : pipe :=
  Pipe false (<[Z.to_nat 510 := 65]> (replicate 512 0)) (2 ^ 32 - 2) (2 ^ 32 - 1) 1 1.
Definition demo_pipes : fsys unit :=
  Fsys (Curproc 1 0 0 [] 0 0 (fun _ => 0)) [] tt false [] (Logst false 0 0 0 0 0 0 [])
       (Superblock 0 0 0 0 0 0 0) false [] false [] {[0x1000 := demo_pipe]} (Kmem (fun _ => 0) true 0 false).

Lemma pipe_fifo_witness :
  exists s', pipe_turns 0 0x1000 [PWrite 0 [66; 67; 68] 3; PRead 0 2; PClose 1; PRead 0 9; PRead 0 9] demo_pipes =
    Some ([Wrote (inl 3); Got 2 [65; 66]; Closed; Got 2 [67; 68]; Got 0 []], s').
Proof.
  edestruct (pipe_fifo 0 0x1000 [PWrite 0 [66; 67; 68] 3; PRead 0 2; PClose 1; PRead 0 9; PRead 0 9]
    demo_pipes (Fifo [65] true true)) as ((s' & Hrun & _) & _).
  - exists demo_pipe. split_and!; [done|split; vm_compute; done || lia|done|by vm_compute].
  - vm_compute. reflexivity.
  - exists s'. exact Hrun.
Defined.

Lemma woken_nil {D} (s : fsys D) : woken [] s = s.
Proof. destruct s. unfold woken. cbn. by rewrite app_nil_r. Qed.

(** C35: a writer that was killed fills an empty pipe and returns -1 without a
    [wakeup(&p->nread)]: a reader that sleeps on the pipe is left asleep with
    [PIPESIZE] bytes to read. *)
Theorem killed_writer_no_wakeup {D} (s : fsys D) (p : Z) (r : pipe) (l : list Z) (n : Z)
    (Hp : pipes s !! p = Some r) (Hok : pipe_ok r) (Hl : p_lock r = false)
    (Hempty : queue r = []) (Hkilled : c_true (c_killed (cur s)) = true)
    (Hlong : (Z.to_nat PIPESIZE < length l)%nat) :
  exists r', pipewrite_pass p l n s = Ret (inl (-1)) (put_pipe p r' s) /\
    queue r' = take (Z.to_nat PIPESIZE) l /\ wakes (put_pipe p r' s) = wakes s.
Proof.
  destruct (pipewrite_pass_run s p r l n Hp Hok Hl) as (r' & (_ & Hq & _) & Hrun).
  exists r'. rewrite Hempty in Hq, Hrun. revert Hq Hrun. unfold fifo_write, room. rewrite Nat.sub_0_r, Hkilled, orb_true_r.
  destruct (drop (Z.to_nat PIPESIZE) l) as [|c l'] eqn:E.
  - apply (f_equal length) in E. rewrite length_drop in E. simpl in E. lia.
  - intros Hq Hrun. cbn [write_wakes] in Hrun. rewrite woken_nil in Hrun. done.
Qed.

Lemma killed_writer_no_wakeup_witness :
  exists r', pipewrite_pass 0x1000 (replicate 600 7) 600
      (running 1 (put_pipe 0x1000 (demo_pipe <| p_nread := 2 ^ 32 - 1 |>) demo_pipes)) =
    Ret (inl (-1)) (put_pipe 0x1000 r' (running 1 (put_pipe 0x1000 (demo_pipe <| p_nread := 2 ^ 32 - 1 |>) demo_pipes))) /\
    queue r' = replicate 512 7.
Proof.
  edestruct (killed_writer_no_wakeup
    (running 1 (put_pipe 0x1000 (demo_pipe <| p_nread := 2 ^ 32 - 1 |>) demo_pipes)) 0x1000
    (demo_pipe <| p_nread := 2 ^ 32 - 1 |>) (replicate 600 7) 600) as (r' & Hrun & Hq & _);
    [done|split; vm_compute; done || lia|done|by vm_compute|done|rewrite length_replicate; unfold PIPESIZE; lia|].
  exists r'. split; [exact Hrun|exact Hq].
Defined.
