(* ===== verification/PathSpec.v ===== *)
(** * Path names: [skipelem] against a reference splitting

    The reference splits a path at its slashes and drops the empty parts, which
    is how the comment above [skipelem] explains multiple and trailing
    slashes.  Walking a path with [skipelem] as [namex] does yields exactly
    those parts, each cut to [DIRSIZ] bytes, and ends within the number of
    rounds [namex] is given. *)
From S2P Require Import Prelude Bytes Cstring Spinlock ProcDefs Memory Kalloc FsDefs Bio Log Fs.
Local Open Scope Z_scope.

Definition slash : Z := 47.

(** ** The reference *)

Fixpoint split_slash (p : list Z) : list (list Z) :=
  match p with
  | [] => [[]]
  | c :: p' =>
    if c =? slash then [] :: split_slash p'
    else match split_slash p' with e :: es => (c :: e) :: es | [] => [[c]] end
  end.
Definition components (p : list Z) : list (list Z) := filter (fun e => e <> []) (split_slash p).

(** The name a [char name[DIRSIZ]] holds: up to its NUL, or all of it. *)
Fixpoint cstr (l : list Z) : list Z :=
  match l with [] => [] | c :: l' => if c =? 0 then [] else c :: cstr l' end.
Definition name_of (name : list Z) : list Z := cstr (take DIRSIZ name).

(** The names [namex] sees, in order: while((path = skipelem(path, name)) != 0). *)
Fixpoint walk (k : nat) (path name : list Z) : option (list (list Z)) :=
  match k with
  | O => None
  | S k' =>
    o ← skipelem path name;
    match o with
    | None => Some []
    | Some (path', name') => l ← walk k' path' name'; Some (name_of name' :: l)
    end
  end.

(** ** Proofs *)

(** A byte of a path element. *)
Definition plain (c : Z) : Prop := c <> slash /\ c <> 0.

Lemma split_slash_cons p : exists e es, split_slash p = e :: es.
Proof. induction p as [|c p (e & es & IH)]; simpl; [eauto|]. case_match; [eauto|]. rewrite IH. eauto. Qed.

Lemma split_plain e p :
  Forall plain e ->
  exists e' es, split_slash p = e' :: es /\ split_slash (e ++ p) = (e ++ e') :: es.
Proof.
  intros He. destruct (split_slash_cons p) as (e' & es & Hp). exists e', es. split; [done|].
  induction He as [|c e [Hc _] He IH]; simpl; [done|]. rewrite IH.
  by destruct (Z.eqb_spec c slash).
Qed.

(** What follows an element: the end of the path or a slash. *)
Definition at_slash (p : list Z) : Prop := p = [] \/ exists p', p = slash :: p'.

Lemma components_cons e p :
  Forall plain e -> e <> [] -> at_slash p -> components (e ++ p) = e :: components p.
Proof.
  intros He Hn Hp. unfold components. destruct (split_plain e p He) as (e' & es & H & ->).
  assert (e' = []) as -> by (destruct Hp as [->|[p' ->]]; simpl in H; congruence).
  rewrite app_nil_r, filter_cons_True by done. rewrite H. by rewrite filter_cons_False by (intros []; done).
Qed.

Lemma components_slash p : components (slash :: p) = components p.
Proof. unfold components. cbn [split_slash]. rewrite Z.eqb_refl. by rewrite filter_cons_False by (intros []; done). Qed.

(** while( *path == '/') path++ *)
Lemma skip_slashes_spec p junk :
  exists p', skip_slashes (p ++ 0 :: junk) = Some (p' ++ 0 :: junk) /\
    components p' = components p /\ head p' <> Some slash /\ (length p' <= length p)%nat /\
    (forall P, Forall P p -> Forall P p').
Proof.
  induction p as [|c p (p' & H & Hc & Hh & Hl & HP)]; simpl.
  - by exists [].
  - fold slash. destruct (Z.eqb_spec c slash) as [->|Hne].
    + exists p'. split_and!; [done|by rewrite components_slash|done|lia|].
      intros P HPP. inversion HPP; auto.
    + exists (c :: p). split_and!; [done..|simpl; congruence|simpl; lia|done].
Qed.

Lemma path_elem_spec p junk :
  Forall (fun c => c <> 0) p ->
  exists e rest, path_elem (p ++ 0 :: junk) = Some (e, rest ++ 0 :: junk) /\ p = e ++ rest /\
    Forall plain e /\ at_slash rest.
Proof.
  induction 1 as [|c p Hc Hp (e & rest & H & -> & He & Hr)].
  - exists [], []. split_and!; [done..|by left].
  - simpl. fold slash. destruct (Z.eqb_spec c slash) as [->|Hs].
    + exists [], (slash :: e ++ rest). split_and!; [done..|right; eauto].
    + destruct (Z.eqb_spec c 0); [done|]. cbn [orb].
      exists (c :: e), rest. rewrite H. split_and!; [done..| |done]. constructor; [by split|done].
Qed.

Lemma cstr_plain e l : Forall plain e -> cstr (e ++ 0 :: l) = e.
Proof. induction 1 as [|c e [_ Hc] _ IH]; simpl; [done|]. rewrite IH. by destruct (Z.eqb_spec c 0). Qed.

Lemma cstr_all e : Forall plain e -> cstr e = e.
Proof. induction 1 as [|c e [_ Hc] _ IH]; simpl; [done|]. rewrite IH. by destruct (Z.eqb_spec c 0). Qed.

(** The name buffer after the element [e] was copied into it. *)
Lemma name_buffer e name :
  Forall plain e -> length name = DIRSIZ ->
  exists name', (if decide (DIRSIZ <= length e)%nat then splice 0 (take DIRSIZ e) name
                 else name ← splice 0 e name; splice (length e) [0] name) = Some name' /\
    length name' = DIRSIZ /\ name_of name' = take DIRSIZ e.
Proof.
  intros He Hn. unfold name_of. case_decide as Hlen.
  - destruct (splice_some 0 (take DIRSIZ e) name) as [n' H]; [rewrite length_take; lia|].
    exists n'. split_and!; [done|by rewrite (splice_length _ _ _ _ H)|]. revert H. unfold splice.
    rewrite length_take_le by done. rewrite Hn, decide_True by lia. intros [= <-].
    rewrite drop_ge, app_nil_r by lia. rewrite (take_ge (take _ _)) by (rewrite length_take; lia).
    apply cstr_all. by apply Forall_take.
  - destruct (splice_some 0 e name) as [n1 H1]; [lia|]. rewrite H1. cbn [mbind option_bind].
    pose proof (splice_length _ _ _ _ H1) as L1.
    destruct (splice_some (length e) [0] n1) as [n' H]; [simpl; lia|].
    pose proof (splice_length _ _ _ _ H) as L2. exists n'. split_and!; [done|lia|].
    rewrite (take_ge n') by lia. rewrite (take_ge e) by lia.
    revert H H1. unfold splice. rewrite !decide_True by (simpl; lia). intros [= <-] [= <-]. simpl.
    rewrite take_app_length. by apply cstr_plain.
Qed.

(** One call of [skipelem] takes the first component off the path. *)
Lemma skipelem_spec p junk name :
  Forall (fun c => c <> 0) p -> length name = DIRSIZ ->
  match components p with
  | [] => skipelem (p ++ 0 :: junk) name = Some None
  | e :: es => exists rest name',
      skipelem (p ++ 0 :: junk) name = Some (Some (rest ++ 0 :: junk, name')) /\
      components rest = es /\ head rest <> Some slash /\ name_of name' = take DIRSIZ e /\
      length name' = DIRSIZ /\ (length rest < length p)%nat /\ Forall (fun c => c <> 0) rest
  end.
Proof.
  intros Hp Hn. unfold skipelem. destruct (skip_slashes_spec p junk) as (p1 & -> & <- & Hh & Hl1 & HP1).
  apply HP1 in Hp. clear HP1. cbn [mbind option_bind].
  destruct p1 as [|c p1]; [done|]. cbn [app head mbind option_bind].
  inversion Hp as [|?? Hc Hp']; subst. destruct (Z.eqb_spec c 0); [done|].
  destruct (path_elem_spec (c :: p1) junk Hp) as (e & rest & He & Hsplit & Hpl & Hat).
  assert (Hne : e <> []).
  { intros ->. cbn in Hsplit. destruct Hat as [->|[p' ->]]; [done|]. apply Hh. simpl. congruence. }
  cbn [app] in He. rewrite He. cbn [mbind option_bind]. rewrite Hsplit.
  rewrite components_cons by done. destruct (name_buffer e name Hpl Hn) as (name' & -> & Hl' & Hn').
  cbn [mbind option_bind].
  destruct (skip_slashes_spec rest junk) as (r' & -> & Hc' & Hh' & Hl & HP).
  exists r', name'. rewrite Hsplit, length_app in Hl1. split_and!; [done..| |].
  - destruct e; [done|]. simpl in Hl1. lia.
  - apply HP. rewrite Hsplit in Hp. by apply Forall_app in Hp as [_ ?].
Qed.

Lemma walk_spec k : forall p junk name,
  Forall (fun c => c <> 0) p -> length name = DIRSIZ -> (length p < k)%nat ->
  walk k (p ++ 0 :: junk) name = Some (take DIRSIZ <$> components p).
Proof.
  induction k as [|k IH]; intros p junk name Hp Hn Hk; [lia|]. cbn [walk].
  pose proof (skipelem_spec p junk name Hp Hn) as H. destruct (components p) as [|e es].
  - by rewrite H.
  - destruct H as (rest & name' & -> & <- & _ & Hnm & Hln & Hlt & Hr). cbn [mbind option_bind].
    rewrite IH by (done || lia). cbn [mbind option_bind fmap list_fmap]. by rewrite Hnm.
Qed.

(** C32: path parsing agrees with the reference: for any path (a C string, here
    [p] followed by its NUL and by whatever is after it) the names that the loop
    of [namex] gets from [skipelem], within [namex]'s bound of one round more than the length
    of the path, are the non-empty parts of [p] between slashes, each cut to
    [DIRSIZ] bytes; no read leaves the path and no store leaves [name]. *)
Theorem path_walk (p junk name : list Z)
    (Hstr : Forall (fun c => c <> 0) p) (Hname : length name = DIRSIZ) :
  walk (S (length (p ++ 0 :: junk))) (p ++ 0 :: junk) name = Some (take DIRSIZ <$> components p).
Proof. apply walk_spec; [done..|]. rewrite length_app. simpl. lia. Qed.

(** The path ///a//bb *)
Lemma path_walk_witness :
  walk 12 [47; 47; 47; 97; 47; 47; 98; 98; 0; 5; 5] (replicate 14 1) = Some [[97]; [98; 98]].
Proof.
  apply (path_walk [47; 47; 47; 97; 47; 47; 98; 98] [5; 5] (replicate 14 1)).
  - repeat constructor; done.
  - done.
Defined.
