(* ===== verification/FsCodec.v ===== *)
(** * The on-disk inode

    [put_dinode] and [get_dinode] are the stores of [iupdate] and the loads of
    [ilock] on the bytes of a block.  They are inverse to each other on the
    fields, and an inode's slot of the block is disjoint from the others'. *)
From S2P Require Import Prelude Bytes Cstring Spinlock ProcDefs Memory Kalloc FsDefs Bio Log Fs.
Local Open Scope Z_scope.

(** The fields of an inode fit their C types: shorts, a uint and [NDIRECT]+1 uints. *)
Definition is_short (z : Z) : Prop := - 2 ^ 15 <= z < 2 ^ 15.
Record inode_wf (ip : inode) : Prop := {
  iw_type : is_short (itype ip);
  iw_major : is_short (imajor ip);
  iw_minor : is_short (iminor ip);
  iw_nlink : is_short (inlink ip);
  iw_size : 0 <= isize ip < 2 ^ 32;
  iw_len : length (iaddrs ip) = (Z.to_nat NDIRECT + 1)%nat;
  iw_addrs : Forall (fun a => 0 <= a < 2 ^ 32) (iaddrs ip)
}.

(** [ip] with the fields that are on disk taken from [x]. *)
Definition with_disk_fields (x ip : inode) : inode :=
  ip <| itype := itype x |> <| imajor := imajor x |> <| iminor := iminor x |> <| inlink := inlink x |>
     <| isize := isize x |> <| iaddrs := iaddrs x |>.

(** ** Integers *)

Lemma s16_mod z : is_short z -> s16 (z mod 256 ^ Z.of_nat 2) = z.
Proof.
  unfold is_short, s16. change (256 ^ Z.of_nat 2) with (2 ^ 16). intros Hz.
  rewrite Z.add_mod_idemp_l by lia. rewrite Z.mod_small; lia.
Qed.

(** ** Reading inside what was written *)

Lemma sub_splice_in o d l l' a n :
  splice o d l = Some l' -> (a + n <= length d)%nat -> sub (o + a) n l' = sub a n d.
Proof.
  intros H Ha. pose proof (splice_length _ _ _ _ H) as Hl.
  assert (o + length d <= length l)%nat by (revert H; unfold splice; by case_decide).
  destruct (sub_some (o + a) n l') as [x Hx]; [lia|]. destruct (sub_some a n d) as [y Hy]; [lia|].
  rewrite Hx, Hy. f_equal. apply list_eq_same_length with n; [by eapply sub_length..|].
  intros k u v Hk Hu Hv. rewrite (sub_lookup _ _ _ _ _ Hx Hk) in Hu. rewrite (sub_lookup _ _ _ _ _ Hy Hk) in Hv.
  rewrite <-Nat.add_assoc, (splice_lookup_in _ _ _ _ _ H) in Hu by lia. congruence.
Qed.

Lemma words_length l : length (concat (le_bytes 4 <$> l)) = (4 * length l)%nat.
Proof. induction l as [|x l IH]; [done|]. cbn [fmap list_fmap concat]. rewrite length_app, le_bytes_length, IH. simpl. lia. Qed.

Lemma sub_words l k x : l !! k = Some x -> sub (4 * k) 4 (concat (le_bytes 4 <$> l)) = Some (le_bytes 4 x).
Proof.
  intros Hk. rewrite <-(take_drop_middle _ _ _ Hk), fmap_app, concat_app. cbn [fmap list_fmap concat].
  assert (Hl : length (take k l) = k) by (rewrite length_take; apply lookup_lt_Some in Hk; lia).
  unfold sub. rewrite decide_True by (rewrite !length_app, words_length, le_bytes_length; lia).
  rewrite drop_app_length' by (rewrite words_length; lia).
  by rewrite take_app_length' by (by rewrite le_bytes_length).
Qed.

(** The words of an array stored as a whole, read one by one. *)
Lemma get_words_same o l d d' :
  splice o (concat (le_bytes 4 <$> l)) d = Some d' -> Forall (fun a => 0 <= a < 2 ^ 32) l ->
  mapM (fun k => ld 4 (o + 4 * k) d') (seq 0 (length l)) = Some l.
Proof.
  intros H Hl. apply mapM_Some. apply Forall2_lookup. intros k.
  destruct (decide (k < length l)%nat) as [Hk|Hk].
  - rewrite lookup_seq_lt by done. destruct (lookup_lt_is_Some_2 l k Hk) as [x Hx]. rewrite Hx. constructor.
    unfold ld. rewrite (sub_splice_in _ _ _ _ _ _ H) by (rewrite words_length; lia).
    rewrite Nat.add_0_l, (sub_words _ _ _ Hx). cbn [fmap option_fmap option_map Nat.add]. f_equal. rewrite le_value_bytes.
    apply Z.mod_small. by eapply (Forall_lookup_1 _ _ _ _ Hl).
  - rewrite lookup_seq_ge, lookup_ge_None_2 by lia. constructor.
Qed.

Lemma mapM_same {A B} (f g : A -> option B) l : (forall x, x ∈ l -> f x = g x) -> mapM f l = mapM g l.
Proof.
  induction l as [|x l IH]; intros H; [done|]. cbn. rewrite H by (by left).
  destruct (g x); [|done]. cbn. rewrite IH; [done|]. intros y Hy. apply H. by right.
Qed.

(** ** The record *)

Lemma put_dinode_some ip o d :
  length (iaddrs ip) = (Z.to_nat NDIRECT + 1)%nat -> (o + 64 <= length d)%nat -> is_Some (put_dinode ip o d).
Proof.
  intros Ha Hd. unfold put_dinode.
  repeat match goal with
  | |- is_Some (st ?n ?o ?v ?d ≫= _) =>
    let x := fresh "d" in let E := fresh "E" in
    destruct (st_some n o v d) as [x E]; [lia|]; rewrite E; cbn [mbind option_bind]; apply st_length in E
  end.
  apply splice_some. rewrite words_length, Ha. unfold NDIRECT in *. lia.
Qed.

(** The intermediate contents of the stores. *)
Lemma put_dinode_inv ip o d d' :
  put_dinode ip o d = Some d' ->
  exists d1 d2 d3 d4 d5, st 2 o (itype ip) d = Some d1 /\ st 2 (o + 2) (imajor ip) d1 = Some d2 /\
    st 2 (o + 4) (iminor ip) d2 = Some d3 /\ st 2 (o + 6) (inlink ip) d3 = Some d4 /\
    st 4 (o + 8) (isize ip) d4 = Some d5 /\ splice (o + 12) (concat (le_bytes 4 <$> iaddrs ip)) d5 = Some d'.
Proof.
  unfold put_dinode. intros H. repeat (apply bind_Some in H as (? & ? & H)). naive_solver.
Qed.

Lemma ld_splice_other n o d l l' p :
  splice o d l = Some l' -> (p + n <= o \/ o + length d <= p)%nat -> ld n p l' = ld n p l.
Proof. intros H Hp. unfold ld. by rewrite (sub_splice_other _ _ _ _ _ _ H Hp). Qed.

(** A load outside of the slot sees none of the stores. *)
Lemma put_dinode_other ip o d d' n p :
  put_dinode ip o d = Some d' -> length (iaddrs ip) = (Z.to_nat NDIRECT + 1)%nat ->
  (p + n <= o \/ o + 64 <= p)%nat -> ld n p d' = ld n p d.
Proof.
  intros (d1 & d2 & d3 & d4 & d5 & H1 & H2 & H3 & H4 & H5 & H6)%put_dinode_inv Ha Hp.
  assert (Hw : length (concat (le_bytes 4 <$> iaddrs ip)) = 52%nat) by (by rewrite words_length, Ha).
  rewrite (ld_splice_other _ _ _ _ _ _ H6) by lia.
  rewrite (ld_st_other _ _ _ _ _ _ _ H5), (ld_st_other _ _ _ _ _ _ _ H4), (ld_st_other _ _ _ _ _ _ _ H3),
    (ld_st_other _ _ _ _ _ _ _ H2), (ld_st_other _ _ _ _ _ _ _ H1) by lia. done.
Qed.

Lemma put_dinode_length ip o d d' : put_dinode ip o d = Some d' -> length d' = length d.
Proof.
  intros (d1 & d2 & d3 & d4 & d5 & H1 & H2 & H3 & H4 & H5 & H6)%put_dinode_inv.
  by rewrite (splice_length _ _ _ _ H6), (st_length _ _ _ _ _ H5), (st_length _ _ _ _ _ H4),
    (st_length _ _ _ _ _ H3), (st_length _ _ _ _ _ H2), (st_length _ _ _ _ _ H1).
Qed.

Lemma get_put_dinode ip x o d d' :
  inode_wf x -> put_dinode x o d = Some d' -> get_dinode o d' ip = Some (with_disk_fields x ip).
Proof.
  intros [Ht Hmj Hmn Hnl Hs Ha Hw] (d1 & d2 & d3 & d4 & d5 & H1 & H2 & H3 & H4 & H5 & H6)%put_dinode_inv.
  unfold get_dinode.
  rewrite !(ld_splice_other _ _ _ _ _ _ H6) by lia.
  rewrite (ld_st_same _ _ _ _ _ H5), !(ld_st_other _ _ _ _ _ _ _ H5) by lia.
  rewrite (ld_st_same _ _ _ _ _ H4), !(ld_st_other _ _ _ _ _ _ _ H4) by lia.
  rewrite (ld_st_same _ _ _ _ _ H3), !(ld_st_other _ _ _ _ _ _ _ H3) by lia.
  rewrite (ld_st_same _ _ _ _ _ H2), !(ld_st_other _ _ _ _ _ _ _ H2) by lia.
  rewrite (ld_st_same _ _ _ _ _ H1). cbn [mbind option_bind]. unfold get_addrs. rewrite <-Ha.
  rewrite (get_words_same _ _ _ _ H6 Hw). cbn [mbind option_bind]. rewrite !s16_mod by done.
  rewrite (Z.mod_small (isize x)) by done. done.
Qed.

Lemma get_dinode_ext o d d' ip :
  (forall n p, (o <= p)%nat -> (p + n <= o + 64)%nat -> ld n p d' = ld n p d) ->
  get_dinode o d' ip = get_dinode o d ip.
Proof.
  intros H. unfold get_dinode, get_addrs. rewrite !H by lia.
  rewrite (mapM_same _ (fun k => ld 4 (o + 12 + 4 * k) d)); [done|].
  intros k Hk%elem_of_seq. apply H; unfold NDIRECT in *; lia.
Qed.

Lemma dip_off_range i : 0 <= i -> (dip_off i + 64 <= 512)%nat.
Proof. intros. unfold dip_off, sizeof_dinode, IPB. pose proof (Z.mod_pos_bound i 8). lia. Qed.

(** C33: an inode survives its trip through the disk: on a block of 512 bytes the
    stores of [iupdate] for inode [ino] stay inside the block, the loads of
    [ilock] for the same inode give back every field that was stored (with the
    signs of the shorts), and those for an inode in another slot of the block
    give what they gave before. *)
Theorem dinode_roundtrip (x ip : inode) (ino : Z) (d : list Z)
    (Hwf : inode_wf x) (Hino : 0 <= ino) (Hd : length d = Z.to_nat BSIZE) :
  exists d', put_dinode x (dip_off ino) d = Some d' /\ length d' = Z.to_nat BSIZE /\
    get_dinode (dip_off ino) d' ip = Some (with_disk_fields x ip) /\
    forall ino' ip', 0 <= ino' -> ino' mod IPB <> ino mod IPB ->
      get_dinode (dip_off ino') d' ip' = get_dinode (dip_off ino') d ip'.
Proof.
  pose proof (dip_off_range ino Hino) as Ho. pose proof (iw_len _ Hwf) as Ha.
  destruct (put_dinode_some x (dip_off ino) d Ha) as [d' Hp]; [rewrite Hd; exact Ho|]. exists d'.
  split_and!; [done|by rewrite (put_dinode_length _ _ _ _ Hp)|by eapply get_put_dinode|].
  intros ino' ip' Hi' Hne. apply get_dinode_ext. intros n p H1 H2.
  eapply put_dinode_other; [done..|]. revert H1 H2. unfold dip_off, sizeof_dinode, IPB in *.
  pose proof (Z.mod_pos_bound ino 8). pose proof (Z.mod_pos_bound ino' 8). lia.
Qed.

Definition demo_inode : inode :=
  Inode 1 9 1 (Sleeplock 0 false "inode" 0) 1 2 (-1) 7 1 6000 (seqZ 100 13).

Lemma dinode_roundtrip_witness :
  exists d', put_dinode demo_inode (dip_off 9) (replicate 512 255) = Some d' /\
    get_dinode (dip_off 9) d' demo_inode = Some demo_inode.
Proof.
  destruct (dinode_roundtrip demo_inode demo_inode 9 (replicate 512 255)) as (d' & H1 & _ & H2 & _).
  - split; try (unfold is_short; cbn; lia); [done|]. repeat constructor; lia.
  - lia.
  - done.
  - exists d'. split; [exact H1|exact H2].
Defined.
