(* ===== verification/FsTx.v ===== *)
(** * Inside a transaction

    Between [begin_op] and [end_op] the file system reads and writes blocks
    through the cache and the log.  [tx s st bs H k] is the state of the lower
    layers at such a time: the log at [st] holds the blocks [bs], the thread
    holds the buffers of the blocks [H], and [k] operations are running.  The
    lemmas give what [bread], a change of the data, [log_write] and [brelse] do
    to it and to the contents [vw s] of the blocks; nothing else changes. *)
From S2P Require Import Prelude Bytes Cstring Spinlock ProcDefs Memory Kalloc FsDefs.
From S2P Require Import Bio BioRing BioSpec BioOps BioSeq Log LogSpec LogCrash.
Local Open Scope Z_scope.
Local Open Scope kernel_scope.

Section FsTx.
Context {D : Type} `{!Driver D, !DriverSpec D}.
Implicit Types s : fsys D.
Implicit Types H : gset Z.

Record tx s (st : Z) (bs : list Z) H (k : Z) : Prop := {
  tx_idle : exists l, idle s l (list_to_set bs) H;
  tx_log : log_at s st bs;
  tx_quiet : quiet s k
}.

(** What limits a log, besides its content: its size and the running operations. *)
Definition log_limits (g : logst) : Z * Z := (lg_size g, outstanding g).

(** Only the cache, the recorded wakeups and the list of logged blocks differ. *)
Definition stays s s' : Prop :=
  s' = s <| wakes := wakes s' |> <| bufs := bufs s' |> <| lg := lg s' |> /\
  log_limits (lg s') = log_limits (lg s).

#[export] Instance stays_preorder : PreOrder stays.
Proof.
  split; [intros s; by destruct s|]. intros s1 s2 s3 [H1 E1] [H2 E2]. split; [|congruence].
  rewrite H2, H1. by destruct s1, s2, s3.
Qed.

Lemma below_stays s s' : below s s' -> disk s' = disk s -> stays s s'.
Proof.
  intros B Dk. split; [|by rewrite (below_lg _ _ B)]. rewrite B. rewrite Dk. by destruct s, s'.
Qed.

Lemma stays_disk s s' : stays s s' -> disk s' = disk s.
Proof. by intros [-> _]. Qed.
Lemma stays_inodes s s' : stays s s' -> inodes s' = inodes s.
Proof. by intros [-> _]. Qed.
Lemma stays_sb s s' : stays s s' -> sb s' = sb s.
Proof. by intros [-> _]. Qed.
Lemma stays_cur s s' : stays s s' -> cur s' = cur s.
Proof. by intros [-> _]. Qed.
Lemma stays_rng s s' n : stays s s' -> rng s n -> rng s' n.
Proof. intros Hs. unfold rng. by rewrite (stays_disk _ _ Hs). Qed.

(** A transaction is open, and there is room for [r] more blocks in its log and
    for the buffers of a thread. *)
Definition room s (bs : list Z) (r : nat) : Prop :=
  Z.of_nat (length bs + r) <= lg_size (lg s) - 1 <= Z.of_nat LOGSIZE - 1 /\ (length bs + r + 3 <= NBUF)%nat /\
  1 <= outstanding (lg s).

Lemma room_limits s s' bs r : log_limits (lg s') = log_limits (lg s) -> room s bs r -> room s' bs r.
Proof. intros [= H1 H2]. unfold room. by rewrite H1, H2. Qed.

Lemma room_stays s s' bs r : stays s s' -> room s bs r -> room s' bs r.
Proof. intros [_ H]. by apply room_limits. Qed.

Lemma log_add_length bs n : (length (log_add bs n) <= S (length bs))%nat.
Proof. unfold log_add. case_decide; rewrite ?length_app; simpl; lia. Qed.

Lemma log_add_in bs n : n ∈ log_add bs n.
Proof. unfold log_add. case_decide; set_solver. Qed.

Lemma log_add_incl bs n m : m ∈ bs -> m ∈ log_add bs n.
Proof. unfold log_add. case_decide; set_solver. Qed.

Lemma room_add s bs n r : room s bs (S r) -> room s (log_add bs n) r.
Proof. unfold room. pose proof (log_add_length bs n). lia. Qed.

Lemma log_add_ge bs n : (length bs <= length (log_add bs n))%nat.
Proof. unfold log_add. case_decide; rewrite ?length_app; simpl; lia. Qed.

Lemma room_sub s bs n r : room s (log_add bs n) r -> room s bs r.
Proof. unfold room. pose proof (log_add_ge bs n). lia. Qed.

Lemma room_le s bs r r' : (r' <= r)%nat -> room s bs r -> room s bs r'.
Proof. unfold room. lia. Qed.

(** ** The steps *)

Lemma tx_held s st bs H H' k l s' :
  tx s st bs H k -> idle s' l (list_to_set bs) H' -> below s s' -> disk s' = disk s -> tx s' st bs H' k.
Proof.
  intros [_ Hl Hq] Hi B Dk. split; [by exists l| |by unfold quiet; rewrite (below_lg _ _ B)].
  eapply log_at_below; [done..|by rewrite Dk].
Qed.

Lemma tx_bread s st bs H k n :
  tx s st bs H k -> n ∉ H -> rng s n -> (length bs + size H < NBUF)%nat ->
  exists i s', bread 1 n s = Ret i s' /\ tx s' st bs (H ∪ {[n]}) k /\ shows s' i n (vw s n) /\
    stays s s' /\ (forall m, vw s' m = vw s m) /\
    (forall j m d, m ∈ H -> shows s j m d -> shows s' j m d).
Proof.
  intros Htx Hn Hr Hsz. destruct (tx_idle _ _ _ _ _ Htx) as [l Hi].
  assert (Hs : (size (list_to_set bs ∪ H : gset Z) < NBUF)%nat).
  { eapply Nat.le_lt_trans; [|exact Hsz]. rewrite size_union_alt.
    pose proof (subseteq_size (H ∖ list_to_set bs) H ltac:(set_solver)).
    rewrite size_list_to_set by apply (la_nodup _ _ _ (tx_log _ _ _ _ _ Htx)). lia. }
  destruct (bread_seq s l (list_to_set bs) H n Hi Hn Hr (or_intror Hs))
    as (i & s' & E & Hi' & Sh & V & B & Dk & Fr).
  exists i, s'. split_and!; [done|by eapply tx_held|done|by apply below_stays|done|done].
Qed.

Lemma tx_clean s st bs H k n : tx s st bs H k -> n ∉ H -> n ∉ bs -> vw s n = dblock (disk s) n.
Proof.
  intros Htx HH Hb. destruct (tx_idle _ _ _ _ _ Htx) as [l Hi]. pose proof (id_ok _ _ _ _ Hi) as Hok.
  eapply vw_clean; [done|]. intros i b Hbuf [Hf1 Hf2]. split.
  - apply (bk_unref _ _ (bo_buf _ _ Hok i b Hbuf)). rewrite (id_ref _ _ _ _ Hi i b Hbuf).
    rewrite decide_False; [done|]. intros [_ ?]. congruence.
  - intros Hd%(id_pin _ _ _ _ Hi i b Hbuf). destruct Hd as [_ Hd]. apply elem_of_list_to_set in Hd. congruence.
Qed.

Lemma tx_set s st bs H k i n d f d' :
  tx s st bs H k -> n ∈ H -> shows s i n d -> f d = Some d' -> length d' = Z.to_nat BSIZE ->
  exists s', set_data i f s = Ret tt s' /\ tx s' st bs H k /\ shows s' i n d' /\ stays s s' /\
    (forall m, vw s' m = if m =? n then d' else vw s m) /\
    (forall j m e, j <> i -> shows s j m e -> shows s' j m e).
Proof.
  intros Htx Hn Hs Hf Hl. destruct (tx_idle _ _ _ _ _ Htx) as [l Hi].
  rewrite (set_data_run _ _ _ _ f d' Hs Hf).
  destruct (set_data_seq s l _ H i n d d' Hi Hn Hs Hl) as (s' & E & Hi' & Sh & V & B & Dk & Fr).
  exists s'. split_and!; [done|by eapply tx_held|done|by apply below_stays|done|done].
Qed.

Lemma tx_logw s st bs H k i n d :
  tx s st bs H k -> n ∈ H -> shows s i n d -> ~ in_log st n -> room s bs 1 ->
  exists s', log_write i s = Ret tt s' /\ tx s' st (log_add bs n) H k /\ shows s' i n d /\ stays s s' /\
    (forall m, vw s' m = vw s m) /\ (forall j m e, j <> i -> shows s j m e -> shows s' j m e).
Proof.
  intros [[l Hi] Hl (Hlk & Hc & Ho)] Hn Hs Hnl (Hr1 & Hr2 & Hr3).
  destruct (log_write_run s l _ H st bs i n d Hi Hl Hn Hs Hnl Hlk) as (s' & E & Hi' & Hl' & Sh & V & Fr & blk & Hs');
    [lia|lia|].
  exists s'. split_and!; [done| |done| |done|done].
  - split; [exists l; by rewrite log_add_set|done|]. rewrite Hs'. unfold quiet. cbn. done.
  - split; rewrite Hs'; by destruct s.
Qed.

Lemma tx_brelse s st bs H k i n d :
  tx s st bs H k -> n ∈ H -> shows s i n d -> (n ∈ bs \/ d = dblock (disk s) n) ->
  exists s', brelse i s = Ret tt s' /\ tx s' st bs (H ∖ {[n]}) k /\ stays s s' /\
    (forall m, vw s' m = vw s m) /\ (forall j m e, j <> i -> shows s j m e -> shows s' j m e).
Proof.
  intros Htx Hn Hs Hd. destruct (tx_idle _ _ _ _ _ Htx) as [l Hi].
  destruct (brelse_seq s l _ H i n d Hi Hn Hs) as (s' & l' & E & Hi' & V & B & Dk & Fr).
  { rewrite elem_of_list_to_set. done. }
  exists s'. split_and!; [done|by eapply tx_held|by apply below_stays|done|done].
Qed.

Lemma held_back H n : n ∉ H -> (H ∪ {[n]}) ∖ {[n]} = H.
Proof. set_solver. Qed.

(** A block that is not in the log is as on disk: its buffer can be given back. *)
Lemma tx_source s st bs H k n : tx s st bs H k -> n ∉ H -> n ∈ bs \/ vw s n = dblock (disk s) n.
Proof.
  intros Htx Hn. destruct (decide (n ∈ bs)); [by left|]. right. by eapply tx_clean.
Qed.

Lemma tx_vw_length s st bs H k n : tx s st bs H k -> rng s n -> length (vw s n) = Z.to_nat BSIZE.
Proof. intros [[l Hi] _ _] Hr. by eapply vw_length. Qed.

(** Modify a held buffer, log it and give it back. *)
Definition finish_block (i : nat) (f : list Z -> option (list Z)) : F D unit :=
  set_data i f;; log_write i;; brelse i.

Lemma finish_block_then {A} i f (K : F D A) s s' :
  finish_block i f s = Ret tt s' -> (set_data i f;; log_write i;; brelse i;; K) s = K s'.
Proof.
  unfold finish_block. intros (? & s1 & E1 & (? & s2 & E2 & E3)%bind_inv)%bind_inv.
  runs1 E1. runs1 E2. by runs1 E3.
Qed.

Lemma tx_finish s st bs H k i n d f d' :
  tx s st bs H k -> n ∈ H -> shows s i n d -> f d = Some d' -> length d' = Z.to_nat BSIZE ->
  ~ in_log st n -> room s bs 1 ->
  exists s', finish_block i f s = Ret tt s' /\
    tx s' st (log_add bs n) (H ∖ {[n]}) k /\ stays s s' /\
    (forall m, vw s' m = if m =? n then d' else vw s m) /\
    (forall j m e, j <> i -> shows s j m e -> shows s' j m e).
Proof.
  intros Htx Hn Hs Hf Hd Hnl Hr. unfold finish_block.
  destruct (tx_set _ _ _ _ _ _ _ _ f d' Htx Hn Hs Hf Hd) as (s1 & E1 & T1 & S1 & St1 & V1 & F1). runs1 E1.
  destruct (tx_logw _ _ _ _ _ _ _ _ T1 Hn S1 Hnl (room_stays _ _ _ _ St1 Hr)) as (s2 & E2 & T2 & S2 & St2 & V2 & F2).
  runs1 E2. destruct (tx_brelse _ _ _ _ _ _ _ _ T2 Hn S2 (or_introl (log_add_in bs n))) as (s3 & E3 & T3 & St3 & V3 & F3).
  exists s3. rewrite E3. split_and!; [done|done|by rewrite St1, St2, St3| |eauto].
  intros m. by rewrite V3, V2, V1.
Qed.

(** Read a block, modify it, log it and give it back. *)
Lemma tx_modify s st bs H k n f d' :
  tx s st bs H k -> n ∉ H -> rng s n -> (length bs + size H < NBUF)%nat -> f (vw s n) = Some d' ->
  length d' = Z.to_nat BSIZE -> ~ in_log st n -> room s bs 1 ->
  exists s', modify_block n f s = Ret tt s' /\ tx s' st (log_add bs n) H k /\ stays s s' /\
    (forall m, vw s' m = if m =? n then d' else vw s m) /\
    (forall j m e, m ∈ H -> shows s j m e -> shows s' j m e).
Proof.
  intros Htx Hn Hr Hsz Hf Hd Hnl Hro. unfold modify_block.
  destruct (tx_bread _ _ _ _ _ n Htx Hn Hr Hsz) as (i & s1 & E1 & T1 & S1 & St1 & V1 & F1). runs1 E1.
  destruct (tx_finish _ _ _ _ _ i n _ f d' T1 ltac:(set_solver) S1 Hf Hd Hnl (room_stays _ _ _ _ St1 Hro))
    as (s2 & E2 & T2 & St2 & V2 & F2).
  exists s2. fold (finish_block i f). rewrite E2. rewrite held_back in T2 by done.
  split_and!; [done|done|by rewrite St1, St2| |].
  - intros m. rewrite V2. destruct (m =? n); [done|apply V1].
  - intros j m e Hm He. apply F2; [|eauto]. apply not_eq_sym. eapply shows_ne; [exact S1|by eapply F1|].
    intros <-. done.
Qed.

(** Read a block and give it back. *)
Lemma tx_peek s st bs H k n :
  tx s st bs H k -> n ∉ H -> rng s n -> (length bs + size H < NBUF)%nat ->
  exists i s1 r s2, bread 1 n s = Ret i s1 /\ buf_at i s1 = Ret r s1 /\ bdata r = vw s n /\
    brelse i s1 = Ret tt s2 /\ stays s s1 /\ tx s2 st bs H k /\ stays s s2 /\ (forall m, vw s2 m = vw s m) /\
    (forall j m e, m ∈ H -> shows s j m e -> shows s2 j m e).
Proof.
  intros Htx Hn Hr Hsz. destruct (tx_bread _ _ _ _ _ n Htx Hn Hr Hsz) as (i & s1 & E1 & T1 & S1 & St1 & V1 & F1).
  destruct (shows_buf_at _ _ _ _ S1) as (r & Er & Hdr).
  destruct (tx_brelse s1 st bs (H ∪ {[n]}) k i n _ T1 ltac:(set_solver) S1) as (s2 & E2 & T2 & St2 & V2 & F2).
  { rewrite (stays_disk _ _ St1). by eapply tx_source. }
  rewrite held_back in T2 by done. exists i, s1, r, s2.
  split_and!; [done|done|done|done|done|done|by rewrite St1, St2|intros m; by rewrite V2, V1|].
  intros j m e Hmem Hsh. apply F2; [|by apply F1].
  eapply not_eq_sym, shows_ne; [exact S1|by apply F1|]. intros <-. done.
Qed.
End FsTx.
