(* ===== verification/FsBlocks.v ===== *)
(** * Allocating and freeing blocks

    The free map on disk as a set of used blocks: [used V x b] reads the bit of
    block [b] from block contents [V].  [balloc] returns the lowest free block
    with its bit set and its content zeroed, [bfree] clears the bit, and no
    other block changes. *)
From S2P Require Import Prelude Bytes Cstring Spinlock ProcDefs Memory Kalloc FsDefs.
From S2P Require Import Bio BioRing BioSpec BioOps BioSeq Log LogSpec LogCrash Fs FsTx.
Local Open Scope Z_scope.
Local Open Scope kernel_scope.

(** ** The free map *)

(** Bit [j] of a bitmap block. *)
Definition bit (data : list Z) (j : Z) : bool :=
  match data !! Z.to_nat (j / 8) with Some v => Z.testbit v (j mod 8) | None => true end.
Definition used (V : Z -> list Z) (x : superblock) (b : Z) : bool := bit (V (BBLOCK b x)) (b mod BPB).

(** Where the parts of a file system are: its blocks and its bitmap blocks and
    inode blocks are on the disk, and the latter two are outside of the log. *)
Record layout (x : superblock) (st size : Z) : Prop := {
  ly_size : 0 < sb_size x <= size;
  ly_disk : size < 2 ^ 32;
  ly_bmap : 0 <= sb_bmapstart x /\ sb_bmapstart x + (sb_size x - 1) / BPB < size;
  ly_bmap_log : forall b, 0 <= b < sb_size x -> ~ in_log st (BBLOCK b x);
  ly_ino : 0 < sb_inodestart x /\ 0 < sb_ninodes x < 2 ^ 31 /\
           sb_inodestart x + (sb_ninodes x - 1) / IPB < size;
  ly_ino_log : forall i, 0 <= i < sb_ninodes x -> ~ in_log st (IBLOCK i x);
  ly_apart : forall b i, 0 <= b < sb_size x -> 0 <= i < sb_ninodes x -> IBLOCK i x <> BBLOCK b x
}.

(** A block that can hold data. *)
Definition data_block (x : superblock) (st b : Z) : Prop :=
  0 <= b < sb_size x /\ ~ in_log st b /\
  (forall b', 0 <= b' < sb_size x -> BBLOCK b' x <> b) /\
  (forall i, 0 <= i < sb_ninodes x -> IBLOCK i x <> b).

(** ** Bits *)

Lemma bit_of_pow bi : 0 <= bi -> bit_of bi = 2 ^ (bi mod 8).
Proof. intros. unfold bit_of. rewrite Z.shiftl_1_l. done. Qed.

Lemma land_bit v bi : 0 <= bi -> (Z.land v (bit_of bi) =? 0) = negb (Z.testbit v (bi mod 8)).
Proof.
  intros Hb. rewrite bit_of_pow by done. pose proof (Z.mod_pos_bound bi 8).
  rewrite (Z.land_comm v). destruct (Z.testbit v (bi mod 8)) eqn:E; simpl.
  - apply Z.eqb_neq. intros H0. apply (f_equal (fun z => Z.testbit z (bi mod 8))) in H0.
    rewrite Z.land_spec, Z.pow2_bits_true, E, Z.bits_0 in H0 by lia. done.
  - apply Z.eqb_eq. apply Z.bits_inj'. intros k Hk. rewrite Z.land_spec, Z.bits_0, Z.pow2_bits_eqb by lia.
    destruct (Z.eqb_spec (bi mod 8) k) as [<-|]; [by rewrite E|done].
Qed.

Lemma u8_testbit z k : 0 <= k < 8 -> Z.testbit (u8 z) k = Z.testbit z k.
Proof. intros. unfold u8. rewrite Z.mod_pow2_bits_low; [done|lia]. Qed.

Lemma set_bit_testbit v bi k :
  0 <= bi -> 0 <= k < 8 ->
  Z.testbit (u8 (Z.lor v (bit_of bi))) k = Z.testbit v k || (bi mod 8 =? k).
Proof.
  intros Hb Hk. rewrite u8_testbit, Z.lor_spec by done. rewrite bit_of_pow by done.
  pose proof (Z.mod_pos_bound bi 8). by rewrite Z.pow2_bits_eqb by lia.
Qed.

Lemma clear_bit_testbit v bi k :
  0 <= bi -> 0 <= k < 8 ->
  Z.testbit (u8 (Z.land v (Z.lnot (bit_of bi)))) k = Z.testbit v k && negb (bi mod 8 =? k).
Proof.
  intros Hb Hk. rewrite u8_testbit, Z.land_spec, Z.lnot_spec by lia. rewrite bit_of_pow by done.
  pose proof (Z.mod_pos_bound bi 8). by rewrite Z.pow2_bits_eqb by lia.
Qed.

Lemma byte_lt j : 0 <= j < BPB -> (Z.to_nat (j / 8) < Z.to_nat BSIZE)%nat.
Proof. unfold BPB, BSIZE. intros. assert (j / 8 < 512) by (apply Z.div_lt_upper_bound; lia). lia. Qed.

Lemma byte_eq i j : 0 <= i -> 0 <= j -> Z.to_nat (i / 8) = Z.to_nat (j / 8) -> i / 8 = j / 8.
Proof. intros. apply Z2Nat.inj; [apply Z.div_pos; lia..|done]. Qed.

(** [set_byte] inside a bitmap block: bit [j] gets what [f] makes of it and the
    other bits stay. *)
Lemma set_byte_bits f g j data :
  length data = Z.to_nat BSIZE -> 0 <= j < BPB ->
  (forall v k, 0 <= k < 8 -> Z.testbit (u8 (f v)) k = if j mod 8 =? k then g (Z.testbit v k) else Z.testbit v k) ->
  exists data', set_byte j f data = Some data' /\ length data' = Z.to_nat BSIZE /\
    forall i, 0 <= i < BPB -> bit data' i = if i =? j then g (bit data i) else bit data i.
Proof.
  intros Hd Hj Hf. destruct (lookup_lt_is_Some_2 data (Z.to_nat (j / 8))) as [v Hv].
  { rewrite Hd. by apply byte_lt. }
  eexists. unfold set_byte. rewrite Hv. cbn. split_and!; [done|by rewrite length_insert|].
  intros i Hi. unfold bit. destruct (decide (Z.to_nat (i / 8) = Z.to_nat (j / 8))) as [E|E].
  - rewrite E, Hv, list_lookup_insert_eq by (by eapply lookup_lt_Some).
    apply byte_eq in E; [|lia..]. rewrite Hf by (apply Z.mod_pos_bound; lia).
    destruct (Z.eqb_spec (j mod 8) (i mod 8)), (Z.eqb_spec i j); try done; Z.div_mod_to_equations; lia.
  - rewrite list_lookup_insert_ne by done. destruct (Z.eqb_spec i j) as [->|]; done.
Qed.

Lemma set_bit_bits j data :
  length data = Z.to_nat BSIZE -> 0 <= j < BPB ->
  exists data', set_byte j (fun v => Z.lor v (bit_of j)) data = Some data' /\ length data' = Z.to_nat BSIZE /\
    forall i, 0 <= i < BPB -> bit data' i = if i =? j then true else bit data i.
Proof.
  intros Hd Hj. apply (set_byte_bits _ (fun _ => true)); [done..|]. intros v k Hk.
  rewrite set_bit_testbit by lia. destruct (_ =? k); [by rewrite orb_true_r|by rewrite orb_false_r].
Qed.

Lemma clear_bit_bits j data :
  length data = Z.to_nat BSIZE -> 0 <= j < BPB ->
  exists data', set_byte j (fun v => Z.land v (Z.lnot (bit_of j))) data = Some data' /\
    length data' = Z.to_nat BSIZE /\
    forall i, 0 <= i < BPB -> bit data' i = if i =? j then false else bit data i.
Proof.
  intros Hd Hj. apply (set_byte_bits _ (fun _ => false)); [done..|]. intros v k Hk.
  rewrite clear_bit_testbit by lia. destruct (_ =? k); [by rewrite andb_false_r|by rewrite andb_true_r].
Qed.

(** ** The search *)

(** [find_free] gives the lowest clear bit from [bi] on. *)
Lemma find_free_spec n data size b : forall bi,
  length data = Z.to_nat BSIZE -> 0 <= bi -> BPB - bi <= Z.of_nat n ->
  exists o, find_free n data size b bi = Some o /\
    match o with
    | Some j => bi <= j < BPB /\ b + j < size /\ bit data j = false /\ forall i, bi <= i < j -> bit data i = true
    | None => forall i, bi <= i < BPB -> b + i < size -> bit data i = true
    end.
Proof.
  induction n as [|n IH]; intros bi Hd Hbi Hn; cbn [find_free]; [exists None; split; [done|lia]|].
  destruct (Z.ltb_spec bi BPB), (Z.ltb_spec (b + bi) size); cbn [andb]; try (exists None; split; [done|lia]).
  destruct (lookup_lt_is_Some_2 data (Z.to_nat (bi / 8))) as [v Hv]; [rewrite Hd; by apply byte_lt|].
  rewrite Hv. cbn [mbind option_bind]. rewrite land_bit by done.
  assert (Hbit : bit data bi = Z.testbit v (bi mod 8)) by (unfold bit; by rewrite Hv).
  destruct (Z.testbit v (bi mod 8)) eqn:E; cbn [negb].
  - destruct (IH (bi + 1)) as (o & -> & Ho); [done|lia..|]. exists o. split; [done|]. destruct o as [j|].
    + destruct Ho as (H1 & H2 & H3 & H4). split_and!; [lia..|done|]. intros i Hi.
      destruct (decide (i = bi)) as [->|]; [done|]. apply H4. lia.
    + intros i Hi1 Hi2. destruct (decide (i = bi)) as [->|]; [done|]. apply Ho; lia.
  - exists (Some bi). split_and!; [done|lia..|done|lia].
Qed.

(** ** The operations *)
Section FsBlocks.
Context {D : Type} `{!Driver D, !DriverSpec D}.
Implicit Types s : fsys D.
Implicit Types H : gset Z.

Lemma BBLOCK_eq x st size b :
  layout x st size -> 0 <= b < sb_size x -> BBLOCK b x = b / BPB + sb_bmapstart x /\ 0 <= BBLOCK b x < size.
Proof.
  intros Hy Hb. destruct (ly_bmap _ _ _ Hy) as [H1 H2]. pose proof (ly_disk _ _ _ Hy).
  assert (0 <= b / BPB <= (sb_size x - 1) / BPB).
  { split; [apply Z.div_pos; unfold BPB, BSIZE; lia|]. apply Z.div_le_mono; [done|lia]. }
  unfold BBLOCK. rewrite u32_small by lia. split; [done|lia].
Qed.

(** The blocks of a bitmap block: [b] its first, [j] the index in it. *)
Lemma bmap_block x st size b j :
  layout x st size -> 0 <= b -> b mod BPB = 0 -> 0 <= j < BPB -> b + j < sb_size x ->
  BBLOCK (b + j) x = BBLOCK b x /\ (b + j) mod BPB = j.
Proof.
  intros Hy Hb Hm Hj Hs. destruct (BBLOCK_eq x st size (b + j) Hy) as [-> _]; [lia|].
  destruct (BBLOCK_eq x st size b Hy) as [-> _]; [lia|].
  apply Z.div_exact in Hm; [|done]. rewrite Hm. rewrite (Z.mul_comm BPB). split.
  - rewrite Z.div_add_l, (Z.div_small j) by lia. rewrite Z.div_mul by done. lia.
  - rewrite Z.add_comm, Z.mod_add by done. by apply Z.mod_small.
Qed.

Lemma bmap_index x st size b :
  layout x st size -> 0 <= b < sb_size x ->
  exists b1 j, b = b1 + j /\ 0 <= b1 /\ b1 mod BPB = 0 /\ 0 <= j < BPB.
Proof.
  intros Hy Hb. exists (BPB * (b / BPB)), (b mod BPB).
  pose proof (Z.mod_pos_bound b BPB). pose proof (Z.div_mod b BPB).
  pose proof (Z.div_pos b BPB). split_and!; try (unfold BPB, BSIZE in *; lia).
  rewrite Z.mul_comm. by apply Z.mod_mul.
Qed.

Lemma bzero_run s st bs H k n :
  tx s st bs H k -> n ∉ H -> rng s n -> (size H <= 1)%nat -> ~ in_log st n -> room s bs 1 ->
  exists s', bzero 1 n s = Ret tt s' /\ tx s' st (log_add bs n) H k /\ stays s s' /\
    (forall m, vw s' m = if m =? n then zeros (Z.to_nat BSIZE) else vw s m) /\
    (forall j m e, m ∈ H -> shows s j m e -> shows s' j m e).
Proof.
  intros Htx Hn Hr Hsz Hnl Hro. apply (tx_modify s st bs H k n); try done; [unfold room in Hro; lia|].
  pose proof (tx_vw_length _ _ _ _ _ _ Htx Hr) as Hl. unfold splice, zeros.
  rewrite length_replicate, Hl, decide_True by done. rewrite drop_ge by lia. by rewrite app_nil_r.
Qed.

(** The bitmap after one of its bits changed. *)
Lemma used_update V V' x st size b1 j (c : bool) :
  layout x st size -> 0 <= b1 -> b1 mod BPB = 0 -> 0 <= j < BPB -> b1 + j < sb_size x ->
  (forall m, m <> BBLOCK b1 x -> (exists b, 0 <= b < sb_size x /\ BBLOCK b x = m) -> V' m = V m) ->
  (forall i, 0 <= i < BPB -> bit (V' (BBLOCK b1 x)) i = if i =? j then c else bit (V (BBLOCK b1 x)) i) ->
  forall b, 0 <= b < sb_size x -> used V' x b = if b =? b1 + j then c else used V x b.
Proof.
  intros Hy Hb1 Hm Hj Hs Hoth Hbit b Hb. unfold used.
  destruct (bmap_index x st size b Hy Hb) as (b2 & i & -> & Hb2 & Hm2 & Hi).
  destruct (bmap_block x st size b2 i Hy Hb2 Hm2 Hi) as [-> ->]; [lia|].
  destruct (decide (b1 = b2)) as [<-|Hne].
  - rewrite Hbit by done. destruct (Z.eqb_spec i j), (Z.eqb_spec (b1 + i) (b1 + j)); lia || done.
  - assert (BBLOCK b2 x <> BBLOCK b1 x).
    { destruct (BBLOCK_eq x st size b2 Hy) as [-> _]; [lia|]. destruct (BBLOCK_eq x st size b1 Hy) as [-> _]; [lia|].
      apply Z.div_exact in Hm, Hm2; [|done..]. intros E. apply Hne. rewrite Hm, Hm2. f_equal. lia. }
    rewrite Hoth; [|done|exists b2; split; [lia|done]].
    destruct (Z.eqb_spec (b2 + i) (b1 + j)) as [E|]; [|done]. exfalso. apply Hne.
    apply Z.div_exact in Hm, Hm2; [|done..]. unfold BPB, BSIZE in *. lia.
Qed.

(** What [balloc] found and did. *)
Definition allocated s st bs H k (b : Z) (s' : fsys D) : Prop :=
  tx s' st (log_add (log_add bs (BBLOCK b (sb s))) b) H k /\ stays s s' /\
  (forall m, m <> b -> m <> BBLOCK b (sb s) -> vw s' m = vw s m) /\
  vw s' b = zeros (Z.to_nat BSIZE) /\
  (forall c, 0 <= c < sb_size (sb s) -> used (vw s') (sb s) c = if c =? b then true else used (vw s) (sb s) c) /\
  (forall j m e, m ∈ H -> shows s j m e -> shows s' j m e).

(** The state between two rounds of the search. *)
Lemma balloc_round s st bs H k b :
  tx s st bs H k -> layout (sb s) st (dsize (disk s)) -> (size H <= 1)%nat -> room s bs 1 ->
  (forall c, 0 <= c < sb_size (sb s) -> BBLOCK c (sb s) ∉ H) ->
  0 <= b < sb_size (sb s) -> b mod BPB = 0 ->
  exists i s1 r, bread 1 (BBLOCK b (sb s)) s = Ret i s1 /\ buf_at i s1 = Ret r s1 /\
    bdata r = vw s (BBLOCK b (sb s)) /\ length (bdata r) = Z.to_nat BSIZE /\
    tx s1 st bs (H ∪ {[BBLOCK b (sb s)]}) k /\ shows s1 i (BBLOCK b (sb s)) (bdata r) /\ stays s s1 /\
    (forall m, vw s1 m = vw s m) /\ (forall j m e, m ∈ H -> shows s j m e -> shows s1 j m e).
Proof.
  intros Htx Hy Hsz Hro HH Hb Hm. destruct (BBLOCK_eq _ _ _ _ Hy Hb) as [_ Hr].
  destruct (tx_bread s st bs H k (BBLOCK b (sb s)) Htx) as (i & s1 & E & T1 & S1 & St1 & V1 & F1);
    [by apply HH|done|unfold room in Hro; lia|].
  destruct (shows_buf_at _ _ _ _ S1) as (r & Er & Hdr). exists i, s1, r. rewrite Hdr.
  split_and!; try done. by eapply tx_vw_length.
Qed.

(** What the callers of [balloc] have to provide. *)
Record may_alloc s st bs H k : Prop := {
  ma_tx : tx s st bs H k;
  ma_layout : layout (sb s) st (dsize (disk s));
  ma_held : (size H <= 1)%nat;
  ma_room : forall c, 0 <= c < sb_size (sb s) -> room s (log_add bs (BBLOCK c (sb s))) 1;
  ma_apart : forall c, 0 <= c < sb_size (sb s) -> BBLOCK c (sb s) ∉ H
}.

(** A round that finds the free block [b + j]. *)
Lemma balloc_hit n s st bs H k b j :
  may_alloc s st bs H k -> 0 <= b -> b mod BPB = 0 -> 0 <= j < BPB -> b + j < sb_size (sb s) ->
  data_block (sb s) st (b + j) -> b + j ∉ H ->
  bit (vw s (BBLOCK b (sb s))) j = false -> (forall i, 0 <= i < j -> bit (vw s (BBLOCK b (sb s))) i = true) ->
  exists s', balloc_loop (S n) 1 b s = Ret (b + j) s' /\ allocated s st bs H k (b + j) s'.
Proof.
  intros [Htx Hy Hsz Hro HH] Hb Hm Hj Hs (_ & Hnl & Hnb & _) HjH Hfree Hlow. cbn [balloc_loop]. rewrite bind_gets.
  rewrite (proj2 (Z.ltb_lt b _)) by lia.
  assert (Hro1 : room s bs 1) by (by eapply room_sub, (Hro b); lia).
  destruct (balloc_round s st bs H k b) as (i & s1 & r & E & Er & Hdr & Hlr & T1 & S1 & St1 & V1 & F1); [done..|lia|done|].
  runs1 E. runs1 Er. rewrite Hdr in *.
  destruct (find_free_spec (Z.to_nat BPB) (vw s (BBLOCK b (sb s))) (sb_size (sb s)) b 0) as (o & -> & Ho);
    [done|lia|unfold BPB, BSIZE; lia|]. unfold orUndef. rewrite bind_deref. destruct o as [j'|]; [|by rewrite Ho in Hfree by lia].
  assert (j' = j) as ->.
  { destruct Ho as (H1 & H2 & H3 & H4). destruct (Z.lt_trichotomy j' j) as [Hlt|[->|Hlt]]; [|done|].
    - rewrite Hlow in H3 by lia. done.
    - rewrite H4 in Hfree by lia. done. }
  destruct (set_bit_bits j (vw s (BBLOCK b (sb s))) Hlr Hj) as (d' & Hset & Hld & Hbits).
  destruct (bmap_block _ _ _ b j Hy Hb Hm Hj Hs) as [Hbb _].
  destruct (tx_finish s1 st bs _ k i (BBLOCK b (sb s)) _ _ d' T1 ltac:(set_solver) S1 Hset Hld) as (s2 & E2 & T2 & St2 & V2 & F2).
  { apply (ly_bmap_log _ _ _ Hy). lia. } { by eapply room_stays. }
  rewrite (finish_block_then _ _ _ _ _ E2).
  rewrite held_back in T2 by (apply HH; lia).
  assert (St : stays s s2) by (by rewrite St1, St2).
  destruct (bzero_run s2 st _ H k (b + j) T2) as (s3 & E3 & T3 & St3 & V3 & F3); [done| |done|done| |].
  { unfold rng. rewrite (stays_disk _ _ St). pose proof (ly_size _ _ _ Hy). lia. }
  { eapply room_stays, Hro; [done|lia]. }
  runs1 E3. exists s3. split; [done|]. rewrite <-Hbb in *.
  assert (Hne : BBLOCK (b + j) (sb s) <> b + j) by (apply Hnb; lia).
  split_and!; [done|by rewrite St|..].
  - intros m H1 H2. rewrite V3, V2, (proj2 (Z.eqb_neq m _)), (proj2 (Z.eqb_neq m _)) by done. apply V1.
  - by rewrite V3, Z.eqb_refl.
  - apply (used_update _ _ _ st (dsize (disk s)) b j true Hy); [done..| |].
    + intros m Hm' (c & Hc & <-). rewrite V3, (proj2 (Z.eqb_neq _ (b + j))) by (by apply Hnb).
      rewrite V2, (proj2 (Z.eqb_neq _ (BBLOCK (b + j) (sb s)))) by congruence. apply V1.
    + intros c Hc. rewrite <-Hbb, V3, (proj2 (Z.eqb_neq _ (b + j))) by done. rewrite V2, Z.eqb_refl. by apply Hbits.
  - intros j' m e Hmem Hsh. apply F3; [done|]. apply F2; [|by apply F1].
    eapply not_eq_sym, shows_ne; [exact S1|by apply F1|]. intros <-. by eapply HH; [|exact Hmem]; lia.
Qed.

(** A round over a bitmap block without a free block. *)
Lemma balloc_skip n s st bs H k b :
  may_alloc s st bs H k -> 0 <= b < sb_size (sb s) -> b mod BPB = 0 ->
  (forall i, 0 <= i < BPB -> b + i < sb_size (sb s) -> bit (vw s (BBLOCK b (sb s))) i = true) ->
  exists s', balloc_loop (S n) 1 b s = balloc_loop n 1 (b + BPB) s' /\ tx s' st bs H k /\ stays s s' /\
    (forall m, vw s' m = vw s m) /\ (forall j m e, m ∈ H -> shows s j m e -> shows s' j m e).
Proof.
  intros [Htx Hy Hsz Hro HH] Hb Hm Hall. cbn [balloc_loop]. rewrite bind_gets.
  rewrite (proj2 (Z.ltb_lt b _)) by lia.
  destruct (BBLOCK_eq _ _ _ _ Hy Hb) as [_ Hr].
  destruct (tx_peek s st bs H k (BBLOCK b (sb s)) Htx) as (i & s1 & r & s2 & E & Er & Hdr & E2 & _ & T2 & St & V & F);
    [by apply HH|done|pose proof (room_sub _ _ _ _ (Hro b Hb)) as Hro1; unfold room in Hro1; lia|].
  runs1 E. runs1 Er. rewrite Hdr.
  destruct (find_free_spec (Z.to_nat BPB) (vw s (BBLOCK b (sb s))) (sb_size (sb s)) b 0) as (o & -> & Ho);
    [by eapply tx_vw_length|lia|unfold BPB, BSIZE; lia|]. unfold orUndef. rewrite bind_deref. destruct o as [j|].
  { destruct Ho as (H1 & H2 & H3 & _). by rewrite Hall in H3 by lia. }
  runs1 E2. by exists s2.
Qed.

Lemma may_alloc_stays s s' st bs H k :
  may_alloc s st bs H k -> tx s' st bs H k -> stays s s' -> may_alloc s' st bs H k.
Proof.
  intros [_ Hy Hsz Hro HH] Htx Hs. split; [done| |done| |];
    rewrite (stays_sb _ _ Hs), ?(stays_disk _ _ Hs); [done|intros c Hc; by eapply room_stays, Hro|done].
Qed.

Lemma used_ext V V' x b : (forall m, V' m = V m) -> used V' x b = used V x b.
Proof. intros E. unfold used. by rewrite E. Qed.

(** [b0] is the lowest free block from [b] on. *)
Definition first_free (V : Z -> list Z) (x : superblock) (b b0 : Z) : Prop :=
  b <= b0 < sb_size x /\ used V x b0 = false /\ forall c, b <= c < b0 -> used V x c = true.

Lemma balloc_loop_run n st bs H k b0 : forall s b,
  may_alloc s st bs H k -> 0 <= b -> b mod BPB = 0 -> first_free (vw s) (sb s) b b0 ->
  data_block (sb s) st b0 -> b0 ∉ H -> b0 - b < Z.of_nat n * BPB ->
  exists s', balloc_loop n 1 b s = Ret b0 s' /\ allocated s st bs H k b0 s'.
Proof.
  induction n as [|n IH]; intros s b Hma Hb Hm ((Hlo & Hhi) & Hfree & Hlow) Hdb HbH Hn; [lia|].
  pose proof (ma_layout _ _ _ _ _ Hma) as Hy.
  assert (Hbit : forall j, 0 <= j < BPB -> b + j < sb_size (sb s) ->
            bit (vw s (BBLOCK b (sb s))) j = used (vw s) (sb s) (b + j)).
  { intros j Hj Hs. unfold used. by destruct (bmap_block _ _ _ b j Hy Hb Hm Hj Hs) as [-> ->]. }
  destruct (Z.lt_ge_cases b0 (b + BPB)) as [Hin|Hout].
  - replace b0 with (b + (b0 - b)) in * by lia.
    apply balloc_hit; try done; try lia.
    + rewrite Hbit by lia. done.
    + intros i Hi. rewrite Hbit by lia. apply Hlow. lia.
  - destruct (balloc_skip n s st bs H k b Hma) as (s1 & -> & T1 & St & V & F); [lia|done| |].
    { intros i Hi Hs. rewrite Hbit by lia. apply Hlow. lia. }
    assert (Hsb := stays_sb _ _ St). destruct (IH s1 (b + BPB)) as (s' & E & T' & St' & Ho & Hz & Hu & F');
      rewrite ?Hsb.
    + by eapply may_alloc_stays.
    + unfold BPB, BSIZE. lia.
    + rewrite <-(Z.mul_1_l BPB) at 1. by rewrite Z.mod_add.
    + split_and!; [lia..|by rewrite (used_ext _ _ _ _ V)|]. intros c Hc. rewrite (used_ext _ _ _ _ V). apply Hlow. unfold BPB, BSIZE in *. lia.
    + done.
    + done.
    + lia.
    + exists s'. split; [done|]. rewrite Hsb in *. split_and!; [done|by rewrite St|..].
      * intros m H1 H2. by rewrite Ho.
      * done.
      * intros c Hc. by rewrite Hu, (used_ext _ _ _ _ V).
      * eauto.
Qed.

Lemma balloc_run s st bs H k b0 :
  may_alloc s st bs H k -> first_free (vw s) (sb s) 0 b0 -> data_block (sb s) st b0 -> b0 ∉ H ->
  exists s', balloc 1 s = Ret b0 s' /\ allocated s st bs H k b0 s'.
Proof.
  intros Hma Hf Hdb HbH. unfold balloc. rewrite bind_gets. apply balloc_loop_run; try done.
  destruct Hf as ((_ & Hhi) & _). pose proof (Z.div_mod (sb_size (sb s)) BPB). pose proof (Z.mod_pos_bound (sb_size (sb s)) BPB).
  pose proof (Z.div_pos (sb_size (sb s)) BPB). unfold BPB, BSIZE in *. lia.
Qed.

(** The search over a full file system ends in the panic. *)
Lemma balloc_loop_full n st bs H k : forall s b,
  may_alloc s st bs H k -> 0 <= b -> b mod BPB = 0 ->
  (forall c, b <= c < sb_size (sb s) -> used (vw s) (sb s) c = true) ->
  exists s', balloc_loop n 1 b s = Panic "balloc: out of blocks" s' /\ stays s s' /\ (forall m, vw s' m = vw s m).
Proof.
  induction n as [|n IH]; intros s b Hma Hb Hm Hall; [by exists s|].
  pose proof (ma_layout _ _ _ _ _ Hma) as Hy. destruct (Z.ltb_spec b (sb_size (sb s))) as [Hlt|Hge].
  - destruct (balloc_skip n s st bs H k b Hma) as (s1 & -> & T1 & St & V & F); [lia|done| |].
    { intros j Hj Hs. specialize (Hall (b + j) ltac:(lia)). unfold used in Hall.
      destruct (bmap_block _ _ _ b j Hy Hb Hm Hj Hs) as [E1 E2]. by rewrite E1, E2 in Hall. }
    destruct (IH s1 (b + BPB)) as (s' & E & St' & V').
    + by eapply may_alloc_stays.
    + unfold BPB, BSIZE. lia.
    + rewrite <-(Z.mul_1_l BPB) at 1. by rewrite Z.mod_add.
    + rewrite (stays_sb _ _ St). intros c Hc. rewrite (used_ext _ _ _ _ V). apply Hall. unfold BPB, BSIZE in *. lia.
    + exists s'. split_and!; [done|by rewrite St|intros m; by rewrite V'].
  - exists s. cbn [balloc_loop]. rewrite bind_gets, (proj2 (Z.ltb_ge b _)) by done. done.
Qed.
End FsBlocks.
