(* ===== verification/FsMap.v ===== *)
(** * The blocks of a file

    [block_of V ip bn] is the disk block that holds block [bn] of the file of
    inode [ip], read from the inode and its indirect block; 0 means none.
    [file_map] is the invariant of a file: its blocks are data blocks that are
    marked used, no two block numbers share one, and none is the indirect
    block.  [free_map] says that what is free can hold data.  The lemmas say
    how the invariants move through an allocation and through the three ways
    [bmap] records a new block. *)
From S2P Require Import Prelude Bytes Cstring Spinlock ProcDefs Memory Kalloc FsDefs.
From S2P Require Import Bio BioRing BioSpec BioOps BioSeq Log LogSpec LogCrash Fs FsTx FsBlocks.
Local Open Scope Z_scope.

Definition ind_slot : nat := Z.to_nat NDIRECT.
Definition ind_block (ip : inode) : Z := iaddrs ip !!! ind_slot.
(** ((uint* )bp->data)[j] *)
Definition ind_entry (d : list Z) (j : Z) : Z := default 0 (ld 4 (4 * Z.to_nat j) d).

Definition block_of (V : Z -> list Z) (ip : inode) (bn : Z) : Z :=
  if bn <? NDIRECT then iaddrs ip !!! Z.to_nat bn
  else if ind_block ip =? 0 then 0 else ind_entry (V (ind_block ip)) (bn - NDIRECT).

(** A block that belongs to some file. *)
Definition in_use (V : Z -> list Z) (x : superblock) (st b : Z) : Prop :=
  data_block x st b /\ used V x b = true.

Record file_map (V : Z -> list Z) (x : superblock) (st : Z) (ip : inode) : Prop := {
  fm_len : length (iaddrs ip) = S ind_slot;
  fm_dev : idev ip = 1;
  fm_ind : ind_block ip <> 0 -> in_use V x st (ind_block ip);
  fm_data : forall bn, 0 <= bn < MAXFILE -> block_of V ip bn <> 0 ->
    in_use V x st (block_of V ip bn) /\ block_of V ip bn <> ind_block ip;
  fm_inj : forall bn bm, 0 <= bn < MAXFILE -> 0 <= bm < MAXFILE -> block_of V ip bn <> 0 ->
    block_of V ip bn = block_of V ip bm -> bn = bm
}.

Definition free_map (V : Z -> list Z) (x : superblock) (st : Z) : Prop :=
  forall b, 0 <= b < sb_size x -> used V x b = false -> b <> 0 /\ data_block x st b.

(** How many blocks are free. *)
Definition nfree (V : Z -> list Z) (x : superblock) : nat :=
  length (filter (fun b => used V x b = false) (seqZ 0 (sb_size x))).

(** The contents after block [b] was allocated. *)
Record alloc_view (V V' : Z -> list Z) (x : superblock) (b : Z) : Prop := {
  av_free : 0 <= b < sb_size x /\ used V x b = false;
  av_zero : V' b = zeros (Z.to_nat BSIZE);
  av_other : forall m, m <> b -> m <> BBLOCK b x -> V' m = V m;
  av_used : forall c, 0 <= c < sb_size x -> used V' x c = if c =? b then true else used V x c
}.

(** ** Counting free blocks *)

Lemma filter_same {A} (P Q : A -> Prop) `{!forall x, Decision (P x), !forall x, Decision (Q x)} (l : list A) :
  (forall c, c ∈ l -> (Q c <-> P c)) -> filter Q l = filter P l.
Proof.
  induction l as [|a l IH]; intros Hl; [done|]. rewrite !filter_cons, IH by (intros; apply Hl; by right).
  destruct (Hl a ltac:(by left)) as [H1 H2]. destruct (decide (Q a)), (decide (P a)); naive_solver.
Qed.

Lemma filter_remove_one {A} `{!EqDecision A} (P Q : A -> Prop) `{!forall x, Decision (P x), !forall x, Decision (Q x)} (l : list A) b :
  NoDup l -> b ∈ l -> P b -> ~ Q b -> (forall c, c ∈ l -> c <> b -> (Q c <-> P c)) ->
  S (length (filter Q l)) = length (filter P l).
Proof.
  induction 1 as [|a l Ha Hl IH]; intros Hb HP HQ Heq; [set_solver|].
  rewrite !filter_cons. destruct (decide (a = b)) as [->|Hne].
  - rewrite decide_False by done. rewrite decide_True by done. cbn. f_equal. f_equal.
    apply filter_same. intros c Hc. apply Heq; [by right|]. intros ->. done.
  - assert (Hb' : b ∈ l) by set_solver. specialize (IH Hb' HP HQ ltac:(intros; apply Heq; [by right|done])).
    destruct (decide (P a)) as [Hp|Hp].
    + rewrite decide_True by (apply Heq; [by left|done|done]). cbn. by rewrite IH.
    + rewrite decide_False; [done|]. intros Hq. apply Hp, Heq; [by left|done|done].
Qed.

Lemma nfree_alloc V V' x b : alloc_view V V' x b -> S (nfree V' x) = nfree V x.
Proof.
  intros [[Hr Hf] _ _ Hu]. unfold nfree. apply (filter_remove_one _ _ _ b).
  - apply NoDup_seqZ.
  - by apply elem_of_seqZ.
  - done.
  - rewrite Hu by done. by rewrite Z.eqb_refl.
  - intros c Hc%elem_of_seqZ Hne. rewrite Hu by lia. by rewrite (proj2 (Z.eqb_neq c b)).
Qed.


Lemma least_false (f : Z -> bool) b :
  0 <= b -> f b = false -> exists b0, 0 <= b0 <= b /\ f b0 = false /\ forall c, 0 <= c < b0 -> f c = true.
Proof.
  intros Hb. revert Hb. revert b. refine (Zlt_0_ind _ _). intros b IH Hb Hf.
  destruct (decide (Exists (fun c => f c = false) (seqZ 0 b))) as [H|H].
  - apply Exists_exists in H as (c & Hc%elem_of_seqZ & Hfc).
    destruct (IH c ltac:(lia) Hfc) as (b0 & H1 & H2 & H3). exists b0. split_and!; [lia..|done|done].
  - exists b. split_and!; [lia..|done|]. intros c Hc. destruct (f c) eqn:E; [done|]. exfalso.
    apply H, Exists_exists. exists c. split; [apply elem_of_seqZ; lia|done].
Qed.

Lemma nfree_first V x : (0 < nfree V x)%nat -> exists b, first_free V x 0 b.
Proof.
  unfold nfree. intros Hn. destruct (filter _ _) as [|b l] eqn:E; [simpl in Hn; lia|].
  assert (Hb : b ∈ filter (fun b => used V x b = false) (seqZ 0 (sb_size x))) by (rewrite E; by left).
  apply list_elem_of_filter in Hb as [Hf Hb%elem_of_seqZ].
  destruct (least_false (used V x) b) as (b0 & H1 & H2 & H3); [lia|done|]. exists b0. split_and!; [lia..|done|done].
Qed.

(** ** The invariants *)

Lemma in_use_other V V' x st b b0 : alloc_view V V' x b0 -> in_use V x st b -> b <> b0 /\ V' b = V b /\ in_use V' x st b.
Proof.
  intros [[Hr Hf] _ Ho Hu] [Hd Hub]. assert (Hne : b <> b0) by (intros ->; congruence).
  pose proof Hd as (Hb & Hnl & Hnb & Hni). split_and!; [done| |split; [done|]].
  - apply Ho; [done|]. apply not_eq_sym, Hnb. done.
  - rewrite Hu by done. by rewrite (proj2 (Z.eqb_neq _ _)).
Qed.

Lemma block_of_same V V' ip bn :
  (ind_block ip <> 0 -> V' (ind_block ip) = V (ind_block ip)) -> block_of V' ip bn = block_of V ip bn.
Proof. intros H. unfold block_of. case_match; [done|]. destruct (Z.eqb_spec (ind_block ip) 0); [done|]. by rewrite H. Qed.

Lemma file_map_same V V' x st ip :
  file_map V x st ip -> (forall c, in_use V x st c -> in_use V' x st c) ->
  (ind_block ip <> 0 -> V' (ind_block ip) = V (ind_block ip)) -> file_map V' x st ip.
Proof.
  intros [Hl Hdev Hi Hd Hj] Hu Hv.
  assert (E : forall bn, block_of V' ip bn = block_of V ip bn) by (intros; by apply block_of_same).
  split; [done|done|auto|..].
  - intros bn Hbn. rewrite E. intros H0. destruct (Hd bn Hbn H0). auto.
  - intros bn bm. rewrite !E. auto.
Qed.

Lemma file_map_alloc V V' x st ip b : alloc_view V V' x b -> file_map V x st ip ->
  file_map V' x st ip /\ (forall bn, block_of V' ip bn = block_of V ip bn).
Proof.
  intros Ha Hf. assert (Hi : ind_block ip <> 0 -> V' (ind_block ip) = V (ind_block ip)).
  { intros H0. eapply in_use_other; [done|]. by apply (fm_ind _ _ _ _ Hf). }
  split; [|intros; by apply block_of_same].
  eapply file_map_same; [done| |done]. intros c Hc. by eapply in_use_other.
Qed.

Lemma free_map_alloc V V' x st b : alloc_view V V' x b -> free_map V x st -> free_map V' x st.
Proof.
  intros Ha Hf c Hc. rewrite (av_used _ _ _ _ Ha) by done. case_match; [done|]. by apply Hf.
Qed.

(** A block none of the file's. *)
Definition fresh (V : Z -> list Z) (ip : inode) (b : Z) : Prop :=
  b <> 0 /\ b <> ind_block ip /\ forall bn, 0 <= bn < MAXFILE -> block_of V ip bn <> b.

Lemma fresh_free V x st ip b : file_map V x st ip -> used V x b = false -> b <> 0 -> fresh V ip b.
Proof.
  intros Hf Hu H0. split_and!; [done|..].
  - intros E. subst b. destruct (fm_ind _ _ _ _ Hf H0). congruence.
  - intros bn Hbn E. destruct (fm_data _ _ _ _ Hf bn Hbn) as [[_ ?] _]; congruence.
Qed.

(** The file with block [b] as its block [bn]. *)
Lemma file_map_add V V' x st ip ip' bn b :
  file_map V x st ip -> 0 <= bn < MAXFILE -> fresh V ip b -> in_use V x st b ->
  (forall c, in_use V x st c -> in_use V' x st c) ->
  length (iaddrs ip') = S ind_slot -> idev ip' = 1 -> ind_block ip' = ind_block ip ->
  (forall bm, 0 <= bm < MAXFILE -> block_of V' ip' bm = if bm =? bn then b else block_of V ip bm) ->
  file_map V' x st ip'.
Proof.
  intros [Hl Hdev Hi Hd Hj] Hbn (H0 & Hni & Hfr) Hub Hu Hl' Hdev' Hi' Hblk. split; [done|done|..].
  - rewrite Hi'. auto.
  - intros bm Hbm. rewrite Hblk, Hi' by done. case_match; [auto|]. intros Hm. destruct (Hd bm Hbm Hm). auto.
  - intros b1 b2 H1 H2. rewrite !Hblk by done.
    destruct (Z.eqb_spec b1 bn) as [->|], (Z.eqb_spec b2 bn) as [->|]; try done.
    + intros _ E. by destruct (Hfr b2 H2).
    + intros _ E. by destruct (Hfr b1 H1).
    + auto.
Qed.

Definition set_addr (k : nat) (b : Z) (ip : inode) : inode := ip <| iaddrs ::= <[k := b]> |>.

(** ip->addrs[bn] = b *)
Lemma add_direct V x st ip bn b :
  file_map V x st ip -> 0 <= bn < NDIRECT -> fresh V ip b -> in_use V x st b ->
  let ip' := set_addr (Z.to_nat bn) b ip in
  file_map V x st ip' /\ ind_block ip' = ind_block ip /\
  (forall bm, 0 <= bm < MAXFILE -> block_of V ip' bm = if bm =? bn then b else block_of V ip bm).
Proof.
  intros Hf Hbn Hfr Hub ip'. pose proof (fm_len _ _ _ _ Hf) as Hl.
  assert (Hi : ind_block ip' = ind_block ip).
  { unfold ind_block. cbn. apply list_lookup_total_insert_ne. unfold ind_slot, NDIRECT in *. lia. }
  assert (Hb : forall bm, 0 <= bm < MAXFILE -> block_of V ip' bm = if bm =? bn then b else block_of V ip bm).
  { intros bm Hbm. unfold block_of. rewrite Hi. destruct (Z.ltb_spec bm NDIRECT) as [Hlt|Hge].
    - cbn. destruct (Z.eqb_spec bm bn) as [->|Hne].
      + apply list_lookup_total_insert_eq. rewrite Hl. unfold ind_slot. lia.
      + apply list_lookup_total_insert_ne. lia.
    - by rewrite (proj2 (Z.eqb_neq bm bn)) by lia. }
  split_and!; [|done|done]. eapply (file_map_add V V x st ip ip' bn b); try done.
  - unfold MAXFILE, NINDIRECT, NDIRECT in *. lia.
  - cbn. by rewrite length_insert.
  - apply (fm_dev _ _ _ _ Hf).
Qed.

Lemma le_value_zeros n : le_value (zeros n) = 0.
Proof. induction n as [|n IH]; [done|]. unfold zeros in *. cbn. by rewrite IH. Qed.

Lemma ind_entry_zeros j : ind_entry (zeros (Z.to_nat BSIZE)) j = 0.
Proof.
  unfold ind_entry, ld, sub. case_decide; [|done]. cbn [fmap option_fmap option_map default].
  unfold zeros. rewrite drop_replicate, take_replicate. apply le_value_zeros.
Qed.

(** ip->addrs[NDIRECT] = b, with block [b] zeroed *)
Lemma add_indirect V x st ip b :
  file_map V x st ip -> ind_block ip = 0 -> fresh V ip b -> in_use V x st b -> V b = zeros (Z.to_nat BSIZE) ->
  let ip' := set_addr ind_slot b ip in
  file_map V x st ip' /\ ind_block ip' = b /\ (forall bm, block_of V ip' bm = block_of V ip bm).
Proof.
  intros Hf Hi0 (H0 & _ & Hfr) Hub Hz ip'. pose proof (fm_len _ _ _ _ Hf) as Hl.
  assert (Hi : ind_block ip' = b) by (apply list_lookup_total_insert_eq; lia).
  assert (Hb : forall bm, block_of V ip' bm = block_of V ip bm).
  { intros bm. unfold block_of. rewrite Hi, Hi0, Z.eqb_refl. destruct (Z.ltb_spec bm NDIRECT).
    - cbn. apply list_lookup_total_insert_ne. unfold ind_slot, NDIRECT in *. lia.
    - rewrite Hz, ind_entry_zeros. by destruct (b =? 0). }
  split_and!; [|done|done]. destruct Hf as [_ Hdev _ Hd Hj]. split.
  - cbn. by rewrite length_insert.
  - done.
  - by rewrite Hi.
  - intros bm Hbm. rewrite Hb, Hi. intros Hm. split; [by apply Hd|by apply Hfr].
  - intros b1 b2. rewrite !Hb. apply Hj.
Qed.

Lemma ind_entry_st d d' j b k :
  Bytes.st 4 (4 * Z.to_nat j) b d = Some d' -> 0 <= b < 2 ^ 32 -> 0 <= j -> 0 <= k ->
  ind_entry d' k = if k =? j then b else ind_entry d k.
Proof.
  intros Hst Hb Hj Hk. unfold ind_entry. destruct (Z.eqb_spec k j) as [->|Hne].
  - rewrite (ld_st_same _ _ _ _ _ Hst). cbn [default]. by apply Z.mod_small.
  - rewrite (ld_st_other _ _ _ _ _ _ _ Hst); [done|]. lia.
Qed.

(** a[bn - NDIRECT] = b in the indirect block *)
Lemma add_entry V V' x st ip bn b d :
  file_map V x st ip -> NDIRECT <= bn < MAXFILE -> ind_block ip <> 0 -> fresh V ip b -> in_use V x st b ->
  0 <= b < 2 ^ 32 -> Bytes.st 4 (4 * Z.to_nat (bn - NDIRECT)) b (V (ind_block ip)) = Some d ->
  (forall m, V' m = if m =? ind_block ip then d else V m) ->
  file_map V' x st ip /\ (forall c, 0 <= c < sb_size x -> used V' x c = used V x c) /\
  (forall bm, 0 <= bm < MAXFILE -> block_of V' ip bm = if bm =? bn then b else block_of V ip bm).
Proof.
  intros Hf Hbn Hi0 Hfr Hub Hb Hst HV. destruct (fm_ind _ _ _ _ Hf Hi0) as [(_ & _ & Hnb & _) _].
  assert (Hu : forall c, 0 <= c < sb_size x -> used V' x c = used V x c).
  { intros c Hc. unfold used. rewrite HV. by rewrite (proj2 (Z.eqb_neq _ _)) by (by apply Hnb). }
  assert (Hblk : forall bm, 0 <= bm < MAXFILE -> block_of V' ip bm = if bm =? bn then b else block_of V ip bm).
  { intros bm Hbm. unfold block_of. destruct (Z.ltb_spec bm NDIRECT).
    - by rewrite (proj2 (Z.eqb_neq bm bn)) by lia.
    - rewrite (proj2 (Z.eqb_neq (ind_block ip) 0)) by done. rewrite HV, Z.eqb_refl.
      rewrite (ind_entry_st _ _ _ _ _ Hst) by lia.
      destruct (Z.eqb_spec (bm - NDIRECT) (bn - NDIRECT)), (Z.eqb_spec bm bn); lia || done. }
  split_and!; [|done|done]. eapply (file_map_add V V' x st ip ip bn b); try done.
  - unfold NDIRECT in *. lia.
  - intros c [Hd Hc]. split; [done|]. rewrite Hu; [done|apply Hd].
  - apply Hf.
  - apply Hf.
Qed.
