(* ===== verification/FsFile.v ===== *)
(** * Reading and writing a file

    [bmap], [readi] and [writei] on a file in a transaction: the bytes a write
    puts into a file are the bytes a read gets, other files and the rest of
    this one keep theirs, and the number of blocks that a call adds to the log
    is bounded. *)
From Stdlib Require Import FunctionalExtensionality.
From S2P Require Import Prelude Bytes Cstring Spinlock ProcDefs Memory Kalloc FsDefs.
From S2P Require Import Bio BioRing BioSpec BioOps BioSeq Log LogSpec LogCrash Fs FsTx FsBlocks FsMap.
Local Open Scope Z_scope.
Local Open Scope kernel_scope.

Section FsFile.
Context {D : Type} `{!Driver D, !DriverSpec D}.
Implicit Types s : fsys D.
Implicit Types H : gset Z.

(** The bitmap block of a file system of at most [BPB] blocks. *)
Definition the_bitmap s : Z := BBLOCK 0 (sb s).

(** The thread works on inode [i] in a transaction, holding the buffers of [H]. *)
Record working s st bs H k (i : nat) (ip : inode) : Prop := {
  wk_tx : tx s st bs H k;
  wk_layout : layout (sb s) st (dsize (disk s));
  wk_one : sb_size (sb s) <= BPB;
  wk_free : free_map (vw s) (sb s) st;
  wk_ino : inodes s !! i = Some ip;
  wk_map : file_map (vw s) (sb s) st ip
}.

Lemma BBLOCK_one s st b :
  layout (sb s) st (dsize (disk s)) -> sb_size (sb s) <= BPB -> 0 <= b < sb_size (sb s) ->
  BBLOCK b (sb s) = the_bitmap s.
Proof.
  intros Hy Ho Hb. unfold the_bitmap. destruct (BBLOCK_eq _ _ _ b Hy Hb) as [-> _].
  destruct (BBLOCK_eq _ _ _ 0 Hy) as [-> _]; [lia|]. by rewrite !Z.div_small by lia.
Qed.

(** ** The blocks that are still to be logged *)

Definition missing (bs : list Z) (n : Z) : nat := if decide (n ∈ bs) then 0 else 1.

(** The bitmap and the indirect block, when they are not in the log yet. *)
Definition pot s (bs : list Z) (ip : inode) : nat :=
  (missing bs (the_bitmap s) + (if decide (ind_block ip = 0%Z) then 1 else missing bs (ind_block ip)))%nat.

Lemma length_log_add bs n : length (log_add bs n) = (length bs + missing bs n)%nat.
Proof. unfold log_add, missing. case_decide; rewrite ?length_app; simpl; lia. Qed.

Lemma missing_add bs n m : missing (log_add bs n) m = if decide (n = m) then 0%nat else missing bs m.
Proof.
  unfold missing. case_decide as H1; case_decide as H2; try case_decide as H3; try done.
  - exfalso. apply H3. revert H1. unfold log_add. case_decide; set_solver.
  - subst. by destruct H1; apply log_add_in.
  - by destruct H1; apply log_add_incl.
Qed.

Lemma missing_le bs n : (missing bs n <= 1)%nat.
Proof. unfold missing. case_decide; lia. Qed.

(** ** Allocating a block for a file *)

Lemma balloc_step s st bs H k i ip :
  working s st bs H k i ip -> H ⊆ {[ind_block ip]} -> (H <> ∅ -> ind_block ip <> 0) ->
  room s (log_add bs (the_bitmap s)) 1 -> (0 < nfree (vw s) (sb s))%nat ->
  exists b s', balloc 1 s = Ret b s' /\ working s' st (log_add (log_add bs (the_bitmap s)) b) H k i ip /\
    alloc_view (vw s) (vw s') (sb s) b /\ fresh (vw s) ip b /\ in_use (vw s') (sb s) st b /\ stays s s' /\
    (forall j m e, m ∈ H -> shows s j m e -> shows s' j m e).
Proof.
  intros [Htx Hy Ho Hfr Hino Hmap] HH Hind Hro Hn.
  destruct (nfree_first _ _ Hn) as (b & Hff). pose proof Hff as (Hb & Hub & _).
  destruct (Hfr b Hb Hub) as [H0 Hdb]. pose proof (fresh_free _ _ _ _ _ Hmap Hub H0) as Hfresh.
  assert (HbH : forall c, c ∈ H -> c = ind_block ip /\ in_use (vw s) (sb s) st c).
  { intros c Hc. assert (c = ind_block ip) as -> by set_solver. split; [done|].
    apply (fm_ind _ _ _ _ Hmap), Hind. set_solver. }
  assert (Hma : may_alloc s st bs H k).
  { split; [done|done| | |].
    - rewrite <-(size_singleton (C := gset Z) (ind_block ip)). by apply subseteq_size.
    - intros c Hc. by rewrite (BBLOCK_one _ _ _ Hy Ho Hc).
    - intros c Hc HcH. destruct (HbH _ HcH) as [_ [(_ & _ & Hnb & _) _]]. by eapply Hnb. }
  destruct (balloc_run s st bs H k b Hma Hff Hdb) as (s' & E & T' & St & Hoth & Hz & Hu & F').
  { intros HbH'. destruct (HbH _ HbH') as [-> [_ ?]]. congruence. }
  assert (Hav : alloc_view (vw s) (vw s') (sb s) b) by (split; done).
  exists b, s'. rewrite (BBLOCK_one _ _ _ Hy Ho Hb) in T'. split_and!; try done.
  - split; rewrite ?(stays_sb _ _ St), ?(stays_disk _ _ St); try done.
    + by eapply free_map_alloc.
    + by rewrite (stays_inodes _ _ St).
    + by eapply file_map_alloc.
  - split; [done|]. rewrite Hu by done. by rewrite Z.eqb_refl.
Qed.

(** ** bmap *)

(** Only inode [i] differs, besides the cache and the log. *)
Definition istays (i : nat) s s' : Prop :=
  s' = s <| wakes := wakes s' |> <| bufs := bufs s' |> <| lg := lg s' |> <| inodes := inodes s' |> /\
  log_limits (lg s') = log_limits (lg s) /\ forall j, j <> i -> inodes s' !! j = inodes s !! j.

#[export] Instance istays_preorder i : PreOrder (istays i).
Proof.
  split; [intros s; by destruct s|]. intros s1 s2 s3 (H1 & E1 & N1) (H2 & E2 & N2). split_and!.
  - rewrite H2, H1. by destruct s1, s2, s3.
  - congruence.
  - intros j Hj. by rewrite N2, N1.
Qed.

Lemma stays_istays i s s' : stays s s' -> istays i s s'.
Proof. intros [Hs Hl]. split_and!; [rewrite Hs; by destruct s|done|intros; by rewrite Hs]. Qed.

Lemma istays_sb i s s' : istays i s s' -> sb s' = sb s.
Proof. by intros [-> _]. Qed.
Lemma istays_disk i s s' : istays i s s' -> disk s' = disk s.
Proof. by intros [-> _]. Qed.
Lemma istays_bitmap i s s' : istays i s s' -> the_bitmap s' = the_bitmap s.
Proof. unfold the_bitmap. intros Hs. by rewrite (istays_sb _ _ _ Hs). Qed.
Lemma room_istays i s s' bs r : istays i s s' -> room s bs r -> room s' bs r.
Proof. intros (_ & Hs & _). by apply room_limits. Qed.

(** What a step of a writer may change of the blocks: the bitmap, the indirect
    block and what was free. *)
Definition kept s (ip : inode) (m : Z) : Prop :=
  m <> the_bitmap s /\ m <> ind_block ip /\ (0 <= m < sb_size (sb s) -> used (vw s) (sb s) m = true).

(** A step of a writer on the file of [ip]: it took at most [nf] free blocks, the
    log grew by at most [c] blocks besides the bitmap and the indirect block,
    and of the blocks that the file has it wrote those with a number in [W]. *)
Record grown s (bs : list Z) (i : nat) (ip : inode) (s' : fsys D) (bs' : list Z) (ip' : inode)
    (nf c : nat) (W : Z -> Prop) : Prop := {
  gr_stays : istays i s s';
  gr_inode : ip' = ip <| iaddrs := iaddrs ip' |>;
  gr_ind : ind_block ip' = ind_block ip \/
           ind_block ip = 0 /\ 0 <= ind_block ip' < sb_size (sb s) /\ used (vw s) (sb s) (ind_block ip') = false;
  gr_mono : forall bn, 0 <= bn < MAXFILE -> block_of (vw s) ip bn <> 0 ->
            block_of (vw s') ip' bn = block_of (vw s) ip bn;
  gr_kept : forall m, kept s ip m ->
            (forall bn, W bn -> 0 <= bn < MAXFILE -> block_of (vw s') ip' bn = m -> m = 0) -> vw s' m = vw s m;
  gr_used : forall b, 0 <= b < sb_size (sb s) -> used (vw s) (sb s) b = true -> used (vw s') (sb s) b = true;
  gr_nfree : (nfree (vw s) (sb s) <= nfree (vw s') (sb s) + nf)%nat;
  gr_cost : (length bs' + pot s' bs' ip' <= length bs + pot s bs ip + c)%nat;
  gr_logs : forall m, m ∈ bs -> m ∈ bs'
}.

Lemma kept_grown s bs i ip s' bs' ip' nf c W m : grown s bs i ip s' bs' ip' nf c W -> kept s ip m -> kept s' ip' m.
Proof.
  intros Hg (H1 & H2 & H3). pose proof (gr_stays _ _ _ _ _ _ _ _ _ _ Hg) as St. split_and!.
  - by rewrite (istays_bitmap _ _ _ St).
  - destruct (gr_ind _ _ _ _ _ _ _ _ _ _ Hg) as [->|(_ & Hr & Hu)]; [done|]. intros ->. by rewrite H3 in Hu.
  - rewrite (istays_sb _ _ _ St). intros Hm. by apply (gr_used _ _ _ _ _ _ _ _ _ _ Hg); auto.
Qed.

Lemma grown_trans s bs i ip s1 bs1 ip1 s2 bs2 ip2 n1 n2 c1 c2 W :
  grown s bs i ip s1 bs1 ip1 n1 c1 W -> grown s1 bs1 i ip1 s2 bs2 ip2 n2 c2 W ->
  grown s bs i ip s2 bs2 ip2 (n1 + n2) (c1 + c2) W.
Proof.
  intros G1 G2. pose proof (istays_sb _ _ _ (gr_stays _ _ _ _ _ _ _ _ _ _ G1)) as Hsb.
  pose proof (kept_grown s bs i ip s1 bs1 ip1 n1 c1 W) as Hk. specialize (fun m => Hk m G1).
  destruct G1 as [St1 I1 D1 M1 K1 U1 N1 C1 L1], G2 as [St2 I2 D2 M2 K2 U2 N2 C2 L2].
  rewrite Hsb in *. split.
  - by rewrite St1.
  - rewrite I2, I1. by destruct ip.
  - destruct D1 as [D1|(Z1 & R1 & F1)].
    + destruct D2 as [D2|(Z2 & R2 & F2)]; [left; congruence|]. right. split_and!; [congruence|lia..|].
      destruct (used (vw s) (sb s) (ind_block ip2)) eqn:E; [|done]. by rewrite U1 in F2.
    + right. destruct D2 as [->|(Z2 & R2 & F2)]; [done|]. split_and!; [done|lia..|].
      destruct (used (vw s) (sb s) (ind_block ip2)) eqn:E; [|done]. by rewrite U1 in F2.
  - intros bn Hbn H0. by rewrite M2, M1 by (rewrite ?M1; done).
  - intros m Hm HW. rewrite K2, K1; [done|done| |by apply Hk|done].
    intros bn Hw Hbn Hb. destruct (decide (m = 0)) as [|H0]; [done|]. apply (HW bn); [done..|].
    rewrite M2; [done|done|congruence].
  - auto.
  - lia.
  - lia.
  - auto.
Qed.

Lemma grown_le s bs i ip s' bs' ip' n c n' c' W :
  grown s bs i ip s' bs' ip' n c (fun _ => False) -> (n <= n')%nat -> (c <= c')%nat ->
  grown s bs i ip s' bs' ip' n' c' W.
Proof. intros [] ? ?. split; try done; [naive_solver|lia..]. Qed.

Lemma grown_sub s bs i ip s' bs' ip' n c n' c' W :
  grown s bs i ip s' bs' ip' n c W -> (n <= n')%nat -> (c <= c')%nat -> grown s bs i ip s' bs' ip' n' c' W.
Proof. intros [] ? ?. split; try done; lia. Qed.

Lemma grown_any s bs i ip s' bs' ip' n c W :
  grown s bs i ip s' bs' ip' n c W -> grown s bs i ip s' bs' ip' n c (fun _ => True).
Proof. intros []. split; try done. naive_solver. Qed.

Lemma pot_stays s s' bs ip : stays s s' -> pot s' bs ip = pot s bs ip.
Proof. intros St. unfold pot, the_bitmap. by rewrite (stays_sb _ _ St). Qed.

(** Nothing changed that a reader can see. *)
Lemma grown_view s s' bs i ip :
  stays s s' -> (forall m, vw s' m = vw s m) -> grown s bs i ip s' bs ip 0 0 (fun _ => False).
Proof.
  intros St V%functional_extensionality. split; try done.
  - by apply stays_istays.
  - by destruct ip.
  - by left.
  - intros. by rewrite V.
  - intros. by rewrite V.
  - intros. by rewrite V.
  - rewrite V. lia.
  - rewrite (pot_stays _ _ _ _ St). lia.
Qed.

Lemma grown_refl s bs i ip : grown s bs i ip s bs ip 0 0 (fun _ => False).
Proof. by apply grown_view. Qed.

(** *** Changing the inode *)

Definition put_inode (i : nat) (ip : inode) s : fsys D := s <| inodes := <[i := ip]> (inodes s) |>.

Lemma tx_put_inode s st bs H k i ip : tx s st bs H k -> tx (put_inode i ip s) st bs H k.
Proof.
  intros [[l [[] ? ? ? ?]] [] ?]. split; [exists l; by split|by split|done].
Qed.

Lemma istays_put i ip s : istays i s (put_inode i ip s).
Proof.
  split_and!; [by destruct s|done|]. intros j Hj. unfold put_inode. cbn. by rewrite list_lookup_insert_ne.
Qed.

Lemma working_put s st bs H k i ip ip' :
  working s st bs H k i ip -> file_map (vw s) (sb s) st ip' -> working (put_inode i ip' s) st bs H k i ip'.
Proof.
  intros [Htx Hy Ho Hfr Hino Hmap] Hm. split; try done; [by apply tx_put_inode|].
  unfold put_inode. cbn. apply list_lookup_insert_eq. by eapply lookup_lt_Some.
Qed.

(** *** The cases of bmap *)

(** A state that shows the same blocks. *)
Lemma working_view s s' st bs H H' k i ip :
  working s st bs H k i ip -> tx s' st bs H' k -> stays s s' -> (forall m, vw s' m = vw s m) ->
  working s' st bs H' k i ip.
Proof.
  intros [Htx Hy Ho Hfr Hino Hmap] T St V%functional_extensionality.
  split; rewrite ?(stays_sb _ _ St), ?(stays_disk _ _ St), ?(stays_inodes _ _ St), ?V; done.
Qed.

(** *** Steps *)

(** The blocks after an allocation for the file. *)
Lemma alloc_kept s s' st ip b m :
  alloc_view (vw s) (vw s') (sb s) b -> layout (sb s) st (dsize (disk s)) -> sb_size (sb s) <= BPB ->
  kept s ip m -> vw s' m = vw s m.
Proof.
  intros Ha Hy Ho (H1 & H2 & H3). destruct (av_free _ _ _ _ Ha) as [Hb Hu].
  apply (av_other _ _ _ _ Ha); [|by rewrite (BBLOCK_one _ _ _ Hy Ho Hb)].
  intros ->. rewrite H3 in Hu by done. done.
Qed.

Lemma alloc_used V V' x b c :
  alloc_view V V' x b -> 0 <= c < sb_size x -> used V x c = true -> used V' x c = true.
Proof. intros Ha Hc Hu. rewrite (av_used _ _ _ _ Ha) by done. by case_match. Qed.

(** The log after an allocation. *)
Lemma pot_alloc s bs b ip :
  (length (log_add (log_add bs (the_bitmap s)) b) + pot s (log_add (log_add bs (the_bitmap s)) b) ip
    <= length bs + pot s bs ip + 1)%nat.
Proof.
  unfold pot. rewrite !length_log_add. pose proof (missing_le (log_add bs (the_bitmap s)) b) as Hm. revert Hm.
  rewrite !missing_add. repeat case_decide; try done; lia.
Qed.

Lemma grown_balloc s st bs H k i ip b s1 :
  working s st bs H k i ip -> alloc_view (vw s) (vw s1) (sb s) b -> stays s s1 ->
  grown s bs i ip s1 (log_add (log_add bs (the_bitmap s)) b) ip 1 1 (fun _ => False).
Proof.
  intros [_ Hy Ho _ _ Hm] Ha St. split.
  - by apply stays_istays.
  - by destruct ip.
  - by left.
  - intros bn _ _. by eapply file_map_alloc.
  - intros m Hk _. by eapply alloc_kept.
  - intros c. by eapply alloc_used.
  - rewrite <-(nfree_alloc _ _ _ _ Ha). lia.
  - rewrite (pot_stays _ _ _ _ St). apply pot_alloc.
  - intros m Hm0. by do 2 apply log_add_incl.
Qed.

(** ip->addrs[bn] = b for a direct block. *)
Lemma grown_put s bs i ip ip' :
  ip' = ip <| iaddrs := iaddrs ip' |> -> ind_block ip' = ind_block ip ->
  (forall bm, 0 <= bm < MAXFILE -> block_of (vw s) ip bm <> 0 -> block_of (vw s) ip' bm = block_of (vw s) ip bm) ->
  grown s bs i ip (put_inode i ip' s) bs ip' 0 0 (fun _ => False).
Proof.
  intros Hip Hi Hb. split; try done; [apply istays_put|by left|change (vw (put_inode i ip' s)) with (vw s); lia|].
  unfold pot. rewrite Hi. change (the_bitmap (put_inode i ip' s)) with (the_bitmap s). lia.
Qed.

(** An indirect block was allocated. *)
Lemma grown_indirect s st bs k i ip b s1 :
  working s st bs ∅ k i ip -> ind_block ip = 0 -> alloc_view (vw s) (vw s1) (sb s) b -> stays s s1 -> b <> 0 ->
  ind_block (set_addr ind_slot b ip) = b ->
  (forall bm, block_of (vw s1) (set_addr ind_slot b ip) bm = block_of (vw s) ip bm) ->
  grown s bs i ip (put_inode i (set_addr ind_slot b ip) s1) (log_add (log_add bs (the_bitmap s)) b)
    (set_addr ind_slot b ip) 1 0 (fun _ => False).
Proof.
  intros [_ Hy Ho _ _ _] Hi0 Ha St H0 Hi Hb. split.
  - rewrite (stays_istays i _ _ St). apply istays_put.
  - by destruct ip.
  - right. rewrite Hi. split; [done|]. apply Ha.
  - intros bm _ _. apply Hb.
  - intros m Hk _. by eapply alloc_kept.
  - intros c. by eapply alloc_used.
  - rewrite <-(nfree_alloc _ _ _ _ Ha). change (vw (put_inode _ _ s1)) with (vw s1). lia.
  - unfold pot. rewrite Hi, Hi0. change (the_bitmap (put_inode _ _ s1)) with (the_bitmap s1).
    unfold the_bitmap. rewrite (stays_sb _ _ St). fold (the_bitmap s).
    rewrite !length_log_add. pose proof (missing_le (log_add bs (the_bitmap s)) b) as Hm. revert Hm.
    rewrite !missing_add. repeat case_decide; try done; lia.
  - intros m Hm. by do 2 apply log_add_incl.
Qed.

(** The indirect block was changed and logged. *)
Lemma grown_entry s s' bs i ip st d :
  stays s s' -> ind_block ip <> 0 -> file_map (vw s) (sb s) st ip ->
  (forall m, vw s' m = if m =? ind_block ip then d else vw s m) ->
  (forall bm, 0 <= bm < MAXFILE -> block_of (vw s) ip bm <> 0 -> block_of (vw s') ip bm = block_of (vw s) ip bm) ->
  grown s bs i ip s' (log_add bs (ind_block ip)) ip 0 0 (fun _ => False).
Proof.
  intros St Hi Hm V Hb. destruct (fm_ind _ _ _ _ Hm Hi) as [(_ & _ & Hnb & _) _].
  assert (Hu : forall c, 0 <= c < sb_size (sb s) -> used (vw s') (sb s) c = used (vw s) (sb s) c).
  { intros c Hc. unfold used. rewrite V. by rewrite (proj2 (Z.eqb_neq _ _)) by (by apply Hnb). }
  split.
  - by apply stays_istays.
  - by destruct ip.
  - by left.
  - done.
  - intros m (_ & Hne & _) _. rewrite V. by rewrite (proj2 (Z.eqb_neq _ _)).
  - intros c Hc. by rewrite Hu.
  - unfold nfree. rewrite (filter_same (fun b => used (vw s) (sb s) b = false) (fun b => used (vw s') (sb s) b = false)); [lia|].
    intros c Hc%elem_of_seqZ. rewrite Hu by lia. done.
  - rewrite (pot_stays _ _ _ _ St). unfold pot. rewrite length_log_add, !missing_add.
    repeat case_decide; try done; lia.
  - intros m Hm'. by apply log_add_incl.
Qed.

(** *** bmap *)

(** The file of [ip] with block [bn] mapped to [a], in the state [s']. *)
Record mapped s st bs k i ip (bn a : Z) (s' : fsys D) (bs' : list Z) (ip' : inode) (nf : nat) : Prop := {
  mp_working : working s' st bs' ∅ k i ip';
  mp_grown : grown s bs i ip s' bs' ip' nf (1 - missing bs' a) (fun _ => False);
  mp_block : block_of (vw s') ip' bn = a /\ a <> 0;
  mp_others : forall bm, 0 <= bm < MAXFILE -> bm <> bn -> block_of (vw s') ip' bm = block_of (vw s) ip bm;
  mp_new : block_of (vw s) ip bn = 0 -> vw s' a = zeros (Z.to_nat BSIZE) /\ used (vw s) (sb s) a = false;
  mp_old : block_of (vw s) ip bn <> 0 -> block_of (vw s) ip bn = a /\ ip' = ip
}.

Lemma room_grown s bs i ip s' bs' ip' nf c r W :
  grown s bs i ip s' bs' ip' nf c W -> room s bs (pot s bs ip + c + r) -> room s' bs' (pot s' bs' ip' + r).
Proof.
  intros Hg Hr. eapply room_istays; [by eapply gr_stays|]. revert Hr. unfold room.
  pose proof (gr_cost _ _ _ _ _ _ _ _ _ _ Hg). lia.
Qed.

Lemma room_bitmap s bs ip : room s bs (pot s bs ip + 2) -> room s (log_add bs (the_bitmap s)) 1.
Proof. unfold room, pot. rewrite length_log_add. lia. Qed.

Lemma set_addr_run s i ip k b :
  inodes s !! i = Some ip ->
  upd_inode i (fun ip => ip <| iaddrs ::= <[k := b]> |>) s = Ret tt (put_inode i (set_addr k b ip) s).
Proof. apply upd_inode_run. Qed.

(** What [bmap] is given. *)
Definition bmap_pre s st bs k i ip : Prop :=
  working s st bs ∅ k i ip /\ room s bs (pot s bs ip + 2) /\ (2 <= nfree (vw s) (sb s))%nat.

Lemma fresh_after V V' x st ip b : alloc_view V V' x b -> file_map V x st ip -> fresh V ip b -> fresh V' ip b.
Proof.
  intros Ha Hm (H1 & H2 & H3). split_and!; [done..|]. intros bn Hbn.
  rewrite (proj2 (file_map_alloc _ _ _ _ _ _ Ha Hm)). by apply H3.
Qed.

(** A block that is there already, in a state that shows the same blocks. *)
Lemma mapped_old s st bs k i ip bn s' nf :
  working s' st bs ∅ k i ip -> stays s s' -> vw s' = vw s -> block_of (vw s) ip bn <> 0 ->
  mapped s st bs k i ip bn (block_of (vw s) ip bn) s' bs ip nf.
Proof.
  intros Hw St V H0. split; rewrite ?V; try done.
  eapply grown_le; [apply grown_view; [done|by rewrite V]|lia..].
Qed.

Lemma bmap_direct s st bs k i ip bn :
  bmap_pre s st bs k i ip -> 0 <= bn < NDIRECT ->
  exists a s' bs' ip', bmap i bn s = Ret a s' /\ mapped s st bs k i ip bn a s' bs' ip' 2.
Proof.
  intros (Hw & Hro & Hn) Hbn. pose proof (wk_map _ _ _ _ _ _ _ Hw) as Hm.
  unfold bmap. runs1 (inode_at_run _ _ _ (wk_ino _ _ _ _ _ _ _ Hw)).
  rewrite (proj2 (Z.ltb_lt bn NDIRECT)) by lia.
  assert (Hb : block_of (vw s) ip bn = iaddrs ip !!! Z.to_nat bn).
  { unfold block_of. by rewrite (proj2 (Z.ltb_lt bn NDIRECT)) by lia. }
  rewrite (list_lookup_lookup_total_lt (iaddrs ip)) by (rewrite (fm_len _ _ _ _ Hm); unfold ind_slot; lia).
  unfold orUndef. rewrite bind_deref, <-Hb. destruct (Z.eqb_spec (block_of (vw s) ip bn) 0) as [E0|E0].
  2:{ exists (block_of (vw s) ip bn), s, bs, ip. split; [done|]. by apply mapped_old. }
  rewrite (fm_dev _ _ _ _ Hm).
  destruct (balloc_step s st bs ∅ k i ip Hw) as (b & s1 & E & Hw1 & Ha & Hfr & Hu & St & _);
    [set_solver|done|by eapply room_bitmap|lia|]. runs1 E.
  runs1 (set_addr_run s1 i ip (Z.to_nat bn) b (wk_ino _ _ _ _ _ _ _ Hw1)). set (ip' := set_addr _ b ip).
  pose proof (wk_map _ _ _ _ _ _ _ Hw1) as Hm1. rewrite (stays_sb _ _ St) in Hm1.
  destruct (add_direct _ _ _ ip bn b Hm1 Hbn (fresh_after _ _ _ _ _ _ Ha Hm Hfr) Hu) as (Hm' & Hi' & Hb').
  fold ip' in Hm', Hi', Hb'. destruct (file_map_alloc _ _ _ _ _ _ Ha Hm) as [_ Hblk].
  assert (Hbn' : 0 <= bn < MAXFILE) by (unfold MAXFILE, NDIRECT, NINDIRECT in *; lia).
  eexists b, _, _, ip'. split; [done|].
  split; change (vw (put_inode i ip' s1)) with (vw s1).
  - apply working_put with ip; [exact Hw1|]. by rewrite (stays_sb _ _ St).
  - eapply grown_le; [eapply grown_trans; [by eapply grown_balloc|apply grown_put; [by destruct ip|done|]]|lia|].
    1:{ intros bm Hbm H0. rewrite Hb' by done. case_match; [|done]. by rewrite Hblk, (proj1 (Z.eqb_eq _ _) H) in H0. }
    rewrite missing_add. by rewrite decide_True.
  - rewrite Hb' by done. rewrite Z.eqb_refl. split; [done|apply Hfr].
  - intros bm Hbm Hne. rewrite Hb', (proj2 (Z.eqb_neq bm bn)) by done. apply Hblk.
  - intros _. split; apply Ha.
  - done.
Qed.

(** The indirect block, allocated when there is none. *)
Definition ensure_ind (i : nat) (ip : inode) (addr : Z) : F D Z :=
  if addr =? 0 then
    do addr <- balloc (idev ip);
    upd_inode i (fun ip => ip <| iaddrs ::= <[Z.to_nat NDIRECT := addr]> |>);;
    ret addr
  else ret addr.

Lemma ensure_ind_run s st bs k i ip :
  bmap_pre s st bs k i ip ->
  exists s' bs' ip', ensure_ind i ip (ind_block ip) s = Ret (ind_block ip') s' /\
    (ind_block ip <> 0 -> ip' = ip) /\ working s' st bs' ∅ k i ip' /\ grown s bs i ip s' bs' ip' 1 0 (fun _ => False) /\ ind_block ip' <> 0 /\
    (forall bm, block_of (vw s') ip' bm = block_of (vw s) ip bm).
Proof.
  intros (Hw & Hro & Hn). pose proof (wk_map _ _ _ _ _ _ _ Hw) as Hm. unfold ensure_ind.
  destruct (Z.eqb_spec (ind_block ip) 0) as [E0|E0].
  2:{ exists s, bs, ip. split_and!; [done|done|done|eapply grown_le; [apply grown_refl|lia..]|done|done]. }
  rewrite (fm_dev _ _ _ _ Hm).
  destruct (balloc_step s st bs ∅ k i ip Hw) as (b & s1 & E & Hw1 & Ha & Hfr & Hu & St & _);
    [set_solver|done|by eapply room_bitmap|lia|]. runs1 E.
  runs1 (set_addr_run s1 i ip ind_slot b (wk_ino _ _ _ _ _ _ _ Hw1)).
  pose proof (wk_map _ _ _ _ _ _ _ Hw1) as Hm1. rewrite (stays_sb _ _ St) in Hm1.
  destruct (add_indirect _ _ _ ip b Hm1 E0 (fresh_after _ _ _ _ _ _ Ha Hm Hfr) Hu (av_zero _ _ _ _ Ha)) as (Hm' & Hi' & Hb').
  destruct (file_map_alloc _ _ _ _ _ _ Ha Hm) as [_ Hblk]. pose proof (proj1 Hfr) as Hb0.
  eexists _, _, (set_addr ind_slot b ip). rewrite Hi'. split_and!; [done|done|..].
  - apply working_put with ip; [exact Hw1|]. by rewrite (stays_sb _ _ St).
  - eapply grown_indirect; try done. intros bm. by rewrite Hb', Hblk.
  - done.
  - intros bm. change (vw (put_inode _ _ s1)) with (vw s1). by rewrite Hb', Hblk.
Qed.

Lemma in_use_rng s st bs H k i ip b : working s st bs H k i ip -> in_use (vw s) (sb s) st b -> rng s b.
Proof. intros Hw [(Hb & _) _]. pose proof (ly_size _ _ _ (wk_layout _ _ _ _ _ _ _ Hw)). unfold rng. lia. Qed.

Lemma working_len s st bs H k i ip b : working s st bs H k i ip -> in_use (vw s) (sb s) st b -> length (vw s b) = Z.to_nat BSIZE.
Proof. intros Hw Hb. eapply tx_vw_length; [apply Hw|]. by eapply in_use_rng. Qed.

(** Recording the new block [b] in the held indirect block. *)
Lemma entry_run s st bs k i ip bn b e :
  working s st bs {[ind_block ip]} k i ip -> NDIRECT <= bn < MAXFILE -> ind_block ip <> 0 ->
  block_of (vw s) ip bn = 0 -> fresh (vw s) ip b -> in_use (vw s) (sb s) st b -> room s bs 1 -> shows s e (ind_block ip) (vw s (ind_block ip)) ->
  exists s', (set_data e (Bytes.st 4 (4 * Z.to_nat (bn - NDIRECT)) b);; log_write e) s = Ret tt s' /\
    working s' st (log_add bs (ind_block ip)) {[ind_block ip]} k i ip /\
    grown s bs i ip s' (log_add bs (ind_block ip)) ip 0 0 (fun _ => False) /\ stays s s' /\
    (exists d, shows s' e (ind_block ip) d) /\
    (forall m, m <> ind_block ip -> vw s' m = vw s m) /\
    (forall bm, 0 <= bm < MAXFILE -> block_of (vw s') ip bm = if bm =? bn then b else block_of (vw s) ip bm).
Proof.
  intros Hw Hbn Hi H0 Hfr Hu Hro Hs. pose proof Hw as [Htx Hy Ho Hfree Hino Hm].
  pose proof (fm_ind _ _ _ _ Hm Hi) as Hiu. pose proof (working_len _ _ _ _ _ _ _ _ Hw Hiu) as Hlen.
  destruct (st_some 4 (4 * Z.to_nat (bn - NDIRECT)) b (vw s (ind_block ip))) as [d Hd].
  { rewrite Hlen. unfold MAXFILE, NDIRECT, NINDIRECT, BSIZE in *. lia. }
  destruct (tx_set s st bs _ k e (ind_block ip) _ _ d Htx ltac:(set_solver) Hs Hd) as (s1 & E1 & T1 & S1 & St1 & V1 & _).
  { by rewrite (st_length _ _ _ _ _ Hd). }
  runs1 E1. destruct (tx_logw s1 st bs _ k e (ind_block ip) d T1 ltac:(set_solver) S1) as (s2 & E2 & T2 & S2 & St2 & V2 & _).
  { apply Hiu. } { by eapply room_stays. }
  assert (St : stays s s2) by (by rewrite St1). assert (V : forall m, vw s2 m = if m =? ind_block ip then d else vw s m).
  { intros m. by rewrite V2, V1. }
  assert (Hb32 : 0 <= b < 2 ^ 32).
  { destruct Hu as [(Hb & _) _]. pose proof (ly_size _ _ _ Hy). pose proof (ly_disk _ _ _ Hy). lia. }
  destruct (add_entry _ (vw s2) _ _ ip bn b d Hm Hbn Hi Hfr Hu Hb32 Hd V) as (Hm2 & Hu2 & Hb2).
  exists s2. split_and!; [done| | |done|by exists d| |done].
  - split; rewrite ?(stays_sb _ _ St), ?(stays_disk _ _ St), ?(stays_inodes _ _ St); try done.
    intros c Hc. rewrite Hu2 by done. by apply Hfree.
  - eapply grown_entry; try done. intros bm Hbm Hm0. rewrite Hb2 by done.
    destruct (Z.eqb_spec bm bn) as [->|]; done.
  - intros m Hne. rewrite V. by rewrite (proj2 (Z.eqb_neq _ _)).
Qed.

(** The entry [bn] of the indirect block [a0], allocated when there is none. *)
Definition through_ind (i : nat) (ip : inode) (bn a0 : Z) : F D Z :=
  do bp <- bread (idev ip) a0;
  do r <- buf_at bp;
  do addr <- orUndef "a[bn]" (ld 4 (4 * Z.to_nat (bn - NDIRECT)) (bdata r));
  do addr <-
    (if addr =? 0 then
       do addr <- balloc (idev ip);
       set_data bp (Bytes.st 4 (4 * Z.to_nat (bn - NDIRECT)) addr);;
       log_write bp;;
       ret addr
     else ret addr);
  brelse bp;;
  ret addr.

Lemma ld_entry s st bs H k i ip bn :
  working s st bs H k i ip -> NDIRECT <= bn < MAXFILE -> ind_block ip <> 0 ->
  ld 4 (4 * Z.to_nat (bn - NDIRECT)) (vw s (ind_block ip)) = Some (block_of (vw s) ip bn).
Proof.
  intros Hw Hbn Hi. unfold block_of. rewrite (proj2 (Z.ltb_ge bn NDIRECT)) by lia.
  rewrite (proj2 (Z.eqb_neq (ind_block ip) 0)) by done. unfold ind_entry.
  destruct (ld_some 4 (4 * Z.to_nat (bn - NDIRECT)) (vw s (ind_block ip))) as [v ->]; [|done].
  rewrite (working_len _ _ _ _ _ _ _ _ Hw) by (apply (fm_ind _ _ _ _ (wk_map _ _ _ _ _ _ _ Hw)); done).
  unfold MAXFILE, NDIRECT, NINDIRECT, BSIZE in *. lia.
Qed.

(** Giving the indirect block back. *)
Lemma release_ind s st bs k i ip e d :
  working s st bs {[ind_block ip]} k i ip -> shows s e (ind_block ip) d ->
  (ind_block ip ∈ bs \/ d = dblock (disk s) (ind_block ip)) ->
  exists s', brelse e s = Ret tt s' /\ working s' st bs ∅ k i ip /\ grown s bs i ip s' bs ip 0 0 (fun _ => False) /\ vw s' = vw s.
Proof.
  intros Hw Hs Hd. destruct (tx_brelse s st bs _ k e (ind_block ip) _ (wk_tx _ _ _ _ _ _ _ Hw) ltac:(set_solver) Hs Hd)
    as (s' & E & T & St & V & _).
  rewrite difference_diag_L in T. exists s'. split_and!; [done|by eapply working_view|by apply grown_view|].
  by apply functional_extensionality.
Qed.

(** There is an entry. *)
Lemma through_ind_old s st bs k i ip0 ip bn :
  working s st bs ∅ k i ip -> idev ip0 = 1 -> (length bs < NBUF)%nat -> NDIRECT <= bn < MAXFILE ->
  block_of (vw s) ip bn <> 0 ->
  exists s', through_ind i ip0 bn (ind_block ip) s = Ret (block_of (vw s) ip bn) s' /\
    working s' st bs ∅ k i ip /\ stays s s' /\ vw s' = vw s.
Proof.
  intros Hw Hdev Hro Hbn H0. unfold through_ind. rewrite Hdev.
  assert (Hi : ind_block ip <> 0).
  { intros E. revert H0. unfold block_of. rewrite E, (proj2 (Z.ltb_ge bn NDIRECT)) by lia. done. }
  pose proof (fm_ind _ _ _ _ (wk_map _ _ _ _ _ _ _ Hw) Hi) as Hiu.
  destruct (tx_peek s st bs ∅ k (ind_block ip) (wk_tx _ _ _ _ _ _ _ Hw)) as (e & s1 & r & s2 & E1 & Er & Hdr & E2 & _ & T & St & V & _);
    [set_solver|by eapply in_use_rng|rewrite size_empty; lia|].
  runs1 E1. runs1 Er. rewrite Hdr, (ld_entry _ _ _ _ _ _ _ _ Hw Hbn Hi). unfold orUndef. rewrite bind_deref.
  rewrite (proj2 (Z.eqb_neq _ 0)) by done. rewrite bind_ret. runs1 E2. exists s2.
  split_and!; [done|by eapply working_view|done|by apply functional_extensionality].
Qed.

(** There is none: a block is allocated while the indirect block is held. *)
Lemma through_ind_new s st bs k i ip0 ip bn :
  working s st bs ∅ k i ip -> idev ip0 = 1 -> room s bs (pot s bs ip + 2) -> (1 <= nfree (vw s) (sb s))%nat ->
  NDIRECT <= bn < MAXFILE -> ind_block ip <> 0 -> block_of (vw s) ip bn = 0 ->
  exists a s' bs', through_ind i ip0 bn (ind_block ip) s = Ret a s' /\ mapped s st bs k i ip bn a s' bs' ip 1.
Proof.
  intros Hw Hdev Hro Hn Hbn Hi H0. unfold through_ind. rewrite Hdev.
  pose proof (fm_ind _ _ _ _ (wk_map _ _ _ _ _ _ _ Hw) Hi) as Hiu.
  destruct (tx_bread s st bs ∅ k (ind_block ip) (wk_tx _ _ _ _ _ _ _ Hw)) as (e & s1 & E1 & T1 & S1 & St1 & V1 & _);
    [set_solver|by eapply in_use_rng|rewrite size_empty; unfold room in Hro; lia|]. runs1 E1.
  rewrite union_empty_l_L in T1. pose proof (working_view _ _ _ _ _ _ _ _ _ Hw T1 St1 V1) as Hw1.
  pose proof (grown_view s s1 bs i ip St1 V1) as G1. apply functional_extensionality in V1.
  destruct (shows_buf_at _ _ _ _ S1) as (r & Er & Hdr). runs1 Er.
  rewrite Hdr, (ld_entry _ _ _ _ _ _ _ _ Hw Hbn Hi), H0. unfold orUndef. rewrite bind_deref. cbn [Z.eqb].
  assert (Hro1 : room s1 bs (pot s1 bs ip + 2)) by (eapply room_grown; [exact G1|by rewrite Nat.add_0_r]).
  destruct (balloc_step s1 st bs {[ind_block ip]} k i ip Hw1) as (b & s2 & E2 & Hw2 & Ha & Hfr & Hu & St2 & F2);
    [done|done|by eapply room_bitmap|rewrite V1, (stays_sb _ _ St1); lia|].
  set (bs2 := log_add (log_add bs (the_bitmap s1)) b) in *.
  pose proof (grown_balloc _ _ _ _ _ _ _ _ _ Hw1 Ha St2) as G2.
  assert (Hro2 : room s2 bs2 1).
  { eapply room_le; [|eapply room_grown; [exact G2|]]; [|by rewrite <-Nat.add_assoc]. lia. }
  pose proof (wk_map _ _ _ _ _ _ _ Hw1) as Hm1. rewrite <-(stays_sb _ _ St2) in Hu.
  assert (Hi2 : vw s2 (ind_block ip) = vw s (ind_block ip)).
  { rewrite <-V1. eapply in_use_other; [exact Ha|]. apply (fm_ind _ _ _ _ Hm1 Hi). }
  pose proof (F2 e (ind_block ip) _ ltac:(set_solver) S1) as S2. rewrite <-Hi2 in S2.
  destruct (file_map_alloc _ _ _ _ _ _ Ha Hm1) as [_ Hblk].
  assert (H02 : block_of (vw s2) ip bn = 0) by (by rewrite Hblk, V1).
  destruct (entry_run s2 st bs2 k i ip bn b e Hw2 Hbn Hi H02 (fresh_after _ _ _ _ _ _ Ha Hm1 Hfr) Hu Hro2 S2)
    as (s3 & E3 & Hw3 & G3 & St3 & (d & S3) & V3 & Hb3).
  destruct (release_ind s3 st _ k i ip e d Hw3 S3 (or_introl (log_add_in _ _))) as (s4 & E4 & Hw4 & G4 & V4).
  apply bind_inv in E3 as (? & s2' & E3 & E3'). rewrite bind_assoc. runs1 E2. rewrite bind_assoc. runs1 E3.
  rewrite bind_assoc. runs1 E3'. rewrite bind_ret. runs1 E4.
  assert (Hb4 : forall bm, 0 <= bm < MAXFILE -> block_of (vw s4) ip bm = if bm =? bn then b else block_of (vw s) ip bm).
  { intros bm Hbm. by rewrite V4, Hb3, Hblk, V1. }
  assert (Hbi : b <> ind_block ip) by apply Hfr.
  eexists b, s4, _. split; [done|]. split.
  - exact Hw4.
  - eapply grown_le; [eapply grown_trans; [exact G1|eapply grown_trans; [exact G2|eapply grown_trans; [exact G3|exact G4]]]|lia|].
    rewrite missing_add. case_decide; [done|]. unfold bs2. rewrite missing_add. rewrite decide_True; done.
  - rewrite Hb4 by (unfold NDIRECT in *; lia). rewrite Z.eqb_refl. split; [done|apply Hfr].
  - intros bm Hbm Hne. by rewrite Hb4, (proj2 (Z.eqb_neq bm bn)).
  - intros _. rewrite V4, V3 by done. split; [apply Ha|]. rewrite <-V1, <-(stays_sb _ _ St1). apply Ha.
  - done.
Qed.

Lemma bmap_indirect s st bs k i ip bn :
  bmap_pre s st bs k i ip -> NDIRECT <= bn < MAXFILE ->
  exists a s' bs' ip', bmap i bn s = Ret a s' /\ mapped s st bs k i ip bn a s' bs' ip' 2.
Proof.
  intros Hpre Hbn. pose proof Hpre as (Hw & Hro & Hn). pose proof (wk_map _ _ _ _ _ _ _ Hw) as Hm.
  unfold bmap. runs1 (inode_at_run _ _ _ (wk_ino _ _ _ _ _ _ _ Hw)).
  rewrite (proj2 (Z.ltb_ge bn NDIRECT)) by lia. cbv zeta.
  rewrite (proj2 (Z.ltb_lt (bn - NDIRECT) NINDIRECT)) by (unfold MAXFILE in *; lia).
  rewrite (list_lookup_lookup_total_lt (iaddrs ip)) by (rewrite (fm_len _ _ _ _ Hm); unfold ind_slot; lia).
  unfold orUndef at 1. rewrite bind_deref. fold ind_slot. fold (ind_block ip). fold (ensure_ind i ip (ind_block ip)).
  destruct (ensure_ind_run s st bs k i ip Hpre) as (s1 & bs1 & ip1 & E1 & Hk1 & Hw1 & G1 & Hi1 & Hb1). runs1 E1.
  fold (through_ind i ip bn (ind_block ip1)). pose proof (fm_dev _ _ _ _ Hm) as Hdev.
  assert (Hro1 : room s1 bs1 (pot s1 bs1 ip1 + 2)) by (eapply room_grown; [exact G1|by rewrite Nat.add_0_r]).
  pose proof (istays_sb _ _ _ (gr_stays _ _ _ _ _ _ _ _ _ _ G1)) as Hsb. pose proof (gr_nfree _ _ _ _ _ _ _ _ _ _ G1) as Hn1.
  assert (Hfin : exists a s' bs', through_ind i ip bn (ind_block ip1) s1 = Ret a s' /\ mapped s1 st bs1 k i ip1 bn a s' bs' ip1 1).
  { destruct (decide (block_of (vw s1) ip1 bn = 0)) as [E0|E0].
    - eapply through_ind_new; try done. rewrite Hsb. lia.
    - destruct (through_ind_old s1 st bs1 k i ip ip1 bn) as (s2 & E2 & W & St & V); [done..|unfold room in Hro1; lia|done|done|].
      eexists _, s2, bs1. split; [exact E2|]. by apply mapped_old. }
  destruct Hfin as (a & s2 & bs2 & E2 & [W G B O N P]). exists a, s2, bs2, ip1. split; [done|]. split.
  - done.
  - eapply grown_le; [eapply grown_trans; [exact G1|exact G]|lia..].
  - done.
  - intros bm Hbm Hne. by rewrite O.
  - rewrite <-Hb1. intros E0. destruct (N E0) as [Hz Hu]. split; [done|]. rewrite <-Hsb.
    destruct (used (vw s) (sb s1) a) eqn:Eu; [|done]. rewrite <-Hu, Hsb. symmetry. apply (gr_used _ _ _ _ _ _ _ _ _ _ G1); [|by rewrite <-Hsb].
    destruct (fm_data _ _ _ _ (wk_map _ _ _ _ _ _ _ W) bn) as [[(Hr & _) _] _]; [unfold NDIRECT in *; lia|by destruct B as [-> ?]|].
    destruct B as [Hba _]. rewrite Hba in Hr. rewrite (istays_sb _ _ _ (gr_stays _ _ _ _ _ _ _ _ _ _ G)), Hsb in Hr. done.
  - intros E0. rewrite <-Hb1 in E0 |- *. split; [by apply P|]. apply Hk1. intros Ei.
    apply E0. rewrite Hb1. unfold block_of. by rewrite Ei, (proj2 (Z.ltb_ge bn NDIRECT)) by lia.
Qed.

(** [bmap] gives the file a block [bn] when it has none. *)
Lemma bmap_run s st bs k i ip bn :
  bmap_pre s st bs k i ip -> 0 <= bn < MAXFILE ->
  exists a s' bs' ip', bmap i bn s = Ret a s' /\ mapped s st bs k i ip bn a s' bs' ip' 2.
Proof.
  intros Hpre Hbn. destruct (Z.lt_ge_cases bn NDIRECT); [apply bmap_direct|apply bmap_indirect]; done || lia.
Qed.

(** [bmap] on a block the file has: nothing changes that a reader can see. *)
Lemma bmap_old s st bs k i ip bn :
  working s st bs ∅ k i ip -> (length bs < NBUF)%nat -> 0 <= bn < MAXFILE -> block_of (vw s) ip bn <> 0 ->
  exists s', bmap i bn s = Ret (block_of (vw s) ip bn) s' /\ working s' st bs ∅ k i ip /\ stays s s' /\ vw s' = vw s.
Proof.
  intros Hw Hl Hbn H0. pose proof (wk_map _ _ _ _ _ _ _ Hw) as Hm.
  unfold bmap. runs1 (inode_at_run _ _ _ (wk_ino _ _ _ _ _ _ _ Hw)).
  destruct (Z.ltb_spec bn NDIRECT) as [Hlt|Hge].
  - assert (Hb : block_of (vw s) ip bn = iaddrs ip !!! Z.to_nat bn).
    { unfold block_of. by rewrite (proj2 (Z.ltb_lt bn NDIRECT)) by lia. }
    rewrite (list_lookup_lookup_total_lt (iaddrs ip)) by (rewrite (fm_len _ _ _ _ Hm); unfold ind_slot; lia).
    unfold orUndef. rewrite bind_deref, <-Hb, (proj2 (Z.eqb_neq _ 0)) by done. by exists s.
  - cbv zeta. rewrite (proj2 (Z.ltb_lt (bn - NDIRECT) NINDIRECT)) by (unfold MAXFILE in *; lia).
    rewrite (list_lookup_lookup_total_lt (iaddrs ip)) by (rewrite (fm_len _ _ _ _ Hm); unfold ind_slot; lia).
    unfold orUndef at 1. rewrite bind_deref. fold ind_slot. fold (ind_block ip).
    destruct (Z.eqb_spec (ind_block ip) 0) as [E|E].
    { exfalso. revert H0. unfold block_of. by rewrite E, (proj2 (Z.ltb_ge bn NDIRECT)) by lia. }
    rewrite bind_ret. fold (through_ind i ip bn (ind_block ip)).
    apply through_ind_old; [done|apply Hm|done|lia|done].
Qed.
End FsFile.
