(* ===== verification/FsRw.v ===== *)
(** * readi and writei

    The content of a file is the function [fbyte] from offsets to bytes, read
    from its blocks.  [readi] returns a range of it and changes nothing;
    [writei] replaces a range of it. *)
From Stdlib Require Import FunctionalExtensionality.
From S2P Require Import Prelude Bytes Cstring Spinlock ProcDefs Memory Kalloc FsDefs.
From S2P Require Import Bio BioRing BioSpec BioOps BioSeq Log LogSpec LogCrash.
From S2P Require Import Fs FsCodec FsTx FsBlocks FsMap FsFile.
Local Open Scope Z_scope.
Local Open Scope kernel_scope.

Definition fbyte (V : Z -> list Z) (ip : inode) (q : Z) : Z :=
  let b := block_of V ip (q / BSIZE) in
  if b =? 0 then 0 else V b !!! Z.to_nat (q mod BSIZE).

(** The [n] bytes from offset [off]. *)
Definition fbytes (V : Z -> list Z) (ip : inode) (off : Z) (n : nat) : list Z :=
  (fun j => fbyte V ip (off + Z.of_nat j)) <$> seq 0 n.

Lemma fbytes_app V ip off n m : fbytes V ip off (n + m) = fbytes V ip off n ++ fbytes V ip (off + Z.of_nat n) m.
Proof.
  unfold fbytes. rewrite seq_app, fmap_app. f_equal. 
  replace (seq (0 + n) m) with (Nat.add n <$> seq 0 m) by (rewrite fmap_add_seq; f_equal; lia).
  rewrite <-list_fmap_compose.
  apply list_fmap_ext. intros j x _. cbn. f_equal. lia.
Qed.

Lemma fbytes_length V ip off n : length (fbytes V ip off n) = n.
Proof. unfold fbytes. by rewrite length_fmap, length_seq. Qed.

Lemma fbytes_lookup V ip off n j : (j < n)%nat -> fbytes V ip off n !! j = Some (fbyte V ip (off + Z.of_nat j)).
Proof. intros Hj. unfold fbytes. by rewrite list_lookup_fmap, lookup_seq_lt. Qed.

(** ** Offsets *)

(** How much of [r] bytes from offset [off] is in the block of [off]. *)
Definition chunk (off r : Z) : Z := Z.min r (BSIZE - off mod BSIZE).

Lemma chunk_range off r : 0 <= off -> 0 < r -> 0 < chunk off r <= r /\ off mod BSIZE + chunk off r <= BSIZE.
Proof. intros. unfold chunk. pose proof (Z.mod_pos_bound off BSIZE). unfold BSIZE in *. lia. Qed.

Lemma in_chunk off r j :
  0 <= off -> 0 <= j < chunk off r ->
  (off + j) / BSIZE = off / BSIZE /\ (off + j) mod BSIZE = off mod BSIZE + j.
Proof.
  intros Ho Hj. unfold chunk in Hj. pose proof (Z.mod_pos_bound off BSIZE).
  assert (E : off + j = (off / BSIZE) * BSIZE + (off mod BSIZE + j)) by (pose proof (Z.div_mod off BSIZE); unfold BSIZE in *; lia).
  unfold BSIZE in *. split.
  - rewrite E, Z.div_add_l, (Z.div_small (off mod 512 + j)) by lia. lia.
  - rewrite E at 1. rewrite (Z.add_comm (_ * _)), Z.mod_add by lia. apply Z.mod_small. lia.
Qed.

(** The rounds that are left: one more than the blocks that [r] bytes touch. *)
Definition rounds (kk : nat) (off r : Z) : Prop :=
  (1 <= kk)%nat /\ (r = 0 \/ off mod BSIZE + r <= (Z.of_nat kk - 1) * BSIZE).

Lemma rounds_next kk off r : 0 <= off -> 0 < r -> rounds (S kk) off r -> rounds kk (off + chunk off r) (r - chunk off r).
Proof.
  intros Ho Hr [_ [->|Hk]]; [lia|]. pose proof (chunk_range off r Ho Hr). unfold rounds.
  pose proof (Z.mod_pos_bound off BSIZE). unfold chunk in *. unfold BSIZE in *. split; [lia|].
  destruct (Z.min_spec r (512 - off mod 512)) as [[? ->]|[? ->]]; [left; lia|].
  right. replace ((off + (512 - off mod 512)) mod 512) with 0; [lia|].
  replace (off + (512 - off mod 512)) with (0 + (off / 512 + 1) * 512) by (pose proof (Z.div_mod off 512); lia).
  by rewrite Z.mod_add.
Qed.

Lemma rounds_start off n : 0 <= off -> 0 <= n -> rounds (Z.to_nat (n / BSIZE) + 3) off n.
Proof.
  intros. unfold rounds. pose proof (Z.mod_pos_bound off BSIZE). pose proof (Z.div_mod n BSIZE).
  pose proof (Z.mod_pos_bound n BSIZE). pose proof (Z.div_pos n BSIZE). unfold BSIZE in *. split; [lia|]. right. lia.
Qed.

Section FsRw.
Context {D : Type} `{!Driver D, !DriverSpec D, !Devices D}.
Implicit Types s : fsys D.

(** ** Reading *)

(** The bytes of one block that a read copies. *)
Lemma sub_chunk s st bs H k i ip off r :
  working s st bs H k i ip -> 0 <= off -> 0 < r -> off / BSIZE < MAXFILE -> block_of (vw s) ip (off / BSIZE) <> 0 ->
  sub (Z.to_nat (off mod BSIZE)) (Z.to_nat (chunk off r)) (vw s (block_of (vw s) ip (off / BSIZE))) =
    Some (fbytes (vw s) ip off (Z.to_nat (chunk off r))).
Proof.
  intros Hw Ho Hr Hmax H0. pose proof (chunk_range off r Ho Hr) as [Hc1 Hc2]. pose proof (Z.mod_pos_bound off BSIZE).
  set (a := block_of (vw s) ip (off / BSIZE)) in *.
  assert (Hlen : length (vw s a) = Z.to_nat BSIZE).
  { eapply working_len; [done|]. apply (fm_data _ _ _ _ (wk_map _ _ _ _ _ _ _ Hw)); [|done].
    split; [apply Z.div_pos; unfold BSIZE; lia|done]. }
  destruct (sub_some (Z.to_nat (off mod BSIZE)) (Z.to_nat (chunk off r)) (vw s a)) as [d Hd].
  { rewrite Hlen. unfold BSIZE in *. lia. }
  rewrite Hd. f_equal. apply list_eq_same_length with (Z.to_nat (chunk off r));
    [apply fbytes_length|by eapply sub_length|].
  intros j x y Hj Hx Hy. rewrite fbytes_lookup in Hy by done. injection Hy as <-.
  rewrite (sub_lookup _ _ _ _ _ Hd Hj) in Hx. unfold fbyte.
  destruct (in_chunk off r (Z.of_nat j) Ho) as [E1 E2]; [lia|]. rewrite E1, E2. fold a.
  rewrite (proj2 (Z.eqb_neq a 0)) by done.
  replace (Z.to_nat (off mod BSIZE + Z.of_nat j)) with (Z.to_nat (off mod BSIZE) + j)%nat by (unfold BSIZE in *; lia).
  symmetry. by apply list_lookup_total_correct.
Qed.

(** Every block of the range is allocated. *)
Definition has_blocks (V : Z -> list Z) (ip : inode) (lo hi : Z) : Prop :=
  forall q, lo <= q < hi -> block_of V ip (q / BSIZE) <> 0.

Lemma readi_loop_run st bs k i ip n kk : forall s off tot,
  working s st bs ∅ k i ip -> (length bs < NBUF)%nat -> 0 <= off -> 0 <= tot <= n ->
  off + (n - tot) <= MAXFILE * BSIZE -> has_blocks (vw s) ip off (off + (n - tot)) -> rounds kk off (n - tot) ->
  exists s', readi_loop kk i off n tot s = Ret (fbytes (vw s) ip off (Z.to_nat (n - tot))) s' /\
    working s' st bs ∅ k i ip /\ stays s s' /\ vw s' = vw s.
Proof.
  induction kk as [|kk IH]; intros s off tot Hw Hl Ho Ht Hmax Hb Hr; [destruct Hr; lia|]. cbn [readi_loop].
  destruct (Z.ltb_spec tot n) as [Hlt|Hge].
  2:{ exists s. replace (n - tot) with 0 by lia. done. }
  fold (chunk off (n - tot)). set (m := chunk off (n - tot)).
  assert (Hm : 0 < m <= n - tot) by (apply chunk_range; lia).
  assert (Hbn : 0 <= off / BSIZE < MAXFILE).
  { split; [apply Z.div_pos; unfold BSIZE; lia|]. apply Z.div_lt_upper_bound; unfold BSIZE in *; lia. }
  assert (H0 : block_of (vw s) ip (off / BSIZE) <> 0) by (apply Hb; lia).
  runs1 (inode_at_run _ _ _ (wk_ino _ _ _ _ _ _ _ Hw)).
  destruct (bmap_old s st bs k i ip (off / BSIZE) Hw Hl Hbn H0) as (s1 & E1 & Hw1 & St1 & V1). runs1 E1.
  pose proof (wk_map _ _ _ _ _ _ _ Hw1) as Hm1. rewrite (fm_dev _ _ _ _ Hm1). rewrite <-V1 in *.
  destruct (fm_data _ _ _ _ Hm1 (off / BSIZE) Hbn H0) as [Hu _].
  destruct (tx_peek s1 st bs ∅ k _ (wk_tx _ _ _ _ _ _ _ Hw1) (not_elem_of_empty _) (in_use_rng _ _ _ _ _ _ _ _ Hw1 Hu))
    as (e & s2 & r & s3 & E2 & Er & Hdr & E3 & _ & T & St & V & _); [rewrite size_empty; lia|].
  pose proof (sub_chunk _ _ _ _ _ _ _ _ (n - tot) Hw1 Ho ltac:(lia) (proj2 Hbn) H0) as Hsub. fold m in Hsub.
  runs1 E2. runs1 Er. rewrite Hdr, Hsub.
  unfold orUndef. rewrite bind_deref. runs1 E3. pose proof (working_view _ _ _ _ _ _ _ _ _ Hw1 T St V) as Hw3.
  apply functional_extensionality in V. fold m.
  assert (Hoff : u32 (off + m) = off + m).
  { apply u32_small. unfold MAXFILE, NDIRECT, NINDIRECT, BSIZE in *. lia. }
  rewrite Hoff. destruct (IH s3 (off + m) (tot + m)) as (s4 & E4 & Hw4 & St4 & V4); try done; try lia.
  - rewrite V. intros q Hq. apply Hb. lia.
  - replace (n - (tot + m)) with (n - tot - m) by lia. apply rounds_next; [done|lia|done].
  - runs1 E4. exists s4. split_and!; [|done|by rewrite St1, St, St4|congruence]. unfold ret. f_equal.
    rewrite V. replace (n - tot) with (m + (n - (tot + m))) by lia. rewrite Z2Nat.inj_add, fbytes_app by lia.
    by rewrite Z2Nat.id by lia.
Qed.

(** ** Writing *)

Lemma in_use_kept s st bs H k i ip bn :
  working s st bs H k i ip -> 0 <= bn < MAXFILE -> block_of (vw s) ip bn <> 0 -> kept s ip (block_of (vw s) ip bn).
Proof.
  intros Hw Hbn H0. destruct (fm_data _ _ _ _ (wk_map _ _ _ _ _ _ _ Hw) bn Hbn H0) as [[(Hr & _ & Hnb & _) Hu] Hi].
  split_and!; [|done|done]. apply not_eq_sym. apply Hnb. pose proof (ly_size _ _ _ (wk_layout _ _ _ _ _ _ _ Hw)). lia.
Qed.

(** Giving a file a block does not change its content: the block is zeroed. *)
Lemma mapped_fbyte s st bs k i ip bn a s' bs' ip' nf q :
  working s st bs ∅ k i ip -> mapped s st bs k i ip bn a s' bs' ip' nf -> 0 <= q < MAXFILE * BSIZE ->
  fbyte (vw s') ip' q = fbyte (vw s) ip q.
Proof.
  intros Hw [_ Hg [Ha H0] Ho Hnew Hold] Hq. unfold fbyte. set (bq := q / BSIZE).
  assert (Hbq : 0 <= bq < MAXFILE).
  { split; [apply Z.div_pos; unfold BSIZE; lia|]. apply Z.div_lt_upper_bound; unfold BSIZE in *; lia. }
  assert (Hsame : block_of (vw s) ip bq <> 0 -> vw s' (block_of (vw s) ip bq) = vw s (block_of (vw s) ip bq)).
  { intros Hb. apply (gr_kept _ _ _ _ _ _ _ _ _ _ Hg); [by eapply in_use_kept|done]. }
  destruct (decide (bq = bn)) as [->|Hne].
  - rewrite Ha, (proj2 (Z.eqb_neq a 0)) by done. destruct (Z.eqb_spec (block_of (vw s) ip bn) 0) as [E|E].
    + destruct (Hnew E) as [-> _]. unfold zeros. apply lookup_total_replicate_2.
      pose proof (Z.mod_pos_bound q BSIZE). unfold BSIZE in *. lia.
    + destruct (Hold E) as [Eo _]. rewrite Eo in Hsame |- *. by rewrite Hsame.
  - rewrite Ho by done. destruct (Z.eqb_spec (block_of (vw s) ip bq) 0) as [E|E]; [done|]. by rewrite Hsame.
Qed.

(** The content after the bytes [d] went to offset [off] of its block. *)
Lemma splice_fbyte (V V' : Z -> list Z) x st ip off (d d' : list Z) q :
  file_map V x st ip -> 0 <= off -> off mod BSIZE + Z.of_nat (length d) <= BSIZE ->
  let a := block_of V ip (off / BSIZE) in a <> 0 -> off / BSIZE < MAXFILE ->
  splice (Z.to_nat (off mod BSIZE)) d (V a) = Some d' -> (forall m, V' m = if m =? a then d' else V m) ->
  0 <= q < MAXFILE * BSIZE ->
  fbyte V' ip q = if decide (off <= q < off + Z.of_nat (length d)) then d !!! Z.to_nat (q - off) else fbyte V ip q.
Proof.
  intros Hm Ho Hlen a H0 Hmax Hsp HV Hq.
  assert (Hbn : 0 <= off / BSIZE < MAXFILE) by (split; [apply Z.div_pos; unfold BSIZE; lia|done]).
  assert (Hbq : 0 <= q / BSIZE < MAXFILE).
  { split; [apply Z.div_pos; unfold BSIZE; lia|]. apply Z.div_lt_upper_bound; unfold BSIZE in *; lia. }
  assert (Hblk : forall bm, block_of V' ip bm = block_of V ip bm).
  { intros bm. apply block_of_same. intros Hi. rewrite HV. rewrite (proj2 (Z.eqb_neq _ _)); [done|].
    apply not_eq_sym. by apply (fm_data _ _ _ _ Hm (off / BSIZE)). }
  pose proof (Z.mod_pos_bound off BSIZE). pose proof (Z.mod_pos_bound q BSIZE).
  pose proof (Z.div_mod off BSIZE). pose proof (Z.div_mod q BSIZE).
  unfold fbyte. rewrite Hblk, HV. destruct (Z.eqb_spec (block_of V ip (q / BSIZE)) a) as [E|E].
  - assert (Hqb : q / BSIZE = off / BSIZE) by (symmetry; eapply (fm_inj _ _ _ _ Hm); done).
    rewrite E, (proj2 (Z.eqb_neq a 0)) by done. case_decide as Hin.
    + apply list_lookup_total_correct.
      replace (Z.to_nat (q mod BSIZE)) with (Z.to_nat (off mod BSIZE) + Z.to_nat (q - off))%nat by (unfold BSIZE in *; lia).
      rewrite (splice_lookup_in _ _ _ _ _ Hsp) by lia. apply list_lookup_lookup_total_lt. lia.
    + rewrite !list_lookup_total_alt. f_equal. apply (splice_lookup_out _ _ _ _ _ Hsp). unfold BSIZE in *. lia.
  - case_decide as Hin; [|done]. exfalso. apply E. unfold a. f_equal.
    symmetry. apply (Z.div_unique _ _ _ (q - BSIZE * (off / BSIZE))). { left. unfold BSIZE in *. lia. } lia.
Qed.

(** Writing into a block that the file has: the block [a] now shows [d]. *)
Lemma grown_write s s' bs i ip st bn (d : list Z) :
  stays s s' -> file_map (vw s) (sb s) st ip -> 0 <= bn < MAXFILE -> block_of (vw s) ip bn <> 0 ->
  (forall m, vw s' m = if m =? block_of (vw s) ip bn then d else vw s m) ->
  file_map (vw s') (sb s) st ip /\ (forall c, 0 <= c < sb_size (sb s) -> used (vw s') (sb s) c = used (vw s) (sb s) c) /\
  (forall bm, block_of (vw s') ip bm = block_of (vw s) ip bm) /\
  grown s bs i ip s' (log_add bs (block_of (vw s) ip bn)) ip 0 (missing bs (block_of (vw s) ip bn)) (fun b => b = bn).
Proof.
  intros St Hm Hbn H0 V. set (a := block_of (vw s) ip bn) in *.
  destruct (fm_data _ _ _ _ Hm bn Hbn H0) as [[(Hr & _ & Hnb & Hni) Hua] Hi]. fold a in Hr, Hnb, Hua, Hi.
  assert (Hu : forall c, 0 <= c < sb_size (sb s) -> used (vw s') (sb s) c = used (vw s) (sb s) c).
  { intros c Hc. unfold used. rewrite V. by rewrite (proj2 (Z.eqb_neq _ _)) by (by apply Hnb). }
  assert (Hind : vw s' (ind_block ip) = vw s (ind_block ip)) by (rewrite V; by rewrite (proj2 (Z.eqb_neq _ _)) by done).
  assert (Hb : forall bm, block_of (vw s') ip bm = block_of (vw s) ip bm) by (intros; by apply block_of_same).
  split_and!; [|done|done|].
  - eapply file_map_same; [exact Hm| |done]. intros c [Hd Hc]. split; [done|]. rewrite Hu; [done|apply Hd].
  - split.
    + by apply stays_istays.
    + by destruct ip.
    + by left.
    + done.
    + intros m _ Hne. rewrite V. destruct (Z.eqb_spec m a) as [->|]; [|done].
      exfalso. apply H0, (Hne bn); [done..|]. apply Hb.
    + intros c Hc. by rewrite Hu.
    + unfold nfree. rewrite (filter_same (fun b => used (vw s) (sb s) b = false) (fun b => used (vw s') (sb s) b = false)); [lia|].
      intros c Hc%elem_of_seqZ. rewrite Hu by lia. done.
    + rewrite (pot_stays _ _ _ _ St). unfold pot. rewrite length_log_add, !missing_add. repeat case_decide; lia.
    + intros m Hm'. by apply log_add_incl.
Qed.

(** One round of [writei]. *)
Definition write_block (i : nat) (ip : inode) (off : Z) (d : list Z) : F D unit :=
  do a <- bmap i (off / BSIZE);
  do bp <- bread (idev ip) a;
  finish_block bp (splice (Z.to_nat (off mod BSIZE)) d).

(** What the round did to the file: the bytes [d] are at [off]. *)
Record wrote s st bs k i ip (lo : Z) (d : list Z) s' bs' ip' (nf c : nat) (W : Z -> Prop) : Prop := {
  wr_working : working s' st bs' ∅ k i ip';
  wr_grown : grown s bs i ip s' bs' ip' nf c W;
  wr_bytes : forall q, 0 <= q < MAXFILE * BSIZE ->
    fbyte (vw s') ip' q = if decide (lo <= q < lo + Z.of_nat (length d)) then d !!! Z.to_nat (q - lo) else fbyte (vw s) ip q;
  wr_has : has_blocks (vw s') ip' lo (lo + Z.of_nat (length d));
  wr_fresh : forall bm, 0 <= bm < MAXFILE -> block_of (vw s') ip' bm = block_of (vw s) ip bm \/
    used (vw s) (sb s) (block_of (vw s') ip' bm) = false;
  wr_keep : has_blocks (vw s) ip lo (lo + Z.of_nat (length d)) -> ip' = ip
}.

Lemma write_block_run s st bs k i ip off d :
  bmap_pre s st bs k i ip -> 0 <= off -> off / BSIZE < MAXFILE -> off mod BSIZE + Z.of_nat (length d) <= BSIZE ->
  (0 < length d)%nat ->
  exists s' bs' ip', write_block i ip off d s = Ret tt s' /\
    wrote s st bs k i ip off d s' bs' ip' 2 1 (fun b => b = off / BSIZE).
Proof.
  intros Hpre Ho Hmax Hlen Hpos. pose proof Hpre as (Hw & Hro & Hn).
  assert (Hbn : 0 <= off / BSIZE < MAXFILE) by (split; [apply Z.div_pos; unfold BSIZE; lia|done]).
  unfold write_block. destruct (bmap_run s st bs k i ip (off / BSIZE) Hpre Hbn) as (a & s1 & bs1 & ip1 & E1 & Hmp).
  runs1 E1. rewrite (fm_dev _ _ _ _ (wk_map _ _ _ _ _ _ _ Hw)). pose proof Hmp as [Hw1 Hg1 [Ha H0] Hot Hnew Hold].
  pose proof (wk_map _ _ _ _ _ _ _ Hw1) as Hm1. subst a. set (a := block_of (vw s1) ip1 (off / BSIZE)) in *.
  destruct (fm_data _ _ _ _ Hm1 (off / BSIZE) Hbn H0) as [Hua Hai]. fold a in Hua, Hai.
  assert (Hro1 : room s1 bs1 (pot s1 bs1 ip1 + (1 + missing bs1 a))).
  { eapply room_grown; [exact Hg1|]. eapply room_le; [|exact Hro]. pose proof (missing_le bs1 a). lia. }
  destruct (tx_bread s1 st bs1 ∅ k a (wk_tx _ _ _ _ _ _ _ Hw1)) as (e & s2 & E2 & T2 & S2 & St2 & V2 & _);
    [set_solver|by eapply in_use_rng|rewrite size_empty; unfold room in Hro1; lia|]. runs1 E2.
  rewrite union_empty_l_L in T2. pose proof (working_len _ _ _ _ _ _ _ _ Hw1 Hua) as Hla.
  destruct (splice_some (Z.to_nat (off mod BSIZE)) d (vw s1 a)) as [d' Hd'].
  { rewrite Hla. pose proof (Z.mod_pos_bound off BSIZE). unfold BSIZE in *. lia. }
  destruct (tx_finish s2 st bs1 {[a]} k e a _ _ d' T2 ltac:(set_solver) S2 Hd') as (s3 & E3 & T3 & St3 & V3 & _).
  { by rewrite (splice_length _ _ _ _ Hd'). } { apply Hua. }
  { eapply room_stays; [exact St2|]. eapply room_le; [|exact Hro1]. lia. }
  rewrite difference_diag_L in T3. rewrite E3.
  assert (St : stays s1 s3) by (by rewrite St2).
  assert (V : forall m, vw s3 m = if m =? a then d' else vw s1 m) by (intros m; by rewrite V3, V2).
  destruct (grown_write s1 s3 bs1 i ip1 st (off / BSIZE) d' St Hm1 Hbn H0 V) as (Hm3 & Hu3 & Hb3 & Hg3). fold a in Hg3.
  exists s3, (log_add bs1 a), ip1. split; [done|]. split.
  - split; rewrite ?(stays_sb _ _ St), ?(stays_disk _ _ St), ?(stays_inodes _ _ St); try apply Hw1; try done.
    intros c Hc. rewrite Hu3 by done. by apply (wk_free _ _ _ _ _ _ _ Hw1).
  - pose proof (missing_le bs1 a). 
    pose proof (grown_le _ _ _ _ _ _ _ _ _ _ _ (fun b => b = off / BSIZE) Hg1 (le_n _) (le_n _)) as Hg1'.
    eapply grown_sub; [eapply grown_trans; [exact Hg1'|exact Hg3]|lia|lia].
  - intros q Hq. rewrite (splice_fbyte _ _ _ _ _ off d d' q Hm1 Ho Hlen H0 Hmax Hd' V Hq).
    case_decide; [done|]. by eapply mapped_fbyte.
  - intros q Hq. rewrite Hb3. pose proof (Z.div_mod off BSIZE). pose proof (Z.mod_pos_bound off BSIZE).
    replace (q / BSIZE) with (off / BSIZE); [done|].
    apply (Z.div_unique _ _ _ (q - BSIZE * (off / BSIZE))). { left. unfold BSIZE in *. lia. } lia.
  - intros bm Hbm. rewrite Hb3. destruct (decide (bm = off / BSIZE)) as [->|Hne]; [|left; by apply Hot].
    destruct (decide (block_of (vw s) ip (off / BSIZE) = 0)) as [E|E]; [right; by apply Hnew|left; symmetry; by apply Hold].
  - intros Hb. apply Hold, Hb. lia.
Qed.

Lemma wrote_nil s st bs k i ip lo nf c :
  working s st bs ∅ k i ip -> wrote s st bs k i ip lo [] s bs ip nf c (fun _ => True).
Proof.
  intros Hw. split; try done.
  - eapply grown_le; [apply grown_refl|lia..].
  - intros q _. by rewrite decide_False by (simpl; lia).
  - intros q Hq. simpl in Hq. lia.
  - by left.
Qed.

Lemma wrote_app s st bs k i ip lo d1 s1 bs1 ip1 n1 c1 d2 s2 bs2 ip2 n2 c2 :
  wrote s st bs k i ip lo d1 s1 bs1 ip1 n1 c1 (fun _ => True) ->
  wrote s1 st bs1 k i ip1 (lo + Z.of_nat (length d1)) d2 s2 bs2 ip2 n2 c2 (fun _ => True) ->
  0 <= lo -> lo + Z.of_nat (length d1) + Z.of_nat (length d2) <= MAXFILE * BSIZE ->
  wrote s st bs k i ip lo (d1 ++ d2) s2 bs2 ip2 (n1 + n2) (c1 + c2) (fun _ => True).
Proof.
  intros [W1 G1 B1 H1 F1 K1] [W2 G2 B2 H2 F2 K2] Hlo Hhi.
  pose proof (istays_sb _ _ _ (gr_stays _ _ _ _ _ _ _ _ _ _ G1)) as Hsb1.
  pose proof (istays_sb _ _ _ (gr_stays _ _ _ _ _ _ _ _ _ _ G2)) as Hsb2. split.
  - done.
  - by eapply grown_trans.
  - intros q Hq. rewrite B2, B1 by done. rewrite length_app, Nat2Z.inj_add.
    destruct (decide (lo <= q < lo + Z.of_nat (length d1))) as [Ha|Ha].
    + rewrite decide_False by lia. rewrite decide_True by lia. by rewrite lookup_total_app_l by lia.
    + destruct (decide (lo + Z.of_nat (length d1) <= q < lo + Z.of_nat (length d1) + Z.of_nat (length d2))) as [Hb|Hb].
      * rewrite decide_True by lia. rewrite lookup_total_app_r by lia. f_equal. lia.
      * by rewrite decide_False by lia.
  - intros q. rewrite length_app, Nat2Z.inj_add. intros Hq.
    destruct (Z.lt_ge_cases q (lo + Z.of_nat (length d1))); [|apply H2; lia].
    assert (Hq1 : block_of (vw s1) ip1 (q / BSIZE) <> 0) by (apply H1; lia).
    rewrite (gr_mono _ _ _ _ _ _ _ _ _ _ G2); [done| |done].
    split; [apply Z.div_pos; unfold BSIZE; lia|]. apply Z.div_lt_upper_bound; unfold BSIZE in *; lia.
  - intros bm Hbm. destruct (F2 bm Hbm) as [E|E]; [rewrite E; by apply F1|]. rewrite Hsb1 in E.
    destruct (decide (block_of (vw s2) ip2 bm = 0)) as [E0|E0].
    + left. rewrite E0. destruct (decide (block_of (vw s) ip bm = 0)) as [->|Hz]; [done|]. exfalso.
      pose proof (gr_mono _ _ _ _ _ _ _ _ _ _ G1 bm Hbm Hz) as M1.
      rewrite (gr_mono _ _ _ _ _ _ _ _ _ _ G2 bm Hbm), M1 in E0; congruence.
    + right. destruct (fm_data _ _ _ _ (wk_map _ _ _ _ _ _ _ W2) bm Hbm E0) as [[(Hr & _) _] _].
      rewrite Hsb2, Hsb1 in Hr. destruct (used (vw s) (sb s) _) eqn:Eu; [|done].
      by rewrite (gr_used _ _ _ _ _ _ _ _ _ _ G1 _ Hr Eu) in E.
  - rewrite length_app, Nat2Z.inj_add. intros Hb. assert (E1 : ip1 = ip) by (apply K1; intros q Hq; apply Hb; lia).
    rewrite K2; [done|]. intros q Hq. assert (H0 : block_of (vw s) ip (q / BSIZE) <> 0) by (apply Hb; lia).
    rewrite (gr_mono _ _ _ _ _ _ _ _ _ _ G1); [done| |done].
    split; [apply Z.div_pos; unfold BSIZE; lia|]. apply Z.div_lt_upper_bound; unfold BSIZE in *; lia.
Qed.

Lemma writei_loop_run st k i n kk : forall s bs ip src off tot its,
  working s st bs ∅ k i ip -> room s bs (pot s bs ip + its + 1) -> (2 * its <= nfree (vw s) (sb s))%nat ->
  0 <= off -> 0 <= tot <= n -> off + (n - tot) <= MAXFILE * BSIZE -> n - tot <= Z.of_nat (length src) ->
  rounds kk off (n - tot) -> rounds (S its) off (n - tot) ->
  exists s' bs' ip', writei_loop kk i src off n tot s = Ret (off + (n - tot)) s' /\
    wrote s st bs k i ip off (take (Z.to_nat (n - tot)) src) s' bs' ip' (2 * its) its (fun _ => True).
Proof.
  induction kk as [|kk IH]; intros s bs ip src off tot its Hw Hro Hn Ho Ht Hmax Hsrc Hr Hits; [destruct Hr; lia|].
  cbn [writei_loop]. destruct (Z.ltb_spec tot n) as [Hlt|Hge].
  2:{ exists s, bs, ip. replace (n - tot) with 0 by lia. rewrite Z.add_0_r. split; [done|]. by apply wrote_nil. }
  fold (chunk off (n - tot)). set (m := chunk off (n - tot)).
  assert (Hm : 0 < m <= n - tot /\ off mod BSIZE + m <= BSIZE) by (apply chunk_range; lia).
  destruct its as [|its]; [destruct Hits as [_ Hi]; pose proof (Z.mod_pos_bound off BSIZE); unfold BSIZE in *; lia|].
  assert (Hbn : off / BSIZE < MAXFILE) by (apply Z.div_lt_upper_bound; unfold BSIZE in *; lia).
  set (d := take (Z.to_nat m) src). assert (Hd : length d = Z.to_nat m) by (unfold d; rewrite length_take; lia).
  assert (Hsub : sub 0 (Z.to_nat m) src = Some d) by (unfold sub; by rewrite decide_True by lia).
  runs1 (inode_at_run _ _ _ (wk_ino _ _ _ _ _ _ _ Hw)).
  destruct (write_block_run s st bs k i ip off d) as (s1 & bs1 & ip1 & E1 & Hwr); [|done|done|lia|lia|].
  { split_and!; [done|eapply room_le; [|exact Hro]; lia|lia]. }
  unfold write_block in E1. apply bind_inv in E1 as (a & sa & Ea & (e & sb' & Eb & Ec)%bind_inv).
  runs1 Ea. runs1 Eb. rewrite Hsub. unfold orUndef. rewrite bind_deref.
  rewrite (finish_block_then _ _ _ _ _ Ec).
  assert (Hoff : u32 (off + m) = off + m).
  { apply u32_small. unfold MAXFILE, NDIRECT, NINDIRECT, BSIZE in *. lia. }
  rewrite Hoff. pose proof Hwr as [W1 G1 B1 H1 F1 K1].
  pose proof (gr_nfree _ _ _ _ _ _ _ _ _ _ G1) as Hn1. pose proof (istays_sb _ _ _ (gr_stays _ _ _ _ _ _ _ _ _ _ G1)) as Hsb.
  destruct (IH s1 bs1 ip1 (drop (Z.to_nat m) src) (off + m) (tot + m) its) as (s2 & bs2 & ip2 & E2 & Hwr2); try done; try lia.
  - eapply room_le; [|eapply room_grown; [exact G1|eapply room_le; [|exact Hro]]]; [|instantiate (1 := S its)]; lia.
  - rewrite Hsb. lia.
  - rewrite length_drop. lia.
  - replace (n - (tot + m)) with (n - tot - m) by lia. apply rounds_next; [done|lia|done].
  - replace (n - (tot + m)) with (n - tot - m) by lia. apply rounds_next; [done|lia|done].
  - exists s2, bs2, ip2. rewrite E2. split; [f_equal; lia|].
    replace (take (Z.to_nat (n - tot)) src) with (d ++ take (Z.to_nat (n - (tot + m))) (drop (Z.to_nat m) src)).
    2:{ unfold d. rewrite take_take_drop. f_equal. lia. }
    replace (2 * S its)%nat with (2 + 2 * its)%nat by lia. eapply (wrote_app _ _ _ _ _ _ _ _ s1 bs1 ip1 2 1).
    + split; [done|by eapply grown_any|done..].
    + by rewrite Hd, Z2Nat.id by lia.
    + done.
    + rewrite Hd, length_take, length_drop. lia.
Qed.

(** ** The inode on disk *)

Lemma IBLOCK_eq x st size n :
  layout x st size -> 0 <= n < sb_ninodes x -> 0 < IBLOCK n x < size.
Proof.
  intros Hy Hn. destruct (ly_ino _ _ _ Hy) as (H1 & _ & H2). pose proof (ly_disk _ _ _ Hy).
  assert (0 <= n / IPB <= (sb_ninodes x - 1) / IPB).
  { split; [apply Z.div_pos; unfold IPB; lia|]. apply Z.div_le_mono; [done|lia]. }
  unfold IBLOCK. rewrite u32_small by lia. lia.
Qed.

(** A block that is neither a data block nor a bitmap block changed. *)
Lemma working_meta s s' st bs bs' k i ip n (d : list Z) :
  working s st bs ∅ k i ip -> tx s' st bs' ∅ k -> stays s s' -> 0 <= n < sb_ninodes (sb s) ->
  (forall m, vw s' m = if m =? IBLOCK n (sb s) then d else vw s m) ->
  working s' st bs' ∅ k i ip /\ (forall bm, block_of (vw s') ip bm = block_of (vw s) ip bm) /\
  (forall b, in_use (vw s) (sb s) st b -> vw s' b = vw s b).
Proof.
  intros [Htx Hy Ho Hfr Hino Hm] T St Hn V.
  assert (Hu : forall c, 0 <= c < sb_size (sb s) -> used (vw s') (sb s) c = used (vw s) (sb s) c).
  { intros c Hc. unfold used. rewrite V. by rewrite (proj2 (Z.eqb_neq _ _)) by (apply not_eq_sym; by apply Hy). }
  assert (Hd : forall b, in_use (vw s) (sb s) st b -> vw s' b = vw s b).
  { intros b [(_ & _ & _ & Hni) _]. rewrite V. by rewrite (proj2 (Z.eqb_neq _ _)) by (apply not_eq_sym; by apply Hni). }
  assert (Hi : ind_block ip <> 0 -> vw s' (ind_block ip) = vw s (ind_block ip)).
  { intros H0. apply Hd. by apply (fm_ind _ _ _ _ Hm). }
  split_and!; [|intros; by apply block_of_same|done].
  split; rewrite ?(stays_sb _ _ St), ?(stays_disk _ _ St), ?(stays_inodes _ _ St); try done.
  - intros c Hc. rewrite Hu by done. by apply Hfr.
  - eapply file_map_same; [exact Hm| |done]. intros c [Hdb Hc]. split; [done|]. rewrite Hu; [done|apply Hdb].
Qed.

Lemma iupdate_run s st bs k i ip :
  working s st bs ∅ k i ip -> 0 <= inum ip < sb_ninodes (sb s) -> room s bs 1 ->
  exists s' d, iupdate i s = Ret tt s' /\ working s' st (log_add bs (IBLOCK (inum ip) (sb s))) ∅ k i ip /\ stays s s' /\
    put_dinode ip (dip_off (inum ip)) (vw s (IBLOCK (inum ip) (sb s))) = Some d /\
    (forall m, vw s' m = if m =? IBLOCK (inum ip) (sb s) then d else vw s m) /\
    (forall bm, block_of (vw s') ip bm = block_of (vw s) ip bm) /\
    (forall b, in_use (vw s) (sb s) st b -> vw s' b = vw s b).
Proof.
  intros Hw Hn Hro. pose proof Hw as [Htx Hy Ho Hfr Hino Hm]. unfold iupdate.
  runs1 (inode_at_run _ _ _ Hino). rewrite bind_gets, (fm_dev _ _ _ _ Hm).
  assert (Hr : rng s (IBLOCK (inum ip) (sb s))) by (pose proof (IBLOCK_eq _ _ _ _ Hy Hn); unfold rng; lia). set (n := IBLOCK (inum ip) (sb s)) in *.
  destruct (put_dinode_some ip (dip_off (inum ip)) (vw s n)) as [d Hd].
  { by rewrite (fm_len _ _ _ _ Hm). } { rewrite (tx_vw_length _ _ _ _ _ _ Htx Hr). apply dip_off_range. lia. }
  destruct (tx_bread s st bs ∅ k n Htx) as (e & s1 & E1 & T1 & S1 & St1 & V1 & _);
    [set_solver|done|rewrite size_empty; unfold room in Hro; lia|]. runs1 E1.
  runs1 (inode_at_run s1 i ip ltac:(by rewrite (stays_inodes _ _ St1))). rewrite union_empty_l_L in T1.
  destruct (tx_finish s1 st bs {[n]} k e n _ _ d T1 ltac:(set_solver) S1 Hd) as (s2 & E2 & T2 & St2 & V2 & _).
  { rewrite (put_dinode_length _ _ _ _ Hd). by eapply tx_vw_length. } { by apply Hy. } { by eapply room_stays. }
  rewrite difference_diag_L in T2. assert (St : stays s s2) by (by rewrite St1).
  assert (V : forall m, vw s2 m = if m =? n then d else vw s m) by (intros m; rewrite V2; by case_match).
  destruct (working_meta s s2 st bs _ k i ip (inum ip) d Hw T2 St Hn V) as (W & B & U).
  exists s2, d. split_and!; [exact E2|done..].
Qed.

(** ** writei *)

Lemma put_size_map V x st ip n : file_map V x st ip -> file_map V x st (ip <| isize := n |>).
Proof. by intros []. Qed.

(** The inode on disk is [ip]. *)
Definition on_disk (V : Z -> list Z) (x : superblock) (ip : inode) : Prop :=
  get_dinode (dip_off (inum ip)) (V (IBLOCK (inum ip) x)) ip = Some ip.

(** A file on disk has a block for every byte below its size. *)
Definition solid (V : Z -> list Z) (ip : inode) : Prop :=
  0 <= isize ip <= MAXFILE * BSIZE /\ has_blocks V ip 0 (isize ip).

(** What [writei] did to the file. *)
Record written s (st : Z) (bs : list Z) (k : Z) (i : nat) (ip : inode) (lo : Z) (d : list Z)
    (s' : fsys D) (bs' : list Z) (ip' : inode) (c : nat) : Prop := {
  wn_working : working s' st bs' ∅ k i ip';
  wn_size : isize ip' = Z.max (isize ip) (lo + Z.of_nat (length d));
  wn_ids : ip' = ip <| iaddrs := iaddrs ip' |> <| isize := isize ip' |>;
  wn_bytes : forall q, 0 <= q < MAXFILE * BSIZE ->
    fbyte (vw s') ip' q = if decide (lo <= q < lo + Z.of_nat (length d)) then d !!! Z.to_nat (q - lo) else fbyte (vw s) ip q;
  wn_has : has_blocks (vw s') ip' lo (lo + Z.of_nat (length d));
  wn_old : forall bm, 0 <= bm < MAXFILE -> block_of (vw s) ip bm <> 0 -> block_of (vw s') ip' bm = block_of (vw s) ip bm;
  wn_frame : forall m, kept s ip m -> (forall bm, 0 <= bm < MAXFILE -> block_of (vw s) ip bm <> m) ->
    m <> IBLOCK (inum ip) (sb s) -> vw s' m = vw s m;
  wn_log : (length bs' <= length bs + c)%nat;
  wn_limits : log_limits (lg s') = log_limits (lg s);
  wn_stays : istays i s s';
  wn_disk : inode_wf ip -> solid (vw s) ip -> on_disk (vw s) (sb s) ip ->
    inode_wf ip' /\ solid (vw s') ip' /\ on_disk (vw s') (sb s) ip'
}.

(** The blocks of other files are not among those that the file got. *)
Lemma wrote_frame s st bs k i ip lo d s' bs' ip' nf c m :
  working s st bs ∅ k i ip -> wrote s st bs k i ip lo d s' bs' ip' nf c (fun _ => True) -> kept s ip m ->
  (forall bm, 0 <= bm < MAXFILE -> block_of (vw s) ip bm <> m) -> vw s' m = vw s m.
Proof.
  intros Hw [W G _ _ F _] Hk Hne. apply (gr_kept _ _ _ _ _ _ _ _ _ _ G); [done|].
  intros bm _ Hbm E. destruct (decide (m = 0)) as [|H0]; [done|]. exfalso.
  destruct (F bm Hbm) as [Eb|Eb]; [apply (Hne bm Hbm); congruence|].
  destruct (fm_data _ _ _ _ (wk_map _ _ _ _ _ _ _ W) bm Hbm) as [[(Hr & _) _] _]; [congruence|].
  rewrite (istays_sb _ _ _ (gr_stays _ _ _ _ _ _ _ _ _ _ G)) in Hr. rewrite E in Eb, Hr.
  destruct Hk as (_ & _ & Hu). by rewrite Hu in Eb.
Qed.

(** An inode block is none of the blocks of a file. *)
Lemma inode_kept s st bs H k i ip n :
  working s st bs H k i ip -> 0 <= n < sb_ninodes (sb s) ->
  kept s ip (IBLOCK n (sb s)) /\ forall bm, 0 <= bm < MAXFILE -> block_of (vw s) ip bm <> IBLOCK n (sb s).
Proof.
  intros [_ Hy Ho Hfr _ Hm] Hn. pose proof (IBLOCK_eq _ _ _ _ Hy Hn) as Hr. pose proof (ly_size _ _ _ Hy).
  split; [split_and!|].
  - apply Hy; [lia|done].
  - intros E. destruct (decide (ind_block ip = 0)); [lia|].
    destruct (fm_ind _ _ _ _ Hm) as [(_ & _ & _ & Hni) _]; [done|]. by eapply Hni.
  - intros Hs. destruct (used (vw s) (sb s) (IBLOCK n (sb s))) eqn:E; [done|].
    destruct (Hfr _ Hs E) as [_ (_ & _ & _ & Hni)]. by destruct (Hni n Hn).
  - intros bm Hbm E. destruct (decide (block_of (vw s) ip bm = 0)); [lia|].
    destruct (fm_data _ _ _ _ Hm bm Hbm) as [[(_ & _ & _ & Hni) _] _]; [done|]. by eapply Hni.
Qed.

Lemma file_map_addrs V x st size ip :
  layout x st size -> file_map V x st ip -> Forall (fun a => 0 <= a < 2 ^ 32) (iaddrs ip).
Proof.
  intros Hy Hm. pose proof (ly_size _ _ _ Hy) as Hs1. pose proof (ly_disk _ _ _ Hy) as Hs2.
  assert (Hu : forall b, in_use V x st b -> 0 <= b < 2 ^ 32) by (intros b [(Hb & _) _]; lia).
  apply Forall_lookup. intros j a Ha. pose proof (lookup_lt_Some _ _ _ Ha) as Hj. rewrite (fm_len _ _ _ _ Hm) in Hj.
  destruct (decide (a = 0)) as [->|H0]; [lia|]. apply Hu. destruct (decide (j = ind_slot)) as [->|Hne].
  - apply list_lookup_total_correct in Ha. rewrite <-Ha in H0 |- *. by apply (fm_ind _ _ _ _ Hm).
  - assert (Hb : block_of V ip (Z.of_nat j) = a).
    { unfold block_of. rewrite (proj2 (Z.ltb_lt _ NDIRECT)) by (unfold ind_slot in *; lia). rewrite Nat2Z.id.
      by apply list_lookup_total_correct. }
    rewrite <-Hb in H0 |- *. apply (fm_data _ _ _ _ Hm); [|done]. unfold ind_slot, MAXFILE, NINDIRECT, NDIRECT in *. lia.
Qed.

(** Blocks that a file has stay its blocks. *)
Lemma has_blocks_mono s bs i ip s' bs' ip' nf c W lo hi :
  grown s bs i ip s' bs' ip' nf c W -> 0 <= lo -> hi <= MAXFILE * BSIZE ->
  has_blocks (vw s) ip lo hi -> has_blocks (vw s') ip' lo hi.
Proof.
  intros G Hlo Hhi Hb q Hq. pose proof (Hb q Hq) as H0. rewrite (gr_mono _ _ _ _ _ _ _ _ _ _ G); [done| |done].
  split; [apply Z.div_pos; unfold BSIZE; lia|]. apply Z.div_lt_upper_bound; unfold BSIZE in *; lia.
Qed.

(** The file did not grow. *)
Lemma written_same s st bs k i ip lo d s' bs' ip' nf its :
  working s st bs ∅ k i ip -> wrote s st bs k i ip lo d s' bs' ip' nf its (fun _ => True) ->
  0 <= inum ip < sb_ninodes (sb s) -> 0 <= lo -> lo + Z.of_nat (length d) <= isize ip ->
  written s st bs k i ip lo d s' bs' ip' (pot s bs ip + its + 1).
Proof.
  intros Hw Hwr Hin Hlo Hle. pose proof Hwr as [W G B H F K]. pose proof (gr_inode _ _ _ _ _ _ _ _ _ _ G) as Hip.
  split; try done.
  - rewrite Hip. cbn. lia.
  - rewrite Hip. by destruct ip.
  - apply (gr_mono _ _ _ _ _ _ _ _ _ _ G).
  - intros m Hk Hne _. by eapply wrote_frame.
  - pose proof (gr_cost _ _ _ _ _ _ _ _ _ _ G). lia.
  - apply (gr_stays _ _ _ _ _ _ _ _ _ _ G).
  - apply (gr_stays _ _ _ _ _ _ _ _ _ _ G).
  - intros Hwf [Hsz Hsol] Hod. assert (ip' = ip) as -> by (apply K; intros q Hq; apply Hsol; lia).
    split_and!; [done|split; [done|by eapply has_blocks_mono; [exact G|lia..|]]|].
    destruct (inode_kept s st bs ∅ k i ip (inum ip) Hw Hin) as [Hk Hne].
    unfold on_disk. by rewrite (wrote_frame _ _ _ _ _ _ _ _ _ _ _ _ _ _ Hw Hwr Hk Hne).
Qed.

(** The file grew: ip->size = off; iupdate(ip). *)
Lemma written_grow s st bs k i ip lo d s1 bs1 ip1 nf its :
  working s st bs ∅ k i ip -> wrote s st bs k i ip lo d s1 bs1 ip1 nf its (fun _ => True) ->
  0 <= inum ip < sb_ninodes (sb s) -> 0 <= lo <= isize ip ->
  isize ip <= lo + Z.of_nat (length d) <= MAXFILE * BSIZE ->
  room s bs (pot s bs ip + its + 1) ->
  exists s' bs' ip', (upd_inode i (fun ip => ip <| isize := lo + Z.of_nat (length d) |>);; iupdate i) s1 = Ret tt s' /\
    written s st bs k i ip lo d s' bs' ip' (pot s bs ip + its + 1).
Proof.
  intros Hw Hwr Hin Hlo Hhi Hro. pose proof Hwr as [W1 G1 B1 H1 F1 K1].
  pose proof (gr_stays _ _ _ _ _ _ _ _ _ _ G1) as St1. pose proof (istays_sb _ _ _ St1) as Hsb.
  pose proof (gr_inode _ _ _ _ _ _ _ _ _ _ G1) as Hip. pose proof (gr_cost _ _ _ _ _ _ _ _ _ _ G1) as Hc.
  set (sz := lo + Z.of_nat (length d)) in *.
  runs1 (upd_inode_run s1 i ip1 (fun ip => ip <| isize := sz |>) (wk_ino _ _ _ _ _ _ _ W1)).
  set (ip2 := ip1 <| isize := sz |>). fold (put_inode i ip2 s1).
  pose proof (working_put _ _ _ _ _ _ _ ip2 W1 (put_size_map _ _ _ _ _ (wk_map _ _ _ _ _ _ _ W1))) as W2.
  assert (Hro2 : room (put_inode i ip2 s1) bs1 1).
  { change (room s1 bs1 1). eapply room_le; [|eapply (room_grown _ _ _ _ _ _ _ _ _ 1); [exact G1|exact Hro]]. lia. }
  assert (Hin2 : inum ip2 = inum ip) by (unfold ip2; by rewrite Hip).
  destruct (iupdate_run (put_inode i ip2 s1) st bs1 k i ip2 W2) as (s3 & d3 & E3 & W3 & St3 & Hd & V3 & B3 & U3);
    [rewrite Hin2; change (sb (put_inode i ip2 s1)) with (sb s1); by rewrite Hsb|done|].
  change (vw (put_inode i ip2 s1)) with (vw s1) in *. change (sb (put_inode i ip2 s1)) with (sb s1) in *.
  rewrite Hin2, Hsb in *. eexists s3, _, ip2. split; [exact E3|].
  assert (Hb3 : forall bm, block_of (vw s3) ip2 bm = block_of (vw s1) ip1 bm) by exact B3.
  assert (Hf3 : forall q, 0 <= q < MAXFILE * BSIZE -> fbyte (vw s3) ip2 q = fbyte (vw s1) ip1 q).
  { intros q Hq. unfold fbyte. rewrite Hb3. destruct (Z.eqb_spec (block_of (vw s1) ip1 (q / BSIZE)) 0) as [|E0]; [done|].
    rewrite U3; [done|]. rewrite <-Hsb. apply (fm_data _ _ _ _ (wk_map _ _ _ _ _ _ _ W1)); [|done].
    split; [apply Z.div_pos; unfold BSIZE; lia|]. apply Z.div_lt_upper_bound; unfold BSIZE in *; lia. }
  split.
  - exact W3.
  - change (isize ip2) with sz. lia.
  - unfold ip2. rewrite Hip. by destruct ip.
  - intros q Hq. rewrite Hf3 by done. by apply B1.
  - intros q Hq. rewrite Hb3. by apply H1.
  - intros bm Hbm H0. rewrite Hb3. by apply (gr_mono _ _ _ _ _ _ _ _ _ _ G1).
  - intros m Hk Hne Hmi. rewrite V3, (proj2 (Z.eqb_neq _ _)) by done. by eapply wrote_frame.
  - pose proof (log_add_length bs1 (IBLOCK (inum ip) (sb s))). lia.
  - transitivity (log_limits (lg s1)); [apply St3|apply St1].
  - rewrite St1, (istays_put i ip2 s1). by apply stays_istays.
  - intros Hwf [Hsz Hsol] _. assert (Hwf2 : inode_wf ip2).
    { destruct Hwf as [? ? ? ? _ _ _]. assert (Hm2 := wk_map _ _ _ _ _ _ _ W2). pose proof (wk_layout _ _ _ _ _ _ _ W2) as Hy2.
      split; try (unfold ip2; rewrite Hip; done).
      - change (isize ip2) with sz. unfold MAXFILE, NDIRECT, NINDIRECT, BSIZE in *. lia.
      - by rewrite (fm_len _ _ _ _ Hm2).
      - by eapply file_map_addrs. }
    split_and!; [done| |].
    + split; [change (isize ip2) with sz; lia|]. change (isize ip2) with sz. intros q Hq. rewrite Hb3.
      destruct (Z.lt_ge_cases q lo); [|apply H1; unfold sz in *; lia].
      eapply has_blocks_mono; [exact G1|done| |exact Hsol|]; lia.
    + unfold on_disk. rewrite Hin2, V3, Z.eqb_refl. rewrite (get_put_dinode _ _ _ _ _ Hwf2 Hd). by destruct ip2.
Qed.

Lemma writei_run s st bs k i ip src off n its :
  working s st bs ∅ k i ip -> 0 <= inum ip < sb_ninodes (sb s) -> itype ip <> T_DEV ->
  0 <= off <= isize ip -> 0 <= n -> off + n <= MAXFILE * BSIZE -> n <= Z.of_nat (length src) ->
  rounds (S its) off n -> room s bs (pot s bs ip + its + 1) -> (2 * its <= nfree (vw s) (sb s))%nat ->
  exists s' bs' ip', writei i src off n s = Ret n s' /\
    written s st bs k i ip off (take (Z.to_nat n) src) s' bs' ip' (pot s bs ip + its + 1).
Proof.
  intros Hw Hin Hty Hoff Hn Hmax Hsrc Hits Hro Hnf.
  assert (Hbig : MAXFILE * BSIZE < 2 ^ 31) by done. assert (Hrn : s32 n = n) by (apply s32_small; lia).
  assert (Hlen : Z.of_nat (length (take (Z.to_nat n) src)) = n) by (rewrite length_take; lia).
  unfold writei. runs1 (inode_at_run _ _ _ (wk_ino _ _ _ _ _ _ _ Hw)).
  rewrite (proj2 (Z.eqb_neq (itype ip) T_DEV)) by done. rewrite u32_small by lia.
  rewrite (proj2 (Z.ltb_ge (isize ip) off)), (proj2 (Z.ltb_ge (off + n) off)) by lia. cbn [orb].
  rewrite (proj2 (Z.ltb_ge (MAXFILE * BSIZE) (off + n))) by lia.
  destruct (writei_loop_run st k i n (Z.to_nat (n / BSIZE) + 3) s bs ip src off 0 its) as (s1 & bs1 & ip1 & E1 & Hwr);
    rewrite ?Z.sub_0_r; try done; try lia; [by apply rounds_start; lia|]. rewrite Z.sub_0_r in E1, Hwr.
  runs1 E1. pose proof Hwr as [W1 G1 _ _ _ _]. runs1 (inode_at_run _ _ _ (wk_ino _ _ _ _ _ _ _ W1)).
  assert (Hsz : isize ip1 = isize ip) by (by rewrite (gr_inode _ _ _ _ _ _ _ _ _ _ G1)).
  rewrite Hrn, Hsz. destruct (Z.ltb_spec 0 n), (Z.ltb_spec (isize ip) (off + n)); cbn [andb whenM];
    try (exists s1, bs1, ip1; split; [done|]; eapply written_same; [done..|lia|lia]).
  destruct (written_grow s st bs k i ip off (take (Z.to_nat n) src) s1 bs1 ip1 _ its Hw Hwr Hin) as (s2 & bs2 & ip2 & E2 & Hwn);
    [lia|lia|done|]. rewrite Hlen in E2. runs1 E2. by exists s2, bs2, ip2.
Qed.

(** ** readi *)

Lemma readi_run s st bs k i ip off n :
  working s st bs ∅ k i ip -> (length bs < NBUF)%nat -> itype ip <> T_DEV -> isize ip <= MAXFILE * BSIZE ->
  0 <= off <= isize ip -> 0 <= n < 2 ^ 31 -> has_blocks (vw s) ip off (Z.min (off + n) (isize ip)) ->
  let m := Z.min n (isize ip - off) in
  exists s', readi i off n s = Ret (m, fbytes (vw s) ip off (Z.to_nat m)) s' /\
    working s' st bs ∅ k i ip /\ stays s s' /\ vw s' = vw s.
Proof.
  intros Hw Hl Hty Hsz Hoff Hn Hb m. assert (Hbig : MAXFILE * BSIZE < 2 ^ 31) by done.
  unfold readi. runs1 (inode_at_run _ _ _ (wk_ino _ _ _ _ _ _ _ Hw)).
  rewrite (proj2 (Z.eqb_neq (itype ip) T_DEV)) by done. rewrite !(u32_small (off + n)) by lia.
  rewrite (proj2 (Z.ltb_ge (isize ip) off)), (proj2 (Z.ltb_ge (off + n) off)) by lia. cbn [orb].
  assert (Em : (if isize ip <? off + n then u32 (isize ip - off) else n) = m).
  { unfold m. destruct (Z.ltb_spec (isize ip) (off + n)); [rewrite u32_small by lia|]; lia. }
  rewrite Em. destruct (readi_loop_run st bs k i ip m (Z.to_nat (m / BSIZE) + 3) s off 0) as (s1 & E1 & W1 & St1 & V1);
    rewrite ?Z.sub_0_r; try done; try lia.
  - intros q Hq. apply Hb. lia.
  - apply rounds_start; lia.
  - rewrite Z.sub_0_r in E1. runs1 E1. rewrite s32_small by lia. by exists s1.
Qed.
End FsRw.
