(* ===== verification/FileSpec.v ===== *)
(** * The file table counts references

    A handle is one reference to an open file: a descriptor of some process or
    a pointer a system call holds.  [refs_ok s hs] says that the reference
    count of every slot is the number of handles in [hs] that name it; the
    operations of the table keep it, [filealloc] never gives out a slot that a
    handle names, and only the [fileclose] of the last handle releases the
    object behind the file. *)
From S2P Require Import Prelude Bytes Cstring Spinlock ProcDefs Memory Kalloc FsDefs Bio Log Fs File.
Local Open Scope Z_scope.
Local Open Scope kernel_scope.

Definition handles_of (i : nat) (hs : list nat) : Z := Z.of_nat (length (filter (fun j => j = i) hs)).

Lemma handles_cons i j hs : handles_of i (j :: hs) = handles_of i hs + if decide (j = i) then 1 else 0.
Proof. unfold handles_of. rewrite filter_cons. case_decide; cbn [length]; lia. Qed.

Lemma handles_pos i hs : i ∈ hs -> 1 <= handles_of i hs.
Proof.
  intros Hi. unfold handles_of. assert (i ∈ filter (fun j => j = i) hs) as Hf by (by apply list_elem_of_filter).
  destruct (filter _ hs); [set_solver|]. cbn [length]. lia.
Qed.

Lemma handles_zero i hs : handles_of i hs = 0 -> i ∉ hs.
Proof. intros H Hi. apply handles_pos in Hi. lia. Qed.

Lemma handles_none i hs : i ∉ hs -> handles_of i hs = 0.
Proof.
  intros Hn. unfold handles_of. destruct (filter _ hs) as [|x l] eqn:E; [done|]. exfalso. apply Hn.
  assert (x ∈ filter (fun k => k = i) hs) as [-> Hx]%list_elem_of_filter by (rewrite E; by left). done.
Qed.

Lemma handles_permut i hs hs' : hs ≡ₚ hs' -> handles_of i hs = handles_of i hs'.
Proof. intros H. unfold handles_of. by rewrite H. Qed.

Section FileSpec.
Context (kend : Z) {D : Type} `{!Driver D, !Devices D}.
Implicit Types s : fsys D.

(** ** Runs *)

Definition put_file (i : nat) (f : file) s : fsys D := s <| files := <[i := f]> (files s) |>.

Lemma file_at_run s i f : files s !! i = Some f -> file_at i s = Ret f s.
Proof. intros H. unfold file_at. by rewrite bind_gets, H. Qed.

Lemma upd_file_run s i f g : files s !! i = Some f -> upd_file i g s = Ret tt (put_file i (g f) s).
Proof.
  intros H. unfold upd_file. runs1 (file_at_run _ _ _ H). unfold modify, put_file. f_equal.
  destruct s; cbn in *. by rewrite (list_alter_insert _ _ _ _ H).
Qed.

Lemma put_file_get s i f g : files s !! i = Some f -> files (put_file i g s) !! i = Some g.
Proof. intros H. cbn. apply list_lookup_insert_eq. by eapply lookup_lt_Some. Qed.

Lemma put_file_twice s i f g : put_file i f (put_file i g s) = put_file i f s.
Proof. destruct s. unfold put_file. cbn. by rewrite list_insert_insert_eq. Qed.

Definition ft_locked (b : bool) s : fsys D := s <| ft_lock := b |>.

Lemma ftable_acquire_run s : ft_lock s = false -> ftable_acquire s = Ret tt (ft_locked true s).
Proof. intros H. unfold ftable_acquire, lock_acq. by rewrite bind_gets, H. Qed.

Lemma ftable_release_put s i f : ft_lock s = false ->
  ftable_release (put_file i f (ft_locked true s)) = Ret tt (put_file i f s).
Proof. intros H. destruct s; cbn in *; by subst. Qed.

Lemma ftable_release_run s : ft_lock s = false -> ftable_release (ft_locked true s) = Ret tt s.
Proof. intros H. destruct s; cbn in *; by subst. Qed.

(** The first free slot, if there is one. *)
Lemma filealloc_run s :
  ft_lock s = false ->
  filealloc s =
    match list_find (fun f => f_ref f = 0) (files s) with
    | Some (i, f) => Ret (Some i) (put_file i (f <| f_ref := 1 |>) s)
    | None => Ret None s
    end.
Proof.
  intros Hl. unfold filealloc. runs1 (ftable_acquire_run s Hl). rewrite bind_gets.
  change (files (ft_locked true s)) with (files s).
  destruct (list_find _ (files s)) as [[i f]|] eqn:E.
  - apply list_find_Some in E as (Hf & _ & _).
    runs1 (upd_file_run (ft_locked true s) i f (fun f => f <| f_ref := 1 |>) Hf). by runs1 (ftable_release_put s i (f <| f_ref := 1 |>) Hl).
  - by runs1 (ftable_release_run s Hl).
Qed.

Lemma filedup_run s i f :
  ft_lock s = false -> files s !! i = Some f -> 1 <= f_ref f ->
  filedup i s = Ret i (put_file i (f <| f_ref := f_ref f + 1 |>) s).
Proof.
  intros Hl Hf Hr. unfold filedup. runs1 (ftable_acquire_run s Hl). runs1 (file_at_run (ft_locked true s) i f Hf).
  rewrite (proj2 (Z.ltb_ge (f_ref f) 1)) by done.
  runs1 (upd_file_run (ft_locked true s) i f (fun f => f <| f_ref ::= fun n => n + 1 |>) Hf).
  by runs1 (ftable_release_put s i (f <| f_ref := f_ref f + 1 |>) Hl).
Qed.

(** What the last [fileclose] does once the slot is free. *)
Definition release_object (f : file) : F D unit :=
  match f_type f with
  | FD_PIPE => pipeclose kend (f_pipe f) (f_writable f)
  | FD_INODE => begin_op;; iput (f_ip f);; end_op
  | FD_NONE => ret tt
  end.

Lemma fileclose_run s i f :
  ft_lock s = false -> files s !! i = Some f -> 1 <= f_ref f ->
  fileclose kend i s =
    if 1 <? f_ref f then Ret tt (put_file i (f <| f_ref := f_ref f - 1 |>) s)
    else release_object f (put_file i (f <| f_ref := 0 |> <| f_type := FD_NONE |>) s).
Proof.
  intros Hl Hf Hr. unfold fileclose. runs1 (ftable_acquire_run s Hl). runs1 (file_at_run (ft_locked true s) i f Hf).
  rewrite (proj2 (Z.ltb_ge (f_ref f) 1)) by done.
  runs1 (upd_file_run (ft_locked true s) i f (fun f => f <| f_ref ::= fun n => n - 1 |>) Hf).
  set (f1 := f <| f_ref := f_ref f - 1 |>). change (f <| f_ref ::= fun n => n - 1 |>) with f1.
  pose proof (put_file_get (ft_locked true s) i f f1 Hf) as Hf1. runs1 (file_at_run _ _ _ Hf1).
  change (f_ref f1) with (f_ref f - 1). replace (0 <? f_ref f - 1) with (1 <? f_ref f) by lia.
  destruct (1 <? f_ref f); [by apply ftable_release_put|].
  runs1 (upd_file_run _ i f1 (fun f => f <| f_ref := 0 |>) Hf1). rewrite put_file_twice.
  set (f2 := f1 <| f_ref := 0 |>). pose proof (put_file_get (ft_locked true s) i f f2 Hf) as Hf2.
  runs1 (upd_file_run _ i f2 (fun f => f <| f_type := FD_NONE |>) Hf2). rewrite put_file_twice.
  by runs1 (ftable_release_put s i (f2 <| f_type := FD_NONE |>) Hl).
Qed.

(** ** The invariant *)

Definition refs_ok s (hs : list nat) : Prop :=
  ft_lock s = false /\ (forall i, i ∈ hs -> (i < length (files s))%nat) /\
  forall i f, files s !! i = Some f -> f_ref f = handles_of i hs.

Lemma refs_put s hs hs' i f f' :
  refs_ok s hs -> files s !! i = Some f -> f_ref f' = handles_of i hs' ->
  (forall j, j <> i -> handles_of j hs' = handles_of j hs) -> refs_ok (put_file i f' s) hs'.
Proof.
  intros (Hl & Hb & Hr) Hf Hi Hj. split_and!; [done| |].
  - intros j Hj'. cbn. rewrite length_insert. destruct (decide (j = i)) as [->|Hne]; [by eapply lookup_lt_Some|].
    apply Hb. destruct (decide (j ∈ hs)) as [|Hn]; [done|]. exfalso. apply handles_pos in Hj'.
    rewrite Hj, handles_none in Hj' by done. lia.
  - intros j g Hg. cbn in Hg. destruct (decide (j = i)) as [->|Hne].
    + rewrite list_lookup_insert_eq in Hg by (by eapply lookup_lt_Some). by simplify_eq.
    + rewrite list_lookup_insert_ne in Hg by done. rewrite Hj by done. by apply Hr.
Qed.
End FileSpec.

(** C22: the file table counts references: with the count of every slot equal to
    the number of handles that name it, [filealloc] either gives a handle on a
    slot that no handle names, or none when every slot is named; [filedup]
    adds a handle; [fileclose] of one handle removes it, and releases the pipe
    or inode behind the file exactly when it was the last one.  None of them
    panics, and the counts stay right. *)
Theorem file_references kend {D} `{!Driver D, !Devices D} (s : fsys D) (hs : list nat) (Hok : refs_ok s hs) :
  (exists o s', filealloc s = Ret o s' /\
     match o with
     | Some i => (i ∉ hs) /\ refs_ok s' (i :: hs)
     | None => s' = s /\ forall i, (i < length (files s))%nat -> i ∈ hs
     end) /\
  (forall i, i ∈ hs -> exists s', filedup i s = Ret i s' /\ refs_ok s' (i :: hs)) /\
  (forall i hs', hs ≡ₚ (i :: hs') -> exists f s', files s !! i = Some f /\ refs_ok s' hs' /\
     fileclose kend i s = if decide (i ∈ hs') then Ret tt s' else release_object kend f s').
Proof.
  pose proof Hok as (Hl & Hb & Hr). split_and!.
  - rewrite filealloc_run by done. destruct (list_find _ (files s)) as [[i f]|] eqn:E; eexists _, _; (split; [done|]).
    + apply list_find_Some in E as (Hf & H0 & _). rewrite (Hr i f Hf) in H0. split; [by apply handles_zero|].
      eapply refs_put; [done..| |].
      * cbn. rewrite handles_cons, decide_True, H0 by done. done.
      * intros j Hne. rewrite handles_cons, decide_False by done. lia.
    + split; [done|]. intros i [f Hf]%lookup_lt_is_Some_2. destruct (decide (i ∈ hs)) as [|Hn]; [done|]. exfalso.
      apply list_find_None in E. rewrite Forall_lookup in E. apply (E i f Hf). by rewrite (Hr i f Hf), handles_none.
  - intros i Hi. destruct (lookup_lt_is_Some_2 (files s) i (Hb i Hi)) as [f Hf].
    assert (1 <= f_ref f) by (rewrite (Hr i f Hf); by apply handles_pos).
    eexists. split; [by apply filedup_run|]. eapply refs_put; [done..| |].
    + cbn. rewrite handles_cons, decide_True, <-(Hr i f Hf) by done. done.
    + intros j Hne. rewrite handles_cons, decide_False by done. lia.
  - intros i hs' Hp. assert (Hi : i ∈ hs) by (rewrite Hp; by left).
    destruct (lookup_lt_is_Some_2 (files s) i (Hb i Hi)) as [f Hf]. pose proof (Hr i f Hf) as Hfr.
    rewrite (handles_permut _ _ _ Hp), handles_cons, decide_True in Hfr by done.
    assert (Hn : forall j, j <> i -> handles_of j hs' = handles_of j hs).
    { intros j Hne. rewrite (handles_permut _ _ _ Hp), handles_cons, decide_False by done. lia. }
    assert (0 <= handles_of i hs') by (unfold handles_of; lia).
    rewrite (fileclose_run kend s i f) by (done || lia). case_decide as Hin.
    + pose proof (handles_pos _ _ Hin). rewrite (proj2 (Z.ltb_lt 1 (f_ref f))) by lia.
      eexists f, _. split_and!; [done| |done]. eapply refs_put; [done..| |done]. cbn. lia.
    + pose proof (handles_none _ _ Hin) as H0. rewrite (proj2 (Z.ltb_ge 1 (f_ref f))) by lia. eexists f, _. split_and!; [done| |done].
      eapply refs_put; [done..| |done]. cbn. lia.
Qed.

(** A table with a file that two descriptors share, a free slot and a third file. *)
Definition no_devices {D} : Devices D := {| devsw_read := fun _ => None; devsw_write := fun _ => None |}.
Definition demo_files : fsys memdisk :=
  Fsys (Curproc 1 0 0 [] 0 0 (fun _ => 0)) [] (memide_ideinit []) false [] (Logst false 0 0 0 0 0 0 [])
       (Superblock 0 0 0 0 0 0 0) false [] false
       [File FD_INODE 2 1 0 0 3 0; File FD_NONE 0 0 0 0 0 0; File FD_PIPE 1 0 1 0x1000 0 0] ∅ (Kmem (fun _ => 0) true 0 false).

Lemma file_references_witness :
  exists s', filealloc demo_files = Ret (Some 1%nat) s' /\ refs_ok s' [1; 0; 2; 0]%nat.
Proof.
  destruct (file_references 0 (D := memdisk) (Devices0 := no_devices) demo_files [0; 2; 0]%nat) as ((o & s' & E & Ho) & _).
  - split_and!; [done|intros i Hi; set_unfold in Hi; cbn; lia|].
    intros i f Hf. do 3 (destruct i as [|i]; [by simplify_eq/=|]). done.
  - assert (o = Some 1%nat) as -> by (vm_compute in E; congruence). exists s'. split; [exact E|apply Ho].
Defined.
