(* ===== verification/FsWrite.v ===== *)
(** * Writing through a file descriptor

    Locking an inode, and the run of [filewrite] on an inode from its [begin_op] to
    the end of its [end_op]. *)
From Stdlib Require Import FunctionalExtensionality.
From S2P Require Import Prelude Bytes Cstring Spinlock ProcDefs Memory Kalloc FsDefs.
From S2P Require Import Bio BioRing BioSpec BioOps BioSeq Log LogSpec LogCrash.
From S2P Require Import Fs FsCodec FsTx FsBlocks FsMap FsFile FsRw File FileSpec.
Local Open Scope Z_scope.
Local Open Scope kernel_scope.

Section FsWrite.
Context {D : Type} `{!Driver D, !DriverSpec D, !Devices D}.
Implicit Types s : fsys D.

(** ** Locking an inode *)

Lemma slock_put s i ip f :
  inodes s !! i = Some ip -> slock_set (InodeLock i) f s = put_inode i (ip <| ilk ::= f |>) s.
Proof. intros H. destruct s. unfold put_inode. cbn in *. by rewrite (list_alter_insert _ _ _ _ H). Qed.

Lemma slock_ino s i ip : inodes s !! i = Some ip -> slock_get (InodeLock i) s = Some (ilk ip).
Proof. intros H. cbn. by rewrite H. Qed.

Definition lock_free (l : sleeplock) : Prop := sl_lk l = false /\ sl_locked l = 0.

Lemma ilock_run s i ip :
  inodes s !! i = Some ip -> 1 <= iref ip -> ivalid ip <> 0 -> lock_free (ilk ip) ->
  ilock (Some i) s = Ret tt (put_inode i (ip <| ilk ::= sl_held (c_pid (cur s)) |>) s).
Proof.
  intros H Hr Hv [Hl Hf]. unfold ilock. runs1 (inode_at_run _ _ _ H). rewrite (proj2 (Z.ltb_ge (iref ip) 1)) by done.
  pose proof (acquiresleep_run (InodeLock i) s (ilk ip) (slock_ino _ _ _ H) Hl) as E.
  rewrite Hf, (slock_put _ _ _ _ H) in E. cbn [c_true Z.eqb negb] in E. runs1 E. set (ip1 := ip <| ilk ::= _ |>).
  assert (H1 : inodes (put_inode i ip1 s) !! i = Some ip1).
  { unfold put_inode. cbn. apply list_lookup_insert_eq. by eapply lookup_lt_Some. }
  runs1 (inode_at_run _ _ _ H1). change (ivalid ip1) with (ivalid ip). by rewrite (proj2 (Z.eqb_neq (ivalid ip) 0)).
Qed.

Lemma iunlock_run s i ip :
  inodes s !! i = Some ip -> 1 <= iref ip -> sl_lk (ilk ip) = false -> sl_locked (ilk ip) = 1 ->
  sl_pid (ilk ip) = c_pid (cur s) ->
  exists w, iunlock (Some i) s = Ret tt (put_inode i (ip <| ilk ::= sl_free |>) s <| wakes := w |>).
Proof.
  intros H Hr Hl Hk Hp. unfold iunlock.
  pose proof (holdingsleep_run (InodeLock i) s (ilk ip) (slock_ino _ _ _ H) Hl) as E.
  rewrite Hk, Hp, Z.eqb_refl in E. cbn [c_true Z.eqb negb andb] in E. runs1 E. runs1 (inode_at_run _ _ _ H).
  rewrite (proj2 (Z.ltb_ge (iref ip) 1)) by done. cbn [negb orb].
  rewrite (releasesleep_run (InodeLock i) s (ilk ip) (slock_ino _ _ _ H) Hl).
  exists (wakes s ++ [slock_addr (InodeLock i)]). f_equal. rewrite (slock_put _ _ ip) by done. by destruct s.
Qed.

(** A lock does not matter to the file. *)
Lemma working_ilk s st bs H k i ip f :
  working s st bs H k i ip -> working (put_inode i (ip <| ilk ::= f |>) s) st bs H k i (ip <| ilk ::= f |>).
Proof. intros Hw. eapply working_put; [exact Hw|]. by destruct (wk_map _ _ _ _ _ _ _ Hw). Qed.

Lemma on_disk_ilk V x ip f : on_disk V x ip -> on_disk V x (ip <| ilk ::= f |>).
Proof.
  unfold on_disk. change (inum (ip <| ilk ::= f |>)) with (inum ip). unfold get_dinode.
  intros H. repeat (apply bind_Some in H as (? & E & H); rewrite E; clear E; cbn [mbind option_bind]).
  apply (inj Some) in H. rewrite <-H. by destruct ip.
Qed.

(** ** Read after write *)

Lemma write_read s st bs k i ip src off n its :
  working s st bs ∅ k i ip -> 0 <= inum ip < sb_ninodes (sb s) -> itype ip <> T_DEV ->
  0 <= off <= isize ip -> isize ip <= MAXFILE * BSIZE -> 0 <= n -> off + n <= MAXFILE * BSIZE ->
  n <= Z.of_nat (length src) -> rounds (S its) off n -> room s bs (pot s bs ip + its + 1) ->
  (2 * its <= nfree (vw s) (sb s))%nat ->
  exists s1 s2 bs1 ip1, writei i src off n s = Ret n s1 /\
    written s st bs k i ip off (take (Z.to_nat n) src) s1 bs1 ip1 (pot s bs ip + its + 1) /\
    readi i off n s1 = Ret (n, take (Z.to_nat n) src) s2 /\ vw s2 = vw s1.
Proof.
  intros Hw Hin Hty Hoff Hsz Hn Hmax Hsrc Hits Hro Hnf.
  destruct (writei_run s st bs k i ip src off n its) as (s1 & bs1 & ip1 & E1 & Hwn); try done.
  assert (Hlen : Z.of_nat (length (take (Z.to_nat n) src)) = n) by (rewrite length_take; lia).
  pose proof Hwn as [W1 Z1 I1 B1 H1 _ _ L1 _ _ _]. rewrite Hlen in *.
  assert (Hbig : MAXFILE * BSIZE < 2 ^ 31) by done.
  destruct (readi_run s1 st bs1 k i ip1 off n) as (s2 & E2 & _ & _ & V2); try done; try lia.
  - unfold room in Hro. lia.
  - by rewrite I1.
  - intros q Hq. apply H1. lia.
  - rewrite Z.min_l in E2 by lia. exists s1, s2, bs1, ip1. split_and!; [done|done| |done]. rewrite E2. do 2 f_equal.
    apply list_eq_same_length with (Z.to_nat n); [lia|apply fbytes_length|].
    intros j x y Hj Hx Hy. rewrite fbytes_lookup in Hx by done. injection Hx as <-.
    rewrite B1 by lia. rewrite decide_True by lia.
    replace (Z.to_nat (off + Z.of_nat j - off)) with j by lia. by apply list_lookup_total_correct.
Qed.

(** ** A write through a file descriptor *)

Definition one_op s : fsys D := s <| lg ::= fun l => l <| outstanding ::= fun n => n + 1 |> |>.

(** [begin_op] with no operation running opens a transaction. *)
Lemma begin_op_open s st H i ip :
  working s st [] H 0 i ip -> begin_op s = Ret tt (one_op s) /\ working (one_op s) st [] H 1 i ip.
Proof.
  intros [[[l Hi] Hl (Hlk & Hc & Ho)] Hy H1 Hf Hino Hm]. split.
  - rewrite begin_op_run by (done || lia). rewrite Hc, Ho, (la_n _ _ _ Hl). done.
  - split; try done. split; [exists l; by apply idle_lg|destruct Hl; by split|].
    split_and!; [done|done|]. cbn. by rewrite Ho.
Qed.

(** Nothing is in the log: every block is as on disk. *)
Lemma empty_log_view s st k : tx s st [] ∅ k -> vw s = dblock (disk s).
Proof. intros T. apply functional_extensionality. intros m. eapply tx_clean; [done|set_solver..]. Qed.

(** The whole state of a file that is open for writing and not in use. *)
Record writable s st (fd : nat) (f : file) (i : nat) (ip : inode) : Prop := {
  wb_file : files s !! fd = Some f;
  wb_type : f_type f = FD_INODE /\ f_writable f <> 0 /\ f_ip f = i;
  wb_off : 0 <= f_off f <= isize ip;
  wb_working : working s st [] ∅ 0 i ip;
  wb_lock : 1 <= iref ip /\ ivalid ip <> 0 /\ lock_free (ilk ip);
  wb_inode : inode_wf ip /\ itype ip <> T_DEV /\ 0 <= inum ip < sb_ninodes (sb s);
  wb_solid : solid (vw s) ip /\ on_disk (vw s) (sb s) ip;
  wb_log : 8 <= lg_size (lg s) <= Z.of_nat LOGSIZE /\ hdr_is (dblock (disk s) st) []
}.

(** The body of the loop of [filewrite] up to [end_op]. *)
Lemma filewrite_body s st fd f i ip src n :
  writable s st fd f i ip -> 0 < n <= filewrite_max -> f_off f + n <= MAXFILE * BSIZE ->
  n <= Z.of_nat (length src) -> (8 <= nfree (vw s) (sb s))%nat ->
  exists s1 s2 s3 bs ip1 ip2, begin_op s = Ret tt (one_op s) /\
    ilock (Some i) (one_op s) = Ret tt s1 /\ files s1 = files s /\
    writei i src (f_off f) n s1 = Ret n s2 /\ files s2 = files s /\
    written s1 st [] 1 i ip1 (f_off f) (take (Z.to_nat n) src) s2 bs ip2 7 /\
    ip1 = ip <| ilk ::= sl_held (c_pid (cur s)) |> /\ s1 = put_inode i ip1 (one_op s) /\
    iunlock (Some i) (put_file fd (f <| f_off := f_off f + n |>) s2) = Ret tt s3 /\
    vw s3 = vw s2 /\ disk s3 = disk s /\ files s3 = <[fd := f <| f_off := f_off f + n |>]> (files s) /\
    (exists l, logged s3 l st bs) /\ quiet s3 1 /\ cur s3 = cur s.
Proof.
  intros [Hf (Hft & Hfw & Hfi) Hoff Hw (Hr & Hv & Hlf) (Hwf & Hty & Hin) [[Hsz Hsol] Hod] (Hlg & Hh)] Hn Hmax Hsrc Hnf.
  destruct (begin_op_open s st ∅ i ip Hw) as [E0 W0].
  pose proof (ilock_run (one_op s) i ip (wk_ino _ _ _ _ _ _ _ W0) Hr Hv Hlf) as E1.
  change (cur (one_op s)) with (cur s) in E1. set (ip1 := ip <| ilk ::= sl_held (c_pid (cur s)) |>) in *.
  set (s1 := put_inode i ip1 (one_op s)) in *. pose proof (working_ilk _ _ _ _ _ _ _ (sl_held (c_pid (cur s))) W0) as W1.
  fold ip1 s1 in W1. assert (Hpot : pot s1 [] ip1 = 2%nat) by (unfold pot, missing; by repeat case_decide; set_solver).
  destruct (writei_run s1 st [] 1 i ip1 src (f_off f) n 4 W1 Hin Hty Hoff ltac:(lia) Hmax Hsrc) as (s2 & bs & ip2 & E2 & Hwn).
  { split; [lia|]. right. pose proof (Z.mod_pos_bound (f_off f) BSIZE). change filewrite_max with 1536 in Hn. unfold BSIZE in *. lia. }
  { rewrite Hpot. unfold room. change (lg_size (lg s1)) with (lg_size (lg s)). unfold NBUF. change (length []) with 0%nat.
    rewrite (proj2 (proj2 (tx_quiet _ _ _ _ _ (wk_tx _ _ _ _ _ _ _ W1)))). lia. }
  { exact Hnf. }
  rewrite Hpot in Hwn. pose proof (wn_working _ _ _ _ _ _ _ _ _ _ _ _ Hwn) as W2.
  pose proof (wn_stays _ _ _ _ _ _ _ _ _ _ _ _ Hwn) as (St & _ & _). pose proof (wn_ids _ _ _ _ _ _ _ _ _ _ _ _ Hwn) as Hids.
  set (f' := f <| f_off := f_off f + n |>). set (sf := put_file fd f' s2).
  assert (Hcur : cur s2 = cur s) by (by rewrite St). assert (Hfs : files s2 = files s) by (by rewrite St).
  destruct (iunlock_run sf i ip2) as (w & E3).
  { exact (wk_ino _ _ _ _ _ _ _ W2). } { by rewrite Hids. } { rewrite Hids. apply Hlf. } { by rewrite Hids. }
  { change (cur sf) with (cur s2). rewrite Hids, Hcur. done. }
  destruct (wk_tx _ _ _ _ _ _ _ W2) as [[l Hi2] Hl2 Hq2].
  exists s1, s2, (put_inode i (ip2 <| ilk ::= sl_free |>) sf <| wakes := w |>), bs, ip1, ip2.
  split_and!; try done.
  - transitivity (disk s2); [done|]. by rewrite St.
  - transitivity (<[fd := f']> (files s2)); [done|]. by rewrite Hfs.
  - exists l. by eapply (logged_ext s2).
Qed.

(** One round of the loop of [filewrite] writes everything. *)
Lemma filewrite_once s st fd f i ip src n :
  writable s st fd f i ip -> 0 < n <= filewrite_max -> f_off f + n <= MAXFILE * BSIZE ->
  n <= Z.of_nat (length src) -> (8 <= nfree (vw s) (sb s))%nat ->
  exists s1 s2 s3 s4 l bs ip1 ip2 ws, filewrite fd src n s = Ret n s4 /\
    ip1 = ip <| ilk ::= sl_held (c_pid (cur s)) |> /\ s1 = put_inode i ip1 (one_op s) /\
    written s1 st [] 1 i ip1 (f_off f) (take (Z.to_nat n) src) s2 bs ip2 7 /\
    vw s3 = vw s2 /\ disk s3 = disk s /\ files s3 = <[fd := f <| f_off := f_off f + n |>]> (files s) /\
    end_op s3 = Ret tt s4 /\ logged s4 l st [] /\ quiet s4 0 /\ home_is s4 st (vw s3) /\
    dsize (disk s4) = dsize (disk s) /\ dwrites (disk s4) = dwrites (disk s) ++ ws /\
    forall k t lt, booted t lt st -> disk_after s (take k ws) t ->
      exists t' lt', recover_from_log t = Ret tt t' /\ logged t' lt' st [] /\ dsize (disk t') = dsize (disk s) /\
        home_is t' st (if decide (k <= length bs)%nat then dblock (disk s) else vw s3).
Proof.
  intros Hwb Hn Hmax Hsrc Hnf.
  destruct (filewrite_body s st fd f i ip src n Hwb Hn Hmax Hsrc Hnf)
    as (s1 & s2 & s3 & bs & ip1 & ip2 & E0 & E1 & F1 & E2 & F2 & Hwn & Hip1 & Hs1 & E3 & V3 & D3 & F3 & (l & Hlg) & Hq & _).
  destruct Hwb as [Hf (Hft & Hfw & Hfi) Hoff Hw _ _ _ (Hl & Hh)].
  destruct (end_op_last s3 l st bs Hlg ltac:(by rewrite D3) Hq) as (s4 & l4 & ws & E4 & Hlg4 & Hq4 & Hhome & Hsz & Hws & Hcr).
  rewrite D3 in Hsz, Hws, Hcr. exists s1, s2, s3, s4, l4, bs, ip1, ip2, ws. split_and!; try done.
  2:{ intros kk t lt Hbt Hda. apply (Hcr kk t lt Hbt). destruct Hda as [Hd1 Hd2]. split; [by rewrite D3|].
      intros m Hm. rewrite D3. apply Hd2. unfold rng in *. by rewrite <-D3. }
  unfold filewrite. runs1 (file_at_run _ _ _ Hf). rewrite (proj2 (Z.eqb_neq (f_writable f) 0)), Hft by done.
  replace (Z.to_nat (n / filewrite_max) + 2)%nat with (S (S (Z.to_nat (n / filewrite_max)))) by lia.
  cbn [filewrite_loop]. rewrite (proj2 (Z.ltb_lt 0 n)), Z.sub_0_r by lia.
  rewrite (proj2 (Z.ltb_ge filewrite_max n)) by lia. rewrite bind_assoc. runs1 E0. rewrite bind_assoc.
  runs1 (file_at_run (one_op s) fd f Hf). rewrite Hfi, bind_assoc. runs1 E1. rewrite bind_assoc.
  runs1 (file_at_run s1 fd f ltac:(by rewrite F1)). rewrite Hfi, u32_small by (change filewrite_max with 1536 in Hn; lia).
  rewrite drop_0, bind_assoc. runs1 E2. rewrite (proj2 (Z.ltb_lt 0 n)) by lia. cbn [whenM]. rewrite bind_assoc.
  runs1 (upd_file_run s2 fd f (fun f => f <| f_off ::= fun o => u32 (o + n) |>) ltac:(by rewrite F2)).
  assert (Eo : f <| f_off ::= fun o => u32 (o + n) |> = f <| f_off := f_off f + n |>).
  { destruct f. cbn in *. rewrite u32_small; [done|]. unfold MAXFILE, NDIRECT, NINDIRECT, BSIZE in *. lia. }
  rewrite Eo, bind_assoc. runs1 E3. rewrite bind_assoc. runs1 E4.
  rewrite (proj2 (Z.ltb_ge n 0)), Z.eqb_refl by lia. cbn [negb]. rewrite Z.add_0_l, Z.ltb_irrefl, bind_ret, Z.eqb_refl. done.
Qed.

(** The disk after the transaction shows the file that the cache showed. *)
Lemma home_file s st bs k i ip t :
  working s st bs ∅ k i ip -> home_is t st (vw s) -> dsize (disk t) = dsize (disk s) ->
  0 <= inum ip < sb_ninodes (sb s) -> solid (vw s) ip -> on_disk (vw s) (sb s) ip ->
  solid (dblock (disk t)) ip /\ on_disk (dblock (disk t)) (sb s) ip /\
  forall q, 0 <= q < MAXFILE * BSIZE -> fbyte (dblock (disk t)) ip q = fbyte (vw s) ip q.
Proof.
  intros [_ Hy Ho _ _ Hm] Hh Hsz Hin [Hs1 Hs2] Hod. set (V := dblock (disk t)).
  assert (Hu : forall b, in_use (vw s) (sb s) st b -> V b = vw s b).
  { intros b [(Hb & Hnl & _) _]. apply Hh; [|done]. pose proof (ly_size _ _ _ Hy). unfold rng. lia. }
  assert (Hblk : forall bm, block_of V ip bm = block_of (vw s) ip bm).
  { intros bm. apply block_of_same. intros H0. apply Hu. by apply (fm_ind _ _ _ _ Hm). }
  split_and!.
  - split; [done|]. intros q Hq. rewrite Hblk. by apply Hs2.
  - unfold on_disk, V. rewrite (Hh (IBLOCK (inum ip) (sb s))); [done| |by apply Hy].
    pose proof (IBLOCK_eq _ _ _ _ Hy Hin). unfold rng. lia.
  - intros q Hq. unfold fbyte. rewrite Hblk. destruct (Z.eqb_spec (block_of (vw s) ip (q / BSIZE)) 0) as [|E0]; [done|].
    rewrite Hu; [done|]. apply (fm_data _ _ _ _ Hm); [|done].
    split; [apply Z.div_pos; unfold BSIZE; lia|]. apply Z.div_lt_upper_bound; unfold BSIZE in *; lia.
Qed.
End FsWrite.
