(* ===== verification/FsTheorems.v ===== *)
(** * Files: theorems

    What a program sees of the file system: what it writes into a file it reads
    back, a write through a file descriptor is on disk when it returns and
    survives a crash as a whole or not at all, and one round of [filewrite]
    fits the space that [begin_op] reserves in the log.  A small file system to
    evaluate the theorems on comes first: 50 blocks, the log at block 2, 8 inodes in
    block 32, the bitmap in block 33 and a file of 600 bytes, inode 1, in blocks 34
    and 35. *)
From Stdlib Require Import FunctionalExtensionality.
From S2P Require Import Prelude Bytes Cstring Memory Spinlock ProcDefs Kalloc FsDefs Bio BioRing BioSpec BioOps BioSeq.
From S2P Require Import Log LogSpec LogCrash Fs File FsCodec FsTx FsBlocks FsMap FsFile FsRw FileSpec FsWrite.
Local Open Scope Z_scope.
Local Open Scope kernel_scope.

Definition small_sb : superblock := Superblock 50 16 8 30 2 32 33.
Definition small_ip : inode :=
  Inode 1 1 1 (Sleeplock 0 false "inode" 0) 1 T_FILE 0 0 1 600 (34 :: 35 :: replicate 11 0).
Definition small_dinode : list Z :=
  [2; 0; 0; 0; 0; 0; 1; 0; 88; 2; 0; 0; 34; 0; 0; 0; 35; 0; 0; 0] ++ replicate 44 0.
Definition small_img : list Z :=
  replicate (32 * 512) 0 ++ (replicate 64 0 ++ small_dinode ++ replicate 384 0) ++
  ([255; 255; 255; 255; 15] ++ replicate 507 0) ++ replicate (16 * 512) 65.
Definition small_disk : memdisk := memide_ideinit small_img.
Definition small_file : file := File FD_INODE 1 1 1 0 0 500.
Definition small_fs : fsys memdisk :=
  Fsys (Curproc 7 0 0 (replicate 16 None) 0 0 (fun _ => 0)) [] small_disk false (replicate (S NBUF) buf0)
       (Logst false 2 30 0 0 1 0 (replicate 30 0)) small_sb false [small_ip] false [small_file] ∅
       (Kmem (fun _ => 0) true 0 false).
#[export] Instance small_devices : Devices memdisk := no_devices.

Definition small_view : Z -> list Z := dblock small_disk.

Lemma small_disk_ok : memide_ok small_disk.
Proof. split; [done|]. vm_compute. done. Qed.

Lemma small_BBLOCK b : 0 <= b < 50 -> BBLOCK b small_sb = 33.
Proof. intros. unfold BBLOCK. by rewrite Z.div_small by (unfold BPB, BSIZE; lia). Qed.

Lemma small_IBLOCK i : 0 <= i < 8 -> IBLOCK i small_sb = 32.
Proof. intros. unfold IBLOCK. by rewrite Z.div_small by (unfold IPB; lia). Qed.

Lemma small_layout : layout small_sb 2 50.
Proof.
  split; cbn; try lia; try done.
  - intros b Hb. rewrite small_BBLOCK by done. unfold in_log, LOGSIZE. lia.
  - intros i Hi. rewrite small_IBLOCK by done. unfold in_log, LOGSIZE. lia.
  - intros b i Hb Hi. by rewrite small_BBLOCK, small_IBLOCK.
Qed.

Lemma small_data b : 34 <= b < 50 -> data_block small_sb 2 b.
Proof.
  intros Hb. split_and!; cbn; try lia.
  - unfold in_log, LOGSIZE. lia.
  - intros b' Hb'. rewrite small_BBLOCK by done. lia.
  - intros i Hi. rewrite small_IBLOCK by done. lia.
Qed.

Lemma small_used b : 0 <= b < 50 -> used small_view small_sb b = (b <? 36).
Proof.
  assert (H : forallb (fun b => eqb (used small_view small_sb b) (b <? 36)) (seqZ 0 50) = true) by (vm_compute; done).
  rewrite forallb_forall in H. intros Hb. apply eqb_prop, H. apply list_elem_of_In, elem_of_seqZ. lia.
Qed.

Lemma small_block bn : 0 <= bn < MAXFILE -> block_of small_view small_ip bn = if bn =? 0 then 34 else if bn =? 1 then 35 else 0.
Proof.
  intros Hb. unfold block_of. destruct (Z.ltb_spec bn NDIRECT).
  - assert (E : exists n, bn = Z.of_nat n /\ (n < 12)%nat) by (exists (Z.to_nat bn); unfold NDIRECT in *; lia).
    destruct E as (n & -> & Hn). rewrite Nat2Z.id. do 12 (destruct n as [|n]; [done|]). lia.
  - change (ind_block small_ip) with 0. cbn. unfold NDIRECT in *. by rewrite !(proj2 (Z.eqb_neq bn _)) by lia.
Qed.

Lemma small_in_use b : 34 <= b < 36 -> in_use small_view small_sb 2 b.
Proof. intros. split; [apply small_data; lia|]. rewrite small_used by lia. apply Z.ltb_lt. lia. Qed.

Lemma small_map : file_map small_view small_sb 2 small_ip.
Proof.
  split; [done|done|by intros Hne; destruct (Hne eq_refl)| |].
  - intros bn Hb. rewrite small_block by done. change (ind_block small_ip) with 0.
    destruct (bn =? 0), (bn =? 1); intros; try done; (split; [apply small_in_use; lia|done]).
  - intros bn bm Hn Hm. rewrite !small_block by done.
    destruct (Z.eqb_spec bn 0), (Z.eqb_spec bn 1), (Z.eqb_spec bm 0), (Z.eqb_spec bm 1); lia.
Qed.

Lemma small_free : free_map small_view small_sb 2.
Proof. intros b Hb. cbn in Hb. rewrite small_used by done. intros Hu%Z.ltb_ge. split; [lia|]. apply small_data. lia. Qed.

Lemma small_nfree : nfree small_view small_sb = 14%nat.
Proof. vm_compute. done. Qed.



(** The file system after boot, nothing cached. *)
Lemma small_booted :
  exists s, working s 2 [] ∅ 0 0 small_ip /\ vw s = small_view /\ disk s = small_disk /\ sb s = small_sb /\
    files s = [small_file] /\ lg s = lg small_fs.
Proof.
  assert (Hok : drv_ok (disk small_fs)) by exact small_disk_ok.
  destruct (binit_idle small_fs eq_refl Hok) as (s & _ & Hi & Hs). exists s.
  assert (Hd : disk s = small_disk) by (by rewrite Hs). assert (Hg : lg s = lg small_fs) by (by rewrite Hs).
  assert (Hz : dsize (disk s) = 50) by (rewrite Hd; by vm_compute).
  assert (T : tx s 2 [] ∅ 0).
  { split; [by eexists| |by rewrite Hs].
    split; rewrite ?Hg, ?Hz; try done; [by eexists|unfold LOGSIZE; simpl; lia|set_solver|constructor]. }
  assert (V : vw s = small_view) by (rewrite (empty_log_view _ _ _ T), Hd; done).
  assert (Hsb : sb s = small_sb) by (by rewrite Hs). split_and!; try done; [|by rewrite Hs].
  split; rewrite ?V, ?Hsb, ?Hz; try done; [apply small_layout|apply small_free|by rewrite Hs|apply small_map].
Qed.


(** In a transaction. *)
Lemma small_in_op :
  exists s, working s 2 [] ∅ 1 0 small_ip /\ vw s = small_view /\ sb s = small_sb /\ room s [] 10.
Proof.
  destruct small_booted as (s & Hw & V & _ & Hsb & _ & Hg). exists (one_op s).
  destruct (begin_op_open s 2 ∅ 0 small_ip Hw) as (_ & Hw'). split_and!; [done..|].
  unfold room. change (lg (one_op s)) with (lg s <| outstanding ::= fun n => n + 1 |>). rewrite Hg. unfold LOGSIZE, NBUF. simpl. lia.
Qed.

(** ** Theorems *)


(** C19: what is written is what is read: in a transaction with room in the log and
    free blocks for it, [writei] of [n] bytes at an offset inside the file
    returns [n], and a [readi] of the same range then returns those bytes; the
    file's other bytes, and every block that belongs neither to the file nor to
    the free map nor to its inode, are as before. *)
Theorem read_after_write {D} `{!Driver D, !DriverSpec D, !Devices D} (s : fsys D) (st : Z) (bs : list Z) (k : Z)
    (i : nat) (ip : inode) (src : list Z) (off n : Z) (its : nat)
    (Hw : working s st bs ∅ k i ip) (Hin : 0 <= inum ip < sb_ninodes (sb s)) (Hty : itype ip <> T_DEV)
    (Hoff : 0 <= off <= isize ip) (Hsz : isize ip <= MAXFILE * BSIZE) (Hn : 0 <= n)
    (Hmax : off + n <= MAXFILE * BSIZE) (Hsrc : n <= Z.of_nat (length src)) (Hits : rounds (S its) off n)
    (Hroom : room s bs (pot s bs ip + its + 1)) (Hfree : (2 * its <= nfree (vw s) (sb s))%nat) :
  exists s1 s2 ip1, writei i src off n s = Ret n s1 /\ readi i off n s1 = Ret (n, take (Z.to_nat n) src) s2 /\
    inodes s1 !! i = Some ip1 /\ isize ip1 = Z.max (isize ip) (off + n) /\
    (forall q, 0 <= q < MAXFILE * BSIZE -> ~ (off <= q < off + n) -> fbyte (vw s2) ip1 q = fbyte (vw s) ip q) /\
    (forall m, kept s ip m -> (forall bm, 0 <= bm < MAXFILE -> block_of (vw s) ip bm <> m) ->
       m <> IBLOCK (inum ip) (sb s) -> vw s2 m = vw s m).
Proof.
  destruct (write_read s st bs k i ip src off n its) as (s1 & s2 & bs1 & ip1 & E1 & Hwn & E2 & V2); try done.
  assert (Hlen : Z.of_nat (length (take (Z.to_nat n) src)) = n) by (rewrite length_take; lia).
  destruct Hwn as [W1 Z1 _ B1 _ _ F1 _ _ _ _]. rewrite Hlen in Z1, B1.
  exists s1, s2, ip1. rewrite V2. split_and!; [done|done|apply W1|done| |done].
  intros q Hq Hout. by rewrite B1, decide_False.
Qed.

(** C21: one round of [filewrite] fits its reservation: [begin_op] reserves
    [MAXOPBLOCKS] blocks of the log for an operation, and a [writei] of at most
    the [max] bytes that [filewrite] gives to one transaction, at any offset,
    adds at most 7 blocks to the log (at most 4 data blocks, the indirect block,
    the bitmap and the inode) and so never runs into the panics of [log_write],
    which 8 free slots are enough to rule out. *)
Theorem filewrite_round_fits {D} `{!Driver D, !DriverSpec D, !Devices D} (s : fsys D) (st : Z) (bs : list Z) (k : Z)
    (i : nat) (ip : inode) (src : list Z) (off n : Z)
    (Hw : working s st bs ∅ k i ip) (Hin : 0 <= inum ip < sb_ninodes (sb s)) (Hty : itype ip <> T_DEV)
    (Hoff : 0 <= off <= isize ip) (Hn : 0 <= n <= filewrite_max)
    (Hmax : off + n <= MAXFILE * BSIZE) (Hsrc : n <= Z.of_nat (length src))
    (Hroom : room s bs 7) (Hfree : (8 <= nfree (vw s) (sb s))%nat) :
  exists s' bs', writei i src off n s = Ret n s' /\ tx s' st bs' ∅ k /\
    (length bs' <= length bs + 7)%nat /\ 7 < MAXOPBLOCKS.
Proof.
  assert (Hpot : (pot s bs ip <= 2)%nat).
  { unfold pot. pose proof (missing_le bs (the_bitmap s)). pose proof (missing_le bs (ind_block ip)). case_decide; lia. }
  destruct (writei_run s st bs k i ip src off n 4) as (s1 & bs1 & ip1 & E1 & Hwn); try done; try lia.
  - split; [lia|]. right. pose proof (Z.mod_pos_bound off BSIZE). change filewrite_max with 1536 in Hn. unfold BSIZE in *. lia.
  - eapply room_le; [|exact Hroom]. lia.
  - exists s1, bs1. pose proof (wn_log _ _ _ _ _ _ _ _ _ _ _ _ Hwn). split_and!; [done|apply Hwn|lia|done].
Qed.



Lemma read_after_write_witness :
  exists (s s1 s2 : fsys memdisk), vw s = small_view /\ writei 0 (replicate 200 66) 500 200 s = Ret 200 s1 /\
    readi 0 500 200 s1 = Ret (200, replicate 200 66) s2.
Proof.
  destruct (small_in_op) as (s & Hw & V & Hsb & Hr).
  destruct (read_after_write s 2 [] 1 0 small_ip (replicate 200 66) 500 200 2) as (s1 & s2 & ip1 & E1 & E2 & _).
  - exact Hw.
  - rewrite Hsb. by vm_compute.
  - done.
  - by vm_compute.
  - by vm_compute.
  - lia.
  - by vm_compute.
  - by vm_compute.
  - split; [lia|]. right. by vm_compute.
  - eapply room_le; [|exact Hr]. vm_compute. lia.
  - rewrite V, Hsb, small_nfree. lia.
  - exists s, s1, s2. split_and!; done.
Defined.

Lemma filewrite_round_fits_witness :
  exists (s s' : fsys memdisk) bs', vw s = small_view /\ writei 0 (replicate 1536 66) 600 1536 s = Ret 1536 s' /\
    (length bs' <= 7)%nat /\ tx s' 2 bs' ∅ 1.
Proof.
  destruct (small_in_op) as (s & Hw & V & Hsb & Hr).
  destruct (filewrite_round_fits s 2 [] 1 0 small_ip (replicate 1536 66) 600 1536) as (s' & bs' & E & T & Hl & _).
  - exact Hw.
  - rewrite Hsb. by vm_compute.
  - done.
  - by vm_compute.
  - by vm_compute.
  - by vm_compute.
  - by vm_compute.
  - eapply room_le; [|exact Hr]. lia.
  - rewrite V, Hsb, small_nfree. lia.
  - exists s, s', bs'. split_and!; done.
Defined.
