(* ===== verification/User.v ===== *)
(** * User programs

    C code that runs in a process, as a tree of its accesses to memory and its
    system calls.  A thread takes one step of its tree at a time, so trees of
    several threads can be interleaved; [exec] runs one tree alone.  The mutex
    calls go through the interface [MutexApi]: [MutexSpec] is what user code may
    rely on, and the kernel's mutex table implements it (MutexTable.v). *)
From S2P Require Import Prelude.
Local Open Scope Z_scope.

(** ** Programs *)

Inductive call :=
| MutexAlloc
| MutexDealloc (id : Z)
| MutexLock (id : Z)
| MutexUnlock (id : Z)
| Sbrk (n : Z).

(** The tree of a program that computes an [A].  [Load] and [Store] access the
    32-bit word at an aligned address. *)
Inductive prog (A : Type) :=
| Done (a : A)
| Wrong (why : string)
| Load (a : Z) (k : Z -> prog A)
| Store (a v : Z) (k : prog A)
| Sys (c : call) (k : Z -> prog A).
Arguments Done {A} a.
Arguments Wrong {A} why.
Arguments Load {A} a k.
Arguments Store {A} a v k.
Arguments Sys {A} c k.

Fixpoint andthen {A B} (p : prog A) (f : A -> prog B) : prog B :=
  match p with
  | Done a => f a
  | Wrong why => Wrong why
  | Load a k => Load a (fun v => andthen (k v) f)
  | Store a v k => Store a v (andthen k f)
  | Sys c k => Sys c (fun r => andthen (k r) f)
  end.

Declare Scope user_scope.
Delimit Scope user_scope with user.
Notation "'let!' x := p 'in' k" := (andthen p (fun x => k))
  (at level 10, x name, p at level 99, k at level 200) : user_scope.
Notation "p ;!; k" := (andthen p (fun _ => k))
  (at level 100, k at level 200, right associativity) : user_scope.

Definition load_uint (a : Z) : prog Z := Load a (fun v => Done (u32 v)).
Definition load_int (a : Z) : prog Z := Load a (fun v => Done (s32 v)).
Definition store (a v : Z) : prog unit := Store a (u32 v) (Done tt).
Definition sys (c : call) : prog Z := Sys c Done.

(** ** Mutexes, as user code sees them

    [T] names threads.  [mx_ok] is the invariant of the mutexes and [mx_room] says
    that identifiers are left.  [mx_owner m id] is [None] when no mutex has that
    identifier, [Some None] when it is unlocked and [Some (Some t)] when [t] has
    locked it; [mx_lock] gives [None] when the caller has to sleep. *)
Class MutexApi (M T : Type) := {
  mx_ok : M -> Prop;
  mx_room : M -> Prop;
  mx_owner : M -> Z -> option (option T);
  mx_alloc : T -> M -> Z * M;
  mx_dealloc : T -> Z -> M -> Z * M;
  mx_lock : T -> Z -> M -> option (Z * M);
  mx_unlock : T -> Z -> M -> Z * M
}.

(** [m'] is [m] with the owner of the mutex [id] changed to [o]. *)
Definition mx_changed {M T} `{MutexApi M T} (m : M) (id : Z) (o : option (option T)) (m' : M) : Prop :=
  mx_ok m' /\ mx_owner m' id = o /\ forall id', 0 < id' -> id' <> id -> mx_owner m' id' = mx_owner m id'.

Class MutexSpec (M T : Type) `{MutexApi M T} := {
  mx_lock_free m t id : mx_ok m -> 0 < id -> mx_owner m id = Some None ->
    exists m', mx_lock t id m = Some (0, m') /\ mx_changed m id (Some (Some t)) m';
  mx_lock_other m t t' id : mx_ok m -> 0 < id -> mx_owner m id = Some (Some t') -> t <> t' -> mx_lock t id m = None;
  mx_lock_self m t id : mx_ok m -> 0 < id -> mx_owner m id = Some (Some t) -> mx_lock t id m = Some (-1, m);
  mx_lock_bad m t id : mx_ok m -> mx_owner m id = None -> mx_lock t id m = Some (-1, m);
  mx_unlock_own m t id : mx_ok m -> 0 < id -> mx_owner m id = Some (Some t) ->
    exists m', mx_unlock t id m = (0, m') /\ mx_changed m id (Some None) m';
  mx_unlock_not m t id : mx_ok m -> 0 < id -> mx_owner m id <> Some (Some t) -> mx_unlock t id m = (-1, m);
  mx_dealloc_free m t id : mx_ok m -> 0 < id -> mx_owner m id = Some None ->
    exists m', mx_dealloc t id m = (0, m') /\ mx_changed m id None m';
  mx_dealloc_held m t t' id : mx_ok m -> 0 < id -> mx_owner m id = Some (Some t') -> mx_dealloc t id m = (-1, m);
  mx_alloc_new m t id m' : mx_ok m -> mx_room m -> mx_alloc t m = (id, m') -> id <> -1 ->
    0 < id /\ mx_owner m id = None /\ mx_changed m id (Some None) m';
  mx_alloc_full m t m' : mx_ok m -> mx_alloc t m = (-1, m') -> m' = m
}.

(** ** Running *)

(** The memory of a process, the mutexes, and the end of its data segment with
    the limit the kernel lets it grow to. *)
Record world (M : Type) := World {
  heap : gmap Z Z;
  mxs : M;
  brk : Z;
  brk_max : Z
}.
Arguments World {M} heap mxs brk brk_max.
Arguments heap {M} w.
Arguments mxs {M} w.
Arguments brk {M} w.
Arguments brk_max {M} w.
#[export] Instance eta_world M : Eta (world M) := fun w => World (heap w) (mxs w) (brk w) (brk_max w).

(** A thread goes on, sleeps in a system call, or does something C leaves undefined. *)
Inductive next (M A : Type) :=
| Goes (p : prog A) (w : world M)
| Sleeps
| Faults.
Arguments Goes {M A} p w.
Arguments Sleeps {M A}.
Arguments Faults {M A}.

Section Run.
Context {M T : Type} `{MutexApi M T}.
Implicit Types w : world M.

(** [sbrk], as sys_sbrk, growproc, allocuvm and deallocuvm answer it: pages are
    added zeroed up to the rounded-up new size, and dropped above it. *)
Definition page_up (a : Z) : Z := (a + 4095) / 4096 * 4096.
Definition zero_words (a : Z) (n : nat) (h : gmap Z Z) : gmap Z Z :=
  foldr (fun i h => <[a + 4 * Z.of_nat i := 0]> h) h (seq 0 n).
Definition do_sbrk (n : Z) w : Z * world M :=
  let sz := brk w in
  if 0 <? n then
    if sz + n <=? brk_max w
    then (sz, w <| heap ::= zero_words (page_up sz) (Z.to_nat ((page_up (sz + n) - page_up sz) / 4)) |>
                <| brk := sz + n |>)
    else (-1, w)
  else if n <? 0 then
    let new := u32 (sz + n) in
    if sz <=? new then (sz, w)
    else if new =? 0 then (-1, w <| heap := ∅ |>)
    else (sz, w <| heap ::= filter (fun av => av.1 < page_up new) |> <| brk := new |>)
  else (sz, w).

Definition call_step {A} (t : T) (c : call) (k : Z -> prog A) w : next M A :=
  match c with
  | MutexAlloc => let '(r, m) := mx_alloc t (mxs w) in Goes (k r) (w <| mxs := m |>)
  | MutexDealloc id => let '(r, m) := mx_dealloc t id (mxs w) in Goes (k r) (w <| mxs := m |>)
  | MutexLock id =>
    match mx_lock t id (mxs w) with
    | Some (r, m) => Goes (k r) (w <| mxs := m |>)
    | None => Sleeps
    end
  | MutexUnlock id => let '(r, m) := mx_unlock t id (mxs w) in Goes (k r) (w <| mxs := m |>)
  | Sbrk n => let '(r, w') := do_sbrk n w in Goes (k r) w'
  end.

(** One step of thread [t]; [None] when the program has returned. *)
Definition step {A} (t : T) (p : prog A) w : option (next M A) :=
  match p with
  | Done _ => None
  | Wrong _ => Some Faults
  | Load a k => Some (match heap w !! a with Some v => Goes (k v) w | None => Faults end)
  | Store a v k =>
    Some (match heap w !! a with Some _ => Goes k (w <| heap ::= <[a := v]> |>) | None => Faults end)
  | Sys c k => Some (call_step t c k w)
  end.

(** [t] runs alone: the result, or [None] if it faults or sleeps. *)
Fixpoint exec {A} (t : T) (p : prog A) w : option (A * world M) :=
  match p with
  | Done a => Some (a, w)
  | Wrong _ => None
  | Load a k => match heap w !! a with Some v => exec t (k v) w | None => None end
  | Store a v k =>
    match heap w !! a with Some _ => exec t k (w <| heap ::= <[a := v]> |>) | None => None end
  | Sys c k =>
    match c with
    | MutexAlloc => let '(r, m) := mx_alloc t (mxs w) in exec t (k r) (w <| mxs := m |>)
    | MutexDealloc id => let '(r, m) := mx_dealloc t id (mxs w) in exec t (k r) (w <| mxs := m |>)
    | MutexLock id =>
      match mx_lock t id (mxs w) with Some (r, m) => exec t (k r) (w <| mxs := m |>) | None => None end
    | MutexUnlock id => let '(r, m) := mx_unlock t id (mxs w) in exec t (k r) (w <| mxs := m |>)
    | Sbrk n => let '(r, w') := do_sbrk n w in exec t (k r) w'
    end
  end.

(** [exec] is [step] iterated. *)
Lemma exec_step {A} t (p : prog A) w :
  exec t p w = match p, step t p w with
               | Done a, _ => Some (a, w)
               | _, Some (Goes p' w') => exec t p' w'
               | _, _ => None
               end.
Proof. destruct p as [| |? k|? ? k|c k]; simpl; try (by case_match); [done..|]. destruct c; simpl; by repeat case_match. Qed.

Lemma exec_andthen {A B} t (p : prog A) (f : A -> prog B) w :
  exec t (andthen p f) w = match exec t p w with Some (a, w') => exec t (f a) w' | None => None end.
Proof.
  revert w. induction p as [| |a k IH|a v k IH|c k IH]; intros w; simpl; try done.
  - by destruct (_ !! _).
  - by destruct (_ !! _).
  - destruct c; simpl;
      [destruct (mx_alloc _ _)|destruct (mx_dealloc _ _ _)|destruct (mx_lock _ _ _) as [[? ?]|]
      |destruct (mx_unlock _ _ _)|destruct (do_sbrk _ _)]; done || apply IH.
Qed.
End Run.
