(* ===== verification/MutexTable.v ===== *)
(** * The kernel's mutex table implements the mutex interface

    [tab_lock] and the others are what the mutex calls do to the table
    [mtable]; they satisfy [MutexSpec], and the calls of Proc.v change the table
    exactly so. *)
From S2P Require Import Prelude Spinlock ProcDefs Proc ProcRun KSpec KRefine KInv KCalls User.
Local Open Scope Z_scope.
Local Open Scope kernel_scope.

#[export] Instance mutex_eq_dec : EqDecision mutex.
Proof. solve_decision. Defined.

Record mtable := Mtab { slots : list mutex; next_id : Z }.
#[export] Instance mtable_eq_dec : EqDecision mtable.
Proof. solve_decision. Defined.

Definition tab_find (id : Z) (m : mtable) : option (nat * mutex) := list_find (fun x => mid x = id) (slots m).
Definition tab_set (i : nat) (x : mutex) (m : mtable) : mtable := Mtab (<[i := x]> (slots m)) (next_id m).

Definition tab_owner (m : mtable) (id : Z) : option (option (nat * nat)) :=
  match tab_find id m with
  | Some (_, x) => Some (match mstate x with MLOCKED => mthread x | MUNLOCKED => None end)
  | None => None
  end.

Definition tab_alloc (t : nat * nat) (m : mtable) : Z * mtable :=
  match tab_find 0 m with
  | Some (i, _) =>
    (next_id m, Mtab (<[i := Mutex None (Some t.1) (next_id m) MUNLOCKED]> (slots m)) (incr (next_id m)))
  | None => (-1, m)
  end.

Definition tab_dealloc (t : nat * nat) (id : Z) (m : mtable) : Z * mtable :=
  match tab_find id m with
  | Some (i, x) => match mstate x with
                   | MLOCKED => (-1, m)
                   | MUNLOCKED => (0, tab_set i (Mutex None (mproc x) 0 MUNLOCKED) m)
                   end
  | None => (-1, m)
  end.

Definition tab_lock (t : nat * nat) (id : Z) (m : mtable) : option (Z * mtable) :=
  match tab_find id m with
  | Some (i, x) => match mstate x with
                   | MLOCKED => if decide (mthread x = Some t) then Some (-1, m) else None
                   | MUNLOCKED => Some (0, tab_set i (Mutex (Some t) (mproc x) id MLOCKED) m)
                   end
  | None => Some (-1, m)
  end.

Definition tab_unlock (t : nat * nat) (id : Z) (m : mtable) : Z * mtable :=
  match tab_find id m with
  | Some (i, x) => if decide (mstate x = MLOCKED /\ mthread x = Some t)
                   then (0, tab_set i (Mutex None (mproc x) id MUNLOCKED) m) else (-1, m)
  | None => (-1, m)
  end.

(** Identifiers that are in use are unique and were handed out; a locked mutex
    has an owner. *)
Definition tab_ok (m : mtable) : Prop :=
  0 < next_id m < 2 ^ 31 /\
  (forall i x, slots m !! i = Some x -> 0 <= mid x < next_id m) /\
  (forall i j x y, slots m !! i = Some x -> slots m !! j = Some y -> mid x = mid y -> 0 < mid x -> i = j) /\
  (forall i x, slots m !! i = Some x -> mstate x = MLOCKED -> mthread x <> None /\ 0 < mid x).

#[export] Instance table_api : MutexApi mtable (nat * nat) := {
  mx_ok := tab_ok;
  mx_room m := next_id m < 2 ^ 31 - 1;
  mx_owner := tab_owner;
  mx_alloc := tab_alloc;
  mx_dealloc := tab_dealloc;
  mx_lock := tab_lock;
  mx_unlock := tab_unlock
}.

Lemma tab_find_Some id m i x :
  tab_find id m = Some (i, x) -> slots m !! i = Some x /\ mid x = id.
Proof. unfold tab_find. intros (? & ? & _)%list_find_Some. done. Qed.

Lemma tab_find_None id m i x : tab_find id m = None -> slots m !! i = Some x -> mid x <> id.
Proof.
  unfold tab_find. rewrite list_find_None, Forall_lookup. intros H Hi. by apply (H i).
Qed.

(** The slot of an identifier in use. *)
Lemma tab_find_intro id m i x :
  tab_ok m -> 0 < id -> slots m !! i = Some x -> mid x = id -> tab_find id m = Some (i, x).
Proof.
  intros (_ & _ & Hu & _) Hid Hi Hx. destruct (tab_find id m) as [[j y]|] eqn:E.
  - apply tab_find_Some in E as [Hj Hy]. assert (j = i) as -> by (eapply Hu; [exact Hj|exact Hi|congruence|lia]). congruence.
  - by destruct (tab_find_None _ _ _ _ E Hi).
Qed.

(** A slot is given the identifier [id'] and the owner [o]. *)
Lemma tab_set_find id' m i x m' :
  tab_ok m -> tab_ok m' -> slots m' = <[i := x]> (slots m) -> is_Some (slots m !! i) -> 0 < id' ->
  tab_find id' m' = if decide (mid x = id') then Some (i, x)
                    else match tab_find id' m with Some (j, y) => if decide (j = i) then None else Some (j, y) | None => None end.
Proof.
  intros Hok Hok' Hs Hi Hid. case_decide as Hx.
  - apply tab_find_intro; [done..| |done]. rewrite Hs. by rewrite list_lookup_insert_eq by (by apply lookup_lt_is_Some).
  - destruct (tab_find id' m') as [[j y]|] eqn:E.
    + apply tab_find_Some in E as [Hj Hy]. rewrite Hs in Hj.
      apply list_lookup_insert_Some in Hj as [(-> & -> & _)|(Hne & Hj)]; [done|].
      rewrite (tab_find_intro id' m j y) by done. by rewrite decide_False by congruence.
    + destruct (tab_find id' m) as [[j y]|] eqn:E'; [|done]. case_decide as Hj; [done|].
      apply tab_find_Some in E' as [Hjm Hy]. destruct (tab_find_None _ _ j y E); [|done].
      by rewrite Hs, list_lookup_insert_ne by congruence.
Qed.

Lemma tab_set_ok m i x x' :
  tab_ok m -> slots m !! i = Some x -> (mid x' = mid x \/ mid x' = 0) ->
  (mstate x' = MLOCKED -> mthread x' <> None /\ 0 < mid x') -> tab_ok (tab_set i x' m).
Proof.
  intros (Hn & Hr & Hu & Hl) Hi Hid Hlk. split; [exact Hn|]. split_and!; cbn.
  - intros j y [(<- & -> & _)|[Hne Hj]]%list_lookup_insert_Some; [|by eapply Hr]. specialize (Hr _ _ Hi). lia.
  - intros j k y z Hj Hk. apply list_lookup_insert_Some in Hj, Hk.
    destruct Hj as [(<- & -> & _)|[Hne Hj]], Hk as [(<- & -> & _)|[Hne' Hk]]; try done; intros He Hp.
    + eapply Hu; [exact Hi|exact Hk|lia|lia].
    + eapply Hu; [exact Hj|exact Hi|lia|lia].
    + by eapply Hu.
  - intros j y [(<- & -> & _)|[Hne Hj]]%list_lookup_insert_Some; [done|by eapply Hl].
Qed.

Lemma tab_set_changed m i x x' o id :
  tab_ok m -> 0 < id -> tab_find id m = Some (i, x) -> (mid x' = id \/ mid x' = 0) ->
  (mstate x' = MLOCKED -> mthread x' <> None /\ 0 < mid x') ->
  o = (if decide (mid x' = id) then Some (match mstate x' with MLOCKED => mthread x' | MUNLOCKED => None end) else None) ->
  mx_changed m id o (tab_set i x' m).
Proof.
  intros Hok Hp Hf Hid Hlk ->. destruct (tab_find_Some _ _ _ _ Hf) as [Hi Hx].
  assert (Hok' : tab_ok (tab_set i x' m)) by (eapply tab_set_ok; [done..|naive_solver|done]).
  assert (Hs : is_Some (slots m !! i)) by (by eexists).
  split_and!; [done| |].
  - cbn. unfold tab_owner. rewrite (tab_set_find id m i x' _ Hok Hok' eq_refl Hs Hp). case_decide; [done|].
    by rewrite Hf, decide_True.
  - intros id' Hp' Hne. cbn. unfold tab_owner. rewrite (tab_set_find id' m i x' _ Hok Hok' eq_refl Hs Hp').
    rewrite decide_False by lia. destruct (tab_find id' m) as [[j y]|] eqn:E; [|done]. case_decide; [|done].
    subst. apply tab_find_Some in E as [Hj Hy]. congruence.
Qed.

Lemma tab_alloc_changed m (t : nat * nat) i x :
  tab_ok m -> next_id m < 2 ^ 31 - 1 -> tab_find 0 m = Some (i, x) ->
  tab_owner m (next_id m) = None /\
  mx_changed m (next_id m) (Some None)
    (Mtab (<[i := Mutex None (Some t.1) (next_id m) MUNLOCKED]> (slots m)) (incr (next_id m))).
Proof.
  intros Hok Hroom Hf. set (x' := Mutex _ _ _ _). set (m' := Mtab _ _).
  destruct (tab_find_Some _ _ _ _ Hf) as [Hi Hx]. pose proof Hok as (Hn & Hr & Hu & Hl).
  assert (Hnone : tab_find (next_id m) m = None).
  { destruct (tab_find (next_id m) m) as [[j y]|] eqn:E; [|done]. apply tab_find_Some in E as [Hj Hy].
    specialize (Hr _ _ Hj). lia. }
  assert (Hinc : incr (next_id m) = next_id m + 1) by (unfold incr; apply s32_small; lia).
  assert (Hok' : tab_ok m').
  { split; [cbn; lia|]. split_and!; cbn; rewrite ?Hinc.
    - intros j y [(<- & <- & _)|[Hne Hj]]%list_lookup_insert_Some; cbn; [lia|]. specialize (Hr _ _ Hj). lia.
    - intros j k y z Hj Hk. apply list_lookup_insert_Some in Hj, Hk.
      destruct Hj as [(<- & <- & _)|[Hne Hj]], Hk as [(<- & <- & _)|[Hne' Hk]]; try done; cbn; intros He Hp.
      + specialize (Hr _ _ Hk). lia.
      + specialize (Hr _ _ Hj). lia.
      + by eapply Hu.
    - intros j y [(<- & <- & _)|[Hne Hj]]%list_lookup_insert_Some; [done|by eapply Hl]. }
  assert (Hs : is_Some (slots m !! i)) by (by eexists).
  assert (Hp : 0 < next_id m) by lia.
  split; [unfold tab_owner; by rewrite Hnone|]. split_and!; [done| |].
  - cbn. unfold tab_owner. rewrite (tab_set_find _ m i x' m' Hok Hok' eq_refl Hs Hp). by rewrite decide_True.
  - intros id' Hp' Hne. cbn. unfold tab_owner. rewrite (tab_set_find _ m i x' m' Hok Hok' eq_refl Hs Hp').
    rewrite decide_False by (by apply not_eq_sym). destruct (tab_find id' m) as [[j y]|] eqn:E; [|done].
    case_decide; [|done]. subst. apply tab_find_Some in E as [Hj Hy]. assert (x = y) by congruence. subst. lia.
Qed.

Lemma tab_owner_find m id o :
  tab_owner m id = Some o -> exists i x, tab_find id m = Some (i, x) /\
    o = match mstate x with MLOCKED => mthread x | MUNLOCKED => None end.
Proof. unfold tab_owner. destruct (tab_find id m) as [[i x]|]; [|done]. intros [= <-]. by exists i, x. Qed.

Lemma tab_locked_owner m id i x :
  tab_ok m -> tab_find id m = Some (i, x) -> mstate x = MLOCKED -> exists t, mthread x = Some t.
Proof.
  intros (_ & _ & _ & Hl) Hf Hs. apply tab_find_Some in Hf as [Hi _]. destruct (Hl _ _ Hi Hs) as [Hn _].
  destruct (mthread x) as [t|]; [by exists t|done].
Qed.

#[export] Instance table_spec : MutexSpec mtable (nat * nat).
Proof.
  split; cbn.
  - intros m t id Hok Hp (i & x & Hf & Ho)%tab_owner_find. unfold tab_lock. rewrite Hf. destruct (mstate x) eqn:Hs.
    + eexists. split; [done|]. eapply tab_set_changed; cbn; eauto. by rewrite decide_True.
    + destruct (tab_locked_owner _ _ _ _ Hok Hf Hs). congruence.
  - intros m t t' id _ _ (i & x & Hf & Ho)%tab_owner_find Hne. unfold tab_lock. rewrite Hf.
    destruct (mstate x); [done|]. by rewrite decide_False by congruence.
  - intros m t id _ _ (i & x & Hf & Ho)%tab_owner_find. unfold tab_lock. rewrite Hf.
    destruct (mstate x); [done|]. by rewrite decide_True.
  - intros m t id _. unfold tab_owner, tab_lock. by destruct (tab_find id m) as [[? ?]|].
  - intros m t id Hok Hp (i & x & Hf & Ho)%tab_owner_find. unfold tab_unlock. rewrite Hf.
    destruct (mstate x) eqn:Hs; [done|]. rewrite decide_True by done.
    eexists. split; [done|]. by eapply tab_set_changed; cbn; eauto; rewrite decide_True.
  - intros m t id _ _ Hne. unfold tab_owner, tab_unlock in *. destruct (tab_find id m) as [[i x]|]; [|done].
    rewrite decide_False; [done|]. intros [Hs Ht]. apply Hne. by rewrite Hs, Ht.
  - intros m t id Hok Hp (i & x & Hf & Ho)%tab_owner_find. unfold tab_dealloc. rewrite Hf. destruct (mstate x) eqn:Hs.
    + eexists. split; [done|]. by eapply tab_set_changed; cbn; eauto; try rewrite decide_False by lia.
    + destruct (tab_locked_owner _ _ _ _ Hok Hf Hs). congruence.
  - intros m t t' id _ _ (i & x & Hf & Ho)%tab_owner_find. unfold tab_dealloc. rewrite Hf. by destruct (mstate x).
  - intros m t id m' Hok Hroom. unfold tab_alloc. destruct (tab_find 0 m) as [[i x]|] eqn:Hf; [|by intros [= <-]].
    intros [= <- <-] _. split; [apply Hok|]. by eapply tab_alloc_changed.
  - intros m t m' (Hn & _). unfold tab_alloc. destruct (tab_find 0 m) as [[i x]|]; intros [= ?]; [lia|done].
Qed.

(** ** The calls of the kernel *)

Definition table_call (t : nat * nat) (x : call) (m : mtable) : option (Z * mtable) :=
  match x with
  | MutexAlloc => Some (tab_alloc t m)
  | MutexDealloc id => Some (tab_dealloc t id m)
  | MutexLock id => tab_lock t id m
  | MutexUnlock id => Some (tab_unlock t id m)
  | Sbrk _ => None
  end.

Section Calls.
Context {E : Type} `{SV : Services E}.
Implicit Types s : kst E.

Definition mutex_call (c : nat) (x : call) : K (E := E) Z :=
  match x with
  | MutexAlloc => kthread_mutex_alloc c
  | MutexDealloc id => kthread_mutex_dealloc c id
  | MutexLock id => kthread_mutex_lock c id
  | MutexUnlock id => kthread_mutex_unlock c id
  | Sbrk _ => panic "not a mutex call"
  end.

Definition mtab s : mtable := Mtab (mutexes s) (nextmid s).

Lemma find_mutex_tab id s m :
  find_mutex id s = Some m -> exists x, tab_find id (mtab s) = Some (m, x) /\ mutexes s !! m = Some x /\ mid x = id.
Proof.
  unfold find_mutex. intros ([j x] & Hj & ->)%fmap_Some. exists x.
  pose proof (proj1 (list_find_Some _ _ _ _) Hj) as (? & ? & _). done.
Qed.
Lemma find_mutex_none id s : find_mutex id s = None -> tab_find id (mtab s) = None.
Proof. unfold find_mutex, tab_find. cbn. by destruct (list_find _ _). Qed.

Lemma psat_acq c lk s (Q : unit -> kst E -> Prop) W :
  (forall m, same_cur (mch s) m -> Q tt (s <| mch := m |>)) ->
  (forall m l, W (KSpin l) (s <| mch := m |>)) -> psat (acq c lk s) Q W.
Proof.
  intros HQ HW. pose proof (keeps_acquire c lk (mch s)) as Hk. unfold acq, onm, zoom.
  destruct (acquire c lk (mch s)) as [[] ?| | |]; cbn [psat] in *; auto.
Qed.

(** A call that stops has not begun (it spins on the lock of the table), sleeps
    with the table as it found it, or is done with the table. *)
Definition table_stop ct x s (r : kstop) s' : Prop :=
  mtab s' = mtab s /\ (r = KSwitch -> table_call ct x (mtab s) = None) \/
  exists v, table_call ct x (mtab s) = Some (v, mtab s').
Definition follows_table c ct x s : Prop :=
  psat (mutex_call c x s) (fun v s' => table_call ct x (mtab s) = Some (v, mtab s')) (table_stop ct x s).

(** The updates of one slot, that held [x], as one. *)
Ltac merge_updates Hx := cbn -[table_call]; rewrite !list_alter_alter, (list_alter_insert _ _ _ _ Hx).

Lemma alloc_follows c ct s : here c ct s -> follows_table c ct MutexAlloc s.
Proof.
  destruct ct as [p i]. intros Hh. unfold follows_table, mutex_call, kthread_mutex_alloc. kstep. kstep.
  apply psat_bind, psat_acq; [intros m1 ?|by left]. kstep. destruct (find_mutex 0 _) as [mi|] eqn:Hf.
  - apply find_mutex_tab in Hf as (x & Hf & Hx & _). change (mutexes s !! mi = Some x) in Hx.
    change (tab_find 0 (mtab s) = Some (mi, x)) in Hf. do 10 kstep. rename select (_ !! mi = Some x0) into Hy. kstep.
    cbn in Hy. rewrite !list_alter_alter, (list_alter_insert _ _ _ _ Hx) in Hy.
    rewrite list_lookup_insert_eq in Hy by (by eapply lookup_lt_Some). injection Hy as <-.
    unfold mtab in *. merge_updates Hx. cbn. unfold tab_alloc. by rewrite Hf.
  - apply find_mutex_none in Hf. change (tab_find 0 (mtab s) = None) in Hf. ksteps. cbn. unfold tab_alloc. by rewrite Hf.
Qed.

Lemma dealloc_follows c ct s id : here c ct s -> follows_table c ct (MutexDealloc id) s.
Proof.
  destruct ct as [p i]. intros Hh. unfold follows_table, mutex_call, kthread_mutex_dealloc. kstep.
  apply psat_bind, psat_acq; [intros m1 ?|by left]. kstep. destruct (find_mutex id _) as [mi|] eqn:Hf.
  - apply find_mutex_tab in Hf as (x & Hf & Hx & _). change (mutexes s !! mi = Some x) in Hx.
    change (tab_find id (mtab s) = Some (mi, x)) in Hf. kstep. rename select (_ !! mi = Some x0) into Hy.
    assert (x0 = x) as -> by (change (mutexes s !! mi = Some x0) in Hy; congruence). kstep; to_prop; ksteps.
    + cbn. unfold tab_dealloc. rewrite Hf. by destruct (mstate x).
    + unfold mtab in *. merge_updates Hx. cbn. unfold tab_dealloc. rewrite Hf. by destruct (mstate x).
  - apply find_mutex_none in Hf. change (tab_find id (mtab s) = None) in Hf. ksteps. cbn. unfold tab_dealloc. by rewrite Hf.
Qed.

(** A thread that sleeps leaves the table alone. *)
Lemma sleep_tab c ct s ch lk who :
  here c ct s -> psat (sleep c ch lk who s) (fun _ _ => False) (fun _ s' => mtab s' = mtab s).
Proof.
  destruct ct as [p i]. intros Hh. unfold sleep. ksteps; try done.
  all: unfold sched; apply psat_bind, psat_onm_any; [intros ? ?|by intros]; ksteps; done.
Qed.

Lemma lock_pass_follows c ct s id mi x :
  here c ct s -> tab_find id (mtab s) = Some (mi, x) -> mutexes s !! mi = Some x -> mid x = id ->
  ~ (mstate x = MLOCKED /\ mthread x = Some ct) ->
  psat (mutex_lock_pass c mi s) (fun v s' => tab_lock ct id (mtab s) = Some (v, mtab s'))
                                (table_stop ct (MutexLock id) s).
Proof.
  intros Hh Hf Hx Hid Hne. unfold mutex_lock_pass. kstep. rename select (_ !! mi = Some x0) into Hy.
  assert (x0 = x) as -> by congruence. kstep. kstep; to_prop.
  - rewrite (set_mutex_same _ _ _ x Hx) by (destruct x; simplify_eq/=; congruence).
    apply psat_bind. eapply psat_mono; [by eapply sleep_tab|done|]. intros r s' Ht. left. split; [done|].
    intros _. cbn. unfold tab_lock. rewrite Hf. rename select (mstate x = MLOCKED) into Hl. rewrite Hl.
    by rewrite decide_False by naive_solver.
  - kstep. ksteps. unfold mtab in *. merge_updates Hx. cbn. unfold tab_lock. rewrite Hf. destruct (mstate x); [|done].
    by rewrite Hid.
Qed.

Lemma lock_follows c ct s id : here c ct s -> follows_table c ct (MutexLock id) s.
Proof.
  intros Hh. unfold follows_table, mutex_call, kthread_mutex_lock. kstep.
  apply psat_bind, psat_acq; [intros m1 ?|by left]. kstep. destruct (find_mutex id _) as [mi|] eqn:Hf.
  - apply find_mutex_tab in Hf as (x & Hf & Hx & Hid). kstep. rename select (_ !! mi = Some x0) into Hy.
    assert (x0 = x) as -> by congruence. kstep.
    + to_prop. ksteps. change (tab_find id (mtab s) = Some (mi, x)) in Hf. cbn. unfold tab_lock. rewrite Hf.
      repeat case_match; naive_solver.
    + eapply psat_mono; [eapply (lock_pass_follows c ct _ id); [here_tac|done..|]|intros v s' Hv; exact Hv|intros v s' Hv; exact Hv].
      intros [H1 H2]. by rewrite H1, H2, !bool_decide_eq_true_2 in Heqb.
  - apply find_mutex_none in Hf. change (tab_find id (mtab s) = None) in Hf. ksteps. cbn. unfold tab_lock. by rewrite Hf.
Qed.

(** The tid test of [kthread_mutex_unlock] is the test for the owner. *)
Lemma unlock_follows c ct s id :
  here c ct s -> (forall o, tid_of s o = tid_of s ct -> o = ct) -> follows_table c ct (MutexUnlock id) s.
Proof.
  intros Hh Hu. unfold follows_table, mutex_call, kthread_mutex_unlock.
  apply psat_bind, psat_acq; [intros m1 ?|by left]. kstep. destruct (find_mutex id _) as [mi|] eqn:Hf.
  - apply find_mutex_tab in Hf as (x & Hf & Hx & Hid). change (mutexes s !! mi = Some x) in Hx.
    change (tab_find id (mtab s) = Some (mi, x)) in Hf. kstep. rename select (_ !! mi = Some x0) into Hy.
    assert (x0 = x) as -> by (change (mutexes s !! mi = Some x0) in Hy; congruence). kstep; to_prop.
    + ksteps. cbn. unfold tab_unlock. rewrite Hf, decide_False; [done|intros [? _]; congruence].
    + do 9 kstep. rename select (mthread x = Some a) into Ho. rename select (get_thread _ a.1 a.2 = Some t) into Hot.
      kstep. rename select (get_thread _ ct.1 ct.2 = Some t0) into Hct. kstep.
      change (get_thread s a.1 a.2 = Some t) in Hot. change (get_thread s ct.1 ct.2 = Some t0) in Hct. kstep; to_prop.
      * ksteps. cbn. unfold tab_unlock. rewrite Hf, decide_False; [done|]. intros [_ Hc]. assert (a = ct) as -> by congruence. congruence.
      * assert (a = ct) as ->.
        { apply Hu. unfold tid_of. rewrite Hot, Hct. simpl. by f_equal. }
        assert (Hres : forall s', mtab s' = tab_set mi (Mutex None (mproc x) (mid x) MUNLOCKED) (mtab s) ->
                  table_call ct (MutexUnlock (mid x)) (mtab s) = Some (0, mtab s')).
        { intros s' ->. cbn. unfold tab_unlock. rewrite Hf, decide_True; [done|]. split; [by destruct (mstate x)|done]. }
        unfold wakeup, wakeup1. ksteps.
        all: try (right; exists 0). all: apply Hres; unfold mtab, tab_set; merge_updates Hx; done.
  - apply find_mutex_none in Hf. change (tab_find id (mtab s) = None) in Hf. ksteps. cbn. unfold tab_unlock. by rewrite Hf.
Qed.
End Calls.

(** ** Theorems *)

(** C13: the mutex calls of the kernel implement the table that user code is
    verified against: [kthread_mutex_alloc], [_dealloc], [_lock] and [_unlock],
    run by any live thread, return what [table_call] returns and leave the table
    it gives; a call that goes to sleep does so exactly where [table_call] says
    that the caller waits, with the table unchanged, and a call that is kept
    spinning is either not begun or complete as far as the table goes. *)
Theorem mutex_calls_table {E} `{SV : Services E} (c : nat) (ct : nat * nat) (s : kst E) (x : call)
    (Hh : here c ct s) (Hi : ids_ok s) (Hv : live_ok s) (Hx : forall n, x <> Sbrk n) :
  psat (mutex_call c x s) (fun v s' => table_call ct x (mtab s) = Some (v, mtab s'))
    (fun r s' => mtab s' = mtab s /\ (r = KSwitch -> table_call ct x (mtab s) = None) \/
                 exists v, table_call ct x (mtab s) = Some (v, mtab s')).
Proof.
  destruct x; [by apply alloc_follows|by apply dealloc_follows|by apply lock_follows| |by destruct (Hx n)].
  apply unlock_follows; [done|]. intros o. by eapply here_tid.
Qed.

Lemma mutex_calls_table_witness :
  psat (mutex_call 1 (MutexUnlock 1) demo)
    (fun v s' => table_call (0%nat, 1%nat) (MutexUnlock 1) (mtab demo) = Some (v, mtab s'))
    (fun r s' => mtab s' = mtab demo /\ (r = KSwitch -> table_call (0%nat, 1%nat) (MutexUnlock 1) (mtab demo) = None) \/
                 exists v, table_call (0%nat, 1%nat) (MutexUnlock 1) (mtab demo) = Some (v, mtab s')).
Proof.
  apply (mutex_calls_table 1 (0%nat, 1%nat) demo (MutexUnlock 1)).
  - apply (demo_here 1). lia.
  - apply demo_ids.
  - apply demo_live.
  - done.
Defined.
