(* ===== verification/Umalloc.v ===== *)
(** * The user-level allocator (umalloc.c)

    A header is two words, [ptr] and [size] in units of a header; [base] and
    [freep] are at the addresses the linker gives them.  The two loops walk a
    circular list: they take fuel, one unit per step. *)
From S2P Require Import Prelude User.
Local Open Scope Z_scope.
Local Open Scope user_scope.

Section Umalloc.
Context (base freep : Z) (fuel : nat).

Definition hdr_ptr (h : Z) : Z := h.
Definition hdr_size (h : Z) : Z := h + 4.
(** [h + n] on a [Header*], and the pointer differences of one header. *)
Definition hdr_at (h n : Z) : Z := u32 (h + 8 * n).

(** The loop of [free]: the element of the list that [bp] goes behind. *)
Fixpoint free_find (fuel : nat) (bp p : Z) : prog Z :=
  match fuel with
  | O => Wrong "free: out of fuel"
  | S fuel' =>
    let! here := (if p <? bp then let! nx := load_uint (hdr_ptr p) in Done (bp <? nx) else Done false) in
    if here : bool then Done p else
    let! nx := load_uint (hdr_ptr p) in
    let! wraps := (if nx <=? p
                   then if p <? bp then Done true
                        else let! nx := load_uint (hdr_ptr p) in Done (bp <? nx)
                   else Done false) in
    if wraps : bool then Done p else
    let! nx := load_uint (hdr_ptr p) in
    free_find fuel' bp nx
  end.

Definition free (ap : Z) : prog unit :=
  let bp := hdr_at ap (-1) in
  let! fp := load_uint freep in
  let! p := free_find fuel bp fp in
  let! bsize := load_uint (hdr_size bp) in
  let! nx := load_uint (hdr_ptr p) in
  (if hdr_at bp bsize =? nx then
     let! bsize := load_uint (hdr_size bp) in
     let! nx := load_uint (hdr_ptr p) in
     let! nsize := load_uint (hdr_size nx) in
     store (hdr_size bp) (bsize + nsize) ;!;
     let! nx := load_uint (hdr_ptr p) in
     let! nnx := load_uint (hdr_ptr nx) in
     store (hdr_ptr bp) nnx
   else
     let! nx := load_uint (hdr_ptr p) in
     store (hdr_ptr bp) nx) ;!;
  let! psize := load_uint (hdr_size p) in
  (if hdr_at p psize =? bp then
     let! psize := load_uint (hdr_size p) in
     let! bsize := load_uint (hdr_size bp) in
     store (hdr_size p) (psize + bsize) ;!;
     let! bnx := load_uint (hdr_ptr bp) in
     store (hdr_ptr p) bnx
   else store (hdr_ptr p) bp) ;!;
  store freep p.

Definition morecore (nu : Z) : prog Z :=
  let nu := if nu <? 4096 then 4096 else nu in
  let! p := sys (Sbrk (s32 (nu * 8))) in
  if u32 p =? u32 (-1) then Done 0 else
  let hp := u32 p in
  store (hdr_size hp) nu ;!;
  free (hdr_at hp 1) ;!;
  load_uint freep.

(** The loop of [malloc]. *)
Fixpoint malloc_loop (fuel : nat) (nunits prevp p : Z) : prog Z :=
  match fuel with
  | O => Wrong "malloc: out of fuel"
  | S fuel' =>
    let! size := load_uint (hdr_size p) in
    if nunits <=? size then
      let! p :=
        (let! size := load_uint (hdr_size p) in
         if size =? nunits then
           let! nx := load_uint (hdr_ptr p) in
           store (hdr_ptr prevp) nx ;!; Done p
         else
           let! size := load_uint (hdr_size p) in
           store (hdr_size p) (size - nunits) ;!;
           let! size := load_uint (hdr_size p) in
           let p := hdr_at p size in
           store (hdr_size p) nunits ;!; Done p) in
      store freep prevp ;!;
      Done (hdr_at p 1)
    else
      let! fp := load_uint freep in
      if p =? fp then
        let! p := morecore nunits in
        if p =? 0 then Done 0 else
        let! nx := load_uint (hdr_ptr p) in
        malloc_loop fuel' nunits p nx
      else
        let! nx := load_uint (hdr_ptr p) in
        malloc_loop fuel' nunits p nx
  end.

Definition malloc (nbytes : Z) : prog Z :=
  let nunits := u32 (u32 (nbytes + 8 - 1) / 8 + 1) in
  let! fp := load_uint freep in
  let! prevp :=
    (if fp =? 0 then
       store freep base ;!; store (hdr_ptr base) base ;!; store (hdr_size base) 0 ;!; Done base
     else Done fp) in
  let! p := load_uint (hdr_ptr prevp) in
  malloc_loop fuel nunits prevp p.
End Umalloc.
