(* ===== verification/UmallocSpec.v ===== *)
(** * The user-level allocator keeps a tiled arena

    [tiles] is what malloc and free promise: the memory taken from the kernel is cut
    into consecutive tiles, each free or in use; no two free tiles are neighbours.  The
    ring of free blocks in memory, which umalloc.c walks, is [arena]'s representation
    of it; free and morecore are run on it.  Sizes are in headers, 8 bytes each. *)
From S2P Require Import Prelude User Umalloc.
Local Open Scope Z_scope.
Local Open Scope user_scope.

(** ** Tiles *)

(** The size of a tile, and whether it is free. *)
Definition tiles : Type := list (Z * bool).

Fixpoint span (T : tiles) : Z := match T with [] => 0 | x :: T' => 8 * x.1 + span T' end.

(** The free tiles, and those in use, with their addresses; the first tile is at [lo]. *)
Fixpoint frees (lo : Z) (T : tiles) : list (Z * Z) :=
  match T with
  | [] => []
  | (n, true) :: T' => (lo, n) :: frees (lo + 8 * n) T'
  | (n, false) :: T' => frees (lo + 8 * n) T'
  end.
Fixpoint used (lo : Z) (T : tiles) : list (Z * Z) :=
  match T with
  | [] => []
  | (n, false) :: T' => (lo, n) :: used (lo + 8 * n) T'
  | (n, true) :: T' => used (lo + 8 * n) T'
  end.

Definition sized (T : tiles) : Prop := Forall (fun x => 0 < x.1) T.

(** No two neighbours are free. *)
Fixpoint coalesced (T : tiles) : Prop :=
  match T with
  | (_, true) :: (((_, true) :: _) as T') => False
  | _ :: T' => coalesced T'
  | [] => True
  end.

(** ** What the calls do *)

(** A free tile of [n] headers between [u] and [v], joined with free neighbours. *)
Definition join_right (n : Z) (v : tiles) : Z * tiles :=
  match v with (m, true) :: v' => (n + m, v') | _ => (n, v) end.
Definition join_left (u : tiles) (n : Z) : tiles * Z :=
  match last u with Some (m, true) => (removelast u, m + n) | _ => (u, n) end.
Definition join (u : tiles) (n : Z) (v : tiles) : tiles :=
  let '(n, v) := join_right n v in
  let '(u, n) := join_left u n in
  u ++ (n, true) :: v.

(** The last [k] headers of a free tile of [m] are put to use. *)
Definition carve (u : tiles) (m k : Z) (v : tiles) : tiles :=
  u ++ (if m =? k then [] else [(m - k, true)]) ++ (k, false) :: v.

(** ** Lists of tiles *)

Lemma span_app u v : span (u ++ v) = span u + span v.
Proof. induction u as [|[n f] u IH]; simpl; lia. Qed.

Lemma frees_app lo u v : frees lo (u ++ v) = frees lo u ++ frees (lo + span u) v.
Proof.
  revert lo. induction u as [|[n f] u IH]; intros lo; simpl; [by rewrite Z.add_0_r|].
  destruct f; rewrite IH; simpl; rewrite Z.add_assoc; done.
Qed.

Lemma used_app lo u v : used lo (u ++ v) = used lo u ++ used (lo + span u) v.
Proof.
  revert lo. induction u as [|[n f] u IH]; intros lo; simpl; [by rewrite Z.add_0_r|].
  destruct f; rewrite IH; simpl; rewrite Z.add_assoc; done.
Qed.

Lemma span_nonneg T : sized T -> 0 <= span T.
Proof. induction 1 as [|x T Hx _ IH]; simpl; lia. Qed.

Lemma frees_in lo T a n : sized T -> (a, n) ∈ frees lo T -> lo <= a /\ 0 < n /\ a + 8 * n <= lo + span T /\ (a - lo) mod 8 = 0.
Proof.
  intros HT. revert lo. induction HT as [|[m f] T Hx HT IH]; intros lo; simpl in *; [set_solver|].
  pose proof (span_nonneg T HT).
  assert (Hrec : (a, n) ∈ frees (lo + 8 * m) T -> lo <= a /\ 0 < n /\ a + 8 * n <= lo + (8 * m + span T) /\ (a - lo) mod 8 = 0).
  { intros Hin. destruct (IH _ Hin) as (? & ? & ? & Hm). split_and!; [lia..|].
    replace (a - lo) with (a - (lo + 8 * m) + m * 8) by lia. by rewrite Z.mod_add. }
  destruct f; [|done]. intros [[= <- <-]|Hin]%elem_of_cons; [|auto]. rewrite Z.sub_diag. split_and!; [lia..|done].
Qed.

Lemma used_in lo T a n : sized T -> (a, n) ∈ used lo T ->
  exists u v, T = u ++ (n, false) :: v /\ a = lo + span u.
Proof.
  intros HT. revert lo. induction HT as [|[m f] T Hx HT IH]; intros lo; simpl in *; [set_solver|].
  assert (Hrec : (a, n) ∈ used (lo + 8 * m) T -> exists u v, (m, f) :: T = u ++ (n, false) :: v /\ a = lo + span u).
  { intros Hin. destruct (IH _ Hin) as (u & v & -> & ->). exists ((m, f) :: u), v. simpl. split; [done|lia]. }
  destruct f; [done|]. intros [[= <- <-]|Hin]%elem_of_cons; [|auto]. exists [], T. simpl. split; [done|lia].
Qed.

Lemma frees_length lo T : (length (frees lo T) <= length T)%nat.
Proof. revert lo. induction T as [|[n []] T IH]; intros lo; simpl; [lia|pose proof (IH (lo + 8 * n)); lia..]. Qed.

Lemma used_bounds lo T a n : sized T -> (a, n) ∈ used lo T -> lo <= a /\ 0 < n /\ a + 8 * n <= lo + span T.
Proof.
  intros HT Hin. destruct (used_in lo T a n HT Hin) as (u & v & -> & ->).
  apply Forall_app in HT as [Hu [Hn Hv]%Forall_cons]. simpl in Hn. pose proof (span_nonneg u Hu). pose proof (span_nonneg v Hv).
  rewrite span_app. simpl. lia.
Qed.

Lemma tiles_disjoint lo T a n b k :
  sized T -> (a, n) ∈ frees lo T -> (b, k) ∈ used lo T -> a + 8 * n <= b \/ b + 8 * k <= a.
Proof.
  intros HT. revert lo. induction HT as [|[m f] T Hm HT IH]; intros lo; simpl in *; [set_solver|].
  destruct f; simpl in *.
  - intros [[= -> ->]|Ha]%elem_of_cons Hb; [|eauto]. pose proof (used_bounds _ _ _ _ HT Hb). lia.
  - intros Ha [[= -> ->]|Hb]%elem_of_cons; [|eauto]. pose proof (frees_in _ _ _ _ HT Ha). lia.
Qed.

(** *** Joining and carving *)

Lemma last_split (u : tiles) : u = [] \/ exists u' x, u = u' ++ [x].
Proof. destruct u as [|x u] using rev_ind; [by left|]. right. by exists u, x. Qed.

Lemma join_right_sized n v n' v' :
  join_right n v = (n', v') -> sized v -> n <= n' /\ sized v' /\ 8 * n' + span v' = 8 * n + span v.
Proof.
  unfold join_right, sized. destruct v as [|[m []] v]; intros [= <- <-] Hv; simpl; try (split_and!; [lia|done|lia]).
  apply Forall_cons in Hv as [Hm Hv]. simpl in Hm. split_and!; [lia|done|lia].
Qed.

Lemma join_left_nil n : join_left [] n = ([], n).
Proof. done. Qed.
Lemma join_left_free u k n : join_left (u ++ [(k, true)]) n = (u, k + n).
Proof. unfold join_left. by rewrite last_snoc, removelast_last. Qed.
Lemma join_left_used u k n : join_left (u ++ [(k, false)]) n = (u ++ [(k, false)], n).
Proof. unfold join_left. by rewrite last_snoc. Qed.

(** The neighbours of a tile: free, in use, or none. *)
Ltac neighbours u v :=
  destruct v as [|[? []] ?]; destruct (last_split u) as [->|(? & [? []] & ->)]; cbn [join_right];
  rewrite ?join_left_nil, ?join_left_free, ?join_left_used.

Lemma join_facts lo u n v :
  span (join u n v) = span (u ++ (n, false) :: v) /\
  used lo (join u n v) = used lo u ++ used (lo + span u + 8 * n) v.
Proof.
  unfold join. neighbours u v; rewrite ?span_app, ?used_app; simpl; rewrite ?span_app, ?app_nil_r, ?app_nil_l; simpl;
    (split; [lia|]); rewrite ?used_app; simpl; rewrite ?app_nil_r, <- ?app_assoc; simpl; repeat (lia || f_equal).
Qed.

Lemma join_sized u n v : sized (u ++ (n, false) :: v) -> sized (join u n v).
Proof.
  unfold sized. intros [Hu [Hn Hv]%Forall_cons]%Forall_app. unfold join. simpl in Hn.
  neighbours u v; rewrite ?Forall_app, ?Forall_cons in *; simpl in *; intuition lia.
Qed.

Lemma coalesced_app u x v : coalesced (u ++ x :: v) <-> coalesced (u ++ [x]) /\ coalesced (x :: v).
Proof.
  induction u as [|[m f] u IH]; simpl.
  - destruct x as [? []]; simpl; tauto.
  - destruct u as [|[m' f'] u]; simpl in *; destruct f; [| |destruct f'|]; try tauto.
    destruct x as [? []]; simpl in *; tauto.
Qed.

Lemma join_coalesced u n v : coalesced (u ++ (n, false) :: v) -> coalesced (join u n v).
Proof.
  rewrite coalesced_app. intros [Hu Hv]. unfold join.
  assert (Hv' : forall k, coalesced ((k, true) :: (join_right n v).2)).
  { intros k. unfold join_right. destruct v as [|[m []] v]; [done| |done]. simpl in *.
    by destruct v as [|[? []] ?]. }
  assert (Hu' : forall m k, coalesced ((join_left u m).1 ++ [(k, true)])).
  { intros m k. destruct (last_split u) as [->|(u' & [j []] & ->)]; rewrite ?join_left_free, ?join_left_used; [done|..]; simpl.
    - rewrite <- app_assoc in Hu. simpl in Hu. apply coalesced_app in Hu as [Hu _].
      destruct (last_split u') as [->|(u2 & [i []] & ->)]; [done|..]; rewrite <- app_assoc in *; simpl in *;
        apply coalesced_app in Hu as [Hu1 Hu2]; apply coalesced_app; done.
    - rewrite <- app_assoc in *. simpl in *. apply coalesced_app in Hu as [Hu _]. by apply coalesced_app. }
  destruct (join_right n v) as [n' v']. specialize (Hu' n'). destruct (join_left u n') as [u' n'']. simpl fst in *.
  apply coalesced_app. split; [apply Hu'|apply Hv'].
Qed.

(** ** The ring in memory *)

Definition hd_addr (e : Z) (l : list (Z * Z)) : Z := match l with x :: _ => x.1 | [] => e end.

(** The headers of [l] are in memory and each points to the next, the last to [e]. *)
Fixpoint links (h : gmap Z Z) (l : list (Z * Z)) (e : Z) : Prop :=
  match l with
  | [] => True
  | x :: l' => h !! x.1 = Some (hd_addr e l') /\ h !! (x.1 + 4) = Some x.2 /\ links h l' e
  end.

Fixpoint asc (l : list (Z * Z)) : Prop :=
  match l with x :: (y :: _) as l' => x.1 + 8 <= y.1 /\ asc l' | _ => True end.

Lemma links_app h l1 l2 e : links h (l1 ++ l2) e <-> links h l1 (hd_addr e l2) /\ links h l2 e.
Proof.
  induction l1 as [|x l1 IH]; simpl; [tauto|]. rewrite IH.
  assert (hd_addr e (l1 ++ l2) = hd_addr (hd_addr e l2) l1) as -> by (by destruct l1). tauto.
Qed.

Lemma links_ext h h' l e :
  (forall x, x ∈ l -> h' !! x.1 = h !! x.1 /\ h' !! (x.1 + 4) = h !! (x.1 + 4)) -> links h l e -> links h' l e.
Proof.
  induction l as [|x l IH]; simpl; [done|]. intros Hx (H1 & H2 & H3).
  destruct (Hx x) as [-> ->]; [set_solver|]. split_and!; [done..|]. apply IH; [|done]. intros y Hy. apply Hx. set_solver.
Qed.

Lemma asc_cons x l : asc (x :: l) -> asc l.
Proof. destruct l; simpl; tauto. Qed.
Lemma asc_app_r l1 l2 : asc (l1 ++ l2) -> asc l2.
Proof. induction l1 as [|x l1 IH]; [done|]. intros Ha. apply IH. by eapply asc_cons. Qed.

Lemma asc_app_l l1 l2 : asc (l1 ++ l2) -> asc l1.
Proof.
  induction l1 as [|x l1 IH]; [done|]. destruct l1 as [|y l1]; [done|]. intros [Hx Ha]. split; [done|]. by apply IH.
Qed.

Lemma asc_first x l y : asc (x :: l ++ [y]) -> x.1 + 8 <= y.1.
Proof.
  revert x. induction l as [|z l IH]; intros x Ha; cbn [app asc] in Ha; [tauto|].
  destruct Ha as [Hx Ha]. pose proof (IH z Ha). lia.
Qed.
Lemma asc_before l y x : asc (l ++ [y]) -> x ∈ l -> x.1 + 8 <= y.1.
Proof.
  intros Ha (l1 & l2 & ->)%list_elem_of_split. rewrite <- app_assoc in Ha.
  apply asc_app_r in Ha. by eapply asc_first.
Qed.

Lemma asc_frees x lo T : sized T -> x.1 + 8 <= lo -> asc (x :: frees lo T).
Proof.
  intros HT. revert x lo. induction HT as [|[n f] T Hn HT IH]; intros x lo Hx; [done|]. simpl in *.
  destruct f; [|apply IH; lia]. split; [done|]. apply IH. simpl. lia.
Qed.

Section Walk.
Context {M T : Type} `{MutexApi M T}.
Implicit Types (t : T) (w : world M).

Lemma free_find_step t f bp p nx w :
  heap w !! p = Some nx -> 0 <= nx < 2 ^ 32 ->
  exec t (free_find (S f) bp p) w =
  if (p <? bp) && (bp <? nx) || (nx <=? p) && ((p <? bp) || (bp <? nx)) then Some (p, w)
  else exec t (free_find f bp nx) w.
Proof.
  intros Hp Hn. cbn [free_find]. unfold hdr_ptr. rewrite exec_andthen.
  destruct (p <? bp); cbn; rewrite ?Hp; cbn; rewrite ?u32_small by done.
  - destruct (bp <? nx); cbn; [done|]. rewrite Hp. cbn. rewrite u32_small by done.
    destruct (nx <=? p); cbn; [done|]. rewrite Hp. cbn. by rewrite u32_small.
  - destruct (nx <=? p); cbn; rewrite ?Hp; cbn; rewrite ?u32_small by done; [|done].
    destruct (bp <? nx); cbn; [done|]. rewrite Hp. cbn. by rewrite u32_small.
Qed.

(** Going up to the last block below [bp]. *)
Lemma free_find_up t f bp x m V w base :
  links (heap w) ((x :: m) ++ V) base -> asc ((x :: m) ++ V) ->
  Forall (fun y => 0 <= y.1 < bp) (x :: m) -> Forall (fun y => bp < y.1 < 2 ^ 32) V ->
  0 <= base <= x.1 -> bp < 2 ^ 32 -> (length m < f)%nat ->
  exists z, last (x :: m) = Some z /\ exec t (free_find f bp x.1) w = Some (z.1, w).
Proof.
  revert x f. induction m as [|y m IH]; intros x [|f] (Hl & _ & Hr) Ha Hu HV Hb Hbp Hf; cbn [length app] in *; try lia.
  - exists x. split; [done|]. apply Forall_cons in Hu as [Hx _].
    assert (Hn : 0 <= hd_addr base V < 2 ^ 32) by (destruct V; simpl; [lia|apply Forall_cons in HV as [? _]; lia]).
    rewrite (free_find_step t f bp x.1 (hd_addr base V)) by done.
    rewrite (proj2 (Z.ltb_lt x.1 bp)) by lia. destruct V as [|v V]; simpl in *.
    + rewrite (proj2 (Z.leb_le base x.1)) by lia. by rewrite orb_true_r.
    + apply Forall_cons in HV as [? _]. by rewrite (proj2 (Z.ltb_lt bp v.1)) by lia.
  - apply Forall_cons in Hu as [Hx Hu]. pose proof Hu as [Hy _]%Forall_cons. destruct Ha as [Hxy Ha].
    rewrite (free_find_step t f bp x.1 y.1) by (done || lia).
    rewrite (proj2 (Z.ltb_ge bp y.1)), (proj2 (Z.leb_gt y.1 x.1)), andb_false_r by lia. cbn [orb andb].
    destruct (IH y f) as (z & Hz & He); [done|done|done|done|lia|lia|lia|]. exists z. split; [|done].
    by rewrite last_cons_cons.
Qed.

(** Going from a block above [bp] round to [base]. *)
Lemma free_find_down t f bp x V w base :
  links (heap w) (x :: V) base -> asc (x :: V) -> Forall (fun y => bp < y.1 < 2 ^ 32) (x :: V) -> 0 <= base < bp ->
  exec t (free_find (length (x :: V) + f) bp x.1) w = exec t (free_find f bp base) w.
Proof.
  revert x. induction V as [|y V IH]; intros x (Hl & _ & Hr) Ha Hu Hb; apply Forall_cons in Hu as [Hx Hu]; cbn [length Nat.add hd_addr app] in *.
  - rewrite (free_find_step t f bp x.1 base) by (done || lia).
    rewrite (proj2 (Z.ltb_ge x.1 bp)), (proj2 (Z.ltb_ge bp base)) by lia. cbn [orb andb]. by rewrite andb_false_r.
  - destruct Ha as [Hxy Ha]. pose proof Hu as [Hy _]%Forall_cons.
    rewrite (free_find_step t _ bp x.1 y.1) by (done || lia).
    rewrite (proj2 (Z.ltb_ge x.1 bp)), (proj2 (Z.leb_gt y.1 x.1)) by lia. cbn [orb andb]. by apply IH.
Qed.
End Walk.

(** ** The arena in memory, and free *)

Section Ops.
Context {M T : Type} `{MutexApi M T}.
Context (base freep lo : Z).
Implicit Types (t : T) (w : world M) (h : gmap Z Z) (X : tiles).

(** Where the linker put [base] and [freep]: below the memory of sbrk, apart. *)
Record layout : Prop := {
  ly_base : 0 < base /\ base + 8 <= lo;
  ly_freep : 0 < freep /\ freep + 4 <= lo;
  ly_apart : freep + 4 <= base \/ base + 8 <= freep;
  ly_lo : lo mod 4 = 0
}.

Definition ring X : list (Z * Z) := (base, 0) :: frees lo X.

(** The memory of tiles [X] up to [brk], with the ring of its free tiles and [freep] at [p]. *)
Record arena h (brk : Z) X (p : Z) : Prop := {
  ar_brk : brk = lo + span X /\ brk < 2 ^ 31;
  ar_sized : sized X;
  ar_mapped : forall a, lo <= a < page_up brk -> a mod 4 = 0 -> is_Some (h !! a);
  ar_used : forall a n, (a, n) ∈ used lo X -> h !! (a + 4) = Some n;
  ar_freep : h !! freep = Some p;
  ar_member : p ∈ (ring X).*1;
  ar_links : links h (ring X) base
}.

Hypothesis Hlay : layout.

Lemma page_up_ge a : a <= page_up a.
Proof. unfold page_up. pose proof (Z.div_mod (a + 4095) 4096 ltac:(lia)). pose proof (Z.mod_pos_bound (a + 4095) 4096 ltac:(lia)). lia. Qed.

(** The address of a tile holds words. *)
Lemma tile_mod u : (lo + span u) mod 4 = 0.
Proof.
  assert (span u mod 4 = 0) as Hs.
  { induction u as [|[n f] u IH]; [done|]. simpl. replace (8 * n) with (2 * n * 4) by lia.
    rewrite Z.add_comm, Z.mod_add; [done|lia]. }
  rewrite Z.add_mod, (ly_lo Hlay), Hs by lia. done.
Qed.

Lemma hdr_words h brk X p u n f v :
  arena h brk X p -> X = u ++ (n, f) :: v -> is_Some (h !! (lo + span u)) /\ is_Some (h !! (lo + span u + 4)).
Proof.
  intros Ha ->. destruct (ar_brk _ _ _ _ Ha) as [Hb _]. pose proof (ar_sized _ _ _ _ Ha) as Hs. unfold sized in Hs.
  apply Forall_app in Hs as [Hu [Hn Hv]%Forall_cons]. simpl in Hn. pose proof (span_nonneg _ Hu). pose proof (span_nonneg _ Hv).
  rewrite span_app in Hb. simpl in Hb. pose proof (page_up_ge brk).
  split; apply (ar_mapped _ _ _ _ Ha); try lia; [apply tile_mod|].
  rewrite Z.add_mod, tile_mod by lia. done.
Qed.

Lemma free_ring_app u X : ring (u ++ X) = ring u ++ frees (lo + span u) X.
Proof. unfold ring. by rewrite frees_app. Qed.

Lemma ring_in u a n : sized u -> (a, n) ∈ ring u -> (a, n) = (base, 0) \/ (lo <= a /\ 0 < n /\ a + 8 * n <= lo + span u).
Proof. intros Hs [->|Hin]%elem_of_cons; [by left|right]. pose proof (frees_in lo u a n Hs Hin). tauto. Qed.

Lemma hd_range a v :
  sized v -> 0 <= base < a -> a + span v < 2 ^ 32 ->
  0 <= hd_addr base (frees a v) < 2 ^ 32 /\ (hd_addr base (frees a v) = base \/ a <= hd_addr base (frees a v)).
Proof.
  intros Hv Hb Hs. pose proof (span_nonneg v Hv). destruct (frees a v) as [|[x k] l] eqn:E; simpl; [lia|].
  pose proof (frees_in a v x k Hv ltac:(rewrite E; set_solver)). lia.
Qed.

(** ** free *)

(** The first conditional of [free], at the tile [bp] of [n] headers before [v]. *)
Lemma free_right t w bp p n v :
  let V := frees (bp + 8 * n) v in
  let '(n', v') := join_right n v in
  heap w !! (bp + 4) = Some n -> is_Some (heap w !! bp) -> heap w !! p = Some (hd_addr base V) -> links (heap w) V base ->
  p + 8 <= bp -> 0 <= base < bp -> 0 < n -> sized v -> bp + 8 * n + span v < 2 ^ 32 ->
  exec t (if hdr_at bp n =? hd_addr base V then
     let! bsize := load_uint (hdr_size bp) in
     let! nx := load_uint (hdr_ptr p) in
     let! nsize := load_uint (hdr_size nx) in
     store (hdr_size bp) (bsize + nsize) ;!;
     let! nx := load_uint (hdr_ptr p) in
     let! nnx := load_uint (hdr_ptr nx) in
     store (hdr_ptr bp) nnx
   else
     let! nx := load_uint (hdr_ptr p) in
     store (hdr_ptr bp) nx) w =
  Some (tt, w <| heap ::= fun h => <[bp := hd_addr base (frees (bp + 8 * n') v')]> (<[bp + 4 := n']> h) |>).
Proof.
  intros V. unfold join_right, hdr_at, hdr_size, hdr_ptr. subst V.
  assert (Hno : forall w, heap w !! (bp + 4) = Some n -> is_Some (heap w !! bp) ->
    heap w !! p = Some (hd_addr base (frees (bp + 8 * n) v)) -> 0 <= hd_addr base (frees (bp + 8 * n) v) < 2 ^ 32 ->
    exec t (let! nx := load_uint p in store bp nx) w =
    Some (tt, w <| heap ::= fun h => <[bp := hd_addr base (frees (bp + 8 * n) v)]> (<[bp + 4 := n]> h) |>)).
  { intros w0 H1 [y H2] H3 Hr. cbn. rewrite H3. cbn. rewrite H2, !u32_small by (rewrite ?u32_small; lia).
    by rewrite (insert_id (heap w0) (bp + 4) n). }
  destruct v as [|[m []] v].
  - intros H1 H2 H3 _ Hp Hb Hn _ Hs. simpl in *. rewrite u32_small by lia.
    rewrite (proj2 (Z.eqb_neq _ _)) by lia. apply Hno; simpl; [done..|lia].
  - intros H1 [y H2] H3 HV Hp Hb Hn [Hm Hv]%Forall_cons Hs. simpl in *. pose proof (span_nonneg v Hv).
    rewrite u32_small, Z.eqb_refl by lia. destruct HV as (L1 & L2 & _).
    destruct (hd_range (bp + 8 * n + 8 * m) v) as [Hr _]; [done|lia..|].
    cbn. rewrite H1, H3. cbn. rewrite !(u32_small (bp + 8 * n)), L2 by lia. cbn.
    rewrite lookup_insert_ne, H3 by lia. cbn. rewrite !(u32_small (bp + 8 * n)) by lia.
    rewrite lookup_insert_ne, L1 by lia. cbn. rewrite lookup_insert_ne, H2 by lia. rewrite !(u32_small n), !(u32_small m), !(u32_small (n + m)) by lia.
    rewrite !(u32_small (hd_addr _ _)) by done. replace (bp + 8 * (n + m)) with (bp + 8 * n + 8 * m) by lia. done.
  - intros H1 H2 H3 HV Hp Hb Hn Hv0 Hs. pose proof Hv0 as [Hm Hv]%Forall_cons. simpl in *. pose proof (span_nonneg v Hv).
    destruct (hd_range (bp + 8 * n + 8 * m) v) as [Hr Hne]; [done|lia..|].
    rewrite u32_small, (proj2 (Z.eqb_neq _ _)) by lia. apply Hno; simpl; done.
Qed.

(** The second conditional of [free], with [bp] behind [p]. *)
Lemma free_left t w bp p ps n nx :
  heap w !! (p + 4) = Some ps -> is_Some (heap w !! p) -> heap w !! bp = Some nx -> heap w !! (bp + 4) = Some n ->
  0 <= p -> 0 <= ps -> 0 <= n -> p + 8 <= bp -> p + 8 * ps <= bp -> bp + 8 * n < 2 ^ 32 -> 0 <= nx < 2 ^ 32 ->
  exec t (if hdr_at p ps =? bp then
     let! psize := load_uint (hdr_size p) in
     let! bsize := load_uint (hdr_size bp) in
     store (hdr_size p) (psize + bsize) ;!;
     let! bnx := load_uint (hdr_ptr bp) in
     store (hdr_ptr p) bnx
   else store (hdr_ptr p) bp) w =
  Some (tt, w <| heap ::= fun h => if p + 8 * ps =? bp then <[p := nx]> (<[p + 4 := ps + n]> h) else <[p := bp]> h |>).
Proof.
  intros H1 [y H2] H3 H4 Hp Hps Hn Hd Hle Hr Hnx. unfold hdr_at, hdr_size, hdr_ptr. rewrite u32_small by lia.
  destruct (p + 8 * ps =? bp); cbn; rewrite ?H1, ?H2, ?H4; cbn; [|by rewrite u32_small by lia].
  rewrite lookup_insert_ne, H3 by lia. cbn. rewrite lookup_insert_ne, H2 by lia.
  by rewrite !(u32_small nx), !(u32_small ps), !(u32_small n), !(u32_small (ps + n)) by lia.
Qed.

(** The block before [bp]: it ends at [bp] when the tile before is free. *)
Lemma ring_last u n :
  sized u ->
  exists L a k, ring u = L ++ [(a, k)] /\ 0 <= k /\ a + 8 <= lo + span u /\ a + 8 * k <= lo + span u /\
    let '(u', n') := join_left u n in
    if a + 8 * k =? lo + span u
    then L = ring u' /\ a = lo + span u' /\ n' = k + n
    else u' = u /\ n' = n.
Proof.
  intros Hs. destruct Hlay. destruct (last_split u) as [->|(u' & [k []] & ->)].
  - exists [], base, 0. rewrite join_left_nil. simpl. split_and!; [done|lia..|].
    by rewrite (proj2 (Z.eqb_neq _ _)) by lia.
  - unfold sized in Hs. apply Forall_app in Hs as [Hu [Hk _]%Forall_cons]. simpl in Hk.
    exists (ring u'), (lo + span u'), k. rewrite join_left_free, free_ring_app, span_app. simpl.
    pose proof (span_nonneg u' Hu). split_and!; [done|lia..|].
    by rewrite (proj2 (Z.eqb_eq _ _)) by lia.
  - unfold sized in Hs. apply Forall_app in Hs as [Hu [Hk _]%Forall_cons]. simpl in Hk.
    rewrite join_left_used, free_ring_app, span_app. simpl. rewrite app_nil_r.
    destruct (ring u') as [|x l] eqn:E using rev_ind; [by destruct u'|]. clear IHl. destruct x as [a m].
    pose proof (ring_in u' a m Hu ltac:(rewrite E; set_solver)) as Hin. pose proof (span_nonneg u' Hu).
    exists l, a, m. split_and!; [done|..]; try (destruct Hin as [[= -> ->]|]; lia).
    by rewrite (proj2 (Z.eqb_neq _ _)) by (destruct Hin as [[= -> ->]|]; lia).
Qed.

Lemma ring_asc X : sized X -> asc (ring X).
Proof. intros Hs. destruct Hlay. apply asc_frees; simpl; [done|lia]. Qed.

Lemma arena_parts h brk u n f v p :
  arena h brk (u ++ (n, f) :: v) p ->
  sized u /\ 0 < n /\ sized v /\ 0 <= span u /\ 0 <= span v /\ lo + span u + 8 * n + span v = brk /\ brk < 2 ^ 31.
Proof.
  intros [[Hb Hm] Hs _ _ _ _ _]. unfold sized in Hs. apply Forall_app in Hs as [Hu [Hn Hv]%Forall_cons]. simpl in Hn.
  pose proof (span_nonneg u Hu). pose proof (span_nonneg v Hv). rewrite span_app in Hb. simpl in Hb. split_and!; try done; lia.
Qed.

Lemma find_run t w brk u n v p L a k fuel :
  arena (heap w) brk (u ++ (n, false) :: v) p -> ring u = L ++ [(a, k)] ->
  (length (u ++ (n, false) :: v) + 1 < fuel)%nat ->
  exec t (free_find fuel (lo + span u) p) w = Some (a, w).
Proof.
  intros Ha HL Hf. pose proof (arena_parts _ _ _ _ _ _ _ Ha) as (Hu & Hn & Hv & Hsu & Hsv & Hb & Hm).
  pose proof (ring_asc _ (ar_sized _ _ _ _ Ha)) as Hasc. pose proof (ar_links _ _ _ _ Ha) as Hl. pose proof (ar_member _ _ _ _ Ha) as Hp.
  rewrite free_ring_app in *. cbn [frees] in *. set (V := frees (lo + span u + 8 * n) v) in *. set (bp := lo + span u) in *. destruct Hlay.
  assert (HV : Forall (fun y => bp < y.1 < 2 ^ 32) V).
  { apply Forall_forall. intros [x m] Hx. pose proof (frees_in _ _ _ _ Hv Hx). simpl. lia. }
  assert (HR : Forall (fun y => 0 <= y.1 < bp) (ring u)).
  { apply Forall_forall. intros [x m] Hx. simpl. destruct (ring_in u x m Hu Hx) as [[= -> ->]|]; lia. }
  pose proof (frees_length lo u). pose proof (frees_length (bp + 8 * n) v). rewrite length_app in Hf. simpl in Hf.
  assert (Hup : forall s x m f, ring u = s ++ x :: m -> (length m < f)%nat -> exec t (free_find f bp x.1) w = Some (a, w)).
  { intros s x m f E Hlt. rewrite E, <- app_assoc in Hl, Hasc. rewrite E in HR. apply Forall_app in HR as [_ HR].
    apply links_app in Hl as [_ Hl]. apply asc_app_r in Hasc. pose proof HR as [Hx _]%Forall_cons.
    destruct (free_find_up t f bp x m V w base) as (z & Hz & ->); try done; try lia.
    { assert (x ∈ ring u) as Hin by (rewrite E; set_solver). destruct x as [x j]. simpl in *. destruct (ring_in u x j Hu Hin) as [[= -> ->]|]; lia. }
    rewrite HL in E. apply (f_equal last) in E. rewrite last_snoc, last_app_cons, Hz in E. by injection E as <-. }
  rewrite fmap_app, elem_of_app in Hp. destruct Hp as [Hp|Hp]; apply list_elem_of_fmap in Hp as (x & -> & (s1 & s2 & E)%list_elem_of_split).
  - apply (Hup s1 x s2); [done|]. apply (f_equal length) in E. rewrite length_app in E. simpl in E. lia.
  - assert (Hlen : (length (x :: s2) <= length v)%nat) by (apply (f_equal length) in E; rewrite length_app in E; simpl in *; unfold V in E; lia).
    replace fuel with (length (x :: s2) + (fuel - length (x :: s2)))%nat by lia.
    apply links_app in Hl as [_ Hl]. apply asc_app_r in Hasc. rewrite E in Hl, Hasc, HV. apply links_app in Hl as [_ Hl]. apply asc_app_r in Hasc.
    apply Forall_app in HV as [_ HV].
    rewrite (free_find_down t _ bp x s2 w base) by (done || lia).
    apply (Hup [] (base, 0) (frees lo u)); [done|]. lia.
Qed.

Lemma exec_load {A} t a v (k : Z -> prog A) w :
  heap w !! a = Some v -> 0 <= v < 2 ^ 32 -> exec t (andthen (load_uint a) k) w = exec t (k v) w.
Proof. intros Ha Hv. cbn. rewrite Ha. cbn. by rewrite u32_small. Qed.

Lemma exec_then {A B} t (p : prog A) (f : A -> prog B) w a w' :
  exec t p w = Some (a, w') -> exec t (andthen p f) w = exec t (f a) w'.
Proof. intros E. by rewrite exec_andthen, E. Qed.

(** What an allocator call leaves alone: words outside its variables and outside the
    free tiles [X]. *)
Definition kept X h h' : Prop :=
  forall x, x <> freep -> ~ (base <= x < base + 8) ->
    (forall y, y ∈ frees lo X -> ~ (y.1 <= x < y.1 + 8 * y.2)) -> h' !! x = h !! x.

(** The heap after free: [a] is the block before, [V] the free blocks after. *)
Definition freed h bp a k n V : gmap Z Z :=
  let h1 := <[bp := hd_addr base V]> (<[bp + 4 := n]> h) in
  <[freep := a]> (if a + 8 * k =? bp then <[a := hd_addr base V]> (<[a + 4 := k + n]> h1) else <[a := bp]> h1).

Lemma free_exec t w brk u n v p L a k fuel :
  arena (heap w) brk (u ++ (n, false) :: v) p -> ring u = L ++ [(a, k)] ->
  0 <= a -> 0 <= k -> a + 8 <= lo + span u -> a + 8 * k <= lo + span u ->
  (length (u ++ (n, false) :: v) + 1 < fuel)%nat ->
  let '(n', v') := join_right n v in
  exec t (free freep fuel (lo + span u + 8)) w =
  Some (tt, w <| heap ::= fun h => freed h (lo + span u) a k n' (frees (lo + span u + 8 * n') v') |>).
Proof.
  intros Ha HL Ha0 Hk Ha8 Hak Hf. pose proof (arena_parts _ _ _ _ _ _ _ Ha) as (Hu & Hn & Hv & Hsu & Hsv & Hb & Hm).
  pose proof (find_run t w brk u n v p L a k fuel Ha HL Hf) as Hfind.
  set (bp := lo + span u) in *. assert (Ebp : bp = lo + span u) by done. destruct Hlay.
  pose proof (ar_links _ _ _ _ Ha) as Hl. rewrite free_ring_app, HL, <- app_assoc in Hl. cbn [frees app] in Hl.
  apply links_app in Hl as [_ (Hpa & Hpk & HV)]. simpl in Hpa, Hpk. fold bp in Hpa, HV.
  assert (Hbpn : heap w !! (bp + 4) = Some n).
  { apply (ar_used _ _ _ _ Ha). rewrite used_app. simpl. set_solver. }
  destruct (hdr_words _ _ _ _ u n false v Ha eq_refl) as [Hbp _].
  assert (Hp : 0 <= p < 2 ^ 32).
  { pose proof (ar_member _ _ _ _ Ha) as Hin. apply list_elem_of_fmap in Hin as ([x m] & -> & Hin).
    destruct (ring_in _ x m (ar_sized _ _ _ _ Ha) Hin) as [[= -> ->]|]; simpl; [lia|].
    rewrite span_app in *. simpl in *. lia. }
  destruct (hd_range (bp + 8 * n) v) as [Hnx _]; [done|lia..|].
  pose proof (free_right t w bp a n v) as Hr. cbv zeta in Hr. destruct (join_right n v) as [n' v'] eqn:Ej.
  specialize (Hr Hbpn Hbp Hpa HV Ha8 ltac:(lia) Hn Hv ltac:(lia)).
  destruct (join_right_sized n v n' v' Ej Hv) as (Hn' & Hv' & Hb'). pose proof (span_nonneg _ Hv').
  destruct (hd_range (bp + 8 * n') v') as [Hnx' _]; [done|lia..|].
  unfold free. cbv zeta. replace (hdr_at (bp + 8) (-1)) with bp by (unfold hdr_at; rewrite u32_small; lia).
  rewrite (exec_load t freep p) by (done || apply (ar_freep _ _ _ _ Ha)).
  erewrite exec_then by exact Hfind. rewrite (exec_load t _ n) by (exact Hbpn || lia).
  rewrite (exec_load t _ (hd_addr base (frees (bp + 8 * n) v))) by (exact Hpa || lia).
  erewrite exec_then by exact Hr.
  set (w1 := w <| heap ::= _ |>).
  assert (Hk1 : heap w1 !! (a + 4) = Some k) by (unfold w1; cbn; by rewrite !lookup_insert_ne by lia).
  rewrite (exec_load t _ k) by (exact Hk1 || lia).
  rewrite (exec_then t _ _ w1 tt (w1 <| heap ::= fun h => if a + 8 * k =? bp
    then <[a := hd_addr base (frees (bp + 8 * n') v')]> (<[a + 4 := k + n']> h) else <[a := bp]> h |>)).
  - cbn. assert (is_Some ((if a + 8 * k =? bp
      then <[a := hd_addr base (frees (bp + 8 * n') v')]> (<[a + 4 := k + n']> (heap w1)) else <[a := bp]> (heap w1)) !! freep)) as [y Hy].
    { unfold w1. cbn. destruct (a + 8 * k =? bp); rewrite !lookup_insert_is_Some'; repeat right; eexists; apply (ar_freep _ _ _ _ Ha). }
    cbn in Hy. rewrite Hy, u32_small by lia. done.
  - apply free_left; try done; try lia.
    + unfold w1. cbn. rewrite !lookup_insert_ne by lia. by eexists.
    + unfold w1. cbn. by rewrite lookup_insert_eq.
    + unfold w1. cbn. by rewrite lookup_insert_ne, lookup_insert_eq by lia.
Qed.

Lemma freed_other h bp a k n V y :
  y <> freep -> y <> a -> y <> a + 4 -> y <> bp -> y <> bp + 4 -> freed h bp a k n V !! y = h !! y.
Proof. intros. unfold freed. destruct (_ =? _); by rewrite !lookup_insert_ne by lia. Qed.

Lemma freed_some h bp a k n V y : is_Some (h !! y) -> is_Some (freed h bp a k n V !! y).
Proof. intros. unfold freed. destruct (_ =? _); rewrite !lookup_insert_is_Some'; tauto. Qed.

(** The words of the ring after free, in both cases of the block before. *)
Lemma freed_links h bp a k n L V :
  links h L a -> h !! (a + 4) = Some k -> links h V base ->
  (forall x, x ∈ L -> x.1 + 8 <= a /\ (freep + 4 <= x.1 \/ x.1 + 8 <= freep)) ->
  (forall x, x ∈ V -> bp + 8 <= x.1) -> a + 8 <= bp -> freep + 4 <= bp -> (freep + 4 <= a \/ a + 8 <= freep) ->
  links (freed h bp a k n V) (L ++ (if a + 8 * k =? bp then [(a, k + n)] else [(a, k); (bp, n)]) ++ V) base.
Proof.
  intros HL Hk HV HL' HV' Ha Hf Hfa. apply links_app. split.
  { assert (hd_addr base ((if a + 8 * k =? bp then [(a, k + n)] else [(a, k); (bp, n)]) ++ V) = a) as -> by (by destruct (_ =? _)).
    eapply links_ext; [|exact HL]. intros x Hx. destruct (HL' x Hx). split; apply freed_other; lia. }
  assert (HVl : links (freed h bp a k n V) V base).
  { eapply links_ext; [|exact HV]. intros x Hx. pose proof (HV' x Hx). split; apply freed_other; lia. }
  unfold freed in *. destruct (a + 8 * k =? bp) eqn:E; cbn [app links fst snd hd_addr].
  - split_and!; [..|done]; rewrite lookup_insert_ne by lia; [by rewrite lookup_insert_eq|].
    by rewrite lookup_insert_ne, lookup_insert_eq by lia.
  - split_and!; [..|done]; rewrite lookup_insert_ne by lia.
    + by rewrite lookup_insert_eq.
    + by rewrite !lookup_insert_ne by lia.
    + by rewrite lookup_insert_ne, lookup_insert_eq by lia.
    + by rewrite !lookup_insert_ne, lookup_insert_eq by lia.
Qed.

Lemma join_ring u n v L a k :
  ring u = L ++ [(a, k)] -> sized u ->
  let '(n', v') := join_right n v in
  ring (join u n v) =
  L ++ (if a + 8 * k =? lo + span u then [(a, k + n')] else [(a, k); (lo + span u, n')]) ++ frees (lo + span u + 8 * n') v'.
Proof.
  intros HL Hu. unfold join. destruct (join_right n v) as [n' v'].
  destruct (ring_last u n' Hu) as (L1 & a1 & k1 & E & _ & _ & _ & Hj). rewrite HL in E. apply app_inj_2 in E as [<- [= <- <-]]; [|done].
  destruct (join_left u n') as [u' n'']. destruct (Z.eqb_spec (a + 8 * k) (lo + span u)) as [Ee|Ee].
  - destruct Hj as (-> & -> & ->). rewrite free_ring_app. cbn [frees]. do 3 f_equal. lia.
  - destruct Hj as [-> ->]. rewrite free_ring_app, HL, <- app_assoc. done.
Qed.

Lemma links_right h n v bp : links h (frees (bp + 8 * n) v) base ->
  let '(n', v') := join_right n v in links h (frees (bp + 8 * n') v') base.
Proof.
  unfold join_right. destruct v as [|[m []] v]; try done. cbn [frees links]. intros (_ & _ & Hl).
  by replace (bp + 8 * (n + m)) with (bp + 8 * n + 8 * m) by lia.
Qed.

(** A block of the ring is [base] or a free tile; [freep] is apart from both. *)
Lemma ring_apart X a k : sized X -> (a, k) ∈ ring X -> 0 <= a /\ (freep + 4 <= a \/ a + 8 <= freep).
Proof. intros Hs Hin. destruct Hlay. destruct (ring_in X a k Hs Hin) as [[= -> ->]|]; lia. Qed.

Lemma used_apart X a k y m :
  sized X -> (a, k) ∈ ring X -> (y, m) ∈ used lo X -> y + 4 <> a /\ y + 4 <> a + 4 /\ y + 4 <> freep.
Proof.
  intros Hs Hin Hy. destruct Hlay. pose proof (used_bounds lo X y m Hs Hy).
  apply elem_of_cons in Hin as [[= -> ->]|Hin]; [lia|].
  pose proof (tiles_disjoint lo X a k y m Hs Hin Hy). pose proof (frees_in lo X a k Hs Hin). lia.
Qed.

Lemma free_run t w brk u n v p fuel :
  arena (heap w) brk (u ++ (n, false) :: v) p -> (length (u ++ (n, false) :: v) + 1 < fuel)%nat ->
  exists h' a, exec t (free freep fuel (lo + span u + 8)) w = Some (tt, w <| heap := h' |>) /\
    arena h' brk (join u n v) a /\ kept (join u n v) (heap w) h'.
Proof.
  intros Ha Hf. pose proof (arena_parts _ _ _ _ _ _ _ Ha) as (Hu & Hn & Hv & Hsu & Hsv & Hb & Hm).
  destruct (ring_last u n Hu) as (L & a & k & HL & Hk & Ha8 & Hak & _).
  assert (Hin : (a, k) ∈ ring u) by (rewrite HL; set_solver).
  destruct (ring_apart u a k Hu Hin) as [Ha0 Hfa].
  pose proof (free_exec t w brk u n v p L a k fuel Ha HL Ha0 Hk Ha8 Hak Hf) as He.
  pose proof (join_ring u n v L a k HL Hu) as Hring. pose proof (links_right (heap w) n v (lo + span u)) as HV.
  pose proof (ar_links _ _ _ _ Ha) as Hl. rewrite free_ring_app, HL, <- app_assoc in Hl. cbn [frees app] in Hl.
  apply links_app in Hl as [HlL (_ & Hpk & HlV)]. simpl in Hpk, HlL. specialize (HV HlV).
  destruct (join_right n v) as [n' v'] eqn:Ej.
  destruct (join_right_sized n v n' v' Ej Hv) as (Hnn & Hv' & _). set (bp := lo + span u) in *. assert (Ebp : bp = lo + span u) by done.
  set (V := frees (bp + 8 * n') v') in *.
  destruct (join_facts lo u n v) as [Hspan Hused]. fold bp in Hused.
  eexists _, a. split; [exact He|]. pose proof (join_sized u n v (ar_sized _ _ _ _ Ha)) as Hs'.
  assert (Hlk : links (freed (heap w) bp a k n' V) (ring (join u n v)) base).
  { rewrite Hring. destruct Hlay. apply freed_links; try done; try lia.
    - intros [x m] Hx. pose proof (ring_asc u Hu) as Hasc. rewrite HL in Hasc. split; [by apply (asc_before L (a, k))|].
      simpl. eapply (ring_apart u x m Hu). rewrite HL. set_solver.
    - intros [x m] Hx. pose proof (frees_in _ _ _ _ Hv' Hx). simpl. lia. }
  assert (Hmem : if a + 8 * k =? bp then (a, k + n') ∈ ring (join u n v) else (a, k) ∈ ring (join u n v) /\ (bp, n') ∈ ring (join u n v)).
  { rewrite Hring. clear. generalize (a + 8 * k =? bp). intros []; [|split]; set_solver. }
  split.
  - split; try done.
    + rewrite Hspan, span_app. simpl. lia.
    + intros x Hx Hx4. apply freed_some. by apply (ar_mapped _ _ _ _ Ha).
    + intros y m Hy. rewrite Hused in Hy.
      assert (y + 4 <> a /\ y + 4 <> a + 4 /\ y + 4 <> freep /\ y + 4 <> bp /\ y + 4 <> bp + 4) as (? & ? & ? & ? & ?).
      { apply elem_of_app in Hy as [Hy|Hy].
        - pose proof (used_apart u a k y m Hu Hin Hy). pose proof (used_bounds _ _ _ _ Hu Hy). lia.
        - destruct Hlay. pose proof (used_bounds _ _ _ _ Hv Hy). lia. }
      rewrite freed_other by done. apply (ar_used _ _ _ _ Ha). rewrite used_app. cbn [used]. fold bp. set_solver.
    + unfold freed. by rewrite lookup_insert_eq.
    + rewrite Hring, !fmap_app, !elem_of_app. right. left. destruct (a + 8 * k =? bp); apply elem_of_cons; by left.
  - intros x Hxf Hxb Hxt. assert (Hout : forall y m, (y, m) ∈ ring (join u n v) -> ~ (y <= x < y + 8 * m)).
    { intros y m [[= -> ->]|Hy]%elem_of_cons; [lia|]. by apply (Hxt (y, m)). }
    assert (Hka : 0 < k \/ (a, k) = (base, 0)) by (destruct (ring_in u a k Hu Hin) as [?|?]; tauto).
    assert (x <> a /\ x <> a + 4 /\ x <> bp /\ x <> bp + 4) as (? & ? & ? & ?); [|by apply freed_other].
    destruct (Z.eqb_spec (a + 8 * k) bp) as [E|E]; [pose proof (Hout _ _ Hmem); lia|]. destruct Hmem as [H1 H2].
    pose proof (Hout _ _ H1). pose proof (Hout _ _ H2). destruct Hka as [Hka|[= -> ->]]; lia.
Qed.
End Ops.
