(* ===== verification/UmallocMalloc.v ===== *)
(** * malloc on the tiled arena

    The walk round the ring, the block that is carved, and the memory that morecore
    adds. *)
From S2P Require Import Prelude User Umalloc UmallocSpec.
Local Open Scope Z_scope.
Local Open Scope user_scope.

(** ** Lists *)

Lemma first_fit (k : Z) (l : list (Z * Z)) :
  Forall (fun y => y.2 < k) l \/
  exists l1 y l2, l = l1 ++ y :: l2 /\ Forall (fun y => y.2 < k) l1 /\ k <= y.2.
Proof.
  induction l as [|x l [IH|(l1 & y & l2 & -> & H1 & H2)]]; [by left|..]; (destruct (decide (x.2 < k)); [|right; exists [], x; eexists; split_and!; [done..|lia]]).
  - left. by constructor.
  - right. exists (x :: l1), y, l2. split_and!; [done|by constructor|done].
Qed.

Definition last_addr (d : Z) (l : list (Z * Z)) : Z := match last l with Some x => x.1 | None => d end.

Lemma last_addr_cons d x l : last_addr d (x :: l) = last_addr x.1 l.
Proof.
  unfold last_addr. destruct l as [|y l]; [done|]. rewrite last_cons_cons.
  destruct (last (y :: l)) eqn:E; [done|]. by apply last_None in E.
Qed.

(** Only one block of an ascending ring points to [y]. *)
Lemma pred_unique h A y B e z :
  links h (A ++ y :: B) e -> asc (A ++ y :: B) -> e <> y.1 -> z ∈ A ++ y :: B -> h !! z.1 = Some y.1 -> exists L, A = L ++ [z].
Proof.
  intros Hl Ha He [Hz|Hz]%elem_of_app Hp; apply list_elem_of_split in Hz as (s1 & s2 & E).
  - subst A. rewrite <- app_assoc in Hl. apply links_app in Hl as [_ (Hl & _ & _)]. exists s1.
    destruct s2 as [|s s2]; [done|]. exfalso. cbn [app hd_addr] in Hl. assert (s.1 = y.1) by congruence.
    rewrite (app_assoc _ [y] B : _ ++ y :: B = _) in Ha. apply asc_app_l in Ha.
    pose proof (asc_before _ y s Ha ltac:(set_solver)). lia.
  - apply links_app in Hl as [_ Hl]. apply asc_app_r in Ha. rewrite E in Hl, Ha. exfalso.
    apply links_app in Hl as [_ (Hl & _ & _)]. rewrite Hp in Hl. injection Hl as Hl.
    destruct s2 as [|s s2]; simpl in Hl; [by subst|].
    pose proof (asc_app_r _ _ Ha) as [Hz _].
    destruct s1 as [|y' s1]; injection E as -> E; [lia|].
    rewrite (app_assoc _ [z] (s :: s2) : _ ++ z :: _ = _) in Ha. apply asc_app_l, asc_first in Ha. lia.
Qed.

Section Malloc.
Context {M T : Type} `{MutexApi M T}.
Context (base freep lo : Z) (Hlay : layout base freep lo) (fuel : nat).
Implicit Types (t : T) (w : world M) (h : gmap Z Z) (X : tiles).
Abbreviation arena := (arena base freep lo).
Abbreviation ring := (ring base lo).
Abbreviation kept := (kept base freep lo).
Abbreviation malloc_loop := (malloc_loop freep fuel).

(** ** One turn of the loop *)

Lemma loop_skip t w f k prev p n nx fp :
  heap w !! (p + 4) = Some n -> heap w !! p = Some nx -> heap w !! freep = Some fp ->
  0 <= n < 2 ^ 32 -> 0 <= nx < 2 ^ 32 -> 0 <= fp < 2 ^ 32 -> n < k -> p <> fp ->
  exec t (malloc_loop (S f) k prev p) w = exec t (malloc_loop f k p nx) w.
Proof.
  intros Hn Hx Hf ? ? ? Hk Hp. cbn [Umalloc.malloc_loop]. unfold hdr_size, hdr_ptr.
  rewrite (exec_load t _ n) by done. rewrite (proj2 (Z.leb_gt k n)) by lia.
  rewrite (exec_load t _ fp) by done. rewrite (proj2 (Z.eqb_neq p fp)) by done.
  by rewrite (exec_load t _ nx).
Qed.

Lemma loop_more t w f k prev p n :
  heap w !! (p + 4) = Some n -> heap w !! freep = Some p -> 0 <= n < 2 ^ 32 -> 0 <= p < 2 ^ 32 -> n < k ->
  exec t (malloc_loop (S f) k prev p) w =
  exec t (let! p := morecore freep fuel k in
          if p =? 0 then Done 0 else let! nx := load_uint (hdr_ptr p) in malloc_loop f k p nx) w.
Proof.
  intros Hn Hf ? ? Hk. cbn [Umalloc.malloc_loop]. unfold hdr_size, hdr_ptr.
  rewrite (exec_load t _ n) by done. rewrite (proj2 (Z.leb_gt k n)) by lia.
  rewrite (exec_load t _ p) by done. by rewrite Z.eqb_refl.
Qed.

(** The heap after a block of [k] headers is carved from the free block [y] of [m]. *)
Definition carved h prev y m k nx : gmap Z Z :=
  <[freep := prev]> (if m =? k then <[prev := nx]> h else <[y + 8 * (m - k) + 4 := k]> (<[y + 4 := m - k]> h)).

Lemma loop_take t w f k prev y m nx :
  heap w !! (y + 4) = Some m -> heap w !! y = Some nx -> is_Some (heap w !! prev) -> is_Some (heap w !! freep) ->
  is_Some (heap w !! (y + 8 * (m - k) + 4)) -> 0 <= nx < 2 ^ 32 -> 0 < k <= m -> 0 <= y -> 0 <= prev < 2 ^ 32 -> y + 8 * m < 2 ^ 31 ->
  exec t (malloc_loop (S f) k prev y) w =
  Some (y + 8 * (m - k) + 8, w <| heap ::= fun h => carved h prev y m k nx |>).
Proof.
  intros Hm Hx [? Hp] [? Hf] Hn Hnx Hk Hy Hpr Hb. cbn [Umalloc.malloc_loop]. unfold hdr_size, hdr_ptr, hdr_at.
  rewrite (exec_load t _ m) by (done || lia). rewrite (proj2 (Z.leb_le k m)) by lia. unfold carved.
  destruct (Z.eqb_spec m k) as [->|Hne].
  - rewrite (exec_then t _ _ w y (w <| heap ::= <[prev := nx]> |>)).
    + assert (is_Some (<[prev := nx]> (heap w) !! freep)) as [? Hy'] by (rewrite lookup_insert_is_Some'; right; by eexists).
      cbn. rewrite Hy', !u32_small by lia. replace (y + 8 * (k - k) + 8) with (y + 8) by lia. done.
    + rewrite (exec_load t _ k) by (done || lia). rewrite Z.eqb_refl, (exec_load t _ nx) by done.
      cbn. by rewrite Hp, u32_small.
  - set (w1 := w <| heap ::= fun h => <[y + 8 * (m - k) + 4 := k]> (<[y + 4 := m - k]> h) |>).
    rewrite (exec_then t _ _ w (y + 8 * (m - k)) w1).
    + assert (is_Some (heap w1 !! freep)) as [? Hy'] by (unfold w1; cbn; rewrite !lookup_insert_is_Some'; right; right; by eexists).
      cbn. cbn in Hy'. rewrite Hy', !u32_small by lia. done.
    + rewrite (exec_load t _ m) by (done || lia). rewrite (proj2 (Z.eqb_neq m k)), (exec_load t _ m) by (done || lia).
      cbn. rewrite Hm. cbn. rewrite lookup_insert_eq. cbn. rewrite !(u32_small (m - k)) by lia. rewrite u32_small by lia.
      assert (is_Some (<[y + 4 := m - k]> (heap w) !! (y + 8 * (m - k) + 4))) as [? Hy'] by (rewrite lookup_insert_is_Some'; by right).
      rewrite Hy', u32_small by lia. done.
Qed.

(** ** Carving *)

Lemma carve_facts u m k v :
  span (carve u m k v) = span (u ++ (m, true) :: v) /\
  used lo (carve u m k v) = used lo u ++ (lo + span u + 8 * (m - k), k) :: used (lo + span u + 8 * m) v /\
  ring (carve u m k v) = ring u ++ (if m =? k then [] else [(lo + span u, m - k)]) ++ frees (lo + span u + 8 * m) v.
Proof.
  unfold carve. rewrite !span_app, !used_app, !free_ring_app. destruct (Z.eqb_spec m k) as [->|]; simpl;
    split_and!; try lia; repeat (lia || f_equal).
Qed.

Lemma carve_sized u m k v : sized (u ++ (m, true) :: v) -> 0 < k <= m -> sized (carve u m k v).
Proof.
  unfold sized, carve. rewrite !Forall_app, !Forall_cons. intros (? & ? & ?) ?. simpl in *.
  destruct (Z.eqb_spec m k); rewrite ?Forall_cons, ?Forall_nil; simpl; intuition lia.
Qed.

Lemma carve_coalesced u m k v : coalesced (u ++ (m, true) :: v) -> coalesced (carve u m k v).
Proof.
  unfold carve. rewrite coalesced_app. intros [Hu Hv].
  assert (Hv' : coalesced ((k, false) :: v)) by (destruct v as [|[? []] ?]; done).
  destruct (m =? k); cbn [app]; apply coalesced_app; (split; [|done]).
  - destruct (last_split u) as [->|(u' & [i []] & ->)]; [done|..]; rewrite <- app_assoc in *; simpl in *;
      apply coalesced_app in Hu as [Hu1 Hu2]; apply coalesced_app; done.
  - clear Hv Hv'. revert Hu. induction u as [|[i f] u IH]; [done|]. simpl. destruct u as [|[i' f'] u]; simpl in *; [by destruct f|].
    destruct f, f'; auto.
Qed.

Lemma carved_other h prev y m k nx x :
  x <> freep -> (m = k -> x <> prev) -> (m <> k -> x <> y + 4 /\ x <> y + 8 * (m - k) + 4) ->
  carved h prev y m k nx !! x = h !! x.
Proof. intros ? H1 H2. unfold carved. destruct (Z.eqb_spec m k); rewrite !lookup_insert_ne; naive_solver. Qed.

Lemma carved_links h u m k V nx L prev j :
  ring u = L ++ [(prev, j)] -> sized u -> links h (ring u ++ (lo + span u, m) :: V) base -> nx = hd_addr base V ->
  0 < k <= m -> (forall x, x ∈ V -> lo + span u + 8 * m <= x.1) -> 0 <= span u ->
  links (carved h prev (lo + span u) m k nx) (ring u ++ (if m =? k then [] else [(lo + span u, m - k)]) ++ V) base.
Proof.
  intros HL Hu Hl -> Hk HV Hs. apply links_app in Hl as [Hl (Hy & Hym & HlV)]. simpl in Hy, Hym. cbn [hd_addr fst] in Hl.
  assert (Hin : forall a n, (a, n) ∈ ring u -> a + 8 <= lo + span u /\ (freep + 4 <= a \/ a + 8 <= freep)).
  { intros a n Ha. split; [|by eapply (ring_apart base freep lo Hlay u)]. destruct Hlay.
    destruct (ring_in base lo u a n Hu Ha) as [[= -> ->]|]; lia. }
  assert (HVl : links (carved h prev (lo + span u) m k (hd_addr base V)) V base).
  { eapply links_ext; [|exact HlV]. intros x Hx. pose proof (HV x Hx). destruct Hlay.
    destruct (Hin prev j) as [? _]; [rewrite HL; set_solver|]. split; apply carved_other; lia. }
  apply links_app. destruct (Z.eqb_spec m k) as [->|Hne].
  - cbn [app]. split; [|done]. rewrite HL in *. apply links_app in Hl as [HlL (Hp & Hj & _)]. apply links_app. cbn [links fst snd hd_addr app] in *.
    destruct (Hin prev j) as [? Hpf]; [set_solver|]. split_and!; [..|done].
    + eapply links_ext; [|exact HlL]. intros [x i] Hx. destruct (Hin x i) as [? ?]; [set_solver|].
      pose proof (ring_asc base freep lo Hlay u Hu) as Ha. rewrite HL in Ha. pose proof (asc_before L (prev, j) (x, i) Ha Hx).
      simpl in *. split; apply carved_other; lia.
    + unfold carved. rewrite Z.eqb_refl, lookup_insert_ne by lia. by rewrite lookup_insert_eq.
    + rewrite <- Hj. apply carved_other; lia.
  - cbn [app]. split.
    + eapply links_ext; [|exact Hl]. intros [x i] Hx. destruct (Hin x i Hx) as [? ?]. simpl. split; apply carved_other; lia.
    + destruct Hlay. cbn [links fst snd]. split_and!; [..|done].
      * rewrite <- Hy. apply carved_other; lia.
      * unfold carved. rewrite (proj2 (Z.eqb_neq _ _) Hne), !lookup_insert_ne by lia. by rewrite lookup_insert_eq.
Qed.

Lemma take_run t w brk u m v p L prev j k f :
  arena (heap w) brk (u ++ (m, true) :: v) p -> ring u = L ++ [(prev, j)] -> 0 < k <= m ->
  exists h', exec t (malloc_loop (S f) k prev (lo + span u)) w = Some (lo + span u + 8 * (m - k) + 8, w <| heap := h' |>) /\
    arena h' brk (carve u m k v) prev /\ kept (u ++ (m, true) :: v) (heap w) h'.
Proof.
  intros Ha HL Hk. pose proof (arena_parts _ _ _ _ _ _ _ _ _ _ Ha) as (Hu & Hm & Hv & Hsu & Hsv & Hb & Hbm).
  pose proof (ar_links _ _ _ _ _ _ _ Ha) as Hl. rewrite free_ring_app in Hl. cbn [frees] in Hl.
  set (y := lo + span u) in *. assert (Ey : y = lo + span u) by done. set (V := frees (y + 8 * m) v) in *.
  assert (Hin : (prev, j) ∈ ring u) by (rewrite HL; set_solver).
  destruct (ring_apart base freep lo Hlay u prev j Hu Hin) as [Hp0 Hpf].
  assert (Hp8 : prev + 8 <= y) by (destruct Hlay; destruct (ring_in base lo u prev j Hu Hin) as [[= -> ->]|]; lia).
  pose proof Hl as [HlL (Hy & Hym & HlV)]%links_app. simpl in Hy, Hym.
  assert (Hprev : is_Some (heap w !! prev)).
  { rewrite HL in HlL. apply links_app in HlL as [_ [HlL _]]. by eexists. }
  assert (HV : forall x, x ∈ V -> y + 8 * m <= x.1) by (intros [x i] Hx; pose proof (frees_in _ _ _ _ Hv Hx); simpl; lia).
  destruct (hd_range base freep lo Hlay (y + 8 * m) v) as [Hnx _]; [done|destruct Hlay; lia..|]. fold V in Hnx.
  destruct (carve_facts u m k v) as (Hspan & Hused & Hring). fold y V in Hused, Hring.
  eexists. split; [apply loop_take with (nx := hd_addr base V); try done; try (destruct Hlay; lia)|split; [split|]].
  - eexists. apply (ar_freep _ _ _ _ _ _ _ Ha).
  - apply (ar_mapped _ _ _ _ _ _ _ Ha); [pose proof (page_up_ge brk); destruct Hlay; lia|].
    replace (y + 8 * (m - k) + 4) with (y + (2 * (m - k) + 1) * 4) by lia. rewrite Z.mod_add by lia. by apply (tile_mod base freep lo).
  - rewrite Hspan, span_app. simpl. lia.
  - apply carve_sized; [apply (ar_sized _ _ _ _ _ _ _ Ha)|done].
  - intros a Ha1 Ha4. pose proof (ar_mapped _ _ _ _ _ _ _ Ha a Ha1 Ha4). unfold carved.
    destruct (m =? k); rewrite !lookup_insert_is_Some'; tauto.
  - intros a n Hn. rewrite Hused in Hn. assert (Hcase : (a, n) = (y + 8 * (m - k), k) \/ (a, n) ∈ used lo (u ++ (m, true) :: v)).
    { rewrite used_app. cbn [used]. fold y. clear -Hn. set_solver. }
    destruct Hcase as [[= -> ->]|Hold].
    + unfold carved. destruct Hlay. rewrite lookup_insert_ne by lia. destruct (Z.eqb_spec m k) as [->|Hne].
      * rewrite lookup_insert_ne by lia. rewrite <- Hym. f_equal. lia.
      * by rewrite lookup_insert_eq.
    + pose proof (ar_used _ _ _ _ _ _ _ Ha a n Hold) as Hw. rewrite <- Hw. pose proof (ar_sized _ _ _ _ _ _ _ Ha) as Hs.
      assert (Hri : (prev, j) ∈ ring (u ++ (m, true) :: v) /\ (y, m) ∈ frees lo (u ++ (m, true) :: v)).
      { rewrite free_ring_app, frees_app. cbn [frees]. fold y V. clear -Hin. set_solver. }
      destruct Hri as [Hri Hyi]. pose proof (used_apart base freep lo Hlay _ prev j a n Hs Hri Hold).
      pose proof (tiles_disjoint lo _ y m a n Hs Hyi Hold). pose proof (used_bounds lo _ a n Hs Hold). apply carved_other; lia.
  - unfold carved. by rewrite lookup_insert_eq.
  - rewrite Hring, fmap_app, HL, fmap_app. clear. set_solver.
  - rewrite Hring. apply carved_links with (L := L) (j := j); try done.
  - intros x Hxf Hxb Hxt. apply carved_other; [done|..].
    + intros -> ->. destruct (elem_of_cons (frees lo u) (prev, j) (base, 0)) as [Hc _].
      destruct (Hc Hin) as [[= -> ->]|Hf]; [lia|]. pose proof (frees_in lo u prev j Hu Hf).
      apply (Hxt (prev, j)); [rewrite frees_app; clear -Hf; set_solver|simpl; lia].
    + intros Hne. assert (Hyi : (y, m) ∈ frees lo (u ++ (m, true) :: v)) by (rewrite frees_app; cbn [frees]; fold y; clear; set_solver).
      pose proof (Hxt (y, m) Hyi). simpl in *. lia.
Qed.

(** ** The walk *)

Definition words (l : list (Z * Z)) : Prop := Forall (fun y => 0 <= y.1 < 2 ^ 32 /\ 0 <= y.2 < 2 ^ 32) l.

Lemma walk t w f k prev s1 rest e fp :
  links (heap w) (s1 ++ rest) e -> words (s1 ++ rest) -> 0 <= e < 2 ^ 32 ->
  heap w !! freep = Some fp -> 0 <= fp < 2 ^ 32 ->
  Forall (fun y => y.2 < k) s1 -> Forall (fun y => y.1 <> fp) s1 ->
  exec t (malloc_loop (length s1 + f) k prev (hd_addr e (s1 ++ rest))) w =
  exec t (malloc_loop f k (last_addr prev s1) (hd_addr e rest)) w.
Proof.
  intros Hl Hw He Hf Hfp. revert prev Hl Hw. induction s1 as [|x s1 IH]; intros prev Hl Hw Hk Hne; [done|].
  rewrite last_addr_cons. cbn [app length Nat.add hd_addr] in *. destruct Hl as (Hx & Hn & Hl).
  unfold words in *. apply Forall_cons in Hw as [Hw0 Hw]. apply Forall_cons in Hk as [Hk0 Hk]. apply Forall_cons in Hne as [Hn0 Hne].
  rewrite (loop_skip t w _ k prev x.1 x.2 (hd_addr e (s1 ++ rest)) fp); try done; try tauto; [by apply IH|].
  destruct (s1 ++ rest); [done|]. apply Forall_cons in Hw as [? _]. simpl. tauto.
Qed.

Lemma arena_words h brk X p : arena h brk X p -> words (ring X) /\ 0 <= p < 2 ^ 32.
Proof.
  intros Ha. destruct Hlay. pose proof (ar_sized _ _ _ _ _ _ _ Ha) as Hs. destruct (ar_brk _ _ _ _ _ _ _ Ha) as [Hb Hm].
  pose proof (span_nonneg X Hs). assert (Hw : words (ring X)).
  { apply Forall_forall. intros [a n] Hin. simpl. destruct (ring_in base lo X a n Hs Hin) as [[= -> ->]|]; lia. }
  split; [done|]. pose proof (ar_member _ _ _ _ _ _ _ Ha) as (x & -> & Hx)%list_elem_of_fmap.
  unfold words in Hw. rewrite Forall_forall in Hw. by apply Hw.
Qed.

Lemma frees_split X y : sized X -> y ∈ frees lo X -> exists u v, X = u ++ (y.2, true) :: v /\ y.1 = lo + span u.
Proof.
  intros Hs. clear Hlay. revert Hs. generalize lo as l. induction X as [|[m f] X IH]; intros l Hs Hy; [simpl in Hy; set_solver|].
  apply Forall_cons in Hs as [_ Hs]. assert (Hrec : y ∈ frees (l + 8 * m) X -> exists u v, (m, f) :: X = u ++ (y.2, true) :: v /\ y.1 = l + span u).
  { intros Hin. destruct (IH (l + 8 * m) Hs Hin) as (u & v & -> & ->). exists ((m, f) :: u), v. simpl. split; [done|lia]. }
  simpl in Hy. destruct f; [|auto]. apply elem_of_cons in Hy as [->|Hy]; [|auto]. exists [], X. simpl. split; [done|lia].
Qed.

Lemma frees_none X k : Forall (fun y => y.2 < k) (frees lo X) -> Forall (fun x => x.2 = true -> x.1 < k) X.
Proof.
  clear Hlay. generalize lo as l. induction X as [|[m f] X IH]; intros l Hf; [done|]. simpl in Hf. destruct f.
  - apply Forall_cons in Hf as [? Hf]. constructor; [done|by eapply IH].
  - constructor; [done|by eapply IH].
Qed.

Lemma links_last h l1 rest e z : links h (l1 ++ rest) e -> last l1 = Some z -> h !! z.1 = Some (hd_addr e rest).
Proof.
  intros Hl Hz. apply last_Some in Hz as [l ->]. rewrite <- app_assoc in Hl. apply links_app in Hl as [_ Hl]. apply Hl.
Qed.

(** The ring seen from one of its blocks [x]: the others are [R]. *)
Lemma rotate h X s1 x s2 :
  links h (ring X) base -> sized X -> words (ring X) -> ring X = s1 ++ x :: s2 ->
  let R := s2 ++ s1 in
  links h (R ++ [x]) (hd_addr x.1 R) /\ Forall (fun y => y.1 <> x.1) R /\ words (R ++ [x]) /\
  (forall y, y ∈ R ++ [x] <-> y ∈ ring X).
Proof.
  intros Hl Hs Hw E R. pose proof (ring_asc base freep lo Hlay X Hs) as Ha. split_and!.
  - rewrite E in Hl. apply links_app in Hl as [Hl1 [Hx1 [Hx2 Hl2]]]. cbn [hd_addr] in Hl1.
    assert (Hb : base = hd_addr x.1 s1) by (destruct s1; [by injection E as <-|by injection E as <- _]).
    apply links_app. split; [change (links h (s2 ++ s1) x.1); apply links_app; split; [by rewrite <- Hb|done]|].
    simpl. split_and!; [|done|done]. rewrite Hx1, Hb. unfold R. destruct s2; [by destruct s1|done].
  - rewrite E in Ha. unfold R. apply Forall_app. split; apply Forall_forall; intros y Hy.
    + apply asc_app_r in Ha. apply list_elem_of_split in Hy as (a & b & ->).
      rewrite app_comm_cons, (app_assoc _ [y] b : _ ++ y :: b = _) in Ha. apply asc_app_l, asc_first in Ha. lia.
    + rewrite (app_assoc _ [x] s2 : _ ++ x :: s2 = _) in Ha. apply asc_app_l in Ha. pose proof (asc_before _ _ _ Ha Hy). lia.
  - unfold words in *. rewrite E, Forall_app, Forall_cons in Hw. unfold R. rewrite !Forall_app, Forall_singleton. tauto.
  - intros y. rewrite E. unfold R. clear. set_solver.
Qed.

(** The walk from [x] over the blocks [l1], none of which fits. *)
Lemma walk_from t w k x R l1 y l2 f :
  links (heap w) (R ++ [x]) (hd_addr x.1 R) -> Forall (fun y => y.1 <> x.1) R -> words (R ++ [x]) ->
  heap w !! freep = Some x.1 -> R ++ [x] = l1 ++ y :: l2 -> Forall (fun y => y.2 < k) l1 ->
  exec t (malloc_loop (length l1 + f) k x.1 (hd_addr x.1 R)) w = exec t (malloc_loop f k (last_addr x.1 l1) y.1) w.
Proof.
  intros Hl Hne Hw Hfp E Hk. unfold words in Hw.
  assert (Hx : 0 <= x.1 < 2 ^ 32) by (apply Forall_app in Hw as [_ [? _]%Forall_cons]; tauto).
  assert (Hnx : 0 <= hd_addr x.1 R < 2 ^ 32) by (destruct R; [done|]; simpl; apply Forall_app in Hw as [[? _]%Forall_cons _]; tauto).
  assert (Hhd : hd_addr x.1 R = hd_addr (hd_addr x.1 R) (l1 ++ y :: l2)) by (rewrite <- E; by destruct R).
  rewrite Hhd at 1. rewrite E in Hl, Hw. rewrite (walk t w f k x.1 l1 (y :: l2) _ x.1); try done.
  clear -E Hne. destruct l2 as [|z l2] using rev_ind.
  - apply app_inj_2 in E as [-> _]; done.
  - rewrite app_comm_cons, app_assoc in E. apply app_inj_2 in E as [-> _]; [|done]. by apply Forall_app in Hne as [? _].
Qed.

(** The block before [y]. *)
Lemma before_y h x R l1 y l2 :
  links h (R ++ [x]) (hd_addr x.1 R) -> R ++ [x] = l1 ++ y :: l2 ->
  exists z, z ∈ R ++ [x] /\ z.1 = last_addr x.1 l1 /\ h !! z.1 = Some y.1.
Proof.
  intros Hl E. unfold last_addr. destruct (last l1) as [z|] eqn:El.
  - exists z. rewrite E in *. split; [apply last_Some in El as [? ->]; clear; set_solver|].
    split; [done|]. by eapply (links_last _ l1 (y :: l2)).
  - apply last_None in El as ->. exists x. split; [clear; set_solver|]. split; [done|].
    apply links_app in Hl as [_ [Hx _]]. rewrite Hx. destruct R; injection E as -> _; done.
Qed.

(** From [freep] the loop comes to a block that fits, with the block before it, or
    back to [freep] when no free tile is large enough. *)
Lemma loop_start t w brk X p k f :
  arena (heap w) brk X p -> 0 < k -> (length X + 1 <= f)%nat ->
  exists nx, heap w !! p = Some nx /\ 0 <= nx < 2 ^ 32 /\
    ((exists u m v L prev j f', X = u ++ (m, true) :: v /\ k <= m /\ ring u = L ++ [(prev, j)] /\
        exec t (malloc_loop f k p nx) w = exec t (malloc_loop (S f') k prev (lo + span u)) w) \/
     (Forall (fun x => x.2 = true -> x.1 < k) X /\ exists prev n, heap w !! (p + 4) = Some n /\ 0 <= n < 2 ^ 32 /\ n < k /\
        exec t (malloc_loop f k p nx) w = exec t (malloc_loop (S (f - length (ring X))) k prev p) w)).
Proof.
  intros Ha Hk Hf. destruct (arena_words _ _ _ _ Ha) as [Hw Hp]. pose proof (ar_sized _ _ _ _ _ _ _ Ha) as Hs.
  pose proof (ring_asc base freep lo Hlay X Hs) as Hasc. pose proof (ar_links _ _ _ _ _ _ _ Ha) as Hl.
  pose proof (ar_freep _ _ _ _ _ _ _ Ha) as Hfp.
  pose proof (ar_member _ _ _ _ _ _ _ Ha) as (x & -> & (s1 & s2 & E)%list_elem_of_split)%list_elem_of_fmap.
  destruct (rotate (heap w) X s1 x s2 Hl Hs Hw E) as (HlR & Hne & HwR & Hin). set (R := s2 ++ s1) in *.
  assert (Hlen : S (length (frees lo X)) = S (length R)).
  { change (length (ring X) = S (length R)). rewrite E. unfold R. rewrite !length_app. simpl. lia. }
  pose proof HlR as [_ (Hx & Hx4 & _)]%links_app. pose proof (frees_length lo X).
  exists (hd_addr x.1 R). split; [done|]. split.
  { destruct R; [done|]. unfold words in HwR. apply Forall_app in HwR as [[? _]%Forall_cons _]. simpl. tauto. }
  destruct (first_fit k (R ++ [x])) as [Hno|(l1 & y & l2 & E1 & Hl1 & Hy)].
  - right. split.
    { apply frees_none. assert (Forall (fun y => y.2 < k) (ring X)) as [_ ?]%Forall_cons; [|done].
      rewrite Forall_forall in *. intros y Hy. by apply Hno, Hin. }
    apply Forall_app in Hno as [HnR [Hn0 _]%Forall_cons].
    exists (last_addr x.1 R), x.2. pose proof HwR as HwR'. unfold words in HwR'. rewrite Forall_app, Forall_singleton in HwR'. split_and!; try tauto.
    replace f with (length R + S (f - length (ring X)))%nat at 1 by (cbn [length UmallocSpec.ring]; lia).
    by apply (walk_from t w k x R R x []).
  - left. assert (Hyf : y ∈ frees lo X).
    { assert (HyX : y ∈ ring X) by (apply Hin; rewrite E1; clear; set_solver). apply elem_of_cons in HyX as [->|?]; [simpl in Hy; lia|done]. }
    destruct (frees_split X y Hs Hyf) as (u & v & EX & Hya). destruct (before_y _ _ _ _ _ _ HlR E1) as (z & Hz & Hz1 & Hzy).
    assert (HX : ring X = ring u ++ y :: frees (lo + span u + 8 * y.2) v).
    { rewrite EX, free_ring_app. cbn [frees]. by rewrite <- Hya, <- surjective_pairing. }
    destruct (pred_unique (heap w) (ring u) y (frees (lo + span u + 8 * y.2) v) base z) as [L HL]; rewrite <- ?HX; try done; [| |].
    { destruct (frees_in lo X y.1 y.2 Hs) as [? _]; [by rewrite <- surjective_pairing|]. destruct Hlay. lia. }
    { by apply Hin. }
    assert (Hl1len : (length l1 <= length R)%nat) by (apply (f_equal length) in E1; rewrite !length_app in E1; simpl in E1; lia).
    exists u, y.2, v, L, (last_addr x.1 l1), z.2, (f - S (length l1))%nat. split_and!; [done|done| |].
    + rewrite HL. by rewrite <- Hz1, <- surjective_pairing.
    + rewrite <- Hya. replace f with (length l1 + S (f - S (length l1)))%nat at 1 by lia. by apply (walk_from t w k x R l1 y l2).
Qed.

(** ** More memory *)

Lemma zero_out a n h x : x < a -> zero_words a n h !! x = h !! x.
Proof.
  intros Hx. unfold zero_words. assert (Hall : Forall (fun i => x <> a + 4 * Z.of_nat i) (seq 0 n)) by (apply Forall_forall; intros; lia).
  induction Hall as [|i l Hi _ IH]; [done|]. simpl. by rewrite lookup_insert_ne.
Qed.

Lemma zero_in a n h i : (i < n)%nat -> zero_words a n h !! (a + 4 * Z.of_nat i) = Some 0.
Proof.
  intros Hi. unfold zero_words. assert (Hin : i ∈ seq 0 n) by (apply elem_of_seq; lia).
  induction (seq 0 n) as [|j l IH]; [by apply not_elem_of_nil in Hin|]. simpl.
  destruct (decide (j = i)) as [->|Hne]; [by rewrite lookup_insert_eq|].
  rewrite lookup_insert_ne by lia. apply IH. apply elem_of_cons in Hin as [->|]; done.
Qed.

Lemma page_up_mod a : page_up a mod 4096 = 0.
Proof. unfold page_up. by apply Z.mod_mul. Qed.

Definition grown h brk nu : gmap Z Z :=
  <[brk + 4 := nu]> (zero_words (page_up brk) (Z.to_nat ((page_up (brk + 8 * nu) - page_up brk) / 4)) h).

Lemma grown_below h brk nu x : x < brk -> grown h brk nu !! x = h !! x.
Proof. intros Hx. pose proof (page_up_ge brk). unfold grown. by rewrite lookup_insert_ne, zero_out by lia. Qed.

Lemma zero_mapped h brk nu x :
  (forall a, lo <= a < page_up brk -> a mod 4 = 0 -> is_Some (h !! a)) -> lo <= x < page_up (brk + 8 * nu) -> x mod 4 = 0 ->
  is_Some (zero_words (page_up brk) (Z.to_nat ((page_up (brk + 8 * nu) - page_up brk) / 4)) h !! x).
Proof.
  intros Hm Hx Hx4.
  destruct (decide (x < page_up brk)); [rewrite zero_out by done; apply Hm; [lia|done]|].
  pose proof (page_up_mod brk) as H1. pose proof (page_up_mod (brk + 8 * nu)) as H2.
  pose proof (Z.div_mod (page_up brk) 4096 ltac:(lia)). pose proof (Z.div_mod (page_up (brk + 8 * nu)) 4096 ltac:(lia)).
  pose proof (Z.div_mod x 4 ltac:(lia)).
  set (i := Z.to_nat ((x - page_up brk) / 4)).
  assert (Ei : x = page_up brk + 4 * Z.of_nat i).
  { unfold i. rewrite Z2Nat.id by (apply Z.div_pos; lia).
    replace (x - page_up brk) with ((x / 4 - 1024 * (page_up brk / 4096)) * 4) by lia. rewrite Z.div_mul by lia. lia. }
  rewrite Ei, zero_in; [by eexists|].
  replace ((page_up (brk + 8 * nu) - page_up brk) / 4) with (1024 * (page_up (brk + 8 * nu) / 4096) - 1024 * (page_up brk / 4096)); [lia|].
  symmetry. replace (page_up (brk + 8 * nu) - page_up brk) with ((1024 * (page_up (brk + 8 * nu) / 4096) - 1024 * (page_up brk / 4096)) * 4) by lia.
  by apply Z.div_mul.
Qed.

Lemma grown_arena h brk X p nu :
  arena h brk X p -> 0 < nu -> brk + 8 * nu < 2 ^ 31 -> arena (grown h brk nu) (brk + 8 * nu) (X ++ [(nu, false)]) p.
Proof.
  intros Ha Hn Hb. destruct (ar_brk _ _ _ _ _ _ _ Ha) as [Hbrk _]. pose proof (ar_sized _ _ _ _ _ _ _ Ha) as Hs.
  pose proof (span_nonneg X Hs). pose proof (page_up_ge brk). pose proof (page_up_ge (brk + 8 * nu)).
  assert (Hring : ring (X ++ [(nu, false)]) = ring X) by (rewrite free_ring_app; simpl; by rewrite app_nil_r).
  assert (Hlt : forall y, y ∈ ring X -> y.1 + 4 < brk).
  { intros [a n] Hy. destruct Hlay. simpl. destruct (ring_in base lo X a n Hs Hy) as [[= -> ->]|]; lia. }
  split.
  - rewrite span_app. simpl. lia.
  - apply Forall_app. split; [done|]. by repeat constructor.
  - intros a Ha1 Ha2. unfold grown. rewrite lookup_insert_is_Some'. right. apply zero_mapped; [apply (ar_mapped _ _ _ _ _ _ _ Ha)|done..].
  - intros a n Hin. rewrite used_app, elem_of_app in Hin. destruct Hin as [Hin|Hin].
    + pose proof (used_bounds lo X a n Hs Hin). rewrite grown_below by lia. by apply (ar_used _ _ _ _ _ _ _ Ha).
    + simpl in Hin. apply list_elem_of_singleton in Hin as [= -> ->]. rewrite <- Hbrk. unfold grown. by rewrite lookup_insert_eq.
  - rewrite grown_below by (destruct Hlay; lia). apply (ar_freep _ _ _ _ _ _ _ Ha).
  - rewrite Hring. apply (ar_member _ _ _ _ _ _ _ Ha).
  - rewrite Hring. eapply links_ext; [|apply (ar_links _ _ _ _ _ _ _ Ha)]. intros y Hy. pose proof (Hlt y Hy).
    split; apply grown_below; lia.
Qed.
End Malloc.
