(* ===== verification/UmallocTheorems.v ===== *)
(** * malloc and free are correct

    A program that calls malloc and free on blocks it has sees an arena of tiles: each
    call returns within a number of steps bounded by the number of tiles, blocks in use
    never overlap and are never written by the allocator, and free memory is in one
    piece between blocks in use.  A session is any sequence of such calls and of writes
    into the blocks the program has. *)
From S2P Require Import Prelude Spinlock ProcDefs User MutexTable Umalloc UmallocSpec UmallocMalloc.
Local Open Scope Z_scope.
Local Open Scope user_scope.

Lemma used_disjoint lo X : sized X ->
  NoDup (used lo X) /\ forall a n b k, (a, n) ∈ used lo X -> (b, k) ∈ used lo X -> (a, n) <> (b, k) -> a + 8 * n <= b \/ b + 8 * k <= a.
Proof.
  intros Hs. revert lo. induction Hs as [|[m f] X Hm Hs IH]; intros lo; simpl in *; [split; [constructor|set_solver]|].
  destruct (IH (lo + 8 * m)) as [Hn Hd]. destruct f; [done|]. split.
  - constructor; [|done]. intros Hin. pose proof (used_bounds _ _ _ _ Hs Hin). lia.
  - intros a n b k [Ha|Ha]%elem_of_cons [Hb|Hb]%elem_of_cons Hne; [congruence| | |eauto];
      [injection Ha as -> ->; pose proof (used_bounds _ _ _ _ Hs Hb)|injection Hb as -> ->; pose proof (used_bounds _ _ _ _ Hs Ha)]; lia.
Qed.

Section Calls.
Context {M T : Type} `{MutexApi M T}.
Context (base freep lo : Z) (Hlay : layout base freep lo) (fuel : nat).
Implicit Types (t : T) (w : world M) (h : gmap Z Z) (X : tiles).
Abbreviation arena := (arena base freep lo).

(** The variables and the memory before the first call. *)
Record untouched h brk : Prop := {
  un_brk : brk = lo /\ brk < 2 ^ 31;
  un_freep : h !! freep = Some 0;
  un_base : is_Some (h !! base) /\ is_Some (h !! (base + 4));
  un_mapped : forall a, lo <= a < page_up brk -> a mod 4 = 0 -> is_Some (h !! a)
}.

(** The allocator's memory in [w] is cut into [X]. *)
Definition tiled w X : Prop :=
  (untouched (heap w) (brk w) /\ X = []) \/ exists p, arena (heap w) (brk w) X p.

(** The words of the blocks in use of [X], and those below the arena that are not the
    allocator's, are the same. *)
Definition intact X h h' : Prop :=
  (forall x, x < lo -> x <> freep -> ~ (base <= x < base + 8) -> h' !! x = h !! x) /\
  (forall a n x, (a, n) ∈ used lo X -> a <= x < a + 8 * n -> h' !! x = h !! x).

Lemma kept_intact X h h' : sized X -> kept base freep lo X h h' -> intact X h h'.
Proof.
  intros Hs Hk. destruct Hlay. split.
  - intros x Hx Hf Hb. apply Hk; [done..|]. intros [y n] Hy. pose proof (frees_in lo X y n Hs Hy). simpl. lia.
  - intros a n x Ha Hx. pose proof (used_bounds lo X a n Hs Ha). apply Hk; [lia..|]. intros [y k] Hy.
    pose proof (tiles_disjoint lo X y k a n Hs Hy Ha). simpl. lia.
Qed.

Lemma intact_trans X Y h1 h2 h3 : used lo X = used lo Y -> intact X h1 h2 -> intact Y h2 h3 -> intact X h1 h3.
Proof.
  intros E [A1 A2] [B1 B2]. split; [intros; rewrite B1, A1; done|]. intros a n x Ha Hx.
  rewrite (B2 a n x), (A2 a n x); [done|done|done|by rewrite <- E|done].
Qed.

(** ** morecore *)

Definition units (k : Z) : Z := if k <? 4096 then 4096 else k.

Lemma morecore_run t w X p k :
  arena (heap w) (brk w) X p -> 0 < k -> 8 * k < 2 ^ 31 -> brk_max w < 2 ^ 31 -> (length X + 2 < fuel)%nat ->
  (brk_max w < brk w + 8 * units k /\ exec t (morecore freep fuel k) w = Some (0, w)) \/
  (exists h' a, exec t (morecore freep fuel k) w = Some (a, w <| heap := h' |> <| brk := brk w + 8 * units k |>) /\
    arena h' (brk w + 8 * units k) (join X (units k) []) a /\ intact X (heap w) h').
Proof.
  intros Ha Hk Hk8 Hbm Hf. destruct (ar_brk _ _ _ _ _ _ _ Ha) as [Hb Hb31]. pose proof (ar_sized _ _ _ _ _ _ _ Ha) as Hs.
  pose proof (span_nonneg X Hs). unfold morecore. cbv zeta. fold (units k).
  assert (Hu : 0 < units k /\ k <= units k /\ 8 * units k < 2 ^ 31) by (unfold units; destruct (Z.ltb_spec k 4096); lia).
  assert (Hlo : 0 < lo) by (destruct Hlay; lia).
  destruct Hu as (Hu0 & Huk & Hu31). cbn [andthen sys exec]. unfold do_sbrk. rewrite s32_small by lia.
  rewrite (proj2 (Z.ltb_lt 0 (units k * 8))) by lia. rewrite (Z.mul_comm (units k) 8).
  destruct (Z.leb_spec (brk w + 8 * units k) (brk_max w)) as [Hle|Hgt]; [right|left; split; [lia|done]].
  replace (u32 (brk w) =? u32 (-1)) with false by (symmetry; apply Z.eqb_neq; rewrite u32_small by lia; by change (u32 (-1)) with 4294967295; lia).
  rewrite u32_small by lia.
  set (w1 := w <| heap := grown (heap w) (brk w) (units k) |> <| brk := brk w + 8 * units k |>).
  pose proof (grown_arena base freep lo Hlay (heap w) (brk w) X p (units k) Ha Hu0 ltac:(lia)) as Hg.
  destruct (free_run base freep lo Hlay t w1 (brk w + 8 * units k) X (units k) [] p fuel) as (h' & a & He & Ha' & Hkept); [done| |].
  { rewrite length_app. simpl. lia. }
  exists h', a. split; [|split; [done|]].
  - rewrite (exec_then t _ _ _ tt w1).
    + rewrite (exec_then t _ _ w1 tt (w1 <| heap := h' |>)).
      * cbn. rewrite (ar_freep _ _ _ _ _ _ _ Ha'). destruct (arena_words base freep lo Hlay _ _ _ _ Ha') as [_ ?]. by rewrite u32_small.
      * rewrite <- He. f_equal. unfold hdr_at. rewrite u32_small by lia. f_equal. lia.
    + unfold hdr_size. cbn. destruct (zero_mapped lo (heap w) (brk w) (units k) (brk w + 4)) as [y Hy].
      * apply (ar_mapped _ _ _ _ _ _ _ Ha).
      * pose proof (page_up_ge (brk w + 8 * units k)). lia.
      * rewrite Z.add_mod, Hb, (tile_mod base freep lo Hlay X) by lia. done.
      * rewrite Hy, u32_small by lia. done.
  - destruct (join_facts lo X (units k) []) as [_ Hused]. simpl in Hused. rewrite app_nil_r in Hused.
    pose proof (kept_intact _ _ _ (ar_sized _ _ _ _ _ _ _ Ha') Hkept) as [K1 K2]. split.
    + intros x Hx Hxf Hxb. rewrite K1 by done. apply grown_below. lia.
    + intros y n x Hy Hx. pose proof (used_bounds lo X y n Hs Hy). rewrite (K2 y n x); [apply grown_below; lia|by rewrite Hused|done].
Qed.

(** ** malloc *)

(** A block of [k] headers is taken from [X]: its address is [a]. *)
Inductive takes (k : Z) X : Z -> tiles -> Prop :=
| takes_from u m v : X = u ++ (m, true) :: v -> k <= m -> takes k X (lo + span u + 8 * (m - k)) (carve u m k v).

Lemma takes_used k X a Y : takes k X a Y -> used lo Y ≡ₚ (a, k) :: used lo X.
Proof.
  intros [u m v -> Hm]. destruct (carve_facts base lo u m k v) as (_ & -> & _).
  rewrite used_app. cbn [used]. by rewrite Permutation_middle.
Qed.

Lemma takes_coalesced k X a Y : takes k X a Y -> coalesced X -> coalesced Y.
Proof. intros [u m v -> Hm]. apply carve_coalesced. Qed.

Abbreviation malloc_loop := (malloc_loop freep fuel).

Definition fits k X : Prop := exists m, (m, true) ∈ X /\ k <= m.

Lemma fits_or_not k X : fits k X \/ ~ fits k X.
Proof.
  unfold fits. destruct (decide (Exists (fun x => x.2 = true /\ k <= x.1) X)) as [He|He].
  - left. apply Exists_exists in He as ([m f] & Hm & Hf & Hk). simpl in *. subst f. by exists m.
  - right. intros (m & Hm & Hk). apply He, Exists_exists. by exists (m, true).
Qed.

(** The memory that morecore adds at the end is enough. *)
Lemma join_end k X : sized X -> (length (join X (units k) []) <= S (length X))%nat /\ fits k (join X (units k) []).
Proof.
  intros Hs. unfold fits, join, sized in *. cbn [join_right].
  assert (k <= units k) by (unfold units; destruct (Z.ltb_spec k 4096); lia).
  destruct (last_split X) as [->|(u & [m []] & ->)]; rewrite ?join_left_nil, ?join_left_free, ?join_left_used;
    (split; [rewrite !length_app; simpl; lia|]); eexists; (split; [apply elem_of_app; right; apply elem_of_cons; by left|]); try lia.
  apply Forall_app in Hs as [_ [? _]%Forall_cons]. simpl in *. lia.
Qed.

Lemma freep_nonzero h brk X p : arena h brk X p -> p <> 0.
Proof.
  intros Ha. pose proof (ar_member _ _ _ _ _ _ _ Ha) as ([x i] & -> & Hin)%list_elem_of_fmap. destruct Hlay.
  destruct (ring_in base lo _ x i (ar_sized _ _ _ _ _ _ _ Ha) Hin) as [[= -> ->]|]; simpl; lia.
Qed.

(** The loop from [freep] when a tile fits. *)
Lemma loop_fits t w X p k f :
  arena (heap w) (brk w) X p -> 0 < k -> (length X + 1 <= f)%nat -> fits k X ->
  exists nx h' a Y, heap w !! p = Some nx /\ 0 <= nx < 2 ^ 32 /\
    exec t (malloc_loop f k p nx) w = Some (a + 8, w <| heap := h' |>) /\ takes k X a Y /\
    (exists q, arena h' (brk w) Y q) /\ intact X (heap w) h'.
Proof.
  intros Ha Hk Hf (m0 & Hm0 & Hk0).
  destruct (loop_start base freep lo Hlay fuel t w (brk w) X p k f Ha Hk Hf) as (nx & Hx & Hr & [(u & m & v & L & prev & j & f' & -> & Hm & HL & E)|(Hno & _)]).
  - destruct (take_run base freep lo Hlay fuel t w (brk w) u m v p L prev j k f' Ha HL ltac:(lia)) as (h' & E' & Ha' & Hkept).
    eexists nx, h', _, _. split_and!; [done|apply Hr..|by rewrite E, E'|by econstructor|by eexists|].
    apply kept_intact; [apply (ar_sized _ _ _ _ _ _ _ Ha)|done].
  - rewrite Forall_forall in Hno. specialize (Hno _ Hm0 eq_refl). simpl in Hno. lia.
Qed.

Lemma loop_run t w X p k :
  arena (heap w) (brk w) X p -> 0 < k -> 8 * k < 2 ^ 31 -> brk_max w < 2 ^ 31 -> (2 * length X + 4 <= fuel)%nat ->
  exists nx w', heap w !! p = Some nx /\ 0 <= nx < 2 ^ 32 /\ mxs w' = mxs w /\ brk_max w' = brk_max w /\ intact X (heap w) (heap w') /\
    ((exec t (malloc_loop fuel k p nx) w = Some (0, w') /\ w' = w /\ ~ fits k X /\ brk_max w < brk w + 8 * units k) \/
     (exists a X1 Y, exec t (malloc_loop fuel k p nx) w = Some (a + 8, w') /\ (X1 = X \/ ~ fits k X /\ X1 = join X (units k) []) /\
        takes k X1 a Y /\ exists q, arena (heap w') (brk w') Y q)).
Proof.
  intros Ha Hk Hk8 Hbm Hf.
  destruct (fits_or_not k X) as [Hfit|Hnf].
  - destruct (loop_fits t w X p k fuel Ha Hk ltac:(lia) Hfit) as (nx & h' & a & Y & Hx & Hr & E & Ht & Hq & Hi).
    exists nx, (w <| heap := h' |>). split_and!; [done|apply Hr..|done|done|done|]. right. exists a, X, Y. split_and!; auto.
  - destruct (loop_start base freep lo Hlay fuel t w (brk w) X p k fuel Ha Hk ltac:(lia))
      as (nx & Hx & Hr & [(u & m & v & _ & _ & _ & _ & -> & Hm & _)|(_ & prev & n & Hn & Hn32 & Hnk & E)]).
    { exfalso. apply Hnf. exists m. split; [set_solver|done]. }
    rewrite (loop_more freep fuel t w _ k prev p n) in E; try done; [|apply (ar_freep _ _ _ _ _ _ _ Ha)|apply (arena_words base freep lo Hlay _ _ _ _ Ha)].
    destruct (morecore_run t w X p k Ha Hk Hk8 Hbm ltac:(lia)) as [[Hfull Em]|(h' & a & Em & Ha' & Hi)].
    + exists nx, w. split_and!; [done|apply Hr..|done|done|by split|]. left. split_and!; [|done..].
      rewrite E. by erewrite exec_then by exact Em.
    + set (w1 := w <| heap := h' |> <| brk := brk w + 8 * units k |>).
      set (f' := (fuel - length (UmallocSpec.ring base lo X))%nat).
      destruct (join_end k X (ar_sized _ _ _ _ _ _ _ Ha)) as [HJ Hfit].
      assert (Hlen : (length (join X (units k) []) + 1 <= f')%nat).
      { unfold f'. cbn [UmallocSpec.ring length]. pose proof (frees_length lo X). lia. }
      destruct (loop_fits t w1 (join X (units k) []) a k f' Ha' Hk Hlen Hfit) as (nx' & h2 & b & Y & Hx' & Hr' & E' & Ht & Hq & Hi').
      destruct (join_facts lo X (units k) []) as [_ Hused]. simpl in Hused. rewrite app_nil_r in Hused.
      exists nx, (w1 <| heap := h2 |>). split_and!; [done|apply Hr..|done|done|by eapply intact_trans|].
      right. exists b, (join X (units k) []), Y. split_and!; [|by right|done|done].
      rewrite E. erewrite exec_then by exact Em. cbv beta.
      destruct (arena_words base freep lo Hlay _ _ _ _ Ha') as [_ Ha32].
      rewrite (proj2 (Z.eqb_neq a 0)) by (by eapply freep_nonzero). unfold hdr_ptr. rewrite (exec_load t _ nx') by done. exact E'.
Qed.

(** The first call makes a ring of [base] alone. *)
Lemma first_call t w :
  untouched (heap w) (brk w) ->
  exists h', exec t (store freep base ;!; store (hdr_ptr base) base ;!; store (hdr_size base) 0 ;!; Done base) w = Some (base, w <| heap := h' |>) /\
    arena h' (brk w) [] base /\ intact [] (heap w) h'.
Proof.
  intros [[Hb Hb31] Hf [[y1 H1] [y2 H2]] Hm]. destruct Hlay. unfold hdr_ptr, hdr_size.
  exists (<[base + 4 := 0]> (<[base := base]> (<[freep := base]> (heap w)))). split_and!.
  - cbn. rewrite Hf. cbn. rewrite lookup_insert_ne, H1 by lia. cbn.
    rewrite lookup_insert_ne, lookup_insert_ne, H2 by lia. by rewrite !u32_small by lia.
  - split.
    + simpl. lia.
    + constructor.
    + intros a Ha Ha4. rewrite !lookup_insert_is_Some'. right. right. right. by apply Hm.
    + intros a n Hin. by apply not_elem_of_nil in Hin.
    + by rewrite !lookup_insert_ne, lookup_insert_eq by lia.
    + simpl. apply elem_of_cons. by left.
    + simpl. split_and!; [by rewrite lookup_insert_ne, lookup_insert_eq by lia|by rewrite lookup_insert_eq|done].
  - split; [intros x Hx Hxf Hxb; by rewrite !lookup_insert_ne by lia|]. intros a n x Hin. by apply not_elem_of_nil in Hin.
Qed.

(** What precedes the loop: [freep], after the first call has made the ring. *)
Lemma malloc_start t w X :
  tiled w X ->
  exists p w1,
    (forall A (f : Z -> prog A), exec t (let! fp := load_uint freep in let! prevp := (if fp =? 0 then
        store freep base ;!; store (hdr_ptr base) base ;!; store (hdr_size base) 0 ;!; Done base else Done fp) in f prevp) w = exec t (f p) w1) /\
    arena (heap w1) (brk w) X p /\ w1 = w <| heap := heap w1 |> /\ intact X (heap w) (heap w1).
Proof.
  intros [[Hun ->]|[p Ha]].
  - destruct (first_call t w Hun) as (h' & E & Ha & Hi). exists base, (w <| heap := h' |>). split_and!; [|done..].
    intros A f. rewrite (exec_load t _ 0) by (done || apply (un_freep _ _ Hun)). rewrite Z.eqb_refl. by erewrite exec_then by exact E.
  - exists p, w. split_and!; [|done|by destruct w|by split]. intros A f.
    destruct (arena_words base freep lo Hlay _ _ _ _ Ha) as [_ Hp]. rewrite (exec_load t _ p) by (done || apply (ar_freep _ _ _ _ _ _ _ Ha)).
    rewrite (proj2 (Z.eqb_neq p 0)); [done|by eapply freep_nonzero].
Qed.

Definition headers (nbytes : Z) : Z := (nbytes + 7) / 8 + 1.

(** What a call of malloc that needs [k] headers leaves and returns. *)
Definition malloc_post k X w r w' : Prop :=
  mxs w' = mxs w /\ brk_max w' = brk_max w /\ intact X (heap w) (heap w') /\
  ((r = 0 /\ tiled w' X /\ brk w' = brk w /\ ~ fits k X /\ brk_max w < brk w + 8 * units k) \/
   (exists X1 Y, (X1 = X \/ ~ fits k X /\ X1 = join X (units k) []) /\ takes k X1 (r - 8) Y /\ tiled w' Y)).

Lemma malloc_run t w X nbytes :
  tiled w X -> 0 <= nbytes <= 2 ^ 31 - 16 -> brk_max w < 2 ^ 31 -> (2 * length X + 4 <= fuel)%nat ->
  exists r w', exec t (malloc base freep fuel nbytes) w = Some (r, w') /\ malloc_post (headers nbytes) X w r w'.
Proof.
  intros Ht Hn Hbm Hf. unfold malloc. cbv zeta.
  replace (u32 (u32 (nbytes + 8 - 1) / 8 + 1)) with (headers nbytes).
  2:{ unfold headers. rewrite (u32_small (nbytes + 8 - 1)) by lia. replace (nbytes + 8 - 1) with (nbytes + 7) by lia.
      rewrite u32_small; [done|]. pose proof (Z.div_mod (nbytes + 7) 8 ltac:(lia)). pose proof (Z.mod_pos_bound (nbytes + 7) 8 ltac:(lia)). lia. }
  set (k := headers nbytes). assert (Hk : 0 < k /\ 8 * k < 2 ^ 31).
  { unfold k, headers. pose proof (Z.div_mod (nbytes + 7) 8 ltac:(lia)). pose proof (Z.mod_pos_bound (nbytes + 7) 8 ltac:(lia)). lia. }
  destruct (malloc_start t w X Ht) as (p & w1 & Hex & Ha & Hw1 & Hi1). rewrite Hex.
  assert (Hb1 : brk w1 = brk w /\ brk_max w1 = brk_max w /\ mxs w1 = mxs w) by (rewrite Hw1; done). destruct Hb1 as (Hb1 & Hb2 & Hb3).
  rewrite <- Hb1 in Ha. destruct (loop_run t w1 X p k Ha) as (nx & w' & Hx & Hr & Hm & Hbm' & Hi & Hres); [lia..|congruence|done|].
  unfold hdr_ptr. rewrite (exec_load t _ nx) by done.
  assert (HiX : intact X (heap w) (heap w')) by (by eapply intact_trans).
  destruct Hres as [(E & -> & Hnf & Hfull)|(a & X1 & Y & E & HX & Htk & Hq)].
  - exists 0, w1. split; [done|]. split_and!; [done|done|done|]. left. split_and!; [done|right; by exists p|done|done|lia].
  - exists (a + 8), w'. split; [done|]. split_and!; [congruence|congruence|done|]. right. exists X1, Y.
    split; [done|]. replace (a + 8 - 8) with a by lia. split; [done|]. by right.
Qed.

Lemma tiled_sized w X : tiled w X -> sized X.
Proof. intros [[_ ->]|[p Ha]]; [constructor|apply (ar_sized _ _ _ _ _ _ _ Ha)]. Qed.

Lemma takes_length k X a Y : takes k X a Y -> (length Y <= S (length X))%nat.
Proof. intros [u m v -> Hm]. unfold carve. rewrite !length_app. destruct (m =? k); simpl; lia. Qed.

(** What malloc returns, in terms of the blocks in use. *)
Lemma malloc_blocks k X w r w' :
  coalesced X -> sized X -> malloc_post k X w r w' ->
  (r = 0 /\ tiled w' X /\ brk w' = brk w /\ ~ fits k X /\ brk_max w < brk w + 8 * units k) \/
  (exists Y, tiled w' Y /\ coalesced Y /\ used lo Y ≡ₚ (r - 8, k) :: used lo X /\ (length Y <= length X + 2)%nat).
Proof.
  intros Hc Hs (_ & _ & _ & [?|(X1 & Y & HX & Ht & Hw)]); [by left|]. right. exists Y. split; [done|].
  assert (HX1 : coalesced X1 /\ used lo X1 = used lo X /\ (length X1 <= S (length X))%nat).
  { destruct HX as [->|[_ ->]]; [split_and!; [done|done|lia]|]. destruct (join_facts lo X (units k) []) as [_ Hu]. simpl in Hu.
    rewrite app_nil_r in Hu. split_and!; [|done|by apply join_end]. apply join_coalesced, coalesced_app. split; [|done].
    clear -Hc. induction X as [|[m []] X IH]; [done|..]; destruct X as [|[m' []] X]; simpl in *; tauto. }
  destruct HX1 as (Hc1 & Hu1 & Hl1). split_and!.
  - by eapply takes_coalesced.
  - rewrite (takes_used k X1 (r - 8) Y Ht). by rewrite Hu1.
  - pose proof (takes_length _ _ _ _ Ht). lia.
Qed.

Lemma free_call t w X a n :
  tiled w X -> coalesced X -> (a, n) ∈ used lo X -> (length X + 1 < fuel)%nat ->
  exists w' Y, exec t (free freep fuel (a + 8)) w = Some (tt, w') /\ tiled w' Y /\ coalesced Y /\ span Y = span X /\
    used lo X ≡ₚ (a, n) :: used lo Y /\ (length Y <= length X)%nat /\ intact Y (heap w) (heap w') /\ w' = w <| heap := heap w' |>.
Proof.
  intros [[_ ->]|[p Ha]] Hc Hin Hf; [by apply not_elem_of_nil in Hin|].
  destruct (used_in lo X a n (ar_sized _ _ _ _ _ _ _ Ha) Hin) as (u & v & -> & ->).
  destruct (free_run base freep lo Hlay t w (brk w) u n v p fuel Ha Hf) as (h' & q & E & Ha' & Hk).
  destruct (join_facts lo u n v) as [Hsp Hu].
  exists (w <| heap := h' |>), (join u n v). split_and!; try done.
  - right. by exists q.
  - by apply join_coalesced.
  - rewrite Hu, used_app. cbn [used]. by rewrite Permutation_middle.
  - unfold join. clear. destruct v as [|[? []] ?]; destruct (last_split u) as [->|(? & [? []] & ->)]; cbn [join_right];
      rewrite ?join_left_nil, ?join_left_free, ?join_left_used, !length_app; simpl; rewrite ?length_app; simpl; lia.
  - apply kept_intact; [apply (ar_sized _ _ _ _ _ _ _ Ha')|done].
Qed.

(** ** Theorems *)

(** C27: malloc returns, for every request of at most 2^31 - 16 bytes and every arena,
    within two turns of its loop per tile and four more.  Either it returns a block of
    enough bytes that overlaps no block in use, which is then in use itself, or it
    returns 0, when no free tile is large enough and the kernel has no memory left;
    then no tile has changed.  It writes no word of a block in use and none of the
    program's variables, and no two free tiles are neighbours afterwards. *)
Theorem malloc_correct t w X nbytes :
  tiled w X -> coalesced X -> 0 <= nbytes <= 2 ^ 31 - 16 -> brk_max w < 2 ^ 31 -> (2 * length X + 4 <= fuel)%nat ->
  let k := headers nbytes in
  exists r w', exec t (malloc base freep fuel nbytes) w = Some (r, w') /\
    mxs w' = mxs w /\ intact X (heap w) (heap w') /\
    ((r = 0 /\ tiled w' X /\ brk w' = brk w /\ ~ fits k X /\ brk_max w < brk w + 8 * units k) \/
     (exists Y, tiled w' Y /\ coalesced Y /\ used lo Y ≡ₚ (r - 8, k) :: used lo X /\ r + nbytes <= r - 8 + 8 * k /\
        forall a n, (a, n) ∈ used lo X -> a + 8 * n <= r - 8 \/ r - 8 + 8 * k <= a)).
Proof.
  intros Ht Hc Hn Hbm Hf k. destruct (malloc_run t w X nbytes Ht Hn Hbm Hf) as (r & w' & E & Hp).
  exists r, w'. split; [done|]. pose proof Hp as (Hm & _ & Hi & _). split_and!; [done..|].
  destruct (malloc_blocks k X w r w' Hc (tiled_sized _ _ Ht) Hp) as [?|(Y & HY & HcY & Hu & _)]; [by left|].
  right. exists Y. split_and!; [done..| |].
  { unfold k, headers. pose proof (Z.div_mod (nbytes + 7) 8 ltac:(lia)). pose proof (Z.mod_pos_bound (nbytes + 7) 8 ltac:(lia)). lia. }
  destruct (used_disjoint lo Y (tiled_sized _ _ HY)) as [Hnd Hd]. intros a n Ha. rewrite Hu in Hnd. apply NoDup_cons in Hnd as [Hni _].
  apply (Hd a n (r - 8) k); [by rewrite Hu; right|by rewrite Hu; left|congruence].
Qed.
End Calls.

(** A process that has its variables below 4096 and nothing allocated. *)
Definition new_process : world mtable :=
  World (<[16 := 0]> (<[20 := 0]> (<[32 := 0]> ∅))) (Mtab (replicate MAX_MUTEXES (Mutex None None 0 MUNLOCKED)) 1) 4096 0x100000.

Lemma new_layout : layout 16 32 4096.
Proof. split; lia || done. Qed.
Lemma new_untouched : untouched 16 32 4096 (heap new_process) (brk new_process).
Proof. split; [split; [done|by vm_compute]|done|split; by eexists|]. intros a Ha. cbn in Ha. change (page_up 4096) with 4096 in Ha. lia. Qed.

Lemma malloc_correct_witness :
  tiled 16 32 4096 new_process [] /\
  exists r w', exec (T := nat * nat) (0%nat, 0%nat) (malloc 16 32 8 100) new_process = Some (r, w') /\
    mxs w' = mxs new_process /\ intact 16 32 4096 [] (heap new_process) (heap w') /\
    ((r = 0 /\ tiled 16 32 4096 w' [] /\ brk w' = brk new_process /\ ~ fits 14 [] /\ brk_max new_process < brk new_process + 8 * units 14) \/
     (exists Y, tiled 16 32 4096 w' Y /\ coalesced Y /\ used 4096 Y ≡ₚ (r - 8, 14) :: used 4096 [] /\ r + 100 <= r - 8 + 8 * 14 /\
        forall a n, (a, n) ∈ used 4096 [] -> a + 8 * n <= r - 8 \/ r - 8 + 8 * 14 <= a)).
Proof.
  split; [left; split; [exact new_untouched|done]|].
  apply (malloc_correct 16 32 4096 new_layout 8 (0%nat, 0%nat) new_process [] 100).
  - left. split; [exact new_untouched|done].
  - done.
  - lia.
  - by vm_compute.
  - simpl. lia.
Defined.

(** The rounding wraps for the seven largest sizes: malloc takes them for 0 and returns
    a block with no bytes. *)
Theorem malloc_wraps base freep fuel nbytes :
  2 ^ 32 - 7 <= nbytes < 2 ^ 32 -> malloc base freep fuel nbytes = malloc base freep fuel 0.
Proof.
  intros Hn. unfold malloc. replace (u32 (u32 (nbytes + 8 - 1) / 8 + 1)) with (u32 (u32 (0 + 8 - 1) / 8 + 1)); [done|].
  assert (u32 (nbytes + 8 - 1) = nbytes + 7 - 2 ^ 32) as ->.
  { unfold u32. symmetry. apply (Z.mod_unique_pos _ _ 1); lia. }
  rewrite (Z.div_small (nbytes + 7 - 2 ^ 32) 8) by lia. done.
Qed.

(** From 2^31 - 15 bytes on the size that [morecore] passes to sbrk is negative: it asks
    the kernel to take memory away, and goes on to store at the end it gets back. *)
Theorem malloc_shrinks freep fuel nbytes :
  2 ^ 31 - 15 <= nbytes < 2 ^ 32 - 15 ->
  let nunits := u32 (u32 (nbytes + 8 - 1) / 8 + 1) in
  exists n, n < 0 /\
    morecore freep fuel nunits =
      let! p := sys (Sbrk n) in
      if u32 p =? u32 (-1) then Done 0 else
      store (hdr_size (u32 p)) nunits ;!; free freep fuel (hdr_at (u32 p) 1) ;!; load_uint freep.
Proof.
  intros Hn nunits.
  assert (Hd : 2 ^ 28 - 1 <= (nbytes + 8 - 1) / 8 <= 2 ^ 29 - 2)
    by (split; [apply Z.div_le_lower_bound|apply Z.lt_succ_r, Z.div_lt_upper_bound]; lia).
  assert (Hu : 2 ^ 28 <= nunits <= 2 ^ 29 - 1) by (unfold nunits, u32; rewrite (Z.mod_small (nbytes + 8 - 1)), Z.mod_small by lia; lia).
  exists (s32 (nunits * 8)). split.
  { unfold s32. rewrite <-(Z.mod_unique_pos (nunits * 8 + 2 ^ 31) (2 ^ 32) 1 (nunits * 8 + 2 ^ 31 - 2 ^ 32)); lia. }
  unfold morecore. by rewrite (proj2 (Z.ltb_ge nunits 4096)) by lia.
Qed.

(** ** A program that uses the allocator *)

(** Blocks are named by their position in the list of blocks the program has. *)
Inductive request :=
| Malloc (nbytes : Z)
| Free (i : nat)
| Put (i : nat) (off v : Z).

(** The blocks with the bytes asked for, and the words the program has written in them. *)
Record holdings := Holdings { live : list (Z * Z); written : gmap Z Z }.

Section Session.
Context (base freep : Z) (fuel : nat).

Definition inside (b : Z * Z) (x : Z) : Prop := b.1 <= x < b.1 + b.2.
#[export] Instance inside_dec b x : Decision (inside b x).
Proof. unfold inside. apply _. Defined.

(** One request of the program: a call, or a store to word [off] of a block. *)
Definition serve (r : request) (s : holdings) : prog holdings :=
  match r with
  | Malloc nbytes =>
    let! p := malloc base freep fuel nbytes in
    Done (if p =? 0 then s else Holdings ((p, nbytes) :: live s) (written s))
  | Free i =>
    match live s !! i with
    | Some b => free freep fuel b.1 ;!; Done (Holdings (delete i (live s)) (filter (fun xv => ~ inside b xv.1) (written s)))
    | None => Done s
    end
  | Put i off v =>
    match live s !! i with
    | Some b =>
      if (0 <=? off) && (4 * off + 4 <=? b.2)
      then store (b.1 + 4 * off) v ;!; Done (Holdings (live s) (<[b.1 + 4 * off := u32 v]> (written s)))
      else Done s
    | None => Done s
    end
  end.
Fixpoint session (rs : list request) (s : holdings) : prog holdings :=
  match rs with [] => Done s | r :: rs' => let! s := serve r s in session rs' s end.

Definition request_ok (r : request) : Prop := match r with Malloc n => 0 <= n <= 2 ^ 31 - 16 | _ => True end.
End Session.

Section Correct.
Context {M T : Type} `{MutexApi M T}.
Context (base freep lo : Z) (Hlay : layout base freep lo) (fuel : nat).
Implicit Types (t : T) (w : world M) (X : tiles).
Abbreviation tiled := (tiled base freep lo).

Definition block (b : Z * Z) : Z * Z := (b.1 - 8, headers b.2).

(** The holdings [s] in memory: its blocks are the ones in use, and what was written is there. *)
Record holds w X (s : holdings) : Prop := {
  hl_tiled : tiled w X;
  hl_coalesced : coalesced X;
  hl_used : used lo X ≡ₚ block <$> live s;
  hl_written x v : written s !! x = Some v -> heap w !! x = Some v /\ exists b, b ∈ live s /\ inside b x
}.

Lemma headers_bytes n : n + 8 <= 8 * headers n.
Proof. unfold headers. pose proof (Z.div_mod (n + 7) 8 ltac:(lia)). pose proof (Z.mod_pos_bound (n + 7) 8 ltac:(lia)). lia. Qed.

Lemma written_intact w w' X Y s :
  holds w X s -> (forall b, b ∈ live s -> block b ∈ used lo Y) -> intact base freep lo Y (heap w) (heap w') ->
  forall x v, written s !! x = Some v -> heap w' !! x = Some v /\ exists b, b ∈ live s /\ inside b x.
Proof.
  intros Hh HY [_ Hi] x v Hx. destruct (hl_written _ _ _ Hh x v Hx) as [Hw (b & Hb & Hin)]. split; [|by exists b].
  rewrite <- Hw. apply (Hi (b.1 - 8) (headers b.2)); [by apply HY|]. pose proof (headers_bytes b.2). unfold inside in Hin. lia.
Qed.

(** A store into a block in use keeps the tiles. *)
Lemma tiled_store w X a n x v :
  tiled w X -> (a, n) ∈ used lo X -> a + 8 <= x < a + 8 * n -> tiled (w <| heap ::= <[x := v]> |>) X.
Proof.
  intros [[_ ->]|[p Ha]] Hin Hx; [by apply not_elem_of_nil in Hin|]. right. exists p. destruct Ha as [Hb Hs Hm Hu Hf Hp Hl].
  pose proof (used_bounds lo X a n Hs Hin). destruct Hlay. split; cbn; try done.
  - intros y Hy Hy4. rewrite lookup_insert_is_Some'. right. by apply Hm.
  - intros b k Hbk. rewrite lookup_insert_ne; [by apply Hu|]. destruct (decide ((a, n) = (b, k))) as [[= <- <-]|Hne]; [lia|].
    destruct (used_disjoint lo X Hs) as [_ Hd]. pose proof (Hd a n b k Hin Hbk Hne). pose proof (used_bounds lo X b k Hs Hbk). lia.
  - by rewrite lookup_insert_ne by lia.
  - apply (links_ext (heap w) (<[x := v]> (heap w)) (ring base lo X) base); [|exact Hl]. intros [y k] [[= -> ->]|Hy]%elem_of_cons; simpl; [by rewrite !lookup_insert_ne by lia|].
    pose proof (frees_in lo X y k Hs Hy). pose proof (tiles_disjoint lo X y k a n Hs Hy Hin). by rewrite !lookup_insert_ne by lia.
Qed.

Lemma tiled_mapped w X a n i :
  tiled w X -> (a, n) ∈ used lo X -> 0 <= i < 2 * n -> is_Some (heap w !! (a + 4 * i)).
Proof.
  intros [[_ ->]|[p Ha]] Hin Hi; [by apply not_elem_of_nil in Hin|]. pose proof (ar_sized _ _ _ _ _ _ _ Ha) as Hs.
  pose proof (used_bounds lo X a n Hs Hin). destruct (used_in lo X a n Hs Hin) as (u & v & _ & ->).
  destruct (ar_brk _ _ _ _ _ _ _ Ha) as [Hb _]. pose proof (page_up_ge (brk w)). apply (ar_mapped _ _ _ _ _ _ _ Ha); [lia|].
  rewrite (Z.mul_comm 4), Z.mod_add by lia. by apply (tile_mod base freep lo).
Qed.

(** ** One request *)

(** What serving one request leaves, from tiles [X]. *)
Definition served w X (s' : holdings) w' : Prop :=
  exists Y, holds w' Y s' /\ (length Y <= length X + 2)%nat /\ brk_max w' = brk_max w /\ mxs w' = mxs w.

Lemma served_same w X s : holds w X s -> served w X s w.
Proof. intros Hh. exists X. split_and!; [done|lia|done..]. Qed.

Lemma serve_malloc t w X s nbytes :
  holds w X s -> 0 <= nbytes <= 2 ^ 31 - 16 -> brk_max w < 2 ^ 31 -> (2 * length X + 4 <= fuel)%nat ->
  exists s' w', exec t (serve base freep fuel (Malloc nbytes) s) w = Some (s', w') /\ served w X s' w'.
Proof.
  intros Hh Hr Hbm Hf. pose proof (tiled_sized _ _ _ _ _ (hl_tiled _ _ _ Hh)) as Hs. cbn [serve].
  destruct (malloc_run base freep lo Hlay fuel t w X nbytes (hl_tiled _ _ _ Hh) Hr Hbm Hf) as (r & w' & E & Hp).
  erewrite exec_then by exact E. cbn [exec]. pose proof Hp as (Hm & Hb & Hi & _).
  assert (HuX : forall b, b ∈ live s -> block b ∈ used lo X) by (intros b Hb'; rewrite (hl_used _ _ _ Hh); by apply list_elem_of_fmap_2).
  pose proof (written_intact _ _ _ _ _ Hh HuX Hi) as Hwr.
  destruct (malloc_blocks base freep lo _ X w r w' (hl_coalesced _ _ _ Hh) Hs Hp) as [(-> & Ht & _)|(Y & HY & HcY & Hu & Hl)].
  - exists s, w'. split; [done|]. exists X. split_and!; [|lia|done..]. split; try done; apply Hh.
  - assert (Hr0 : r <> 0).
    { pose proof (used_bounds lo Y (r - 8) (headers nbytes) (tiled_sized _ _ _ _ _ HY) ltac:(rewrite Hu; by left)). destruct Hlay. lia. }
    rewrite (proj2 (Z.eqb_neq r 0)) by done. eexists _, w'. split; [done|]. exists Y. split_and!; [|lia|done..]. split; [done|done| |].
    + rewrite Hu, (hl_used _ _ _ Hh). done.
    + intros x v Hx. destruct (Hwr x v Hx) as [? (b & Hb' & ?)]. split; [done|]. exists b. split; [by right|done].
Qed.

Lemma serve_free t w X s i :
  holds w X s -> (2 * length X + 4 <= fuel)%nat ->
  exists s' w', exec t (serve base freep fuel (Free i) s) w = Some (s', w') /\ served w X s' w'.
Proof.
  intros Hh Hf. cbn [serve]. destruct (live s !! i) as [b|] eqn:Eb; [|exists s, w; split; [done|by apply served_same]].
  pose proof (delete_Permutation _ _ _ Eb) as Hperm. pose proof (hl_used _ _ _ Hh) as Hu. rewrite Hperm in Hu. cbn in Hu.
  destruct (free_call base freep lo Hlay fuel t w X (b.1 - 8) (headers b.2)) as (w' & Y & E & HY & HcY & _ & HuY & Hl & Hi & Hw);
    [apply Hh..|rewrite Hu; by left|lia|].
  replace (b.1 - 8 + 8) with b.1 in E by lia. erewrite exec_then by exact E. cbn [exec].
  eexists _, w'. split; [done|]. exists Y. split_and!; [|lia|by rewrite Hw|by rewrite Hw].
  assert (HuY' : used lo Y ≡ₚ block <$> delete i (live s)) by (rewrite HuY in Hu; by apply Permutation_cons_inv in Hu).
  split; [done|done|done|]. intros x v [Hx Hn]%map_lookup_filter_Some. simpl in Hn.
  destruct (hl_written _ _ _ Hh x v Hx) as [Hv (b' & Hb' & Hin)].
  assert (Hb2 : b' ∈ delete i (live s)) by (rewrite Hperm in Hb'; apply elem_of_cons in Hb' as [->|]; done).
  split; [|by exists b']. rewrite <- Hv. destruct Hi as [_ Hi]. apply (Hi (b'.1 - 8) (headers b'.2)).
  - rewrite HuY'. by apply (list_elem_of_fmap_2 block).
  - pose proof (headers_bytes b'.2). unfold inside in Hin. lia.
Qed.

Lemma serve_put t w X s i off v :
  holds w X s -> exists s' w', exec t (serve base freep fuel (Put i off v) s) w = Some (s', w') /\ served w X s' w'.
Proof.
  intros Hh. cbn [serve]. destruct (live s !! i) as [b|] eqn:Eb; [|exists s, w; split; [done|by apply served_same]].
  destruct ((0 <=? off) && (4 * off + 4 <=? b.2)) eqn:Eo; [|exists s, w; split; [done|by apply served_same]]. to_prop.
  assert (Hin : block b ∈ used lo X) by (rewrite (hl_used _ _ _ Hh); apply list_elem_of_fmap_2; by eapply list_elem_of_lookup_2).
  pose proof (headers_bytes b.2).
  pose proof (tiled_store w X (b.1 - 8) (headers b.2) (b.1 + 4 * off) (u32 v) (hl_tiled _ _ _ Hh) Hin ltac:(lia)) as Ht.
  destruct (tiled_mapped w X (b.1 - 8) (headers b.2) (off + 2) (hl_tiled _ _ _ Hh) Hin ltac:(lia)) as [y Hy].
  replace (b.1 - 8 + 4 * (off + 2)) with (b.1 + 4 * off) in Hy by lia.
  eexists _, (w <| heap ::= <[b.1 + 4 * off := u32 v]> |>). split; [cbn; by rewrite Hy|]. exists X. split_and!; [|lia|done..].
  split; [done|apply Hh|apply Hh|]. cbn. intros x z Hx. apply lookup_insert_Some in Hx as [[<- <-]|[Hne Hx]].
  - rewrite lookup_insert_eq. split; [done|]. exists b. split; [by eapply list_elem_of_lookup_2|]. unfold inside. lia.
  - rewrite lookup_insert_ne by done. by apply (hl_written _ _ _ Hh).
Qed.

Lemma session_run t rs w X s :
  holds w X s -> Forall request_ok rs -> brk_max w < 2 ^ 31 -> (2 * length X + 4 * length rs + 4 <= fuel)%nat ->
  exists s' w' Y, exec t (session base freep fuel rs s) w = Some (s', w') /\ holds w' Y s' /\ mxs w' = mxs w.
Proof.
  intros Hh Hr. revert w X s Hh. induction Hr as [|r rs Hr _ IH]; intros w X s Hh Hbm Hf; cbn [session length] in *.
  - exists s, w, X. done.
  - assert (Hserve : exists s' w', exec t (serve base freep fuel r s) w = Some (s', w') /\ served w X s' w').
    { destruct r; [apply serve_malloc; try done; lia|apply serve_free; [done|lia]|by apply serve_put]. }
    destruct Hserve as (s1 & w1 & E & Y & HY & Hl & Hb & Hm). erewrite exec_then by exact E.
    destruct (IH w1 Y s1 HY) as (s2 & w2 & Z' & E2 & H2 & Hm2); [lia..|]. exists s2, w2, Z'. split_and!; [done..|congruence].
Qed.
End Correct.

(** ** Theorem *)

(** C12: A program that has not called the allocator yet may make any sequence of calls
    of malloc for at most 2^31 - 16 bytes each ([request_ok]), of free on blocks it has,
    and of stores into its blocks, in a kernel that gives it no memory from 2^31 on: no
    call faults or runs for ever.  (A larger request makes [morecore] pass a negative
    size to sbrk, see [malloc_shrinks].)  At every end the blocks it has are the blocks in use, each large
    enough and apart from the others, every word it has written is where it wrote it,
    and the allocator has not touched its mutexes. *)
Theorem umalloc_session {M T} `{MutexApi M T} base freep lo fuel (t : T) (w : world M) rs :
  layout base freep lo -> untouched base freep lo (heap w) (brk w) -> Forall request_ok rs -> brk_max w < 2 ^ 31 ->
  (4 * length rs + 4 <= fuel)%nat ->
  exists s w' X, exec t (session base freep fuel rs (Holdings [] ∅)) w = Some (s, w') /\
    tiled base freep lo w' X /\ coalesced X /\ used lo X ≡ₚ (fun b => (b.1 - 8, headers b.2)) <$> live s /\
    (forall i j b c, i <> j -> live s !! i = Some b -> live s !! j = Some c -> b.1 + b.2 <= c.1 \/ c.1 + c.2 <= b.1) /\
    (forall x v, written s !! x = Some v -> heap w' !! x = Some v) /\ mxs w' = mxs w.
Proof.
  intros Hlay Hun Hr Hbm Hf.
  destruct (session_run base freep lo Hlay fuel t rs w [] (Holdings [] ∅)) as (s & w' & X & E & Hh & Hm); [|done|done|simpl; lia|].
  { split; [by left|done|done|]. intros x v Hx. simpl in Hx. by apply lookup_empty_Some in Hx. }
  exists s, w', X. split_and!; [done|apply Hh..| | |done]; [|intros x v Hx; by apply (hl_written _ _ _ _ _ _ Hh)].
  intros i j b c Hne Hb Hc. pose proof (tiled_sized _ _ _ _ _ (hl_tiled _ _ _ _ _ _ Hh)) as Hs.
  destruct (used_disjoint lo X Hs) as [Hnd Hd]. pose proof (hl_used _ _ _ _ _ _ Hh) as Hu.
  pose proof (headers_bytes b.2). pose proof (headers_bytes c.2). rewrite Hu in Hnd.
  assert (Hbc : block b <> block c).
  { intros Ebc. apply Hne. apply (NoDup_lookup _ _ _ (block b) Hnd); rewrite list_lookup_fmap; [by rewrite Hb|by rewrite Hc, Ebc]. }
  pose proof (Hd (b.1 - 8) (headers b.2) (c.1 - 8) (headers c.2)) as Hdj.
  assert (block b ∈ used lo X /\ block c ∈ used lo X) as [? ?].
  { rewrite Hu. split; apply list_elem_of_fmap_2; by eapply list_elem_of_lookup_2. }
  specialize (Hdj ltac:(done) ltac:(done) Hbc). lia.
Qed.

Definition some_requests : list request := [Malloc 100; Put 0 3 7; Malloc 20; Free 1; Malloc 50; Put 0 0 9].

Lemma umalloc_session_witness :
  Forall request_ok some_requests /\
  exists s w' X, exec (T := nat * nat) (0%nat, 0%nat) (session 16 32 28 some_requests (Holdings [] ∅)) new_process = Some (s, w') /\
    tiled 16 32 4096 w' X /\ coalesced X /\ used 4096 X ≡ₚ (fun b => (b.1 - 8, headers b.2)) <$> live s /\
    (forall i j b c, i <> j -> live s !! i = Some b -> live s !! j = Some c -> b.1 + b.2 <= c.1 \/ c.1 + c.2 <= b.1) /\
    (forall x v, written s !! x = Some v -> heap w' !! x = Some v) /\ mxs w' = mxs new_process.
Proof.
  split; [repeat constructor; simpl; lia|].
  apply (umalloc_session 16 32 4096 28 (0%nat, 0%nat) new_process some_requests new_layout new_untouched).
  - repeat constructor; simpl; lia.
  - by vm_compute.
  - simpl. lia.
Defined.
