(* ===== verification/Tournament.v ===== *)
(** * The tournament tree (tournament_tree.c)

    A lock for 2^depth threads built from the kernel's mutexes: thread [ID]
    locks the nodes on its way from its leaf to the root, and unlocks them from
    the root down. *)
From S2P Require Import Prelude User Umalloc.
Local Open Scope Z_scope.
Local Open Scope user_scope.

(** ** struct trnmnt_tree: the addresses of its fields *)
Definition t_depth (tree : Z) : Z := tree.
Definition t_threads (tree : Z) : Z := tree + 4.
Definition t_total_nodes (tree : Z) : Z := tree + 8.
Definition t_killed (tree : Z) : Z := tree + 12.
Definition t_num_of_locked (tree : Z) : Z := tree + 16.
Definition t_lock (tree : Z) : Z := tree + 20.
Definition t_taken_ids (tree : Z) : Z := tree + 24.
Definition t_nodes (tree : Z) : Z := tree + 28.
Definition tree_size : Z := 32.

(** [p[i]] for an [int *p]. *)
Definition elem (p i : Z) : Z := u32 (p + 4 * i).

Section Tree.
Context (base freep : Z) (fuel : nat).

(** for(i=0;i<nodes;i++) array_of_locks[i]=kthread_mutex_alloc(); *)
Fixpoint alloc_nodes (array : Z) (i : Z) (n : nat) : prog unit :=
  match n with
  | O => Done tt
  | S n' =>
    let! id := sys MutexAlloc in
    store (elem array i) id ;!;
    alloc_nodes array (i + 1) n'
  end.

Definition trnmnt_tree_alloc (depth : Z) : prog Z :=
  let nodes := Nat.iter (Z.to_nat (depth + 1)) (fun nodes => s32 (nodes * 2)) 1 in
  let threads := Z.quot nodes 2 in
  let nodes := s32 (nodes - 1) in
  let! lock := sys MutexAlloc in
  sys (MutexLock lock) ;!;
  let! tree := malloc base freep fuel tree_size in
  store (t_lock tree) lock ;!;
  let! array_of_locks := malloc base freep fuel (u32 (nodes * 4)) in
  let! array_of_taken_ids := malloc base freep fuel (u32 (threads * 4)) in
  store (t_threads tree) threads ;!;
  store (t_depth tree) depth ;!;
  store (t_total_nodes tree) nodes ;!;
  alloc_nodes array_of_locks 0 (Z.to_nat nodes) ;!;
  store (t_nodes tree) array_of_locks ;!;
  store (t_taken_ids tree) array_of_taken_ids ;!;
  let! lk := load_int (t_lock tree) in
  sys (MutexUnlock lk) ;!;
  Done tree.

(** for(i=0;i<nodes;i++) kthread_mutex_dealloc(tree->nodes[i]); *)
Fixpoint dealloc_nodes (tree i : Z) (n : nat) : prog unit :=
  match n with
  | O => Done tt
  | S n' =>
    let! nodes := load_uint (t_nodes tree) in
    let! id := load_int (elem nodes i) in
    sys (MutexDealloc id) ;!;
    dealloc_nodes tree (i + 1) n'
  end.

Definition trnmnt_tree_dealloc (tree : Z) : prog Z :=
  if tree =? 0 then Done (-1) else
  let! lk := load_int (t_lock tree) in
  sys (MutexLock lk) ;!;
  let! locked := load_int (t_num_of_locked tree) in
  if c_true locked then
    let! lk := load_int (t_lock tree) in
    sys (MutexUnlock lk) ;!;
    Done (-1)
  else
    let! nodes := load_int (t_total_nodes tree) in
    dealloc_nodes tree 0 (Z.to_nat nodes) ;!;
    store (t_killed tree) 1 ;!;
    let! array := load_uint (t_nodes tree) in
    free freep fuel array ;!;
    let! taken := load_uint (t_taken_ids tree) in
    free freep fuel taken ;!;
    free freep fuel tree ;!;
    let! lk := load_int (t_lock tree) in
    sys (MutexUnlock lk) ;!;
    Done 0.
End Tree.

(** The loop of [trnmnt_tree_acquire] that climbs to the root.  An [int] holds
    2^(depth+1) - 1 only for a depth below 31, so 32 rounds are enough. *)
Fixpoint climb (fuel : nat) (tree parent i : Z) : prog Z :=
  match fuel with
  | O => Wrong "climb: out of fuel"
  | S fuel' =>
    let! depth := load_int (t_depth tree) in
    if i <? depth then
      let parent := Z.quot (s32 (parent - 1)) 2 in
      let! nodes := load_uint (t_nodes tree) in
      let! id := load_int (elem nodes parent) in
      let! r := sys (MutexLock id) in
      if c_true r then Done (-1) else climb fuel' tree parent (i + 1)
    else Done 0
  end.

Definition trnmnt_tree_acquire (tree ID : Z) : prog Z :=
  if tree =? 0 then Done (-1) else
  let! threads := load_int (t_threads tree) in
  if s32 (threads - 1) <? ID then Done (-1) else
  let! lk := load_int (t_lock tree) in
  sys (MutexLock lk) ;!;
  let! ids := load_uint (t_taken_ids tree) in
  let! taken := load_int (elem ids ID) in
  if c_true taken then
    let! lk := load_int (t_lock tree) in
    sys (MutexUnlock lk) ;!;
    Done (-1)
  else
    let! ids := load_uint (t_taken_ids tree) in
    store (elem ids ID) 1 ;!;
    let! n := load_int (t_num_of_locked tree) in
    store (t_num_of_locked tree) (n + 1) ;!;
    let! lk := load_int (t_lock tree) in
    sys (MutexUnlock lk) ;!;
    let! total := load_int (t_total_nodes tree) in
    let! threads := load_int (t_threads tree) in
    let real_index_in_tree := s32 (total - threads + ID) in
    climb 32 tree real_index_in_tree 0.

(** The recursion of [release_lock]; its operands are evaluated from left to
    right, as gcc does.  From a nonnegative [parent] the root is at most 31
    calls away. *)
Fixpoint release_lock (fuel : nat) (tree parent : Z) : prog Z :=
  match fuel with
  | O => Wrong "release_lock: the stack is exhausted"
  | S fuel' =>
    if parent =? 0 then
      let! nodes := load_uint (t_nodes tree) in
      let! id := load_int (elem nodes 0) in
      sys (MutexUnlock id)
    else
      let! above := release_lock fuel' tree (Z.quot (s32 (parent - 1)) 2) in
      let! nodes := load_uint (t_nodes tree) in
      let! id := load_int (elem nodes parent) in
      let! r := sys (MutexUnlock id) in
      Done (s32 (above + r))
  end.

Definition trnmnt_tree_release (tree ID : Z) : prog Z :=
  if tree =? 0 then Done (-1) else
  let! threads := load_int (t_threads tree) in
  if s32 (threads - 1) <? ID then Done (-1) else
  let! lk := load_int (t_lock tree) in
  sys (MutexLock lk) ;!;
  let! ids := load_uint (t_taken_ids tree) in
  let! taken := load_int (elem ids ID) in
  if negb (c_true taken) then
    let! lk := load_int (t_lock tree) in
    sys (MutexUnlock lk) ;!;
    Done (-1)
  else
    let! lk := load_int (t_lock tree) in
    sys (MutexUnlock lk) ;!;
    let! total := load_int (t_total_nodes tree) in
    let! threads := load_int (t_threads tree) in
    let real_index_in_tree := s32 (total - threads + ID) in
    let parent := Z.quot (s32 (real_index_in_tree - 1)) 2 in
    let! success := release_lock 32 tree parent in
    if c_true success then Done (-1) else
    let! lk := load_int (t_lock tree) in
    sys (MutexLock lk) ;!;
    let! ids := load_uint (t_taken_ids tree) in
    store (elem ids ID) 0 ;!;
    let! n := load_int (t_num_of_locked tree) in
    store (t_num_of_locked tree) (n - 1) ;!;
    let! lk := load_int (t_lock tree) in
    sys (MutexUnlock lk) ;!;
    Done 0.
