(* ===== verification/TournamentSpec.v ===== *)
(** * The tournament tree: invariant and program logic

    2^depth threads call [trnmnt_tree_acquire] and [trnmnt_tree_release] on one
    tree, in any interleaving of their accesses to memory and their system
    calls.  Each thread has a ghost state: whether it holds [tree->lock], its
    entry of [taken_ids], the number of nodes it has locked on its way to the
    root, and what it knows of [num_of_locked].  [wp] says what one thread may do
    in its ghost state; [inv] ties the ghost states to memory and mutexes. *)
From S2P Require Import Prelude User Umalloc Tournament.
Local Open Scope Z_scope.
Local Open Scope user_scope.

Record ghost := Ghost {
  g_tl : bool;          (* holds tree->lock *)
  g_tk : bool;          (* taken_ids[j] *)
  g_np : nat;           (* nodes locked, from the leaf up *)
  g_df : Z;             (* what it still has to add to num_of_locked *)
  g_sn : option Z       (* the value it has read from num_of_locked *)
}.
#[export] Instance eta_ghost : Eta ghost := fun g => Ghost (g_tl g) (g_tk g) (g_np g) (g_df g) (g_sn g).

Definition idle : ghost := Ghost false false 0 0 None.
Definition b2z (b : bool) : Z := if b then 1 else 0.

(** ** Nodes: [anc d j n] is the ancestor of leaf [j], [n] levels up *)
Definition anc (d : nat) (j : nat) (n : nat) : Z := (2 ^ Z.of_nat d + Z.of_nat j) / 2 ^ Z.of_nat n - 1.

Section Nodes.
Context (d : nat) (j : nat) (Hj : Z.of_nat j < 2 ^ Z.of_nat d).

Lemma anc_leaf : anc d j 0 = 2 ^ Z.of_nat d - 1 + Z.of_nat j.
Proof. unfold anc. rewrite Z.div_1_r. lia. Qed.

Lemma anc_pos n : (n <= d)%nat -> 2 ^ Z.of_nat (d - n) <= anc d j n + 1 < 2 * 2 ^ Z.of_nat (d - n).
Proof.
  intros Hn. unfold anc. replace (Z.of_nat d) with (Z.of_nat (d - n) + Z.of_nat n) in * by lia.
  rewrite Z.pow_add_r in * by lia. set (a := 2 ^ Z.of_nat (d - n)) in *. set (b := 2 ^ Z.of_nat n) in *.
  assert (0 < b) by (apply Z.pow_pos_nonneg; lia). rewrite (Z.add_comm (a * b)), Z.div_add by lia.
  assert (0 <= Z.of_nat j / b < a); [|lia].
  split; [apply Z.div_pos; lia|apply Z.div_lt_upper_bound; lia].
Qed.

Lemma anc_root : anc d j d = 0.
Proof. pose proof (anc_pos d ltac:(lia)) as H. rewrite Nat.sub_diag in H. cbn in H. lia. Qed.

Lemma anc_level n : (n <= d)%nat -> Z.log2 (anc d j n + 1) = Z.of_nat (d - n).
Proof. intros Hn. apply Z.log2_unique; [lia|]. pose proof (anc_pos n Hn). by rewrite Z.pow_succ_r by lia. Qed.

(** [(parent-1)/2]. *)
Lemma anc_parent n : (n < d)%nat -> anc d j (S n) = (anc d j n - 1) / 2 /\ 1 <= anc d j n.
Proof.
  intros Hn. pose proof (anc_pos n ltac:(lia)) as Hp.
  assert (2 <= 2 ^ Z.of_nat (d - n)).
  { change 2 with (2 ^ 1) at 1. apply Z.pow_le_mono_r; lia. }
  split; [|lia]. unfold anc at 1. rewrite Nat2Z.inj_succ, Z.pow_succ_r, (Z.mul_comm 2), <- Z.div_div by lia.
  unfold anc in *. set (q := _ / 2 ^ Z.of_nat n) in *. replace (q - 1 - 1) with (q + (-1) * 2) by lia. by rewrite Z.div_add by lia.
Qed.

Lemma anc_range n : (n <= d)%nat -> 0 <= anc d j n < 2 * 2 ^ Z.of_nat d - 1.
Proof.
  intros Hn. pose proof (anc_pos n Hn). assert (2 ^ Z.of_nat (d - n) <= 2 ^ Z.of_nat d) by (apply Z.pow_le_mono_r; lia).
  assert (0 < 2 ^ Z.of_nat (d - n)) by (apply Z.pow_pos_nonneg; lia). lia.
Qed.
End Nodes.

Lemma anc_same_level d i j n m :
  Z.of_nat i < 2 ^ Z.of_nat d -> Z.of_nat j < 2 ^ Z.of_nat d -> (n <= d)%nat -> (m <= d)%nat ->
  anc d i n = anc d j m -> n = m.
Proof.
  intros Hi Hj Hn Hm He. pose proof (anc_level d i Hi n Hn) as H1. pose proof (anc_level d j Hj m Hm) as H2.
  rewrite He in H1. lia.
Qed.

(** ** What a thread may do *)

(** Where a tree is and how it is built. *)
Record shape := Shape {
  sh_tree : Z;            (* the struct *)
  sh_lock : Z;            (* the mutex tree->lock *)
  sh_taken : Z;           (* the array taken_ids *)
  sh_nodes : Z;           (* the array nodes *)
  sh_depth : nat;
  sh_node : Z -> Z        (* the mutex of a node *)
}.

Definition leaves (x : shape) : nat := Z.to_nat (2 ^ Z.of_nat (sh_depth x)).
Definition total (x : shape) : Z := 2 * 2 ^ Z.of_nat (sh_depth x) - 1.
Definition taken_at (x : shape) (j : nat) : Z := sh_taken x + 4 * Z.of_nat j.
Definition node_at (x : shape) (i : Z) : Z := sh_nodes x + 4 * i.

(** The words no thread changes. *)
Inductive fixed (x : shape) : Z -> Z -> Prop :=
| fixed_depth : fixed x (t_depth (sh_tree x)) (Z.of_nat (sh_depth x))
| fixed_threads : fixed x (t_threads (sh_tree x)) (2 ^ Z.of_nat (sh_depth x))
| fixed_total : fixed x (t_total_nodes (sh_tree x)) (total x)
| fixed_lock : fixed x (t_lock (sh_tree x)) (sh_lock x)
| fixed_taken : fixed x (t_taken_ids (sh_tree x)) (sh_taken x)
| fixed_nodes : fixed x (t_nodes (sh_tree x)) (sh_nodes x)
| fixed_node i : 0 <= i < total x -> fixed x (node_at x i) (sh_node x i).

(** The mutexes of the tree. *)
Inductive of_tree (x : shape) : Z -> Prop :=
| of_lock : of_tree x (sh_lock x)
| of_node i : 0 <= i < total x -> of_tree x (sh_node x i).

(** The struct and the arrays are apart, in the address space, and every node has
    a mutex of its own. *)
Record shape_ok (x : shape) : Prop := {
  so_depth : (1 <= sh_depth x <= 29)%nat;
  so_tree : 0 < sh_tree x /\ sh_tree x + 32 <= 2 ^ 32;
  so_taken : 0 <= sh_taken x /\ sh_taken x + 4 * Z.of_nat (leaves x) <= 2 ^ 32;
  so_nodes : 0 <= sh_nodes x /\ sh_nodes x + 4 * total x <= 2 ^ 32;
  so_apart1 : sh_taken x + 4 * Z.of_nat (leaves x) <= sh_tree x \/ sh_tree x + 32 <= sh_taken x;
  so_apart2 : sh_nodes x + 4 * total x <= sh_tree x \/ sh_tree x + 32 <= sh_nodes x;
  so_apart3 : sh_nodes x + 4 * total x <= sh_taken x \/ sh_taken x + 4 * Z.of_nat (leaves x) <= sh_nodes x;
  so_ids : forall id, of_tree x id -> 0 < id < 2 ^ 31;
  so_lock : forall i, 0 <= i < total x -> sh_node x i <> sh_lock x;
  so_node : forall i k, 0 <= i < total x -> 0 <= k < total x -> sh_node x i = sh_node x k -> i = k
}.

(** The node that leaf [j] locks after [n] others. *)
Definition rung (x : shape) (j n : nat) : Z := sh_node x (anc (sh_depth x) j (S n)).

Definition holds (x : shape) (g : ghost) (j : nat) (id : Z) : Prop :=
  (id = sh_lock x /\ g_tl g = true) \/ exists n, (n < g_np g)%nat /\ id = rung x j n.

Definition full (x : shape) : ghost := Ghost false true (sh_depth x) 0 None.

(** [wp x j p g Q]: from ghost state [g], thread [j] may run [p] on the tree [x],
    whatever the other threads do, and ends with [Q].  Only [tree->lock] is
    requested while other mutexes are held from below, a path is locked from the
    leaf up and unlocked from the root down, and [num_of_locked] is accessed
    under [tree->lock]. *)
Fixpoint wp {A} (x : shape) (j : nat) (p : prog A) (g : ghost) (Q : A -> ghost -> Prop) : Prop :=
  match p with
  | Done a => Q a g
  | Wrong _ => False
  | Load a k =>
    (exists v, fixed x a v /\ wp x j (k v) g Q) \/
    (a = taken_at x j /\ wp x j (k (b2z (g_tk g))) g Q) \/
    (a = t_num_of_locked (sh_tree x) /\ g_tl g = true /\ forall v, wp x j (k v) (g <| g_sn := Some v |>) Q)
  | Store a v k =>
    (a = taken_at x j /\ g_tl g = true /\ g_sn g = None /\ g_df g = 0 /\
     exists b, v = b2z b /\ b <> g_tk g /\ wp x j k (g <| g_tk := b |> <| g_df := b2z (g_tk g) - b2z b |>) Q) \/
    (a = t_num_of_locked (sh_tree x) /\ g_tl g = true /\
     exists n, g_sn g = Some n /\ v = u32 (s32 n - g_df g) /\ wp x j k (g <| g_df := 0 |> <| g_sn := None |>) Q)
  | Sys (MutexLock id) k =>
    g_tl g = false /\
    ((id = sh_lock x /\ wp x j (k 0) (g <| g_tl := true |>) Q) \/
     (id = rung x j (g_np g) /\ (g_np g < sh_depth x)%nat /\ wp x j (k 0) (g <| g_np ::= S |>) Q))
  | Sys (MutexUnlock id) k =>
    (id = sh_lock x /\ g_tl g = true /\ g_df g = 0 /\ wp x j (k 0) (g <| g_tl := false |> <| g_sn := None |>) Q) \/
    (exists n, g_np g = S n /\ id = rung x j n /\ wp x j (k 0) (g <| g_np := n |>) Q)
  | Sys _ _ => False
  end.

Lemma leaves_Z x : Z.of_nat (leaves x) = 2 ^ Z.of_nat (sh_depth x).
Proof. unfold leaves. apply Z2Nat.id. apply Z.pow_nonneg. lia. Qed.

Lemma leaves_bound x : shape_ok x -> 2 <= 2 ^ Z.of_nat (sh_depth x) <= 2 ^ 29.
Proof. intros [Hd]. split; [change 2 with (2 ^ 1) at 1|]; apply Z.pow_le_mono_r; lia. Qed.

Section Rules.
Context (x : shape) (Hx : shape_ok x) (j : nat) (Hj : (j < leaves x)%nat).

Lemma wp_mono {A} (p : prog A) g (Q Q' : A -> ghost -> Prop) :
  (forall a g', Q a g' -> Q' a g') -> wp x j p g Q -> wp x j p g Q'.
Proof.
  intros HQ. revert g. induction p as [| |a k IH|a v k IH|c k IH]; intros g; cbn; [apply HQ|done| | |].
  - intros [(v & ? & ?)|[(? & ?)|(? & ? & ?)]]; [left|right; left|right; right]; naive_solver.
  - intros [(? & ? & ? & ? & b & ? & ? & ?)|(? & ? & n & ? & ? & ?)]; [left|right]; naive_solver.
  - destruct c; try done.
    + intros [? [(? & ?)|(? & ? & ?)]]; (split; [done|]); [left|right]; naive_solver.
    + intros [(? & ? & ? & ?)|(n & ? & ? & ?)]; [left|right]; naive_solver.
Qed.

Lemma wp_then {A B} (p : prog A) (f : A -> prog B) g Q :
  wp x j p g (fun a g' => wp x j (f a) g' Q) -> wp x j (andthen p f) g Q.
Proof.
  revert g. induction p as [| |a k IH|a v k IH|c k IH]; intros g; cbn; [done|done| | |].
  - intros [(v & ? & ?)|[(? & ?)|(? & ? & ?)]]; [left|right; left|right; right]; naive_solver.
  - intros [(? & ? & ? & ? & b & ? & ? & ?)|(? & ? & n & ? & ? & ?)]; [left|right]; naive_solver.
  - destruct c; try done.
    + intros [? [(? & ?)|(? & ? & ?)]]; (split; [done|]); [left|right]; naive_solver.
    + intros [(? & ? & ? & ?)|(n & ? & ? & ?)]; [left|right]; naive_solver.
Qed.

Lemma leaf_Z : Z.of_nat j < 2 ^ Z.of_nat (sh_depth x).
Proof. pose proof (leaves_Z x). lia. Qed.
Lemma wp_int {A} a v (k : Z -> prog A) g Q :
  fixed x a v -> 0 <= v < 2 ^ 31 -> wp x j (k v) g Q -> wp x j (andthen (load_int a) k) g Q.
Proof. intros Hf Hv Hk. cbn. left. exists v. split; [done|]. by rewrite s32_small by lia. Qed.

Lemma wp_uint {A} a v (k : Z -> prog A) g Q :
  fixed x a v -> 0 <= v < 2 ^ 32 -> wp x j (k v) g Q -> wp x j (andthen (load_uint a) k) g Q.
Proof. intros Hf Hv Hk. cbn. left. exists v. split; [done|]. by rewrite u32_small by lia. Qed.

Lemma wp_taken {A} (k : Z -> prog A) g Q :
  wp x j (k (b2z (g_tk g))) g Q -> wp x j (andthen (load_int (taken_at x j)) k) g Q.
Proof. intros Hk. cbn. right. left. split; [done|]. by rewrite s32_small by (destruct (g_tk g); cbn; lia). Qed.

(** Entering and leaving the section under [tree->lock]. *)
Lemma wp_lock {A} (k : Z -> prog A) g Q :
  g_tl g = false -> wp x j (k 0) (g <| g_tl := true |>) Q ->
  wp x j (let! lk := load_int (t_lock (sh_tree x)) in let! r := sys (MutexLock lk) in k r) g Q.
Proof.
  intros Hg Hk. pose proof (so_ids x Hx _ (of_lock x)). eapply wp_int; [constructor|lia|]. cbn. auto.
Qed.
Lemma wp_unlock {A} (k : Z -> prog A) g Q :
  g_tl g = true -> g_df g = 0 -> wp x j (k 0) (g <| g_tl := false |> <| g_sn := None |>) Q ->
  wp x j (let! lk := load_int (t_lock (sh_tree x)) in let! r := sys (MutexUnlock lk) in k r) g Q.
Proof.
  intros Hg Hd Hk. pose proof (so_ids x Hx _ (of_lock x)). eapply wp_int; [constructor|lia|]. cbn. auto.
Qed.

Lemma elem_taken : elem (sh_taken x) (Z.of_nat j) = taken_at x j.
Proof. unfold elem. apply u32_small. pose proof (so_taken x Hx). unfold taken_at. lia. Qed.

(** taken_ids[ID] = b, then num_of_locked is adjusted. *)
Lemma wp_take {A} b dn (k : unit -> prog A) g Q :
  g_tl g = true -> g_sn g = None -> g_df g = 0 -> g_tk g = negb b -> dn = b2z b - b2z (negb b) ->
  wp x j (k tt) (g <| g_tk := b |>) Q ->
  wp x j (let! ids := load_uint (t_taken_ids (sh_tree x)) in
          store (elem ids (Z.of_nat j)) (b2z b) ;!;
          let! n := load_int (t_num_of_locked (sh_tree x)) in
          let! u := store (t_num_of_locked (sh_tree x)) (n + dn) in k u) g Q.
Proof.
  intros Hl Hs Hd Ht -> Hk. pose proof (so_taken x Hx). eapply wp_uint; [constructor|lia|].
  rewrite elem_taken. cbn. left. rewrite u32_small by (destruct b; cbn; lia).
  split_and!; [done..|]. exists b. split_and!; [done|rewrite Ht; by destruct b|].
  right. right. split_and!; [done..|]. intros n. right. split_and!; [done..|]. exists n. split_and!; [done| |].
  - cbn. rewrite Ht. f_equal. lia.
  - destruct g as [? ? ? ? ?]; cbn in *; subst; cbn. exact Hk.
Qed.

Lemma wp_node {A} n (k : Z -> prog A) g Q :
  (n < sh_depth x)%nat -> (forall id, id = rung x j n -> wp x j (k id) g Q) ->
  wp x j (let! nodes := load_uint (t_nodes (sh_tree x)) in
          let! id := load_int (elem nodes (anc (sh_depth x) j (S n))) in k id) g Q.
Proof.
  intros Hn Hk. pose proof (so_nodes x Hx). pose proof (leaves_bound x Hx). unfold total in *.
  pose proof (anc_range _ _ leaf_Z (S n) ltac:(lia)) as Hr. eapply wp_uint; [constructor|lia|].
  unfold elem. rewrite u32_small by lia. eapply wp_int; [by apply fixed_node| |by apply Hk].
  pose proof (so_ids x Hx _ (of_node x _ Hr)). lia.
Qed.

Lemma climb_step n : (n < sh_depth x)%nat -> Z.quot (s32 (anc (sh_depth x) j n - 1)) 2 = anc (sh_depth x) j (S n).
Proof.
  intros Hn. destruct (anc_parent _ _ leaf_Z n Hn) as [-> Hp]. pose proof (leaves_bound x Hx).
  pose proof (anc_range _ _ leaf_Z n ltac:(lia)). rewrite s32_small by lia. apply Z.quot_div_nonneg; lia.
Qed.

Lemma wp_climb fuel n (i : Z) Q g :
  (sh_depth x - n < fuel)%nat -> (n <= sh_depth x)%nat -> i = Z.of_nat n -> g = Ghost false true n 0 None ->
  Q 0 (full x) -> wp x j (climb fuel (sh_tree x) (anc (sh_depth x) j n) i) g Q.
Proof.
  revert n i g. induction fuel as [|fuel IH]; intros n i g Hf Hn -> -> HQ; [lia|]. cbn [climb].
  pose proof (so_depth x Hx). eapply wp_int; [constructor|lia|]. destruct (Z.ltb_spec (Z.of_nat n) (Z.of_nat (sh_depth x))).
  - rewrite climb_step by lia. apply wp_node; [lia|]. intros id ->. cbn. split; [done|]. right.
    split_and!; [done|lia|]. apply IH; [lia|lia|lia|done|done].
  - assert (n = sh_depth x) as -> by lia. done.
Qed.

Lemma wp_acquire :
  wp x j (trnmnt_tree_acquire (sh_tree x) (Z.of_nat j)) idle (fun r g => r = 0 /\ g = full x).
Proof.
  pose proof (so_tree x Hx). pose proof (so_depth x Hx). pose proof (leaves_bound x Hx). pose proof leaf_Z.
  unfold trnmnt_tree_acquire. rewrite (proj2 (Z.eqb_neq _ _)) by lia.
  eapply wp_int; [constructor|lia|]. rewrite s32_small, (proj2 (Z.ltb_ge _ _)) by lia.
  apply wp_lock; [done|]. pose proof (so_taken x Hx). eapply wp_uint; [constructor|lia|].
  rewrite elem_taken. apply wp_taken. cbn [g_tk idle setter b2z c_true negb].
  apply (wp_take true); [done..|]. apply wp_unlock; [done..|].
  eapply wp_int; [constructor|unfold total; lia|]. eapply wp_int; [constructor|lia|].
  rewrite s32_small by (unfold total; lia).
  replace (total x - 2 ^ Z.of_nat (sh_depth x) + Z.of_nat j) with (anc (sh_depth x) j 0) by (rewrite anc_leaf; unfold total; lia).
  by apply wp_climb; [lia..| |].
Qed.
Lemma anc_zero n : (n <= sh_depth x)%nat -> anc (sh_depth x) j n = 0 <-> n = sh_depth x.
Proof.
  intros Hn. split; [|intros ->; apply anc_root, leaf_Z]. intros Ha.
  destruct (decide (n = sh_depth x)) as [|Hne]; [done|].
  destruct (anc_parent _ _ leaf_Z n ltac:(lia)). lia.
Qed.

Lemma wp_release_lock fuel n Q :
  (sh_depth x - S n < fuel)%nat -> (S n <= sh_depth x)%nat -> Q 0 (Ghost false true n 0 None) ->
  wp x j (release_lock fuel (sh_tree x) (anc (sh_depth x) j (S n))) (full x) Q.
Proof.
  revert n Q. induction fuel as [|fuel IH]; intros n Q Hf Hn HQ; [lia|]. cbn [release_lock].
  destruct (Z.eqb_spec (anc (sh_depth x) j (S n)) 0) as [Hz|Hz].
  - rewrite <- Hz. apply wp_node; [lia|]. intros id ->. cbn. right. exists n.
    apply anc_zero in Hz; [|lia]. by rewrite Hz.
  - assert (S n <> sh_depth x) by (intros He; apply Hz; by apply anc_zero).
    apply wp_then. rewrite climb_step by lia. apply IH; [lia|lia|].
    apply wp_node; [lia|]. intros id ->. cbn. right. exists n. by split_and!.
Qed.

Lemma wp_release :
  wp x j (trnmnt_tree_release (sh_tree x) (Z.of_nat j)) (full x) (fun r g => r = 0 /\ g = idle).
Proof.
  pose proof (so_tree x Hx). pose proof (so_depth x Hx). pose proof (leaves_bound x Hx). pose proof leaf_Z.
  unfold trnmnt_tree_release. rewrite (proj2 (Z.eqb_neq _ _)) by lia.
  eapply wp_int; [constructor|lia|]. rewrite s32_small, (proj2 (Z.ltb_ge _ _)) by lia.
  apply wp_lock; [done|]. pose proof (so_taken x Hx). eapply wp_uint; [constructor|lia|].
  rewrite elem_taken. apply wp_taken. cbn [g_tk full setter b2z c_true negb].
  apply wp_unlock; [done..|]. eapply wp_int; [constructor|unfold total; lia|]. eapply wp_int; [constructor|lia|].
  rewrite (s32_small (total x - 2 ^ Z.of_nat (sh_depth x) + Z.of_nat j)) by (unfold total; lia).
  replace (total x - 2 ^ Z.of_nat (sh_depth x) + Z.of_nat j) with (anc (sh_depth x) j 0) by (rewrite anc_leaf; unfold total; lia).
  rewrite climb_step by lia. apply wp_then, wp_release_lock; [lia..|]. cbn [c_true negb Z.eqb].
  apply wp_lock; [done|]. apply (wp_take false (-1)); [done..|]. by apply wp_unlock.
Qed.
End Rules.
