(* ===== verification/TournamentInv.v ===== *)
(** * The tournament tree: the threads together

    [inv] holds of the memory and the mutexes in every interleaving; a step of
    one thread keeps it, and a thread that sleeps waits for one that is further
    up the tree or holds [tree->lock]. *)
From S2P Require Import Prelude User Umalloc Tournament TournamentSpec.
Local Open Scope Z_scope.

(** ** The sum over the leaves *)
Definition contrib (g : ghost) : Z := b2z (g_tk g) + g_df g.
Definition tally (n : nat) (G : nat -> ghost) : Z := foldr (fun j z => contrib (G j) + z) 0 (seq 0 n).

Lemma tally_S n G : tally (S n) G = tally n G + contrib (G n).
Proof.
  unfold tally. rewrite seq_S, foldr_app. cbn [foldr Nat.add]. generalize (contrib (G n)) as c.
  induction (seq 0 n) as [|k l IH]; intros c; cbn; [lia|]. rewrite IH. lia.
Qed.

Lemma tally_ext n G G' : (forall j, (j < n)%nat -> contrib (G j) = contrib (G' j)) -> tally n G = tally n G'.
Proof. induction n as [|n IH]; intros H; [done|]. rewrite !tally_S, H by lia. rewrite IH; [done|]. intros. apply H. lia. Qed.

Lemma tally_update n G j g : (j < n)%nat -> tally n (<[j := g]> G) = tally n G - contrib (G j) + contrib g.
Proof.
  induction n as [|n IH]; intros Hj; [lia|]. rewrite !tally_S. destruct (decide (j = n)) as [->|Hne].
  - rewrite fn_lookup_insert, (tally_ext n (<[n := g]> G) G); [lia|].
    intros k Hk. by rewrite fn_lookup_insert_ne by lia.
  - rewrite fn_lookup_insert_ne by done. rewrite IH by lia. lia.
Qed.

Lemma tally_bound n G : (forall j, (j < n)%nat -> 0 <= contrib (G j) <= 1) -> 0 <= tally n G <= Z.of_nat n.
Proof.
  induction n as [|n IH]; intros H; [done|]. rewrite tally_S. specialize (IH ltac:(intros; apply H; lia)).
  specialize (H n ltac:(lia)). lia.
Qed.

Section Inv.
Context {M T : Type} `{MutexSpec M T}.
Context (x : shape) (Hx : shape_ok x) (thr : nat -> T).
Context (Hthr : forall i j, (i < leaves x)%nat -> (j < leaves x)%nat -> thr i = thr j -> i = j).
Implicit Types w : world M.
Implicit Types G : nat -> ghost.

(** What is known of a ghost state alone. *)
Record local (num : Z) (g : ghost) : Prop := {
  l_out : g_tl g = false -> g_df g = 0 /\ g_sn g = None;
  l_sn : forall v, g_sn g = Some v -> v = num;
  l_np : (g_np g <= sh_depth x)%nat;
  l_one : 0 <= contrib g <= 1
}.

Record inv G w : Prop := {
  i_fixed : forall a v, fixed x a v -> heap w !! a = Some v;
  i_taken : forall j, (j < leaves x)%nat -> heap w !! taken_at x j = Some (b2z (g_tk (G j)));
  i_num : heap w !! t_num_of_locked (sh_tree x) = Some (tally (leaves x) G);
  i_mx : mx_ok (mxs w);
  i_own : forall id, of_tree x id -> exists o, mx_owner (mxs w) id = Some o /\
            (forall t, o = Some t -> exists j, (j < leaves x)%nat /\ t = thr j /\ holds x (G j) j id) /\
            (forall j, (j < leaves x)%nat -> holds x (G j) j id -> o = Some (thr j));
  i_local : forall j, (j < leaves x)%nat -> local (tally (leaves x) G) (G j)
}.

(** The words of the tree are apart. *)
Lemma fixed_taken_apart a v j : fixed x a v -> (j < leaves x)%nat -> a <> taken_at x j.
Proof.
  intros Hf Hj. pose proof (so_apart1 x Hx). pose proof (so_apart3 x Hx). destruct Hf; unfold taken_at, node_at,
    t_depth, t_threads, t_total_nodes, t_lock, t_taken_ids, t_nodes; lia.
Qed.
Lemma fixed_num_apart a v : fixed x a v -> a <> t_num_of_locked (sh_tree x).
Proof.
  intros Hf. pose proof (so_apart2 x Hx). destruct Hf; unfold node_at, t_num_of_locked,
    t_depth, t_threads, t_total_nodes, t_lock, t_taken_ids, t_nodes; lia.
Qed.
Lemma taken_num_apart j : (j < leaves x)%nat -> taken_at x j <> t_num_of_locked (sh_tree x).
Proof. intros Hj. pose proof (so_apart1 x Hx). unfold taken_at, t_num_of_locked. lia. Qed.

(** Two leaves hold no mutex in common. *)
Lemma holds_one G w i j id :
  inv G w -> of_tree x id -> (i < leaves x)%nat -> (j < leaves x)%nat ->
  holds x (G i) i id -> holds x (G j) j id -> i = j.
Proof.
  intros HI Hid Hi Hj H1 H2. destruct (i_own _ _ HI id Hid) as (o & _ & _ & Ho).
  apply Hthr; [done..|]. pose proof (Ho i Hi H1). pose proof (Ho j Hj H2). congruence.
Qed.

(** ** Changes *)

Lemma local_num num num' g : local num g -> (g_sn g = None \/ num' = num) -> local num' g.
Proof. intros [? Hs ? ?] Hn. split; try done. intros v Hv. destruct Hn; [congruence|]. subst. by apply Hs. Qed.

Lemma upd_cases (P : ghost -> nat -> Prop) G j g :
  P g j -> (forall i, (i < leaves x)%nat -> i <> j -> P (G i) i) ->
  forall i, (i < leaves x)%nat -> P ((<[j := g]> G) i) i.
Proof.
  intros Hg HG i Hi. destruct (decide (i = j)) as [->|]; [by rewrite fn_lookup_insert|].
  rewrite fn_lookup_insert_ne by done. by apply HG.
Qed.

(** The ghost state and the owner of the mutex [id] change. *)
Lemma inv_mutex G w j g' id o m' :
  inv G w -> (j < leaves x)%nat -> of_tree x id -> mx_changed (mxs w) id (Some o) m' ->
  (forall i, (i < leaves x)%nat -> i <> j -> ~ holds x (G i) i id) ->
  (o = Some (thr j) /\ holds x g' j id \/ o = None /\ ~ holds x g' j id) ->
  (forall id', id' <> id -> holds x g' j id' <-> holds x (G j) j id') ->
  g_tk g' = g_tk (G j) -> contrib g' = contrib (G j) -> local (tally (leaves x) G) g' ->
  inv (<[j := g']> G) (w <| mxs := m' |>).
Proof.
  intros HI Hj Hid (Hok & Ho & Hoth) Hno Hme Hsame Htk Hc Hl.
  assert (Ht : tally (leaves x) (<[j := g']> G) = tally (leaves x) G) by (rewrite tally_update by done; lia).
  split; cbn; try done.
  - apply (i_fixed _ _ HI).
  - apply (upd_cases (fun g i => heap w !! taken_at x i = Some (b2z (g_tk g)))).
    + rewrite Htk. by apply (i_taken _ _ HI).
    + intros i Hi _. by apply (i_taken _ _ HI).
  - rewrite Ht. apply (i_num _ _ HI).
  - intros id' Hid'. destruct (decide (id' = id)) as [->|Hne].
    + exists o. split_and!; [done| |].
      * intros t ->. destruct Hme as [[[= ->] Hh]|[? _]]; [|done]. exists j. by rewrite fn_lookup_insert.
      * apply (upd_cases (fun g i => holds x g i id -> o = Some (thr i))); [naive_solver|].
        intros i Hi Hne Hh. by destruct (Hno i Hi Hne).
    + destruct (i_own _ _ HI id' Hid') as (o' & Ho' & H1 & H2). exists o'. split_and!.
      * rewrite Hoth; [done| |done]. by apply (so_ids x Hx).
      * intros t Et. destruct (H1 t Et) as (i & Hi & -> & Hh). exists i. split_and!; [done..|].
        destruct (decide (i = j)) as [->|]; [rewrite fn_lookup_insert; by apply Hsame|by rewrite fn_lookup_insert_ne].
      * apply (upd_cases (fun g i => holds x g i id' -> o' = Some (thr i))); [|intros; by apply H2].
        intros Hh. apply H2; [done|]. by apply Hsame.
  - rewrite Ht. apply (upd_cases (fun g _ => local _ g)); [done|]. intros i Hi _. by apply (i_local _ _ HI).
Qed.

(** The ghost state and the words of [taken_ids] and [num_of_locked] change. *)
Lemma inv_heap G w j g' h' :
  inv G w -> (j < leaves x)%nat -> g_tl (G j) = true -> g_tl g' = true -> g_np g' = g_np (G j) ->
  (forall a v, fixed x a v -> h' !! a = heap w !! a) ->
  (forall i, (i < leaves x)%nat -> i <> j -> h' !! taken_at x i = heap w !! taken_at x i) ->
  h' !! taken_at x j = Some (b2z (g_tk g')) ->
  h' !! t_num_of_locked (sh_tree x) = Some (tally (leaves x) (<[j := g']> G)) ->
  local (tally (leaves x) (<[j := g']> G)) g' ->
  inv (<[j := g']> G) (w <| heap := h' |>).
Proof.
  intros HI Hj Htl Htl' Hnp Hfx Hoth Htk Hnum Hl.
  assert (Hh : forall id, holds x g' j id <-> holds x (G j) j id) by (intros id; unfold holds; by rewrite Htl, Htl', Hnp).
  split; cbn; try done.
  - intros a v Hf. rewrite (Hfx a v Hf). by apply (i_fixed _ _ HI).
  - apply (upd_cases (fun g i => h' !! taken_at x i = Some (b2z (g_tk g)))); [done|].
    intros i Hi Hne. rewrite Hoth by done. by apply (i_taken _ _ HI).
  - apply (i_mx _ _ HI).
  - intros id Hid. destruct (i_own _ _ HI id Hid) as (o & Ho & H1 & H2). exists o. split_and!; [done| |].
    + intros t Et. destruct (H1 t Et) as (i & Hi & -> & Hhi). exists i. split_and!; [done..|].
      destruct (decide (i = j)) as [->|]; [rewrite fn_lookup_insert; by apply Hh|by rewrite fn_lookup_insert_ne].
    + apply (upd_cases (fun g i => holds x g i id -> o = Some (thr i))); [|intros; by apply H2].
      intros Hhj. apply H2; [done|]. by apply Hh.
  - apply (upd_cases (fun g _ => local _ g)); [done|]. intros i Hi Hne.
    eapply local_num; [by apply (i_local _ _ HI)|]. left.
    destruct (l_out _ _ (i_local _ _ HI i Hi)); [|done].
    destruct (g_tl (G i)) eqn:E; [|done]. destruct Hne. eapply (holds_one G w i j (sh_lock x)); try done; [constructor|by left..].
Qed.

(** ** Steps *)

(** Leaf [j] waits for leaf [i]. *)
Definition behind G j i : Prop :=
  i <> j /\ (i < leaves x)%nat /\ g_tl (G j) = false /\ (g_tl (G i) = true \/ (g_np (G j) < g_np (G i))%nat).

Definition step_ok {A} G j (Q : A -> ghost -> Prop) (p : prog A) (o : option (next M A)) : Prop :=
  match o with
  | None => exists a, p = Done a /\ Q a (G j)
  | Some (Goes p' w') => exists g', wp x j p' g' Q /\ inv (<[j := g']> G) w'
  | Some Sleeps => exists i, behind G j i
  | Some Faults => False
  end.

Lemma set_heap_same w : w <| heap := heap w |> = w.
Proof. by destruct w. Qed.

Lemma insert_same G w j : inv G w -> inv (<[j := G j]> G) w.
Proof.
  intros HI. assert (Hs : forall i, (<[j := G j]> G) i = G i).
  { intros i. destruct (decide (i = j)) as [->|]; [by rewrite fn_lookup_insert|by rewrite fn_lookup_insert_ne]. }
  assert (Ht : tally (leaves x) (<[j := G j]> G) = tally (leaves x) G) by (apply tally_ext; intros; by rewrite Hs).
  destruct HI as [? Htk ? ? Hown Hloc]. split; try done; rewrite ?Ht; try done.
  - intros i Hi. rewrite Hs. by apply Htk.
  - intros id Hid. destruct (Hown id Hid) as (o & Ho & Ho1 & Ho2). exists o. split_and!; [done| |].
    + intros t Et. destruct (Ho1 t Et) as (i & ? & ? & ?). exists i. by rewrite Hs.
    + intros i Hi. rewrite Hs. by apply Ho2.
  - intros i Hi. rewrite Hs. by apply Hloc.
Qed.

Section OneStep.
Context {A : Type} (G : nat -> ghost) (w : world M) (j : nat) (Q : A -> ghost -> Prop).
Context (HI : inv G w) (Hj : (j < leaves x)%nat).

Lemma load_ok a (k : Z -> prog A) : wp x j (Load a k) (G j) Q -> step_ok G j Q (Load a k) (step (thr j) (Load a k) w).
Proof.
  cbn. intros [(v & Hf & Hk)|[(-> & Hk)|(-> & Htl & Hk)]].
  - rewrite (i_fixed _ _ HI a v Hf). exists (G j). split; [done|by apply insert_same].
  - rewrite (i_taken _ _ HI j Hj). exists (G j). split; [done|by apply insert_same].
  - rewrite (i_num _ _ HI). set (g' := G j <| g_sn := Some (tally (leaves x) G) |>).
    exists g'. split; [apply Hk|]. rewrite <- (set_heap_same w).
    assert (Ht : tally (leaves x) (<[j := g']> G) = tally (leaves x) G).
    { rewrite tally_update by done. unfold contrib, g'. cbn. lia. }
    apply inv_heap; try done; rewrite ?Ht.
    + by apply (i_taken _ _ HI).
    + apply (i_num _ _ HI).
    + destruct (i_local _ _ HI j Hj). split; try done; cbn; [congruence|by intros v [= <-]].
Qed.

Lemma store_ok a v (k : prog A) : wp x j (Store a v k) (G j) Q -> step_ok G j Q (Store a v k) (step (thr j) (Store a v k) w).
Proof.
  pose proof (i_local _ _ HI j Hj) as Hl.
  cbn. intros [(-> & Htl & Hsn & Hdf & b & -> & Hb & Hk)|(-> & Htl & n & Hsn & -> & Hk)].
  - rewrite (i_taken _ _ HI j Hj). set (g' := G j <| g_tk := b |> <| g_df := b2z (g_tk (G j)) - b2z b |>).
    exists g'. split; [exact Hk|].
    assert (Hc : contrib g' = contrib (G j)) by (unfold contrib, g'; cbn; rewrite Hdf; lia).
    assert (Ht : tally (leaves x) (<[j := g']> G) = tally (leaves x) G) by (rewrite tally_update by done; lia).
    apply (inv_heap G w j g' (<[taken_at x j := b2z b]> (heap w))); try done; rewrite ?Ht.
    + intros a v Hf. rewrite lookup_insert_ne; [done|]. pose proof (fixed_taken_apart _ _ _ Hf Hj). congruence.
    + intros i Hi Hne. rewrite lookup_insert_ne; [done|]. unfold taken_at. lia.
    + by rewrite lookup_insert_eq.
    + rewrite lookup_insert_ne by (by apply taken_num_apart). apply (i_num _ _ HI).
    + destruct Hl. split; try done; [cbn; congruence|by rewrite Hc].
  - rewrite (i_num _ _ HI). set (g' := G j <| g_df := 0 |> <| g_sn := None |>). exists g'. split; [exact Hk|].
    assert (Hn : n = tally (leaves x) G) by (by apply (l_sn _ _ Hl)). subst n.
    assert (Ht : tally (leaves x) (<[j := g']> G) = tally (leaves x) G - g_df (G j)).
    { rewrite tally_update by done. unfold contrib, g'. cbn. lia. }
    assert (Hg : 0 <= contrib g' <= 1) by (unfold contrib, g'; cbn; destruct (g_tk (G j)); cbn; lia).
    assert (Hb : 0 <= tally (leaves x) G <= Z.of_nat (leaves x)) by (apply tally_bound; intros; by apply (i_local _ _ HI)).
    assert (Hb' : 0 <= tally (leaves x) (<[j := g']> G) <= Z.of_nat (leaves x)).
    { apply tally_bound. apply (upd_cases (fun g _ => 0 <= contrib g <= 1)); [done|]. intros; by apply (i_local _ _ HI). }
    pose proof (leaves_bound x Hx). pose proof (leaves_Z x).
    rewrite s32_small by lia. rewrite u32_small by lia. rewrite <- Ht.
    apply (inv_heap G w j g' (<[_ := tally (leaves x) (<[j := g']> G)]> (heap w))); try done.
    + intros a v Hf. rewrite lookup_insert_ne; [done|]. pose proof (fixed_num_apart _ _ Hf). congruence.
    + intros i Hi _. rewrite lookup_insert_ne; [done|]. apply not_eq_sym. by apply taken_num_apart.
    + rewrite lookup_insert_ne by (apply not_eq_sym; by apply taken_num_apart). by apply (i_taken _ _ HI).
    + by rewrite lookup_insert_eq.
    + split; try done. apply Hl.
Qed.

(** What leaf [j] holds of its path. *)
Lemma rung_inj n m : (n < sh_depth x)%nat -> (m < sh_depth x)%nat -> rung x j n = rung x j m -> n = m.
Proof.
  intros Hn Hm He. pose proof (leaf_Z x j Hj) as HZ.
  apply (so_node x Hx) in He; [|apply anc_range; [done|lia]..].
  assert (S n = S m) by (eapply (anc_same_level (sh_depth x) j j); [done|done|lia|lia|done]). lia.
Qed.
Lemma rung_tree i n : (i < leaves x)%nat -> (n < sh_depth x)%nat -> of_tree x (rung x i n) /\ rung x i n <> sh_lock x.
Proof.
  intros Hi Hn. pose proof (anc_range _ _ (leaf_Z x i Hi) (S n) ltac:(lia)). split; [by constructor|by apply (so_lock x Hx)].
Qed.

(** A node of [j]'s path that another leaf holds: that leaf is further up. *)
Lemma rung_held i n : (i < leaves x)%nat -> (n < sh_depth x)%nat -> holds x (G i) i (rung x j n) -> (n < g_np (G i))%nat.
Proof.
  intros Hi Hn [[He _]|(m & Hm & He)]; [by destruct (rung_tree j n Hj Hn)|].
  pose proof (l_np _ _ (i_local _ _ HI i Hi)). apply (so_node x Hx) in He; [|apply anc_range; [by apply leaf_Z|lia]..].
  assert (S n = S m); [|lia]. eapply (anc_same_level (sh_depth x) j i); [by apply leaf_Z|by apply leaf_Z|lia|lia|done].
Qed.

Lemma lock_ok id (k : Z -> prog A) :
  wp x j (Sys (MutexLock id) k) (G j) Q ->
  step_ok G j Q (Sys (MutexLock id) k) (step (thr j) (Sys (MutexLock id) k) w).
Proof.
  pose proof (i_local _ _ HI j Hj) as Hl. pose proof (i_mx _ _ HI) as Hok. cbn. intros [Htl Hcase].
  assert (Hid : of_tree x id). { destruct Hcase as [[-> _]|(-> & Hn & _)]; [constructor|by apply rung_tree]. }
  pose proof (so_ids x Hx id Hid) as Hpos. destruct (i_own _ _ HI id Hid) as (o & Ho & Ho1 & Ho2).
  assert (Hmine : ~ holds x (G j) j id).
  { intros [[-> ?]|(n & Hn & He)]; [congruence|]. pose proof (l_np _ _ Hl).
    destruct Hcase as [[-> _]|(-> & Hd & _)]; [by destruct (rung_tree j n Hj ltac:(lia))|].
    apply rung_inj in He; lia. }
  destruct o as [t|].
  - destruct (Ho1 t eq_refl) as (i & Hi & -> & Hh). assert (Hne : i <> j) by (by intros ->).
    rewrite (mx_lock_other (mxs w) (thr j) (thr i) id) by (done || lia || (intros He; by apply Hne, Hthr)).
    exists i. split_and!; [done..|]. destruct Hcase as [[-> _]|(-> & Hd & _)].
    + left. destruct Hh as [[_ ?]|(n & Hn & He)]; [done|]. pose proof (l_np _ _ (i_local _ _ HI i Hi)).
      by destruct (rung_tree i n Hi ltac:(lia)) as [_ []].
    + right. by apply rung_held.
  - assert (Hno : forall i, (i < leaves x)%nat -> i <> j -> ~ holds x (G i) i id).
    { intros i Hi _ Hh. by specialize (Ho2 i Hi Hh). }
    destruct (mx_lock_free (mxs w) (thr j) id Hok ltac:(lia) Ho) as (m' & -> & Hch).
    destruct Hcase as [[-> Hk]|(-> & Hd & Hk)]; cbn.
    + exists (G j <| g_tl := true |>). split; [exact Hk|]. eapply inv_mutex; try done.
      * left. split; [done|by left].
      * intros id' Hne. unfold holds. cbn. naive_solver.
      * destruct Hl. by split.
    + exists (G j <| g_np ::= S |>). split; [exact Hk|]. eapply inv_mutex; try done.
      * left. split; [done|]. right. exists (g_np (G j)). cbn. split; [lia|done].
      * intros id' Hne. unfold holds. cbn. split; (intros [?|(n & Hn & ->)]; [by left|right; exists n; split; [|done]]); [|lia].
        destruct (decide (n = g_np (G j))) as [->|]; [done|lia].
      * destruct Hl. by split.
Qed.

Lemma unlock_ok id (k : Z -> prog A) :
  wp x j (Sys (MutexUnlock id) k) (G j) Q ->
  step_ok G j Q (Sys (MutexUnlock id) k) (step (thr j) (Sys (MutexUnlock id) k) w).
Proof.
  pose proof (i_local _ _ HI j Hj) as Hl. pose proof (i_mx _ _ HI) as Hok. pose proof (l_np _ _ Hl) as Hnp. cbn. intros Hcase.
  assert (Hid : of_tree x id). { destruct Hcase as [[-> _]|(n & Hn & -> & _)]; [constructor|apply rung_tree; [done|lia]]. }
  assert (Hmine : holds x (G j) j id).
  { destruct Hcase as [(-> & ? & _)|(n & Hn & -> & _)]; [by left|right; exists n; split; [lia|done]]. }
  pose proof (so_ids x Hx id Hid) as Hpos. destruct (i_own _ _ HI id Hid) as (o & Ho & Ho1 & Ho2).
  rewrite (Ho2 j Hj Hmine) in Ho.
  assert (Hno : forall i, (i < leaves x)%nat -> i <> j -> ~ holds x (G i) i id).
  { intros i Hi Hne Hh. apply Hne. by eapply holds_one. }
  destruct (mx_unlock_own (mxs w) (thr j) id Hok ltac:(lia) Ho) as (m' & -> & Hch).
  destruct Hcase as [(-> & Htl & Hdf & Hk)|(n & Hn & -> & Hk)]; cbn.
  - exists (G j <| g_tl := false |> <| g_sn := None |>). split; [exact Hk|]. eapply inv_mutex; try done.
    + right. split; [done|]. intros [[_ ?]|(n & Hn & He)]; [done|]. cbn in Hn. by destruct (rung_tree j n Hj ltac:(lia)) as [_ []].
    + intros id' Hne. unfold holds. cbn. naive_solver.
    + destruct Hl. by split.
  - exists (G j <| g_np := n |>). split; [exact Hk|]. eapply inv_mutex; try done.
    + right. split; [done|]. intros [[He _]|(m & Hm & He)]; [by destruct (rung_tree j n Hj ltac:(lia))|].
      cbn in Hm. apply rung_inj in He; lia.
    + intros id' Hne. unfold holds. cbn. rewrite Hn. split; (intros [?|(m & Hm & ->)]; [by left|right; exists m; split; [|done]]); [lia|].
      destruct (decide (m = n)) as [->|]; [done|lia].
    + destruct Hl. split; try done. cbn. lia.
Qed.

(** A step of a thread that follows the rules. *)
Lemma wp_step (p : prog A) : wp x j p (G j) Q -> step_ok G j Q p (step (thr j) p w).
Proof.
  destruct p as [a| |a k|a v k|[]]; [intros; by exists a|done|apply load_ok|apply store_ok|done|done|apply lock_ok|apply unlock_ok|done].
Qed.
End OneStep.
End Inv.
