(* ===== verification/TournamentTheorems.v ===== *)
(** * The tournament tree: theorems

    Mutual exclusion, absence of errors and of deadlock for 2^depth threads that
    go in and out through one tree, and what [trnmnt_tree_dealloc] does to a tree
    in use. *)
From S2P Require Import Prelude Spinlock ProcDefs User MutexTable Umalloc Tournament TournamentSpec TournamentInv.
Local Open Scope Z_scope.
Local Open Scope user_scope.

(** ** The threads *)

Inductive phase :=
| Outside
| Acquiring (p : prog Z)
| Inside
| Releasing (p : prog Z).

Section System.
Context {M T : Type} `{MutexApi M T}.
Context (x : shape) (thr : nat -> T).

(** One step of one thread: it calls [trnmnt_tree_acquire], takes a step of the
    call, is in its critical section when the call has returned 0, and leaves
    through [trnmnt_tree_release]. *)
Inductive turn : (nat -> phase) * world M -> (nat -> phase) * world M -> Prop :=
| turn_call ph w j : (j < leaves x)%nat -> ph j = Outside ->
    turn (ph, w) (<[j := Acquiring (trnmnt_tree_acquire (sh_tree x) (Z.of_nat j))]> ph, w)
| turn_acquire ph w j p p' w' : (j < leaves x)%nat -> ph j = Acquiring p -> step (thr j) p w = Some (Goes p' w') ->
    turn (ph, w) (<[j := Acquiring p']> ph, w')
| turn_enter ph w j : (j < leaves x)%nat -> ph j = Acquiring (Done 0) -> turn (ph, w) (<[j := Inside]> ph, w)
| turn_leave ph w j : (j < leaves x)%nat -> ph j = Inside ->
    turn (ph, w) (<[j := Releasing (trnmnt_tree_release (sh_tree x) (Z.of_nat j))]> ph, w)
| turn_release ph w j p p' w' : (j < leaves x)%nat -> ph j = Releasing p -> step (thr j) p w = Some (Goes p' w') ->
    turn (ph, w) (<[j := Releasing p']> ph, w')
| turn_out ph w j : (j < leaves x)%nat -> ph j = Releasing (Done 0) -> turn (ph, w) (<[j := Outside]> ph, w).

(** A tree as [trnmnt_tree_alloc] makes it in memory that is zero. *)
Record fresh_tree (w : world M) : Prop := {
  ft_fixed : forall a v, fixed x a v -> heap w !! a = Some v;
  ft_taken : forall j, (j < leaves x)%nat -> heap w !! taken_at x j = Some 0;
  ft_num : heap w !! t_num_of_locked (sh_tree x) = Some 0;
  ft_mx : mx_ok (mxs w);
  ft_free : forall id, of_tree x id -> mx_owner (mxs w) id = Some None
}.

Definition reachable (w0 : world M) (c : (nat -> phase) * world M) : Prop :=
  rtc turn (fun _ => Outside, w0) c.
End System.

Section Reach.
Context {M T : Type} `{MutexSpec M T}.
Context (x : shape) (Hx : shape_ok x) (thr : nat -> T).
Context (Hthr : forall i j, (i < leaves x)%nat -> (j < leaves x)%nat -> thr i = thr j -> i = j).

(** A thread's phase and its ghost state. *)
Definition fits (j : nat) (ph : phase) (g : ghost) : Prop :=
  match ph with
  | Outside => g = idle
  | Acquiring p => wp x j p g (fun r g' => r = 0 /\ g' = full x)
  | Inside => g = full x
  | Releasing p => wp x j p g (fun r g' => r = 0 /\ g' = idle)
  end.

Definition sound (c : (nat -> phase) * world M) : Prop :=
  exists G, inv x thr G c.2 /\ forall j, (j < leaves x)%nat -> fits j (c.1 j) (G j).

Lemma fresh_sound w0 : fresh_tree x w0 -> sound (fun _ => Outside, w0).
Proof.
  intros [Hf Ht Hn Hm Ho]. exists (fun _ => idle). split; [|done].
  assert (Hz : tally (leaves x) (fun _ => idle) = 0).
  { generalize (leaves x) as n. induction n as [|n IH]; [done|]. by rewrite tally_S, IH. }
  split; cbn; try done; rewrite ?Hz; try done.
  - intros id Hid. exists None. rewrite (Ho id Hid). split_and!; [done..|].
    intros j _ [[_ ?]|(n & ? & _)]; [done|]. cbn in *. lia.
  - intros j Hj. split; cbn; (done || lia).
Qed.

Lemma sound_phase G ph ph' w j :
  inv x thr G w -> (j < leaves x)%nat -> (forall i, (i < leaves x)%nat -> fits i (ph i) (G i)) ->
  fits j ph' (G j) -> sound (<[j := ph']> ph, w).
Proof.
  intros HI Hj HF Hf. exists G. split; [done|]. intros i Hi. cbn. destruct (decide (i = j)) as [->|].
  - by rewrite fn_lookup_insert.
  - rewrite fn_lookup_insert_ne by done. by apply HF.
Qed.

Lemma sound_step G ph w j p p' w' Q (mk : prog Z -> phase) :
  inv x thr G w -> (j < leaves x)%nat -> (forall i, (i < leaves x)%nat -> fits i (ph i) (G i)) ->
  wp x j p (G j) Q -> (forall p g, wp x j p g Q -> fits j (mk p) g) ->
  step (thr j) p w = Some (Goes p' w') -> sound (<[j := mk p']> ph, w').
Proof.
  intros HI Hj HF Hp Hmk Hs. pose proof (wp_step x Hx thr Hthr G w j Q HI Hj p Hp) as Hok. rewrite Hs in Hok.
  destruct Hok as (g' & Hg & HI'). exists (<[j := g']> G). split; [done|]. intros i Hi. cbn.
  destruct (decide (i = j)) as [->|].
  - rewrite !fn_lookup_insert. by apply Hmk.
  - rewrite !fn_lookup_insert_ne by done. by apply HF.
Qed.

Lemma turn_sound c c' : sound c -> turn x thr c c' -> sound c'.
Proof.
  intros (G & HI & HF) Ht.
  destruct Ht as [ph w j Hj Hp|ph w j p p' w' Hj Hp Hs|ph w j Hj Hp|ph w j Hj Hp|ph w j p p' w' Hj Hp Hs|ph w j Hj Hp];
    cbn in *; pose proof (HF j Hj) as Hf; rewrite Hp in Hf; cbn in Hf.
  - eapply sound_phase; [done..|]. rewrite Hf. by apply wp_acquire.
  - eapply (sound_step G ph w j p p' w' _ Acquiring); try done.
  - eapply sound_phase; [done..|]. apply Hf.
  - eapply sound_phase; [done..|]. rewrite Hf. by apply wp_release.
  - eapply (sound_step G ph w j p p' w' _ Releasing); try done.
  - eapply sound_phase; [done..|]. apply Hf.
Qed.

Lemma reachable_sound w0 c : fresh_tree x w0 -> reachable x thr w0 c -> sound c.
Proof.
  intros H0' Hr. apply fresh_sound in H0'. unfold reachable in Hr. revert H0'.
  induction Hr; eauto using turn_sound.
Qed.

(** The program of a thread that is in a call. *)
Definition in_call (ph : phase) (p : prog Z) : Prop := ph = Acquiring p \/ ph = Releasing p.

Lemma call_fits j ph p g : in_call ph p -> fits j ph g -> exists g', wp x j p g (fun r g2 => r = 0 /\ g2 = g').
Proof. intros [-> | ->]; cbn; eauto. Qed.

(** A thread in a call that cannot go on waits for one that can. *)
Lemma someone_goes G ph w :
  inv x thr G w -> (forall i, (i < leaves x)%nat -> fits i (ph i) (G i)) ->
  (forall i, (i < leaves x)%nat -> ph i <> Inside) ->
  forall n j p, (j < leaves x)%nat -> in_call (ph j) p -> (sh_depth x - g_np (G j) < n)%nat ->
  exists i q, (i < leaves x)%nat /\ in_call (ph i) q /\
    (q = Done 0 \/ exists q' w', step (thr i) q w = Some (Goes q' w')).
Proof.
  intros HI HF Hno. induction n as [|n IH]; intros j p Hj Hc Hn; [lia|].
  destruct (call_fits _ _ _ _ Hc (HF j Hj)) as [g' Hp].
  pose proof (wp_step x Hx thr Hthr G w j _ HI Hj p Hp) as Hok.
  destruct (step (thr j) p w) as [[q' w'| |]|] eqn:Hs; cbn in Hok; [|clear Hs|done|].
  - exists j, p. eauto 10.
  - destruct Hok as (i & Hne & Hi & Htl & Hb).
    assert (Hci : exists q, in_call (ph i) q).
    { pose proof (HF i Hi) as Hfi. unfold in_call. destruct (ph i) as [|q| |q] eqn:E; cbn in Hfi; eauto; [|by destruct (Hno i Hi)].
      rewrite Hfi in Hb. cbn in Hb. destruct Hb; [done|lia]. }
    destruct Hci as [q Hq]. destruct Hb as [Hb|Hb].
    + destruct (call_fits _ _ _ _ Hq (HF i Hi)) as [gi Hpi].
      pose proof (wp_step x Hx thr Hthr G w i _ HI Hi q Hpi) as Hoki.
      destruct (step (thr i) q w) as [[q' w'| |]|] eqn:Hs; cbn in Hoki; [eauto 10| |done|].
      * destruct Hoki as (? & _ & _ & ? & _). congruence.
      * destruct Hoki as (a & -> & -> & _). exists i, (Done 0). eauto.
    + apply (IH i q); [done..|]. pose proof (l_np _ _ _ (i_local _ _ _ _ HI i Hi)). lia.
  - destruct Hok as (a & -> & -> & _). exists j, (Done 0). eauto.
Qed.
End Reach.

(** ** A process to evaluate the code in *)

Definition demo_base : Z := 4096.
Definition demo_freep : Z := 4104.
(** A free block of 40 headers, as an earlier [free] left it. *)
Definition demo_world : world mtable :=
  World (<[demo_freep := demo_base]> (<[demo_base := 8192]> (<[demo_base + 4 := 0]>
         (<[8192 := demo_base]> (<[8196 := 40]> (zero_words 8200 78 ∅))))))
        (Mtab (replicate MAX_MUTEXES (Mutex None None 0 MUNLOCKED)) 1) 12288 0x100000.
Definition demo_thr (j : nat) : nat * nat := (0%nat, j).

Definition alloc (d : Z) : prog Z := trnmnt_tree_alloc demo_base demo_freep 8 d.

(** The tree of depth 2 that [trnmnt_tree_alloc] builds there. *)
Definition demo_shape : shape := Shape 8480 1 8416 8440 2 (fun i => i + 2).
Definition demo_tree : world mtable :=
  match exec (T := nat * nat) (0%nat, 0%nat) (alloc 2) demo_world with Some (_, w) => w | None => demo_world end.

Lemma demo_shape_ok : shape_ok demo_shape.
Proof.
  assert (Ht : total demo_shape = 7) by done. assert (Hl : Z.of_nat (leaves demo_shape) = 4) by done.
  split; rewrite ?Ht, ?Hl; cbn; try lia. intros id [|i Hi]; cbn; lia.
Qed.

Lemma demo_thr_inj i j : (i < leaves demo_shape)%nat -> (j < leaves demo_shape)%nat -> demo_thr i = demo_thr j -> i = j.
Proof. by intros _ _ [= ->]. Qed.

(** A statement about all numbers below a bound, by evaluation. *)
Lemma all_below (P : Z -> bool) n : forallb P (seqZ 0 n) = true -> forall i, 0 <= i < n -> P i = true.
Proof. intros Hf i Hi. rewrite forallb_forall in Hf. apply Hf, list_elem_of_In, elem_of_seqZ. lia. Qed.

(** The table with [n] unlocked mutexes. *)
Definition new_table (n : Z) : mtable :=
  Mtab (((fun i => Mutex None (Some 0%nat) (i + 1) MUNLOCKED) <$> seqZ 0 n) ++
        replicate (MAX_MUTEXES - Z.to_nat n) (Mutex None None 0 MUNLOCKED)) (n + 1).

Lemma new_table_ok n : 0 <= n <= 64 -> tab_ok (new_table n) /\ forall id, 0 < id <= n -> tab_owner (new_table n) id = Some None.
Proof.
  intros Hn. set (l := slots (new_table n)).
  assert (Hs : forall i y, l !! i = Some y -> mid y = (if Z.of_nat i <? n then Z.of_nat i + 1 else 0) /\ mstate y = MUNLOCKED).
  { intros i y Hy. unfold l in Hy. cbn in Hy. apply lookup_app_Some in Hy as [Hy|[Hi Hy]].
    - apply list_lookup_fmap_Some in Hy as (z & -> & [Hz Hi]%lookup_seqZ). cbn. by rewrite (proj2 (Z.ltb_lt _ _)), Hz by lia.
    - rewrite length_fmap, length_seqZ in Hi. apply lookup_replicate in Hy as [-> _]. cbn. by rewrite (proj2 (Z.ltb_ge _ _)) by lia. }
  assert (Hok : tab_ok (new_table n)).
  { split; [cbn; lia|]. split_and!.
    + intros i y [-> _]%Hs. cbn. destruct (Z.ltb_spec (Z.of_nat i) n); lia.
    + intros i k y z [Hy _]%Hs [Hz _]%Hs. rewrite Hy, Hz.
      destruct (Z.ltb_spec (Z.of_nat i) n), (Z.ltb_spec (Z.of_nat k) n); lia.
    + intros i y [_ Hy]%Hs. congruence. }
  split; [done|]. intros id Hid. unfold tab_owner.
  assert (E : slots (new_table n) !! Z.to_nat (id - 1) = Some (Mutex None (Some 0%nat) id MUNLOCKED)).
  { cbn. apply lookup_app_l_Some. rewrite list_lookup_fmap, lookup_seqZ_lt by lia. cbn. do 2 f_equal. lia. }
  by rewrite (tab_find_intro id _ _ _ Hok ltac:(lia) E eq_refl).
Qed.

(** The tree is fresh if evaluation finds its words and its mutexes in place. *)
Definition looks_fresh (w : world mtable) : bool :=
  forallb (fun i => bool_decide (heap w !! node_at demo_shape i = Some (i + 2))) (seqZ 0 7) &&
  forallb (fun i => bool_decide (heap w !! (8416 + 4 * i) = Some 0)) (seqZ 0 4) &&
  forallb (fun av => bool_decide (heap w !! av.1 = Some av.2))
    [(8480, 2); (8484, 4); (8488, 7); (8496, 0); (8500, 1); (8504, 8416); (8508, 8440)] &&
  bool_decide (mxs w = new_table 8).

Lemma looks_fresh_ok w : looks_fresh w = true -> fresh_tree demo_shape w.
Proof.
  unfold looks_fresh. rewrite !andb_true_iff. intros [[[Hn Hk] Hw] Hm]. apply bool_decide_eq_true_1 in Hm.
  pose proof (all_below _ _ Hn) as Hn'. pose proof (all_below _ _ Hk) as Hk'. cbv beta in Hn', Hk'.
  cbn in Hw. to_prop. destruct (new_table_ok 8 ltac:(lia)) as [Hok Ho]. rewrite <- Hm in Hok, Ho.
  split; [| |done|done|].
  - intros a v [| | | | | |i Hi]; try done. exact (bool_decide_eq_true_1 _ (Hn' i Hi)).
  - intros j Hj. change (leaves demo_shape) with 4%nat in Hj. refine (bool_decide_eq_true_1 _ (Hk' (Z.of_nat j) _)). lia.
  - intros id [|i Hi]; [by apply Ho|]. change (0 <= i < 7) in Hi. apply Ho. cbn. lia.
Qed.

Lemma demo_fresh : fresh_tree demo_shape demo_tree.
Proof. apply looks_fresh_ok. vm_compute. reflexivity. Qed.

(** ** Theorems *)

(** C3: the tournament tree is a lock.  For any interleaving of the memory accesses
    and system calls of 2^depth threads that go in and out through one tree,
    over any mutexes that keep their specification: at most one thread is in
    its critical section; no call touches memory outside the tree or fails; and
    each call that has returned has returned 0. *)
Theorem tournament_exclusion {M T} `{MutexSpec M T} (x : shape) (thr : nat -> T) (w0 w : world M) (ph : nat -> phase)
    (Hx : shape_ok x)
    (Hthr : forall i j, (i < leaves x)%nat -> (j < leaves x)%nat -> thr i = thr j -> i = j)
    (Hw : fresh_tree x w0) (Hr : reachable x thr w0 (ph, w)) :
  (forall i j, (i < leaves x)%nat -> (j < leaves x)%nat -> ph i = Inside -> ph j = Inside -> i = j) /\
  (forall j p, (j < leaves x)%nat -> in_call (ph j) p ->
     step (thr j) p w <> Some Faults /\ forall r, p = Done r -> r = 0).
Proof.
  destruct (reachable_sound x Hx thr Hthr w0 _ Hw Hr) as (G & HI & HF). cbn in *. split.
  - intros i j Hi Hj Ei Ej. pose proof (HF i Hi) as Fi. pose proof (HF j Hj) as Fj. rewrite Ei in Fi. rewrite Ej in Fj.
    cbn in Fi, Fj. pose proof (so_depth x Hx) as Hd.
    assert (Hroot : forall k, (k < leaves x)%nat -> G k = full x -> holds x (G k) k (sh_node x 0)).
    { intros k Hk ->. right. exists (sh_depth x - 1)%nat. cbn. split; [lia|]. unfold rung.
      replace (S (sh_depth x - 1)) with (sh_depth x) by lia. by rewrite anc_root by (by apply leaf_Z). }
    eapply (holds_one x thr Hthr G w i j (sh_node x 0)); auto.
    constructor. unfold total. pose proof (leaves_bound x Hx). lia.
  - intros j p Hj Hc. destruct (call_fits _ _ _ _ _ Hc (HF j Hj)) as [g' Hp]. split.
    + intros Hs. pose proof (wp_step x Hx thr Hthr G w j _ HI Hj p Hp) as Hok. by rewrite Hs in Hok.
    + intros r ->. apply Hp.
Qed.

(** C4: the tournament tree has no deadlock: as long as no thread is in its
    critical section, one of the threads that are in a call can go on or has
    returned. *)
Theorem tournament_progress {M T} `{MutexSpec M T} (x : shape) (thr : nat -> T) (w0 w : world M) (ph : nat -> phase)
    (Hx : shape_ok x)
    (Hthr : forall i j, (i < leaves x)%nat -> (j < leaves x)%nat -> thr i = thr j -> i = j)
    (Hw : fresh_tree x w0) (Hr : reachable x thr w0 (ph, w))
    (Hno : forall i, (i < leaves x)%nat -> ph i <> Inside)
    (Hcall : exists j p, (j < leaves x)%nat /\ in_call (ph j) p) :
  exists j p, (j < leaves x)%nat /\ in_call (ph j) p /\
    (p = Done 0 \/ exists p' w', step (thr j) p w = Some (Goes p' w')).
Proof.
  destruct (reachable_sound x Hx thr Hthr w0 _ Hw Hr) as (G & HI & HF). destruct Hcall as (j & p & Hj & Hc).
  eapply (someone_goes x Hx thr Hthr G ph w HI HF Hno (S (sh_depth x - g_np (G j))) j p); [done|done|lia].
Qed.

(** Two of four threads have called; the first is about to go in. *)
Definition demo_acquire (j : nat) : prog Z := trnmnt_tree_acquire (sh_tree demo_shape) (Z.of_nat j).
Definition two_called : nat -> phase := <[1%nat := Acquiring (demo_acquire 1)]> (<[0%nat := Acquiring (demo_acquire 0)]> (fun _ => Outside)).

Lemma two_called_reachable : reachable demo_shape demo_thr demo_tree (two_called, demo_tree).
Proof.
  assert (Hl : leaves demo_shape = 4%nat) by done.
  unfold reachable, two_called. eapply rtc_l; [apply (turn_call demo_shape demo_thr _ _ 0); [lia|done]|].
  eapply rtc_l; [apply (turn_call demo_shape demo_thr _ _ 1); [lia|done]|]. apply rtc_refl.
Qed.

Lemma tournament_exclusion_witness :
  step (demo_thr 1) (demo_acquire 1) demo_tree <> Some Faults /\ (forall r, demo_acquire 1 = Done r -> r = 0).
Proof.
  apply (tournament_exclusion demo_shape demo_thr demo_tree demo_tree two_called).
  - apply demo_shape_ok.
  - apply demo_thr_inj.
  - apply demo_fresh.
  - apply two_called_reachable.
  - change (leaves demo_shape) with 4%nat. lia.
  - by left.
Defined.

Lemma tournament_progress_witness :
  exists j p, (j < leaves demo_shape)%nat /\ in_call (two_called j) p /\
    (p = Done 0 \/ exists p' w', step (demo_thr j) p demo_tree = Some (Goes p' w')).
Proof.
  apply (tournament_progress demo_shape demo_thr demo_tree demo_tree two_called).
  - apply demo_shape_ok.
  - apply demo_thr_inj.
  - apply demo_fresh.
  - apply two_called_reachable.
  - intros i Hi. unfold two_called. destruct i as [|[|i]]; done.
  - exists 1%nat, (demo_acquire 1). split; [change (leaves demo_shape) with 4%nat; lia|by left].
Defined.

(** The result of a program run alone in the demo process. *)
Definition result {A} (p : prog A) : option A := fst <$> exec (T := nat * nat) (0%nat, 0%nat) p demo_world.

(** ** Trees of depth 0 *)

Section DepthZero.
Context {M T : Type} `{MutexSpec M T} (x : shape).

(** The struct and the two arrays of one word are apart, and the two mutexes differ. *)
Record zero_ok : Prop := {
  zo_depth : sh_depth x = 0%nat;
  zo_tree : 0 < sh_tree x /\ sh_tree x + 32 <= 2 ^ 32;
  zo_taken : 0 <= sh_taken x /\ sh_taken x + 4 <= 2 ^ 32;
  zo_nodes : 0 <= sh_nodes x /\ sh_nodes x + 4 <= 2 ^ 32;
  zo_apart1 : sh_taken x + 4 <= sh_tree x \/ sh_tree x + 32 <= sh_taken x;
  zo_apart2 : sh_nodes x + 4 <= sh_tree x \/ sh_tree x + 32 <= sh_nodes x;
  zo_apart3 : sh_nodes x + 4 <= sh_taken x \/ sh_taken x + 4 <= sh_nodes x;
  zo_ids : 0 < sh_lock x < 2 ^ 31 /\ 0 < sh_node x 0 < 2 ^ 31 /\ sh_node x 0 <> sh_lock x
}.

Definition both_free (m : M) : Prop :=
  mx_ok m /\ mx_owner m (sh_lock x) = Some None /\ mx_owner m (sh_node x 0) = Some None.

(** taken_ids[0] is [v], and no mutex of the tree is locked. *)
Record zero_tree (v : Z) (w : world M) : Prop := {
  zt_fixed : forall a z, fixed x a z -> heap w !! a = Some z;
  zt_taken : heap w !! sh_taken x = Some v;
  zt_num : exists n, heap w !! t_num_of_locked (sh_tree x) = Some n;
  zt_mx : both_free (mxs w)
}.

Context (Hx : zero_ok).

Lemma fresh_zero w : fresh_tree x w -> zero_tree 0 w.
Proof.
  intros [Hf Ht Hn Hm Ho]. pose proof (zo_depth Hx) as Hd. assert (Hl : leaves x = 1%nat) by (unfold leaves; by rewrite Hd).
  assert (Htot : total x = 1) by (unfold total; by rewrite Hd). split; [done| |by eexists|].
  - specialize (Ht 0%nat ltac:(lia)). unfold taken_at in Ht. by rewrite Z.mul_0_r, Z.add_0_r in Ht.
  - split_and!; [done|apply Ho; constructor|apply Ho; constructor; lia].
Qed.

(** The words of the struct and of [nodes] are not written. *)
Lemma zero_words v w :
  zero_tree v w -> heap w !! t_depth (sh_tree x) = Some 0 /\ heap w !! t_threads (sh_tree x) = Some 1 /\
    heap w !! t_total_nodes (sh_tree x) = Some 1 /\ heap w !! t_lock (sh_tree x) = Some (sh_lock x) /\
    heap w !! t_taken_ids (sh_tree x) = Some (sh_taken x) /\ heap w !! t_nodes (sh_tree x) = Some (sh_nodes x) /\
    heap w !! sh_nodes x = Some (sh_node x 0).
Proof.
  intros [Hf _ _ _]. pose proof (zo_depth Hx) as Hd. assert (Htot : total x = 1) by (unfold total; by rewrite Hd).
  split_and!; apply Hf; try constructor.
  - pose proof (fixed_depth x) as E. by rewrite Hd in E.
  - pose proof (fixed_threads x) as E. by rewrite Hd in E.
  - pose proof (fixed_total x) as E. by rewrite Htot in E.
  - pose proof (fixed_node x 0 ltac:(lia)) as E. unfold node_at in E. by rewrite Z.mul_0_r, Z.add_0_r in E.
Qed.

Lemma zero_mutexes v w m : zero_tree v w -> both_free m -> zero_tree v (w <| mxs := m |>).
Proof. intros [? ? ? ?] ?. by split. Qed.

(** A store into [taken_ids] and one into [num_of_locked]. *)
Lemma zero_store v v' n w : zero_tree v w ->
  zero_tree v' (w <| heap := <[t_num_of_locked (sh_tree x) := n]> (<[sh_taken x := v']> (heap w)) |>).
Proof.
  intros [Hf Ht Hn Hm]. pose proof (zo_depth Hx) as Hd. destruct Hx as [_ [Ht0 ?] [? ?] [? ?] A1 A2 A3 _].
  assert (Htot : total x = 1) by (unfold total; by rewrite Hd). unfold t_num_of_locked in *. split; cbn; [| |by eexists; apply lookup_insert_eq|done].
  - intros a z Ha. rewrite !lookup_insert_ne; [by apply Hf|..];
      destruct Ha; unfold t_depth, t_threads, t_total_nodes, t_lock, t_taken_ids, t_nodes, node_at; lia.
  - by rewrite lookup_insert_ne, lookup_insert_eq by lia.
Qed.

(** tree->lock is taken and given back. *)
Lemma lock_cycle (t : T) m : both_free m ->
  exists m1 m2, mx_lock t (sh_lock x) m = Some (0, m1) /\ mx_unlock t (sh_lock x) m1 = (0, m2) /\ both_free m2.
Proof.
  intros (Hm & Hl & Hn). destruct (zo_ids Hx) as (Hi & Hi' & Hne). destruct (mx_lock_free m t (sh_lock x)) as (m1 & E1 & Hm1 & Ho1 & Hk1); [done|lia|done|].
  destruct (mx_unlock_own m1 t (sh_lock x)) as (m2 & E2 & Hm2 & Ho2 & Hk2); [done|lia|done|]. exists m1, m2.
  do 2 (split; [done|]). split; [done|]. split; [done|]. rewrite Hk2 by (done || lia). by rewrite Hk1 by (done || lia).
Qed.

Lemma elem_0 p : 0 <= p -> p + 4 <= 2 ^ 32 -> elem p 0 = p.
Proof. intros. unfold elem. rewrite Z.mul_0_r, Z.add_0_r. apply u32_small. lia. Qed.

(** The next access, with the constants evaluated. *)
Local Ltac go :=
  cbn; repeat (first
    [ progress change (s32 0) with 0 | progress change (s32 1) with 1 | progress change (u32 1) with 1 | progress change (s32 (1 - 1)) with 0 | progress change (s32 (1 - 1 + 0)) with 0
    | progress change (Z.quot (s32 (0 - 1)) 2) with 0 | progress change (c_true 0) with false | progress change (c_true 1) with true | progress change (c_true (-1)) with true
    | progress change (0 <? 0) with false | progress change (0 =? 0) with true ]; cbn).

(** Acquire: [taken_ids] decides, and no node is locked. *)
Lemma zero_acquire (t : T) v w : zero_tree v w -> v = 0 \/ v = 1 ->
  exists w', exec t (trnmnt_tree_acquire (sh_tree x) 0) w = Some (- v, w') /\ zero_tree 1 w'.
Proof.
  intros Hz Hv. destruct (zero_words v w Hz) as (W1 & W2 & W3 & W4 & W5 & W6 & W7). destruct (zt_num _ _ Hz) as [n Wn].
  destruct (lock_cycle t (mxs w) (zt_mx _ _ Hz)) as (m1 & m2 & E1 & E2 & Hm2). pose proof Hx as [_ [Ht0 ?] [? ?] [? ?] A1 A2 A3 [Hi _]].
  assert (Hl : s32 (sh_lock x) = sh_lock x) by (apply s32_small; lia). pose proof (zt_taken _ _ Hz) as Wt.
  unfold trnmnt_tree_acquire. rewrite (proj2 (Z.eqb_neq _ 0)) by lia. go. rewrite W2. go. rewrite W4. go. rewrite Hl, E1. go. rewrite W5. go.
  rewrite u32_small, elem_0, Wt by lia. go. destruct Hv as [-> | ->]; go.
  - rewrite W5. go. rewrite u32_small, elem_0, Wt by lia. go.
    set (w1 := <[sh_taken x := 1]> (heap w)).
    assert (Hw1 : forall a, sh_tree x <= a < sh_tree x + 32 -> w1 !! a = heap w !! a) by (intros a Ha; apply lookup_insert_ne; lia).
    rewrite !(Hw1 (t_num_of_locked _)), Wn by (unfold t_num_of_locked; lia). go. set (w2 := <[t_num_of_locked _ := _]> w1).
    assert (Hw2 : forall a, sh_tree x <= a < sh_tree x + 32 -> a <> t_num_of_locked (sh_tree x) -> w2 !! a = heap w !! a).
    { intros a Ha Hne. unfold w2. rewrite lookup_insert_ne by done. by apply Hw1. }
    unfold t_num_of_locked in Hw2. rewrite Hw2, W4 by (unfold t_lock; lia). go. rewrite Hl, E2. go.
    rewrite Hw2, W3 by (unfold t_total_nodes; lia). go. rewrite Hw2, W2 by (unfold t_threads; lia). go.
    rewrite Hw2, W1 by (unfold t_depth; lia). go. eexists. split; [reflexivity|].
    exact (zero_mutexes 1 (w <| heap := w2 |>) m2 (zero_store 0 1 _ w Hz) Hm2).
  - rewrite W4. go. rewrite Hl, E2. eexists. split; [reflexivity|]. exact (zero_mutexes 1 w m2 Hz Hm2).
Qed.

(** Release: the parent of the only leaf is taken to be the root, which nobody locked. *)
Lemma zero_release (t : T) w : zero_tree 1 w ->
  exists w', exec t (trnmnt_tree_release (sh_tree x) 0) w = Some (-1, w') /\ zero_tree 1 w'.
Proof.
  intros Hz. destruct (zero_words 1 w Hz) as (W1 & W2 & W3 & W4 & W5 & W6 & W7).
  destruct (lock_cycle t (mxs w) (zt_mx _ _ Hz)) as (m1 & m2 & E1 & E2 & Hm2). pose proof Hx as [_ [Ht0 ?] [? ?] [? ?] A1 A2 A3 (Hi & Hi' & _)].
  assert (Hl : s32 (sh_lock x) = sh_lock x) by (apply s32_small; lia). pose proof (zt_taken _ _ Hz) as Wt.
  unfold trnmnt_tree_release. rewrite (proj2 (Z.eqb_neq _ 0)) by lia. go. rewrite W2. go. rewrite W4. go. rewrite Hl, E1. go. rewrite W5. go.
  rewrite u32_small, elem_0, Wt by lia. go. rewrite W4. go. rewrite Hl, E2. go. rewrite W3. go. rewrite W2. go. rewrite W6. go.
  rewrite u32_small, elem_0, W7 by lia. go. rewrite s32_small by lia.
  rewrite (mx_unlock_not m2 t (sh_node x 0)); [|apply Hm2|lia|by rewrite (proj2 (proj2 Hm2))]. go.
  eexists. split; [reflexivity|]. exact (zero_mutexes 1 w m2 Hz Hm2).
Qed.

(** Calls of acquire ([true]) and release ([false]) with the only id, one after the
    other, each by some thread: their results. *)
Fixpoint attempts (cs : list (T * bool)) (w : world M) : option (list Z * world M) :=
  match cs with
  | [] => Some ([], w)
  | (t, b) :: cs' =>
    o ← exec t (if b then trnmnt_tree_acquire (sh_tree x) 0 else trnmnt_tree_release (sh_tree x) 0) w;
    r ← attempts cs' o.2;
    Some (o.1 :: r.1, r.2)
  end.

Lemma attempts_fail cs : forall w, zero_tree 1 w -> exists w', attempts cs w = Some (replicate (length cs) (-1), w') /\ zero_tree 1 w'.
Proof.
  induction cs as [|[t b] cs IH]; intros w Hz; cbn [attempts]; [by eexists|].
  assert (E : exists w', exec t (if b then trnmnt_tree_acquire (sh_tree x) 0 else trnmnt_tree_release (sh_tree x) 0) w = Some (-1, w') /\ zero_tree 1 w').
  { destruct b; [apply (zero_acquire t 1 w Hz); by right|by apply zero_release]. }
  destruct E as (w1 & -> & Hz1). cbn. destruct (IH w1 Hz1) as (w2 & -> & Hz2). by eexists.
Qed.
End DepthZero.

(** C36: a tree of depth 0 can be acquired once and never again.  On any fresh tree of
    depth 0, over any mutexes that keep their specification, the first acquire by any
    thread returns 0 and locks no node; from then on every acquire and every release,
    by whatever thread and in whatever order, returns -1: release takes the root for
    the parent of the only leaf, fails to unlock it, and leaves the id taken. *)
Theorem depth_zero_stuck {M T} `{MutexSpec M T} (x : shape) (w : world M) (t : T) (Hx : zero_ok x) (Hw : fresh_tree x w) :
  exists w1, exec t (trnmnt_tree_acquire (sh_tree x) 0) w = Some (0, w1) /\
    forall cs, exists w2, attempts x cs w1 = Some (replicate (length cs) (-1), w2).
Proof.
  destruct (zero_acquire x Hx t 0 w (fresh_zero x Hx w Hw) (or_introl eq_refl)) as (w1 & E & Hz). exists w1. split; [exact E|].
  intros cs. destruct (attempts_fail x Hx cs w1 Hz) as (w2 & E2 & _). by exists w2.
Qed.

(** The tree that [trnmnt_tree_alloc] builds for depth 0. *)
Definition zero_shape : shape := Shape 8480 1 8448 8464 0 (fun i => i + 2).
Definition zero_world : world mtable :=
  match exec (T := nat * nat) (0%nat, 0%nat) (alloc 0) demo_world with Some (_, w) => w | None => demo_world end.

Lemma zero_shape_ok : zero_ok zero_shape.
Proof. split; cbn; lia || done. Qed.

Lemma zero_fresh : fresh_tree zero_shape zero_world.
Proof.
  assert (Hm : mxs zero_world = new_table 2) by (vm_compute; reflexivity). destruct (new_table_ok 2 ltac:(lia)) as [Hok Ho].
  rewrite <- Hm in Hok, Ho. split.
  - intros a v [| | | | | |i Hi]; try (vm_compute; reflexivity). change (total zero_shape) with 1 in Hi.
    replace i with 0 by lia. vm_compute. reflexivity.
  - intros j Hj. change (leaves zero_shape) with 1%nat in Hj. replace j with 0%nat by lia. vm_compute. reflexivity.
  - vm_compute. reflexivity.
  - exact Hok.
  - intros id [|i Hi]; [exact (Ho 1 ltac:(lia))|]. change (total zero_shape) with 1 in Hi. refine (Ho (i + 2) _). lia.
Qed.

Lemma depth_zero_stuck_witness :
  (exists w1, exec (T := nat * nat) (0%nat, 0%nat) (trnmnt_tree_acquire 8480 0) zero_world = Some (0, w1) /\
    forall cs, exists w2, attempts zero_shape cs w1 = Some (replicate (length cs) (-1), w2)) /\
  fst <$> exec (T := nat * nat) (0%nat, 0%nat) (alloc 0) demo_world = Some 8480.
Proof.
  split; [|vm_compute; reflexivity].
  exact (depth_zero_stuck zero_shape zero_world (0%nat, 0%nat) zero_shape_ok zero_fresh).
Defined.

(** [trnmnt_tree_alloc] does not initialise [taken_ids] and [num_of_locked]:
    in memory that [malloc] hands out again after a [free], the first acquire of
    a fresh tree can fail. *)
Theorem recycled_tree_taken :
  result (let! p := malloc demo_base demo_freep 8 256 in
          store (p + 184) 7 ;!; store (p + 188) 7 ;!;
          free demo_freep 8 p ;!;
          let! tree := alloc 1 in
          let! a := trnmnt_tree_acquire tree 0 in
          Done a) = Some (-1).
Proof. vm_compute. reflexivity. Qed.

(** [trnmnt_tree_dealloc] gives back the mutexes of the nodes but not
    [tree->lock]: each tree that is allocated and deallocated uses up one of the
    [MAX_MUTEXES] mutexes of the system for good. *)
Theorem dealloc_leaks_lock :
  (fun '(r, w) => (r, mx_owner (mxs w) 1, mx_owner (mxs w) 2)) <$>
    exec (T := nat * nat) (0%nat, 0%nat)
      (let! tree := alloc 1 in trnmnt_tree_dealloc demo_freep 8 tree) demo_world = Some (0, Some None, None).
Proof. vm_compute. reflexivity. Qed.
