(* ===== verification/Grep.v ===== *)
(** * grep.c: the matcher and the line loop

    [lang] is what a pattern means; [match_re] decides it.  [grep] is run on the
    results of its calls of [read], in order. *)
From S2P Require Import Prelude Bytes Cstring.
Local Open Scope Z_scope.

Definition STAR : Z := 42.
Definition DOT : Z := 46.
Definition DOLLAR : Z := 36.
Definition CARET : Z := 94.
Definition NEWLINE : Z := 10.

(** ** The code *)

(** [matchstar(c, re, text)], given [matchhere] at [re]. *)
Fixpoint matchstar (c : Z) (here : list Z -> option bool) (text : list Z) : option bool :=
  match here text with
  | None => None
  | Some true => Some true
  | Some false =>
    match text with
    | [] => None
    | t :: text' => if negb (t =? 0) && ((t =? c) || (c =? DOT)) then matchstar c here text' else Some false
    end
  end.

(** [matchhere(re, text)] *)
Fixpoint matchhere (re text : list Z) : option bool :=
  match re with
  | [] => None
  | c :: re1 =>
    if c =? 0 then Some true else
    match re1 with
    | [] => None
    | c1 :: re2 =>
      if c1 =? STAR then matchstar c (matchhere re2) text else
      match text with
      | [] => None
      | t :: text' =>
        if (c =? DOLLAR) && (c1 =? 0) then Some (t =? 0) else
        if negb (t =? 0) && ((c =? DOT) || (c =? t)) then matchhere re1 text' else Some false
      end
    end
  end.

(** The loop of [match]. *)
Fixpoint match_any (re text : list Z) : option bool :=
  match matchhere re text with
  | None => None
  | Some true => Some true
  | Some false =>
    match text with
    | [] => None
    | t :: text' => if t =? 0 then Some false else match_any re text'
    end
  end.

(** [match(re, text)] *)
Definition match_re (re text : list Z) : option bool :=
  match re with
  | [] => None
  | c :: re' => if c =? CARET then matchhere re' text else match_any re text
  end.

(** The inner loop of [grep]: the lines of [buf] from offset [p].  The result is
    the buffer, the offset behind the last line and what was written. *)
Fixpoint grep_lines (fuel : nat) (pattern buf : list Z) (p : nat) (out : list Z) : option (list Z * nat * list Z) :=
  match fuel with
  | O => None
  | S fuel' =>
    match strchr (drop p buf) NEWLINE with
    | None => None
    | Some None => Some (buf, p, out)
    | Some (Some rest) =>
      let q := (length buf - length rest)%nat in
      let buf1 := <[q := 0]> buf in
      match match_re pattern (drop p buf1) with
      | None => None
      | Some true =>
        let buf2 := <[q := NEWLINE]> buf1 in
        match sub p (q + 1 - p) buf2 with
        | Some l => grep_lines fuel' pattern buf2 (q + 1) (out ++ l)
        | None => None
        end
      | Some false => grep_lines fuel' pattern buf1 (q + 1) out
      end
    end
  end.

Definition BUF : nat := 1024.

(** The outer loop; [reads] is what the calls of [read] return, the empty list
    or the end of [reads] standing for a result that is not positive. *)
Fixpoint grep_loop (pattern : list Z) (reads : list (list Z)) (buf : list Z) (m : nat) (out : list Z) : option (list Z) :=
  match reads with
  | [] => Some out
  | d :: reads' =>
    let n := length d in
    if decide (n = O) then Some out else
    if decide (BUF - m - 1 < n)%nat then None else
    match splice m d buf with
    | None => None
    | Some buf =>
      let m := (m + n)%nat in
      let buf := <[m := 0]> buf in
      match grep_lines BUF pattern buf 0 out with
      | None => None
      | Some (buf, p, out) =>
        let m := if decide (p = O) then O else m in
        if decide (0 < m)%nat then
          let m := (m - p)%nat in
          match sub p m buf with
          | None => None
          | Some l => match splice 0 l buf with Some buf => grep_loop pattern reads' buf m out | None => None end
          end
        else grep_loop pattern reads' buf m out
      end
    end
  end.

Definition grep (pattern : list Z) (reads : list (list Z)) : option (list Z) :=
  grep_loop pattern reads (replicate BUF 0) 0 [].

(** ** What a pattern means *)

Inductive pat :=
| PAny                          (* the end of the pattern: any rest of the text *)
| PEnd                          (* $ *)
| POne (c : Z) (p : pat)        (* a character or . *)
| PStar (c : Z) (p : pat).

Fixpoint parse (re : list Z) : pat :=
  match re with
  | [] => PAny
  | c :: re1 =>
    match re1 with
    | c1 :: re2 => if c1 =? STAR then PStar c (parse re2) else POne c (parse re1)
    | [] => if c =? DOLLAR then PEnd else POne c PAny
    end
  end.

Definition fits (c t : Z) : Prop := c = DOT \/ c = t.

(** The texts that a pattern matches from their first character. *)
Inductive lang : pat -> list Z -> Prop :=
| lang_any t : lang PAny t
| lang_end : lang PEnd []
| lang_one c p x t : fits c x -> lang p t -> lang (POne c p) (x :: t)
| lang_star c p u t : Forall (fits c) u -> lang p t -> lang (PStar c p) (u ++ t).

Definition occurs (re t : list Z) : Prop :=
  match re with
  | c :: re' => if c =? CARET then lang (parse re') t else exists u v, t = u ++ v /\ lang (parse re) v
  | [] => True
  end.

Definition plain (s : list Z) : Prop := Forall (fun c => c <> 0) s.

(** ** The matcher decides it *)

(** [o] is the answer to the question [P]. *)
Definition answers (o : option bool) (P : Prop) : Prop := exists b, o = Some b /\ (b = true <-> P).

Lemma answers_iff o P Q : answers o P -> (P <-> Q) -> answers o Q.
Proof. intros (b & Ho & Hb) HPQ. exists b. by rewrite <- HPQ. Qed.

Lemma answers_yes (P : Prop) : P -> answers (Some true) P.
Proof. intros. by exists true. Qed.
Lemma answers_no (P : Prop) : ~ P -> answers (Some false) P.
Proof. intros. by exists false. Qed.

Lemma lang_star_cons c p x t : lang (PStar c p) (x :: t) <-> lang p (x :: t) \/ fits c x /\ lang (PStar c p) t.
Proof.
  split.
  - intros H. inversion H as [| | |? ? u t' Hu Ht Hc He]. destruct u as [|y u]; simplify_eq/=; [by left|].
    right. inversion Hu. by split; [|constructor].
  - intros [H|[Hf H]]; [by apply (lang_star c p [])|].
    inversion H as [| | |? ? u t' Hu Ht]; subst. apply (lang_star c p (x :: u)); [by constructor|done].
Qed.

Lemma lang_star_nil c p : lang (PStar c p) [] <-> lang p [].
Proof.
  split; [|by apply (lang_star c p [])]. intros H. inversion H as [| | |? ? u t' Hu Ht Hc He].
  apply app_eq_nil in He as [-> ->]. done.
Qed.

Section Matcher.
Context (jr jt : list Z).

Lemma matchstar_eq c here text :
  matchstar c here text =
  match here text with
  | Some false =>
    match text with
    | t :: text' => if negb (t =? 0) && ((t =? c) || (c =? DOT)) then matchstar c here text' else Some false
    | [] => None
    end
  | o => o
  end.
Proof. destruct text; cbn; by destruct (here _) as [[]|]. Qed.

Lemma match_any_eq re text :
  match_any re text =
  match matchhere re text with
  | Some false => match text with t :: text' => if t =? 0 then Some false else match_any re text' | [] => None end
  | o => o
  end.
Proof. destruct text; cbn; by destruct (matchhere re _) as [[]|]. Qed.

Lemma matchstar_spec c here p t :
  plain t -> (forall t', plain t' -> answers (here (t' ++ 0 :: jt)) (lang p t')) ->
  answers (matchstar c here (t ++ 0 :: jt)) (lang (PStar c p) t).
Proof.
  intros Ht Hh. induction Ht as [|x t Hx Ht IH];
    [destruct (Hh [] ltac:(constructor)) as (b & Hb & Hl)|destruct (Hh (x :: t) ltac:(by constructor)) as (b & Hb & Hl)];
    cbn [app] in Hb |- *; rewrite matchstar_eq, Hb.
  - destruct b; cbn; [apply answers_yes|apply answers_no]; rewrite lang_star_nil; naive_solver.
  - destruct b; [apply answers_yes; apply lang_star_cons; naive_solver|].
    rewrite (proj2 (Z.eqb_neq x 0)) by done. cbn [negb andb].
    destruct (Z.eqb_spec x c), (Z.eqb_spec c DOT); cbn [orb];
      try (eapply answers_iff; [exact IH|]; rewrite lang_star_cons; unfold fits; naive_solver).
    apply answers_no. rewrite lang_star_cons. unfold fits. naive_solver.
Qed.

Lemma matchhere_eq c c1 re2 text :
  c <> 0 ->
  matchhere (c :: c1 :: re2) text =
  if c1 =? STAR then matchstar c (matchhere re2) text else
  match text with
  | [] => None
  | t :: text' =>
    if (c =? DOLLAR) && (c1 =? 0) then Some (t =? 0) else
    if negb (t =? 0) && ((c =? DOT) || (c =? t)) then matchhere (c1 :: re2) text' else Some false
  end.
Proof. intros Hc. cbn. by rewrite (proj2 (Z.eqb_neq c 0)) by done. Qed.

Lemma parse_eq c c1 re2 :
  parse (c :: c1 :: re2) = if c1 =? STAR then PStar c (parse re2) else POne c (parse (c1 :: re2)).
Proof. done. Qed.

(** One character of the text against one of the pattern. *)
Lemma one_spec c p x t o :
  x <> 0 -> answers o (lang p t) ->
  answers (if negb (x =? 0) && ((c =? DOT) || (c =? x)) then o else Some false) (lang (POne c p) (x :: t)).
Proof.
  intros Hx Ho. rewrite (proj2 (Z.eqb_neq x 0)) by done.
  destruct (Z.eqb_spec c DOT), (Z.eqb_spec c x); cbn [negb andb orb];
    try (eapply answers_iff; [exact Ho|]; split; [intros; constructor; [unfold fits; auto|done]|by inversion 1]).
  apply answers_no. inversion 1. unfold fits in *. naive_solver.
Qed.

Lemma matchhere_spec n r t :
  (length r <= n)%nat -> plain r -> plain t -> answers (matchhere (r ++ 0 :: jr) (t ++ 0 :: jt)) (lang (parse r) t).
Proof.
  revert r t. induction n as [|n IH]; intros r t Hn Hr Ht; destruct r as [|c r]; cbn in Hn; try lia.
  1-2: apply answers_yes; constructor.
  apply Forall_cons in Hr as [Hc Hr]. destruct r as [|c1 r].
  - cbn [app]. rewrite matchhere_eq by done. cbn [parse Z.eqb]. change (0 =? STAR) with false. cbn iota.
    destruct (Z.eqb_spec c DOLLAR) as [->|Hd]; destruct t as [|x t]; cbn [app andb].
    + apply answers_yes. constructor.
    + apply Forall_cons in Ht as [Hx _]. rewrite (proj2 (Z.eqb_neq x 0)) by done. apply answers_no. inversion 1.
    + apply answers_no. inversion 1.
    + apply Forall_cons in Ht as [Hx _]. apply one_spec; [done|]. apply answers_yes. constructor.
  - cbn [app]. rewrite matchhere_eq, parse_eq by done. apply Forall_cons in Hr as [Hc1 Hr2].
    destruct (Z.eqb_spec c1 STAR) as [->|Hs].
    + apply matchstar_spec; [done|]. intros t' Ht'. apply IH; [cbn in Hn; lia|done..].
    + rewrite (proj2 (Z.eqb_neq c1 0)), andb_false_r by done. destruct t as [|x t]; cbn [app].
      * apply answers_no. inversion 1.
      * apply Forall_cons in Ht as [Hx Ht]. apply one_spec; [done|]. apply (IH (c1 :: r)); [cbn in *; lia|by constructor|done].
Qed.

Lemma match_any_spec r t :
  plain r -> plain t -> answers (match_any (r ++ 0 :: jr) (t ++ 0 :: jt)) (exists u v, t = u ++ v /\ lang (parse r) v).
Proof.
  intros Hr Ht. induction Ht as [|x t Hx Ht IH];
    [destruct (matchhere_spec _ r [] (reflexivity _) Hr ltac:(constructor)) as (b & Hb & Hl)
    |destruct (matchhere_spec _ r (x :: t) (reflexivity _) Hr ltac:(by constructor)) as (b & Hb & Hl)];
    cbn [app] in Hb |- *; rewrite match_any_eq, Hb.
  all: destruct b; [apply answers_yes; eexists [], _; split; [done|naive_solver]|].
  - cbn. apply answers_no. intros (u & v & He & Hv). symmetry in He. apply app_eq_nil in He as [-> ->]. naive_solver.
  - rewrite (proj2 (Z.eqb_neq x 0)) by done. eapply answers_iff; [exact IH|]. split.
    + intros (u & v & -> & Hv). by exists (x :: u), v.
    + intros ([|y u] & v & He & Hv); simplify_eq/=; [naive_solver|]. by exists u, v.
Qed.

Lemma match_re_spec r t : plain r -> plain t -> answers (match_re (r ++ 0 :: jr) (t ++ 0 :: jt)) (occurs r t).
Proof.
  intros Hr Ht. destruct r as [|c r].
  - cbn. destruct t; by apply answers_yes.
  - cbn. case_match; [|by apply (match_any_spec (c :: r))]. inversion Hr; subst. by eapply matchhere_spec.
Qed.
End Matcher.

(** ** The line loop *)

Definition line (l : list Z) : Prop := Forall (fun c => c <> 0 /\ c <> NEWLINE) l.
Definition text (ls : list (list Z)) : list Z := concat ((fun l => l ++ [NEWLINE]) <$> ls).

(** [out] is made of the lines of [ls] that contain the pattern, in order. *)
Inductive selected (re : list Z) : list (list Z) -> list Z -> Prop :=
| sel_nil : selected re [] []
| sel_yes l ls out : occurs re l -> selected re ls out -> selected re (l :: ls) (l ++ NEWLINE :: out)
| sel_no l ls out : ~ occurs re l -> selected re ls out -> selected re (l :: ls) out.

Lemma selected_app re ls ls' out out' :
  selected re ls out -> selected re ls' out' -> selected re (ls ++ ls') (out ++ out').
Proof. induction 1; intros; cbn; [done| |by constructor; auto]. rewrite <- app_assoc. constructor; auto. Qed.

Lemma strchr_line l rest : line l -> strchr (l ++ NEWLINE :: rest) NEWLINE = Some (Some (NEWLINE :: rest)).
Proof.
  induction 1 as [|c l [H0 Hn] Hl IH]; [done|]. cbn [app strchr].
  by rewrite (proj2 (Z.eqb_neq c 0)), (proj2 (Z.eqb_neq c NEWLINE)) by done.
Qed.

Lemma line_plain l : line l -> plain l.
Proof. intros H. eapply Forall_impl; [exact H|]. naive_solver. Qed.

Section Lines.
Context (re jr : list Z) (Hre : plain re).

Lemma grep_lines_spec ls fuel pre post out :
  (length ls < fuel)%nat -> Forall line ls ->
  exists pre' o, grep_lines fuel (re ++ 0 :: jr) (pre ++ text ls ++ 0 :: post) (length pre) out =
      Some (pre' ++ 0 :: post, length pre', out ++ o) /\
    length pre' = (length pre + length (text ls))%nat /\ selected re ls o.
Proof.
  revert fuel pre out. induction ls as [|l ls IH]; intros fuel pre out Hf Hl; (destruct fuel as [|fuel]; [cbn in *; lia|]).
  - exists pre, []. cbn [grep_lines text concat fmap list_fmap app]. rewrite drop_app_length, app_nil_r. cbn.
    split_and!; [done|lia|constructor].
  - apply Forall_cons in Hl as [Hl Hls]. set (rest := text ls ++ 0 :: post).
    assert (Hb : text (l :: ls) ++ 0 :: post = l ++ NEWLINE :: rest) by (unfold text, rest; cbn; by rewrite <- !app_assoc).
    rewrite Hb. cbn [grep_lines]. rewrite drop_app_length, (strchr_line _ _ Hl).
    replace (length (pre ++ l ++ NEWLINE :: rest) - length (NEWLINE :: rest))%nat with (length (pre ++ l) + 0)%nat
      by (rewrite !length_app; lia).
    assert (Hins : forall c c', <[(length (pre ++ l) + 0)%nat := c]> (pre ++ l ++ c' :: rest) = pre ++ l ++ c :: rest).
    { intros c c'. rewrite (app_assoc pre), insert_app_r. by rewrite <- app_assoc. }
    rewrite !Hins, drop_app_length.
    destruct (match_re_spec jr rest re l Hre (line_plain _ Hl)) as (b & -> & Hb').
    assert (Hlen : forall c, length (pre ++ l ++ [c]) = (length (pre ++ l) + 0 + 1)%nat) by (intros; rewrite !length_app; cbn; lia).
    assert (Hshape : forall c, pre ++ l ++ c :: rest = (pre ++ l ++ [c]) ++ text ls ++ 0 :: post) by (intros; by rewrite <- !app_assoc).
    assert (Hsum : (length (pre ++ l) + 0 + 1 + length (text ls) = length pre + length (text (l :: ls)))%nat).
    { unfold text. cbn. rewrite !length_app. cbn. lia. }
    destruct b.
    + replace (length (pre ++ l) + 0 + 1 - length pre)%nat with (length (l ++ [NEWLINE])) by (rewrite !length_app; cbn; lia).
      unfold sub. rewrite decide_True by (rewrite !length_app; cbn; lia).
      rewrite drop_app_length. replace (l ++ NEWLINE :: rest) with ((l ++ [NEWLINE]) ++ rest) by (by rewrite <- app_assoc).
      rewrite take_app_length. rewrite <- (app_assoc l). cbn [app]. rewrite Hshape, <- (Hlen NEWLINE).
      destruct (IH fuel (pre ++ l ++ [NEWLINE]) (out ++ l ++ [NEWLINE])) as (pre' & o & E & Hp & Hs); [cbn in Hf; lia|done|].
      rewrite E. exists pre', ((l ++ [NEWLINE]) ++ o). split_and!; [by rewrite <- (app_assoc out)|rewrite Hp, Hlen; lia|].
      rewrite <- app_assoc. cbn. constructor; [naive_solver|done].
    + rewrite Hshape, <- (Hlen 0).
      destruct (IH fuel (pre ++ l ++ [0]) out) as (pre' & o & E & Hp & Hs); [cbn in Hf; lia|done|].
      rewrite E. exists pre', o. split_and!; [done|rewrite Hp, Hlen; lia|]. constructor; [naive_solver|done].
Qed.

Lemma text_app ls ls' : text (ls ++ ls') = text ls ++ text ls'.
Proof. unfold text. by rewrite fmap_app, concat_app. Qed.

Lemma text_length ls : (length ls <= length (text ls))%nat.
Proof. unfold text. induction ls as [|l ls IH]; cbn; [done|]. rewrite !length_app. cbn. lia. Qed.

(** The loop on reads that each return whole lines. *)
Lemma grep_loop_spec chunks buf out :
  length buf = BUF -> Forall (fun ls => ls <> [] /\ Forall line ls /\ (length (text ls) < BUF)%nat) chunks ->
  exists o, grep_loop (re ++ 0 :: jr) (text <$> chunks) buf 0 out = Some (out ++ o) /\ selected re (concat chunks) o.
Proof.
  intros Hb Hc. revert buf out Hb. induction Hc as [|ls chunks (Hne & Hl & Hlen) Hc IH]; intros buf out Hb.
  - exists []. cbn. rewrite app_nil_r. split; [done|constructor].
  - cbn [fmap list_fmap grep_loop concat]. pose proof (text_length ls) as Htl.
    assert (Hls : (0 < length ls)%nat) by (destruct ls; [done|cbn; lia]). assert (Hpos : (0 < length (text ls))%nat) by lia.
    rewrite decide_False, decide_False by lia. unfold splice at 1. rewrite decide_True by lia. cbn [take app Nat.add].
    assert (Hd : exists c post, drop (length (text ls)) buf = c :: post).
    { destruct (drop (length (text ls)) buf) as [|c post] eqn:E; [|by eauto]. apply (f_equal length) in E.
      rewrite length_drop in E. cbn in E. lia. }
    destruct Hd as (c & post & Hd). rewrite Hd.
    pose proof (insert_app_r (text ls) (c :: post) 0 0) as Hins. rewrite Nat.add_0_r in Hins. rewrite take_0, app_nil_l, Hins. cbn [insert list_insert].
    destruct (grep_lines_spec ls BUF [] post out) as (pre' & o & E & Hp & Hs); [lia|done|].
    cbn [app length Nat.add] in E, Hp. rewrite E, Hp. rewrite !(decide_False (P := length (text ls) = 0%nat)) by lia. rewrite decide_True by lia.
    rewrite Nat.sub_diag. unfold sub. rewrite decide_True by (rewrite length_app; lia). rewrite take_0. unfold splice.
    rewrite decide_True by (cbn; lia). rewrite take_0. cbn [length Nat.add app]. rewrite drop_0.
    destruct (IH (pre' ++ 0 :: post) (out ++ o)) as (o' & E' & Hs').
    { apply (f_equal length) in Hd. rewrite length_drop in Hd. rewrite length_app, Hp. cbn in Hd |- *. lia. }
    rewrite E'. exists (o ++ o'). rewrite app_assoc. split; [done|by apply selected_app].
Qed.
End Lines.

(** ** Theorems *)

(** C38: grep's matcher decides its patterns: on NUL-terminated strings [match] always
    returns, never reads behind the terminators, and returns 1 exactly when the
    pattern, read as [^], [$], [.], [c*] and literal characters, matches the text
    (at its start for [^], anywhere otherwise). *)
Theorem grep_match (re text jr jt : list Z) (Hre : plain re) (Ht : plain text) :
  exists b, match_re (re ++ 0 :: jr) (text ++ 0 :: jt) = Some b /\ (b = true <-> occurs re text).
Proof. by apply match_re_spec. Qed.

Lemma grep_match_witness :
  (* ab*.$ in xabbc *)
  exists b, match_re [97; 98; 42; 46; 36; 0] [120; 97; 98; 98; 99; 0] = Some b /\
    (b = true <-> occurs [97; 98; 42; 46; 36] [120; 97; 98; 98; 99]).
Proof.
  apply (grep_match [97; 98; 42; 46; 36] [120; 97; 98; 98; 99] [] []).
  - repeat constructor; done.
  - repeat constructor; done.
Defined.

(** [grep] prints exactly the matching lines, in order, when each [read] returns
    whole lines that fit the buffer. *)
Theorem grep_whole_lines (re jr : list Z) (chunks : list (list (list Z))) (Hre : plain re)
    (Hc : Forall (fun ls => ls <> [] /\ Forall line ls /\ (length (text ls) < BUF)%nat) chunks) :
  exists out, grep (re ++ 0 :: jr) (text <$> chunks) = Some out /\ selected re (concat chunks) out.
Proof.
  destruct (grep_loop_spec re jr Hre chunks (replicate BUF 0) []) as (o & E & Hs); [by rewrite length_replicate|done|].
  by exists o.
Qed.

Lemma grep_whole_lines_witness :
  exists out, grep [98; 0] [[97; 10; 97; 98; 10]; [98; 10]] = Some out /\ selected [98] [[97]; [97; 98]; [98]] out.
Proof.
  apply (grep_whole_lines [98] [] [[[97]; [97; 98]]; [[98]]]).
  - repeat constructor; done.
  - repeat constructor; (done || (vm_compute; lia)).
Defined.

(** A line that reaches [grep] in two reads loses its beginning: when a read
    ends before any newline, [m] is reset to 0 although the line goes on, so
    ["ab\n"] read as ["a"] and ["b\n"] does not match [a]. *)
Theorem grep_split_line :
  grep [97; 0] [[97; 98; 10]] = Some [97; 98; 10] /\ grep [97; 0] [[97]; [98; 10]] = Some [].
Proof. split; vm_compute; reflexivity. Qed.
