(* ===== verification/Printf.v ===== *)
(** * Formatted printing in user programs (printf.c)

    [printf] is modelled by the bytes it passes to [putc], each a [write] of one
    byte, in order; [None] is an access outside an object: the 16 bytes of
    [printint]'s buffer, the arguments, a string. *)
From S2P Require Import Prelude Cstring.
Local Open Scope Z_scope.

(** An argument of a variadic function: a word, or a pointer to a string. *)
Inductive arg :=
| AWord (v : Z)
| AStr (s : list Z)
| ANull.

(** do buf[i++] = digits[x % base]; while((x /= base) != 0);
    A [uint] has at most 32 digits in any base from 2 on. *)
Fixpoint digit_loop (fuel : nat) (digits : list Z) (x base : Z) (buf : list Z) : option (list Z) :=
  match fuel with
  | O => None
  | S fuel' =>
    if decide (16 <= length buf)%nat then None else
    match digits !! Z.to_nat (x mod base) with
    | None => None
    | Some d =>
      let buf := buf ++ [d] in
      let x := x / base in
      if x =? 0 then Some buf else digit_loop fuel' digits x base buf
    end
  end.

Definition upper_digits : list Z := [48; 49; 50; 51; 52; 53; 54; 55; 56; 57; 65; 66; 67; 68; 69; 70].

(** [printint(fd, xx, base, sgn)] *)
Definition printint (xx base sgn : Z) : option (list Z) :=
  let '(neg, x) := if c_true sgn && (xx <? 0) then (true, u32 (- xx)) else (false, u32 xx) in
  match digit_loop 33 upper_digits x base [] with
  | None => None
  | Some buf =>
    let buf := if neg : bool then buf ++ [45] else buf in
    if decide (16 < length buf)%nat then None else Some (reverse buf)
  end.

(** while *s != 0 { putc(fd, *s); s++; }: the bytes up to the NUL. *)
Fixpoint put_str (s : list Z) : option (list Z) :=
  match s with
  | [] => None
  | c :: s' => if c =? 0 then Some [] else cons c <$> put_str s'
  end.

Definition null_str : list Z := [40; 110; 117; 108; 108; 41; 0].

(** One character behind a %: what is printed and the arguments that are left. *)
Definition print_conv (c : Z) (ap : list arg) : option (list Z * list arg) :=
  if c =? 100 then
    match ap with AWord v :: ap' => (fun o => (o, ap')) <$> printint (s32 v) 10 1 | _ => None end
  else if (c =? 120) || (c =? 112) then
    match ap with AWord v :: ap' => (fun o => (o, ap')) <$> printint (s32 v) 16 0 | _ => None end
  else if c =? 115 then
    match ap with
    | AStr s :: ap' => (fun o => (o, ap')) <$> put_str s
    | ANull :: ap' => (fun o => (o, ap')) <$> put_str null_str
    | _ => None
    end
  else if c =? 99 then
    match ap with AWord v :: ap' => Some ([u8 v], ap') | _ => None end
  else if c =? 37 then Some ([37], ap)
  else Some ([37; c], ap).

(** The loop over the format; [state] is 0 or '%'. *)
Fixpoint printf_loop (fmt : list Z) (ap : list arg) (state : bool) : option (list Z) :=
  match fmt with
  | [] => None
  | c :: fmt' =>
    if c =? 0 then Some [] else
    if state then
      match print_conv c ap with
      | Some (o, ap') => app o <$> printf_loop fmt' ap' false
      | None => None
      end
    else if c =? 37 then printf_loop fmt' ap true
    else cons c <$> printf_loop fmt' ap false
  end.

Definition printf (fmt : list Z) (args : list arg) : option (list Z) := printf_loop fmt args false.

(** ** Digits *)

(** The number a list of digits stands for, least significant first. *)
Fixpoint num (base : Z) (ds : list Z) : Z :=
  match ds with [] => 0 | d :: ds' => d + base * num base ds' end.

Lemma num_nonneg base ds : 0 <= base -> Forall (fun d => 0 <= d < base) ds -> 0 <= num base ds.
Proof. intros Hb. induction 1 as [|d ds Hd _ IH]; cbn; nia. Qed.

Definition digit_of (d : Z) : Z := if d <? 10 then 48 + d else 55 + d.

Lemma upper_digit d : 0 <= d < 16 -> upper_digits !! Z.to_nat d = Some (digit_of d).
Proof.
  intros Hd. assert (H : exists n, d = Z.of_nat n /\ (n < 16)%nat) by (exists (Z.to_nat d); lia).
  destruct H as (n & -> & Hn). rewrite Nat2Z.id. do 16 (destruct n as [|n]; [done|]). lia.
Qed.

Lemma digit_loop_spec n fuel x base buf :
  (n <= fuel)%nat -> 2 <= base <= 16 -> 0 <= x -> x < base ^ Z.of_nat n -> (0 < n)%nat -> (length buf + n <= 16)%nat ->
  exists ds, digit_loop fuel upper_digits x base buf = Some (buf ++ (digit_of <$> ds)) /\
    num base ds = x /\ Forall (fun d => 0 <= d < base) ds /\ (0 < length ds <= n)%nat.
Proof.
  revert fuel x buf. induction n as [|n IH]; intros fuel x buf Hf Hb Hx Hn Hpos Hl; [lia|].
  destruct fuel as [|fuel]; [lia|]. cbn [digit_loop]. rewrite decide_False by lia.
  pose proof (Z.mod_pos_bound x base ltac:(lia)) as Hm. rewrite upper_digit by lia.
  pose proof (Z.div_mod x base ltac:(lia)) as Hdm.
  destruct (Z.eqb_spec (x / base) 0) as [Hz|Hz].
  - exists [x mod base]. cbn. split_and!; [done|lia|by apply Forall_singleton|lia|lia].
  - assert (Hq : 0 <= x / base) by (apply Z.div_pos; lia).
    assert (Hlt : x / base < base ^ Z.of_nat n).
    { apply Z.div_lt_upper_bound; [lia|]. by rewrite <- Z.pow_succ_r, <- Nat2Z.inj_succ by lia. }
    assert (0 < n)%nat. { destruct n; [cbn in Hlt; lia|lia]. }
    destruct (IH fuel (x / base) (buf ++ [digit_of (x mod base)])) as (ds & E & Hnum & Hds & Hlen); try lia.
    { rewrite length_app. cbn. lia. }
    exists (x mod base :: ds). rewrite E, <- app_assoc. cbn. split_and!; [done|rewrite Hnum; lia|by constructor|lia|lia].
Qed.

(** ** The number is printed, and [atoi] reads it back *)

Lemma atoi_loop_digits ds n rest c :
  Forall (fun d => 0 <= d < 10) ds -> 0 <= n -> ~ (48 <= c <= 57) ->
  n * 10 ^ Z.of_nat (length ds) + num 10 (reverse ds) < 2 ^ 31 ->
  atoi_loop ((digit_of <$> ds) ++ c :: rest) n = Some (n * 10 ^ Z.of_nat (length ds) + num 10 (reverse ds)).
Proof.
  intros Hds. revert n. induction Hds as [|d ds Hd Hds IH]; intros n Hn Hc Hlt.
  - cbn. destruct (Z.leb_spec 48 c), (Z.leb_spec c 57); cbn; try lia; f_equal; lia.
  - assert (Hsnoc : num 10 (reverse ds ++ [d]) = num 10 (reverse ds) + d * 10 ^ Z.of_nat (length ds)).
    { rewrite <- (length_reverse ds). generalize (reverse ds) as l. induction l as [|a l IHl]; cbn [app num length]; [lia|].
      rewrite IHl, Nat2Z.inj_succ, Z.pow_succ_r by lia. lia. }
    rewrite reverse_cons, Hsnoc in *. cbn [length fmap list_fmap app] in *. rewrite Nat2Z.inj_succ, Z.pow_succ_r in * by lia.
    cbn [atoi_loop]. assert (Hdig : digit_of d = 48 + d) by (unfold digit_of; by rewrite (proj2 (Z.ltb_lt _ _)) by lia).
    rewrite Hdig, !(proj2 (Z.leb_le _ _)) by lia. cbn [andb].
    pose proof (Z.pow_pos_nonneg 10 (Z.of_nat (length ds)) ltac:(lia) ltac:(lia)) as Hp.
    pose proof (num_nonneg 10 (reverse ds) ltac:(lia) (proj2 (Forall_reverse _ _) Hds)).
    assert (Hs : n * 10 + (48 + d) - 48 = n * 10 + d) by lia. rewrite Hs, s32_small by nia.
    rewrite IH; [f_equal; lia|lia|done|lia].
Qed.

(** ** Theorems *)

(** [printint] never leaves its buffer: every [int] in base 10 or 16, signed or not,
    takes at most 11 of its 16 bytes. *)
Lemma printint_total xx base sgn :
  base = 10 \/ base = 16 -> - 2 ^ 31 <= xx < 2 ^ 31 ->
  exists ds, printint xx base sgn = Some ((if c_true sgn && (xx <? 0) then [45] else []) ++ (digit_of <$> reverse ds)) /\
    num base ds = (if c_true sgn && (xx <? 0) then - xx else u32 xx) /\
    Forall (fun d => 0 <= d < base) ds /\ (0 < length ds <= 10)%nat.
Proof.
  intros Hb Hx. unfold printint. set (neg := c_true sgn && (xx <? 0)).
  set (x := if neg then - xx else u32 xx). assert (Hxr : 0 <= x < 2 ^ 32).
  { unfold x, neg. destruct (c_true sgn); cbn; [|apply u32_range]. destruct (Z.ltb_spec xx 0); [lia|apply u32_range]. }
  assert (Hn : (if neg then (true, u32 (- xx)) else (false, u32 xx)) = (neg, x)).
  { unfold x. destruct neg eqn:E; [|done]. rewrite u32_small; [done|]. unfold neg in E. to_prop. lia. }
  rewrite Hn. destruct (digit_loop_spec 10 33 x base []) as (ds & E & Hnum & Hds & Hl); try (cbn; lia).
  rewrite E. exists ds. cbn [app]. rewrite decide_False.
  2:{ destruct neg; rewrite ?length_app, length_fmap; cbn; lia. }
  split_and!; try done; try lia. destruct neg.
  - rewrite reverse_app. cbn. by rewrite fmap_reverse.
  - by rewrite fmap_reverse.
Qed.

(** Printing and reading back: what [printf] prints for %d of a nonnegative
    [int], up to the character that follows it, is read by [atoi] as that number;
    for a negative one it prints a minus sign and the digits of its absolute
    value, the smallest [int] included. *)
Theorem printf_atoi (xx : Z) (c : Z) (rest : list Z) (Hx : - 2 ^ 31 <= xx < 2 ^ 31) (Hc : ~ (48 <= c <= 57)) :
  exists out, printf [37; 100; 0] [AWord (u32 xx)] = Some out /\
    (0 <= xx -> atoi (out ++ c :: rest) = Some xx) /\
    (xx < 0 -> exists ds, out = 45 :: (digit_of <$> reverse ds) /\ num 10 ds = - xx).
Proof.
  destruct (printint_total xx 10 1) as (ds & E & Hnum & Hds & Hl); [by left|done|]. unfold printf. cbn [printf_loop Z.eqb print_conv].
  assert (Hs : s32 (u32 xx) = xx).
  { unfold s32, u32. rewrite Zplus_mod_idemp_l. fold (s32 xx). by apply s32_small. }
  cbn. rewrite Hs, E. cbn. rewrite app_nil_r. eexists. split; [done|]. cbn in Hnum. split.
  - intros Hp. rewrite (proj2 (Z.ltb_ge _ _)) in * by done. cbn [app]. unfold atoi. rewrite u32_small in Hnum by lia.
    rewrite atoi_loop_digits; rewrite ?reverse_involutive; try lia; [by rewrite Hnum|by apply Forall_reverse].
  - intros Hp. rewrite (proj2 (Z.ltb_lt _ _)) in * by done. by exists ds.
Qed.

Lemma printf_atoi_witness :
  exists out, printf [37; 100; 0] [AWord (u32 (-2147483648))] = Some out /\
    (0 <= -2147483648 -> atoi (out ++ [0]) = Some (-2147483648)) /\
    (-2147483648 < 0 -> exists ds, out = 45 :: (digit_of <$> reverse ds) /\ num 10 ds = - -2147483648).
Proof.
  apply (printf_atoi (-2147483648) 0 []).
  - lia.
  - lia.
Defined.
