(* ===== verification/Kbd.v ===== *)
(** * The keyboard (kbd.c, kbd.h)

    Scan codes to characters.  The keyboard controller is a queue of bytes: its
    status register says whether one is waiting, its data register delivers it.  The
    theorem is about whole histories of key presses. *)
From S2P Require Import Prelude.
Local Open Scope Z_scope.

(** ** kbd.h *)

Definition NO : Z := 0.
Definition SHIFT : Z := 1.
Definition CTL : Z := 2.
Definition ALT : Z := 4.
Definition CAPSLOCK : Z := 8.
Definition NUMLOCK : Z := 16.
Definition SCROLLLOCK : Z := 32.
Definition E0ESC : Z := 64.

Definition KEY_HOME : Z := 0xE0.
Definition KEY_END : Z := 0xE1.
Definition KEY_UP : Z := 0xE2.
Definition KEY_DN : Z := 0xE3.
Definition KEY_LF : Z := 0xE4.
Definition KEY_RT : Z := 0xE5.
Definition KEY_PGUP : Z := 0xE6.
Definition KEY_PGDN : Z := 0xE7.
Definition KEY_INS : Z := 0xE8.
Definition KEY_DEL : Z := 0xE9.

(** C(x): control-x, of a character code. *)
Definition Ctl (x : Z) : Z := x - 64.

(** An array of 256 bytes with a list of first entries and designated initialisers; the
    rest is zero.  [None] is an index outside the array. *)
Definition table (first : list Z) (l : list (Z * Z)) (i : Z) : option Z :=
  if negb ((0 <=? i) && (i <? 256)) then None
  else if i <? Z.of_nat (length first) then first !! Z.to_nat i
  else Some (match list_find (fun kv => kv.1 = i) l with Some (_, kv) => kv.2 | None => 0 end).

Definition shiftcode : Z -> option Z :=
  table [] [(0x1D, CTL); (0x2A, SHIFT); (0x36, SHIFT); (0x38, ALT); (0x9D, CTL); (0xB8, ALT)].

Definition togglecode : Z -> option Z := table [] [(0x3A, CAPSLOCK); (0x45, NUMLOCK); (0x46, SCROLLLOCK)].

Definition normalmap : Z -> option Z := table
  [NO;  0x1B; 49;  50;  51;  52;  53;  54;   (* 0x00: ESC 1 2 3 4 5 6 *)
   55;  56;   57;  48;  45;  61;  8;   9;    (* 7 8 9 0 - = \b \t *)
   113; 119;  101; 114; 116; 121; 117; 105;  (* 0x10: q w e r t y u i *)
   111; 112;  91;  93;  10;  NO;  97;  115;  (* o p [ ] \n NO a s *)
   100; 102;  103; 104; 106; 107; 108; 59;   (* 0x20: d f g h j k l ; *)
   39;  96;   NO;  92;  122; 120; 99;  118;  (* quote ` NO \ z x c v *)
   98;  110;  109; 44;  46;  47;  NO;  42;   (* 0x30: b n m , . / NO * *)
   NO;  32;   NO;  NO;  NO;  NO;  NO;  NO;   (* NO space *)
   NO;  NO;   NO;  NO;  NO;  NO;  NO;  55;   (* 0x40: 7 *)
   56;  57;   45;  52;  53;  54;  43;  49;   (* 8 9 - 4 5 6 + 1 *)
   50;  51;   48;  46;  NO;  NO;  NO;  NO]   (* 0x50: 2 3 0 . *)
  [(0x9C, 10); (0xB5, 47); (0xC8, KEY_UP); (0xD0, KEY_DN); (0xC9, KEY_PGUP); (0xD1, KEY_PGDN);
   (0xCB, KEY_LF); (0xCD, KEY_RT); (0x97, KEY_HOME); (0xCF, KEY_END); (0xD2, KEY_INS); (0xD3, KEY_DEL)].

Definition shiftmap : Z -> option Z := table
  [NO;  27;   33;  64;  35;  36;  37;  94;   (* 0x00: ESC ! @ # $ % ^ *)
   38;  42;   40;  41;  95;  43;  8;   9;    (* & * ( ) _ + \b \t *)
   81;  87;   69;  82;  84;  89;  85;  73;   (* 0x10: Q W E R T Y U I *)
   79;  80;   123; 125; 10;  NO;  65;  83;   (* O P { } \n NO A S *)
   68;  70;   71;  72;  74;  75;  76;  58;   (* 0x20: D F G H J K L : *)
   34;  126;  NO;  124; 90;  88;  67;  86;   (* double quote ~ NO | Z X C V *)
   66;  78;   77;  60;  62;  63;  NO;  42;   (* 0x30: B N M < > ? NO * *)
   NO;  32;   NO;  NO;  NO;  NO;  NO;  NO;   (* NO space *)
   NO;  NO;   NO;  NO;  NO;  NO;  NO;  55;   (* 0x40: 7 *)
   56;  57;   45;  52;  53;  54;  43;  49;   (* 8 9 - 4 5 6 + 1 *)
   50;  51;   48;  46;  NO;  NO;  NO;  NO]   (* 0x50: 2 3 0 . *)
  [(0x9C, 10); (0xB5, 47); (0xC8, KEY_UP); (0xD0, KEY_DN); (0xC9, KEY_PGUP); (0xD1, KEY_PGDN);
   (0xCB, KEY_LF); (0xCD, KEY_RT); (0x97, KEY_HOME); (0xCF, KEY_END); (0xD2, KEY_INS); (0xD3, KEY_DEL)].

Definition ctlmap : Z -> option Z := table
  [NO; NO; NO; NO; NO; NO; NO; NO;
   NO; NO; NO; NO; NO; NO; NO; NO;
   Ctl 81; Ctl 87; Ctl 69; Ctl 82; Ctl 84; Ctl 89; Ctl 85; Ctl 73;   (* Q W E R T Y U I *)
   Ctl 79; Ctl 80; NO;     NO;     13;     NO;     Ctl 65; Ctl 83;   (* O P NO NO \r NO A S *)
   Ctl 68; Ctl 70; Ctl 71; Ctl 72; Ctl 74; Ctl 75; Ctl 76; NO;       (* D F G H J K L *)
   NO;     NO;     NO;     Ctl 92; Ctl 90; Ctl 88; Ctl 67; Ctl 86;   (* NO NO NO \ Z X C V *)
   Ctl 66; Ctl 78; Ctl 77; NO;     NO;     u8 (Ctl 47); NO; NO]      (* B N M NO NO / *)
  [(0x9C, 13); (0xB5, u8 (Ctl 47)); (0xC8, KEY_UP); (0xD0, KEY_DN); (0xC9, KEY_PGUP); (0xD1, KEY_PGDN);
   (0xCB, KEY_LF); (0xCD, KEY_RT); (0x97, KEY_HOME); (0xCF, KEY_END); (0xD2, KEY_INS); (0xD3, KEY_DEL)].

(** ** kbd.c *)

Definition charcode : list (Z -> option Z) := [normalmap; shiftmap; ctlmap; ctlmap].

(** What [kbdgetc] does with one scan code: its result and the new [shift]; [None] is an
    access outside a table. *)
Definition kbd_code (data shift : Z) : option (Z * Z) :=
  if data =? 0xE0 then Some (0, Z.lor shift E0ESC)
  else if c_true (Z.land data 0x80) then
    let data := if c_true (Z.land shift E0ESC) then data else Z.land data 0x7F in
    m ← shiftcode data;
    Some (0, Z.land shift (Z.lnot (Z.lor m E0ESC)))
  else
    let '(data, shift) := if c_true (Z.land shift E0ESC)
                          then (Z.lor data 0x80, Z.land shift (Z.lnot E0ESC)) else (data, shift) in
    m ← shiftcode data;
    let shift := Z.lor shift m in
    g ← togglecode data;
    let shift := Z.lxor shift g in
    map ← charcode !! Z.to_nat (Z.land shift (Z.lor CTL SHIFT));
    c ← map data;
    let c := if c_true (Z.land shift CAPSLOCK) then
               if (97 <=? c) && (c <=? 122) then c - 32
               else if (65 <=? c) && (c <=? 90) then c + 32 else c
             else c in
    Some (c, shift).

(** [kbdgetc()], on the scan codes that wait in the controller and [shift]; inb delivers
    a uchar. *)
Definition kbdgetc (pending : list Z) (shift : Z) : option (Z * list Z * Z) :=
  match pending with
  | [] => Some (-1, [], shift)
  | data :: pending' => r ← kbd_code (u8 data) shift; Some (r.1, pending', r.2)
  end.

(** ** Ranges *)

(** [z] has [n] bits. *)
Definition bits (n z : Z) : Prop := 0 <= z < 2 ^ n.
#[local] Instance bits_dec n z : Decision (bits n z) := _.

Lemma bits_lor n a b : 0 <= n -> bits n a -> bits n b -> bits n (Z.lor a b).
Proof.
  unfold bits. intros Hn Ha Hb. assert (0 <= Z.lor a b) by (apply Z.lor_nonneg; lia).
  rewrite Z.bounded_iff_bits_nonneg' in * by lia. intros l Hl. rewrite Z.lor_spec, Ha, Hb; auto.
Qed.
Lemma bits_lxor n a b : 0 <= n -> bits n a -> bits n b -> bits n (Z.lxor a b).
Proof.
  unfold bits. intros Hn Ha Hb. assert (0 <= Z.lxor a b) by (apply Z.lxor_nonneg; lia).
  rewrite Z.bounded_iff_bits_nonneg' in * by lia. intros l Hl. rewrite Z.lxor_spec, Ha, Hb; auto.
Qed.
Lemma bits_land n a b : 0 <= n -> bits n a -> bits n (Z.land a b).
Proof.
  unfold bits. intros Hn Ha. assert (0 <= Z.land a b) by (apply Z.land_nonneg; lia).
  rewrite Z.bounded_iff_bits_nonneg' in * by lia. intros l Hl. rewrite Z.land_spec, Ha; auto.
Qed.
Lemma u8_bits z : bits 8 (u8 z).
Proof. unfold bits, u8. apply Z.mod_pos_bound. done. Qed.

(** An index in range finds an entry of [n] bits. *)
Lemma table_bits n f l i :
  0 <= n -> Forall (bits n) f -> Forall (fun kv => bits n kv.2) l -> bits 8 i -> exists v, table f l i = Some v /\ bits n v.
Proof.
  intros Hn Hf Hl Hi. unfold bits in Hi. change (2 ^ 8) with 256 in Hi. unfold table.
  rewrite (proj2 (Z.leb_le 0 i)), (proj2 (Z.ltb_lt i 256)) by lia. cbn [andb negb]. destruct (Z.ltb_spec i (Z.of_nat (length f))).
  - destruct (lookup_lt_is_Some_2 f (Z.to_nat i)) as [v Hv]; [lia|]. exists v. split; [done|]. by eapply Forall_lookup_1.
  - eexists. split; [done|]. destruct (list_find _ _) as [[j kv]|] eqn:E; [|unfold bits; lia].
    apply list_find_Some in E as (E & _). eapply Forall_lookup_1 in Hl; done.
Qed.

Lemma shiftcode_bits i : bits 8 i -> exists v, shiftcode i = Some v /\ bits 7 v.
Proof. apply table_bits; [done|constructor|by apply (bool_decide_unpack _)]. Qed.
Lemma togglecode_bits i : bits 8 i -> exists v, togglecode i = Some v /\ bits 7 v.
Proof. apply table_bits; [done|constructor|by apply (bool_decide_unpack _)]. Qed.
Lemma charcode_bits s i : bits 8 i -> exists m v, charcode !! Z.to_nat (Z.land s (Z.lor CTL SHIFT)) = Some m /\ m i = Some v /\ bits 8 v.
Proof.
  intros Hi. assert (Hk : 0 <= Z.land s (Z.lor CTL SHIFT) < 4).
  { change (Z.lor CTL SHIFT) with (Z.ones 2). rewrite Z.land_ones by lia. apply Z.mod_pos_bound. done. }
  destruct (Z.to_nat (Z.land s (Z.lor CTL SHIFT))) as [|[|[|[|k]]]] eqn:Ek; [| | | |lia]; eexists.
  all: edestruct (fun f l Hf Hl => table_bits 8 f l i ltac:(lia) Hf Hl Hi) as (v & Hv & Hb);
    [| |exists v; split; [reflexivity|split; [exact Hv|exact Hb]]]; by apply (bool_decide_unpack _).
Qed.

(** Whatever the controller delivers, no table is left, and the result is a byte; the
    seven bits of [shift] stay seven bits. *)
Lemma kbd_code_some d shift :
  exists c s, kbd_code (u8 d) shift = Some (c, s) /\ bits 8 c /\ (bits 7 shift -> bits 7 s).
Proof.
  pose proof (u8_bits d) as Hd. unfold kbd_code. set (b := u8 d) in *.
  destruct (b =? 0xE0); [eexists _, _; split_and!; [done|done|intros; by apply bits_lor]|].
  destruct (c_true (Z.land b 0x80)).
  - edestruct (shiftcode_bits (if c_true (Z.land shift E0ESC) then b else Z.land b 0x7F)) as (m & -> & _).
    { destruct (c_true _); [done|by apply bits_land]. }
    eexists _, _. split_and!; [done|done|intros; by apply bits_land].
  - set (p := if c_true _ then _ else (b, shift)).
    assert (Hp : bits 8 p.1 /\ (bits 7 shift -> bits 7 p.2)).
    { subst p. destruct (c_true _); split; [by apply bits_lor|intros; by apply bits_land|done|done]. }
    destruct p as [i s0]. cbn [fst snd] in Hp. destruct Hp as [Hi Hs].
    destruct (shiftcode_bits i Hi) as (m & -> & Hm). destruct (togglecode_bits i Hi) as (g & -> & Hg). cbn [mbind option_bind].
    destruct (charcode_bits (Z.lxor (Z.lor s0 m) g) i Hi) as (mp & c & -> & Hc & Hb). cbn [mbind option_bind]. rewrite Hc. cbn [mbind option_bind].
    eexists _, _. split; [done|]. split.
    + unfold bits in *. change (2 ^ 8) with 256 in *. destruct (c_true _); [|done].
      destruct (_ && _) eqn:E1; [to_prop; lia|]. clear E1. destruct (_ && _) eqn:E2; [to_prop; lia|done].
    + intros Hz. apply bits_lxor; [done| |done]. apply bits_lor; [done|by apply Hs|done].
Qed.

(** The total function. *)
Definition decode (d shift : Z) : Z * Z := default (0, shift) (kbd_code (u8 d) shift).

Lemma kbd_code_decode d shift : kbd_code (u8 d) shift = Some (decode d shift).
Proof. unfold decode. by destruct (kbd_code_some d shift) as (c & s & -> & _). Qed.
Lemma decode_bits d shift : bits 7 shift -> bits 8 (decode d shift).1 /\ bits 7 (decode d shift).2.
Proof. unfold decode. destruct (kbd_code_some d shift) as (c & s & -> & Hc & Hs). cbn. auto. Qed.

(** ** Typing *)

(** A key, by its scan code and whether an E0 comes before it; 0x60 is not a key, its
    release would be the byte E0. *)
Record key := Key { k_ext : bool; k_code : Z }.
Definition key_ok (k : key) : Prop := 0 <= k_code k < 0x80 /\ k_code k <> 0x60.
Definition key_index (k : key) : Z := if k_ext k then k_code k + 0x80 else k_code k.

Inductive kevent := Press (k : key) | Release (k : key).
Definition ev_key (e : kevent) : key := match e with Press k | Release k => k end.
Definition pressed (e : kevent) : bool := match e with Press _ => true | Release _ => false end.

(** The bytes that the keyboard sends. *)
Definition scan (e : kevent) : list Z :=
  (if k_ext (ev_key e) then [0xE0] else []) ++ [if pressed e then k_code (ev_key e) else k_code (ev_key e) + 0x80].

(** After the events [h]: whether the last event of the keys [ks] was a press, and
    whether the key [k] was pressed an odd number of times. *)
Definition held (ks : list Z) (h : list kevent) : bool :=
  foldl (fun b e => if bool_decide (key_index (ev_key e) ∈ ks) then pressed e else b) false h.
Definition locked (k : Z) (h : list kevent) : bool :=
  foldl (fun b e => if bool_decide (key_index (ev_key e) = k) && pressed e then negb b else b) false h.

Definition shift_keys : list Z := [0x2A; 0x36].
Definition ctl_keys : list Z := [0x1D; 0x9D].
Definition alt_keys : list Z := [0x38; 0xB8].

Record mods := Mods { m_shift : bool; m_ctl : bool; m_alt : bool; m_caps : bool; m_num : bool; m_scroll : bool }.
Definition mods_of (h : list kevent) : mods :=
  Mods (held shift_keys h) (held ctl_keys h) (held alt_keys h) (locked 0x3A h) (locked 0x45 h) (locked 0x46 h).

Definition swap_case (c : Z) : Z :=
  if (97 <=? c) && (c <=? 122) then c - 32 else if (65 <=? c) && (c <=? 90) then c + 32 else c.

(** The character of a press under modifiers; 0 for a release. *)
Definition character (m : mods) (e : kevent) : Z :=
  if negb (pressed e) then 0 else
  let map := if m_ctl m then ctlmap else if m_shift m then shiftmap else normalmap in
  let c := default 0 (map (key_index (ev_key e))) in
  if m_caps m then swap_case c else c.

(** What the reads of the events [es] after [h] give: 0 for an E0, then the character. *)
Fixpoint typed (h es : list kevent) : list Z :=
  match es with
  | [] => []
  | e :: es' => (if k_ext (ev_key e) then [0] else []) ++ character (mods_of (h ++ [e])) e :: typed (h ++ [e]) es'
  end.

(** The modifiers in the bits of [shift]. *)
Definition mod_bits (m : mods) : Z :=
  (if m_shift m then SHIFT else 0) + (if m_ctl m then CTL else 0) + (if m_alt m then ALT else 0) +
  (if m_caps m then CAPSLOCK else 0) + (if m_num m then NUMLOCK else 0) + (if m_scroll m then SCROLLLOCK else 0).

(** while((c = kbdgetc()) >= 0), as in [consoleintr]: the characters and [shift]. *)
Fixpoint kbd_reads (n : nat) (pending : list Z) (shift : Z) : option (list Z * Z) :=
  match n with
  | O => None
  | S n' =>
    r ← kbdgetc pending shift;
    if r.1.1 <? 0 then Some ([], r.2) else
    q ← kbd_reads n' r.1.2 r.2;
    Some (r.1.1 :: q.1, q.2)
  end.

(** How an event changes the modifiers. *)
Definition mods_step (m : mods) (e : kevent) : mods :=
  let i := key_index (ev_key e) in
  let hold ks b := if bool_decide (i ∈ ks) then pressed e else b in
  let flip k b := if bool_decide (i = k) && pressed e then negb b else b in
  Mods (hold shift_keys (m_shift m)) (hold ctl_keys (m_ctl m)) (hold alt_keys (m_alt m))
       (flip 0x3A (m_caps m)) (flip 0x45 (m_num m)) (flip 0x46 (m_scroll m)).

Lemma mods_snoc h e : mods_of (h ++ [e]) = mods_step (mods_of h) e.
Proof. unfold mods_of, held, locked. by rewrite !foldl_app. Qed.

(** All events and all modifiers, by evaluation. *)
Definition bools : list bool := [false; true].
Definition all_mods : list mods :=
  a ← bools; b ← bools; c ← bools; d ← bools; e ← bools; f ← bools; [Mods a b c d e f].
Definition all_events : list kevent :=
  x ← bools; c ← filter (fun c => c <> 0x60) (seqZ 0 0x80); [Press (Key x c); Release (Key x c)].

Definition agrees (m : mods) (e : kevent) : bool :=
  let m' := mods_step m e in
  let sh := mod_bits m in
  let last := if pressed e then k_code (ev_key e) else k_code (ev_key e) + 0x80 in
  let after := if k_ext (ev_key e) then sh + E0ESC else sh in
  bool_decide (kbd_code (u8 0xE0) sh = Some (0, sh + E0ESC)) &&
  bool_decide (kbd_code (u8 last) after = Some (character m' e, mod_bits m')) && (0 <=? character m' e).

Lemma all_agree : forallb (fun m => forallb (agrees m) all_events) all_mods = true.
Proof. vm_compute. reflexivity. Qed.

Lemma in_bools b : b ∈ bools.
Proof. destruct b; set_solver. Qed.
Lemma in_all_mods m : m ∈ all_mods.
Proof.
  destruct m as [a b c d e f]. unfold all_mods.
  do 6 (apply list_elem_of_bind; eexists; split; [|apply in_bools]). by apply list_elem_of_singleton.
Qed.
Lemma in_all_events e : key_ok (ev_key e) -> e ∈ all_events.
Proof.
  intros [Hc Hn]. unfold all_events. apply list_elem_of_bind. exists (k_ext (ev_key e)). split; [|apply in_bools].
  apply list_elem_of_bind. exists (k_code (ev_key e)). split; [destruct e as [[]|[]]; set_solver|].
  apply list_elem_of_filter. split; [done|]. by apply elem_of_seqZ.
Qed.

Lemma event_agrees m e : key_ok (ev_key e) -> agrees m e = true.
Proof.
  intros He. pose proof all_agree as Ha. rewrite forallb_forall in Ha. specialize (Ha m (proj1 (list_elem_of_In _ _) (in_all_mods m))).
  rewrite forallb_forall in Ha. apply Ha. by apply list_elem_of_In, in_all_events.
Qed.

(** One read. *)
Lemma kbd_reads_cons n d p sh c s :
  kbd_code (u8 d) sh = Some (c, s) -> 0 <= c -> kbd_reads (S n) (d :: p) sh = (fun q => (c :: q.1, q.2)) <$> kbd_reads n p s.
Proof.
  intros E Hc. cbn [kbd_reads kbdgetc]. rewrite E. cbn. rewrite (proj2 (Z.ltb_ge c 0)) by done. by destruct (kbd_reads n p s).
Qed.

Lemma kbd_reads_events es : forall h, Forall (fun e => key_ok (ev_key e)) es ->
  kbd_reads (S (length (es ≫= scan))) (es ≫= scan) (mod_bits (mods_of h)) = Some (typed h es, mod_bits (mods_of (h ++ es))).
Proof.
  induction es as [|e es IH]; intros h Hes; [by rewrite app_nil_r|]. apply Forall_cons in Hes as [He Hes].
  pose proof (event_agrees (mods_of h) e He) as Ha. unfold agrees in Ha. cbv zeta in Ha.
  apply andb_prop in Ha as [Ha Hc]. apply andb_prop in Ha as [E0 E1]. apply bool_decide_eq_true_1 in E0, E1. apply Z.leb_le in Hc.
  rewrite <- mods_snoc in E1, Hc. specialize (IH (h ++ [e]) Hes). rewrite <- app_assoc in IH. cbn [app] in IH.
  change ((e :: es) ≫= scan) with (scan e ++ (es ≫= scan)). cbn [typed]. unfold scan at 1 3. destruct (k_ext (ev_key e)); cbn [app length].
  - rewrite (kbd_reads_cons _ _ _ _ _ _ E0) by lia. rewrite (kbd_reads_cons _ _ _ _ _ _ E1) by done.
    by rewrite IH.
  - rewrite (kbd_reads_cons _ _ _ _ _ _ E1) by done. by rewrite IH.
Qed.

(** C39: the keyboard decoder types what the keys say.  For every sequence of presses and
    releases of keys, plain or extended, with codes below 0x80 ([key_ok]; 0x60, whose
    release would be the prefix E0, is no key), the reads of [kbdgetc] until it answers -1 give,
    for every press, the entry of the key in the map that the modifiers held at that
    moment select (control before shift), with the case of letters swapped while caps lock
    is on, and 0 for releases and prefixes; a modifier is held when the last event of its
    keys was a press, a lock is on when its key was pressed an odd number of times, and
    these six bits are what [shift] is at the end: no E0 is left over. *)
Theorem kbd_decodes (es : list kevent) (Hes : Forall (fun e => key_ok (ev_key e)) es) :
  kbd_reads (S (length (es ≫= scan))) (es ≫= scan) 0 = Some (typed [] es, mod_bits (mods_of es)).
Proof. exact (kbd_reads_events es [] Hes). Qed.

(** Shift-a, caps lock, a, control-c, the cursor key. *)
Definition some_events : list kevent :=
  [Press (Key false 0x2A); Press (Key false 0x1E); Release (Key false 0x1E); Release (Key false 0x2A);
   Press (Key false 0x3A); Release (Key false 0x3A); Press (Key false 0x1E); Press (Key true 0x1D); Press (Key false 0x2E);
   Release (Key true 0x1D); Press (Key true 0x48)].

Lemma kbd_decodes_witness :
  kbd_reads 15 (some_events ≫= scan) 0 = Some ([0; 65; 0; 0; 0; 0; 65; 0; 0; 3; 0; 0; 0; KEY_UP], CAPSLOCK).
Proof.
  refine (eq_trans (kbd_decodes some_events _) _); [|vm_compute; reflexivity].
  repeat constructor; cbn; lia.
Defined.
