(* ===== verification/Console.v ===== *)
(** * The console (console.c, uart.c)

    Output to the serial port and the CGA screen, formatted printing, and the
    line discipline between the interrupt handlers and [consoleread].  The
    hardware is part of the state: the cursor registers and the memory of the
    screen, the bytes sent to and received from the serial port, and the scan
    codes that wait in the keyboard controller.  [consoleread] and
    [consolewrite] are the [devsw] functions of a console that sits next to a
    disk driver's state, so that they compose with the inode locks of Fs.v. *)
From S2P Require Import Prelude Bytes Cstring Spinlock ProcDefs Memory Kalloc FsDefs Bio Log Fs Printf Kbd.
Local Open Scope Z_scope.
Local Open Scope kernel_scope.

Record console := Console {
  cn_lock : bool;         (* cons.lock *)
  locking : Z;            (* cons.locking *)
  panicked : Z;
  crt : Z -> Z;           (* CGA memory: one ushort per position *)
  crt_index : Z;          (* the register selected at CRTPORT *)
  crt_pos : Z;            (* registers 14 and 15: the cursor position *)
  uart : Z;               (* is there a uart? *)
  uart_out : list Z;      (* bytes sent *)
  uart_in : list Z;       (* bytes received and not read yet *)
  kbd_in : list Z;        (* scan codes not read yet *)
  shift : Z;
  in_buf : list Z;
  in_r : Z;
  in_w : Z;
  in_e : Z;
  woke : nat;             (* calls of wakeup(&input.r) *)
  dumps : nat             (* calls of procdump() *)
}.
#[export] Instance console_eta : Eta console := fun c =>
  Console (cn_lock c) (locking c) (panicked c) (crt c) (crt_index c) (crt_pos c) (uart c) (uart_out c) (uart_in c)
          (kbd_in c) (shift c) (in_buf c) (in_r c) (in_w c) (in_e c) (woke c) (dumps c).

(** Console code stops when the processor hangs in [for(;;);]. *)
Inductive hang := Hang.
Definition CM (A : Type) : Type := M console hang A.

Definition cons_acquire : CM unit := lock_acq cn_lock (fun b c => c <| cn_lock := b |>).
Definition cons_release : CM unit := lock_rel cn_lock (fun b c => c <| cn_lock := b |>).

(** ** Ports *)

Definition CRTPORT : Z := 0x3d4.
Definition COM1 : Z := 0x3f8.

(** The devices behind the ports that console.c and uart.c use. *)
Definition outb (port v : Z) : CM unit :=
  if port =? CRTPORT then modify (fun c => c <| crt_index := u8 v |>)
  else if port =? CRTPORT + 1 then
    modify (fun c => c <| crt_pos ::= fun p =>
      if crt_index c =? 14 then u8 v * 256 + p mod 256 else if crt_index c =? 15 then p / 256 * 256 + u8 v else p |>)
  else if port =? COM1 then modify (fun c => c <| uart_out ::= fun l => l ++ [u8 v] |>)
  else ret tt.

Definition inb (port : Z) : CM Z :=
  if port =? CRTPORT + 1 then
    gets (fun c => if crt_index c =? 14 then crt_pos c / 256 else if crt_index c =? 15 then crt_pos c mod 256 else 0)
  else if port =? COM1 + 5 then
    gets (fun c => Z.lor 0x20 (match uart_in c with [] => 0 | _ => 1 end))
  else if port =? COM1 then
    do l <- gets uart_in;
    match l with
    | [] => ret 0
    | v :: l' => modify (fun c => c <| uart_in := l' |>);; ret v
    end
  else ret 0.

(** ** uart.c *)

(** for(i = 0; i < 128 && !(inb(COM1+5) & 0x20); i++) microdelay(10); *)
Fixpoint uart_wait (n : nat) : CM unit :=
  match n with
  | O => ret tt
  | S n' => do st <- inb (COM1 + 5); if c_true (Z.land st 0x20) then ret tt else uart_wait n'
  end.

Definition uartputc (c : Z) : CM unit :=
  do u <- gets uart;
  if u =? 0 then ret tt else
  uart_wait 128;;
  outb COM1 c.

Definition uartgetc : CM Z :=
  do u <- gets uart;
  if u =? 0 then ret (-1) else
  do st <- inb (COM1 + 5);
  if negb (c_true (Z.land st 1)) then ret (-1) else
  inb COM1.

(** ** console.c: output *)

Definition BACKSPACE : Z := 0x100.

Definition set_cell (p v : Z) : CM unit := modify (fun c => c <| crt ::= fun m q => if q =? p then v else m q |>).

(** memmove(crt, crt+80, sizeof(crt[0])*23*80); *)
Definition scroll : CM unit :=
  modify (fun c => c <| crt ::= fun m q => if (0 <=? q) && (q <? 23 * 80) then m (q + 80) else m q |>).
(** memset(crt+pos, 0, sizeof(crt[0])*(24*80 - pos)); *)
Definition clear_from (pos : Z) : CM unit :=
  modify (fun c => c <| crt ::= fun m q => if (pos <=? q) && (q <? 24 * 80) then 0 else m q |>).

(** The cursor position: col + 80*row. *)
Definition read_cursor : CM Z :=
  outb CRTPORT 14;;
  do hi <- inb (CRTPORT + 1);
  let pos := Z.shiftl hi 8 in
  outb CRTPORT 15;;
  do lo <- inb (CRTPORT + 1);
  ret (Z.lor pos lo).
Definition write_cursor (pos : Z) : CM unit :=
  outb CRTPORT 14;;
  outb (CRTPORT + 1) (Z.shiftr pos 8);;
  outb CRTPORT 15;;
  outb (CRTPORT + 1) pos.

Definition cgaputc (c : Z) : CM unit :=
  do pos <- read_cursor;
  do pos <- (if c =? 10 then ret (pos + (80 - pos mod 80))
             else if c =? BACKSPACE then ret (if 0 <? pos then pos - 1 else pos)
             else set_cell pos (Z.lor (Z.land c 0xff) 0x0700);; ret (pos + 1));
  if (pos <? 0) || (25 * 80 <? pos) then panic "pos under/overflow" else
  do pos <- (if 24 <=? pos / 80 then scroll;; let pos := pos - 80 in clear_from pos;; ret pos else ret pos);
  write_cursor pos;;
  set_cell pos (Z.lor 32 0x0700).

Definition consputc (c : Z) : CM unit :=
  do p <- gets panicked;
  if c_true p then stop Hang else
  (if c =? BACKSPACE then uartputc 8;; uartputc 32;; uartputc 8 else uartputc c);;
  cgaputc c.

Definition lower_digits : list Z := [48; 49; 50; 51; 52; 53; 54; 55; 56; 57; 97; 98; 99; 100; 101; 102].

(** while(--i >= 0) consputc(buf[i]); and the other loops over characters *)
Definition put_all (l : list Z) : CM unit := forM l consputc.

(** [printint(xx, base, sign)] of console.c. *)
Definition cons_printint (xx base sign : Z) : CM unit :=
  let sign := if c_true sign then (if xx <? 0 then 1 else 0) else 0 in
  let x := if c_true sign then u32 (- xx) else u32 xx in
  do buf <- derefM "digits" (digit_loop 33 lower_digits x base []);
  let buf := if c_true sign then buf ++ [45] else buf in
  if decide (16 < length buf)%nat then undef "buf" else put_all (reverse buf).

(** for(; *s; s++) consputc of *s *)
Fixpoint put_cstr (s : list Z) : CM unit :=
  match s with
  | [] => undef "string"
  | c :: s' => if c =? 0 then ret tt else consputc c;; put_cstr s'
  end.

(** The switch on the character behind a %, and the arguments that are left. *)
Definition cprintf_conv (c : Z) (argp : list arg) : CM (list arg) :=
  if c =? 100 then
    match argp with AWord v :: argp' => cons_printint (s32 v) 10 1;; ret argp' | _ => undef "argp" end
  else if (c =? 120) || (c =? 112) then
    match argp with AWord v :: argp' => cons_printint (s32 v) 16 0;; ret argp' | _ => undef "argp" end
  else if c =? 115 then
    match argp with
    | AStr s :: argp' => put_cstr s;; ret argp'
    | ANull :: argp' => put_cstr null_str;; ret argp'
    | _ => undef "argp"
    end
  else if c =? 37 then consputc 37;; ret argp
  else consputc 37;; consputc c;; ret argp.

Fixpoint cprintf_loop (fmt : list Z) (argp : list arg) : CM unit :=
  match fmt with
  | [] => undef "fmt"
  | c :: fmt' =>
    if c =? 0 then ret tt else
    if negb (c =? 37) then consputc c;; cprintf_loop fmt' argp else
    match fmt' with
    | [] => undef "fmt"
    | c :: fmt'' =>
      if c =? 0 then ret tt else
      do argp <- cprintf_conv c argp;
      cprintf_loop fmt'' argp
    end
  end.

(** [cprintf(fmt, ...)]; [None] is a null format. *)
Definition cprintf (fmt : option (list Z)) (argp : list arg) : CM unit :=
  do lk <- gets locking;
  whenM (c_true lk) cons_acquire;;
  match fmt with
  | None => panic "null fmt"
  | Some fmt =>
    cprintf_loop fmt argp;;
    whenM (c_true lk) cons_release
  end.

(** The format strings of [panic]. *)
Definition fmt_panic : list Z :=
  [108; 97; 112; 105; 99; 105; 100; 32; 37; 100; 58; 32; 112; 97; 110; 105; 99; 58; 32; 0].
Definition fmt_newline : list Z := [10; 0].
Definition fmt_pc : list Z := [32; 37; 112; 0].

(** [panic(s)] on the processor [lapicid] whose callers are [pcs]. *)
Definition panic_fn (s : list Z) (lapicid : Z) (pcs : list Z) : CM unit :=
  modify (fun c => c <| locking := 0 |>);;
  cprintf (Some fmt_panic) [AWord lapicid];;
  cprintf (Some s) [];;
  cprintf (Some fmt_newline) [];;
  forM pcs (fun pc => cprintf (Some fmt_pc) [AWord pc]);;
  modify (fun c => c <| panicked := 1 |>);;
  stop Hang.

(** ** console.c: input *)

Definition INPUT_BUF : Z := 128.
Definition input_slot (i : Z) : nat := Z.to_nat (i mod INPUT_BUF).

(** input.buf[(input.e-1) % INPUT_BUF] *)
Definition input_at (i : Z) : CM Z :=
  do b <- gets in_buf; derefM "input.buf" (b !! input_slot i).

(** while(input.e != input.w && input.buf[(input.e-1) % INPUT_BUF] != '\n') ...
    [e - w] is at most [INPUT_BUF], so 129 rounds are enough. *)
Fixpoint kill_line (fuel : nat) : CM unit :=
  match fuel with
  | O => undef "kill_line: out of fuel"
  | S fuel' =>
    do c <- gets id;
    if in_e c =? in_w c then ret tt else
    do v <- input_at (u32 (in_e c - 1));
    if v =? 10 then ret tt else
    modify (fun c => c <| in_e ::= fun e => u32 (e - 1) |>);;
    consputc BACKSPACE;;
    kill_line fuel'
  end.

(** The [default] case: the character goes to the buffer and to the screen. *)
Definition store_char (ch : Z) : CM unit :=
  do c <- gets id;
  if negb (ch =? 0) && (u32 (in_e c - in_r c) <? INPUT_BUF) then
    let ch := if ch =? 13 then 10 else ch in
    (if decide (length (in_buf c) <= input_slot (in_e c))%nat then undef "input.buf" else
     modify (fun c => c <| in_buf ::= <[input_slot (in_e c) := u8 ch]> |> <| in_e ::= fun e => u32 (e + 1) |>));;
    consputc ch;;
    do c <- gets id;
    whenM ((ch =? 10) || (ch =? Ctl 68) || (in_e c =? u32 (in_r c + INPUT_BUF)))
      (modify (fun c => c <| in_w := in_e c |> <| woke ::= S |>))
  else ret tt.

(** The switch of [consoleintr] on one character; the result is [doprocdump]. *)
Definition consoleintr_char (ch : Z) (doprocdump : bool) : CM bool :=
  if ch =? Ctl 80 then ret true
  else if ch =? Ctl 85 then kill_line 129;; ret doprocdump
  else if (ch =? Ctl 72) || (ch =? 0x7f) then
    do c <- gets id;
    (if negb (in_e c =? in_w c) then
       modify (fun c => c <| in_e ::= fun e => u32 (e - 1) |>);; consputc BACKSPACE
     else ret tt);;
    ret doprocdump
  else store_char ch;; ret doprocdump.

(** while((c = getc()) >= 0) ...; each round takes a byte from the device, so one
    round more than it has bytes is enough. *)
Fixpoint consoleintr_loop (fuel : nat) (getc : CM Z) (doprocdump : bool) : CM bool :=
  match fuel with
  | O => undef "consoleintr: out of fuel"
  | S fuel' =>
    do ch <- getc;
    if ch <? 0 then ret doprocdump else
    do d <- consoleintr_char ch doprocdump;
    consoleintr_loop fuel' getc d
  end.

Definition consoleintr (fuel : nat) (getc : CM Z) : CM unit :=
  cons_acquire;;
  do d <- consoleintr_loop fuel getc false;
  cons_release;;
  whenM d (modify (fun c => c <| dumps ::= S |>)).

Definition kbdgetc_dev : CM Z :=
  do c <- gets id;
  do '(ch, pending, sh) <- derefM "kbd" (kbdgetc (kbd_in c) (shift c));
  modify (fun c => c <| kbd_in := pending |> <| shift := sh |>);;
  ret ch.

Definition uartintr : CM unit := do c <- gets id; consoleintr (S (length (uart_in c))) uartgetc.
Definition kbdintr : CM unit := do c <- gets id; consoleintr (S (length (kbd_in c))) kbdgetc_dev.

(** The loop of [consoleread]: [n] bytes are still wanted and [got] were copied. *)
Inductive read_end :=
| ReadDone (n : Z) (got : list Z)
| ReadSleep (n : Z) (got : list Z).

Fixpoint consoleread_loop (k : nat) (target n : Z) (got : list Z) : CM read_end :=
  match k with
  | O => ret (ReadDone n got)
  | S k' =>
    do c <- gets id;
    if in_r c =? in_w c then ret (ReadSleep n got) else
    do ch <- input_at (in_r c);
    modify (fun c => c <| in_r ::= fun r => u32 (r + 1) |>);;
    if ch =? Ctl 68 then
      whenM (u32 n <? target) (modify (fun c => c <| in_r ::= fun r => u32 (r - 1) |>));;
      ret (ReadDone n got)
    else
      let got := got ++ [ch] in
      let n := n - 1 in
      if ch =? 10 then ret (ReadDone n got) else consoleread_loop k' target n got
  end.

(** ** The console as a device *)

(** The state of a disk driver with a console beside it. *)
Class HasConsole (D : Type) := {
  con_get : D -> console;
  con_put : console -> D -> D
}.

Section Device.
Context {D : Type} `{Driver D} `{HasConsole D}.

(** Console code inside the file system's state; a hang is a thread that never
    runs again. *)
Definition con {A} (m : CM A) : F D A :=
  zoom (fun s => con_get (disk s)) (fun c s => s <| disk ::= con_put c |>) (fun _ => AInput) m.

(** A turn of [consoleread] after [got] of [target] bytes were copied: from the
    [acquire], or from the return of [sleep], to the return or the next sleep. *)
Definition consoleread_turn (i : nat) (target n : Z) (got : list Z) : F D ((Z * list Z) + (Z * list Z)) :=
  do r <- con (consoleread_loop (Z.to_nat n) target n got);
  match r with
  | ReadDone n got => con cons_release;; ilock (Some i);; ret (inl (s32 (target - n), got))
  | ReadSleep n got =>
    do me <- gets cur;
    if c_true (c_killed me) then con cons_release;; ilock (Some i);; ret (inl (-1, got))
    else con cons_release;; ret (inr (n, got))
  end.

(** [consoleread(ip, dst, n)] up to its first sleep. *)
Definition consoleread (i : nat) (n : Z) : F D (Z * list Z) :=
  iunlock (Some i);;
  con cons_acquire;;
  do r <- consoleread_turn i (u32 n) n [];
  match r with inl v => ret v | inr _ => stop AInput end.

Definition consolewrite (i : nat) (buf : list Z) (n : Z) : F D Z :=
  iunlock (Some i);;
  con cons_acquire;;
  do l <- orUndef "buf" (sub 0 (Z.to_nat n) buf);
  con (put_all ((fun b => Z.land b 0xff) <$> l));;
  con cons_release;;
  ilock (Some i);;
  ret n.

(** devsw[CONSOLE] after [consoleinit]. *)
Definition CONSOLE : Z := 1.
Definition console_devsw : Devices D := {|
  devsw_read := fun major => if major =? CONSOLE then Some consoleread else None;
  devsw_write := fun major => if major =? CONSOLE then Some consolewrite else None
|}.
End Device.

Definition consoleinit : CM unit := modify (fun c => c <| cn_lock := false |> <| locking := 1 |>).
