(* ===== verification/ConsoleTheorems.v ===== *)
(** * The console keeps its line discipline

    [shown] is what printing may change; the cursor stays on the screen.  The
    input side is a line editor: [ready] holds what readers may have, [edit] the
    line that is being typed; [types] is the editor, [types_ok] relates it to the
    ring of console.c.  The interrupt handlers of the serial port and of the keyboard
    and the loop of [consoleread], in any order, behave like it: what is typed is echoed,
    edited and handed over by lines, and a reader gets each byte once and in order. *)
From S2P Require Import Prelude Bytes Cstring Memory Spinlock ProcDefs Kalloc FsDefs Bio Log Fs Ring Printf Kbd.
From S2P Require Import Console.
Local Open Scope Z_scope.
Local Open Scope kernel_scope.

(** ** Output *)

(** The cursor is in the 24 lines that scroll. *)
Definition on_screen (p : Z) : Prop := 0 <= p < 24 * 80.

(** Where the cursor is after a character. *)
Definition next_pos (ch pos : Z) : Z :=
  let p := if ch =? 10 then pos + (80 - pos mod 80)
           else if ch =? BACKSPACE then (if 0 <? pos then pos - 1 else pos) else pos + 1 in
  if 24 <=? p / 80 then p - 80 else p.

Lemma next_pos_on ch pos : on_screen pos -> on_screen (next_pos ch pos).
Proof.
  unfold on_screen, next_pos. intros Hp. destruct (ch =? 10).
  - pose proof (Z.mod_pos_bound pos 80). destruct (Z.leb_spec 24 ((pos + (80 - pos mod 80)) / 80)); Z.div_mod_to_equations; lia.
  - destruct (ch =? BACKSPACE); [destruct (0 <? pos) eqn:?|];
      match goal with |- context [24 <=? ?x] => destruct (Z.leb_spec 24 x) end; to_prop; Z.div_mod_to_equations; lia.
Qed.

(** Only the screen and the serial line have changed. *)
Definition shown (c c' : console) : Prop :=
  exists m i p o, c' = c <| crt := m |> <| crt_index := i |> <| crt_pos := p |> <| uart_out := o |> /\ on_screen p.

Lemma shown_trans c1 c2 c3 : shown c1 c2 -> shown c2 c3 -> shown c1 c3.
Proof. intros (m & i & p & o & -> & _) (m' & i' & p' & o' & -> & Hp). by exists m', i', p', o'. Qed.

Lemma pos_split p : 0 <= p -> Z.lor (Z.shiftl (p / 256) 8) (p mod 256) = p.
Proof.
  intros H0. change (p / 256) with (p / 2 ^ 8). change (p mod 256) with (p mod 2 ^ 8).
  rewrite <- Z.shiftr_div_pow2, <- Z.land_ones by lia. apply Z.bits_inj'. intros n Hn.
  rewrite Z.lor_spec, Z.shiftl_spec, Z.land_spec by lia.
  destruct (Z.ltb_spec n 8).
  - rewrite Z.testbit_neg_r, Z.ones_spec_low, andb_true_r by lia. done.
  - rewrite Z.shiftr_spec, Z.ones_spec_high, andb_false_r, orb_false_r by lia. f_equal. lia.
Qed.

(** The ports of the screen. *)
Lemma outb_index v : outb CRTPORT v = modify (fun c => c <| crt_index := u8 v |>).
Proof. done. Qed.
Lemma outb_data v :
  outb (CRTPORT + 1) v = modify (fun c => c <| crt_pos ::= fun p =>
    if crt_index c =? 14 then u8 v * 256 + p mod 256 else if crt_index c =? 15 then p / 256 * 256 + u8 v else p |>).
Proof. done. Qed.
Lemma inb_data :
  inb (CRTPORT + 1) =
  gets (fun c => if crt_index c =? 14 then crt_pos c / 256 else if crt_index c =? 15 then crt_pos c mod 256 else 0).
Proof. done. Qed.

Lemma read_cursor_run c : on_screen (crt_pos c) -> read_cursor c = Ret (crt_pos c) (c <| crt_index := 15 |>).
Proof.
  intros [H0 _]. unfold read_cursor. rewrite !outb_index, inb_data.
  rewrite bind_modify, bind_gets, bind_modify, bind_gets. unfold ret. f_equal. by apply pos_split.
Qed.

Lemma write_cursor_run p c : 0 <= p < 65536 -> write_cursor p c = Ret tt (c <| crt_index := 15 |> <| crt_pos := p |>).
Proof.
  intros Hp. unfold write_cursor. rewrite !outb_index, !outb_data, !bind_modify. unfold modify. f_equal.
  rewrite Z.shiftr_div_pow2 by lia. change (2 ^ 8) with 256.
  assert (E : (u8 (p / 256) * 256 + crt_pos c mod 256) / 256 * 256 + u8 p = p).
  { unfold u8. change (2 ^ 8) with 256. rewrite (Z.mod_small (p / 256)) by (Z.div_mod_to_equations; lia).
    Z.div_mod_to_equations. lia. }
  transitivity (c <| crt_index := 15 |> <| crt_pos := (u8 (p / 256) * 256 + crt_pos c mod 256) / 256 * 256 + u8 p |>); [done|].
  by rewrite E.
Qed.

Lemma cgaputc_run ch c :
  on_screen (crt_pos c) -> exists m,
    cgaputc ch c = Ret tt (c <| crt := m |> <| crt_index := 15 |> <| crt_pos := next_pos ch (crt_pos c) |>).
Proof.
  intros Hp. pose proof (next_pos_on ch _ Hp) as Hn. unfold cgaputc. runs1 (read_cursor_run c Hp).
  unfold next_pos, on_screen in Hp, Hn |- *. set (pos := crt_pos c) in *.
  set (p1 := if ch =? 10 then _ else _) in *.
  assert (H1 : exists m1, (if ch =? 10 then ret (pos + (80 - pos mod 80))
             else if ch =? BACKSPACE then ret (if 0 <? pos then pos - 1 else pos)
             else set_cell pos (Z.lor (Z.land ch 0xff) 0x0700);; ret (pos + 1)) (c <| crt_index := 15 |>) =
             Ret p1 (c <| crt := m1 |> <| crt_index := 15 |>)).
  { unfold p1. destruct (ch =? 10); [|destruct (ch =? BACKSPACE)]; eexists; try (by destruct c); done. }
  destruct H1 as [m1 H1]. runs1 H1.
  assert (Hr : 0 <= p1 <= 25 * 80) by (destruct (24 <=? p1 / 80) eqn:?; lia).
  rewrite (proj2 (Z.ltb_ge p1 0)), (proj2 (Z.ltb_ge (25 * 80) p1)) by lia. cbn [orb].
  destruct (24 <=? p1 / 80) eqn:E.
  - unfold scroll, clear_from. rewrite !bind_assoc, bind_modify, bind_assoc, bind_modify, bind_ret.
    assert (H80 : 0 <= p1 - 80 < 65536) by lia. erewrite bind_ret_eq; [|by apply write_cursor_run].
    by eexists.
  - rewrite bind_ret. runs1 (write_cursor_run p1 (c <| crt := m1 |> <| crt_index := 15 |>) ltac:(lia)). by eexists.
Qed.

Lemma uart_wait_run n c : uart_wait n c = Ret tt c.
Proof.
  destruct n; [done|]. cbn [uart_wait].
  change (inb (COM1 + 5)) with (gets (R := hang) (fun c => Z.lor 0x20 (match uart_in c with [] => 0 | _ => 1 end))).
  rewrite bind_gets. by destruct (uart_in c).
Qed.

Lemma uartputc_run ch c : exists o, uartputc ch c = Ret tt (c <| uart_out := o |>).
Proof.
  unfold uartputc. rewrite bind_gets. destruct (uart c =? 0); [exists (uart_out c); by destruct c|].
  runs1 (uart_wait_run 128 c). by eexists.
Qed.

Lemma consputc_run ch c :
  panicked c = 0 -> on_screen (crt_pos c) -> exists c', consputc ch c = Ret tt c' /\ shown c c' /\ crt_pos c' = next_pos ch (crt_pos c).
Proof.
  intros Hp Hs. unfold consputc. rewrite bind_gets, Hp. cbn [c_true negb Z.eqb].
  assert (Hu : exists o, (if ch =? BACKSPACE then uartputc 8;; uartputc 32;; uartputc 8 else uartputc ch) c =
                         Ret tt (c <| uart_out := o |>)).
  { destruct (ch =? BACKSPACE); [|apply uartputc_run]. destruct (uartputc_run 8 c) as [o1 E1]. runs1 E1.
    destruct (uartputc_run 32 (c <| uart_out := o1 |>)) as [o2 E2]. runs1 E2.
    destruct (uartputc_run 8 (c <| uart_out := o1 |> <| uart_out := o2 |>)) as [o3 E3]. rewrite E3. by exists o3. }
  destruct Hu as [o E]. runs1 E. pose proof (cgaputc_run ch (c <| uart_out := o |>)) as Hc. destruct (Hc Hs) as [m Em]. rewrite Em.
  eexists. split; [done|]. split; [|done]. exists m, 15, (next_pos ch (crt_pos c)), o. split; [by destruct c|by apply next_pos_on].
Qed.

(** ** The line editor *)

Record typed := Typed { ready : list Z; edit : list Z }.

Definition types (a : typed) (ch : Z) : typed :=
  if ch =? Ctl 80 then a
  else if ch =? Ctl 85 then Typed (ready a) []
  else if (ch =? Ctl 72) || (ch =? 0x7f) then Typed (ready a) (removelast (edit a))
  else if (ch =? 0) || (Z.of_nat (length (ready a) + length (edit a)) >=? INPUT_BUF) then a
  else
    let ch := if ch =? 13 then 10 else ch in
    let l := edit a ++ [ch] in
    if (ch =? 10) || (ch =? Ctl 68) || (Z.of_nat (length (ready a) + length l) =? INPUT_BUF)
    then Typed (ready a ++ l) [] else Typed (ready a) l.

(** What [consoleread] takes: [n] bytes, or up to a newline or a ^D; [true] when
    it returns, [false] when it sleeps for more. *)
Fixpoint takes (k : nat) (ready got : list Z) : bool * list Z * list Z :=
  match k with
  | O => (true, got, ready)
  | S k' =>
    match ready with
    | [] => (false, got, [])
    | ch :: rest =>
      if ch =? Ctl 68 then (true, got, if bool_decide (got = []) then rest else ready)
      else if ch =? 10 then (true, got ++ [ch], rest)
      else takes k' rest (got ++ [ch])
    end
  end.

(** The console holds what was typed. *)
Record types_ok (c : console) (a : typed) : Prop := {
  ty_buf : length (in_buf c) = Z.to_nat INPUT_BUF;
  ty_r : is_u32 (in_r c);
  ty_w : is_u32 (in_w c);
  ty_e : is_u32 (in_e c);
  ty_len : ahead (in_r c) (in_e c) = (ahead (in_r c) (in_w c) + ahead (in_w c) (in_e c))%nat;
  ty_max : (ahead (in_r c) (in_e c) <= Z.to_nat INPUT_BUF)%nat;
  ty_ready : ring INPUT_BUF (in_buf c) (in_r c) (in_w c) = ready a;
  ty_edit : ring INPUT_BUF (in_buf c) (in_w c) (in_e c) = edit a
}.

(** The line that is being typed has no newline. *)
Lemma types_line a ch : 10 ∉ edit a -> 10 ∉ edit (types a ch).
Proof.
  intros Ha. unfold types. destruct (ch =? Ctl 80); [done|]. destruct (ch =? Ctl 85); [cbn; set_solver|].
  destruct (_ || _).
  { cbn. intros Hi. apply Ha. destruct (edit a) as [|x l _] using rev_ind; [done|]. rewrite removelast_last in Hi. set_solver. }
  destruct (_ || _); [done|]. set (ch' := if ch =? 13 then 10 else ch).
  destruct (_ || _ || _) eqn:E; cbn; [set_solver|]. to_prop. rewrite elem_of_app, list_elem_of_singleton. naive_solver.
Qed.

(** What input handling leaves alone. *)
Record steady (c c' : console) : Prop := {
  sd_lock : cn_lock c' = cn_lock c;
  sd_panic : panicked c' = panicked c;
  sd_screen : on_screen (crt_pos c) -> on_screen (crt_pos c');
  sd_uart : uart c' = uart c;
  sd_in : uart_in c' = uart_in c;
  sd_kbd : kbd_in c' = kbd_in c /\ shift c' = shift c;
  sd_woke : (woke c <= woke c')%nat
}.
#[export] Instance steady_preorder : PreOrder steady.
Proof. split; [intros c; by split|intros c1 c2 c3 [] []; split; try congruence; auto; [naive_solver congruence|lia]]. Qed.

Lemma shown_steady c c' : shown c c' -> steady c c'.
Proof. intros (m & i & p & o & -> & Hp). by split. Qed.

Lemma shown_types c c' a : shown c c' -> types_ok c a -> types_ok c' a.
Proof. intros (m & i & p & o & -> & _) [? ? ? ? ? ? ? ?]. by split. Qed.

Lemma input_size : 0 < INPUT_BUF /\ 2 ^ 32 = INPUT_BUF * 2 ^ 25.
Proof. done. Qed.

Definition uncurse (c : console) : console := c <| in_e ::= fun e => u32 (e - 1) |>.

Lemma types_undo c rd l x :
  types_ok c (Typed rd (l ++ [x])) -> types_ok (uncurse c) (Typed rd l) /\
  in_buf c !! input_slot (u32 (in_e c - 1)) = Some x /\ (in_e c =? in_w c) = false.
Proof.
  intros [Hb Hr Hw He Hl Hm Hrd Hed]. cbn in Hrd, Hed.
  assert (Hpos : (0 < ahead (in_w c) (in_e c))%nat).
  { rewrite <- (length_ring INPUT_BUF (in_buf c)), Hed, length_app. cbn. lia. }
  assert (Hpos' : (0 < ahead (in_r c) (in_e c))%nat) by lia.
  pose proof (ahead_pred _ _ Hpos). pose proof (ahead_pred _ _ Hpos').
  destruct (ring_undo INPUT_BUF eq_refl (2 ^ 25) eq_refl (in_buf c) Hb (in_w c) (in_e c) Hpos) as (y & Hy & Hs).
  rewrite Hed in Hy. apply app_inj_tail in Hy as [-> ->]. split_and!.
  - split; try done; [apply u32_range| |].
    + change (ahead (in_r c) (u32 (in_e c - 1)) = (ahead (in_r c) (in_w c) + ahead (in_w c) (u32 (in_e c - 1)))%nat). lia.
    + change (ahead (in_r c) (u32 (in_e c - 1)) <= Z.to_nat INPUT_BUF)%nat. lia.
  - change (input_slot (u32 (in_e c - 1))) with (slot INPUT_BUF (u32 (in_e c - 1))).
    rewrite <- (Z.add_0_r (u32 _)), (slot_u32 INPUT_BUF eq_refl (2 ^ 25) eq_refl), Z.add_0_r. done.
  - apply Z.eqb_neq. intros E. symmetry in E. apply (ahead_zero (in_w c) (in_e c)) in E; [lia|done|done].
Qed.

Lemma types_nil c rd : types_ok c (Typed rd []) -> (in_e c =? in_w c) = true.
Proof.
  intros [_ _ Hw He _ _ _ Hed]. cbn in Hed. apply Z.eqb_eq. symmetry. apply (ahead_zero (in_w c) (in_e c)); [done..|].
  by rewrite <- (length_ring INPUT_BUF (in_buf c)), Hed.
Qed.

(** One more character in the line. *)
Definition put_char (ch : Z) (c : console) : console :=
  c <| in_buf ::= <[input_slot (in_e c) := ch]> |> <| in_e ::= fun e => u32 (e + 1) |>.
(** The line is handed to the readers. *)
Definition commit_line (c : console) : console := c <| in_w := in_e c |> <| woke ::= S |>.

Lemma types_total c a : types_ok c a -> ahead (in_r c) (in_e c) = (length (ready a) + length (edit a))%nat.
Proof. intros [_ _ _ _ Hl _ <- <-]. by rewrite !length_ring. Qed.

Lemma types_put c a ch :
  types_ok c a -> Z.of_nat (length (ready a) + length (edit a)) < INPUT_BUF ->
  types_ok (put_char ch c) (Typed (ready a) (edit a ++ [ch])).
Proof.
  intros Hok Hlt. rewrite <- (types_total _ _ Hok) in Hlt. destruct Hok as [Hb Hr Hw He Hl Hm Hrd Hed].
  unfold INPUT_BUF in *.
  assert (Hs : ahead (in_r c) (u32 (in_e c + 1)) = S (ahead (in_r c) (in_e c))) by (apply ahead_succ; lia).
  assert (Hs' : ahead (in_w c) (u32 (in_e c + 1)) = S (ahead (in_w c) (in_e c))) by (apply ahead_succ; lia).
  split; try done.
  - cbn. by rewrite length_insert.
  - apply u32_range.
  - change (ahead (in_r c) (u32 (in_e c + 1)) = (ahead (in_r c) (in_w c) + ahead (in_w c) (u32 (in_e c + 1)))%nat). lia.
  - change (ahead (in_r c) (u32 (in_e c + 1)) <= Z.to_nat 128)%nat. lia.
  - rewrite <- Hrd. refine (ring_write_other 128 eq_refl (2 ^ 25) eq_refl (in_buf c) Hb (in_r c) (in_w c) (in_e c) ch _ Hl). lia.
  - rewrite <- Hed. refine (ring_write 128 eq_refl (2 ^ 25) eq_refl (in_buf c) Hb (in_w c) (in_e c) ch _ _); lia.
Qed.

Lemma types_commit c a : types_ok c a -> types_ok (commit_line c) (Typed (ready a ++ edit a) []).
Proof.
  intros [Hb Hr Hw He Hl Hm Hrd Hed].
  assert (Hz : ahead (in_e c) (in_e c) = 0%nat) by (by apply ahead_zero).
  split; try done.
  - change (ahead (in_r c) (in_e c) = (ahead (in_r c) (in_e c) + ahead (in_e c) (in_e c))%nat). lia.
  - rewrite <- Hrd, <- Hed. by apply (ring_app INPUT_BUF eq_refl (2 ^ 25) eq_refl _ Hb).
  - apply length_zero_iff_nil. by rewrite length_ring.
Qed.

(** ** The handler *)

(** Ready to handle input. *)
Definition calm (c : console) : Prop := panicked c = 0 /\ on_screen (crt_pos c).

Lemma calm_steady c c' : calm c -> steady c c' -> calm c'.
Proof. intros [H1 H2] []. split; [congruence|auto]. Qed.

Lemma echo_run ch c a :
  calm c -> types_ok c a -> exists c', consputc ch c = Ret tt c' /\ types_ok c' a /\ steady c c' /\
    in_e c' = in_e c /\ in_r c' = in_r c /\ woke c' = woke c.
Proof.
  intros [H1 H2] Ha. destruct (consputc_run ch c H1 H2) as (c' & E & Hs & _). exists c'.
  split_and!; [done|by eapply shown_types|by apply shown_steady|..]; destruct Hs as (? & ? & ? & ? & -> & _); done.
Qed.

Lemma uncurse_steady c : steady c (uncurse c).
Proof. by split. Qed.

Lemma kill_line_run l fuel c rd :
  (length l < fuel)%nat -> calm c -> types_ok c (Typed rd l) -> 10 ∉ l ->
  exists c', kill_line fuel c = Ret tt c' /\ types_ok c' (Typed rd []) /\ steady c c'.
Proof.
  revert fuel c. induction l as [|x l IH] using rev_ind; intros fuel c Hf Hc Ht Hn; (destruct fuel as [|fuel]; [lia|]);
    cbn [kill_line]; rewrite bind_gets; unfold id.
  - rewrite (types_nil _ _ Ht). by exists c.
  - destruct (types_undo _ _ _ _ Ht) as (Hu & Hx & ->). unfold input_at. rewrite bind_assoc, bind_gets, Hx, bind_deref.
    rewrite (proj2 (Z.eqb_neq x 10)) by set_solver. rewrite bind_modify. fold (uncurse c).
    assert (Hc' : calm (uncurse c)) by (eapply calm_steady; [done|apply uncurse_steady]).
    destruct (echo_run BACKSPACE _ _ Hc' Hu) as (c1 & E1 & T1 & S1 & _). runs1 E1.
    destruct (IH fuel c1) as (c2 & E2 & T2 & S2); [rewrite length_app in Hf; cbn in Hf; lia|by eapply calm_steady|done|set_solver|].
    exists c2. split_and!; [done|done|]. etrans; [apply uncurse_steady|]. by etrans.
Qed.

(** Room in the buffer. *)
Lemma types_room c a :
  types_ok c a -> (u32 (in_e c - in_r c) <? INPUT_BUF) = negb (Z.of_nat (length (ready a) + length (edit a)) >=? INPUT_BUF).
Proof.
  intros Ha. rewrite <- (types_total _ _ Ha). unfold ahead. pose proof (u32_range (in_e c - in_r c)).
  rewrite Z2Nat.id by lia. by rewrite Z.geb_leb, <- Z.ltb_antisym.
Qed.
Lemma types_full c a :
  types_ok c a -> (in_e c =? u32 (in_r c + INPUT_BUF)) = (Z.of_nat (length (ready a) + length (edit a)) =? INPUT_BUF).
Proof.
  intros Ha. rewrite <- (types_total _ _ Ha). destruct Ha. rewrite ahead_full by done. unfold INPUT_BUF.
  destruct (Nat.eqb_spec (ahead (in_r c) (in_e c)) (Z.to_nat 128)), (Z.eqb_spec (Z.of_nat (ahead (in_r c) (in_e c))) 128); lia.
Qed.

Lemma put_char_steady ch c : steady c (put_char ch c).
Proof. by split. Qed.
Lemma commit_line_steady c : steady c (commit_line c).
Proof. split; try done. cbn. lia. Qed.

Lemma store_char_run ch c a :
  0 <= ch < 256 -> calm c -> types_ok c a -> ch <> Ctl 80 -> ch <> Ctl 85 -> ch <> Ctl 72 -> ch <> 0x7f ->
  exists c', store_char ch c = Ret tt c' /\ types_ok c' (types a ch) /\ steady c c' /\
    (ready (types a ch) <> ready a -> (woke c < woke c')%nat).
Proof.
  intros Hch Hc Ha H1 H2 H3 H4. unfold store_char, types.
  rewrite (proj2 (Z.eqb_neq _ _) H1), (proj2 (Z.eqb_neq _ _) H2), (proj2 (Z.eqb_neq _ _) H3), (proj2 (Z.eqb_neq _ _) H4).
  cbn [orb]. rewrite bind_gets. unfold id. rewrite (types_room _ _ Ha), <- negb_orb.
  destruct ((ch =? 0) || _) eqn:Hskip; cbn [negb]; [by exists c|].
  assert (Hv : 0 <= (if ch =? 13 then 10 else ch) < 256) by (destruct (ch =? 13); lia).
  revert Hv. generalize (if ch =? 13 then 10 else ch). intros x Hx.
  rewrite decide_False by (rewrite (ty_buf _ _ Ha); apply Nat.lt_nge, (slot_lt INPUT_BUF eq_refl)).
  rewrite bind_modify, u8_small by done. fold (put_char x c).
  assert (Hlt : Z.of_nat (length (ready a) + length (edit a)) < INPUT_BUF).
  { apply orb_false_elim in Hskip as [_ Hg]. rewrite Z.geb_leb in Hg. by apply Z.leb_gt in Hg. }
  pose proof (types_put c a x Ha Hlt) as Hp.
  destruct (echo_run x (put_char x c) _ (calm_steady _ _ Hc (put_char_steady x c)) Hp) as (c1 & E1 & T1 & S1 & _ & _ & W1).
  runs1 E1. rewrite bind_gets. unfold id. rewrite (types_full _ _ T1). cbn [ready edit].
  assert (S2 : steady c c1) by (etrans; [apply put_char_steady|done]).
  destruct (_ || _ || _); cbn [whenM].
  - exists (commit_line c1). split_and!; [done|by apply (types_commit c1 _ T1)|etrans; [done|apply commit_line_steady]|].
    intros _. change (woke c < S (woke c1))%nat. rewrite W1. cbn. lia.
  - by exists c1.
Qed.

Lemma consoleintr_char_run ch b c a :
  0 <= ch < 256 -> calm c -> types_ok c a -> 10 ∉ edit a ->
  exists d c', consoleintr_char ch b c = Ret d c' /\ types_ok c' (types a ch) /\ steady c c' /\
    (ready (types a ch) <> ready a -> (woke c < woke c')%nat).
Proof.
  intros Hch Hc Ha Hl. unfold consoleintr_char.
  destruct (Z.eqb_spec ch (Ctl 80)) as [->|N1]; [by exists true, c|].
  destruct a as [rd l]. cbn [ready edit] in *. destruct (Z.eqb_spec ch (Ctl 85)) as [->|N2].
  { assert (Hlen : (length l < 129)%nat).
    { pose proof (types_total _ _ Ha) as Ht. pose proof (ty_max _ _ Ha) as Hm.
      cbn [ready edit] in Ht. change (Z.to_nat INPUT_BUF) with 128%nat in Hm. lia. }
    destruct (kill_line_run l 129 c rd Hlen Hc Ha Hl) as (c' & E & T & S). runs1 E. by exists b, c'. }
  destruct ((ch =? Ctl 72) || (ch =? 0x7f)) eqn:Hbs.
  { assert (Ht : types (Typed rd l) ch = Typed rd (removelast l)).
    { unfold types. rewrite (proj2 (Z.eqb_neq _ _) N1), (proj2 (Z.eqb_neq _ _) N2), Hbs. done. }
    rewrite Ht, bind_gets. unfold id. destruct l as [|x l _] using rev_ind.
    - rewrite (types_nil _ _ Ha). cbn [negb]. rewrite bind_ret. by exists b, c.
    - destruct (types_undo _ _ _ _ Ha) as (Hu & _ & ->). cbn [negb]. rewrite bind_assoc, bind_modify. fold (uncurse c).
      assert (Hc' : calm (uncurse c)) by (eapply calm_steady; [done|apply uncurse_steady]).
      destruct (echo_run BACKSPACE _ _ Hc' Hu) as (c1 & E1 & T1 & S1 & _). runs1 E1. exists b, c1.
      rewrite removelast_last. split_and!; [done|done| |done]. by etrans; [apply uncurse_steady|]. }
  to_prop. destruct (store_char_run ch c (Typed rd l)) as (c' & E & Hrest); [done..|]. runs1 E. by exists b, c'.
Qed.

(** ** The interrupt *)

(** A device took a byte from its queue. *)
Definition took (c c' : console) : Prop :=
  exists u k s, c' = c <| uart_in := u |> <| kbd_in := k |> <| shift := s |>.

Lemma took_types c c' a : took c c' -> types_ok c a -> types_ok c' a.
Proof. intros (u & k & s & ->) []. by split. Qed.

(** A device: [getc] delivers the bytes of [pend] one by one, then a negative number;
    [fin] is what the modifiers of the keyboard are at the end. *)
Record source (getc : CM Z) (pend : console -> list Z) (fin : console -> Z) : Prop := {
  src_end c : pend c = [] -> exists v, v < 0 /\ getc c = Ret v c;
  src_next c x l : pend c = x :: l -> exists c', getc c = Ret x c' /\ took c c' /\ pend c' = l /\ fin c' = fin c;
  src_dep c c' : uart c' = uart c -> uart_in c' = uart_in c -> kbd_in c' = kbd_in c /\ shift c' = shift c -> pend c' = pend c /\ fin c' = fin c
}.

Section Intr.
Context (getc : CM Z) (pend : console -> list Z) (fin : console -> Z) (Hsrc : source getc pend fin).

(** The queue is empty and [c'] holds what was in it. *)
Definition handled (c c' : console) (a a' : typed) : Prop :=
  types_ok c' a' /\ calm c' /\ pend c' = [] /\ cn_lock c' = cn_lock c /\ uart c' = uart c /\ fin c' = fin c /\
  (woke c <= woke c')%nat /\ (ready a' <> ready a -> (woke c < woke c')%nat).

Lemma consoleintr_loop_run l fuel b c a :
  pend c = l -> Forall (fun x => 0 <= x < 256) l -> (length l < fuel)%nat -> calm c -> types_ok c a -> 10 ∉ edit a ->
  exists d c', consoleintr_loop fuel getc b c = Ret d c' /\ handled c c' a (foldl types a l).
Proof.
  destruct Hsrc as [Hend Hnext Hdep]. revert fuel b c a.
  induction l as [|x l IH]; intros fuel b c a Hu Hl Hf Hc Ha Hn; (destruct fuel as [|fuel]; [cbn in Hf; lia|]); cbn [consoleintr_loop].
  { destruct (Hend c Hu) as (v & Hv & E). runs1 E. rewrite (proj2 (Z.ltb_lt v 0) Hv). exists b, c. by split_and!. }
  destruct (Hnext c x l Hu) as (c1 & E1 & T1 & P1 & F1). runs1 E1. apply Forall_cons in Hl as [Hx Hl].
  rewrite (proj2 (Z.ltb_ge x 0)) by lia. pose proof (took_types _ _ _ T1 Ha) as Ha1.
  assert (Hc1 : calm c1 /\ cn_lock c1 = cn_lock c /\ uart c1 = uart c /\ woke c1 = woke c) by (destruct T1 as (? & ? & ? & ->); by destruct Hc).
  destruct Hc1 as (Hc1 & L1 & U1 & W1).
  destruct (consoleintr_char_run x b c1 a Hx Hc1 Ha1 Hn) as (d & c2 & E2 & T2 & S2 & W2). runs1 E2.
  pose proof (sd_lock _ _ S2). pose proof (sd_woke _ _ S2). pose proof (sd_uart _ _ S2).
  destruct (Hdep c1 c2) as [D1 D2]; [by destruct S2..|].
  destruct (IH fuel d c2 (types a x)) as (d' & c3 & E3 & T3 & C3 & P3 & L3 & U3 & F3 & W3 & R3);
    [congruence|done|cbn in Hf; lia|by eapply calm_steady|done|by apply types_line|].
  exists d', c3. split; [done|]. split_and!; [done|done|done|congruence|congruence|congruence|lia|]. cbn [foldl]. intros Hr.
  destruct (decide (ready (types a x) = ready a)) as [Er|Er]; [|specialize (W2 Er); lia]. rewrite <- Er in Hr. specialize (R3 Hr). lia.
Qed.

Lemma consoleintr_run fuel c a :
  cn_lock c = false -> Forall (fun x => 0 <= x < 256) (pend c) -> (length (pend c) < fuel)%nat -> calm c -> types_ok c a -> 10 ∉ edit a ->
  exists c', consoleintr fuel getc c = Ret tt c' /\ handled c c' a (foldl types a (pend c)).
Proof.
  intros Hk Hl Hf Hc Ha Hn. unfold consoleintr, cons_acquire, lock_acq. rewrite bind_assoc, bind_gets, Hk. cbv iota. rewrite bind_modify.
  set (c1 := c <| cn_lock := true |>).
  destruct (src_dep _ _ _ Hsrc c c1) as [P1 F1]; [done..|].
  assert (T1 : types_ok c1 a) by (destruct Ha; by split).
  destruct (consoleintr_loop_run (pend c) fuel false c1 a P1 Hl Hf Hc T1 Hn) as (d & c2 & E2 & T2 & C2 & P2 & L2 & U2 & F2 & W2 & R2). runs1 E2.
  unfold cons_release, lock_rel. rewrite bind_assoc, bind_gets, L2. cbv iota. change (cn_lock c1) with true. cbv iota. rewrite bind_modify.
  assert (P3 : forall c', uart c' = uart c2 -> uart_in c' = uart_in c2 -> kbd_in c' = kbd_in c2 -> shift c' = shift c2 -> pend c' = [] /\ fin c' = fin c).
  { intros c' H1 H2 H3 H4. rewrite <- P2, <- F1, <- F2. by apply (src_dep _ _ _ Hsrc). }
  destruct d; cbn [whenM]; (eexists; split; [done|]); (split_and!; [by destruct T2; split|done|by apply P3|by symmetry|done|by apply P3|done|done]).
Qed.
End Intr.

(** *** The serial port *)

Definition uart_pend (c : console) : list Z := if uart c =? 0 then [] else uart_in c.

Lemma inb_uart c x l : uart_in c = x :: l -> inb COM1 c = Ret x (c <| uart_in := l |>).
Proof.
  intros H. change (inb COM1) with
    (do q <- gets uart_in; match q with [] => ret 0 | v :: q' => modify (fun c => c <| uart_in := q' |>);; ret v end : CM Z).
  by rewrite bind_gets, H.
Qed.

Lemma uart_source : source uartgetc uart_pend shift.
Proof.
  assert (Hst : forall c, inb (COM1 + 5) c = Ret (Z.lor 0x20 (match uart_in c with [] => 0 | _ => 1 end)) c) by done.
  split; unfold uart_pend, uartgetc.
  - intros c Hc. exists (-1). split; [done|]. rewrite bind_gets. destruct (uart c =? 0); [done|]. runs1 (Hst c). by rewrite Hc.
  - intros c x l Hc. rewrite bind_gets. destruct (uart c =? 0) eqn:E; [done|]. runs1 (Hst c). rewrite Hc.
    exists (c <| uart_in := l |>). split_and!; [|by exists l, (kbd_in c), (shift c); destruct c|by change (uart (c <| uart_in := l |>)) with (uart c); rewrite E|done].
    change (inb COM1 c = Ret x (c <| uart_in := l |>)). by apply inb_uart.
  - intros c c' -> -> [_ ->]. done.
Qed.

(** *** The keyboard *)

(** The characters of scan codes, from a state of the modifiers. *)
Fixpoint keys (sh : Z) (codes : list Z) : list Z :=
  match codes with [] => [] | d :: l => (decode d sh).1 :: keys (decode d sh).2 l end.

(** The modifiers after scan codes. *)
Definition modifiers : Z -> list Z -> Z := foldl (fun s d => (decode d s).2).

Lemma kbd_source : source kbdgetc_dev (fun c => keys (shift c) (kbd_in c)) (fun c => modifiers (shift c) (kbd_in c)).
Proof.
  split; unfold kbdgetc_dev.
  - intros c Hc. exists (-1). split; [done|]. rewrite bind_gets. unfold id. destruct (kbd_in c) as [|d l] eqn:E; [|done].
    cbn [kbdgetc]. rewrite bind_deref, bind_modify. destruct c. cbn in *. by subst.
  - intros c x l Hc. rewrite bind_gets. unfold id. destruct (kbd_in c) as [|d p] eqn:E; [done|]. cbn in Hc. simplify_eq.
    cbn [kbdgetc]. rewrite kbd_code_decode. destruct (decode d (shift c)) as [v s] eqn:Ek. cbn [mbind option_bind fst snd]. rewrite bind_deref, bind_modify. eexists. split; [done|].
    split_and!; [by exists (uart_in c), p, s; destruct c|done|]. unfold modifiers. cbn [foldl]. by rewrite Ek.
  - intros c c' _ _ [-> ->]. done.
Qed.

Lemma keys_bytes sh l : bits 7 sh -> Forall (fun x => 0 <= x < 256) (keys sh l).
Proof.
  revert sh. induction l as [|d l IH]; intros sh Hs; cbn; constructor; apply (decode_bits d) in Hs as [H1 H2]; [done|auto].
Qed.
Lemma length_keys sh l : length (keys sh l) = length l.
Proof. revert sh. induction l; intros; cbn; auto. Qed.

(** ** The reader *)

Lemma types_take c x rd l :
  types_ok c (Typed (x :: rd) l) ->
  (in_r c =? in_w c) = false /\ in_buf c !! input_slot (in_r c) = Some x /\
  types_ok (c <| in_r := u32 (in_r c + 1) |>) (Typed rd l).
Proof.
  intros [Hb Hr Hw He Hl Hm Hrd Hed]. cbn in Hrd, Hed.
  destruct (ring_read INPUT_BUF eq_refl (2 ^ 25) eq_refl (in_buf c) Hb _ _ _ _ Hrd) as [Hq Hx].
  assert (Hpos : (0 < ahead (in_r c) (in_w c))%nat) by (rewrite <- (length_ring INPUT_BUF (in_buf c)), Hrd; cbn; lia).
  assert (Hpos' : (0 < ahead (in_r c) (in_e c))%nat) by lia.
  pose proof (ahead_pop _ _ Hpos). pose proof (ahead_pop _ _ Hpos'). split_and!; [|done|].
  - apply Z.eqb_neq. intros E. apply (ahead_zero (in_r c) (in_w c)) in E; [lia|done|done].
  - split; try done; [apply u32_range| |].
    + change (ahead (u32 (in_r c + 1)) (in_e c) = (ahead (u32 (in_r c + 1)) (in_w c) + ahead (in_w c) (in_e c))%nat). lia.
    + change (ahead (u32 (in_r c + 1)) (in_e c) <= Z.to_nat INPUT_BUF)%nat. lia.
Qed.

Lemma types_none c l : types_ok c (Typed [] l) -> (in_r c =? in_w c) = true.
Proof.
  intros [_ Hr Hw _ _ _ Hrd _]. cbn in Hrd. apply Z.eqb_eq. apply (ahead_zero (in_r c) (in_w c)); [done..|].
  by rewrite <- (length_ring INPUT_BUF (in_buf c)), Hrd.
Qed.

(** input.r++ and input.r-- cancel. *)
Lemma read_back c : is_u32 (in_r c) -> c <| in_r := u32 (u32 (in_r c + 1) - 1) |> = c.
Proof.
  intros Hr. rewrite u32_u32_sub. replace (in_r c + 1 - 1) with (in_r c) by lia. rewrite u32_small by apply Hr. by destruct c.
Qed.

(** Only the read counter moved. *)
Definition read_on (c c' : console) : Prop := exists r, c' = c <| in_r := r |>.

Definition read_result (target : Z) (t : bool * list Z) : read_end :=
  if t.1 then ReadDone (target - Z.of_nat (length t.2)) t.2 else ReadSleep (target - Z.of_nat (length t.2)) t.2.

Lemma consoleread_loop_run k target rd got l c :
  types_ok c (Typed rd l) -> target = Z.of_nat k + Z.of_nat (length got) -> target < 2 ^ 31 ->
  exists c', consoleread_loop k target (Z.of_nat k) got c = Ret (read_result target (takes k rd got).1) c' /\
    types_ok c' (Typed (takes k rd got).2 l) /\ read_on c c'.
Proof.
  revert rd got c. induction k as [|k IH]; intros rd got c Hc Ht Hm; cbn [consoleread_loop takes].
  { exists c. split_and!; [|done|by exists (in_r c); destruct c]. unfold ret, read_result. cbn [fst snd]. do 2 f_equal. lia. }
  rewrite bind_gets. unfold id. destruct rd as [|x rd].
  { rewrite (types_none _ _ Hc). exists c. split_and!; [|done|by exists (in_r c); destruct c].
    unfold ret, read_result. cbn [fst snd]. do 2 f_equal. lia. }
  destruct (types_take _ _ _ _ Hc) as (-> & Hx & Hn). unfold input_at. rewrite bind_assoc, bind_gets, Hx, bind_deref, bind_modify.
  set (c1 := c <| in_r := u32 (in_r c + 1) |>) in Hn. change (c <| in_r ::= fun r => u32 (r + 1) |>) with c1.
  destruct (x =? Ctl 68).
  - rewrite (u32_small (Z.of_nat (S k))) by lia. destruct got as [|g got].
    + rewrite bool_decide_true by done. rewrite (proj2 (Z.ltb_ge (Z.of_nat (S k)) target)) by (cbn in Ht; lia). cbn [whenM].
      rewrite bind_ret. exists c1. split_and!; [|done|by eexists]. unfold ret, read_result. cbn [fst snd length] in *. do 2 f_equal. lia.
    + rewrite bool_decide_false by done. rewrite (proj2 (Z.ltb_lt (Z.of_nat (S k)) target)) by (cbn in Ht; lia). cbn [whenM].
      rewrite bind_modify.
      assert (E : c1 <| in_r ::= fun r => u32 (r - 1) |> = c).
      { apply (read_back c), Hc. }
      rewrite E. exists c. split_and!; [|done|by exists (in_r c); destruct c].
      unfold ret, read_result. cbn [fst snd] in *. do 2 f_equal. lia.
  - destruct (x =? 10).
    + exists c1. split_and!; [|done|by eexists]. unfold ret, read_result. cbn [fst snd]. rewrite length_app. cbn [length]. do 2 f_equal. lia.
    + replace (Z.of_nat (S k) - 1) with (Z.of_nat k) by lia.
      destruct (IH rd (got ++ [x]) c1 Hn) as (c2 & E2 & T2 & (r & R2)); [rewrite length_app; cbn; lia|done|].
      exists c2. split_and!; [done|done|]. exists r. by rewrite R2.
Qed.

(** ** Sessions *)

(** Between two interrupts: the lock is free, the console prints, and it holds [a]. *)
Record resting (c : console) (a : typed) : Prop := {
  rs_lock : cn_lock c = false;
  rs_calm : calm c;
  rs_types : types_ok c a;
  rs_line : 10 ∉ edit a;
  rs_shift : bits 7 (shift c)
}.

Lemma types_lines l a : 10 ∉ edit a -> 10 ∉ edit (foldl types a l).
Proof. revert a. induction l; intros a' Ha; cbn; auto using types_line. Qed.

(** ** Sessions *)

(** What happens to the console: bytes arrive at the serial port, keys are pressed,
    and a reader that wants [target] bytes and already has [got] takes the lock. *)
Inductive event :=
| Serial (l : list Z)
| Keyboard (codes : list Z)
| Reader (target : Z) (got : list Z).

Definition reader_turn (target : Z) (got : list Z) : CM read_end :=
  let n := target - Z.of_nat (length got) in
  cons_acquire;; do r <- consoleread_loop (Z.to_nat n) target n got; cons_release;; ret r.

Definition happens (e : event) : CM (option read_end) :=
  match e with
  | Serial l => modify (fun c => c <| uart_in := l |>);; uartintr;; ret None
  | Keyboard l => modify (fun c => c <| kbd_in := l |>);; kbdintr;; ret None
  | Reader target got => do r <- reader_turn target got; ret (Some r)
  end.

Fixpoint session (es : list event) : CM (list read_end) :=
  match es with
  | [] => ret []
  | e :: es => do o <- happens e; do os <- session es; ret (option_list o ++ os)
  end.

(** The same on the line editor; [sh] is the state of the modifier keys. *)
Definition edits (uart sh : Z) (e : event) (a : typed) : option read_end * typed * Z :=
  match e with
  | Serial l => (None, foldl types a (if uart =? 0 then [] else l), sh)
  | Keyboard l => (None, foldl types a (keys sh l), modifiers sh l)
  | Reader target got =>
    let t := takes (Z.to_nat target - length got) (ready a) got in
    (Some (read_result target t.1), Typed t.2 (edit a), sh)
  end.

Fixpoint edited (uart sh : Z) (es : list event) (a : typed) : list read_end * typed :=
  match es with
  | [] => ([], a)
  | e :: es =>
    let '(o, a, sh) := edits uart sh e a in
    let '(os, a) := edited uart sh es a in (option_list o ++ os, a)
  end.

(** Bytes are bytes, and a reader has no more than it wants. *)
Definition sensible (e : event) : Prop :=
  match e with
  | Serial l => Forall (fun x => 0 <= x < 256) l
  | Keyboard _ => True
  | Reader target got => Z.of_nat (length got) <= target < 2 ^ 31
  end.
#[export] Instance sensible_dec e : Decision (sensible e).
Proof. destruct e; cbn; apply _. Defined.

(** ** Each event *)

Lemma modifiers_bits l sh : bits 7 sh -> bits 7 (modifiers sh l).
Proof. revert sh. induction l as [|d l IH]; intros sh Hs; cbn; [done|]. apply IH. by apply decode_bits. Qed.

Lemma resting_input c a u k :
  resting c a -> resting (c <| uart_in := u |>) a /\ resting (c <| kbd_in := k |>) a.
Proof. intros [? ? [] ? ?]. by split; split. Qed.

Lemma uartintr_run c a :
  resting c a -> Forall (fun x => 0 <= x < 256) (uart_in c) ->
  exists c', uartintr c = Ret tt c' /\ resting c' (foldl types a (uart_pend c)) /\ uart c' = uart c /\ shift c' = shift c /\
    (ready (foldl types a (uart_pend c)) <> ready a -> (woke c < woke c')%nat).
Proof.
  intros [Hk Hc Ha Hn Hs] Hl. unfold uartintr. rewrite bind_gets. unfold id.
  assert (Hp : Forall (fun x => 0 <= x < 256) (uart_pend c) /\ (length (uart_pend c) < S (length (uart_in c)))%nat).
  { unfold uart_pend. destruct (_ =? 0); split; try done; cbn; lia. }
  destruct (consoleintr_run _ _ _ uart_source (S (length (uart_in c))) c a Hk (proj1 Hp) (proj2 Hp) Hc Ha Hn)
    as (c' & E & T & C & _ & L & U & F & _ & R).
  exists c'. split_and!; [done| |done..]. split; [congruence|done|done|by apply types_lines|by rewrite F].
Qed.

Lemma kbdintr_run c a :
  resting c a ->
  exists c', kbdintr c = Ret tt c' /\ resting c' (foldl types a (keys (shift c) (kbd_in c))) /\ uart c' = uart c /\
    shift c' = modifiers (shift c) (kbd_in c) /\
    (ready (foldl types a (keys (shift c) (kbd_in c))) <> ready a -> (woke c < woke c')%nat).
Proof.
  intros [Hk Hc Ha Hn Hs]. unfold kbdintr. rewrite bind_gets. unfold id.
  assert (Hf : (length (keys (shift c) (kbd_in c)) < S (length (kbd_in c)))%nat) by (rewrite length_keys; lia).
  destruct (consoleintr_run _ _ _ kbd_source (S (length (kbd_in c))) c a Hk (keys_bytes _ _ Hs) Hf Hc Ha Hn)
    as (c' & E & T & C & P & L & U & F & _ & R).
  assert (F' : shift c' = modifiers (shift c) (kbd_in c)).
  { rewrite <- F. destruct (kbd_in c'); [done|]. cbn in P. done. }
  exists c'. split_and!; [done| |done..]. split; [congruence|done|done|by apply types_lines|]. rewrite F'. by apply modifiers_bits.
Qed.

Lemma reader_turn_run target got c a :
  resting c a -> Z.of_nat (length got) <= target < 2 ^ 31 ->
  let t := takes (Z.to_nat target - length got) (ready a) got in
  exists c', reader_turn target got c = Ret (read_result target t.1) c' /\ resting c' (Typed t.2 (edit a)) /\
    uart c' = uart c /\ shift c' = shift c.
Proof.
  intros [Hk Hc Ha Hn Hs] Ht t. unfold reader_turn, cons_acquire, lock_acq. rewrite bind_assoc, bind_gets, Hk. cbv iota.
  rewrite bind_modify. set (c1 := c <| cn_lock := true |>). set (k := (Z.to_nat target - length got)%nat).
  replace (target - Z.of_nat (length got)) with (Z.of_nat k) by lia. rewrite Nat2Z.id.
  assert (Ha1 : types_ok c1 (Typed (ready a) (edit a))) by (destruct Ha; by split).
  destruct (consoleread_loop_run k target (ready a) got (edit a) c1 Ha1) as (c2 & E2 & T2 & (r & ->)); [lia|lia|].
  runs1 E2. unfold cons_release, lock_rel. rewrite bind_assoc, bind_gets.
  change (cn_lock (c1 <| in_r := r |>)) with true. cbv iota. rewrite bind_modify.
  eexists. split_and!; [done| |done|done]. split; [done|done| |done|done]. destruct T2. by split.
Qed.

Lemma happens_run e c a :
  resting c a -> sensible e ->
  let '(o, a', sh) := edits (uart c) (shift c) e a in
  exists c', happens e c = Ret o c' /\ resting c' a' /\ uart c' = uart c /\ shift c' = sh.
Proof.
  intros Hr He. destruct e as [l|l|target got]; cbn [edits happens].
  - rewrite bind_modify. destruct (uartintr_run _ _ (proj1 (resting_input _ _ l [] Hr)) He) as (c' & E & H1 & H2 & H3 & _).
    runs1 E. by exists c'.
  - rewrite bind_modify. destruct (kbdintr_run _ _ (proj2 (resting_input _ _ [] l Hr))) as (c' & E & H1 & H2 & H3 & _).
    runs1 E. by exists c'.
  - destruct (reader_turn_run target got c a Hr He) as (c' & E & H1 & H2 & H3). runs1 E. by exists c'.
Qed.

(** ** Claims *)

(** C17: The console is a line editor.  Start from a console at rest and let any bytes
    arrive at the serial port, any scan codes at the keyboard, and any readers run,
    in any order.  Every interrupt handler and every turn of [consoleread] returns
    without panic or out-of-range access; each reader gets exactly what the editor
    [edited] gives it (bytes once, in order, up to a newline, ^D or the count it
    wants, asleep only when no whole line is there), and the console rests again
    holding exactly the editor's lines, with the lock free and the cursor on the
    screen.  The counters of the ring may wrap. *)
Theorem console_session (es : list event) (c : console) (a : typed)
    (Hc : resting c a) (Hes : Forall sensible es) :
  exists c', session es c = Ret (edited (uart c) (shift c) es a).1 c' /\
    resting c' (edited (uart c) (shift c) es a).2.
Proof.
  revert c a Hc. induction Hes as [|e es He _ IH]; intros c a Hc; cbn [session edited]; [by exists c|].
  pose proof (happens_run e c a Hc He) as Hrun. destruct (edits (uart c) (shift c) e a) as [[o a1] sh].
  destruct Hrun as (c1 & E1 & R1 & U1 & <-). runs1 E1. destruct (IH c1 a1 R1) as (c2 & E2 & R2). rewrite U1 in E2, R2.
  runs1 E2. destruct (edited (uart c) (shift c1) es a1) as [os a2]. by exists c2.
Qed.

(** A console after [consoleinit], with a serial port, whose counters are about to wrap. *)
Definition demo_console : console :=
  Console false 1 0 (fun _ => 0) 0 0 1 [] [] [] 0 (replicate 128 0) (2 ^ 32 - 2) (2 ^ 32 - 2) (2 ^ 32 - 2) 0 0.
(** "ls", a backspace, "n" and the return key; then shift-a; then two readers. *)
Definition demo_events : list event :=
  [Serial [108; 115; 127; 110; 13]; Keyboard [0x2A; 0x1E]; Reader 100 []; Reader 100 []].

Lemma demo_resting : resting demo_console (Typed [] []).
Proof.
  split; [done|by split| |set_solver|by vm_compute].
  split; try done; [by split..|]. vm_compute. lia.
Qed.

Lemma console_session_witness :
  edited 1 0 demo_events (Typed [] []) = ([ReadDone 97 [108; 110; 10]; ReadSleep 100 []], Typed [] [65]) /\
  exists c', session demo_events demo_console = Ret [ReadDone 97 [108; 110; 10]; ReadSleep 100 []] c' /\
    resting c' (Typed [] [65]).
Proof.
  split; [vm_compute; reflexivity|].
  exact (console_session demo_events demo_console (Typed [] []) demo_resting (bool_decide_unpack (Forall sensible demo_events) I)).
Defined.

Lemma takes_sleeps k rd got : (takes k rd got).1.1 = false -> (takes k rd got).2 = [].
Proof.
  revert rd got. induction k as [|k IH]; intros rd got; cbn; [done|]. destruct rd as [|x rd]; [done|].
  destruct (_ =? _); [done|]. destruct (_ =? _); [done|]. apply IH.
Qed.

(** C40: No wakeup is lost at the console.  A reader goes to sleep only when it has
    left nothing that it could read, and an interrupt of the serial port or of the
    keyboard that makes anything readable calls [wakeup(&input.r)] before it
    returns. *)
Theorem console_no_lost_wakeup (c : console) (a : typed) (target : Z) (got : list Z)
    (Hc : resting c a) (Hu : Forall (fun x => 0 <= x < 256) (uart_in c)) (Ht : Z.of_nat (length got) <= target < 2 ^ 31) :
  (exists r c', reader_turn target got c = Ret r c' /\
     match r with ReadSleep _ _ => in_r c' = in_w c' | ReadDone _ _ => True end) /\
  (exists c' a', uartintr c = Ret tt c' /\ resting c' a' /\ (ready a' <> ready a -> (woke c < woke c')%nat)) /\
  (exists c' a', kbdintr c = Ret tt c' /\ resting c' a' /\ (ready a' <> ready a -> (woke c < woke c')%nat)).
Proof.
  split_and!.
  - destruct (reader_turn_run target got c a Hc Ht) as (c' & E & [_ _ T _ _] & _). eexists _, c'. split; [done|].
    pose proof (takes_sleeps (Z.to_nat target - length got) (ready a) got) as Hs. unfold read_result.
    destruct (takes _ _ _).1.1; [done|]. rewrite (Hs eq_refl) in T. by apply Z.eqb_eq, (types_none _ _ T).
  - destruct (uartintr_run c a Hc Hu) as (c' & E & R & _ & _ & W). by exists c', (foldl types a (uart_pend c)).
  - destruct (kbdintr_run c a Hc) as (c' & E & R & _ & _ & W). by exists c', (foldl types a (keys (shift c) (kbd_in c))).
Qed.

Lemma console_no_lost_wakeup_witness :
  let c := demo_console <| uart_in := [108; 13] |> in
  exists c' a', uartintr c = Ret tt c' /\ resting c' a' /\ (ready a' <> [] -> (woke c < woke c')%nat).
Proof.
  exact (proj1 (proj2 (console_no_lost_wakeup (demo_console <| uart_in := [108; 13] |>) (Typed [] []) 1 []
    (proj1 (resting_input demo_console _ [108; 13] [] demo_resting))
    (bool_decide_unpack (Forall (fun x => 0 <= x < 256) [108; 13]) I) (conj (Z.le_0_1) eq_refl)))).
Defined.
