(* ===== verification/Sh.v ===== *)
(** * The shell's parser (sh.c)

    [parsecmd] and what it calls.  The line sits in a buffer of characters; the
    code's pointers into it are indices.  [ps] is the pointer the parser advances
    through [char **ps] and [es] the end of the line.  A command is a tree that
    points into the buffer; [nulterminate] then writes the zeros after its words.
    The allocations of the constructors are taken to succeed. *)
From S2P Require Import Prelude Cstring.
Local Open Scope Z_scope.
Local Open Scope kernel_scope.

Definition MAXARGS : nat := 10.
Definition O_RDONLY : Z := 0.
Definition O_WRONLY : Z := 1.
Definition O_CREATE : Z := 0x200.

(** The structs of a command: [argv] and [eargv] up to the null pointer. *)
Inductive cmd :=
| EXEC (argv : list (nat * nat))
| REDIR (c : cmd) (file efile : nat) (mode fd : Z)
| PIPE (left right : cmd)
| LIST (left right : cmd)
| BACK (c : cmd).

Record sh := Sh { ps : nat; text : list Z }.
Definition P (A : Type) : Type := M sh unit A.

(** *s *)
Definition char_at (s : nat) : P Z := do t <- gets text; derefM "*s" (t !! s).

Definition whitespace : list Z := [32; 9; 13; 10; 11; 0].
Definition symbols : list Z := [60; 124; 62; 38; 59; 40; 41; 0].

(** strchr(set, c) != 0 *)
Definition in_set (set : list Z) (c : Z) : bool :=
  match strchr set c with Some (Some _) => true | _ => false end.

(** while(s < es && strchr(whitespace, *s)) s++; with [k] = es - s. *)
Fixpoint skip_space (k s : nat) : P nat :=
  match k with
  | O => ret s
  | S k' => do c <- char_at s; if in_set whitespace c then skip_space k' (S s) else ret s
  end.

(** while(s < es && !strchr(whitespace, *s) && !strchr(symbols, *s)) s++; *)
Fixpoint skip_word (k s : nat) : P nat :=
  match k with
  | O => ret s
  | S k' =>
    do c <- char_at s;
    if negb (in_set whitespace c) && negb (in_set symbols c) then skip_word k' (S s) else ret s
  end.

(** The switch on the first character: the kind of the token at [q] and where it ends. *)
Definition token_at (es q : nat) (c : Z) : P (Z * nat) :=
  if c =? 0 then ret (c, q)
  else if (c =? 124) || (c =? 40) || (c =? 41) || (c =? 59) || (c =? 38) || (c =? 60) then ret (c, S q)
  else if c =? 62 then
    do c' <- char_at (S q);
    if c' =? 62 then ret (43, S (S q)) else ret (c, S q)
  else
    do e <- skip_word (es - q) q;
    ret (97, e).

(** gettoken: the kind of the token, where it starts and where it ends. *)
Definition gettoken (es : nat) : P (Z * nat * nat) :=
  do s <- gets ps;
  do q <- skip_space (es - s) s;
  do c <- char_at q;
  do '(tok, eq) <- token_at es q c;
  do s <- skip_space (es - eq) eq;
  modify (fun st => Sh s (text st));;
  ret (tok, q, eq).

Definition peek (es : nat) (toks : list Z) : P bool :=
  do s <- gets ps;
  do s <- skip_space (es - s) s;
  modify (fun st => Sh s (text st));;
  do c <- char_at s;
  ret (negb (c =? 0) && in_set toks c).

(** Each round of the parser's loops takes a token, and a token has a character:
    one round more than the line has characters is enough. *)
Fixpoint redirs_loop (k es : nat) (c : cmd) : P cmd :=
  match k with
  | O => undef "parseredirs: out of fuel"
  | S k' =>
    do b <- peek es [60; 62; 0];
    if negb b then ret c else
    do '(tok, _, _) <- gettoken es;
    do '(a, q, eq) <- gettoken es;
    if negb (a =? 97) then panic "missing file for redirection" else
    redirs_loop k' es
      (if tok =? 60 then REDIR c q eq O_RDONLY 0
       else if tok =? 62 then REDIR c q eq (Z.lor O_WRONLY O_CREATE) 1
       else if tok =? 43 then REDIR c q eq (Z.lor O_WRONLY O_CREATE) 1
       else c)
  end.
Definition parseredirs (es : nat) (c : cmd) : P cmd := redirs_loop (S es) es c.

(** cmd->argv[argc] = q; cmd->eargv[argc] = eq;  the struct [execcmd] sits at the
    bottom of the redirections that were put around it. *)
Fixpoint add_arg (c : cmd) (q eq : nat) : cmd :=
  match c with
  | EXEC argv => EXEC (argv ++ [(q, eq)])
  | REDIR c file efile mode fd => REDIR (add_arg c q eq) file efile mode fd
  | c => c
  end.

(** The loop of [parseexec] over the arguments. *)
Fixpoint args_loop (k es argc : nat) (c : cmd) : P cmd :=
  match k with
  | O => undef "parseexec: out of fuel"
  | S k' =>
    do b <- peek es [124; 41; 38; 59; 0];
    if b then ret c else
    do '(tok, q, eq) <- gettoken es;
    if tok =? 0 then ret c else
    if negb (tok =? 97) then panic "syntax" else
    let c := add_arg c q eq in
    let argc := S argc in
    if decide (MAXARGS <= argc)%nat then panic "too many args" else
    do c <- parseredirs es c;
    args_loop k' es argc c
  end.

(** while(peek(ps, es, "&")){ gettoken(ps, es, 0, 0); cmd = backcmd(cmd); } *)
Fixpoint back_loop (k es : nat) (c : cmd) : P cmd :=
  match k with
  | O => undef "parseline: out of fuel"
  | S k' =>
    do b <- peek es [38; 0];
    if negb b then ret c else
    gettoken es;;
    back_loop k' es (BACK c)
  end.

(** The recursive descent.  [f] bounds the depth of the calls: four for each token. *)
Fixpoint parseline (f es : nat) : P cmd :=
  match f with
  | O => undef "parseline: out of fuel"
  | S f' =>
    do c <- parsepipe f' es;
    do c <- back_loop (S es) es c;
    do b <- peek es [59; 0];
    if negb b then ret c else
    gettoken es;;
    do r <- parseline f' es;
    ret (LIST c r)
  end
with parsepipe (f es : nat) : P cmd :=
  match f with
  | O => undef "parsepipe: out of fuel"
  | S f' =>
    do c <- parseexec f' es;
    do b <- peek es [124; 0];
    if negb b then ret c else
    gettoken es;;
    do r <- parsepipe f' es;
    ret (PIPE c r)
  end
with parseexec (f es : nat) : P cmd :=
  match f with
  | O => undef "parseexec: out of fuel"
  | S f' =>
    do b <- peek es [40; 0];
    if b then parseblock f' es else
    do c <- parseredirs es (EXEC []);
    args_loop (S es) es 0 c
  end
with parseblock (f es : nat) : P cmd :=
  match f with
  | O => undef "parseblock: out of fuel"
  | S f' =>
    do b <- peek es [40; 0];
    if negb b then panic "parseblock" else
    gettoken es;;
    do c <- parseline f' es;
    do b <- peek es [41; 0];
    if negb b then panic "syntax - missing )" else
    gettoken es;;
    parseredirs es c
  end.

(** *p = 0; *)
Definition put_nul (p : nat) : P unit :=
  do t <- gets text;
  if decide (length t <= p)%nat then undef "*p = 0" else
  modify (fun st => Sh (ps st) (<[p := 0]> (text st))).

Fixpoint nulterminate (c : cmd) : P unit :=
  match c with
  | EXEC argv => forM argv (fun a => put_nul a.2)
  | REDIR c _ efile _ _ => nulterminate c;; put_nul efile
  | PIPE l r => nulterminate l;; nulterminate r
  | LIST l r => nulterminate l;; nulterminate r
  | BACK c => nulterminate c
  end.

Definition parsecmd : P cmd :=
  do st <- gets id;
  do n <- derefM "strlen" (strlen (drop (ps st) (text st)));
  let es := (ps st + n)%nat in
  do c <- parseline (4 * S es) es;
  peek es [0];;
  do s <- gets ps;
  if negb (s =? es)%nat then panic "syntax" else
  nulterminate c;;
  ret c.
