(* ===== verification/ShSpec.v ===== *)
(** * What the shell's parser accepts

    The words and symbols of a line ([lexed]), the grammar of commands over them
    ([gline]), and a recursive-descent parser on tokens ([tline]) between the
    grammar and the code, which reads characters and keeps pointers. *)
From S2P Require Import Prelude Cstring FsDefs Sh.
Local Open Scope Z_scope.
Local Open Scope kernel_scope.

(** ** Tokens *)

Definition word_char (c : Z) : bool := negb (in_set whitespace c) && negb (in_set symbols c) && negb (c =? 0).

Inductive token :=
| TSym (c : Z)
| TWord (w : list Z).

(** [s] does not begin with a character of a word. *)
Definition ends (s : list Z) : Prop := match s with [] => True | c :: _ => word_char c = false end.

Inductive lexed : list Z -> list token -> Prop :=
| lexed_nil : lexed [] []
| lexed_space c s ts : in_set whitespace c = true -> lexed s ts -> lexed (c :: s) ts
| lexed_sym c s ts : c ∈ [124; 40; 41; 59; 38; 60] -> lexed s ts -> lexed (c :: s) (TSym c :: ts)
| lexed_append s ts : lexed s ts -> lexed (62 :: 62 :: s) (TSym 43 :: ts)
| lexed_gt s ts : head s <> Some 62 -> lexed s ts -> lexed (62 :: s) (TSym 62 :: ts)
| lexed_word w s ts : w <> [] -> Forall (fun c => word_char c = true) w -> ends s -> lexed s ts ->
    lexed (w ++ s) (TWord w :: ts).

(** The trees that [parsecmd] builds, with the words themselves. *)
Inductive tree :=
| TExec (argv : list (list Z))
| TRedir (t : tree) (file : list Z) (mode fd : Z)
| TPipe (left right : tree)
| TList (left right : tree)
| TBack (t : tree).

(** ** A parser on tokens *)

(** A tree and the tokens that are left; a syntax error; or out of fuel. *)
Inductive tres :=
| Got (t : tree) (ts : list token)
| Bad
| Short.
Definition tbind (r : tres) (k : tree -> list token -> tres) : tres :=
  match r with Got t ts => k t ts | Bad => Bad | Short => Short end.

Definition redir_op (c : Z) : bool := (c =? 60) || (c =? 62) || (c =? 43).
Definition redirect (t : tree) (op : Z) (w : list Z) : tree :=
  if op =? 60 then TRedir t w O_RDONLY 0 else TRedir t w (Z.lor O_WRONLY O_CREATE) 1.
(** One more argument for the command under the redirections. *)
Fixpoint argument (t : tree) (w : list Z) : tree :=
  match t with
  | TExec argv => TExec (argv ++ [w])
  | TRedir t f m d => TRedir (argument t w) f m d
  | t => t
  end.

Fixpoint tredirs (ts : list token) (t : tree) : tres :=
  match ts with
  | TSym c :: ts' =>
    if redir_op c then match ts' with TWord w :: ts'' => tredirs ts'' (redirect t c w) | _ => Bad end else Got t ts
  | _ => Got t ts
  end.

(** The arguments and redirections of a simple command that has [n] arguments. *)
Fixpoint titems (ts : list token) (n : nat) (t : tree) : tres :=
  match ts with
  | [] => Got t []
  | TWord w :: ts' => if decide (MAXARGS <= S n)%nat then Bad else titems ts' (S n) (argument t w)
  | TSym c :: ts' =>
    if redir_op c then match ts' with TWord w :: ts'' => titems ts'' n (redirect t c w) | _ => Bad end
    else if c =? 40 then Bad else Got t ts
  end.

Fixpoint tbacks (ts : list token) (t : tree) : tres :=
  match ts with
  | TSym c :: ts' => if c =? 38 then tbacks ts' (TBack t) else Got t ts
  | _ => Got t ts
  end.

Definition next_is (c : Z) (ts : list token) : option (list token) :=
  match ts with TSym d :: ts' => if d =? c then Some ts' else None | _ => None end.

Fixpoint tline (f : nat) (ts : list token) : tres :=
  match f with
  | O => Short
  | S f' =>
    tbind (tpipe f' ts) (fun t ts =>
    tbind (tbacks ts t) (fun t ts =>
    match next_is 59 ts with
    | Some ts => tbind (tline f' ts) (fun r ts => Got (TList t r) ts)
    | None => Got t ts
    end))
  end
with tpipe (f : nat) (ts : list token) : tres :=
  match f with
  | O => Short
  | S f' =>
    tbind (texec f' ts) (fun t ts =>
    match next_is 124 ts with
    | Some ts => tbind (tpipe f' ts) (fun r ts => Got (TPipe t r) ts)
    | None => Got t ts
    end)
  end
with texec (f : nat) (ts : list token) : tres :=
  match f with
  | O => Short
  | S f' => match next_is 40 ts with Some _ => tblock f' ts | None => titems ts 0 (TExec []) end
  end
with tblock (f : nat) (ts : list token) : tres :=
  match f with
  | O => Short
  | S f' =>
    match next_is 40 ts with
    | None => Bad
    | Some ts =>
      tbind (tline f' ts) (fun t ts =>
      match next_is 41 ts with Some ts => tredirs ts t | None => Bad end)
    end
  end.

(** A command in the shape of a tree, whose pointers are related to its words by [R]. *)
Inductive shaped (R : nat -> nat -> list Z -> Prop) : cmd -> tree -> Prop :=
| shaped_exec argv ws : Forall2 (fun a w => R a.1 a.2 w) argv ws -> shaped R (EXEC argv) (TExec ws)
| shaped_redir c f e m d t w : shaped R c t -> R f e w -> shaped R (REDIR c f e m d) (TRedir t w m d)
| shaped_pipe l r tl tr : shaped R l tl -> shaped R r tr -> shaped R (PIPE l r) (TPipe tl tr)
| shaped_list l r tl tr : shaped R l tl -> shaped R r tr -> shaped R (LIST l r) (TList tl tr)
| shaped_back c t : shaped R c t -> shaped R (BACK c) (TBack t).

Lemma shaped_mono (R R' : nat -> nat -> list Z -> Prop) c t :
  (forall q e w, R q e w -> R' q e w) -> shaped R c t -> shaped R' c t.
Proof. intros HR. induction 1; constructor; auto. eapply Forall2_impl; [done|]. intros a w. apply HR. Qed.

(** ** Characters *)

Lemma in_set_elem set c : in_set set c = true -> c ∈ set /\ c <> 0.
Proof.
  unfold in_set. induction set as [|x set IH]; cbn [strchr]; [done|]. destruct (Z.eqb_spec x 0); [done|].
  destruct (Z.eqb_spec x c) as [->|]; [intros _; set_solver|]. intros H. destruct (IH H). set_solver.
Qed.

Fixpoint ltrim (s : list Z) : list Z :=
  match s with c :: s' => if in_set whitespace c then ltrim s' else s | [] => [] end.

Lemma ltrim_head s c : head (ltrim s) = Some c -> in_set whitespace c = false.
Proof. induction s as [|x s IH]; cbn; [done|]. destruct (in_set whitespace x) eqn:E; [exact IH|]. cbn. intros. congruence. Qed.

Lemma word_not_space c : word_char c = true -> in_set whitespace c = false /\ in_set symbols c = false /\ c <> 0.
Proof. unfold word_char. intros. by to_prop. Qed.

Lemma ltrim_id c s : in_set whitespace c = false -> ltrim (c :: s) = c :: s.
Proof. cbn. by intros ->. Qed.

Lemma lexed_ltrim s ts : lexed s ts -> lexed (ltrim s) ts.
Proof.
  induction 1 as [|c s ts Hc H IH|c s ts Hc H IH|s ts H IH|s ts Hh H IH|w s ts Hw Hf He H IH].
  - constructor.
  - cbn. by rewrite Hc.
  - rewrite ltrim_id; [by constructor|]. repeat (apply elem_of_cons in Hc as [->|Hc]; [done|]). by apply elem_of_nil in Hc.
  - by constructor.
  - by constructor.
  - destruct w as [|x w]; [done|]. pose proof (Forall_inv Hf) as Hx. apply word_not_space in Hx as [Hx _].
    rewrite <- app_comm_cons, ltrim_id by done. by apply (lexed_word (x :: w)).
Qed.

(** The word that [s] begins with. *)
Fixpoint cut_word (s : list Z) : list Z * list Z :=
  match s with
  | c :: s' => if word_char c then (c :: (cut_word s').1, (cut_word s').2) else ([], s)
  | [] => ([], [])
  end.

Lemma cut_word_ok s : s = (cut_word s).1 ++ (cut_word s).2 /\ Forall (fun c => word_char c = true) (cut_word s).1 /\ ends (cut_word s).2.
Proof.
  induction s as [|c s (IH1 & IH2 & IH3)]; cbn; [done|]. destruct (word_char c) eqn:E; cbn; [|done].
  split_and!; [by f_equal|by constructor|done].
Qed.
Lemma cut_word_app w s : Forall (fun c => word_char c = true) w -> ends s -> cut_word (w ++ s) = (w, s).
Proof.
  induction 1 as [|c w Hc _ IH]; intros Hs; cbn; [destruct s as [|c s]; cbn in *; [done|by rewrite Hs]|].
  by rewrite Hc, IH.
Qed.

(** What is neither space nor symbol nor zero is in a word. *)
Lemma symbols_elem c : in_set symbols c = true -> c ∈ [124; 40; 41; 59; 38; 60] \/ c = 62.
Proof. intros [H H0]%in_set_elem. unfold symbols in H. set_solver. Qed.

(** What the first token of a text that begins with no space is. *)
Lemma lexed_first s ts :
  lexed s ts -> (forall c, head s = Some c -> in_set whitespace c = false) ->
  match ts with
  | [] => s = []
  | TSym c :: ts' => exists s', lexed s' ts' /\
      (c ∈ [124; 40; 41; 59; 38; 60] /\ s = c :: s' \/ c = 43 /\ s = 62 :: 62 :: s' \/ c = 62 /\ s = 62 :: s' /\ head s' <> Some 62)
  | TWord w :: ts' => exists s', lexed s' ts' /\ s = w ++ s' /\ w <> [] /\ Forall (fun c => word_char c = true) w /\ ends s'
  end.
Proof.
  intros H Hh. destruct H as [|c s ts Hc _|c s ts|s ts|s ts|w s ts]; [done| |by exists s; auto 6..].
  specialize (Hh c eq_refl). congruence.
Qed.

Lemma not_symbol c :
  in_set symbols c = false ->
  (c =? 124) || (c =? 40) || (c =? 41) || (c =? 59) || (c =? 38) || (c =? 60) = false /\ (c =? 62) = false.
Proof.
  intros H. assert (Hne : forall x, in_set symbols x = true -> (c =? x) = false) by (intros x Hx; apply Z.eqb_neq; congruence).
  by rewrite !Hne.
Qed.

(** Every line has tokens. *)
Lemma lexed_exists s : Forall (fun c => c <> 0) s -> exists ts, lexed s ts.
Proof.
  remember (length s) as n eqn:Hn. assert (Hle : (length s <= n)%nat) by lia. clear Hn. revert s Hle.
  induction n as [|n IH]; intros [|c s] Hl Hz; cbn in Hl; try lia; [by exists []; constructor..|].
  apply Forall_cons in Hz as [Hc Hz]. destruct (in_set whitespace c) eqn:Hw.
  { destruct (IH s ltac:(lia) Hz) as [ts H]. exists ts. by constructor. }
  destruct (decide (c ∈ [124; 40; 41; 59; 38; 60])) as [Hs|Hs].
  { destruct (IH s ltac:(lia) Hz) as [ts H]. exists (TSym c :: ts). by constructor. }
  destruct (decide (c = 62)) as [->|Hgt].
  { destruct (decide (head s = Some 62)) as [Hh|Hh].
    - destruct s as [|x s]; [done|]. cbn in Hh. simplify_eq. apply Forall_cons in Hz as [_ Hz].
      destruct (IH s ltac:(cbn in Hl; lia) Hz) as [ts H]. exists (TSym 43 :: ts). by constructor.
    - destruct (IH s ltac:(lia) Hz) as [ts H]. exists (TSym 62 :: ts). by constructor. }
  assert (Hwc : word_char c = true).
  { unfold word_char. rewrite Hw, (proj2 (Z.eqb_neq _ _) Hc). destruct (in_set symbols c) eqn:E; [|done].
    apply symbols_elem in E. tauto. }
  destruct (cut_word_ok (c :: s)) as (H1 & H2 & H3). destruct (cut_word (c :: s)) as [w r] eqn:E. cbn [fst snd] in *.
  assert (Hw0 : w <> []) by (cbn in E; rewrite Hwc in E; intros ->; simplify_eq).
  assert (Hr : (length r <= n)%nat).
  { apply (f_equal length) in H1. rewrite length_app in H1. cbn in H1. destruct w; [done|]. cbn in H1. lia. }
  assert (Hz' : Forall (fun c => c <> 0) (w ++ r)) by (rewrite <- H1; by constructor).
  apply Forall_app in Hz' as [_ Hz']. destruct (IH r Hr Hz') as [ts H].
  exists (TWord w :: ts). rewrite H1. by constructor.
Qed.

(** ** The characters of the line *)

Section Line.
Context (line rest : list Z) (Hline : Forall (fun c => c <> 0) line).

Definition line_buf : list Z := line ++ 0 :: rest.
Definition es : nat := length line.
Definition at_ (p : nat) : sh := Sh p line_buf.

(** The character at [p] when [s] is left of the line there. *)
Definition first (s : list Z) : Z := default 0 (head s).

Lemma char_at_run p s x : (p <= es)%nat -> drop p line = s -> char_at p (at_ x) = Ret (first s) (at_ x).
Proof.
  intros Hp <-. unfold char_at. rewrite bind_gets. cbn [text at_]. unfold line_buf.
  destruct (decide (p = es)) as [->|].
  - rewrite lookup_app_r by done. unfold es. rewrite Nat.sub_diag, drop_ge by done. done.
  - destruct (lookup_lt_is_Some_2 line p) as [c Hc]; [unfold es in *; lia|].
    rewrite (lookup_app_l_Some _ _ _ _ Hc), (drop_S _ _ _ Hc). done.
Qed.

Lemma drop_cons p c s : drop p line = c :: s -> drop (S p) line = s /\ (p < es)%nat.
Proof.
  intros H. split.
  - rewrite <- Nat.add_1_r, <- drop_drop, H. done.
  - apply (f_equal length) in H. rewrite length_drop in H. cbn in H. unfold es. lia.
Qed.

Lemma left_length p s : drop p line = s -> (es - p)%nat = length s.
Proof. intros <-. by rewrite length_drop. Qed.

Lemma skip_space_run s p x :
  (p <= es)%nat -> drop p line = s ->
  exists p', skip_space (length s) p (at_ x) = Ret p' (at_ x) /\ (p <= p' <= es)%nat /\ drop p' line = ltrim s.
Proof.
  revert p. induction s as [|c s IH]; intros p Hp Hs; cbn [skip_space length]; [by exists p|].
  destruct (drop_cons _ _ _ Hs) as [Hs' Hlt]. runs1 (char_at_run p (c :: s) x Hp Hs). cbn [first head default ltrim].
  destruct (in_set whitespace c) eqn:E; unfold first; cbn; rewrite E; [|by exists p].
  destruct (IH (S p)) as (p' & H1 & H2 & H3); [lia|done|]. exists p'. split_and!; [done|lia..|done].
Qed.

Lemma skip_word_run s p x :
  (p <= es)%nat -> drop p line = s ->
  exists p', skip_word (length s) p (at_ x) = Ret p' (at_ x) /\ (p + length (cut_word s).1)%nat = p' /\ (p' <= es)%nat /\
    drop p' line = (cut_word s).2.
Proof.
  revert p. induction s as [|c s IH]; intros p Hp Hs; cbn [skip_word length]; [by exists p; rewrite Nat.add_0_r|].
  destruct (drop_cons _ _ _ Hs) as [Hs' Hlt]. runs1 (char_at_run p (c :: s) x Hp Hs). unfold first. cbn [head default from_option cut_word].
  assert (Hc : c <> 0). { rewrite <- (take_drop p line), Hs in Hline. by apply Forall_app in Hline as [_ ?%Forall_inv]. }
  unfold word_char. rewrite (proj2 (Z.eqb_neq _ _) Hc), andb_true_r. cbn [id]. destruct (negb _ && negb _); cbn [fst snd length].
  - destruct (IH (S p)) as (p' & H1 & H2 & H3 & H4); [lia|done|]. exists p'. split_and!; [done|lia..|done].
  - exists p. rewrite Nat.add_0_r. done.
Qed.
(** [w] is the word between [q] and [e]. *)
Definition is_word (q e : nat) (w : list Z) : Prop :=
  w <> [] /\ Forall (fun c => word_char c = true) w /\ exists s, drop q line = w ++ s /\ ends s /\ e = (q + length w)%nat.

Definition code (t : token) : Z := match t with TSym c => c | TWord _ => 97 end.

Lemma token_at_run q ts x :
  (q <= es)%nat -> lexed (drop q line) ts -> (forall c, head (drop q line) = Some c -> in_set whitespace c = false) ->
  match ts with
  | [] => token_at es q (first (drop q line)) (at_ x) = Ret (0, q) (at_ x) /\ q = es
  | t :: ts' => exists e, token_at es q (first (drop q line)) (at_ x) = Ret (code t, e) (at_ x) /\ (q < e <= es)%nat /\
      lexed (drop e line) ts' /\ (forall w, t = TWord w -> is_word q e w)
  end.
Proof.
  intros Hq Hl Hh. pose proof (lexed_first _ _ Hl Hh) as Hf. destruct ts as [|[c|w] ts].
  - rewrite Hf. split; [done|]. apply left_length in Hf. cbn in Hf. lia.
  - destruct Hf as (s & Hs & [[Hc E]|[[-> E]|(-> & E & Hn)]]); rewrite E; destruct (drop_cons _ _ _ E) as [E' Hlt]; cbn [code].
    + exists (S q). rewrite E'. split_and!; [|lia..|done|done].
      repeat (apply elem_of_cons in Hc as [->|Hc]; [done|]). by apply elem_of_nil in Hc.
    + destruct (drop_cons _ _ _ E') as [E'' Hlt']. exists (S (S q)). rewrite E''. split_and!; [|lia..|done|done].
      unfold token_at, first. cbn. runs1 (char_at_run (S q) _ x Hlt E'). done.
    + exists (S q). rewrite E'. split_and!; [|lia..|done|done].
      unfold token_at, first. cbn. runs1 (char_at_run (S q) _ x Hlt E'). unfold first. destruct s as [|c s]; cbn; [done|].
      cbn in Hn. rewrite (proj2 (Z.eqb_neq c 62)) by congruence. done.
  - destruct Hf as (s & Hs & E & Hw & Hf & He). destruct (skip_word_run (drop q line) q x Hq eq_refl) as (e & E1 & H1 & H2 & H3).
    rewrite <- (left_length q _ eq_refl) in E1. rewrite E, cut_word_app in H1, H3 by done. cbn [fst snd] in *.
    exists e. rewrite H3. split_and!; [|destruct w; [done|cbn in H1; lia]|done|done|].
    + unfold token_at. rewrite E. destruct w as [|c w]; [done|]. unfold first. cbn [app head default from_option].
      pose proof (Forall_inv Hf) as Hc. apply word_not_space in Hc as (_ & Hc & Hz). unfold id.
      rewrite (proj2 (Z.eqb_neq _ _) Hz). destruct (not_symbol _ Hc) as [-> ->]. by runs1 E1.
    + intros w' [= <-]. split_and!; [done..|]. by exists s.
Qed.

Lemma gettoken_run p ts :
  (p <= es)%nat -> lexed (drop p line) ts ->
  match ts with
  | [] => exists q, gettoken es (at_ p) = Ret (0, q, q) (at_ es)
  | t :: ts' => exists q e p', gettoken es (at_ p) = Ret (code t, q, e) (at_ p') /\ (p < p' <= es)%nat /\
      lexed (drop p' line) ts' /\ (forall w, t = TWord w -> is_word q e w)
  end.
Proof.
  intros Hp Hl. unfold gettoken. rewrite bind_gets. cbn [ps at_].
  destruct (skip_space_run (drop p line) p p Hp eq_refl) as (q & E1 & Hq & Hd). rewrite <- (left_length p _ eq_refl) in E1. runs1 E1.
  apply lexed_ltrim in Hl. rewrite <- Hd in Hl. runs1 (char_at_run q _ p (proj2 Hq) eq_refl).
  assert (Hh : forall c, head (drop q line) = Some c -> in_set whitespace c = false) by (rewrite Hd; apply ltrim_head).
  pose proof (token_at_run q ts p (proj2 Hq) Hl Hh) as Ht. destruct ts as [|t ts].
  - destruct Ht as [Ht ->]. runs1 Ht. rewrite Nat.sub_diag. cbn [skip_space]. rewrite bind_ret. by exists es.
  - destruct Ht as (e & E2 & He & Hl' & Hw). runs1 E2.
    destruct (skip_space_run (drop e line) e p (proj2 He) eq_refl) as (p' & E3 & Hp' & Hd'). rewrite <- (left_length e _ eq_refl) in E3.
    runs1 E3. exists q, e, p'. split_and!; [done|lia..| |done]. rewrite Hd'. by apply lexed_ltrim.
Qed.

(** The character that [peek] looks at. *)
Definition starts (toks : list Z) (ts : list token) : bool :=
  match ts with
  | TSym c :: _ => in_set toks (if c =? 43 then 62 else c)
  | _ => false
  end.

Lemma peek_run p ts toks :
  (p <= es)%nat -> lexed (drop p line) ts -> Forall (fun c => c = 0 \/ in_set symbols c = true) toks ->
  exists p', peek es toks (at_ p) = Ret (starts toks ts) (at_ p') /\ (p <= p' <= es)%nat /\ lexed (drop p' line) ts /\
    (p' = es <-> ts = []).
Proof.
  intros Hp Hl Ht. unfold peek. rewrite bind_gets. cbn [ps at_].
  destruct (skip_space_run (drop p line) p p Hp eq_refl) as (q & E1 & Hq & Hd). rewrite <- (left_length p _ eq_refl) in E1. runs1 E1.
  apply lexed_ltrim in Hl. rewrite <- Hd in Hl. rewrite bind_modify. cbn [text at_]. fold (at_ q).
  runs1 (char_at_run q _ q (proj2 Hq) eq_refl). 
  assert (Hh : forall c, head (drop q line) = Some c -> in_set whitespace c = false) by (rewrite Hd; apply ltrim_head).
  pose proof (lexed_first _ _ Hl Hh) as Hf. exists q. split_and!; [|lia..|done|].
  2: { split; intros H.
       - destruct ts as [|t ts]; [done|]. rewrite H, drop_ge in Hl by done. inversion Hl. destruct w; done.
       - subst ts. apply left_length in Hf. cbn in Hf. lia. }
  unfold ret. f_equal. destruct ts as [|[c|w] ts].
  - by rewrite Hf.
  - destruct Hf as (s & Hs & [[Hc E]|[[-> E]|(-> & E & Hn)]]); rewrite E; [|done..]. cbn [starts first head default from_option].
    unfold id. by repeat (apply elem_of_cons in Hc as [->|Hc]; [done|]); apply elem_of_nil in Hc.
  - destruct Hf as (s & Hs & E & Hw & Hf & He). rewrite E. destruct w as [|c w]; [done|].
    pose proof (Forall_inv Hf) as Hc. apply word_not_space in Hc as (_ & Hc & Hz). unfold first. cbn.
    destruct (in_set toks c) eqn:Ei; [|apply andb_false_r]. apply in_set_elem in Ei as [Ei _].
    rewrite Forall_forall in Ht. destruct (Ht _ Ei); congruence.
Qed.
(** ** The code runs as the parser on tokens *)

(** The command [c] points at the words of [t]. *)
Definition means : cmd -> tree -> Prop := shaped is_word.

Lemma means_arg c t q e w : means c t -> is_word q e w -> means (add_arg c q e) (argument t w).
Proof.
  unfold means. intros H Hw. induction H as [argv ws Hf| | | |]; cbn; [|by constructor..].
  constructor. apply Forall2_app; [done|]. constructor; [done|constructor].
Qed.

Lemma means_redirect c t op q e w :
  means c t -> is_word q e w -> redir_op op = true ->
  means (if op =? 60 then REDIR c q e O_RDONLY 0 else if op =? 62 then REDIR c q e (Z.lor O_WRONLY O_CREATE) 1
         else if op =? 43 then REDIR c q e (Z.lor O_WRONLY O_CREATE) 1 else c) (redirect t op w).
Proof.
  intros Hc Hw. unfold redir_op, redirect. destruct (op =? 60); [by constructor|]. destruct (op =? 62); [by constructor|].
  destruct (op =? 43); [by constructor|done].
Qed.

(** A run of the parser from [p] ends as [r] says. *)
Definition runs_as (m : P cmd) (p : nat) (r : tres) : Prop :=
  match r with
  | Got t ts => exists c p', m (at_ p) = Ret c (at_ p') /\ (p <= p' <= es)%nat /\ lexed (drop p' line) ts /\ means c t
  | Bad => exists msg s, m (at_ p) = Panic msg s
  | Short => exists msg s, m (at_ p) = Undef msg s
  end.

(** The run goes on from a later position. *)
Lemma runs_as_later m m' p p' r : m (at_ p) = m' (at_ p') -> (p <= p')%nat -> runs_as m' p' r -> runs_as m p r.
Proof.
  intros E Hp. unfold runs_as. rewrite E. destruct r; [|done..]. intros (c & p2 & H1 & H2 & H3). exists c, p2. split_and!; [done|lia..|apply H3|apply H3].
Qed.

Lemma runs_as_ret c t ts p : (p <= es)%nat -> lexed (drop p line) ts -> means c t -> runs_as (ret c) p (Got t ts).
Proof. intros. exists c, p. by split_and!. Qed.

Lemma runs_as_bind m k p r kr :
  runs_as m p r ->
  (forall c p' t ts, r = Got t ts -> (p <= p' <= es)%nat -> lexed (drop p' line) ts -> means c t -> runs_as (k c) p' (kr t ts)) ->
  runs_as (bind m k) p (tbind r kr).
Proof.
  intros H Hk. destruct r as [t ts| |]; cbn [tbind].
  - destruct H as (c & p' & E & Hp & Hl & Hm). 
    eapply runs_as_later; [by apply (bind_ret_eq _ _ _ _ _ E)|lia|by apply Hk].
  - destruct H as (msg & s & E). exists msg, s. unfold bind. by rewrite E.
  - destruct H as (msg & s & E). exists msg, s. unfold bind. by rewrite E.
Qed.

Lemma runs_as_peek toks k p ts r :
  (p <= es)%nat -> lexed (drop p line) ts -> Forall (fun c => c = 0 \/ in_set symbols c = true) toks ->
  (forall p', (p <= p' <= es)%nat -> lexed (drop p' line) ts -> runs_as (k (starts toks ts)) p' r) ->
  runs_as (bind (peek es toks) k) p r.
Proof.
  intros Hp Hl Ht Hk. destruct (peek_run p ts toks Hp Hl Ht) as (p' & E & Hp' & Hl' & _). 
  eapply runs_as_later; [by apply (bind_ret_eq _ _ _ _ _ E)|lia|by apply Hk].
Qed.

Lemma runs_as_token k p t ts r :
  (p <= es)%nat -> lexed (drop p line) (t :: ts) ->
  (forall q e p', (p < p' <= es)%nat -> lexed (drop p' line) ts -> (forall w, t = TWord w -> is_word q e w) -> runs_as (k (code t, q, e)) p' r) ->
  runs_as (bind (gettoken es) k) p r.
Proof.
  intros Hp Hl Hk. destruct (gettoken_run p _ Hp Hl) as (q & e & p' & E & Hp' & Hl' & Hw). 
  eapply runs_as_later; [by apply (bind_ret_eq _ _ _ _ _ E)|lia|by apply Hk].
Qed.

(** *** The loops *)

(** The symbols of tokens. *)
Definition tok_ok (t : token) : Prop := match t with TSym c => c ∈ [124; 40; 41; 59; 38; 60; 43; 62] | TWord _ => True end.
Lemma lexed_ok s ts : lexed s ts -> Forall tok_ok ts.
Proof. induction 1; try done; constructor; try done; cbn in *; set_solver. Qed.

Lemma starts_redir c ts : tok_ok (TSym c) -> starts [60; 62; 0] (TSym c :: ts) = redir_op c.
Proof. cbn. intros Hc. by repeat (apply elem_of_cons in Hc as [->|Hc]; [done|]); apply elem_of_nil in Hc. Qed.

Local Ltac at_end := cbn [negb starts]; apply runs_as_ret; [lia|done|done].

Lemma redirs_run k p ts c t :
  (p <= es)%nat -> lexed (drop p line) ts -> (length ts < k)%nat -> means c t ->
  runs_as (redirs_loop k es c) p (tredirs ts t).
Proof.
  revert p ts c t. induction k as [|k IH]; intros p ts c t Hp Hl Hk Hm; [lia|]. cbn [redirs_loop].
  apply (runs_as_peek _ _ _ ts); [done..|by apply (bool_decide_unpack _)|]. intros p1 Hp1 Hl1.
  destruct ts as [|[op|w] ts]; [at_end| |at_end].
  pose proof (lexed_ok _ _ Hl) as Hok. apply Forall_cons in Hok as [Hop Hok].
  cbn [tredirs]. rewrite starts_redir by done. destruct (redir_op op) eqn:Eop; [|at_end].
  apply (runs_as_token _ _ (TSym op) ts); [lia|done|]. intros q e p2 Hp2 Hl2 _. cbn [code]. destruct ts as [|t2 ts].
  - destruct (gettoken_run p2 [] ltac:(lia) Hl2) as (q2 & E). eapply runs_as_later; [by apply (bind_ret_eq _ _ _ _ _ E)|lia|].
    by eexists _, _.
  - apply (runs_as_token _ _ t2 ts); [lia|done|]. intros q3 e3 p3 Hp3 Hl3 Hw. destruct t2 as [c2|w]; cbn [code].
    + apply Forall_cons in Hok as [Hc2 _]. assert (c2 <> 97) by (cbn in Hc2; set_solver). rewrite (proj2 (Z.eqb_neq c2 97)) by done.
      by eexists _, _.
    + apply (IH _ ts); [lia|done|cbn in Hk; lia|]. apply means_redirect; auto.
Qed.

(** [titems] takes the redirections first, as the code does. *)
Lemma titems_redirs ts n t : titems ts n t = tbind (tredirs ts t) (fun t ts => titems ts n t).
Proof.
  revert t. induction ts as [ts IH] using (well_founded_ind (well_founded_ltof _ (@length token))). intros t.
  destruct ts as [|[c|w] ts]; [done| |done]. cbn [titems tredirs]. destruct (redir_op c) eqn:E; [|cbn; by rewrite E].
  destruct ts as [|[c2|w] ts]; [done..|]. apply IH. unfold ltof. cbn. lia.
Qed.

(** What [tredirs] leaves is shorter and begins with no redirection. *)
Lemma tredirs_stops ts t t' ts' :
  tredirs ts t = Got t' ts' ->
  (length ts' <= length ts)%nat /\ (forall op ts2, ts' = TSym op :: ts2 -> redir_op op = false).
Proof.
  revert t. induction ts as [ts IH] using (well_founded_ind (well_founded_ltof _ (@length token))). intros t.
  destruct ts as [|[c|w] ts]; cbn [tredirs]; [by intros [= <- <-]| |by intros [= <- <-]].
  destruct (redir_op c) eqn:E; [|by intros [= <- <-]; split; [|intros op ts2 [= <- _]]]. destruct ts as [|[c2|w] ts]; [done..|].
  intros H. apply IH in H as [H1 H2]; [split; [cbn; lia|done]|]. unfold ltof. cbn. lia.
Qed.

Lemma lexed_length s ts : lexed s ts -> (length ts <= length s)%nat.
Proof. induction 1 as [| | | | |w s ts Hw]; cbn; try lia. rewrite length_app. destruct w; [done|]. cbn. lia. Qed.

Lemma left_tokens p ts : lexed (drop p line) ts -> (length ts < S es)%nat.
Proof. intros H%lexed_length. rewrite length_drop in H. unfold es. lia. Qed.

Lemma args_run k p ts n c t :
  (p <= es)%nat -> lexed (drop p line) ts -> (length ts < k)%nat -> means c t ->
  (forall op ts', ts = TSym op :: ts' -> redir_op op = false) ->
  runs_as (args_loop k es n c) p (titems ts n t).
Proof.
  revert p ts n c t. induction k as [|k IH]; intros p ts n c t Hp Hl Hk Hm Hnr; [lia|]. cbn [args_loop].
  apply (runs_as_peek _ _ _ ts); [done..|by apply (bool_decide_unpack _)|]. intros p1 Hp1 Hl1.
  pose proof (lexed_ok _ _ Hl) as Hok. destruct ts as [|t1 ts].
  { destruct (gettoken_run p1 [] ltac:(lia) Hl1) as (q2 & E). cbn [starts]. eapply runs_as_later; [by apply (bind_ret_eq _ _ _ _ _ E)|lia|].
    cbn. apply runs_as_ret; [lia|by rewrite drop_ge; [constructor|]|done]. }
  apply Forall_cons in Hok as [Hok _]. destruct t1 as [op|w].
  - specialize (Hnr op ts eq_refl). cbn [titems]. rewrite Hnr.
    assert (Hop : op = 40 /\ starts [124; 41; 38; 59; 0] (TSym op :: ts) = false \/
                  (op =? 40) = false /\ starts [124; 41; 38; 59; 0] (TSym op :: ts) = true).
    { cbn in Hok. repeat (apply elem_of_cons in Hok as [->|Hok]; [auto; by cbn in Hnr|]). by apply elem_of_nil in Hok. }
    destruct Hop as [[-> ->]|[-> ->]]; [|at_end].
    apply (runs_as_token _ _ (TSym 40) ts); [lia|done|]. intros q e p2 Hp2 Hl2 _. by eexists _, _.
  - cbn [starts titems]. apply (runs_as_token _ _ (TWord w) ts); [lia|done|]. intros q e p2 Hp2 Hl2 Hw. cbn [code]. cbn [Z.eqb negb].
    destruct (decide _); [by eexists _, _|]. rewrite titems_redirs. unfold parseredirs. eapply runs_as_bind.
    + apply redirs_run; [lia|done|by eapply left_tokens|by apply means_arg; auto].
    + intros c' p' t' ts' Hr Hp' Hl' Hm'. apply tredirs_stops in Hr as [Hr1 Hr2]. apply IH; [lia|done|cbn in Hk; lia|done|done].
Qed.

Lemma backs_run k p ts c t :
  (p <= es)%nat -> lexed (drop p line) ts -> (length ts < k)%nat -> means c t ->
  runs_as (back_loop k es c) p (tbacks ts t).
Proof.
  revert p ts c t. induction k as [|k IH]; intros p ts c t Hp Hl Hk Hm; [lia|]. cbn [back_loop].
  apply (runs_as_peek _ _ _ ts); [done..|by apply (bool_decide_unpack _)|]. intros p1 Hp1 Hl1.
  destruct ts as [|[op|w] ts]; [at_end| |at_end].
  pose proof (lexed_ok _ _ Hl) as Hok. apply Forall_cons in Hok as [Hop _]. cbn [tbacks].
  replace (starts _ _) with (op =? 38)
    by (cbn in Hop; repeat (apply elem_of_cons in Hop as [->|Hop]; [done|]); by apply elem_of_nil in Hop).
  destruct (op =? 38) eqn:E; [|at_end]. apply (runs_as_token _ _ (TSym op) ts); [lia|done|]. intros q e p2 Hp2 Hl2 _.
  apply IH; [lia|done|cbn in Hk; lia|by constructor].
Qed.

(** *** The recursive descent *)

Lemma starts_next c ts :
  c ∈ [59; 124; 40; 41] -> Forall tok_ok ts -> starts [c; 0] ts = match next_is c ts with Some _ => true | None => false end.
Proof.
  intros Hc Hts. destruct ts as [|[d|w] ts]; [done| |done]. apply Forall_inv in Hts. cbn [starts next_is tok_ok] in *.
  repeat (apply elem_of_cons in Hc as [->|Hc]); [..|by apply elem_of_nil in Hc];
    by repeat (apply elem_of_cons in Hts as [->|Hts]; [done|]); apply elem_of_nil in Hts.
Qed.

(** if(peek(ps, es, "c")){ gettoken(ps, es, 0, 0); ... } *)
Lemma runs_as_next c p ts (yes no : P cmd) r :
  (p <= es)%nat -> lexed (drop p line) ts -> c ∈ [59; 124; 40; 41] ->
  (forall p' ts', next_is c ts = Some ts' -> (p < p' <= es)%nat -> lexed (drop p' line) ts' -> runs_as yes p' r) ->
  (forall p', next_is c ts = None -> (p <= p' <= es)%nat -> lexed (drop p' line) ts -> runs_as no p' r) ->
  runs_as (do b <- peek es [c; 0]; if negb b then no else gettoken es;; yes) p r.
Proof.
  intros Hp Hl Hc Hy Hn. assert (Hsy : Forall (fun c => c = 0 \/ in_set symbols c = true) [c; 0]).
  { repeat (apply elem_of_cons in Hc as [->|Hc]); [by apply (bool_decide_unpack _)..|by apply elem_of_nil in Hc]. }
  apply (runs_as_peek _ _ _ ts); [done..|]. intros p1 Hp1 Hl1. rewrite starts_next by (done || by eapply lexed_ok).
  destruct (next_is c ts) as [ts'|] eqn:E; [|by apply Hn]. destruct ts as [|[d|w] ts]; [done| |done].
  cbn in E. destruct (d =? c); [|done]. simplify_eq. apply (runs_as_token _ _ (TSym d) ts'); [lia|done|]. intros q e p2 Hp2 Hl2 _.
  apply (Hy p2 ts'); [done|lia|done].
Qed.

Lemma parse_run f :
  (forall p ts, (p <= es)%nat -> lexed (drop p line) ts -> runs_as (parseline f es) p (tline f ts)) /\
  (forall p ts, (p <= es)%nat -> lexed (drop p line) ts -> runs_as (parsepipe f es) p (tpipe f ts)) /\
  (forall p ts, (p <= es)%nat -> lexed (drop p line) ts -> runs_as (parseexec f es) p (texec f ts)) /\
  (forall p ts, (p <= es)%nat -> lexed (drop p line) ts -> runs_as (parseblock f es) p (tblock f ts)).
Proof.
  induction f as [|f (IHl & IHp & IHe & IHb)]; split_and!; intros p ts Hp Hl; [by eexists _, _..| | | |].
  - cbn [parseline tline]. eapply runs_as_bind; [by apply IHp|]. intros c p1 t ts1 _ Hp1 Hl1 Hm.
    eapply runs_as_bind; [apply backs_run; [lia|done|by eapply left_tokens|done]|]. intros c2 p2 t2 ts2 _ Hp2 Hl2 Hm2.
    apply (runs_as_next _ _ ts2); [lia|done|set_solver| |].
    + intros p3 ts3 -> Hp3 Hl3. eapply runs_as_bind; [apply IHl; [lia|done]|]. intros. apply runs_as_ret; [lia|done|by constructor].
    + intros p3 -> Hp3 Hl3. apply runs_as_ret; [lia|done|done].
  - cbn [parsepipe tpipe]. eapply runs_as_bind; [by apply IHe|]. intros c p1 t ts1 _ Hp1 Hl1 Hm.
    apply (runs_as_next _ _ ts1); [lia|done|set_solver| |].
    + intros p3 ts3 -> Hp3 Hl3. eapply runs_as_bind; [apply IHp; [lia|done]|]. intros. apply runs_as_ret; [lia|done|by constructor].
    + intros p3 -> Hp3 Hl3. apply runs_as_ret; [lia|done|done].
  - cbn [parseexec texec]. apply (runs_as_peek _ _ _ ts); [done..|by apply (bool_decide_unpack _)|]. intros p1 Hp1 Hl1.
    rewrite starts_next by (set_solver || by eapply lexed_ok). destruct (next_is 40 ts); [apply IHb; [lia|done]|].
    rewrite titems_redirs. eapply runs_as_bind.
    + apply redirs_run; [lia|done|by eapply left_tokens|]. constructor. constructor.
    + intros c p2 t ts2 Hr Hp2 Hl2 Hm. apply args_run; [lia|done|by eapply left_tokens|done|]. by apply tredirs_stops in Hr as [_ ?].
  - cbn [parseblock tblock]. apply (runs_as_next _ _ ts); [lia|done|set_solver| |].
    + intros p1 ts1 -> Hp1 Hl1. eapply runs_as_bind; [apply IHl; [lia|done]|]. intros c p2 t ts2 _ Hp2 Hl2 Hm.
      apply (runs_as_next _ _ ts2); [lia|done|set_solver| |].
      * intros p3 ts3 -> Hp3 Hl3. apply redirs_run; [lia|done|by eapply left_tokens|done].
      * intros p3 -> Hp3 Hl3. by eexists _, _.
    + intros p1 -> Hp1 Hl1. by eexists _, _.
Qed.
End Line.
