(* ===== verification/ShTheorems.v ===== *)
(** * The shell parses its grammar

    [gline] derives trees from tokens.  The parser on tokens of ShSpec.v accepts
    exactly what the grammar derives and never runs out of fuel.  [nulterminate] turns
    the words of a parsed command into C strings, and [parsecmd] accepts exactly the
    lines that the grammar derives. *)
From S2P Require Import Prelude Cstring FsDefs Sh ShSpec.
Local Open Scope Z_scope.
Local Open Scope kernel_scope.

Abbreviation word := (list Z) (only parsing).

(** An argument, or a redirection operator and its file. *)
Definition item : Type := word + Z * word.
Definition item_toks (i : item) : list token :=
  match i with inl w => [TWord w] | inr (op, w) => [TSym op; TWord w] end.
Definition toks (its : list item) : list token := concat (item_toks <$> its).
Definition redirs_of (rs : list (Z * word)) : list item := inr <$> rs.

Definition args (its : list item) : list word := omap (fun i : item => match i with inl w => Some w | inr _ => None end) its.
Definition redirs (its : list item) : list (Z * word) := omap (fun i : item => match i with inl _ => None | inr r => Some r end) its.
Definition ops_ok (rs : list (Z * word)) : Prop := Forall (fun r => redir_op r.1 = true) rs.

(** The first redirection is the innermost. *)
Definition wrap (t : tree) (rs : list (Z * word)) : tree := foldl (fun t r => redirect t r.1 r.2) t rs.

(** line ::= pipe {&} [; line]    pipe ::= exec [| pipe]
    exec ::= {redir} {arg {redir}}  |  ( line ) {redir} *)
Inductive gline : list token -> tree -> Prop :=
| gl_one ts n t : gpipe ts t -> gline (ts ++ replicate n (TSym 38)) (Nat.iter n TBack t)
| gl_list ts n t ts' t' :
    gpipe ts t -> gline ts' t' ->
    gline (ts ++ replicate n (TSym 38) ++ TSym 59 :: ts') (TList (Nat.iter n TBack t) t')
with gpipe : list token -> tree -> Prop :=
| gp_one ts t : gexec ts t -> gpipe ts t
| gp_pipe ts t ts' t' : gexec ts t -> gpipe ts' t' -> gpipe (ts ++ TSym 124 :: ts') (TPipe t t')
with gexec : list token -> tree -> Prop :=
| ge_simple its : (length (args its) < MAXARGS)%nat -> ops_ok (redirs its) -> gexec (toks its) (wrap (TExec (args its)) (redirs its))
| ge_block ts t rs : gline ts t -> ops_ok rs -> gexec (TSym 40 :: ts ++ TSym 41 :: toks (redirs_of rs)) (wrap t rs).

Scheme gline_mind := Minimality for gline Sort Prop
  with gpipe_mind := Minimality for gpipe Sort Prop
  with gexec_mind := Minimality for gexec Sort Prop.
Combined Scheme grammar_ind from gline_mind, gpipe_mind, gexec_mind.

(** ** Simple commands *)

Definition put_item (t : tree) (i : item) : tree :=
  match i with inl w => argument t w | inr (op, w) => redirect t op w end.

Lemma argument_wrap t rs w : argument (wrap t rs) w = wrap (argument t w) rs.
Proof.
  revert t. induction rs as [|[op v] rs IH]; intros t; cbn; [done|]. unfold wrap in IH. rewrite IH. f_equal.
  unfold redirect. cbn. by destruct (op =? 60).
Qed.

(** Putting the items one by one gives all arguments under all redirections. *)
Lemma put_items its ws rs :
  foldl put_item (wrap (TExec ws) rs) its = wrap (TExec (ws ++ args its)) (rs ++ redirs its).
Proof.
  revert ws rs. induction its as [|[w|[op w]] its IH]; intros ws rs; cbn.
  - by rewrite !app_nil_r.
  - rewrite argument_wrap. cbn. rewrite IH. by rewrite <- app_assoc.
  - change (redirect (wrap (TExec ws) rs) op w) with (foldl (fun t r => redirect t r.1 r.2) (wrap (TExec ws) rs) [(op, w)]).
    unfold wrap at 1. rewrite <- foldl_app. fold (wrap (TExec ws) (rs ++ [(op, w)])). rewrite IH. by rewrite <- app_assoc.
Qed.

(** ** Soundness *)

Lemma tredirs_sound ts t t' rest :
  tredirs ts t = Got t' rest -> exists rs, ts = toks (redirs_of rs) ++ rest /\ ops_ok rs /\ t' = wrap t rs.
Proof.
  revert t. induction ts as [ts IH] using (well_founded_ind (well_founded_ltof _ (@length token))). intros t H.
  assert (Hnil : Got t ts = Got t' rest -> exists rs, ts = toks (redirs_of rs) ++ rest /\ ops_ok rs /\ t' = wrap t rs).
  { intros [= <- <-]. exists []. split_and!; [done|constructor|done]. }
  destruct ts as [|[c|w] ts]; cbn in H; [by apply Hnil| |by apply Hnil].
  destruct (redir_op c) eqn:E; [|by apply Hnil]. destruct ts as [|[c2|w] ts]; [done..|].
  apply IH in H as (rs & -> & Ho & ->); [|unfold ltof; cbn; lia]. exists ((c, w) :: rs). split_and!; [done|by constructor|done].
Qed.

Lemma titems_sound ts n t t' rest :
  titems ts n t = Got t' rest -> (n < MAXARGS)%nat ->
  exists its, ts = toks its ++ rest /\ (n + length (args its) < MAXARGS)%nat /\ ops_ok (redirs its) /\ t' = foldl put_item t its.
Proof.
  revert n t. induction ts as [ts IH] using (well_founded_ind (well_founded_ltof _ (@length token))). intros n t H Hn.
  assert (Hnil : Got t ts = Got t' rest ->
    exists its, ts = toks its ++ rest /\ (n + length (args its) < MAXARGS)%nat /\ ops_ok (redirs its) /\ t' = foldl put_item t its).
  { intros [= <- <-]. exists []. split_and!; [done|change (n + 0 < MAXARGS)%nat; lia|constructor|done]. }
  destruct ts as [|[c|w] ts]; cbn in H; [by apply Hnil| |].
  - destruct (redir_op c) eqn:E; [|destruct (c =? 40); [done|by apply Hnil]]. destruct ts as [|[c2|w] ts]; [done..|].
    apply IH in H as (its & -> & Ha & Ho & ->); [|unfold ltof; cbn; lia|done]. exists (inr (c, w) :: its).
    split_and!; [done|done|by constructor|done].
  - destruct (decide _) as [Hd|Hd]; [done|]. apply IH in H as (its & -> & Ha & Ho & ->); [|unfold ltof; cbn; lia|lia].
    exists (inl w :: its). split_and!; [done|change (n + S (length (args its)) < MAXARGS)%nat; lia|done|done].
Qed.

Lemma tbacks_sound ts t t' rest :
  tbacks ts t = Got t' rest -> exists n, ts = replicate n (TSym 38) ++ rest /\ t' = Nat.iter n TBack t.
Proof.
  revert t. induction ts as [|[c|w] ts IH]; cbn; intros t H; [by simplify_eq; exists O| |by simplify_eq; exists O].
  destruct (Z.eqb_spec c 38) as [->|]; [|by simplify_eq; exists O]. apply IH in H as (n & -> & ->). exists (S n).
  split; [done|]. cbn. by rewrite Nat.iter_swap.
Qed.

Lemma next_is_sound c ts ts' : next_is c ts = Some ts' -> ts = TSym c :: ts'.
Proof. destruct ts as [|[d|w] ts]; cbn; try done. destruct (Z.eqb_spec d c); naive_solver. Qed.

Lemma tbind_got r k t ts : tbind r k = Got t ts -> exists t1 ts1, r = Got t1 ts1 /\ k t1 ts1 = Got t ts.
Proof. destruct r; cbn; naive_solver. Qed.

(** What the parser on tokens gives is derived by the grammar. *)
Lemma parse_sound f :
  (forall ts t rest, tline f ts = Got t rest -> exists ts1, ts = ts1 ++ rest /\ gline ts1 t) /\
  (forall ts t rest, tpipe f ts = Got t rest -> exists ts1, ts = ts1 ++ rest /\ gpipe ts1 t) /\
  (forall ts t rest, texec f ts = Got t rest -> exists ts1, ts = ts1 ++ rest /\ gexec ts1 t) /\
  (forall ts t rest, tblock f ts = Got t rest -> exists ts1, ts = ts1 ++ rest /\ gexec ts1 t).
Proof.
  induction f as [|f (IHl & IHp & IHe & IHb)]; split_and!; intros ts t rest H; [done..| | | |].
  - cbn [tline] in H. apply tbind_got in H as (t1 & r1 & H1 & H). apply tbind_got in H as (t2 & r2 & H2 & H).
    apply IHp in H1 as (a & -> & Ha). apply tbacks_sound in H2 as (n & -> & ->).
    destruct (next_is 59 r2) as [r3|] eqn:E.
    + apply next_is_sound in E as ->. apply tbind_got in H as (t3 & r4 & H3 & H). simplify_eq. apply IHl in H3 as (b & -> & Hb).
      eexists. split; [|by apply gl_list]. by rewrite <- !app_assoc.
    + simplify_eq. eexists. split; [|by apply gl_one]. by rewrite <- app_assoc.
  - cbn [tpipe] in H. apply tbind_got in H as (t1 & r1 & H1 & H). apply IHe in H1 as (a & -> & Ha).
    destruct (next_is 124 r1) as [r2|] eqn:E.
    + apply next_is_sound in E as ->. apply tbind_got in H as (t3 & r4 & H3 & H). simplify_eq. apply IHp in H3 as (b & -> & Hb).
      eexists. split; [|by apply gp_pipe]. by rewrite <- app_assoc.
    + simplify_eq. exists a. split; [done|by constructor].
  - cbn [texec] in H. destruct (next_is 40 ts); [by apply IHb|].
    apply titems_sound in H as (its & -> & Ha & Ho & ->); [|unfold MAXARGS; lia]. exists (toks its). split; [done|].
    change (TExec []) with (wrap (TExec []) []). rewrite put_items. by constructor.
  - cbn [tblock] in H. destruct (next_is 40 ts) as [r1|] eqn:E; [|done]. apply next_is_sound in E as ->.
    apply tbind_got in H as (t1 & r2 & H1 & H). apply IHl in H1 as (a & -> & Ha). destruct (next_is 41 r2) as [r3|] eqn:E; [|done].
    apply next_is_sound in E as ->. apply tredirs_sound in H as (rs & -> & Ho & ->). eexists. split; [|by apply ge_block].
    cbn. by rewrite <- app_assoc.
Qed.

(** ** Fuel *)

Lemma tbind_short r k : r <> Short -> (forall t ts, r = Got t ts -> k t ts <> Short) -> tbind r k <> Short.
Proof. destruct r; cbn; naive_solver. Qed.

Lemma titems_short ts n t : titems ts n t <> Short.
Proof.
  revert n t. induction ts as [ts IH] using (well_founded_ind (well_founded_ltof _ (@length token))). intros n t.
  destruct ts as [|[c|w] ts]; cbn; [done| |]; [destruct (redir_op c); [|by destruct (_ =? _)]; destruct ts as [|[c2|w] ts]; [done..|]|destruct (decide _); [done|]];
    apply IH; unfold ltof; cbn; lia.
Qed.
Lemma tredirs_short ts t : tredirs ts t <> Short.
Proof.
  revert t. induction ts as [ts IH] using (well_founded_ind (well_founded_ltof _ (@length token))). intros t.
  destruct ts as [|[c|w] ts]; cbn; [done| |done]. destruct (redir_op c); [|done]. destruct ts as [|[c2|w] ts]; [done..|].
  apply IH. unfold ltof. cbn. lia.
Qed.
Lemma tbacks_short ts t : tbacks ts t <> Short.
Proof. revert t. induction ts as [|[c|w] ts IH]; intros t; cbn; try done. by destruct (_ =? _). Qed.

(** Four calls for each token are enough. *)
Lemma parse_fuel f :
  (forall ts, (4 * length ts + 4 <= f)%nat -> tline f ts <> Short) /\
  (forall ts, (4 * length ts + 3 <= f)%nat -> tpipe f ts <> Short) /\
  (forall ts, (4 * length ts + 2 <= f)%nat -> texec f ts <> Short) /\
  (forall ts, (4 * length ts + 1 <= f)%nat -> tblock f ts <> Short).
Proof.
  induction f as [|f (IHl & IHp & IHe & IHb)]; split_and!; intros ts Hf; [lia..| | | |]; destruct (parse_sound f) as (Sl & Sp & Se & Sb).
  - cbn [tline]. apply tbind_short; [apply IHp; lia|]. intros t1 r1 (a & -> & _)%Sp. apply tbind_short; [apply tbacks_short|].
    intros t2 r2 (n & -> & _)%tbacks_sound. destruct (next_is 59 r2) as [r3|] eqn:E; [|done]. apply next_is_sound in E as ->.
    apply tbind_short; [|done]. apply IHl. rewrite !length_app in Hf. cbn in Hf. lia.
  - cbn [tpipe]. apply tbind_short; [apply IHe; lia|]. intros t1 r1 (a & -> & _)%Se.
    destruct (next_is 124 r1) as [r3|] eqn:E; [|done]. apply next_is_sound in E as ->.
    apply tbind_short; [|done]. apply IHp. rewrite !length_app in Hf. cbn in Hf. lia.
  - cbn [texec]. destruct (next_is 40 ts); [apply IHb; lia|apply titems_short].
  - cbn [tblock]. destruct (next_is 40 ts) as [r1|] eqn:E; [|done]. apply next_is_sound in E as ->.
    apply tbind_short; [apply IHl; cbn in Hf; lia|]. intros t1 r2 _. destruct (next_is 41 r2); [apply tredirs_short|done].
Qed.

(** ** Completeness *)

(** The tokens after a phrase begin with one of [cs]. *)
Definition follows (cs : list Z) (ts : list token) : Prop :=
  match ts with [] => True | TSym c :: _ => c ∈ cs | TWord _ :: _ => False end.

Lemma follows_mono cs cs' ts : follows cs ts -> cs ⊆ cs' -> follows cs' ts.
Proof. destruct ts as [|[c|w] ts]; cbn; set_solver. Qed.

(** No redirection operator, and what ends a simple command. *)
Lemma follows_exec cs ts : follows cs ts -> cs ⊆ [41; 38; 59; 124] -> (forall t, tredirs ts t = Got t ts) /\ (forall n t, titems ts n t = Got t ts).
Proof.
  intros H Hs. destruct ts as [|[c|w] ts]; [done| |done]. cbn in H. apply Hs in H.
  by repeat (apply elem_of_cons in H as [->|H]; [done|]); apply elem_of_nil in H.
Qed.

Lemma tredirs_complete rs rest t :
  ops_ok rs -> follows [41; 38; 59; 124] rest -> tredirs (toks (redirs_of rs) ++ rest) t = Got (wrap t rs) rest.
Proof.
  intros H Hr. revert t. induction H as [|[op w] rs Hop _ IH]; intros t; cbn; [by apply (follows_exec _ _ Hr)|].
  cbn in Hop. rewrite Hop. apply IH.
Qed.

Lemma titems_complete its rest n t :
  ops_ok (redirs its) -> (n + length (args its) < MAXARGS)%nat -> follows [41; 38; 59; 124] rest ->
  titems (toks its ++ rest) n t = Got (foldl put_item t its) rest.
Proof.
  intros Ho Hn Hr. revert n t Ho Hn. induction its as [|[w|[op w]] its IH]; intros n t Ho Hn; cbn.
  - by apply (follows_exec _ _ Hr).
  - change (n + S (length (args its)) < MAXARGS)%nat in Hn. rewrite decide_False by lia. apply IH; [done|lia].
  - apply Forall_cons in Ho as [Hop Ho]. cbn in Hop. rewrite Hop. by apply IH.
Qed.

Lemma tbacks_complete n rest t :
  follows [41; 59] rest -> tbacks (replicate n (TSym 38) ++ rest) t = Got (Nat.iter n TBack t) rest.
Proof.
  intros Hr. revert t. induction n as [|n IH]; intros t; cbn.
  - destruct rest as [|[c|w] rest]; [done| |done]. cbn in Hr.
    by repeat (apply elem_of_cons in Hr as [->|Hr]; [done|]); apply elem_of_nil in Hr.
  - rewrite IH. cbn. by rewrite Nat.iter_swap.
Qed.

Lemma next_is_follows c cs ts : follows cs ts -> c ∉ cs -> next_is c ts = None.
Proof. destruct ts as [|[d|w] ts]; cbn; try done. intros H Hc. destruct (Z.eqb_spec d c); [congruence|done]. Qed.

(** Whatever follows the backs. *)
Lemma follows_backs n cs ts : follows cs ts -> cs ⊆ [41; 38; 59] -> follows [41; 38; 59] (replicate n (TSym 38) ++ ts).
Proof. intros H Hs. destruct n; cbn; [by eapply follows_mono|set_solver]. Qed.

(** What begins a simple command is no parenthesis. *)
Lemma simple_first its rest : ops_ok (redirs its) -> follows [41; 38; 59; 124] rest -> next_is 40 (toks its ++ rest) = None.
Proof.
  intros Ho Hr. destruct its as [|[w|[op w]] its]; cbn; [by eapply next_is_follows; [exact Hr|set_solver]|done|].
  apply Forall_inv in Ho. cbn in Ho. destruct (Z.eqb_spec op 40) as [->|]; done.
Qed.

Local Ltac len := cbn [length app] in *; rewrite ?length_app in *; cbn [length app] in *; rewrite ?length_app in *; cbn [length] in *; lia.

Lemma parse_complete :
  (forall ts t, gline ts t -> forall f rest, follows [41] rest -> (4 * length (ts ++ rest) + 4 <= f)%nat -> tline f (ts ++ rest) = Got t rest) /\
  (forall ts t, gpipe ts t -> forall f rest, follows [41; 38; 59] rest -> (4 * length (ts ++ rest) + 3 <= f)%nat -> tpipe f (ts ++ rest) = Got t rest) /\
  (forall ts t, gexec ts t -> forall f rest, follows [41; 38; 59; 124] rest -> (4 * length (ts ++ rest) + 2 <= f)%nat -> texec f (ts ++ rest) = Got t rest).
Proof.
  apply grammar_ind.
  - intros ts n t _ IH [|f] rest Hr Hf; [lia|]. cbn [tline]. rewrite <- app_assoc in *.
    rewrite IH; [|by eapply follows_backs; [done|set_solver]|lia]. cbn [tbind].
    rewrite tbacks_complete by (eapply follows_mono; [done|set_solver]). cbn [tbind]. by rewrite (next_is_follows 59 [41]) by (done || set_solver).
  - intros ts n t ts' t' _ IH _ IH' [|f] rest Hr Hf; [lia|]. cbn [tline]. rewrite <- !app_assoc in *. cbn [app] in *.
    rewrite IH; [|by apply (follows_backs _ [59]); [cbn; set_solver|set_solver]|lia]. cbn [tbind].
    rewrite tbacks_complete by (cbn; set_solver). cbn [tbind next_is]. rewrite Z.eqb_refl.
    rewrite IH'; [done|done|]. len.
  - intros ts t _ IH [|f] rest Hr Hf; [lia|]. cbn [tpipe]. rewrite IH; [|eapply follows_mono; [done|set_solver]|lia]. cbn [tbind].
    by rewrite (next_is_follows 124 [41; 38; 59]) by (done || set_solver).
  - intros ts t ts' t' _ IH _ IH' [|f] rest Hr Hf; [lia|]. cbn [tpipe]. rewrite <- app_assoc in *. cbn [app] in *.
    rewrite IH; [|cbn; set_solver|lia]. cbn [tbind next_is]. rewrite Z.eqb_refl.
    rewrite IH'; [done|done|]. len.
  - intros its Hn Ho [|f] rest Hr Hf; [lia|]. cbn [texec]. rewrite simple_first by done.
    rewrite titems_complete by done. change (TExec []) with (wrap (TExec []) []). by rewrite put_items.
  - intros ts t rs _ IH Ho [|[|f]] rest Hr Hf; [lia|lia|]. cbn [texec next_is app]. cbn. rewrite <- app_assoc. cbn.
    rewrite IH; [|cbn; set_solver|]. 2: len.
    cbn. by rewrite tredirs_complete.
Qed.

(** ** Words in the buffer *)

(** The string [w] at [q]. *)
Definition cstring (b : list Z) (q : nat) (w : list Z) : Prop :=
  Forall (fun c => c <> 0) w /\ exists r, drop q b = w ++ 0 :: r.

Section Nul.
Context (line rest : list Z) (Hline : Forall (fun c => c <> 0) line).
Abbreviation buf := (ShSpec.line_buf line rest).
Abbreviation es := (ShSpec.es line).

(** Zeros were written, none of them into a word. *)
Record zeroed (b : list Z) : Prop := {
  zd_length : length b = length buf;
  zd_chars i c : line !! i = Some c -> word_char c = true -> b !! i = Some c
}.

Lemma zeroed_buf : zeroed buf.
Proof. split; [done|]. intros i c Hi _. by apply lookup_app_l_Some. Qed.

Lemma word_end q e w : is_word line q e w -> (e <= es)%nat /\ ends (drop e line) /\ (e < length buf)%nat.
Proof.
  intros (Hw & Hf & s & Hd & He & ->). assert (Hlen : (q + length w + length s)%nat = es).
  { apply (f_equal length) in Hd. rewrite length_drop, length_app in Hd. unfold ShSpec.es. destruct w; [done|]. cbn in *. lia. }
  split_and!; [lia| |unfold ShSpec.line_buf; rewrite length_app; cbn; unfold ShSpec.es in *; lia].
  rewrite <- drop_drop, Hd, drop_app_length. done.
Qed.

Lemma put_nul_run b p q e w :
  zeroed b -> is_word line q e w -> put_nul e (Sh p b) = Ret tt (Sh p (<[e := 0]> b)) /\ zeroed (<[e := 0]> b).
Proof.
  intros [Hb Hc] Hw. destruct (word_end _ _ _ Hw) as (He & Hends & Hlt). split.
  - unfold put_nul. rewrite bind_gets. cbn [text]. rewrite decide_False by lia. done.
  - split; [by rewrite length_insert|]. intros i c Hi Hwc. destruct (decide (i = e)) as [->|].
    + rewrite (drop_S _ _ _ Hi) in Hends. cbn in Hends. congruence.
    + rewrite list_lookup_insert_ne by done. by apply Hc.
Qed.

(** Zeros stay. *)
Definition zeros_on (b b' : list Z) : Prop := forall i, b !! i = Some 0 -> b' !! i = Some 0.
Lemma zeros_on_insert b e : zeros_on b (<[e := 0]> b).
Proof.
  intros i Hi. destruct (decide (i = e)) as [->|]; [apply list_lookup_insert_eq; by eapply lookup_lt_Some|by rewrite list_lookup_insert_ne].
Qed.
#[local] Instance zeros_on_preorder : PreOrder zeros_on.
Proof. split; [by intros b i|intros b1 b2 b3 H1 H2 i Hi; auto]. Qed.

Definition nul_word (b : list Z) (q e : nat) (w : list Z) : Prop := is_word line q e w /\ b !! e = Some 0.
Lemma nul_word_mono b b' c t : zeros_on b b' -> shaped (nul_word b) c t -> shaped (nul_word b') c t.
Proof. intros Hz. apply shaped_mono. intros q e w [H1 H2]. split; [done|by apply Hz]. Qed.

Lemma nul_args argv ws b p :
  Forall2 (fun a w => is_word line a.1 a.2 w) argv ws -> zeroed b ->
  exists b', forM argv (fun a => put_nul a.2) (Sh p b) = Ret tt (Sh p b') /\ zeroed b' /\ zeros_on b b' /\
    Forall2 (fun a w => nul_word b' a.1 a.2 w) argv ws.
Proof.
  intros H. revert b. induction H as [|[q e] w argv ws Hw _ IH]; intros b Hb; cbn [forM]; [by exists b|]. cbn [fst snd] in *.
  destruct (put_nul_run b p q e w Hb Hw) as [E1 Hb1]. runs1 E1. destruct (IH _ Hb1) as (b2 & E2 & Hb2 & Hz & Hf). exists b2.
  split_and!; [done|done|by etrans; [apply zeros_on_insert|]|]. constructor; [|done]. split; [done|]. apply Hz.
  apply list_lookup_insert_eq. rewrite (zd_length _ Hb). by apply word_end in Hw as (_ & _ & ?).
Qed.

Lemma nulterminate_run c t b p :
  means line c t -> zeroed b ->
  exists b', nulterminate c (Sh p b) = Ret tt (Sh p b') /\ zeroed b' /\ zeros_on b b' /\ shaped (nul_word b') c t.
Proof.
  intros H. revert b. induction H as [argv ws Hf|c f e m d t w _ IH Hw|l r tl tr _ IH1 _ IH2|l r tl tr _ IH1 _ IH2|c t _ IH];
    intros b Hb; cbn [nulterminate].
  - destruct (nul_args _ _ b p Hf Hb) as (b' & E & H1 & H2 & H3). exists b'. split_and!; [done..|by constructor].
  - destruct (IH b Hb) as (b1 & E1 & Hb1 & Z1 & S1). runs1 E1. destruct (put_nul_run b1 p f e w Hb1 Hw) as [E2 Hb2]. eexists.
    split_and!; [exact E2|done|by etrans; [done|apply zeros_on_insert]|]. constructor; [by eapply nul_word_mono; [apply zeros_on_insert|]|].
    split; [done|]. apply list_lookup_insert_eq. rewrite (zd_length _ Hb1). by apply word_end in Hw as (_ & _ & ?).
  - destruct (IH1 b Hb) as (b1 & E1 & Hb1 & Z1 & S1). runs1 E1. destruct (IH2 b1 Hb1) as (b2 & E2 & Hb2 & Z2 & S2). exists b2.
    split_and!; [done|done|by etrans|]. constructor; [by eapply nul_word_mono|done].
  - destruct (IH1 b Hb) as (b1 & E1 & Hb1 & Z1 & S1). runs1 E1. destruct (IH2 b1 Hb1) as (b2 & E2 & Hb2 & Z2 & S2). exists b2.
    split_and!; [done|done|by etrans|]. constructor; [by eapply nul_word_mono|done].
  - destruct (IH b Hb) as (b1 & E1 & Hb1 & Z1 & S1). exists b1. split_and!; [done..|by constructor].
Qed.

(** A word that is followed by a zero is a string. *)
Lemma nul_word_cstring b q e w : zeroed b -> nul_word b q e w -> cstring b q w.
Proof.
  intros [Hb Hc] [(Hw & Hf & s & Hd & He & ->) Hz]. split.
  - eapply Forall_impl; [done|]. intros c Hcw. by apply word_not_space in Hcw as (_ & _ & ?).
  - exists (drop (S (length w)) (drop q b)). apply list_eq. intros i. destruct (lt_eq_lt_dec i (length w)) as [[Hi| ->]|Hi].
    + destruct (lookup_lt_is_Some_2 w i Hi) as [c Hci]. rewrite (lookup_app_l_Some _ _ _ _ Hci), lookup_drop. apply Hc.
      * rewrite <- lookup_drop, Hd. by apply lookup_app_l_Some.
      * by apply (Forall_lookup_1 _ _ _ _ Hf Hci).
    + rewrite lookup_app_r, Nat.sub_diag by done. by rewrite lookup_drop.
    + rewrite lookup_app_r by lia. rewrite lookup_cons_ne_0 by lia. rewrite !lookup_drop. f_equal. lia.
Qed.
End Nul.

(** ** parsecmd *)

Lemma strlen_line line rest : Forall (fun c => c <> 0) line -> strlen (line ++ 0 :: rest) = Some (length line).
Proof. induction 1 as [|c l Hc _ IH]; [done|]. cbn. rewrite (proj2 (Z.eqb_neq c 0) Hc), IH. done. Qed.

(** The strings of a command in memory. *)
Definition command (b : list Z) (c : cmd) (t : tree) : Prop := shaped (fun q _ w => cstring b q w) c t.

Section Parse.
Context (line rest : list Z) (Hline : Forall (fun c => c <> 0) line).

Lemma parsecmd_run ts :
  lexed line ts ->
  match tline (4 * S (length line)) ts with
  | Got t [] => exists c st, parsecmd (Sh 0 (line ++ 0 :: rest)) = Ret c st /\ command (text st) c t
  | Got _ _ | Bad => exists msg st, parsecmd (Sh 0 (line ++ 0 :: rest)) = Panic msg st
  | Short => False
  end.
Proof.
  intros Hl. unfold parsecmd. rewrite bind_gets. unfold id. cbn [ps text]. rewrite drop_0, strlen_line, bind_deref, Nat.add_0_l by done.
  destruct (parse_fuel (4 * S (length line))) as (Hfuel & _). specialize (Hfuel ts).
  pose proof (lexed_length _ _ Hl) as Hlen. specialize (Hfuel ltac:(lia)).
  destruct (parse_run line rest Hline (4 * S (length line))) as (Hrun & _).
  specialize (Hrun 0%nat ts ltac:(lia)). rewrite drop_0 in Hrun. specialize (Hrun Hl). unfold runs_as, es, at_, line_buf in Hrun.
  destruct (tline _ ts) as [t rs| |]; [|destruct Hrun as (msg & st & E); exists msg, st; unfold bind at 1; by rewrite E|done].
  destruct Hrun as (c & p & E & Hp & Hlp & Hm). runs1 E.
  destruct (peek_run line rest p rs [0] (proj2 Hp) Hlp) as (p' & E' & Hp' & _ & Hend); [by apply (bool_decide_unpack _)|].
  unfold es, at_, line_buf in *. runs1 E'. rewrite bind_gets. cbn [ps]. destruct rs as [|t1 rs].
  - rewrite (proj2 Hend) by done. rewrite Nat.eqb_refl. cbn [negb].
    destruct (nulterminate_run line rest c t _ (length line) Hm (zeroed_buf line rest)) as (b' & E2 & Hb & _ & Hs).
    unfold line_buf in *. runs1 E2. eexists _, _. split; [done|]. eapply shaped_mono; [|done]. intros q e w. by apply (nul_word_cstring line rest).
  - rewrite (proj2 (Nat.eqb_neq p' (length line))) by (intros E2; by apply Hend in E2). by eexists _, _.
Qed.

(** C15: [parsecmd] decides the shell's grammar.  On every line it returns or reports
    a syntax error: it never loops, never reads or writes outside the buffer.  When
    it returns, the tree it built, read through its pointers as C strings after
    [nulterminate], is one that the grammar derives from the tokens of the line;
    when it reports an error, the grammar derives no tree from them. *)
Theorem parsecmd_decides_grammar :
  match parsecmd (Sh 0 (line ++ 0 :: rest)) with
  | Ret c st => exists ts t, lexed line ts /\ gline ts t /\ command (text st) c t
  | Panic _ _ => forall ts t, lexed line ts -> ~ gline ts t
  | Undef _ _ | Stop _ _ => False
  end.
Proof.
  assert (Hno : forall msg st, parsecmd (Sh 0 (line ++ 0 :: rest)) = Panic msg st -> forall ts t, lexed line ts -> ~ gline ts t).
  { intros msg st E ts t Hl Hg. pose proof (parsecmd_run ts Hl) as H. pose proof (lexed_length _ _ Hl) as Hlen.
    destruct parse_complete as [Hc _]. specialize (Hc ts t Hg (4 * S (length line))%nat [] I). rewrite !app_nil_r in Hc.
    rewrite Hc in H by lia. destruct H as (c & st' & E' & _). congruence. }
  destruct (lexed_exists line Hline) as [ts Hl]. pose proof (parsecmd_run ts Hl) as H.
  destruct (parse_sound (4 * S (length line))) as [Hs _]. specialize (Hs ts).
  destruct (tline _ ts) as [t [|t1 rs]| |]; [| | |done].
  - destruct H as (c & st & E & Hc). rewrite E. exists ts, t. destruct (Hs t [] eq_refl) as (ts1 & Hts & Hg). rewrite app_nil_r in Hts.
    subst ts1. done.
  - destruct H as (msg & st & E). rewrite E. by eapply Hno.
  - destruct H as (msg & st & E). rewrite E. by eapply Hno.
Qed.
End Parse.

(** (a >f; b|c )& *)
Definition demo_line : list Z := [40; 97; 32; 62; 102; 59; 32; 98; 124; 99; 32; 41; 38; 10].

Lemma parsecmd_decides_grammar_witness :
  exists ts t st c, lexed demo_line ts /\ gline ts t /\ command (text st) c t /\
    parsecmd (Sh 0 (demo_line ++ [0])) = Ret c st.
Proof.
  pose proof (parsecmd_decides_grammar demo_line [] (bool_decide_unpack (Forall (fun c => c <> 0) demo_line) I)) as H.
  destruct (parsecmd (Sh 0 (demo_line ++ [0]))) as [c st|msg st|msg st|r st] eqn:E; [|vm_compute in E; discriminate E..].
  destruct H as (ts & t & H1 & H2 & H3). exists ts, t, st, c. split_and!; done.
Defined.

(** ** Printing *)

Definition show (t : token) : list Z :=
  match t with TSym c => if c =? 43 then [62; 62] else [c] | TWord w => w end.
Definition render (ts : list token) : list Z := concat ((fun t => show t ++ [32]) <$> ts).

(** Words of word characters. *)
Definition printable (t : token) : Prop :=
  match t with TSym c => c ∈ [124; 40; 41; 59; 38; 60; 43; 62] | TWord w => w <> [] /\ Forall (fun c => word_char c = true) w end.
#[export] Instance printable_dec t : Decision (printable t).
Proof. destruct t; cbn; apply _. Defined.

Lemma lexed_render ts : Forall printable ts -> lexed (render ts) ts.
Proof.
  induction 1 as [|t ts Ht _ IH]; [constructor|]. change (render (t :: ts)) with ((show t ++ [32]) ++ render ts). rewrite <- app_assoc.
  assert (IH' : lexed (32 :: render ts) ts) by (by apply lexed_space). destruct t as [c|w]; cbn in Ht |- *.
  - destruct (Z.eqb_spec c 43) as [->|]; [by apply lexed_append|]. destruct (Z.eqb_spec c 62) as [->|]; [by apply lexed_gt|].
    apply lexed_sym; [set_solver|done].
  - destruct Ht as [Hw Hf]. by apply lexed_word.
Qed.

Lemma render_line ts : Forall printable ts -> Forall (fun c => c <> 0) (render ts).
Proof.
  induction 1 as [|t ts Ht _ IH]; [constructor|]. change (render (t :: ts)) with ((show t ++ [32]) ++ render ts).
  apply Forall_app. split; [|done]. apply Forall_app. split; [|by repeat constructor]. destruct t as [c|w]; cbn in *.
  - destruct (c =? 43); repeat constructor; try lia. set_solver.
  - eapply Forall_impl; [apply Ht|]. intros c Hc. by apply word_not_space in Hc as (_ & _ & ?).
Qed.

(** What is printed is parsed back. *)
Lemma print_parse (ts : list token) (t : tree) (rest : list Z) (Hg : gline ts t) (Hp : Forall printable ts) :
  exists c st, parsecmd (Sh 0 (render ts ++ 0 :: rest)) = Ret c st /\ command (text st) c t.
Proof.
  pose proof (parsecmd_run (render ts) rest (render_line ts Hp) ts (lexed_render ts Hp)) as H.
  pose proof (lexed_length _ _ (lexed_render ts Hp)) as Hlen. destruct parse_complete as [Hc _].
  specialize (Hc ts t Hg (4 * S (length (render ts)))%nat [] I). rewrite !app_nil_r in Hc. by rewrite Hc in H by lia.
Qed.
