(* ===== verification/ShRun.v ===== *)
(** * The shell runs commands (sh.c, gets of ulib.c)

    [runcmd] as a tree of system calls: each node is a call and the branches are its
    results; [fork] continues in the child and in the parent.  [launch] is what the
    kernel makes of it for one process and its children: file descriptors are
    allocated lowest first, as [fdalloc] of sysfile.c does, and the result is every program that
    is started with the descriptors it starts with. *)
From S2P Require Import Prelude Cstring Sh ShSpec ShTheorems.
Local Open Scope Z_scope.

(** ** System calls *)

Inductive forked := Child | Parent | Failed.

Inductive run :=
| Exit
| Exec (path : list Z) (argv : list (list Z)) (failed : run)
| Open (path : list Z) (mode : Z) (k : bool -> run)          (* open(...) >= 0 *)
| Close (fd : Z) (k : run)
| Dup (fd : Z) (k : run)
| Pipe (k : option (Z * Z) -> run)
| Fork (k : forked -> run)
| Wait (k : run)
| Message (what : string) (k : run)                           (* printf(2, ...) *)
| Fault.                                                      (* a pointer to no string *)

(** The string at a pointer. *)
Fixpoint string_of (s : list Z) : option (list Z) :=
  match s with
  | [] => None
  | c :: s' => if c =? 0 then Some [] else cons c <$> string_of s'
  end.
Definition str (b : list Z) (q : nat) : option (list Z) := string_of (drop q b).

(** panic(s) *)
Definition sh_panic (s : string) : run := Message s Exit.

(** if(fork1() == 0) child; parent *)
Definition fork1 (child parent : run) : run :=
  Fork (fun r => match r with Failed => sh_panic "fork" | Child => child | Parent => parent end).

(** [runcmd(cmd)] with the line [b] in memory; it ends in [exit()]. *)
Fixpoint runcmd (b : list Z) (c : cmd) : run :=
  match c with
  | EXEC argv =>
    match argv with
    | [] => Exit
    | (q, _) :: _ =>
      match str b q, mapM (fun a => str b a.1) argv with
      | Some path, Some args => Exec path args (Message "exec %s failed" Exit)
      | _, _ => Fault
      end
    end
  | REDIR c file _ mode fd =>
    match str b file with
    | Some f =>
      Close fd
      (Open f mode (fun ok => if ok then runcmd b c else Message "open %s failed" Exit))
    | None => Fault
    end
  | LIST l r => fork1 (runcmd b l) (Wait (runcmd b r))
  | PIPE l r =>
    Pipe (fun p =>
      match p with
      | None => sh_panic "pipe"
      | Some (p0, p1) =>
        fork1 (Close 1 (Dup p1 (Close p0 (Close p1 (runcmd b l)))))
       (fork1 (Close 0 (Dup p0 (Close p0 (Close p1 (runcmd b r)))))
       (Close p0 (Close p1 (Wait (Wait Exit)))))
      end)
  | BACK c => fork1 (runcmd b c) Exit
  end.

(** ** The loop of the shell *)

(** [gets(buf, max)] on the bytes the standard input has: the characters it stores
    and the bytes that are left. *)
Fixpoint gets_line (max : nat) (input : list Z) : list Z * list Z :=
  match max, input with
  | S (S max'), c :: input' =>
    if (c =? 10) || (c =? 13) then ([c], input')
    else let '(l, r) := gets_line (S max') input' in (c :: l, r)
  | _, _ => ([], input)
  end.

(** What the shell does with a line. *)
Inductive action :=
| Chdir (path : list Z)
| Command (r : outcome sh unit cmd).

(** The body of the loop of [main], on the buffer that [getcmd] filled. *)
Definition main_line (buf : list Z) : option action :=
  match buf with
  | 99 :: 100 :: 32 :: _ =>
    n ← strlen buf;
    path ← str (<[(n - 1)%nat := 0]> buf) 3;
    Some (Chdir path)
  | _ => Some (Command (parsecmd (Sh 0 buf)))
  end.

(** while(getcmd(buf, sizeof(buf)) >= 0): a round takes a character at least. *)
Fixpoint sh_loop (fuel : nat) (input : list Z) : option (list action) :=
  match fuel with
  | O => None
  | S fuel' =>
    let '(l, rest) := gets_line 100 input in
    match l with
    | [] => Some []
    | c :: _ =>
      if c =? 0 then Some [] else
      a ← main_line (l ++ replicate (100 - length l) 0);
      acts ← sh_loop fuel' rest;
      Some (a :: acts)
    end
  end.
Definition sh_main (input : list Z) : option (list action) := sh_loop (S (length input)) input.

(** ** What the kernel makes of the calls *)

(** What a descriptor is: something from outside, a file that was opened, an end of
    the pipe that was made as the [n]th. *)
Inductive obj :=
| Given (n : nat)
| File (path : list Z) (mode : Z)
| ReadEnd (n : nat)
| WriteEnd (n : nat).
#[export] Instance obj_eq_dec : EqDecision obj.
Proof. solve_decision. Defined.

Abbreviation table := (list (option obj)).

(** The lowest free descriptor. *)
Fixpoint fd_lowest (o : obj) (tb : table) : option (nat * table) :=
  match tb with
  | [] => None
  | None :: tb' => Some (O, Some o :: tb')
  | Some x :: tb' => '(fd, tb'') ← fd_lowest o tb'; Some (S fd, Some x :: tb'')
  end.
Definition fdclose (fd : Z) (tb : table) : table := <[Z.to_nat fd := None]> tb.
Definition fdget (fd : Z) (tb : table) : option obj := mjoin (tb !! Z.to_nat fd).

Record program := Program { argv_of : list (list Z); fds_of : table }.

Section Launch.
(** Which files can be opened. *)
Context (can_open : list Z -> Z -> bool).

(** The programs that are started, and the number of pipes; [fork] and memory for a
    pipe do not fail. *)
Fixpoint launch (r : run) (tb : table) (pipes : nat) : option (list program * nat) :=
  match r with
  | Exit => Some ([], pipes)
  | Exec _ argv _ => Some ([Program argv tb], pipes)
  | Open path mode k =>
    if can_open path mode then
      match fd_lowest (File path mode) tb with
      | Some (_, tb') => launch (k true) tb' pipes
      | None => launch (k false) tb pipes
      end
    else launch (k false) tb pipes
  | Close fd k => launch k (fdclose fd tb) pipes
  | Dup fd k =>
    match fdget fd tb with
    | Some o => match fd_lowest o tb with Some (_, tb') => launch k tb' pipes | None => launch k tb pipes end
    | None => launch k tb pipes
    end
  | Pipe k =>
    match fd_lowest (ReadEnd pipes) tb with
    | Some (p0, tb1) =>
      match fd_lowest (WriteEnd pipes) tb1 with
      | Some (p1, tb2) => launch (k (Some (Z.of_nat p0, Z.of_nat p1))) tb2 (S pipes)
      | None => launch (k None) tb pipes
      end
    | None => launch (k None) tb pipes
    end
  | Fork k =>
    '(ps, n) ← launch (k Child) tb pipes;
    '(ps', n) ← launch (k Parent) tb n;
    Some (ps ++ ps', n)
  | Wait k | Message _ k => launch k tb pipes
  | Fault => None
  end.
End Launch.

(** ** The plan of a command *)

Section Plan.
Context (can_open : list Z -> Z -> bool).

(** What a command should start: a redirection replaces a descriptor, the left side
    of a pipe has its output and the right side its input replaced, and nothing
    else changes. *)
Fixpoint plan (t : tree) (tb : table) (n : nat) : list program * nat :=
  match t with
  | TExec [] => ([], n)
  | TExec argv => ([Program argv tb], n)
  | TRedir t f m fd => if can_open f m then plan t (<[Z.to_nat fd := Some (File f m)]> tb) n else ([], n)
  | TPipe l r =>
    let '(ps, n') := plan l (<[1%nat := Some (WriteEnd n)]> tb) (S n) in
    let '(ps', n') := plan r (<[0%nat := Some (ReadEnd n)]> tb) n' in (ps ++ ps', n')
  | TList l r =>
    let '(ps, n') := plan l tb n in
    let '(ps', n') := plan r tb n' in (ps ++ ps', n')
  | TBack t => plan t tb n
  end.

(** Standard input and output are open and there is room for a pipe. *)
Record std (tb : table) : Prop := {
  std_in : exists o, tb !! 0%nat = Some (Some o);
  std_out : exists o, tb !! 1%nat = Some (Some o);
  std_room : exists i j, i <> j /\ tb !! i = Some None /\ tb !! j = Some None
}.

(** Redirections are of the standard input or output. *)
Fixpoint std_fds (t : tree) : Prop :=
  match t with
  | TExec _ => True
  | TRedir t _ _ fd => (fd = 0 \/ fd = 1) /\ std_fds t
  | TPipe l r | TList l r => std_fds l /\ std_fds r
  | TBack t => std_fds t
  end.

Lemma std_fds_wrap t rs : std_fds t -> std_fds (wrap t rs).
Proof.
  revert t. induction rs as [|[op w] rs IH]; intros t Ht; cbn; [done|]. apply IH. unfold redirect. destruct (op =? 60); cbn; auto.
Qed.

Lemma grammar_std_fds :
  (forall ts t, gline ts t -> std_fds t) /\ (forall ts t, gpipe ts t -> std_fds t) /\ (forall ts t, gexec ts t -> std_fds t).
Proof.
  assert (Hb : forall n t, std_fds t -> std_fds (Nat.iter n TBack t)) by (induction n; cbn; auto).
  apply grammar_ind; cbn; auto using std_fds_wrap. intros its _ _. by apply std_fds_wrap.
Qed.

(** *** Descriptors *)

Lemma fd_lowest_at o tb fd :
  tb !! fd = Some None -> (forall i, (i < fd)%nat -> exists x, tb !! i = Some (Some x)) ->
  fd_lowest o tb = Some (fd, <[fd := Some o]> tb).
Proof.
  revert fd. induction tb as [|x tb IH]; intros [|fd] Hf Hl; try done; cbn in Hf; simplify_eq; [done|].
  destruct (Hl 0%nat) as [y Hy]; [lia|]. cbn in Hy. simplify_eq. cbn. rewrite (IH fd Hf); [done|]. intros i Hi. apply (Hl (S i)). lia.
Qed.

Lemma fd_lowest_some o tb i :
  tb !! i = Some None -> exists fd, fd_lowest o tb = Some (fd, <[fd := Some o]> tb) /\ tb !! fd = Some None.
Proof.
  revert i. induction tb as [|[x|] tb IH]; intros [|i] Hi; try done; [|by exists O..]. cbn in Hi. destruct (IH i Hi) as (fd & E & Hf).
  exists (S fd). cbn. by rewrite E.
Qed.

(** close(fd); then a new descriptor is [fd] again. *)
Lemma reopen o tb fd :
  (exists a, tb !! 0%nat = Some (Some a)) -> (exists a, tb !! 1%nat = Some (Some a)) -> fd = 0 \/ fd = 1 ->
  fd_lowest o (fdclose fd tb) = Some (Z.to_nat fd, <[Z.to_nat fd := Some o]> tb).
Proof.
  intros [a Ha] [b Hb] Hfd. unfold fdclose. rewrite (fd_lowest_at _ _ (Z.to_nat fd)).
  - by rewrite list_insert_insert_eq.
  - apply list_lookup_insert_eq. destruct Hfd as [-> | ->]; by eapply lookup_lt_Some.
  - intros i Hi. destruct Hfd as [-> | ->]; [lia|]. assert (i = O) as -> by lia. rewrite list_lookup_insert_ne by done. by exists a.
Qed.

Lemma std_insert tb fd o : std tb -> (fd < 2)%nat -> std (<[fd := Some o]> tb).
Proof.
  intros [[a Ha] [b Hb] (i & j & Hij & Hi & Hj)] Hfd. assert (Hlen : (1 < length tb)%nat) by (by eapply lookup_lt_Some).
  assert (Hk : forall k x, tb !! k = Some (Some x) -> exists y, <[fd := Some o]> tb !! k = Some (Some y)).
  { intros k x Hk. destruct (decide (k = fd)) as [->|]; [exists o; apply list_lookup_insert_eq; lia|exists x; by rewrite list_lookup_insert_ne]. }
  assert (Hn : forall k, tb !! k = Some None -> <[fd := Some o]> tb !! k = Some None).
  { intros k Hkn. rewrite list_lookup_insert_ne; [done|]. intros ->. assert (k = O \/ k = 1%nat) as [-> | ->] by lia; congruence. }
  split; [by eapply Hk..|]. exists i, j. auto.
Qed.
(** The two descriptors of a pipe, made in a standard table. *)
Lemma pipe_fds n tb :
  std tb ->
  exists p0 p1, fd_lowest (ReadEnd n) tb = Some (p0, <[p0 := Some (ReadEnd n)]> tb) /\
    fd_lowest (WriteEnd n) (<[p0 := Some (ReadEnd n)]> tb) = Some (p1, <[p1 := Some (WriteEnd n)]> (<[p0 := Some (ReadEnd n)]> tb)) /\
    p0 <> p1 /\ (1 < p0)%nat /\ (1 < p1)%nat /\ tb !! p0 = Some None /\ tb !! p1 = Some None.
Proof.
  intros [[a Ha] [b Hb] (i & j & Hij & Hi & Hj)].
  assert (Hge : forall k, tb !! k = Some None -> (1 < k)%nat) by (intros [|[|k]] Hk; [congruence..|lia]).
  destruct (fd_lowest_some (ReadEnd n) tb i Hi) as (p0 & E0 & H0).
  assert (Hex : exists k, <[p0 := Some (ReadEnd n)]> tb !! k = Some None).
  { destruct (decide (p0 = i)) as [->|]; [exists j|exists i]; by rewrite list_lookup_insert_ne. }
  destruct Hex as [k Hk]. destruct (fd_lowest_some (WriteEnd n) _ k Hk) as (p1 & E1 & H1).
  assert (Hne : p0 <> p1). { intros <-. rewrite list_lookup_insert_eq in H1 by (by eapply lookup_lt_Some). done. }
  rewrite list_lookup_insert_ne in H1 by done. exists p0, p1. auto 10.
Qed.

(** Closing both ends leaves what was there before. *)
Lemma close_pipe (tb : table) p0 p1 x y :
  tb !! p0 = Some None -> tb !! p1 = Some None -> p0 <> p1 ->
  fdclose (Z.of_nat p1) (fdclose (Z.of_nat p0) (<[p1 := x]> (<[p0 := y]> tb))) = tb.
Proof.
  intros H0 H1 Hne. unfold fdclose. rewrite !Nat2Z.id. rewrite (list_insert_insert_ne _ p0 p1) by done.
  by rewrite !list_insert_insert_eq, (list_insert_id tb p0), (list_insert_id tb p1) by done.
Qed.

Lemma close_pipe_keep (tb : table) p0 p1 fd o x y :
  tb !! p0 = Some None -> tb !! p1 = Some None -> p0 <> p1 -> fd <> p0 -> fd <> p1 ->
  fdclose (Z.of_nat p1) (fdclose (Z.of_nat p0) (<[fd := o]> (<[p1 := x]> (<[p0 := y]> tb)))) = <[fd := o]> tb.
Proof.
  intros H0 H1 Hne Hf0 Hf1. rewrite (list_insert_insert_ne _ fd p1), (list_insert_insert_ne _ fd p0) by done.
  apply close_pipe; by rewrite ?list_lookup_insert_ne.
Qed.

(** A child of a pipe moves its end to [fd] and closes both ends. *)
Lemma pipe_child n tb p0 p1 fd (e : nat) k pipes o :
  std tb -> tb !! p0 = Some None -> tb !! p1 = Some None -> p0 <> p1 -> (1 < p0)%nat -> (1 < p1)%nat -> fd = 0 \/ fd = 1 ->
  (e = p0 /\ o = ReadEnd n \/ e = p1 /\ o = WriteEnd n) ->
  launch can_open (Close fd (Dup (Z.of_nat e) (Close (Z.of_nat p0) (Close (Z.of_nat p1) k))))
    (<[p1 := Some (WriteEnd n)]> (<[p0 := Some (ReadEnd n)]> tb)) pipes =
  launch can_open k (<[Z.to_nat fd := Some o]> tb) pipes.
Proof.
  intros Hs H0 H1 Hne Hp0 Hp1 Hfd He. set (tb2 := <[p1 := Some (WriteEnd n)]> (<[p0 := Some (ReadEnd n)]> tb)). cbn [launch].
  pose proof (lookup_lt_Some _ _ _ H0). pose proof (lookup_lt_Some _ _ _ H1).
  assert (Hget : fdget (Z.of_nat e) (fdclose fd tb2) = Some o).
  { unfold fdget, fdclose, tb2. rewrite Nat2Z.id, list_lookup_insert_ne by (destruct He as [[-> _]|[-> _]]; lia).
    destruct He as [[-> ->]|[-> ->]].
    - rewrite list_lookup_insert_ne, list_lookup_insert_eq by done. done.
    - rewrite list_lookup_insert_eq by (rewrite length_insert; done). done. }
  destruct Hs as [Hin Hout _]. rewrite Hget, reopen; [|unfold tb2; rewrite !list_lookup_insert_ne by lia; done..|done].
  unfold tb2. rewrite close_pipe_keep by (done || lia). done.
Qed.

(** *** The theorem for commands *)

Lemma launch_fork1 child parent tb n r r' :
  launch can_open child tb n = Some r -> launch can_open parent tb r.2 = Some r' ->
  launch can_open (fork1 child parent) tb n = Some (r.1 ++ r'.1, r'.2).
Proof. intros H H'. unfold fork1. cbn. rewrite H. destruct r as [ps n1]. cbn in *. rewrite H'. by destruct r'. Qed.

Lemma cstring_str b q w : cstring b q w -> str b q = Some w.
Proof.
  intros [Hw [r Hr]]. unfold str. rewrite Hr. clear Hr. induction Hw as [|c w Hc _ IH]; [done|]. cbn.
  by rewrite (proj2 (Z.eqb_neq c 0) Hc), IH.
Qed.

Lemma launch_plan b c t :
  command b c t -> std_fds t -> forall tb n, std tb -> launch can_open (runcmd b c) tb n = Some (plan t tb n).
Proof.
  intros H. induction H as [argv ws Hf|c f e m d t w _ IH Hw|l r tl tr _ IH1 _ IH2|l r tl tr _ IH1 _ IH2|c t _ IH];
    intros Hfds tb n Hs; cbn [runcmd].
  - destruct Hf as [|[q e] w argv ws Hw Hf]; [done|]. cbn [fst] in Hw. rewrite (cstring_str _ _ _ Hw).
    assert (E : mapM (fun a : nat * nat => str b a.1) ((q, e) :: argv) = Some (w :: ws)).
    { apply mapM_Some. constructor; [by apply cstring_str|]. eapply Forall2_impl; [done|]. intros a v. apply cstring_str. }
    by rewrite E.
  - destruct Hfds as [Hd Hfds]. rewrite (cstring_str _ _ _ Hw). cbn [launch plan]. destruct (can_open w m); [|done].
    rewrite reopen by (done || apply Hs). apply IH; [done|]. apply std_insert; [done|]. lia.
  - destruct Hfds as [Hfl Hfr]. destruct (pipe_fds n tb Hs) as (p0 & p1 & E0 & E1 & Hne & H0 & H1 & L0 & L1).
    cbn [launch]. rewrite E0, E1. cbn [plan].
    destruct (plan tl _ _) as [ps n1] eqn:El. destruct (plan tr _ _) as [ps' n2] eqn:Er.
    erewrite (launch_fork1 _ _ _ _ (ps, n1) (ps' ++ [], n2)); [by rewrite app_nil_r| |].
    + rewrite (pipe_child n tb p0 p1 1 p1 _ _ (WriteEnd n)) by (auto || lia). rewrite IH1; [by rewrite <- El|done|apply std_insert; [done|lia]].
    + apply (launch_fork1 _ _ _ _ (ps', n2) ([], n2)); [|done].
      rewrite (pipe_child n tb p0 p1 0 p0 _ _ (ReadEnd n)) by (auto || lia). rewrite IH2; [by rewrite <- Er|done|apply std_insert; [done|lia]].
  - destruct Hfds as [Hfl Hfr]. cbn [plan]. destruct (plan tl tb n) as [ps n1] eqn:El. destruct (plan tr tb n1) as [ps' n2] eqn:Er.
    apply (launch_fork1 _ _ _ _ (ps, n1) (ps', n2)); [by rewrite IH1, El|]. cbn [launch snd]. by rewrite IH2, Er.
  - cbn [plan]. destruct (plan t tb n) as [ps n1] eqn:E. rewrite (launch_fork1 _ _ _ _ (ps, n1) ([], n1)); [by rewrite app_nil_r|by rewrite IH, E|done].
Qed.
End Plan.

(** C16: From a line to running programs.  Write the tokens of any command [t] of the
    grammar with spaces, let [parsecmd] parse the line and [runcmd] run the result,
    in a shell whose standard input and output are open and which has two free
    descriptors.  Parsing succeeds with exactly the strings of [t], and the programs
    that are started are those of [plan]: each with its arguments, with the redirected
    files and pipe ends as its descriptors, and with no other descriptor changed; in
    particular no program keeps an end of a pipe that is not its input or output. *)
Theorem sh_runs_line (can_open : list Z -> Z -> bool) (ts : list token) (t : tree) (rest : list Z) (tb : table) (n : nat)
    (Hg : gline ts t) (Hp : Forall printable ts) (Hs : std tb) :
  exists c st, parsecmd (Sh 0 (render ts ++ 0 :: rest)) = Ret c st /\ command (text st) c t /\
    launch can_open (runcmd (text st) c) tb n = Some (plan can_open t tb n).
Proof.
  destruct (print_parse ts t rest Hg Hp) as (c & st & E & Hc). exists c, st. split_and!; [done|done|].
  apply launch_plan; [done| |done]. by eapply (proj1 grammar_std_fds).
Qed.

(** a | b > f & *)
Definition demo_toks : list token := [TWord [97]; TSym 124; TWord [98]; TSym 62; TWord [102]; TSym 38].
Definition demo_fds : table := [Some (Given 0); Some (Given 1); Some (Given 2); None; None].

Lemma sh_runs_line_witness :
  exists c st, parsecmd (Sh 0 (render demo_toks ++ [0])) = Ret c st /\
    command (text st) c (TBack (TPipe (TExec [[97]]) (TRedir (TExec [[98]]) [102] 513 1))) /\
    launch (fun _ _ => true) (runcmd (text st) c) demo_fds 0 =
      Some ([Program [[97]] [Some (Given 0); Some (WriteEnd 0); Some (Given 2); None; None];
             Program [[98]] [Some (ReadEnd 0); Some (File [102] 513); Some (Given 2); None; None]], 1%nat).
Proof.
  apply (sh_runs_line (fun _ _ => true) demo_toks (TBack (TPipe (TExec [[97]]) (TRedir (TExec [[98]]) [102] 513 1))) [] demo_fds 0).
  - apply (gl_one [TWord [97]; TSym 124; TWord [98]; TSym 62; TWord [102]] 1).
    apply (gp_pipe [TWord [97]] (TExec [[97]]) [TWord [98]; TSym 62; TWord [102]]); [|constructor].
    + apply (ge_simple [inl [97]]); [cbn; unfold MAXARGS; lia|constructor].
    + apply (ge_simple [inl [98]; inr (62, [102])]); [cbn; unfold MAXARGS; lia|by repeat constructor].
  - by apply (bool_decide_unpack _).
  - split; [by eexists..|]. by exists 3%nat, 4%nat.
Defined.
