(* ===== verification/Exec.v ===== *)
(** * exec (exec.c, elf.h)

    [exec] builds a new address space from a file and gives it to the current
    process.  The calls into fs.c and vm.c act on the rest of the kernel and are an
    interface ([ExecServices], beside [Services] of ProcDefs.v): building the image
    ([exec_load]) only makes such calls, and the process table is touched once, at
    the end. *)
From S2P Require Import Prelude Bytes Cstring Spinlock ProcDefs Proc Memory Kalloc.
Local Open Scope Z_scope.
Local Open Scope kernel_scope.

Definition ELF_MAGIC : Z := 0x464C457F.
Definition ELF_PROG_LOAD : Z := 1.
Definition sizeof_elfhdr : Z := 52.
Definition sizeof_proghdr : Z := 32.
Definition MAXARG : nat := 32.

(** The fields of the headers that exec reads. *)
Record elfhdr := Elfhdr { e_magic : Z; e_entry : Z; e_phoff : Z; e_phnum : Z }.
Record proghdr := Proghdr { ph_type : Z; ph_off : Z; ph_vaddr : Z; ph_filesz : Z; ph_memsz : Z }.

Definition get_elfhdr (b : list Z) : option elfhdr :=
  magic ← ld 4 0 b; entry ← ld 4 24 b; phoff ← ld 4 28 b; phnum ← ld 2 44 b;
  Some (Elfhdr magic entry phoff phnum).
Definition get_proghdr (b : list Z) : option proghdr :=
  type ← ld 4 0 b; off ← ld 4 4 b; vaddr ← ld 4 8 b; filesz ← ld 4 16 b; memsz ← ld 4 20 b;
  Some (Proghdr type off vaddr filesz memsz).

(** What exec.c calls in fs.c and vm.c beyond [Services]. *)
Class ExecServices (E : Type) := {
  xs_namei : list Z -> M E kaddr (option nat);
  xs_ilock : nat -> M E kaddr unit;
  xs_iunlockput : nat -> M E kaddr unit;
  xs_readi : nat -> Z -> Z -> M E kaddr (list Z);             (* the bytes read *)
  xs_loaduvm : Z -> Z -> nat -> Z -> Z -> M E kaddr Z;        (* pgdir addr ip offset sz *)
  xs_clearpteu : Z -> Z -> M E kaddr unit;
  xs_copyout : Z -> Z -> list Z -> M E kaddr Z                (* pgdir va bytes *)
}.

(** A new program. *)
Record image := Image { im_pgdir : Z; im_sz : Z; im_entry : Z; im_sp : Z }.

Section Exec.
Context {E : Type} `{Services E} `{ExecServices E}.
Local Abbreviation X := (M E kaddr).

(** bad: *)
Definition bad (pgdir : Z) (ip : option nat) : X (option image) :=
  whenM (c_true pgdir) (sv_freevm pgdir);;
  match ip with
  | Some ip => xs_iunlockput ip;; sv_end_op
  | None => ret tt
  end;;
  ret None.

(** The loop over the program headers: the size of the image, or [None] for
    goto bad. *)
Fixpoint load_segments (n : nat) (ip : nat) (pgdir off sz : Z) : X (option Z) :=
  match n with
  | O => ret (Some sz)
  | S n' =>
    do b <- xs_readi ip (u32 off) sizeof_proghdr;
    if negb (Z.of_nat (length b) =? sizeof_proghdr) then ret None else
    do ph <- derefM "ph" (get_proghdr b);
    let off := s32 (off + sizeof_proghdr) in
    if negb (ph_type ph =? ELF_PROG_LOAD) then load_segments n' ip pgdir off sz else
    if ph_memsz ph <? ph_filesz ph then ret None else
    if u32 (ph_vaddr ph + ph_memsz ph) <? ph_vaddr ph then ret None else
    do sz <- sv_allocuvm pgdir sz (u32 (ph_vaddr ph + ph_memsz ph));
    if sz =? 0 then ret None else
    if negb (ph_vaddr ph mod PGSIZE =? 0) then ret None else
    do r <- xs_loaduvm pgdir (ph_vaddr ph) ip (ph_off ph) (ph_filesz ph);
    if r <? 0 then ret None else
    load_segments n' ip pgdir off (u32 sz)
  end.

(** The loop that pushes the argument strings: the stack pointer and the entries
    ustack[3...]. *)
Fixpoint push_args (pgdir sp : Z) (argc : nat) (argv : list (list Z)) (ustack : list Z) : X (option (Z * list Z)) :=
  match argv with
  | [] => ret (Some (sp, ustack))
  | a :: argv' =>
    if decide (MAXARG <= argc)%nat then ret None else
    let sp := Z.land (u32 (sp - (Z.of_nat (length a) + 1))) (u32 (Z.lnot 3)) in
    do r <- xs_copyout pgdir sp (a ++ [0]);
    if r <? 0 then ret None else
    push_args pgdir sp (S argc) argv' (ustack ++ [sp])
  end.

(** The words of [ustack] as bytes. *)
Definition words (l : list Z) : list Z := l ≫= le_bytes 4.

(** The arguments on the stack that ends at [sz]: the new stack pointer. *)
Definition push_stack (pgdir sz : Z) (argv : list (list Z)) : X (option Z) :=
  do o <- push_args pgdir sz 0 argv [];
  match o with
  | None => ret None
  | Some (sp, ptrs) =>
    let argc := Z.of_nat (length argv) in
    let ustack := 0xffffffff :: argc :: u32 (sp - (argc + 1) * 4) :: ptrs ++ [0] in
    let sp := u32 (sp - (3 + argc + 1) * 4) in
    do r <- xs_copyout pgdir sp (words ustack);
    if r <? 0 then ret None else ret (Some sp)
  end.

(** From the open file to the image. *)
Definition load_file (ip : nat) (argv : list (list Z)) : X (option image) :=
  do b <- xs_readi ip 0 sizeof_elfhdr;
  if negb (Z.of_nat (length b) =? sizeof_elfhdr) then bad 0 (Some ip) else
  do elf <- derefM "elf" (get_elfhdr b);
  if negb (e_magic elf =? ELF_MAGIC) then bad 0 (Some ip) else
  do pgdir <- sv_setupkvm;
  if pgdir =? 0 then bad 0 (Some ip) else
  do o <- load_segments (Z.to_nat (e_phnum elf)) ip pgdir (s32 (e_phoff elf)) 0;
  match o with
  | None => bad pgdir (Some ip)
  | Some sz =>
    xs_iunlockput ip;;
    sv_end_op;;
    let sz := PGROUNDUP sz in
    do sz <- sv_allocuvm pgdir sz (u32 (sz + 2 * PGSIZE));
    if sz =? 0 then bad pgdir None else
    xs_clearpteu pgdir (u32 (sz - 2 * PGSIZE));;
    do o <- push_stack pgdir (u32 sz) argv;
    match o with
    | None => bad pgdir None
    | Some sp => ret (Some (Image pgdir (u32 sz) (e_entry elf) sp))
    end
  end.

(** exec() between kill_other_threads and the commit. *)
Definition exec_load (path : list Z) (argv : list (list Z)) : X (option image) :=
  sv_begin_op;;
  do ip <- xs_namei path;
  match ip with
  | None => sv_end_op;; ret None
  | Some ip => xs_ilock ip;; load_file ip argv
  end.

(** for(last=s=path; *s; s++) if( *s == '/') last = s+1; *)
Fixpoint last_elem (last s : list Z) : list Z :=
  match s with
  | [] => last
  | c :: s' => last_elem (if c =? 47 then s' else last) s'
  end.

(** Commit to the user image. *)
Definition exec_commit (c p : nat) (ct : nat * nat) (path : list Z) (im : image) : @K E Z :=
  do pr <- proc_at p;
  do nm <- derefM "safestrcpy" (safestrcpy (pname pr) (last_elem path path ++ [0]) 16);
  upd_proc p (fun pr => pr <| pname := nm |>);;
  do pr <- proc_at p;
  let oldpgdir := pgdir pr in
  upd_proc p (fun pr => pr <| pgdir := im_pgdir im |> <| psz := im_sz im |>);;
  upd_thread ct (fun t => t <| tf ::= fun f => f <| tf_eip := im_entry im |> <| tf_esp := im_sp im |> |>);;
  switchuvm c (Some p) (Some ct);;
  ons (sv_freevm oldpgdir);;
  ret 0.

(** exec() from the return of kill_other_threads, where a thread that had to wait
    for the others resumes. *)
Definition exec_rest (c : nat) (path : list Z) (argv : list (list Z)) : @K E Z :=
  do curproc <- myproc c;
  do curthread <- mythread c;
  do p <- derefM "exec: no process" curproc;
  do ct <- derefM "exec: no thread" curthread;
  do o <- onf c (exec_load path argv);
  match o with
  | None => ret (-1)
  | Some im => exec_commit c p ct path im
  end.

Definition exec (c : nat) (path : list Z) (argv : list (list Z)) : @K E Z :=
  kill_other_threads c AfterExec;;
  exec_rest c path argv.
End Exec.
