(* ===== verification/ExecSpec.v ===== *)
(** * What exec promises

    Against the laws of the services it calls: exec gives back everything it takes,
    on every path ([releases]), and builds the argument stack of a C program
    ([stack_layout]). *)
From S2P Require Import Prelude Bytes Cstring Spinlock ProcDefs Proc FsDefs Exec.
Local Open Scope Z_scope.
Local Open Scope kernel_scope.

(** ** Resources *)

(** What the calls take and give back. *)
Inductive resource_event :=
| Begin | End                          (* begin_op, end_op *)
| Lock (ip : nat) | Unlock (ip : nat)  (* namei and ilock; iunlockput *)
| New (g : Z) | Free (g : Z).          (* setupkvm that succeeds, freevm *)

(** The services return, and [log] records what they take and give back. *)
Class Logged (E : Type) `{Services E} `{ExecServices E} (log : E -> list resource_event) : Prop := {
  lg_begin e : exists e', sv_begin_op e = Ret tt e' /\ log e' = log e ++ [Begin];
  lg_end e : exists e', sv_end_op e = Ret tt e' /\ log e' = log e ++ [End];
  lg_namei path e : exists o e', xs_namei path e = Ret o e' /\ log e' = log e;
  lg_ilock ip e : exists e', xs_ilock ip e = Ret tt e' /\ log e' = log e ++ [Lock ip];
  lg_iunlockput ip e : exists e', xs_iunlockput ip e = Ret tt e' /\ log e' = log e ++ [Unlock ip];
  lg_readi ip off n e : exists b e', xs_readi ip off n e = Ret b e' /\ log e' = log e;
  lg_setupkvm e : exists g e', sv_setupkvm e = Ret g e' /\ log e' = log e ++ (if g =? 0 then [] else [New g]);
  lg_freevm g e : exists e', sv_freevm g e = Ret tt e' /\ log e' = log e ++ [Free g];
  lg_allocuvm g a b e : exists r e', sv_allocuvm g a b e = Ret r e' /\ log e' = log e;
  lg_loaduvm g a ip o n e : exists r e', xs_loaduvm g a ip o n e = Ret r e' /\ log e' = log e;
  lg_clearpteu g a e : exists e', xs_clearpteu g a e = Ret tt e' /\ log e' = log e;
  lg_copyout g a l e : exists r e', xs_copyout g a l e = Ret r e' /\ log e' = log e
}.

(** All is given back, except the address space of an image that was built. *)
Definition releases (l : list resource_event) (r : option image) : Prop :=
  match r with
  | Some im => exists ip, l = [Begin; Lock ip; New (im_pgdir im); Unlock ip; End]
  | None =>
    l = [Begin; End] \/
    exists ip, l = [Begin; Lock ip; Unlock ip; End] \/
      exists g, l = [Begin; Lock ip; New g; Free g; Unlock ip; End] \/ l = [Begin; Lock ip; New g; Unlock ip; End; Free g]
  end.

Lemma get_elfhdr_some b : Z.of_nat (length b) = sizeof_elfhdr -> exists h, get_elfhdr b = Some h.
Proof.
  unfold sizeof_elfhdr. intros Hl. unfold get_elfhdr.
  assert (Hld : forall n o, (o + n <= 52)%nat -> exists v, ld n o b = Some v) by (intros n o Ho; apply ld_some; lia).
  destruct (Hld 4%nat 0%nat) as [? ->]; [lia|]. destruct (Hld 4%nat 24%nat) as [? ->]; [lia|].
  destruct (Hld 4%nat 28%nat) as [? ->]; [lia|]. destruct (Hld 2%nat 44%nat) as [? ->]; [lia|]. by eexists.
Qed.
Lemma get_proghdr_some b : Z.of_nat (length b) = sizeof_proghdr -> exists h, get_proghdr b = Some h.
Proof.
  unfold sizeof_proghdr. intros Hl. unfold get_proghdr.
  assert (Hld : forall n o, (o + n <= 32)%nat -> exists v, ld n o b = Some v) by (intros n o Ho; apply ld_some; lia).
  destruct (Hld 4%nat 0%nat) as [? ->]; [lia|]. destruct (Hld 4%nat 4%nat) as [? ->]; [lia|].
  destruct (Hld 4%nat 8%nat) as [? ->]; [lia|]. destruct (Hld 4%nat 16%nat) as [? ->]; [lia|]. destruct (Hld 4%nat 20%nat) as [? ->]; [lia|].
  by eexists.
Qed.

Section Resources.
Context {E : Type} {SV : Services E} {XS : ExecServices E} {log : E -> list resource_event} {LG : Logged E log}.

(** A call that returns and adds [l] to the log. *)
Definition logs {A} (m : M E kaddr A) (e : E) (P : A -> list resource_event -> Prop) : Prop :=
  exists a e' l, m e = Ret a e' /\ log e' = log e ++ l /\ P a l.

Lemma logs_ret {A} (a : A) e P : P a [] -> logs (ret a) e P.
Proof. intros HP. exists a, e, []. by rewrite app_nil_r. Qed.

Lemma logs_bind {A B} (m : M E kaddr A) (k : A -> M E kaddr B) e P Q :
  logs m e P -> (forall a l e', P a l -> logs (k a) e' (fun b l' => Q b (l ++ l'))) -> logs (bind m k) e Q.
Proof.
  intros (a & e1 & l & E1 & L1 & HP) Hk. destruct (Hk a l e1 HP) as (b & e2 & l' & E2 & L2 & HQ).
  exists b, e2, (l ++ l'). rewrite (bind_ret_eq _ _ _ _ _ E1), L2, L1, app_assoc. done.
Qed.

(** A call that records nothing. *)
Lemma logs_quiet {A B} (m : M E kaddr A) (k : A -> M E kaddr B) e Q :
  (forall e, exists a e', m e = Ret a e' /\ log e' = log e) -> (forall a e', logs (k a) e' Q) -> logs (bind m k) e Q.
Proof.
  intros Hm Hk. apply (logs_bind _ _ _ (fun _ l => l = [])).
  - destruct (Hm e) as (a & e' & E1 & L1). exists a, e', []. by rewrite app_nil_r.
  - intros a l e' ->. apply Hk.
Qed.

(** A call that records one event. *)
Lemma logs_event {B} (m : M E kaddr unit) (k : unit -> M E kaddr B) e v Q :
  (forall e, exists e', m e = Ret tt e' /\ log e' = log e ++ [v]) -> (forall e', logs (k tt) e' (fun b l => Q b (v :: l))) ->
  logs (bind m k) e Q.
Proof.
  intros Hm Hk. apply (logs_bind _ _ _ (fun _ l => l = [v])).
  - destruct (Hm e) as (e' & E1 & L1). by exists tt, e', [v].
  - intros [] l e' ->. apply Hk.
Qed.

Lemma logs_deref {A B} w (a : A) (k : A -> M E kaddr B) e Q : logs (k a) e Q -> logs (bind (derefM w (Some a)) k) e Q.
Proof. done. Qed.

Lemma logs_mono {A} (m : M E kaddr A) e (P Q : A -> list resource_event -> Prop) :
  logs m e P -> (forall a l, P a l -> Q a l) -> logs m e Q.
Proof. intros (a & e' & l & ? & ? & ?) HPQ. exists a, e', l. auto. Qed.

Local Ltac quiet := apply logs_quiet; [intros; first [apply lg_readi | apply lg_allocuvm | apply lg_loaduvm | apply lg_copyout | apply lg_namei]|].
Local Ltac record :=
  eapply logs_event; [intros; first [apply lg_begin | apply lg_end | apply lg_ilock | apply lg_iunlockput | apply lg_freevm]|intros ?].

Lemma load_segments_logs n ip pgdir off sz e : logs (load_segments n ip pgdir off sz) e (fun _ l => l = []).
Proof.
  revert off sz e. induction n as [|n IH]; intros off sz e; cbn [load_segments]; [by apply logs_ret|].
  quiet. intros b e1. destruct (Z.eqb_spec (Z.of_nat (length b)) sizeof_proghdr) as [Hl|]; [|by apply logs_ret]. cbn [negb].
  destruct (get_proghdr_some b Hl) as [ph ->]. apply logs_deref. destruct (negb _); [apply IH|].
  destruct (_ <? _); [by apply logs_ret|]. destruct (_ <? _); [by apply logs_ret|]. quiet. intros sz1 e2.
  destruct (sz1 =? 0); [by apply logs_ret|]. destruct (negb _); [by apply logs_ret|]. quiet. intros r e3.
  destruct (r <? 0); [by apply logs_ret|apply IH].
Qed.

Lemma push_args_logs argv pgdir sp argc us e : logs (push_args pgdir sp argc argv us) e (fun _ l => l = []).
Proof.
  revert sp argc us e. induction argv as [|a argv IH]; intros sp argc us e; cbn [push_args]; [by apply logs_ret|].
  destruct (decide _); [by apply logs_ret|]. quiet. intros r e1. destruct (r <? 0); [by apply logs_ret|apply IH].
Qed.

Lemma push_stack_logs pgdir sz argv e : logs (push_stack pgdir sz argv) e (fun _ l => l = []).
Proof.
  unfold push_stack. eapply logs_bind; [apply push_args_logs|]. intros [[sp ptrs]|] l e1 ->; [|by apply logs_ret].
  quiet. intros r e2. destruct (r <? 0); by apply logs_ret.
Qed.

Lemma bad_logs pgdir ip e :
  logs (bad pgdir ip) e (fun r l => r = None /\
    l = (if pgdir =? 0 then [] else [Free pgdir]) ++ match ip with Some ip => [Unlock ip; End] | None => [] end).
Proof.
  unfold bad, c_true. destruct (pgdir =? 0); cbn [negb whenM].
  - apply (logs_deref "" tt). destruct ip as [ip|]; [|by apply (logs_deref "" tt), logs_ret].
    eapply (logs_bind _ _ _ (fun _ l => l = [Unlock ip; End])).
    + record. destruct (lg_end e') as (e2 & E2 & L2). by exists tt, e2, [End].
    + intros [] l e1 ->. by apply logs_ret.
  - record. destruct ip as [ip|]; [|by apply (logs_deref "" tt), logs_ret].
    eapply (logs_bind _ _ _ (fun _ l => l = [Unlock ip; End])).
    + record. destruct (lg_end e'0) as (e2 & E2 & L2). by exists tt, e2, [End].
    + intros [] l e1 ->. by apply logs_ret.
Qed.

Local Ltac gives_up H := eapply logs_mono; [apply H|]; intros ? ? [-> ->].

Lemma load_file_logs ip argv e :
  logs (load_file ip argv) e (fun r l =>
    match r with
    | Some im => l = [New (im_pgdir im); Unlock ip; End]
    | None => l = [Unlock ip; End] \/ exists g, l = [New g; Free g; Unlock ip; End] \/ l = [New g; Unlock ip; End; Free g]
    end).
Proof.
  assert (Hbad0 : forall e, logs (bad 0 (Some ip)) e (fun r l => r = None /\ l = [Unlock ip; End])) by (intros; apply bad_logs).
  unfold load_file. quiet. intros b e1.
  destruct (Z.eqb_spec (Z.of_nat (length b)) sizeof_elfhdr) as [Hl|]; cbn [negb]; [|gives_up Hbad0; auto].
  destruct (get_elfhdr_some b Hl) as [h ->]. apply logs_deref. destruct (negb _); [gives_up Hbad0; auto|].
  eapply (logs_bind _ _ _ (fun g l => l = if g =? 0 then [] else [New g])).
  { destruct (lg_setupkvm e1) as (g & e2 & E2 & L2). by exists g, e2, (if g =? 0 then [] else [New g]). }
  intros g l e2 ->. destruct (g =? 0) eqn:Hg; [gives_up Hbad0; auto|].
  eapply logs_bind; [apply load_segments_logs|]. intros [sz|] l e3 ->.
  2: { gives_up bad_logs. rewrite Hg. right. exists g. auto. }
  record. record. quiet. intros sz1 e4. destruct (sz1 =? 0).
  { gives_up bad_logs. rewrite Hg. right. exists g. auto. }
  eapply (logs_bind _ _ _ (fun _ l => l = [])).
  { destruct (lg_clearpteu g (u32 (sz1 - 2 * PGSIZE)) e4) as (e5 & E5 & L5). exists tt, e5, []. by rewrite app_nil_r. }
  intros [] l e5 ->. eapply logs_bind; [apply push_stack_logs|]. intros [sp|] l e6 ->; [by apply logs_ret|].
  gives_up bad_logs. rewrite Hg. right. exists g. auto.
Qed.

Lemma exec_load_logs path argv e : logs (exec_load path argv) e (fun r l => releases l r).
Proof.
  unfold exec_load. record. quiet. intros [ip|] e1.
  - record. eapply logs_mono; [apply load_file_logs|]. intros [im|] l; cbn; [intros ->; by exists ip|].
    intros [-> |[g [-> | ->]]]; right; exists ip; eauto.
  - record. apply logs_ret. by left.
Qed.
End Resources.

(** ** The stack *)

(** User memory, as exec relies on it: the bytes of an address space, which of them
    user code can reach, which addresses have a page table; [uspace e g]: the address
    space [g] is well formed.  copyout, from kernel buffers of at most [ubuf] bytes,
    copies where user code can reach every byte. *)
Class UserMemory (E : Type) `{ExecServices E} := {
  umem : E -> Z -> Z -> Z;
  uacc : E -> Z -> Z -> Prop;
  utab : E -> Z -> Z -> Prop;
  uspace : E -> Z -> Prop;
  ubuf : Z;
  um_copyout g va l e :
    uspace e g -> 0 <= va -> va + Z.of_nat (length l) < 2 ^ 32 -> Z.of_nat (length l) <= ubuf -> Forall is_byte l ->
    (forall a, va <= a < va + Z.of_nat (length l) -> utab e g a) ->
    exists r e', xs_copyout g va l e = Ret r e' /\ uspace e' g /\
      (forall a, 0 <= a < 2 ^ 32 -> utab e' g a <-> utab e g a) /\
      (forall a, 0 <= a < 2 ^ 32 -> uacc e' g a <-> uacc e g a) /\
      (0 <= r <-> forall a, va <= a < va + Z.of_nat (length l) -> uacc e g a) /\
      (0 <= r -> forall a, 0 <= a < 2 ^ 32 -> umem e' g a =
         if (va <=? a) && (a <? va + Z.of_nat (length l)) then default 0 (l !! Z.to_nat (a - va)) else umem e g a)
}.

(** [s] with its zero, and the little-endian word [v], at [a]. *)
Definition bytes_at (m : Z -> Z) (a : Z) (l : list Z) : Prop := forall k c, l !! k = Some c -> m (a + Z.of_nat k) = c.
Definition string_at (m : Z -> Z) (a : Z) (s : list Z) : Prop := bytes_at m a (s ++ [0]).
Definition word_at (m : Z -> Z) (a v : Z) : Prop := bytes_at m a (le_bytes 4 v).

Definition round4 (x : Z) : Z := x - x mod 4.
(** The stack pointer after the strings. *)
Definition below (sp : Z) (argv : list (list Z)) : Z := foldl (fun sp s => round4 (sp - (Z.of_nat (length s) + 1))) sp argv.
(** The stack pointer the program starts with. *)
Definition start_sp (sz : Z) (argv : list (list Z)) : Z := below sz argv - 4 * (Z.of_nat (length argv) + 4).

(** What [main] finds: a return address, argc and argv, and the strings of argv above
    them on the stack page. *)
Record stack_layout (m : Z -> Z) (sz sp : Z) (argv : list (list Z)) : Prop := {
  sl_page : sz - PGSIZE <= sp /\ sp mod 4 = 0;
  sl_return : word_at m sp 0xffffffff;
  sl_argc : word_at m (sp + 4) (Z.of_nat (length argv));
  sl_argv : word_at m (sp + 8) (sp + 12);
  sl_strings i s : argv !! i = Some s ->
    exists p, word_at m (sp + 12 + 4 * Z.of_nat i) p /\ string_at m p s /\
      sp + 12 + 4 * (Z.of_nat (length argv) + 1) <= p /\ p + Z.of_nat (length s) + 1 <= sz;
  sl_end : word_at m (sp + 12 + 4 * Z.of_nat (length argv)) 0
}.

Lemma mask4 y : 0 <= y < 2 ^ 32 -> Z.land y (u32 (Z.lnot 3)) = round4 y.
Proof.
  intros Hy. assert (Hu : u32 (Z.lnot 3) = Z.land (Z.lnot 3) (Z.ones 32)) by done.
  rewrite Hu, (Z.land_comm (Z.lnot 3)), Z.land_assoc, Z.land_ones, Z.mod_small by lia.
  change 3 with (Z.ones 2). rewrite <- Z.ldiff_land, Z.ldiff_ones_r, Z.shiftl_mul_pow2, Z.shiftr_div_pow2 by lia.
  unfold round4. change (2 ^ 2) with 4. pose proof (Z.div_mod y 4). lia.
Qed.

Lemma round4_bounds x : x - 3 <= round4 x <= x /\ round4 x mod 4 = 0.
Proof.
  unfold round4. pose proof (Z.mod_pos_bound x 4). split; [lia|].
  rewrite Zminus_mod, Z.mod_mod, Z.sub_diag by lia. done.
Qed.

Lemma below_le argv sp : below sp argv <= sp.
Proof.
  revert sp. induction argv as [|s argv IH]; intros sp; cbn; [lia|]. etrans; [apply IH|].
  pose proof (round4_bounds (sp - (Z.of_nat (length s) + 1))). lia.
Qed.

Section Stack.
Context {E : Type} {XS : ExecServices E} {UM : UserMemory E}.
Context (g sz : Z) (Hsz : 2 * PGSIZE <= sz < KERNBASE) (Hpage : sz mod PGSIZE = 0).

(** There are page tables for the image; user code reaches the stack page and not the
    page below it. *)
Record stack_page (e : E) : Prop := {
  st_space : uspace e g;
  st_tables a : 0 <= a < sz -> utab e g a;
  st_stack a : sz - PGSIZE <= a < sz -> uacc e g a;
  st_guard a : sz - 2 * PGSIZE <= a < sz - PGSIZE -> ~ uacc e g a
}.

Definition byte_list (l : list Z) : Prop := Forall is_byte l.

Lemma copy_runs e va l :
  stack_page e -> 0 <= va -> va + Z.of_nat (length l) <= sz -> Z.of_nat (length l) <= ubuf -> byte_list l ->
  exists r e', xs_copyout g va l e = Ret r e' /\ stack_page e' /\
    (0 <= r <-> forall a, va <= a < va + Z.of_nat (length l) -> uacc e g a) /\
    (0 <= r -> forall a, 0 <= a < sz -> umem e' g a =
       if (va <=? a) && (a <? va + Z.of_nat (length l)) then default 0 (l !! Z.to_nat (a - va)) else umem e g a).
Proof.
  intros [Hs Ht Hst Hg] Hva Hend Hl Hb. unfold KERNBASE, PGSIZE in *.
  destruct (um_copyout g va l e) as (r & e' & E1 & Hs' & Ht' & Ha & Hr & Hm); [done|lia|lia|done|done|intros; apply Ht; lia|].
  exists r, e'. split; [done|]. split; [|split; [done|intros H0 a Hin; apply Hm; [done|lia]]].
  split; unfold PGSIZE; try done; intros a Hin; rewrite ?Ht', ?Ha by lia; auto.
Qed.

Lemma copy_fits e va l :
  stack_page e -> sz - PGSIZE <= va -> va + Z.of_nat (length l) <= sz -> Z.of_nat (length l) <= ubuf -> byte_list l ->
  exists r e', xs_copyout g va l e = Ret r e' /\ (r <? 0) = false /\ stack_page e' /\
    bytes_at (umem e' g) va l /\ (forall a, 0 <= a < sz -> a < va \/ va + Z.of_nat (length l) <= a -> umem e' g a = umem e g a).
Proof.
  intros Hst Hlo Hhi Hl Hb. destruct (copy_runs e va l Hst) as (r & e' & E1 & Hst' & Hr & Hm); [unfold PGSIZE in *; lia|done..|].
  assert (Hr0 : 0 <= r) by (apply Hr; intros a Ha; apply Hst; lia). exists r, e'.
  split_and!; [done|lia|done| |].
  - intros k c Hk. apply lookup_lt_Some in Hk as Hlt. rewrite (Hm Hr0) by (unfold PGSIZE in *; lia).
    rewrite (proj2 (Z.leb_le _ _)), (proj2 (Z.ltb_lt _ _)) by lia. cbn [andb].
    replace (Z.to_nat (va + Z.of_nat k - va)) with k by lia. by rewrite Hk.
  - intros a Ha Hout. rewrite (Hm Hr0) by done. destruct (Z.leb_spec va a), (Z.ltb_spec a (va + Z.of_nat (length l))); cbn [andb]; lia || done.
Qed.

Lemma copy_fails e va l a :
  stack_page e -> 0 <= va -> va + Z.of_nat (length l) <= sz -> Z.of_nat (length l) <= ubuf -> byte_list l ->
  ~ uacc e g a -> va <= a < va + Z.of_nat (length l) ->
  exists r e', xs_copyout g va l e = Ret r e' /\ (r <? 0) = true.
Proof.
  intros Hst Hva Hend Hl Hb Hn Ha. destruct (copy_runs e va l Hst Hva Hend Hl Hb) as (r & e' & E1 & _ & Hr & _). exists r, e'. split; [done|].
  apply Z.ltb_lt. destruct (Z_lt_ge_dec r 0) as [|Hge]; [done|]. exfalso. apply Hn, Hr; lia.
Qed.

(** The strings pushed so far. *)
Definition pushed (e : E) (sp : Z) (ptrs : list Z) (argv : list (list Z)) : Prop :=
  Forall2 (fun p s => string_at (umem e g) p s /\ sp <= p /\ p + Z.of_nat (length s) + 1 <= sz) ptrs argv.

Lemma pushed_mono e e' sp sp' ptrs argv :
  0 <= sp -> pushed e sp ptrs argv -> sp' <= sp -> (forall a, sp <= a < sz -> umem e' g a = umem e g a) -> pushed e' sp' ptrs argv.
Proof.
  intros H0 H Hsp Hm. eapply Forall2_impl; [exact H|]. intros p s (H1 & H2 & H3). split_and!; [|lia|done].
  intros k c Hk. apply lookup_lt_Some in Hk as Hlt. rewrite length_app in Hlt. cbn [length] in Hlt. rewrite Hm by lia. by apply H1.
Qed.

Local Opaque Z.of_nat.

(** An argument string that copyout can take. *)
Definition arg_ok (s : list Z) : Prop := byte_list s /\ Z.of_nat (length s) < ubuf.

Lemma push_args_run argv pre ptrs sp e :
  stack_page e -> pushed e sp ptrs pre -> sp mod 4 = 0 -> sz - PGSIZE <= sp <= sz -> Forall arg_ok argv -> 0 <= below sp argv ->
  exists o e', push_args g sp (length pre) argv ptrs e = Ret o e' /\
    match o with
    | Some (sp', ptrs') => sp' = below sp argv /\ stack_page e' /\ pushed e' sp' ptrs' (pre ++ argv) /\ sp' mod 4 = 0 /\
        sz - PGSIZE <= sp' <= sz /\ (length (pre ++ argv) <= MAXARG \/ argv = [])%nat
    | None => (MAXARG < length (pre ++ argv))%nat \/ below sp argv < sz - PGSIZE
    end.
Proof.
  revert pre ptrs sp e. induction argv as [|s argv IH]; intros pre ptrs sp e Hst Hp Hm Hsp Hl H0; cbn [push_args].
  { exists (Some (sp, ptrs)), e. split; [done|]. rewrite app_nil_r. split_and!; try done; [lia..|by right]. }
  apply Forall_cons in Hl as [[Hby Hs] Hl]. destruct (decide _) as [Hmax|Hmax].
  { exists None, e. split; [done|]. left. rewrite length_app. cbn. lia. }
  set (n := Z.of_nat (length s) + 1) in *. pose proof (round4_bounds (sp - n)) as Hr. pose proof (below_le argv (round4 (sp - n))) as Hb.
  rewrite mask4 by apply u32_range. unfold KERNBASE, PGSIZE in *. change (0 <= below (round4 (sp - n)) argv) in H0.
  assert (Hlen : Z.of_nat (length (s ++ [0])) = n) by (rewrite length_app; cbn; lia). rewrite u32_small by lia.
  assert (Hby' : byte_list (s ++ [0])) by (apply Forall_app; split; [done|apply Forall_singleton; unfold is_byte; lia]).
  destruct (Z_lt_ge_dec (round4 (sp - n)) (sz - 4096)) as [Hlow|Hfit].
  - assert (Hfail : exists a, ~ uacc e g a /\ round4 (sp - n) <= a < round4 (sp - n) + n).
    { exists (if Z_lt_ge_dec (round4 (sp - n)) (sz - 8192) then sz - 4100 else round4 (sp - n)).
      destruct (Z_lt_ge_dec _ _); (split; [apply Hst; unfold PGSIZE; lia|lia]). }
    destruct Hfail as (a & Ha & Hr'). destruct (copy_fails e (round4 (sp - n)) (s ++ [0]) a Hst) as (r & e' & E1 & Er); try (done || lia).
    runs1 E1. rewrite Er. exists None, e'. split; [done|]. right. change (below (round4 (sp - n)) argv < sz - 4096). lia.
  - destruct (copy_fits e (round4 (sp - n)) (s ++ [0])) as (r & e' & E1 & Er & Hst' & Hb' & Ho);
      [done|unfold PGSIZE; lia|lia|lia|done|]. runs1 E1. rewrite Er. rewrite Hlen in Ho.
    destruct (IH (pre ++ [s]) (ptrs ++ [round4 (sp - n)]) (round4 (sp - n)) e') as (o & e2 & E2 & Hpost); [done| |lia|lia|done|done|].
    + apply Forall2_app; [eapply pushed_mono; [|done|lia|intros a Ha; apply Ho; lia]; lia|]. constructor; [|constructor]. split_and!; [done|lia|lia].
    + rewrite length_app in E2. cbn [length] in E2. rewrite Nat.add_1_r in E2. exists o, e2. split; [done|].
      rewrite <- app_assoc in Hpost. cbn [app] in Hpost. destruct o as [[sp' ptrs']|]; [|done].
      destruct Hpost as (H1 & H2 & H3 & H4 & H5 & H6). split_and!; try done; [lia..|]. left. destruct H6 as [H6|H6]; [done|].
      rewrite length_app. subst argv. cbn. lia.
Qed.

Lemma ustack_length l : length (words l) = (4 * length l)%nat.
Proof. induction l as [|v l IH]; [done|]. cbn [words mbind list_bind]. rewrite length_app, le_bytes_length. fold (words l). cbn [length]. lia. Qed.

Lemma words_bytes l : byte_list (words l).
Proof. induction l as [|v l IH]; [constructor|]. change (words (v :: l)) with (le_bytes 4 v ++ words l). apply Forall_app. split; [apply le_bytes_bytes|done]. Qed.

Lemma words_at m a l i v : bytes_at m a (words l) -> l !! i = Some v -> word_at m (a + 4 * Z.of_nat i) v.
Proof.
  revert a i. induction l as [|w l IH]; intros a i Hb Hi; [done|]. change (words (w :: l)) with (le_bytes 4 w ++ words l) in Hb.
  destruct i as [|i]; cbn in Hi.
  - simplify_eq. intros k c Hk. replace (a + 4 * Z.of_nat 0) with a by lia. apply Hb. by apply lookup_app_l_Some.
  - replace (a + 4 * Z.of_nat (S i)) with (a + 4 + 4 * Z.of_nat i) by lia. apply IH; [|done].
    intros k c Hk. replace (a + 4 + Z.of_nat k) with (a + Z.of_nat (4 + k)) by lia. apply Hb.
    rewrite lookup_app_r by (rewrite le_bytes_length; lia). rewrite le_bytes_length. by replace (4 + k - 4)%nat with k by lia.
Qed.

(** The arguments fit. *)
Definition fits (argv : list (list Z)) : Prop := (length argv <= MAXARG)%nat /\ sz - PGSIZE <= start_sp sz argv.

Lemma push_stack_run argv e :
  stack_page e -> Forall arg_ok argv -> 144 <= ubuf -> 0 <= start_sp sz argv ->
  exists o e', push_stack g sz argv e = Ret o e' /\
    match o with
    | Some sp => sp = start_sp sz argv /\ fits argv /\ stack_layout (umem e' g) sz sp argv
    | None => ~ fits argv
    end.
Proof.
  intros Hst Hl Hbuf H0. unfold push_stack. unfold start_sp in H0. assert (Hm : sz mod 4 = 0).
  { unfold PGSIZE in Hpage. apply Z.mod_divide in Hpage as [k ->]; [|lia]. replace (k * 4096) with (k * 1024 * 4) by lia. by apply Z.mod_mul. }
  destruct (push_args_run argv [] [] sz e) as (o & e1 & E1 & Ho); [done|constructor|done|unfold PGSIZE; lia|done|lia|]. cbn [length app] in *. runs1 E1.
  unfold fits, start_sp. destruct o as [[sp ptrs]|].
  2: { exists None, e1. split; [done|]. intros [H1 H2]. destruct Ho as [Ho|Ho]; lia. }
  destruct Ho as (-> & Hst1 & Hp & Hsp4 & Hsp & Hmax). assert (Hn : (length argv <= MAXARG)%nat) by (destruct Hmax as [?| ->]; [done|cbn; lia]).
  assert (Hnz : Z.of_nat (length argv) <= 32) by (unfold MAXARG in Hn; lia). pose proof (Forall2_length _ _ _ Hp) as Hlp.
  set (sp0 := below sz argv) in *. set (n := Z.of_nat (length argv)) in *. unfold KERNBASE, PGSIZE in *.
  rewrite !u32_small by lia. set (us := 0xffffffff :: n :: sp0 - (n + 1) * 4 :: ptrs ++ [0]).
  assert (Hus : Z.of_nat (length (words us)) = (3 + n + 1) * 4).
  { rewrite ustack_length. unfold us. cbn [length]. rewrite length_app. cbn [length]. lia. }
  pose proof (words_bytes us) as Hwb.
  destruct (Z_lt_ge_dec (sp0 - (3 + n + 1) * 4) (sz - 4096)) as [Hlow|Hfit].
  - destruct (copy_fails e1 (sp0 - (3 + n + 1) * 4) (words us) (sp0 - (3 + n + 1) * 4)) as (r & e2 & E2 & Er);
      [done|lia|lia|lia|done|apply Hst1; unfold PGSIZE; lia|lia|]. runs1 E2. rewrite Er. exists None, e2. split; [done|]. lia.
  - destruct (copy_fits e1 (sp0 - (3 + n + 1) * 4) (words us)) as (r & e2 & E2 & Er & _ & Hb & Hold); [done|unfold PGSIZE; lia|lia|lia|done|].
    runs1 E2. rewrite Er. eexists _, e2. split; [done|]. split_and!; [lia|done|lia|].
    rewrite Hus in Hold. set (sp := sp0 - (3 + n + 1) * 4) in *.
    assert (Hw : forall i v a, us !! i = Some v -> a = sp + 4 * Z.of_nat i -> word_at (umem e2 g) a v) by (intros i v a Hi ->; by apply (words_at _ _ us)).
    split.
    + unfold PGSIZE. split; [lia|]. unfold sp. replace (sp0 - (3 + n + 1) * 4) with (sp0 + (- (3 + n + 1)) * 4) by lia. by rewrite Z.mod_add.
    + apply (Hw 0%nat); [done|lia].
    + apply (Hw 1%nat); [done|lia].
    + apply (Hw 2%nat); [unfold us; cbn; f_equal; lia|lia].
    + intros i s Hi. destruct (Forall2_lookup_r _ _ _ _ _ Hp Hi) as (p & Hpi & Hs & Hlo & Hhi). exists p. split_and!; [|..|lia|done].
      * apply (Hw (3 + i)%nat); [|lia]. unfold us. cbn. by apply lookup_app_l_Some.
      * intros k c Hk. apply lookup_lt_Some in Hk as Hlt. rewrite length_app in Hlt. cbn [length] in Hlt. rewrite Hold by lia. by apply Hs.
    + apply (Hw (3 + length ptrs)%nat); [|lia].
      change ((ptrs ++ [0]) !! length ptrs = Some 0). by rewrite lookup_app_r, Nat.sub_diag by done.
Qed.
End Stack.
