(* ===== verification/ExecTheorems.v ===== *)
(** * exec is balanced and starts programs with their arguments

    The theorems of exec.c for any services that keep their laws, a small machine that
    keeps them, and the proof that [copyout] of vm.c is the user memory ([UserMemory])
    they ask for, on page tables in kernel memory.  The bytes to copy are in a kernel
    page of their own, at [kbuf]. *)
From S2P Require Import Prelude Bytes Cstring Memory Spinlock ProcDefs Proc Kalloc Vm VmMap VmCopy FsDefs Exec ExecSpec.
Local Open Scope Z_scope.
Local Open Scope kernel_scope.

(** C24: exec gives back what it takes.  Whatever the file and the arguments are and
    wherever building the new image fails, exec reaches its end with the operation it
    began ended once, the inode it locked unlocked and released once, and the page
    directory it made either freed exactly once (when it fails, with -1) or handed to
    the image (when it succeeds); a directory is freed only after it was made. *)
Theorem exec_releases {E : Type} `{Services E} `{ExecServices E} (log : E -> list resource_event) (HL : Logged E log)
    (path : list Z) (argv : list (list Z)) (e : E) :
  exists r e' l, exec_load path argv e = Ret r e' /\ log e' = log e ++ l /\ releases l r.
Proof. apply exec_load_logs. Qed.

(** C25: exec builds the stack of a C program.  With a stack page that user code can
    reach above a page that it cannot, and arguments that are together shorter than the
    image, pushing the arguments succeeds exactly when there are at most MAXARG of them
    and strings, pointers and the three words fit in the page; then the stack pointer is aligned and points at a return address, argc
    and argv, where argv is the array just above, ended by a null pointer, whose
    entries point at the argument strings, zero-terminated, all inside the page. *)
Theorem exec_builds_stack {E : Type} `{ExecServices E} `{!UserMemory E} (g sz : Z) (argv : list (list Z)) (e : E)
    (Hsz : 2 * PGSIZE <= sz < KERNBASE) (Hpage : sz mod PGSIZE = 0) (Hst : stack_page g sz e)
    (Hl : Forall arg_ok argv) (Hb : 144 <= ubuf) (H0 : 0 <= start_sp sz argv) :
  exists o e', push_stack g sz argv e = Ret o e' /\
    match o with
    | Some sp => sp = start_sp sz argv /\ fits sz argv /\ stack_layout (umem e' g) sz sp argv
    | None => ~ fits sz argv
    end.
Proof. by apply push_stack_run. Qed.

(** ** A machine *)

(** One address space of two pages, the upper of which user code can reach, and one
    program that has no segments. *)
Record machine := Machine { x_log : list resource_event; x_mem : Z -> Z }.

Definition logging (v : resource_event) : M machine kaddr unit := modify (fun e => Machine (x_log e ++ [v]) (x_mem e)).

Definition tiny_elf : list Z := [0x7f; 0x45; 0x4c; 0x46] ++ replicate 48 0.

#[export] Instance machine_services : Services machine := {|
  sv_kalloc := ret 0;
  sv_kfree _ := ret tt;
  sv_setupkvm := logging (New 4096);; ret 4096;
  sv_inituvm _ := ret tt;
  sv_copyuvm _ _ := ret 0;
  sv_allocuvm _ _ new := ret new;
  sv_deallocuvm _ _ new := ret new;
  sv_freevm g := logging (Free g);
  sv_kpgdir _ := 0;
  sv_filedup f := ret f;
  sv_fileclose _ := ret tt;
  sv_idup i := ret i;
  sv_iput _ := ret tt;
  sv_begin_op := logging Begin;
  sv_end_op := logging End;
  sv_namei_root := ret None;
  sv_fsinit := ret tt;
  sv_load _ _ e := e;
  sv_flush _ e := e;
  sv_ofile _ := [];
  sv_cwd _ := O;
  sv_wakes _ := [];
  sv_awake e := e
|}.

(** The bytes of [l] at [va]. *)
Definition poke (m : Z -> Z) (va : Z) (l : list Z) : Z -> Z := fun a =>
  if (va <=? a) && (a <? va + Z.of_nat (length l)) then default 0 (l !! Z.to_nat (a - va)) else m a.

#[export] Instance machine_exec : ExecServices machine := {|
  xs_namei path := ret (if decide (path = []) then None else Some O);
  xs_ilock ip := logging (Lock ip);
  xs_iunlockput ip := logging (Unlock ip);
  xs_readi _ _ n := ret (take (Z.to_nat n) tiny_elf);
  xs_loaduvm _ _ _ _ _ := ret 0;
  xs_clearpteu _ _ := ret tt;
  xs_copyout _ va l :=
    if bool_decide (l = []) || (4096 <=? va) && (va + Z.of_nat (length l) <=? 8192)
    then modify (fun e => Machine (x_log e) (poke (x_mem e) va l));; ret 0 else ret (-1)
|}.

#[export] Instance machine_logged : Logged machine x_log.
Proof.
  split; intros; try (by eexists); try (by eexists _, _).
  cbn. destruct (_ || _); [by eexists _, _|by eexists _, _].
Qed.

Definition reach (_ : machine) (_ a : Z) : Prop := 4096 <= a < 8192.

#[export] Program Instance machine_memory : UserMemory machine := {|
  umem e _ := x_mem e;
  uacc := reach;
  utab _ _ _ := True;
  uspace _ _ := True;
  ubuf := 8192
|}.
Next Obligation.
  intros g va l e _ _ _ _ _ _. cbn -[poke]. destruct (_ || _) eqn:Hc.
  - eexists 0, _. split; [done|]. do 3 (split; [done|]). split; [|done]. split; [|lia]. intros _ a Ha. unfold reach.
    apply orb_prop in Hc as [Hc|Hc]; to_prop; [subst l; cbn in Ha; lia|lia].
  - eexists (-1), _. split; [done|]. do 3 (split; [done|]). split; [|lia]. split; [lia|]. intros Hr. exfalso.
    apply orb_false_elim in Hc as [Hn Hc]. to_prop. assert (0 < Z.of_nat (length l)) by (destruct l; [done|cbn; lia]).
    unfold reach in Hr. pose proof (Hr va). pose proof (Hr (va + Z.of_nat (length l) - 1)). apply andb_false_iff in Hc as [Hc|Hc]; to_prop; lia.
Qed.

Definition machine0 : machine := Machine [] (fun _ => 0).

(** The result and the log of a run. *)
Definition seen {A} (o : outcome machine kaddr A) : option (A * list resource_event) :=
  match o with Ret a e => Some (a, x_log e) | _ => None end.

Lemma exec_releases_witness :
  exists r e', exec_load [47] [[108; 115]; [97]] machine0 = Ret r e' /\ releases (x_log e') r /\
    r = Some (Image 4096 8192 0 8160) /\ x_log e' = [Begin; Lock 0; New 4096; Unlock 0; End].
Proof.
  destruct (exec_releases x_log machine_logged [47] [[108; 115]; [97]] machine0) as (r & e' & l & E & Hl & Hr).
  exists r, e'. split; [exact E|]. cbn in Hl. split; [by rewrite Hl|]. clear Hr Hl.
  apply (f_equal seen) in E. cbn [seen] in E. revert E. generalize (x_log e') as lg.
  vm_compute. intros lg [= <- <-]. split; reflexivity.
Defined.

Lemma exec_builds_stack_witness :
  exists e', push_stack 0 8192 [[108; 115]; [97]] machine0 = Ret (Some 8160) e' /\
    stack_layout (x_mem e') 8192 8160 [[108; 115]; [97]].
Proof.
  destruct (exec_builds_stack (E := machine) 0 8192 [[108; 115]; [97]] machine0) as (o & e' & E & Ho).
  - unfold PGSIZE, KERNBASE. lia.
  - reflexivity.
  - split; cbn; unfold reach, PGSIZE; intros; (done || lia).
  - apply Forall_forall. intros s Hs. rewrite !elem_of_cons, elem_of_nil in Hs. unfold arg_ok, byte_list, is_byte.
    destruct Hs as [->|[->|[]]]; (split; [repeat constructor; lia|cbn; lia]).
  - cbn. lia.
  - vm_compute. discriminate.
  - exists e'. destruct o as [sp|]; [|exfalso; apply Ho; split; [unfold MAXARG; cbn; lia|vm_compute; discriminate]]. destruct Ho as (Hsp & _ & Hlay).
    assert (Hs : start_sp 8192 [[108; 115]; [97]] = 8160) by reflexivity. rewrite Hs in Hsp. rewrite Hsp in E, Hlay.
    split; [exact E|exact Hlay].
Defined.

(** ** User memory is vm.c's *)

(** Kernel memory with the bytes [l] at [a]. *)
Definition blit (m : mem) (a : Z) (l : list Z) : mem := fun b =>
  if in_range a (Z.of_nat (length l)) b then default 0 (l !! Z.to_nat (b - a)) else m b.

(** The services of exec.c, with vm.c's copyout from the buffer. *)
Definition with_copyout (kbuf : Z) (X : ExecServices kmem) : ExecServices kmem := {|
  xs_namei := xs_namei;
  xs_ilock := xs_ilock;
  xs_iunlockput := xs_iunlockput;
  xs_readi := xs_readi;
  xs_loaduvm := xs_loaduvm;
  xs_clearpteu := xs_clearpteu;
  xs_copyout pgdir va l :=
    modify (fun s => s <| kram ::= fun m => blit m kbuf l |>);;
    copyout pgdir va kbuf (Z.of_nat (length l))
|}.

Section ExecVm.
Context (kend kbuf : Z) (X : ExecServices kmem).

(** An address space that does not contain the buffer. *)
Definition vm_space (s : kmem) (pgdir : Z) : Prop :=
  exists ts us l, space kend s pgdir ts us l /\ apart kend kbuf pgdir ts l /\ kbuf ∉ us.

Lemma blit_spec m l : Z.of_nat (length l) <= 4096 -> bytes m -> Forall is_byte l ->
  within kbuf m (blit m kbuf l) /\ bytes (blit m kbuf l).
Proof.
  intros Hl Hm Hb. split.
  - intros a Ha. unfold blit, in_range. unfold PGSIZE in Ha. destruct (Z.leb_spec kbuf a), (Z.ltb_spec a (kbuf + Z.of_nat (length l))); cbn [andb]; lia || done.
  - intros a. unfold blit. destruct (in_range _ _ _); [|apply Hm]. destruct (l !! _) as [c|] eqn:Hc; cbn; [|lia]. by eapply (Forall_lookup_1 is_byte).
Qed.

(** Every user address is seen through its frame. *)
Lemma umem_apart s pgdir ts us l m' a :
  space kend s pgdir ts us l -> apart kend kbuf pgdir ts l -> (kbuf ∉ us) -> within kbuf (kram s) m' -> 0 <= a < 2 ^ 32 ->
  VmCopy.umem m' pgdir a = VmCopy.umem (kram s) pgdir a.
Proof.
  intros Hs Hk Hu Hw Ha. unfold VmCopy.umem. rewrite (frame_within kend s pgdir ts l kbuf m') by (done || apply Hs).
  destruct (frame (kram s) pgdir a) as [x|] eqn:Hf; [|done]. pose proof (sp_in _ _ _ _ _ _ Hs a x Ha Hf) as Hx.
  destruct (sp_apart _ _ _ _ _ _ Hs x Hx) as [Hxp _]. pose proof (Z.mod_pos_bound a 4096). apply Hw. unfold PGSIZE.
  destruct (pages_apart kend x kbuf); [done|apply Hk|by intros ->|unfold PGSIZE in *; lia..].
Qed.

(** The directory is no user page. *)
Lemma copied_pde s s' pgdir ts us l va p len r i :
  space kend s pgdir ts us l -> copied kend s s' pgdir ts us l va p len r -> 0 <= i < 1024 -> pde (kram s') pgdir i = pde (kram s) pgdir i.
Proof.
  intros Hs Hc Hi. apply load32_ext. intros k Hk. apply (cp_kernel _ _ _ _ _ _ _ _ _ _ _ Hc). intros x Hx.
  destruct (sp_apart _ _ _ _ _ _ Hs x Hx) as (Hxp & Hne & _). pose proof (ti_dir _ _ _ _ _ (sp_tables _ _ _ _ _ _ Hs)) as Hd.
  destruct (pages_apart kend x pgdir); [done..|unfold PGSIZE in *; lia|unfold PGSIZE in *; lia].
Qed.

Lemma vm_copyout pgdir va l s :
  vm_space s pgdir -> 0 <= va -> va + Z.of_nat (length l) < 2 ^ 32 -> Z.of_nat (length l) <= 4096 -> Forall is_byte l ->
  (forall a, va <= a < va + Z.of_nat (length l) -> present (pde (kram s) pgdir (PDX a)) = true) ->
  exists r s', @xs_copyout _ (with_copyout kbuf X) pgdir va l s = Ret r s' /\ vm_space s' pgdir /\
    (forall a, 0 <= a < 2 ^ 32 -> present (pde (kram s') pgdir (PDX a)) = true <-> present (pde (kram s) pgdir (PDX a)) = true) /\
    (forall a, 0 <= a < 2 ^ 32 -> is_Some (frame (kram s') pgdir a) <-> is_Some (frame (kram s) pgdir a)) /\
    (0 <= r <-> forall a, va <= a < va + Z.of_nat (length l) -> is_Some (frame (kram s) pgdir a)) /\
    (0 <= r -> forall a, 0 <= a < 2 ^ 32 -> VmCopy.umem (kram s') pgdir a =
       if (va <=? a) && (a <? va + Z.of_nat (length l)) then default 0 (l !! Z.to_nat (a - va)) else VmCopy.umem (kram s) pgdir a).
Proof.
  intros (ts & us & fl & Hs & Hk & Hu) Hva Hend Hl Hb Htab. cbn [xs_copyout with_copyout]. rewrite bind_modify.
  set (m1 := blit (kram s) kbuf l). set (s1 := s <| kram := m1 |>). change (s <| kram ::= fun m => blit m kbuf l |>) with s1.
  pose proof (sp_tables _ _ _ _ _ _ Hs) as Ht. destruct (ti_mem _ _ _ _ _ Ht) as [Hby _]. destruct (blit_spec (kram s) l Hl Hby Hb) as [Hw Hb1].
  assert (Hs1 : space kend s1 pgdir ts us fl) by (by eapply space_within).
  assert (Hp1 : forall a, pde m1 pgdir (PDX a) = pde (kram s) pgdir (PDX a)) by (intros a; eapply pde_keep; [done..|apply PDX_range]).
  assert (Hf1 : forall a, frame m1 pgdir a = frame (kram s) pgdir a) by (intros; by eapply frame_within).
  assert (Hout : forall i, 0 <= i < Z.of_nat (length l) -> outside us (kbuf + i)).
  { intros i Hi x Hx. destruct (sp_apart _ _ _ _ _ _ Hs x Hx) as [Hxp _]. destruct (pages_apart kend x kbuf); [done|apply Hk|by intros ->|unfold PGSIZE in *; lia..]. }
  destruct (copyout_copies kend (R := kaddr) s1 pgdir ts us fl va kbuf (Z.of_nat (length l)) Hs1) as (r & s' & E & Hc); [lia|lia|lia| |done|].
  { intros a Ha. cbn. rewrite Hp1. by apply Htab. }
  assert (Hdir : forall a, pde (kram s') pgdir (PDX a) = pde (kram s) pgdir (PDX a)).
  { intros a. rewrite <-Hp1. exact (copied_pde s1 s' pgdir _ _ _ _ _ _ _ _ Hs1 Hc (PDX_range a)). }
  destruct Hc as [Hs' Hf Hkr Hr].
  exists r, s'. split; [exact E|]. split; [by exists ts, us, fl|]. split; [intros a _; by rewrite Hdir|]. split; [intros a _; by rewrite Hf, <-Hf1|].
  destruct Hr as [(-> & Hall & Hm)|(-> & a & Ha & Hn)].
  - split; [split; [|lia]; intros _ a Ha; rewrite <-Hf1; by apply Hall|]. intros _ a Ha. rewrite Hm by done. unfold in_range.
    destruct (_ && _) eqn:Hin; [|by apply (umem_apart s pgdir ts us fl)]. cbn. unfold m1, blit, in_range. to_prop.
    rewrite (proj2 (Z.leb_le _ _)), (proj2 (Z.ltb_lt _ _)) by lia. cbn [andb]. do 3 f_equal. lia.
  - split; [|lia]. split; [lia|]. intros Hall. destruct (Hall a Ha) as [x Hx]. rewrite <-Hf1 in Hx. change (frame m1 pgdir a = None) in Hn. congruence.
Qed.

#[export] Instance vm_memory : @UserMemory kmem (with_copyout kbuf X) :=
  @Build_UserMemory kmem (with_copyout kbuf X) (fun s => VmCopy.umem (kram s)) (fun s g a => is_Some (frame (kram s) g a))
    (fun s g a => present (pde (kram s) g (PDX a)) = true) vm_space 4096 vm_copyout.

(** exec's stack in the page tables of vm.c. *)
Theorem vm_builds_stack pgdir sz argv s :
  2 * PGSIZE <= sz < KERNBASE -> sz mod PGSIZE = 0 -> vm_space s pgdir ->
  (forall a, 0 <= a < sz -> present (pde (kram s) pgdir (PDX a)) = true) ->
  (forall a, sz - PGSIZE <= a < sz -> is_Some (frame (kram s) pgdir a)) ->
  (forall a, sz - 2 * PGSIZE <= a < sz - PGSIZE -> frame (kram s) pgdir a = None) ->
  Forall (fun a => Forall is_byte a /\ Z.of_nat (length a) < 4096) argv -> 0 <= start_sp sz argv ->
  exists o s', @push_stack _ (with_copyout kbuf X) pgdir sz argv s = Ret o s' /\
    match o with
    | Some sp => sp = start_sp sz argv /\ fits sz argv /\ stack_layout (VmCopy.umem (kram s') pgdir) sz sp argv
    | None => ~ fits sz argv
    end.
Proof.
  intros Hsz Hpg Hs Ht Hst Hg Ha H0. apply (push_stack_run (UM := vm_memory) pgdir sz Hsz Hpg argv s); try done.
  split; try done. cbn. intros a Hin. rewrite Hg by done. by intros [].
Qed.
End ExecVm.
