(* ===== verification/Ide.v ===== *)
(** * The IDE disk driver (ide.c)

    The driver keeps a queue of buffers linked through [qnext]; the first is the
    one the disk works on.  [iderw] appends a buffer, starts the disk when the queue
    was empty, and sleeps until the interrupt handler has marked the buffer valid.
    The driver state is the [D] of [fsys]; the disk itself is reached through ports,
    an interface. *)
From S2P Require Import Prelude Bytes Spinlock ProcDefs Memory Kalloc FsDefs.
Local Open Scope Z_scope.
Local Open Scope kernel_scope.

Definition SECTOR_SIZE : Z := 512.
Definition IDE_BSY : Z := 0x80.
Definition IDE_DRDY : Z := 0x40.
Definition IDE_DF : Z := 0x20.
Definition IDE_ERR : Z := 0x01.
Definition IDE_CMD_READ : Z := 0x20.
Definition IDE_CMD_WRITE : Z := 0x30.
Definition IDE_CMD_RDMUL : Z := 0xc4.
Definition IDE_CMD_WRMUL : Z := 0xc5.
Definition FSSIZE : Z := 1000.

(** The in and out instructions on a machine with state [H]: [io_insl] reads words,
    as bytes, [io_outsl] writes bytes. *)
Class Ports (H : Type) := {
  io_inb : Z -> H -> Z * H;
  io_outb : Z -> Z -> H -> H;
  io_insl : Z -> Z -> H -> list Z * H;
  io_outsl : Z -> list Z -> H -> H
}.

(** [idelock], [idequeue], [havedisk1], and the machine. *)
Record ide (H : Type) := Ide {
  idelock : bool;
  idequeue : option nat;
  havedisk1 : Z;
  ports : H
}.
Arguments Ide {H}. Arguments idelock {H}. Arguments idequeue {H}. Arguments havedisk1 {H}. Arguments ports {H}.
#[export] Instance ide_eta {H} : Eta (ide H) := fun r => Ide (idelock r) (idequeue r) (havedisk1 r) (ports r).

Section Ide.
Context {H : Type} `{Ports H}.
Local Abbreviation I := (F (ide H)).

(** How often [idewait] reads the status: a disk that takes longer has no run. *)
Variable spins : nat.

Definition upd_ide (f : ide H -> ide H) : I unit := modify (fun s => s <| disk ::= f |>).
Definition ide_acquire : I unit := lock_acq (fun s => idelock (disk s)) (fun b s => s <| disk ::= fun d => d <| idelock := b |> |>).
Definition ide_release : I unit := lock_rel (fun s => idelock (disk s)) (fun b s => s <| disk ::= fun d => d <| idelock := b |> |>).

Definition inb (port : Z) : I Z :=
  do o <- gets (fun s => io_inb port (ports (disk s)));
  upd_ide (fun d => d <| ports := o.2 |>);;
  ret o.1.
Definition outb (port v : Z) : I unit := upd_ide (fun d => d <| ports ::= io_outb port (u8 v) |>).
Definition insl (port cnt : Z) : I (list Z) :=
  do o <- gets (fun s => io_insl port cnt (ports (disk s)));
  upd_ide (fun d => d <| ports := o.2 |>);;
  ret o.1.
Definition outsl (port : Z) (l : list Z) : I unit := upd_ide (fun d => d <| ports ::= io_outsl port l |>).

(** while(((r = inb(0x1f7)) & (IDE_BSY|IDE_DRDY)) != IDE_DRDY) ; *)
Fixpoint ide_poll (n : nat) : I Z :=
  match n with
  | O => undef "idewait"
  | S n' =>
    do r <- inb 0x1f7;
    if Z.land r (Z.lor IDE_BSY IDE_DRDY) =? IDE_DRDY then ret r else ide_poll n'
  end.

Definition idewait (checkerr : Z) : I Z :=
  do r <- ide_poll spins;
  if c_true checkerr && c_true (Z.land r (Z.lor IDE_DF IDE_ERR)) then ret (-1) else ret 0.

(** for(i=0; i<1000; i++) if(inb(0x1f7) != 0){ havedisk1 = 1; break; } *)
Fixpoint find_disk1 (n : nat) : I unit :=
  match n with
  | O => ret tt
  | S n' =>
    do r <- inb 0x1f7;
    if negb (r =? 0) then upd_ide (fun d => d <| havedisk1 := 1 |>) else find_disk1 n'
  end.

(** The interrupt controller's part, ioapicenable, is not in it. *)
Definition ideinit : I unit :=
  upd_ide (fun d => d <| idelock := false |>);;
  idewait 0;;
  outb 0x1f6 (Z.lor 0xe0 (Z.shiftl 1 4));;
  find_disk1 1000;;
  outb 0x1f6 (Z.lor 0xe0 (Z.shiftl 0 4)).

Definition idestart (b : option nat) : I unit :=
  match b with
  | None => panic "idestart"
  | Some i =>
    do b <- buf_at i;
    if FSSIZE <=? blockno b then panic "incorrect blockno" else
    let sector_per_block := BSIZE / SECTOR_SIZE in
    let sector := s32 (blockno b * sector_per_block) in
    let read_cmd := if sector_per_block =? 1 then IDE_CMD_READ else IDE_CMD_RDMUL in
    let write_cmd := if sector_per_block =? 1 then IDE_CMD_WRITE else IDE_CMD_WRMUL in
    if 7 <? sector_per_block then panic "idestart" else
    idewait 0;;
    outb 0x3f6 0;;
    outb 0x1f2 sector_per_block;;
    outb 0x1f3 (Z.land sector 0xff);;
    outb 0x1f4 (Z.land (Z.shiftr sector 8) 0xff);;
    outb 0x1f5 (Z.land (Z.shiftr sector 16) 0xff);;
    outb 0x1f6 (Z.lor (Z.lor 0xe0 (Z.shiftl (Z.land (bdev b) 1) 4)) (Z.land (Z.shiftr sector 24) 0x0f));;
    if c_true (Z.land (bflags b) B_DIRTY) then
      outb 0x1f7 write_cmd;;
      do l <- orUndef "b->data" (sub 0 (Z.to_nat BSIZE) (bdata b));
      outsl 0x1f0 l
    else outb 0x1f7 read_cmd
  end.

Definition ideintr : I unit :=
  ide_acquire;;
  do q <- gets (fun s => idequeue (disk s));
  match q with
  | None => ide_release
  | Some i =>
    do b <- buf_at i;
    upd_ide (fun d => d <| idequeue := bqnext b |>);;
    (if c_true (Z.land (bflags b) B_DIRTY) then ret tt
     else
       do r <- idewait 1;
       if 0 <=? r then do l <- insl 0x1f0 (BSIZE / 4); upd_buf i (fun b => b <| bdata := l |>)
       else ret tt);;
    upd_buf i (fun b => b <| bflags ::= fun f => Z.lor f B_VALID |>);;
    upd_buf i (fun b => b <| bflags ::= fun f => Z.land f (Z.lnot B_DIRTY) |>);;
    wakeup (ABuf i);;
    do q <- gets (fun s => idequeue (disk s));
    match q with Some j => idestart (Some j) | None => ret tt end;;
    ide_release
  end.

(** [pp]: &idequeue, or the address of a buffer's [qnext]. *)
Inductive link := LQueue | LNext (i : nat).
Definition link_get (pp : link) : I (option nat) :=
  match pp with
  | LQueue => gets (fun s => idequeue (disk s))
  | LNext i => do b <- buf_at i; ret (bqnext b)
  end.
Definition link_set (pp : link) (v : option nat) : I unit :=
  match pp with
  | LQueue => upd_ide (fun d => d <| idequeue := v |>)
  | LNext i => upd_buf i (fun b => b <| bqnext := v |>)
  end.

(** for(pp=&idequeue; *pp; pp=&( *pp)->qnext) ; for a queue of at most [n] buffers. *)
Fixpoint queue_end (n : nat) (pp : link) : I link :=
  do p <- link_get pp;
  match p with
  | None => ret pp
  | Some j => match n with O => undef "idequeue" | S n' => queue_end n' (LNext j) end
  end.

(** Append b to idequeue. *)
Definition ide_append (i : nat) : I unit :=
  upd_buf i (fun b => b <| bqnext := None |>);;
  do n <- gets (fun s => length (bufs s));
  do pp <- queue_end n LQueue;
  link_set pp (Some i).

(** The test of while((b->flags & (B_VALID|B_DIRTY)) != B_VALID), at the start or when
    [sleep] has the lock again: return, or sleep. *)
Definition iderw_wait (i : nat) : I unit :=
  do b <- buf_at i;
  if Z.land (bflags b) (Z.lor B_VALID B_DIRTY) =? B_VALID then ide_release
  else ide_release;; stop (ABuf i).
Definition iderw_again (i : nat) : I unit := ide_acquire;; iderw_wait i.

Definition ide_iderw (i : nat) : I unit :=
  do h <- holdingsleep (BufLock i);
  if negb h then panic "iderw: buf not locked" else
  do b <- buf_at i;
  if Z.land (bflags b) (Z.lor B_VALID B_DIRTY) =? B_VALID then panic "iderw: nothing to do" else
  do d <- gets disk;
  if negb (bdev b =? 0) && negb (c_true (havedisk1 d)) then panic "iderw: ide disk 1 not present" else
  ide_acquire;;
  ide_append i;;
  do q <- gets (fun s => idequeue (disk s));
  (if bool_decide (q = Some i) then idestart (Some i) else ret tt);;
  iderw_wait i.
End Ide.
