(* ===== verification/IdeSpec.v ===== *)
(** * The IDE driver serves requests in order

    [ata] is the part of the ATA interface that ide.c uses, as a machine of its own:
    registers, sectors, and what the disk is doing.  A disk is anything whose ports
    behave like it ([AtaDisk]).  [server] is what the driver promises to the threads
    that call iderw: a queue of buffers, served one per interrupt. *)
From S2P Require Import Prelude Bytes Spinlock ProcDefs Memory Kalloc FsDefs BioSpec Ide.
Local Open Scope Z_scope.
Local Open Scope kernel_scope.

(** ** The disk *)

Inductive ata_state :=
| Idle
| Reading (d : bool) (n : Z)                  (* a read command was given *)
| Accepting (d : bool) (n : Z)                (* a write command, no data yet *)
| Writing (d : bool) (n : Z) (l : list Z)     (* the data has arrived *)
| Offering (l : list Z).                      (* the sector waits to be read *)

Record ata := Ata {
  a_regs : Z -> Z;                            (* by port, 0x1f2 to 0x1f6 *)
  a_disk : bool -> Z -> list Z;               (* the sectors of the two drives *)
  a_state : ata_state
}.
#[export] Instance ata_eta : Eta ata := fun r => Ata (a_regs r) (a_disk r) (a_state r).

(** The drive and the sector the registers select (28-bit LBA). *)
Definition a_drive (r : Z -> Z) : bool := Z.testbit (r 0x1f6) 4.
Definition a_lba (r : Z -> Z) : Z :=
  r 0x1f3 + 2 ^ 8 * r 0x1f4 + 2 ^ 16 * r 0x1f5 + 2 ^ 24 * (r 0x1f6 mod 16).

Definition set_reg (p v : Z) (r : Z -> Z) : Z -> Z := fun q => if q =? p then v else r q.
Definition store (d : bool) (n : Z) (l : list Z) (m : bool -> Z -> list Z) : bool -> Z -> list Z :=
  fun d' n' => if bool_decide (d' = d) && (n' =? n) then l else m d' n'.

(** The operation in progress ends; the disk raises its interrupt. *)
Definition a_done (a : ata) : ata :=
  match a_state a with
  | Reading d n => a <| a_state := Offering (a_disk a d n) |>
  | Writing d n l => a <| a_disk ::= store d n l |> <| a_state := Idle |>
  | _ => a
  end.

(** The status after [k] reads of it. *)
Fixpoint polls {H} `{Ports H} (k : nat) (h : H) : Z * H :=
  match k with O => io_inb 0x1f7 h | S k' => polls k' (io_inb 0x1f7 h).2 end.

(** A disk that works, and answers a request for its status within [spins] reads
    when it is not in an operation. *)
Class AtaDisk (H : Type) `{Ports H} (spins : nat) := {
  view : H -> ata;
  finish : H -> H;
  ata_status h : view (io_inb 0x1f7 h).2 = view h;
  ata_ready h : a_state (view h) = Idle \/ (exists l, a_state (view h) = Offering l) ->
    exists k, (k < spins)%nat /\ Z.land (polls k h).1 (Z.lor IDE_BSY IDE_DRDY) = IDE_DRDY;
  ata_error h k l : a_state (view h) = Offering l -> Z.land (polls k h).1 (Z.lor IDE_DF IDE_ERR) = 0;
  ata_control v h : view (io_outb 0x3f6 v h) = view h;
  ata_reg p v h : p ∈ [0x1f2; 0x1f3; 0x1f4; 0x1f5; 0x1f6] ->
    view (io_outb p v h) = view h <| a_regs ::= set_reg p v |>;
  ata_read h : a_state (view h) = Idle -> a_regs (view h) 0x1f2 = 1 -> Z.testbit (a_regs (view h) 0x1f6) 6 = true ->
    view (io_outb 0x1f7 IDE_CMD_READ h) =
    view h <| a_state := Reading (a_drive (a_regs (view h))) (a_lba (a_regs (view h))) |>;
  ata_write h : a_state (view h) = Idle -> a_regs (view h) 0x1f2 = 1 -> Z.testbit (a_regs (view h) 0x1f6) 6 = true ->
    view (io_outb 0x1f7 IDE_CMD_WRITE h) =
    view h <| a_state := Accepting (a_drive (a_regs (view h))) (a_lba (a_regs (view h))) |>;
  ata_data h d n l : a_state (view h) = Accepting d n -> length l = Z.to_nat BSIZE ->
    view (io_outsl 0x1f0 l h) = view h <| a_state := Writing d n l |>;
  ata_offer h l : a_state (view h) = Offering l ->
    (io_insl 0x1f0 (BSIZE / 4) h).1 = l /\ view (io_insl 0x1f0 (BSIZE / 4) h).2 = view h <| a_state := Idle |>;
  ata_done h : view (finish h) = a_done (view h)
}.

(** ** What the driver promises *)

Definition on_drive (b : buf) : bool := negb (Z.land (bdev b) 1 =? 0).
Definition is_write (b : buf) : bool := c_true (Z.land (bflags b) B_DIRTY).
(** iderw has done its work on the buffer. *)
Definition synced (b : buf) : bool := Z.land (bflags b) (Z.lor B_VALID B_DIRTY) =? B_VALID.
Definition plain (b : buf) : buf := b <| bqnext := None |>.

(** A buffer synced with the disk, and the disk. *)
Definition sync (b : buf) (m : bool -> Z -> list Z) : buf * (bool -> Z -> list Z) :=
  let b' := b <| bflags ::= fun f => Z.land (Z.lor f B_VALID) (Z.lnot B_DIRTY) |> in
  if is_write b then (b', store (on_drive b) (blockno b) (bdata b) m)
  else (b' <| bdata := m (on_drive b) (blockno b) |>, m).

(** The buffers in the queue, all buffers, the sectors. *)
Record server := Server {
  r_queue : list nat;
  r_bufs : list buf;
  r_disk : bool -> Z -> list Z
}.

(** Thread [pid] calls iderw with buffer [i], to which it has given the contents [b];
    the disk finishes and interrupts; a thread that slept in iderw runs again. *)
Inductive request := Call (pid : Z) (i : nat) (b : buf) | Interrupt | Again (i : nat).
Inductive answer := Returned | Asleep | Woken (l : list kaddr).

(** [None]: a buffer in the queue is locked by the thread that waits for it, so
    no other call for it is made. *)
Definition server_step (e : request) (a : server) : option (answer * server) :=
  match e with
  | Call pid i b =>
    if decide (i ∈ r_queue a \/ length (r_bufs a) <= i)%nat then None
    else Some (Asleep, Server (r_queue a ++ [i]) (<[i := plain b]> (r_bufs a)) (r_disk a))
  | Interrupt =>
    match r_queue a with
    | [] => Some (Woken [], a)
    | i :: q =>
      b ← r_bufs a !! i;
      Some (Woken [ABuf i], Server q (<[i := (sync b (r_disk a)).1]> (r_bufs a)) (sync b (r_disk a)).2)
    end
  | Again i =>
    b ← r_bufs a !! i;
    Some (if synced b then Returned else Asleep, a)
  end.

Fixpoint server_run (es : list request) (a : server) : option (list answer * server) :=
  match es with
  | [] => Some ([], a)
  | e :: es' =>
    '(r, a1) ← server_step e a;
    '(rs, a2) ← server_run es' a1;
    Some (r :: rs, a2)
  end.

Section Runs.
Context {H : Type} `{Ports H} {spins : nat} `{!AtaDisk H spins}.
Implicit Types s : fsys (ide H).

(** The same on the kernel's state. *)
Definition happens (e : request) s : option (answer * fsys (ide H)) :=
  match e with
  | Call pid i b =>
    match ide_iderw spins i (s <| cur ::= fun c => c <| c_pid := pid |> |> <| bufs ::= <[i := b]> |>) with
    | Ret _ s' => Some (Returned, s')
    | Stop _ s' => Some (Asleep, s')
    | _ => None
    end
  | Interrupt =>
    match ideintr spins (s <| disk ::= fun d => d <| ports ::= finish |> |>) with
    | Ret _ s' => Some (Woken (drop (length (wakes s)) (wakes s')), s')
    | _ => None
    end
  | Again i =>
    match iderw_again i s with
    | Ret _ s' => Some (Returned, s')
    | Stop _ s' => Some (Asleep, s')
    | _ => None
    end
  end.

Fixpoint session (es : list request) s : option (list answer * fsys (ide H)) :=
  match es with
  | [] => Some ([], s)
  | e :: es' =>
    '(r, s1) ← happens e s;
    '(rs, s2) ← session es' s1;
    Some (r :: rs, s2)
  end.

(** A buffer whose request can be served. *)
Record waiting (b : buf) : Prop := {
  wt_undone : synced b = false;
  wt_block : 0 <= blockno b < FSSIZE;
  wt_data : length (bdata b) = Z.to_nat BSIZE
}.

(** What a caller of iderw keeps: it holds the buffer's lock, there is something to
    do, and the disk is there. *)
Definition allowed (disk1 : Z) (e : request) : Prop :=
  match e with
  | Call pid i b =>
    waiting b /\ (bdev b = 0 \/ c_true disk1 = true) /\
    sl_lk (block b) = false /\ c_true (sl_locked (block b)) = true /\ sl_pid (block b) = pid
  | _ => True
  end.

(** The list the queue is. *)
Fixpoint chain (bs : list buf) (p : option nat) (l : list nat) : Prop :=
  match l with
  | [] => p = None
  | i :: l' => p = Some i /\ exists b, bs !! i = Some b /\ chain bs (bqnext b) l'
  end.

(** What the disk does for a buffer. *)
Definition working (b : buf) : ata_state :=
  if is_write b then Writing (on_drive b) (blockno b) (bdata b) else Reading (on_drive b) (blockno b).

Definition hw s : ata := view (ports (disk s)).

Record serving (disk1 : Z) s (a : server) : Prop := {
  sv_disk1 : havedisk1 (disk s) = disk1;
  sv_lock : idelock (disk s) = false;
  sv_chain : chain (bufs s) (idequeue (disk s)) (r_queue a);
  sv_bufs : r_bufs a = plain <$> bufs s;
  sv_nodup : NoDup (r_queue a);
  sv_waiting : Forall (fun i => exists b, bufs s !! i = Some b /\ waiting b) (r_queue a);
  sv_disk : a_disk (hw s) = r_disk a;
  sv_state : match r_queue a with
             | [] => a_state (hw s) = Idle
             | i :: _ => exists b, bufs s !! i = Some b /\ a_state (hw s) = working b
             end
}.

(** ** The ports *)

Definition setp (h : H) s : fsys (ide H) := s <| disk ::= fun d => d <| ports := h |> |>.

Lemma setp_setp h h' s : setp h (setp h' s) = setp h s.
Proof. by destruct s as [? ? []]. Qed.
Lemma setp_id s : setp (ports (disk s)) s = s.
Proof. by destruct s as [? ? []]. Qed.

Lemma inb_run p s : inb p s = Ret (io_inb p (ports (disk s))).1 (setp (io_inb p (ports (disk s))).2 s).
Proof. done. Qed.
Lemma outb_run p v s : outb p v s = Ret tt (setp (io_outb p (u8 v) (ports (disk s))) s).
Proof. unfold outb, upd_ide, modify, setp. by destruct s as [? ? []]. Qed.
Lemma insl_run p n s : insl p n s = Ret (io_insl p n (ports (disk s))).1 (setp (io_insl p n (ports (disk s))).2 s).
Proof. done. Qed.
Lemma outsl_run p l s : outsl p l s = Ret tt (setp (io_outsl p l (ports (disk s))) s).
Proof. unfold outsl, upd_ide, modify, setp. by destruct s as [? ? []]. Qed.

Lemma polls_view k h : view (polls k h).2 = view h.
Proof. revert h. induction k as [|k IH]; intros h; cbn [polls]; [apply ata_status|]. by rewrite IH, ata_status. Qed.

(** A poll ends with a status the disk has shown. *)
Lemma poll_run n k s :
  (k < n)%nat -> Z.land (polls k (ports (disk s))).1 (Z.lor IDE_BSY IDE_DRDY) = IDE_DRDY ->
  exists j, ide_poll n s = Ret (polls j (ports (disk s))).1 (setp (polls j (ports (disk s))).2 s).
Proof.
  revert n s. induction k as [|k IH]; intros [|n] s Hk Hr; try lia; cbn [ide_poll]; runs1 (inb_run 0x1f7 s).
  - exists O. cbn [polls] in *. by rewrite Hr.
  - destruct (Z.eqb_spec (Z.land (io_inb 0x1f7 (ports (disk s))).1 (Z.lor IDE_BSY IDE_DRDY)) IDE_DRDY); [by exists O|].
    destruct (IH n (setp (io_inb 0x1f7 (ports (disk s))).2 s)) as [j Hj]; [lia|done|]. exists (S j). by rewrite Hj, setp_setp.
Qed.

Lemma idewait_run c s :
  a_state (hw s) = Idle \/ (exists l, a_state (hw s) = Offering l) ->
  exists h r, idewait spins c s = Ret r (setp h s) /\ view h = hw s /\
    ((exists l, a_state (hw s) = Offering l) -> r = 0).
Proof.
  intros Hs. destruct (ata_ready _ Hs) as (k & Hk & Hr). destruct (poll_run _ _ _ Hk Hr) as [j Hj].
  unfold idewait. runs1 Hj. exists (polls j (ports (disk s))).2.
  destruct (c_true c && _) eqn:Hc; eexists; (split; [done|]); (split; [apply polls_view|]); [|done].
  intros [l Hl]. apply andb_prop in Hc as [_ Hc]. by rewrite (ata_error _ _ _ Hl) in Hc.
Qed.

(** ** Starting the disk *)

Lemma byte_split x : 0 <= x < FSSIZE ->
  u8 (Z.land x 0xff) + 2 ^ 8 * u8 (Z.land (Z.shiftr x 8) 0xff) + 2 ^ 16 * u8 (Z.land (Z.shiftr x 16) 0xff) = x /\
  Z.shiftr x 24 = 0.
Proof.
  unfold FSSIZE, u8. intros Hx. change 0xff with (Z.ones 8). rewrite !Z.land_ones, !Z.shiftr_div_pow2 by lia.
  rewrite !Z.mod_mod by lia. split; Z.div_mod_to_equations; lia.
Qed.

Lemma drive_byte dev : exists v,
  u8 (Z.lor (Z.lor 0xe0 (Z.shiftl (Z.land dev 1) 4)) (Z.land 0 0x0f)) = v /\
  Z.testbit v 4 = negb (Z.land dev 1 =? 0) /\ Z.testbit v 6 = true /\ v mod 16 = 0.
Proof.
  change 1 with (Z.ones 1) at 1 2. rewrite Z.land_ones by lia. pose proof (Z.mod_pos_bound dev (2 ^ 1)).
  assert (dev mod 2 ^ 1 = 0 \/ dev mod 2 ^ 1 = 1) as [-> | ->] by lia; by eexists.
Qed.

Lemma outb_bind {B} p v (k : M _ _ B) h s : (outb p v;; k) (setp h s) = k (setp (io_outb p (u8 v) h) s).
Proof. runs1 (outb_run p v (setp h s)). by rewrite setp_setp. Qed.

(** The registers after the six writes before the command. *)
Definition selected (b : buf) (h : H) : H :=
  let sector := blockno b in
  io_outb 0x1f6 (u8 (Z.lor (Z.lor 0xe0 (Z.shiftl (Z.land (bdev b) 1) 4)) (Z.land (Z.shiftr sector 24) 0x0f)))
    (io_outb 0x1f5 (u8 (Z.land (Z.shiftr sector 16) 0xff)) (io_outb 0x1f4 (u8 (Z.land (Z.shiftr sector 8) 0xff))
      (io_outb 0x1f3 (u8 (Z.land sector 0xff)) (io_outb 0x1f2 (u8 1) (io_outb 0x3f6 (u8 0) h))))).

Lemma selected_view b h : 0 <= blockno b < FSSIZE -> exists r,
  view (selected b h) = view h <| a_regs := r |> /\ r 0x1f2 = 1 /\ Z.testbit (r 0x1f6) 6 = true /\
  a_drive r = on_drive b /\ a_lba r = blockno b.
Proof.
  intros Hb. destruct (byte_split _ Hb) as [Hx H24]. unfold selected. cbv zeta. rewrite H24.
  destruct (drive_byte (bdev b)) as (v & -> & H4 & H6 & H16).
  do 5 (rewrite ata_reg by set_solver). rewrite ata_control. eexists. split; [reflexivity|]. unfold a_drive, a_lba, set_reg. cbn -[Z.mul Z.add Z.pow].
  split; [done|]. split; [done|]. split; [done|]. rewrite H16. lia.
Qed.

Lemma idestart_run i b s :
  bufs s !! i = Some b -> waiting b -> a_state (hw s) = Idle ->
  exists h, idestart spins (Some i) s = Ret tt (setp h s) /\ a_disk (view h) = a_disk (hw s) /\ a_state (view h) = working b.
Proof.
  intros Hb [_ Hn Hl] Hi. unfold idestart. runs1 (buf_at_run _ _ _ Hb). rewrite (proj2 (Z.leb_gt _ _)) by lia. cbv zeta.
  change (BSIZE / SECTOR_SIZE) with 1. change (7 <? 1) with false. cbv iota.
  destruct (idewait_run 0 s (or_introl Hi)) as (h & r & E & Hv & _). runs1 E. rewrite !outb_bind.
  assert (Hs : s32 (blockno b * 1) = blockno b) by (unfold FSSIZE in Hn; rewrite Z.mul_1_r, s32_small; lia). rewrite Hs.
  fold (selected b h). destruct (selected_view b h Hn) as (rg & Hr & H1 & H6 & Hd & Hlba). rewrite Hv in Hr. unfold hw in *.
  unfold working, is_write, BSIZE in *. destruct (c_true _); [|rewrite outb_run, setp_setp].
  - assert (Hsub : sub 0 (Z.to_nat 512) (bdata b) = Some (bdata b)).
    { unfold sub. rewrite decide_True by lia. by rewrite <-Hl, drop_0, firstn_all. }
    assert (Hw : view (io_outb 0x1f7 IDE_CMD_WRITE (selected b h)) =
      view (ports (disk s)) <| a_regs := rg |> <| a_state := Accepting (on_drive b) (blockno b) |>).
    { rewrite ata_write; rewrite Hr; try done. by rewrite <-Hd, <-Hlba. }
    rewrite outb_bind, Hsub. unfold orUndef. rewrite bind_deref, outsl_run, setp_setp. eexists. split; [done|].
    change (ports (disk (setp _ s))) with (io_outb 0x1f7 IDE_CMD_WRITE (selected b h)).
    rewrite (ata_data _ (on_drive b) (blockno b)); [|by rewrite Hw|by rewrite Hl]. by rewrite Hw.
  - eexists. split; [done|]. change (u8 IDE_CMD_READ) with IDE_CMD_READ. change (ports (disk (setp _ s))) with (selected b h).
    rewrite ata_read; rewrite ?Hr; try done. by rewrite <-Hd, <-Hlba.
Qed.
End Runs.
