(* ===== verification/IdeTheorems.v ===== *)
(** * The IDE driver: calls, interrupts, sessions

    Each operation of ide.c, from a state in which the driver serves its queue, does
    what the server does and leads to such a state again; so do calls, interrupts and
    resumed threads in any order, and every request is served. *)
From S2P Require Import Prelude Bytes Memory Spinlock ProcDefs Kalloc FsDefs BioSpec Ide IdeSpec.
Local Open Scope Z_scope.
Local Open Scope kernel_scope.

Section Queue.
Context {H : Type} `{Ports H} {spins : nat} `{!AtaDisk H spins}.
Implicit Types (s : fsys (ide H)) (bs : list buf).

(** ** The linked queue *)

Lemma chain_out i b bs p l : i ∉ l -> chain bs p l -> chain (<[i := b]> bs) p l.
Proof.
  revert p. induction l as [|j l IH]; intros p Hi; [done|]. apply not_elem_of_cons in Hi as [Hj Hi].
  intros [-> (c & Hc & Hl)]. split; [done|]. exists c. rewrite list_lookup_insert_ne by done. auto.
Qed.

Lemma chain_link i j bi bj bs p l :
  NoDup (l ++ [j]) -> i ∉ l ++ [j] -> bs !! j = Some bj -> bs !! i = Some bi -> bqnext bi = None ->
  chain bs p (l ++ [j]) -> chain (<[j := bj <| bqnext := Some i |>]> bs) p (l ++ [j; i]).
Proof.
  intros Hnd Hi Hj Hbi Hq. revert p Hnd Hi. induction l as [|k l IH]; intros p Hnd Hi; cbn [app chain].
  - intros [-> _]. split; [done|]. eexists. rewrite list_lookup_insert_eq by (by eapply lookup_lt_Some). split; [done|].
    split; [done|]. exists bi. rewrite list_lookup_insert_ne by set_solver. done.
  - intros [-> (c & Hc & Hl)]. split; [done|]. exists c. apply NoDup_cons in Hnd as [Hk Hnd].
    rewrite list_lookup_insert_ne by set_solver. split; [done|]. apply IH; [done|set_solver|done].
Qed.

Lemma chain_lookup bs p l i : chain bs p l -> i ∈ l -> exists b, bs !! i = Some b.
Proof.
  revert p. induction l as [|j l IH]; intros p; [set_solver|]. intros [_ (b & Hb & Hl)] [->|Hi]%elem_of_cons; eauto.
Qed.

(** The queue is no longer than the cache. *)
Lemma chain_short bs p l : NoDup l -> chain bs p l -> (length l <= length bs)%nat.
Proof.
  intros Hnd Hc. rewrite <-(length_seq (length bs) 0). apply submseteq_length, NoDup_submseteq; [done|].
  intros i Hi. destruct (chain_lookup _ _ _ _ Hc Hi) as [b Hb]. apply elem_of_seq. apply lookup_lt_Some in Hb. lia.
Qed.

Lemma queue_end_run n pp p l s :
  link_get pp s = Ret p s -> chain (bufs s) p l -> (length l <= n)%nat ->
  queue_end n pp s = Ret (match last l with Some j => LNext j | None => pp end) s.
Proof.
  revert n pp p. induction l as [|i l IH]; intros n pp p Hp Hc Hn.
  - cbn in Hc. subst p. destruct n; cbn [queue_end]; by runs1 Hp.
  - destruct Hc as [-> (b & Hb & Hl)]. destruct n as [|n]; [cbn in Hn; lia|]. cbn [queue_end]. runs1 Hp.
    rewrite (IH n (LNext i) (bqnext b)); [|cbn; by runs1 (buf_at_run _ _ _ Hb)|done|cbn in Hn; lia].
    rewrite last_cons. by destruct (last l).
Qed.

(** ** States *)

(** The parts of the state that the driver changes. *)
Definition at_work s bs (lk : bool) (q : option nat) (h : H) : fsys (ide H) :=
  s <| bufs := bs |> <| disk := Ide lk q (havedisk1 (disk s)) h |>.

Lemma at_work_self s : at_work s (bufs s) (idelock (disk s)) (idequeue (disk s)) (ports (disk s)) = s.
Proof. by destruct s as [? ? []]. Qed.

Lemma acquire_run s bs q h : ide_acquire (at_work s bs false q h) = Ret tt (at_work s bs true q h).
Proof. done. Qed.
Lemma release_run s bs q h : ide_release (at_work s bs true q h) = Ret tt (at_work s bs false q h).
Proof. done. Qed.
Lemma set_buf_run i b f s bs lk q h :
  bs !! i = Some b -> upd_buf i f (at_work s bs lk q h) = Ret tt (at_work s (<[i := f b]> bs) lk q h).
Proof. intros Hb. by rewrite (upd_buf_run (at_work s bs lk q h) i b f Hb). Qed.

Lemma wait_run i b s bs q h :
  bs !! i = Some b ->
  iderw_wait i (at_work s bs true q h) =
    if synced b then Ret tt (at_work s bs false q h) else Stop (ABuf i) (at_work s bs false q h).
Proof.
  intros Hb. unfold iderw_wait. runs1 (buf_at_run (at_work s bs true q h) i b Hb). unfold synced. destruct (_ =? _); [done|].
  by runs1 (release_run s bs q h).
Qed.

Lemma start_run i b s bs lk q h :
  bs !! i = Some b -> waiting b -> a_state (view h) = Idle ->
  exists h', idestart spins (Some i) (at_work s bs lk q h) = Ret tt (at_work s bs lk q h') /\
    a_disk (view h') = a_disk (view h) /\ a_state (view h') = working b.
Proof. intros Hb Hw Hi. exact (idestart_run i b (at_work s bs lk q h) Hb Hw Hi). Qed.

(** ** A call of iderw *)

Lemma plain_link bs j b x : bs !! j = Some b -> plain <$> <[j := b <| bqnext := x |>]> bs = plain <$> bs.
Proof. intros Hb. rewrite list_fmap_insert. apply list_insert_id. by rewrite list_lookup_fmap, Hb. Qed.

Lemma waiting_link b x : waiting b -> waiting (b <| bqnext := x |>).
Proof. by intros []. Qed.

(** Appending buffer [i] to the queue: the links, and the chain. *)
Lemma append_run i b l s bs q h :
  bs !! i = Some b -> i ∉ l -> NoDup l -> chain bs q l ->
  exists bs' q',
    ide_append i (at_work s bs true q h) = Ret tt (at_work s bs' true q' h) /\
    chain bs' q' (l ++ [i]) /\ plain <$> bs' = plain <$> bs /\ q' = (if decide (l = []) then Some i else q).
Proof.
  intros Hb Hi Hnd Hc. set (bs1 := <[i := b <| bqnext := None |>]> bs).
  assert (Hb1 : bs1 !! i = Some (b <| bqnext := None |>)) by (apply list_lookup_insert_eq; by eapply lookup_lt_Some).
  assert (Hc1 : chain bs1 q l) by (by apply chain_out). unfold ide_append. runs1 (set_buf_run i b (fun b => b <| bqnext := None |>) s bs true q h Hb).
  fold bs1. rewrite bind_gets.
  assert (E : queue_end (length bs1) LQueue (at_work s bs1 true q h) =
              Ret (match last l with Some j => LNext j | None => LQueue end) (at_work s bs1 true q h)).
  { apply (queue_end_run _ LQueue q); [done|exact Hc1|by eapply chain_short]. }
  runs1 E. destruct l as [|j l _] using rev_ind.
  - exists bs1, (Some i). split; [done|]. split; [split; [done|by eexists]|]. split; [by apply plain_link|done].
  - destruct (chain_lookup _ _ _ j Hc1) as [bj Hj]; [set_solver|]. rewrite last_snoc.
    exists (<[j := bj <| bqnext := Some i |>]> bs1), q. split; [by apply set_buf_run|].
    rewrite <-app_assoc. split; [by eapply chain_link|]. split; [rewrite plain_link by done; by apply plain_link|]. rewrite decide_False; [done|by destruct l].
Qed.

Lemma plain_lookup bs bs' i b :
  plain <$> bs' = plain <$> bs -> bs !! i = Some b -> exists x, bs' !! i = Some (b <| bqnext := x |>).
Proof.
  intros Hp Hb. assert (Hl : (plain <$> bs') !! i = Some (plain b)) by (by rewrite Hp, list_lookup_fmap, Hb).
  rewrite list_lookup_fmap in Hl. apply fmap_Some in Hl as (b' & Hb' & E). exists (bqnext b'). rewrite Hb'. f_equal.
  destruct b, b'. unfold plain in E. cbn in *. congruence.
Qed.

Lemma working_link b x : working (b <| bqnext := x |>) = working b.
Proof. done. Qed.

Lemma serving_bufs disk1 s a bs' q' h' lk :
  serving disk1 s a -> plain <$> bs' = plain <$> bufs s -> chain bs' q' (r_queue a) -> lk = false ->
  view h' = hw s -> serving disk1 (at_work s bs' lk q' h') a.
Proof.
  intros [H1 Hlk Hc Hb Hnd Hw Hd Hs] Hp Hc' -> Hv. split; try done.
  - cbn. congruence.
  - eapply Forall_impl; [exact Hw|]. intros i (b & Hb1 & Hb2). destruct (plain_lookup _ bs' _ _ Hp Hb1) as [x Hx]. eexists. split; [exact Hx|by apply waiting_link].
  - unfold hw. cbn. by rewrite Hv.
  - unfold hw in *. cbn. rewrite Hv. destruct (r_queue a); [done|]. destruct Hs as (b & Hb1 & Hb2).
    destruct (plain_lookup _ bs' _ _ Hp Hb1) as [x Hx]. by eexists.
Qed.

(** A thread changes a buffer that is not in the queue. *)
Definition touch (pid : Z) (i : nat) (b : buf) s : fsys (ide H) :=
  s <| cur ::= fun c => c <| c_pid := pid |> |> <| bufs ::= <[i := b]> |>.

Lemma serving_touch disk1 s a pid i b :
  serving disk1 s a -> i ∉ r_queue a ->
  serving disk1 (touch pid i b s) (Server (r_queue a) (<[i := plain b]> (r_bufs a)) (r_disk a)).
Proof.
  intros [H1 Hlk Hc Hb Hnd Hw Hd Hs] Hi. split; try done; cbn.
  - by apply chain_out.
  - by rewrite list_fmap_insert, Hb.
  - apply Forall_forall. intros j Hj. rewrite Forall_forall in Hw. rewrite list_lookup_insert_ne by set_solver. by apply Hw.
  - unfold hw in *. cbn. destruct (r_queue a) as [|j l]; [done|]. rewrite list_lookup_insert_ne by set_solver. done.
Qed.

Lemma serving_append disk1 s a i b bs' q' h' :
  serving disk1 s a -> i ∉ r_queue a -> bufs s !! i = Some b -> waiting b ->
  plain <$> bs' = plain <$> bufs s -> chain bs' q' (r_queue a ++ [i]) ->
  a_disk (view h') = a_disk (hw s) ->
  a_state (view h') = (if decide (r_queue a = []) then working b else a_state (hw s)) ->
  serving disk1 (at_work s bs' false q' h') (Server (r_queue a ++ [i]) (r_bufs a) (r_disk a)).
Proof.
  intros [H1 Hlk Hc Hb Hnd Hw Hd Hs] Hi Hbi Hwb Hp Hc' Hd' Hs'.
  assert (Hkeep : forall j c, bufs s !! j = Some c -> waiting c -> exists c', bs' !! j = Some c' /\ waiting c').
  { intros j c Hj Hwc. destruct (plain_lookup _ bs' _ _ Hp Hj) as [x Hx]. eexists. split; [exact Hx|by apply waiting_link]. }
  split; try done; cbn.
  - congruence.
  - apply NoDup_app. split; [done|]. split; [set_solver|apply NoDup_singleton].
  - apply Forall_app. split; [|apply Forall_singleton; eauto]. eapply Forall_impl; [exact Hw|]. intros j (c & ? & ?). eauto.
  - unfold hw in *. cbn. congruence.
  - unfold hw in *. cbn. destruct (r_queue a) as [|j l]; cbn in *.
    + destruct (plain_lookup _ bs' _ _ Hp Hbi) as [x Hx]. by eexists.
    + destruct Hs as (c & Hj & Hst). destruct (plain_lookup _ bs' _ _ Hp Hj) as [x Hx]. eexists. split; [exact Hx|]. by rewrite Hs'.
Qed.

Lemma call_runs disk1 s a me i b r a' :
  serving disk1 s a -> allowed disk1 (Call me i b) -> server_step (Call me i b) a = Some (r, a') ->
  exists s', happens (spins := spins) (Call me i b) s = Some (r, s') /\ serving disk1 s' a'.
Proof.
  intros Hsv (Hw & Hdev & Hlk & Hlc & Hpid) Hstep. cbn [server_step] in Hstep.
  destruct (decide _) as [|Hn]; [done|]. injection Hstep as <- <-.
  assert ((i ∉ r_queue a) /\ (i < length (r_bufs a))%nat) as [Hi Hlen] by (split; [tauto|lia]). cbn [happens]. fold (touch me i b s). pose proof (serving_touch _ _ _ me i b Hsv Hi) as Hsv1.
  set (s1 := touch me i b s) in *. assert (Hb : bufs s1 !! i = Some b).
  { apply list_lookup_insert_eq. by rewrite (sv_bufs _ _ _ Hsv), length_fmap in Hlen. }
  pose proof Hsv1 as [Hd1 Hlk1 Hc1 Hb1 Hnd1 Hw1 Hdk1 Hs1]. cbn [r_queue r_bufs r_disk] in *.
  unfold ide_iderw. assert (Hh : holdingsleep (BufLock i) s1 = Ret (c_true (sl_locked (block b)) && (sl_pid (block b) =? c_pid (cur s1))) s1).
  { apply holdingsleep_run; [|done]. cbn [slock_get]. by rewrite Hb. }
  runs1 Hh. rewrite Hlc, Hpid. change (c_pid (cur s1)) with me. rewrite Z.eqb_refl. cbn [andb negb].
  runs1 (buf_at_run _ _ _ Hb). fold (synced b). rewrite (wt_undone _ Hw). rewrite bind_gets.
  assert (Hdisk : negb (bdev b =? 0) && negb (c_true (havedisk1 (disk s1))) = false).
  { rewrite Hd1. destruct Hdev as [-> | ->]; [done|apply andb_false_r]. }
  rewrite Hdisk. rewrite <-(at_work_self s1), Hlk1. runs1 (acquire_run s1 (bufs s1) (idequeue (disk s1)) (ports (disk s1))).
  destruct (append_run i b (r_queue a) s1 (bufs s1) (idequeue (disk s1)) (ports (disk s1)) Hb Hi Hnd1 Hc1) as (bs' & q' & E & Hc' & Hp & Hq).
  runs1 E. rewrite bind_gets. change (idequeue (disk (at_work s1 bs' true q' _))) with q'.
  destruct (plain_lookup _ bs' _ _ Hp Hb) as [x Hx].
  assert (Hst : exists h', (if bool_decide (q' = Some i) then idestart spins (Some i) else ret tt) (at_work s1 bs' true q' (ports (disk s1))) =
      Ret tt (at_work s1 bs' true q' h') /\ a_disk (view h') = a_disk (hw s1) /\
      a_state (view h') = (if decide (r_queue a = []) then working b else a_state (hw s1))).
  { destruct (decide (r_queue a = [])) as [Hnil|Hnil].
    - rewrite Hq, bool_decide_true by done. rewrite Hnil in Hs1.
      destruct (start_run i _ s1 bs' true (Some i) (ports (disk s1)) Hx (waiting_link _ _ Hw) Hs1) as (h' & E' & ? & ?). by exists h'.
    - rewrite bool_decide_false; [by eexists|]. rewrite Hq. destruct (r_queue a); [done|]. destruct Hc1 as [-> _]. intros [= ->]. set_solver. }
  destruct Hst as (h' & E' & Hd' & Hst'). runs1 E'. rewrite (wait_run i _ s1 bs' q' h' Hx).
  change (synced (b <| bqnext := x |>)) with (synced b). rewrite (wt_undone _ Hw). eexists. split; [done|].
  exact (serving_append _ _ _ i b bs' q' h' Hsv1 Hi Hb Hw Hp Hc' Hd' Hst').
Qed.

(** ** An interrupt *)

Lemma synced_flags f : Z.land (Z.land (Z.lor f B_VALID) (Z.lnot B_DIRTY)) (Z.lor B_VALID B_DIRTY) = B_VALID.
Proof.
  apply Z.bits_inj'. intros n Hn. rewrite !Z.land_spec, !Z.lor_spec, Z.lnot_spec by done. unfold B_VALID, B_DIRTY.
  change 2 with (2 ^ 1). change 4 with (2 ^ 2). rewrite !Z.pow2_bits_eqb by lia.
  destruct (Z.eqb_spec 1 n), (Z.eqb_spec 2 n), (Z.testbit f n); (lia || done).
Qed.

(** The buffer the interrupt is for: its data is read, and its flags are set. *)
Lemma intr_sync i b s bs q h :
  bs !! i = Some b -> is_write b = false -> a_state (view h) = Offering (a_disk (view h) (on_drive b) (blockno b)) ->
  exists h', (do r <- idewait spins 1;
     if 0 <=? r then do l <- insl 0x1f0 (BSIZE / 4); upd_buf i (fun b => b <| bdata := l |>) else ret tt) (at_work s bs true q h) =
    Ret tt (at_work s (<[i := b <| bdata := a_disk (view h) (on_drive b) (blockno b) |>]> bs) true q h') /\
    view h' = view h <| a_state := Idle |>.
Proof.
  intros Hb Hr Hs. assert (Ho : exists l, a_state (hw (at_work s bs true q h)) = Offering l) by (by eexists).
  destruct (idewait_run 1 (at_work s bs true q h) (or_intror Ho)) as (h1 & r & E & Hv & Hr0). runs1 E. rewrite (Hr0 Ho). cbn [Z.leb Z.compare].
  change (setp h1 (at_work s bs true q h)) with (at_work s bs true q h1). runs1 (insl_run 0x1f0 (BSIZE / 4) (at_work s bs true q h1)).
  change (setp ?h2 (at_work s bs true q h1)) with (at_work s bs true q h2). change (ports (disk (at_work s bs true q h1))) with h1.
  change (hw (at_work s bs true q h)) with (view h) in Hv. destruct (ata_offer h1 (a_disk (view h) (on_drive b) (blockno b))) as [Hl Hv1]; [by rewrite Hv|].
  rewrite Hl, (set_buf_run i b) by done. eexists. split; [done|]. by rewrite Hv1, Hv.
Qed.

(** The buffer's part of the handler. *)
Lemma intr_buf {A} i b s bs q h (k : M (fsys (ide H)) kaddr A) :
  bs !! i = Some b -> a_state (view h) = (if is_write b then Idle else Offering (a_disk (view h) (on_drive b) (blockno b))) ->
  exists h', (
    (if c_true (Z.land (bflags b) B_DIRTY) then ret tt
     else do r <- idewait spins 1;
       if 0 <=? r then do l <- insl 0x1f0 (BSIZE / 4); upd_buf i (fun b => b <| bdata := l |>) else ret tt);;
    upd_buf i (fun b => b <| bflags ::= fun f => Z.lor f B_VALID |>);;
    upd_buf i (fun b => b <| bflags ::= fun f => Z.land f (Z.lnot B_DIRTY) |>);; k) (at_work s bs true q h) =
    k (at_work s (<[i := (sync b (a_disk (view h))).1]> bs) true q h') /\
    a_state (view h') = Idle /\ a_disk (view h') = a_disk (view h).
Proof.
  intros Hb Hs. assert (Hlt := lookup_lt_Some _ _ _ Hb). fold (is_write b). unfold sync. destruct (is_write b) eqn:Hw.
  - exists h. rewrite bind_ret. runs1 (set_buf_run i b (fun b => b <| bflags ::= fun f => Z.lor f B_VALID |>) s bs true q h Hb).
    erewrite bind_ret_eq; [|apply set_buf_run; by apply list_lookup_insert_eq]. split; [|done]. by rewrite list_insert_insert_eq.
  - destruct (intr_sync i b s bs q h Hb Hw Hs) as (h' & E & Hv). runs1 E. exists h'.
    erewrite bind_ret_eq; [|apply set_buf_run; by apply list_lookup_insert_eq].
    erewrite bind_ret_eq; [|apply set_buf_run; apply list_lookup_insert_eq; by rewrite length_insert].
    rewrite !list_insert_insert_eq, Hv. split; [by destruct b|done].
Qed.

Lemma finish_head s a i l disk1 :
  serving disk1 s a -> r_queue a = i :: l -> exists b, bufs s !! i = Some b /\ waiting b /\
    chain (bufs s) (bqnext b) l /\ idequeue (disk s) = Some i /\
    view (finish (ports (disk s))) = hw s <| a_state := if is_write b then Idle else Offering (a_disk (hw s) (on_drive b) (blockno b)) |>
                                          <| a_disk := (sync b (a_disk (hw s))).2 |>.
Proof.
  intros [H1 Hlk Hc Hb Hnd Hw Hd Hs] Hq. rewrite Hq in *. destruct Hs as (b & Hbi & Hst). exists b. split; [done|].
  apply Forall_cons in Hw as [(b' & Hb' & Hwb) _].
  assert (b' = b) as -> by congruence. split; [done|]. destruct Hc as [Hqi (b2 & Hb2 & Hc)]. assert (b2 = b) as -> by congruence.
  split; [done|]. split; [done|]. rewrite ata_done. unfold hw, a_done, working, sync in *. rewrite Hst.
  by destruct (is_write b), (view _).
Qed.

Lemma sync_plain b m : sync (plain b) m = (plain (sync b m).1, (sync b m).2).
Proof. unfold sync. change (is_write (plain b)) with (is_write b). by destruct (is_write b). Qed.

Lemma serving_pop disk1 s a i l b h' :
  serving disk1 s a -> r_queue a = i :: l -> bufs s !! i = Some b -> chain (bufs s) (bqnext b) l ->
  a_disk (view h') = (sync b (r_disk a)).2 ->
  match l with
  | [] => a_state (view h') = Idle
  | j :: _ => exists c, bufs s !! j = Some c /\ a_state (view h') = working c
  end ->
  serving disk1 (at_work s (<[i := (sync b (r_disk a)).1]> (bufs s)) false (bqnext b) h')
    (Server l (<[i := (sync (plain b) (r_disk a)).1]> (r_bufs a)) (sync (plain b) (r_disk a)).2).
Proof.
  intros [H1 Hlk Hc Hb Hnd Hw Hd Hs] Hq Hbi Hl Hd' Hs'. rewrite Hq in *. apply NoDup_cons in Hnd as [Hi Hnd].
  rewrite sync_plain. destruct (sync b (r_disk a)) as [b' m']. split; try done; cbn.
  - by apply chain_out.
  - by rewrite list_fmap_insert, Hb.
  - apply Forall_cons in Hw as [_ Hw]. rewrite Forall_forall in Hw |- *. intros j Hj. rewrite list_lookup_insert_ne by set_solver. auto.
  - unfold hw. cbn. destruct l as [|j l]; [done|]. destruct Hs' as (c & Hj & Hc'). exists c. rewrite list_lookup_insert_ne by set_solver. done.
Qed.

(** The next buffer's part of the handler. *)
Lemma intr_next j s bs q h :
  (match j with Some j => exists c, bs !! j = Some c /\ waiting c | None => True end) -> a_state (view h) = Idle ->
  exists h', (match j with Some j => idestart spins (Some j) | None => ret tt end;; ide_release) (at_work s bs true q h) =
      Ret tt (at_work s bs false q h') /\ a_disk (view h') = a_disk (view h) /\
    match j with Some j => exists c, bs !! j = Some c /\ a_state (view h') = working c | None => a_state (view h') = Idle end.
Proof.
  destruct j as [j|]; [intros (c & Hj & Hw) Hi|intros _ Hi].
  - destruct (start_run j c s bs true q h Hj Hw Hi) as (h' & E & Hd & Hs). runs1 E. exists h'. rewrite release_run. eauto.
  - exists h. rewrite bind_ret, release_run. done.
Qed.

Lemma sync_sync b m : (sync b (sync b m).2).1 = (sync b m).1.
Proof. unfold sync. by destruct (is_write b). Qed.

Lemma serving_wakes disk1 s a w : serving disk1 s a -> serving disk1 (s <| wakes ::= fun l => l ++ [w] |>) a.
Proof. by intros []. Qed.

(** The buffer after the first. *)
Lemma next_waiting disk1 s a i l b b' :
  serving disk1 s a -> r_queue a = i :: l -> chain (bufs s) (bqnext b) l ->
  match bqnext b with Some j => exists c, <[i := b']> (bufs s) !! j = Some c /\ waiting c | None => True end.
Proof.
  intros [H1 Hlk _ Hb Hnd Hw Hd Hs] Hq Hc. rewrite Hq in *. destruct l as [|j l]; cbn in Hc; [by rewrite Hc|].
  destruct Hc as [-> _]. apply NoDup_cons in Hnd as [Hi _]. rewrite list_lookup_insert_ne by set_solver.
  apply Forall_cons in Hw as [_ Hw]. by apply Forall_cons in Hw as [Hw _].
Qed.

Definition woken (i : nat) s : fsys (ide H) := s <| wakes ::= fun l => l ++ [ABuf i] |>.

(** The handler for the first buffer of the queue. *)
Lemma intr_head disk1 s a i l :
  serving disk1 s a -> r_queue a = i :: l ->
  exists b h', bufs s !! i = Some b /\
    let s' := at_work (woken i s) (<[i := (sync b (r_disk a)).1]> (bufs s)) false (bqnext b) h' in
    ideintr spins (at_work s (bufs s) false (idequeue (disk s)) (finish (ports (disk s)))) = Ret tt s' /\
    serving disk1 s' (Server l (<[i := (sync (plain b) (r_disk a)).1]> (r_bufs a)) (sync (plain b) (r_disk a)).2).
Proof.
  intros Hsv Hq. destruct (finish_head _ _ _ _ _ Hsv Hq) as (b & Hb & Hw & Hc & Hqi & Hv). set (h := finish (ports (disk s))) in *.
  assert (Hh : a_disk (view h) = (sync b (r_disk a)).2) by (rewrite Hv, <-(sv_disk _ _ _ Hsv); done). exists b. rewrite Hqi.
  unfold ideintr. runs1 (acquire_run s (bufs s) (Some i) h). rewrite bind_gets.
  change (idequeue (disk (at_work s (bufs s) true ?q ?h))) with q. cbv iota.
  runs1 (buf_at_run (at_work s (bufs s) true (Some i) h) i b Hb). unfold upd_ide. rewrite bind_modify.
  change (at_work s (bufs s) true (Some i) ?h <| disk ::= _ |>) with (at_work s (bufs s) true (bqnext b) h).
  edestruct (intr_buf (A := unit) i b s (bufs s) (bqnext b) h) as (h1 & E1 & Hi1 & Hd1); [exact Hb|rewrite Hv; cbn; unfold sync; by destruct (is_write b)|].
  rewrite E1. clear E1. rewrite Hh, sync_sync. unfold wakeup. rewrite bind_modify, bind_gets. set (b' := (sync b (r_disk a)).1).
  change (at_work s ?bs true ?q ?h <| wakes ::= _ |>) with (at_work (woken i s) bs true q h).
  change (idequeue (disk (at_work (woken i s) ?bs true ?q ?h))) with q.
  destruct (intr_next (bqnext b) (woken i s) (<[i := b']> (bufs s)) (bqnext b) h1 (next_waiting _ _ _ _ _ _ b' Hsv Hq Hc) Hi1) as (h2 & E2 & Hd2 & Hs2).
  rewrite E2. exists h2. split; [done|]. split; [done|].
  refine (serving_pop disk1 (woken i s) a i l b h2 (serving_wakes _ _ _ _ Hsv) Hq Hb Hc _ _); [by rewrite Hd2, Hd1|].
  destruct l as [|j l]; cbn in Hc; [by rewrite Hc in Hs2|]. destruct Hc as [Hj _]. rewrite Hj in Hs2. destruct Hs2 as (c & Hc & Hst).
  pose proof (sv_nodup _ _ _ Hsv) as Hnd. rewrite Hq in Hnd. apply NoDup_cons in Hnd as [Hi _].
  rewrite list_lookup_insert_ne in Hc by set_solver. by exists c.
Qed.

Lemma intr_runs disk1 s a r a' :
  serving disk1 s a -> server_step Interrupt a = Some (r, a') ->
  exists s', happens (spins := spins) Interrupt s = Some (r, s') /\ serving disk1 s' a'.
Proof.
  intros Hsv Hstep. cbn [server_step happens] in *. pose proof (sv_lock _ _ _ Hsv) as Hlk.
  set (s0 := s <| disk ::= _ |>). assert (Hs0 : s0 = at_work s (bufs s) false (idequeue (disk s)) (finish (ports (disk s)))).
  { unfold s0, at_work. rewrite <-Hlk. by destruct s as [? ? []]. }
  rewrite Hs0. destruct (r_queue a) as [|i l] eqn:Hq.
  - injection Hstep as <- <-. pose proof (sv_chain _ _ _ Hsv) as Hc. rewrite Hq in Hc. cbn in Hc. rewrite Hc.
    unfold ideintr. runs1 (acquire_run s (bufs s) None (finish (ports (disk s)))). rewrite bind_gets. cbn [idequeue disk]. rewrite release_run.
    eexists. rewrite drop_all. split; [done|]. eapply serving_bufs; [done..|by rewrite Hq|done|].
    pose proof (sv_state _ _ _ Hsv) as Hst. rewrite Hq in Hst. rewrite ata_done. unfold a_done. fold (hw s). by rewrite Hst.
  - destruct (intr_head _ _ _ _ _ Hsv Hq) as (b & h' & Hb & E & Hsv'). rewrite E.
    rewrite (sv_bufs _ _ _ Hsv), list_lookup_fmap, Hb in Hstep. injection Hstep as <- <-. rewrite <-(sv_bufs _ _ _ Hsv).
    eexists. cbn [wakes]. change (wakes (at_work (woken i s) _ _ _ _)) with (wakes s ++ [ABuf i]). rewrite drop_app_length. done.
Qed.

Lemma again_runs disk1 s a i r a' :
  serving disk1 s a -> server_step (Again i) a = Some (r, a') ->
  exists s', happens (spins := spins) (Again i) s = Some (r, s') /\ serving disk1 s' a'.
Proof.
  intros Hsv Hstep. cbn [server_step happens] in *. rewrite (sv_bufs _ _ _ Hsv), list_lookup_fmap in Hstep.
  destruct (bufs s !! i) as [b|] eqn:Hb; [|done]. injection Hstep as <- <-. exists s. split; [|done].
  rewrite <-(at_work_self s), (sv_lock _ _ _ Hsv). unfold iderw_again. runs1 (acquire_run s (bufs s) (idequeue (disk s)) (ports (disk s))).
  rewrite (wait_run i b) by done. change (synced (plain b)) with (synced b). by destruct (synced b).
Qed.

Lemma step_runs disk1 s a e r a' :
  serving disk1 s a -> allowed disk1 e -> server_step e a = Some (r, a') ->
  exists s', happens (spins := spins) e s = Some (r, s') /\ serving disk1 s' a'.
Proof. destruct e; eauto using call_runs, intr_runs, again_runs. Qed.

Lemma session_runs disk1 es s a rs a' :
  serving disk1 s a -> Forall (allowed disk1) es -> server_run es a = Some (rs, a') ->
  exists s', session (spins := spins) es s = Some (rs, s') /\ serving disk1 s' a'.
Proof.
  intros Hs He. revert s a rs Hs. induction He as [|e es He _ IH]; intros s a rs Hs Hr; cbn [server_run session] in *; [simplify_eq; eauto|].
  destruct (server_step e a) as [[r a1]|] eqn:E1; [|done]. cbn in Hr.
  destruct (server_run es a1) as [[rs1 a2]|] eqn:E2; [|done]. cbn in Hr. simplify_eq.
  destruct (step_runs _ _ _ _ _ _ Hs He E1) as (s1 & -> & Hs1). cbn. destruct (IH s1 a1 rs1 Hs1 E2) as (s2 & -> & Hs2). eauto.
Qed.

(** Boot: the driver is ready when [ideinit] returns. *)
Lemma find_disk1_run n s : exists h d1,
  find_disk1 n s = Ret tt (s <| disk ::= fun d => d <| ports := h |> <| havedisk1 := d1 |> |>) /\ view h = hw s.
Proof.
  revert s. induction n as [|n IH]; intros s; cbn [find_disk1].
  - exists (ports (disk s)), (havedisk1 (disk s)). split; [|done]. by destruct s as [? ? []].
  - runs1 (inb_run 0x1f7 s). destruct (_ =? 0); cbn [negb].
    + destruct (IH (setp (io_inb 0x1f7 (ports (disk s))).2 s)) as (h & d1 & E & Hv). exists h, d1. rewrite E. split; [by destruct s as [? ? []]|].
      rewrite Hv. apply ata_status.
    + exists (io_inb 0x1f7 (ports (disk s))).2, 1. split; [by destruct s as [? ? []]|apply ata_status].
Qed.

Lemma drive_reg : 0x1f6 ∈ [0x1f2; 0x1f3; 0x1f4; 0x1f5; 0x1f6].
Proof. set_solver. Qed.

Lemma ideinit_serves s :
  idequeue (disk s) = None -> a_state (hw s) = Idle ->
  exists s', ideinit spins s = Ret tt s' /\ bufs s' = bufs s /\
    serving (havedisk1 (disk s')) s' (Server [] (plain <$> bufs s) (a_disk (hw s))).
Proof.
  intros Hq Hi. unfold ideinit, upd_ide. rewrite bind_modify. set (s1 := s <| disk ::= _ |>).
  destruct (idewait_run 0 s1 (or_introl Hi)) as (h1 & r & E1 & Hv1 & _). runs1 E1. rewrite outb_bind.
  set (h2 := io_outb 0x1f6 _ h1). destruct (find_disk1_run 1000 (setp h2 s1)) as (h3 & d1 & E3 & Hv3). runs1 E3. rewrite outb_run.
  assert (Hv2 : view h2 = hw s <| a_regs ::= set_reg 0x1f6 (u8 (Z.lor 0xe0 (Z.shiftl 1 4))) |>).
  { unfold h2. rewrite (ata_reg _ _ _ drive_reg). by rewrite Hv1. }
  change (hw (setp h2 s1)) with (view h2) in Hv3.
  eexists. split; [done|]. split; [done|]. 
  split; [done..|exact Hq|done|apply NoDup_nil_2|done| |]; unfold hw; cbn -[u8]; rewrite (ata_reg _ _ _ drive_reg); by rewrite Hv3, Hv2.
Qed.
End Queue.

(** ** Whole sessions *)

(** ** Every request is served *)

Lemma server_nodup e a r a' : server_step e a = Some (r, a') -> NoDup (r_queue a) -> NoDup (r_queue a').
Proof.
  destruct e as [me i b| |i]; cbn [server_step]; intros E Hn.
  - destruct (decide _); [done|]. simplify_eq. cbn. apply NoDup_app. split; [done|]. split; [set_solver|apply NoDup_singleton].
  - destruct (r_queue a) as [|i q] eqn:Hq; [simplify_eq; by rewrite Hq|]. destruct (r_bufs a !! i); [|done]. cbn in E. simplify_eq.
    by apply NoDup_cons in Hn as [_ Hn].
  - destruct (r_bufs a !! i); [|done]. cbn in E. by simplify_eq.
Qed.

Definition calls_for (i : nat) (e : request) : Prop := match e with Call _ j _ => j = i | _ => False end.
Definition is_interrupt (e : request) : bool := match e with Interrupt => true | _ => false end.
Definition interrupts (es : list request) : nat := length (List.filter is_interrupt es).

(** Buffer [i] is synced and stays so until it is used again. *)
Definition finished (i : nat) (a : server) : Prop :=
  (i ∉ r_queue a) /\ exists b, r_bufs a !! i = Some b /\ synced b = true.

Lemma synced_sync b m : synced (sync b m).1 = true.
Proof. unfold sync, synced. destruct (is_write b); cbn [fst bflags]; apply Z.eqb_eq, synced_flags. Qed.

Lemma finished_step i e a r a' :
  finished i a -> ~ calls_for i e -> server_step e a = Some (r, a') -> finished i a'.
Proof.
  intros [Hi (b & Hb & Hs)] Hn. destruct e as [me j c| |j]; cbn [server_step calls_for] in *; intros E.
  - destruct (decide _); [done|]. simplify_eq. split; cbn; [set_solver|]. exists b. by rewrite list_lookup_insert_ne.
  - destruct (r_queue a) as [|j q] eqn:Hq; [simplify_eq; split; [by rewrite Hq|eauto]|]. destruct (r_bufs a !! j); [|done]. cbn in E. simplify_eq.
    split; cbn; [set_solver|]. exists b. rewrite list_lookup_insert_ne by set_solver. done.
  - destruct (r_bufs a !! j); [|done]. cbn in E. simplify_eq. by split; [|exists b].
Qed.

(** The buffer at place [k] of the queue is at place [k - 1] after an interrupt. *)
Lemma place_step i k e a r a' :
  NoDup (r_queue a) -> r_queue a !! k = Some i -> server_step e a = Some (r, a') ->
  match k, is_interrupt e with
  | O, true => finished i a'
  | S k', true => r_queue a' !! k' = Some i
  | _, false => r_queue a' !! k = Some i
  end.
Proof.
  intros Hn Hk. destruct e as [me j c| |j]; cbn [server_step is_interrupt]; intros E.
  - destruct (decide _); [done|]. simplify_eq. cbn. destruct k; by apply lookup_app_l_Some.
  - destruct (r_queue a) as [|j q] eqn:Hq; [done|]. destruct (r_bufs a !! j) as [b|] eqn:Hb; [|done]. cbn in E. simplify_eq.
    destruct k as [|k]; cbn in *; [|done]. simplify_eq. apply NoDup_cons in Hn as [Hn _]. split; [done|]. cbn.
    eexists. rewrite list_lookup_insert_eq by (by eapply lookup_lt_Some). split; [done|apply synced_sync].
  - destruct (r_bufs a !! j); [|done]. cbn in E. simplify_eq. by destruct k.
Qed.

Lemma finished_run i es a rs a' :
  finished i a -> Forall (fun e => ~ calls_for i e) es -> server_run es a = Some (rs, a') -> finished i a'.
Proof.
  intros Hf Hes. revert a rs Hf. induction Hes as [|e es He _ IH]; intros a rs Hf Hr; cbn [server_run] in Hr; [by simplify_eq|].
  destruct (server_step e a) as [[r a1]|] eqn:E1; [|done]. cbn in Hr.
  destruct (server_run es a1) as [[rs1 a2]|] eqn:E2; [|done]. cbn in Hr. simplify_eq. eapply IH; [|done]. by eapply finished_step.
Qed.

Lemma place_run i k es a rs a' :
  NoDup (r_queue a) -> r_queue a !! k = Some i -> (k < interrupts es)%nat ->
  Forall (fun e => ~ calls_for i e) es -> server_run es a = Some (rs, a') -> finished i a'.
Proof.
  intros Hnd Hk Hint Hes. revert k a rs Hnd Hk Hint. induction Hes as [|e es He Hes IH]; intros k a rs Hnd Hk Hint Hr; [cbn in Hint; lia|].
  cbn [server_run] in Hr. destruct (server_step e a) as [[r a1]|] eqn:E1; [|done]. cbn in Hr.
  destruct (server_run es a1) as [[rs1 a2]|] eqn:E2; [|done]. cbn in Hr. simplify_eq.
  pose proof (place_step _ _ _ _ _ _ Hnd Hk E1) as Hp. pose proof (server_nodup _ _ _ _ E1 Hnd) as Hnd1.
  unfold interrupts in *. cbn [List.filter] in Hint. destruct k as [|k], (is_interrupt e) eqn:Hie; cbn in Hint; try (by eapply IH; [..|done]).
  - by eapply finished_run.
  - eapply IH; [done|exact Hp|lia|done].
Qed.

Lemma server_run_snoc i es a rs a' b :
  server_run es a = Some (rs, a') -> r_bufs a' !! i = Some b -> synced b = true ->
  server_run (es ++ [Again i]) a = Some (rs ++ [Returned], a').
Proof.
  revert a rs. induction es as [|e es IH]; intros a rs Hr Hb Hs; cbn [server_run app] in *.
  - simplify_eq. cbn. rewrite Hb. cbn. by rewrite Hs.
  - destruct (server_step e a) as [[r a1]|]; [|done]. cbn in *. destruct (server_run es a1) as [[rs1 a2]|] eqn:E; [|done]. cbn in *. simplify_eq.
    by rewrite (IH _ _ E Hb Hs).
Qed.

(** ** The theorems *)

(** C18: The IDE driver serves its requests in order.  With any disk that follows the
    ATA interface, for any sequence of calls of iderw by threads that hold their
    buffers, disk interrupts (spurious ones on an idle disk included) and resumed
    threads, no operation panics, and the driver behaves as a queue: a call appends its
    buffer and sleeps; each interrupt syncs the first buffer with its sector (a dirty
    buffer is written, the others are read), wakes its thread, and starts the next; a
    thread that runs again returns exactly when its buffer is synced.  The sectors of
    the disk and the buffers are at every point those of the queue's specification. *)
Theorem ide_session {H : Type} `{Ports H} {spins : nat} `{!AtaDisk H spins} (es : list request) (s : fsys (ide H)) (a a' : server)
    (rs : list answer) (Hs : serving (havedisk1 (disk s)) s a) (He : Forall (allowed (havedisk1 (disk s))) es)
    (Hr : server_run es a = Some (rs, a')) :
  exists s', session (spins := spins) es s = Some (rs, s') /\ serving (havedisk1 (disk s)) s' a'.
Proof. by eapply session_runs. Qed.

(** C26: Every disk request completes.  A thread whose buffer is at place [k] of the
    disk queue returns from iderw when it runs again after more than [k] interrupts,
    whatever other threads do meanwhile. *)
Theorem ide_completes {H : Type} `{Ports H} {spins : nat} `{!AtaDisk H spins} (es : list request) (s : fsys (ide H)) (a a' : server)
    (rs : list answer) (i k : nat) (Hs : serving (havedisk1 (disk s)) s a) (He : Forall (allowed (havedisk1 (disk s))) es)
    (Hr : server_run es a = Some (rs, a')) (Hk : r_queue a !! k = Some i) (Hn : (k < interrupts es)%nat)
    (Hi : Forall (fun e => ~ calls_for i e) es) :
  exists s', session (spins := spins) (es ++ [Again i]) s = Some (rs ++ [Returned], s').
Proof.
  destruct (place_run i k es a rs a') as [_ (b & Hb & Hsy)]; [by destruct Hs|done..|].
  destruct (session_runs _ (es ++ [Again i]) s a (rs ++ [Returned]) a' Hs) as (s' & E & _); [|by eapply server_run_snoc|eauto].
  apply Forall_app. split; [done|by apply Forall_singleton].
Qed.

(** ** A disk *)

(** The ATA machine with a status that is ready at once. *)
#[export] Instance ata_ports : Ports ata := {|
  io_inb p a := (IDE_DRDY, a);
  io_outb p v a :=
    if decide (p ∈ [0x1f2; 0x1f3; 0x1f4; 0x1f5; 0x1f6]) then a <| a_regs ::= set_reg p v |>
    else if p =? 0x1f7 then
      a <| a_state := if v =? IDE_CMD_READ then Reading (a_drive (a_regs a)) (a_lba (a_regs a))
                      else Accepting (a_drive (a_regs a)) (a_lba (a_regs a)) |>
    else a;
  io_insl p n a := match a_state a with Offering l => (l, a <| a_state := Idle |>) | _ => ([], a) end;
  io_outsl p l a := match a_state a with Accepting d n => a <| a_state := Writing d n l |> | _ => a end
|}.

#[export] Program Instance ata_disk : AtaDisk ata 1 := {| view a := a; finish := a_done |}.
Next Obligation. done. Qed.
Next Obligation. intros h _. exists O. split; [lia|done]. Qed.
Next Obligation. intros h k l _. by assert (forall k (h : ata), (polls k h).1 = IDE_DRDY) as -> by (clear; intros k; by induction k). Qed.
Next Obligation. done. Qed.
Next Obligation. intros p v h Hp. cbn. by rewrite decide_True. Qed.
Next Obligation. done. Qed.
Next Obligation. done. Qed.
Next Obligation. intros h d n l Hs _. cbn. by rewrite Hs. Qed.
Next Obligation. intros h l Hs. cbn. by rewrite Hs. Qed.
Next Obligation. done. Qed.

(** Two buffers, held by processes 3 and 4. *)
Definition held_buf (pid flags : Z) (l : list Z) : buf := Buf flags 1 5 (Sleeplock 1 false "buffer" pid) 1 0 0 None l.
Definition demo_ide : fsys (ide ata) :=
  Fsys (Curproc 1 0 0 [] 0 0 (fun _ => 0)) [] (Ide false None 1 (Ata (fun _ => 0) (fun _ _ => replicate 512 0) Idle)) false
       [held_buf 3 0 []; held_buf 4 0 []] (Logst false 0 0 0 0 0 0 []) (Superblock 0 0 0 0 0 0 0) false [] false [] ∅
       (Kmem (fun _ => 0) true 0 false).
Definition demo_server : server := Server [] (bufs demo_ide) (fun _ _ => replicate 512 0).

(** Block 5 of disk 1 is written from one buffer and read into the other. *)
Definition demo_requests : list request :=
  [Call 3 0 (held_buf 3 6 (replicate 512 7)); Call 4 1 (held_buf 4 0 (replicate 512 0)); Interrupt; Again 1; Again 0; Interrupt].

Lemma demo_serving : serving 1 demo_ide demo_server.
Proof. split; try done. apply NoDup_nil_2. Qed.
Lemma demo_allowed : Forall (allowed 1) demo_requests.
Proof. repeat constructor; try done; vm_compute; (done || by right). Qed.

Lemma ide_session_witness :
  exists s', session (spins := 1) demo_requests demo_ide = Some ([Asleep; Asleep; Woken [ABuf 0]; Asleep; Returned; Woken [ABuf 1]], s') /\
    (bdata <$> bufs s' !! 1%nat) = Some (replicate 512 7).
Proof.
  destruct (ide_session (spins := 1) demo_requests demo_ide demo_server _ _ demo_serving demo_allowed eq_refl) as (s' & E & Hs').
  exists s'. split; [exact E|]. transitivity (bdata <$> (plain <$> bufs s') !! 1%nat); [rewrite list_lookup_fmap; by destruct (bufs s' !! 1%nat)|].
  rewrite <-(sv_bufs _ _ _ Hs'). vm_compute. reflexivity.
Defined.

(** Both requests are queued when the session starts. *)
Lemma ide_completes_witness :
  exists s0 s', session (spins := 1) (take 2 demo_requests) demo_ide = Some ([Asleep; Asleep], s0) /\
    session (spins := 1) [Interrupt; Again 1; Interrupt; Again 1] s0 = Some ([Woken [ABuf 0]; Asleep; Woken [ABuf 1]; Returned], s').
Proof.
  destruct (session_runs (spins := 1) 1 (take 2 demo_requests) demo_ide demo_server _ _ demo_serving
    ltac:(apply Forall_take; exact demo_allowed) eq_refl) as (s0 & E0 & Hs0).
  pose (a := Server [0; 1]%nat [held_buf 3 6 (replicate 512 7); held_buf 4 0 (replicate 512 0)] (fun _ _ => replicate 512 0)).
  assert (H0 : serving (havedisk1 (disk s0)) s0 a) by (rewrite (sv_disk1 _ _ _ Hs0); exact Hs0).
  destruct (ide_completes (spins := 1) [Interrupt; Again 1; Interrupt] s0 a _ [Woken [ABuf 0]; Asleep; Woken [ABuf 1]] 1 1
    H0 ltac:(by repeat constructor) eq_refl eq_refl ltac:(vm_compute; lia) ltac:(repeat constructor; cbn; tauto)) as (s' & E).
  exists s0, s'. split; [exact E0|exact E].
Defined.
