(* ===== verification/Trap.v ===== *)
(** * The whole kernel behind a trap (syscall.c, sysproc.c, trap.c)

    The way into the kernel: [trap] looks at the trap number, [syscall] at the
    number in %eax, and the functions of sysproc.c fetch their arguments from the
    user stack.  Here the components meet: the process table of Proc.v and Kthread.v
    has beside it the file system of Fs.v and File.v with the disk driver of Ide.v,
    the console of Console.v, and the memory of Kalloc.v and Vm.v, and the interfaces
    [Services] and [ExecServices] are the functions of these files.  What is left open
    is the machine behind the disk's ports ([Ports]) and the addresses that the linker
    and the boot code choose ([Linked]). *)
From S2P Require Import Prelude Bytes Spinlock Memory Kalloc Vm VmMap.
From S2P Require Import Ide Console FsDefs Bio Log Fs File Sysfile ProcDefs Proc Kthread Exec.
Local Open Scope Z_scope.
Local Open Scope kernel_scope.

Definition T_SYSCALL : Z := 64.
Definition T_IRQ0 : Z := 32.
Definition IRQ_TIMER : Z := 0.
Definition IRQ_KBD : Z := 1.
Definition IRQ_COM1 : Z := 4.
Definition IRQ_IDE : Z := 14.
Definition IRQ_SPURIOUS : Z := 31.

(** The symbols [end] and [data], [kpgdir], the program of [userinit], a place in kernel
    memory for the bytes that exec hands to copyout, and how often [idewait] may poll. *)
Class Linked := {
  l_end : Z;
  l_data : Z;
  l_kpgdir : Z;
  l_initcode : Z;
  l_initcode_size : Z;
  l_ustack : Z;
  l_spins : nat
}.

(** ** The devices *)

Record drivers (H : Type) := Drivers { d_ide : ide H; d_con : console }.
Arguments Drivers {H}. Arguments d_ide {H}. Arguments d_con {H}.
#[export] Instance drivers_eta {H} : Eta (drivers H) := fun r => Drivers (d_ide r) (d_con r).

Section Devices.
Context {H : Type} `{Ports H} `{Linked}.

(** The file system's state as the disk driver sees it. *)
Definition ide_get (s : fsys (drivers H)) : fsys (ide H) :=
  Fsys (cur s) (wakes s) (d_ide (disk s)) (bc_lock s) (bufs s) (lg s) (sb s) (ic_lock s) (inodes s)
       (ft_lock s) (files s) (pipes s) (pages s).
Definition ide_put (t : fsys (ide H)) (s : fsys (drivers H)) : fsys (drivers H) :=
  Fsys (cur t) (wakes t) (Drivers (disk t) (d_con (disk s))) (bc_lock t) (bufs t) (lg t) (sb t) (ic_lock t)
       (inodes t) (ft_lock t) (files t) (pipes t) (pages t).
Definition on_ide {A} (m : F (ide H) A) : F (drivers H) A := zoom ide_get ide_put (fun r => r) m.

#[export] Instance drivers_driver : Driver (drivers H) := {| iderw i := on_ide (ide_iderw l_spins i) |}.
#[export] Instance drivers_console : HasConsole (drivers H) := {|
  con_get := d_con;
  con_put := fun t d => d <| d_con := t |>
|}.
#[export] Instance drivers_devices : Devices (drivers H) := console_devsw.

(** An interrupt handler of the console, with its calls wakeup(&input.r). *)
Definition console_intr (m : CM unit) : F (drivers H) unit :=
  do n <- gets (fun s => woke (d_con (disk s)));
  con m;;
  do n' <- gets (fun s => woke (d_con (disk s)));
  forM (replicate (n' - n) AInput) FsDefs.wakeup.
End Devices.

(** ** What proc.c and exec.c call *)

Section Kernel.
Context {H : Type} `{Ports H} `{Linked}.
Local Abbreviation E := (fsys (drivers H)).

(** User memory through the page tables, as the kernel reads and writes it (an address
    that no page is mapped at, which the argument checks keep out, reads as 0), and the
    bytes of its first [n] pages put back into their frames. *)
Definition user_view (m : mem) (pgdir : Z) : mem := fun va =>
  match maps m pgdir va with Some e => m (P2V (PTE_ADDR e) + va mod PGSIZE) | None => 0 end.
Fixpoint put_pages (n : nat) (m0 : mem) (pgdir : Z) (v m : mem) : mem :=
  match n with
  | O => m
  | S n' =>
    let m := put_pages n' m0 pgdir v m in
    let va := Z.of_nat n' * PGSIZE in
    match maps m0 pgdir va with
    | Some e =>
      let a := P2V (PTE_ADDR e) in
      fun x => if (a <=? x) && (x <? a + PGSIZE) then v (va + (x - a)) else m x
    | None => m
    end
  end.

Definition cur_of (pr : proc) (t : thread) (m : mem) : curproc :=
  Curproc (pid pr) (pkilled pr) (default 0%nat (cwd pr)) (ofile pr) (psz pr) (tf_esp (tf t)) (user_view m (pgdir pr)).

#[export] Instance kernel_services : Services E := {|
  sv_kalloc := on_pages kalloc;
  sv_kfree a := on_pages (kfree l_end a);
  sv_setupkvm := on_pages (setupkvm l_end l_data);
  sv_inituvm pgdir := on_pages (inituvm pgdir l_initcode l_initcode_size);
  sv_copyuvm pgdir sz := on_pages (copyuvm l_end l_data pgdir sz);
  sv_allocuvm pgdir oldsz newsz := on_pages (allocuvm l_end pgdir oldsz newsz);
  sv_deallocuvm pgdir oldsz newsz := on_pages (deallocuvm l_end pgdir oldsz newsz);
  sv_freevm pgdir := on_pages (freevm l_end pgdir);
  sv_kpgdir _ := l_kpgdir;
  sv_filedup := filedup;
  sv_fileclose := fileclose l_end;
  sv_idup o := do i <- derefM "idup" o; do i <- idup i; ret (Some i);
  sv_iput o := do i <- derefM "iput" o; iput i;
  sv_begin_op := begin_op;
  sv_end_op := end_op;
  sv_namei_root := namei [47; 0];
  sv_fsinit := iinit ROOTDEV;; initlog ROOTDEV;
  sv_load pr t s := s <| cur := cur_of pr t (kram (pages s)) |>;
  sv_flush pr s :=
    s <| pages ::= fun k => k <| kram := put_pages (Z.to_nat (PGROUNDUP (psz pr) / PGSIZE)) (kram k) (pgdir pr)
                                                   (c_mem (cur s)) (kram k) |> |>;
  sv_ofile s := c_ofile (cur s);
  sv_cwd s := c_cwd (cur s);
  sv_wakes := wakes;
  sv_awake s := s <| wakes := [] |>
|}.

(** [readi] into kernel memory. *)
Definition readi_to (ip : nat) (dst off n : Z) : F (drivers H) Z :=
  do '(r, l) <- readi ip off n;
  on_pages (modify (fun k => k <| kram ::= fun m => store_bytes m dst l |>));;
  ret r.

#[export] Instance kernel_exec : ExecServices E := {|
  xs_namei path := namei (path ++ [0]);
  xs_ilock ip := ilock (Some ip);
  xs_iunlockput := iunlockput;
  xs_readi ip off n := do '(r, l) <- readi ip off n; ret (if r <? 0 then [] else l);
  xs_loaduvm pgdir addr ip offset sz := loaduvm (@on_pages (drivers H)) (readi_to ip) pgdir addr offset sz;
  xs_clearpteu pgdir uva := on_pages (clearpteu pgdir uva);
  xs_copyout pgdir va l :=
    on_pages (modify (fun k => k <| kram ::= fun m => store_bytes m l_ustack l |>));;
    on_pages (copyout pgdir va l_ustack (Z.of_nat (length l)))
|}.
End Kernel.

Section Trap.
Context {H : Type} `{Ports H} `{Linked}.
Local Abbreviation E := (fsys (drivers H)).

Definition cur_process (c : nat) : @K E (nat * proc) :=
  do p <- myproc c;
  do p <- derefM "no process" p;
  do pr <- proc_at p;
  ret (p, pr).

(** ** sysproc.c *)

(** if(argint(0, &n) < 0) return -1; *)
Definition with_arg (c : nat) (f : Z -> @K E Z) : @K E Z :=
  do o <- onf c (argint 0);
  match o with None => ret (-1) | Some n => f n end.

Definition sys_exit (c : nat) : @K E Z := exit c;; ret 0.
Definition sys_kill (c : nat) : @K E Z := with_arg c (kill c).
Definition sys_getpid (c : nat) : @K E Z := do '(_, pr) <- cur_process c; ret (pid pr).
Definition sys_sbrk (c : nat) : @K E Z :=
  with_arg c (fun n =>
    do '(_, pr) <- cur_process c;
    let addr := s32 (psz pr) in
    do r <- growproc c n;
    if r <? 0 then ret (-1) else ret addr).
Definition sys_sleep_call (c : nat) : @K E Z := with_arg c (sys_sleep c).
Definition sys_kthread_create (c : nat) : @K E Z :=
  do f <- onf c (argptr 0 4);
  match f with
  | None => ret (-1)
  | Some f =>
    do st <- onf c (argptr 1 4);
    match st with None => ret (-1) | Some st => kthread_create c f st end
  end.
Definition sys_kthread_exit (c : nat) : @K E Z := kthread_exit c;; ret 0.
Definition sys_kthread_join (c : nat) : @K E Z := with_arg c (kthread_join c).
Definition sys_kthread_mutex_dealloc (c : nat) : @K E Z := with_arg c (kthread_mutex_dealloc c).
Definition sys_kthread_mutex_lock (c : nat) : @K E Z := with_arg c (kthread_mutex_lock c).
Definition sys_kthread_mutex_unlock (c : nat) : @K E Z := with_arg c (kthread_mutex_unlock c).

(** The string at an address, up to its terminating zero. *)
Fixpoint up_to_nul (l : list Z) : list Z :=
  match l with [] => [] | b :: l' => if b =? 0 then [] else b :: up_to_nul l' end.
Definition string_at (me : curproc) (a : Z) : list Z := up_to_nul (ustring me a).

(** sys_exec of sysfile.c: [exec_args] finds the strings, exec reads them. *)
Definition exec_strings : F (drivers H) (option (list Z * list (list Z))) :=
  do o <- exec_args;
  match o with
  | None => ret None
  | Some (path, argv) =>
    do me <- gets cur;
    ret (Some (string_at me path, string_at me <$> argv))
  end.
Definition sys_exec (c : nat) : @K E Z :=
  do o <- onf c exec_strings;
  match o with None => ret (-1) | Some (path, argv) => exec c path argv end.

(** ** syscall.c: the table, indexed by the numbers of syscall.h; [None] is a null
    entry. *)
Definition syscalls (c : nat) : list (option (@K E Z)) :=
  [ None;
    Some (fork c); Some (sys_exit c); Some (wait c);                                          (* 1 *)
    Some (onf c (sys_pipe l_end)); Some (onf c sys_read);                             (* 4 *)
    Some (sys_kill c); Some (sys_exec c);                                                     (* 6 *)
    Some (onf c sys_fstat); Some (onf c sys_chdir); Some (onf c sys_dup);                     (* 8 *)
    Some (sys_getpid c); Some (sys_sbrk c); Some (sys_sleep_call c); Some (sys_uptime c);     (* 11 *)
    Some (onf c (sys_open l_end)); Some (onf c sys_write); Some (onf c sys_mknod);    (* 15 *)
    Some (onf c sys_unlink); Some (onf c sys_link); Some (onf c sys_mkdir);                   (* 18 *)
    Some (onf c (sys_close l_end));                                                           (* 21 *)
    Some (sys_kthread_create c); Some (kthread_id c); Some (sys_kthread_exit c); Some (sys_kthread_join c);
    Some (kthread_mutex_alloc c); Some (sys_kthread_mutex_dealloc c);
    Some (sys_kthread_mutex_lock c); Some (sys_kthread_mutex_unlock c) ].                     (* 22 ... 29 *)

Definition set_eax (t : nat * nat) (v : Z) : @K E unit := upd_thread t (fun th => th <| tf ::= fun f => f <| tf_eax := u32 v |> |>).

Definition syscall (c : nat) : @K E unit :=
  do t <- mythread c;
  do t <- derefM "syscall: no thread" t;
  do th <- thread_at t;
  let num := s32 (tf_eax (tf th)) in
  if (0 <? num) && (num <? Z.of_nat (length (syscalls c))) then
    match syscalls c !! Z.to_nat num with
    | Some (Some f) => do r <- f; set_eax t r
    | _ => set_eax t (-1)
    end
  else set_eax t (-1).

(** ** trap.c *)

(** if(curthread->killed) kthread_exit(); if(curproc->killed) exit(); *)
Definition check_killed (c p : nat) (t : nat * nat) : @K E unit :=
  do th <- thread_at t;
  whenM (c_true (tkilled th)) (kthread_exit c);;
  do pr <- proc_at p;
  whenM (c_true (pkilled pr)) (exit c).

Definition trap_syscall (c p : nat) (t : nat * nat) (f : trapframe) : @K E unit :=
  check_killed c p t;;
  upd_thread t (fun th => th <| tf := f |>);;
  syscall c;;
  check_killed c p t.

Definition from_user (f : trapframe) : bool := Z.land (tf_cs f) 3 =? DPL_USER.

(** switch(tf->trapno), without lapiceoi() *)
Definition trap_switch (c : nat) (p : option nat) (f : trapframe) : @K E unit :=
  let n := tf_trapno f in
  if n =? T_IRQ0 + IRQ_TIMER then clock_tick c
  else if n =? T_IRQ0 + IRQ_IDE then onw c (on_ide (ideintr l_spins))
  else if n =? T_IRQ0 + IRQ_IDE + 1 then ret tt
  else if n =? T_IRQ0 + IRQ_KBD then onw c (console_intr kbdintr)
  else if n =? T_IRQ0 + IRQ_COM1 then onw c (console_intr uartintr)
  else if (n =? T_IRQ0 + 7) || (n =? T_IRQ0 + IRQ_SPURIOUS) then ret tt
  else
    match p with
    | None => panic "trap"
    | Some p =>
      if Z.land (tf_cs f) 3 =? 0 then panic "trap" else upd_proc p (fun pr => pr <| pkilled := 1 |>)
    end.

(** From the return of yield() to the end of trap(). *)
Definition trap_end (c : nat) (p : option nat) (t : option (nat * nat)) (f : trapframe) : @K E unit :=
  match p with
  | None => ret tt
  | Some _ =>
    do t <- derefM "trap: no thread" t;
    do th <- thread_at t;
    whenM (c_true (tkilled th) && from_user f) (exit c);;
    do th <- thread_at t;
    whenM (c_true (tkilled th) && from_user f) (kthread_exit c)
  end.

(** From the end of the switch to yield(). *)
Definition trap_leave (c : nat) (p : option nat) (t : option (nat * nat)) (f : trapframe) : @K E unit :=
  match p with
  | None => ret tt
  | Some p =>
    do pr <- proc_at p;
    whenM (c_true (pkilled pr) && from_user f) (exit c);;
    match t with
    | Some t => do th <- thread_at t; whenM (c_true (tkilled th) && from_user f) (kthread_exit c)
    | None => ret tt
    end;;
    do t <- derefM "trap: no thread" t;
    do th <- thread_at t;
    whenM (bool_decide (tstate th = TRUNNING) && (tf_trapno f =? T_IRQ0 + IRQ_TIMER)) (yield c)
  end.

Definition trap (c : nat) (f : trapframe) : @K E unit :=
  do p <- myproc c;
  do t <- mythread c;
  if tf_trapno f =? T_SYSCALL then
    do p <- derefM "trap: no process" p;
    do t <- derefM "trap: no thread" t;
    trap_syscall c p t f
  else
    trap_switch c p f;;
    trap_leave c p t f;;
    trap_end c p t f.
End Trap.
