(* ===== verification/TrapSpec.v ===== *)
(** * Every way into the kernel keeps the tables

    [trap] composes the kernel calls of Proc.v and Kthread.v with the fetching of
    arguments, the file calls, exec, the device interrupts and the checks for killed
    threads, on the composed kernel of Trap.v.  The whole of it runs as steps
    of the table transition system with the labels of at most one call. *)
From S2P Require Import Prelude Bytes Cstring Memory Kalloc Vm VmMap Ide IdeSpec IdeTheorems Console ConsoleTheorems.
From S2P Require Import FsDefs Fs File Sysfile Trap.
From S2P Require Import Spinlock ProcDefs Proc Kthread ProcRun KSpec KRefine KInv KCalls KExit KSystem Exec.
Local Open Scope Z_scope.
Local Open Scope kernel_scope.

Section TrapSpec.
Context {HW : Type} `{PT : Ports HW} `{LK : Linked}.
Local Abbreviation E := (fsys (drivers HW)).
Implicit Types s : kst E.

(** Steps with the labels of one call by thread [ct]. *)
Definition called s0 ct s' : Prop := exists l, prims s0 l s' /\ one_call ct l.

Lemma called_nil s0 ct s' : prims s0 [] s' -> called s0 ct s'.
Proof. intros Hp. exists []. split; [done|]. left. apply prefix_nil. Qed.
Lemma called_upto s0 ct ls s' :
  prims_upto s0 [] ls s' -> ls ∈ [[NewPid; NewTid]; [NewTid]; [NewMid]] -> called s0 ct s'.
Proof.
  intros (l & Hp & Hl) Hin. exists l. split; [done|]. unfold one_call.
  repeat (apply elem_of_cons in Hin as [->|Hin]; [tauto|]). by apply elem_of_nil in Hin.
Qed.

Lemma cur_process_prims c ct s0 tr s :
  here c ct s -> prims s0 tr s -> taus_here (cur_process c) c ct s0 tr s.
Proof. intros Hh Hp. unfold cur_process. ksteps; kdone. Qed.

(** ** exec *)

Lemma exec_commit_prims c ct s0 tr s path im :
  here c ct s -> prims s0 tr s -> taus_here (exec_commit c ct.1 ct path im) c ct s0 tr s.
Proof.
  destruct ct as [p i]. intros Hh Hp. unfold exec_commit. do 2 kstep. kstep.
  match goal with |- psat (_ ?st) _ _ => assert (prims s0 tr st) as Hp1 end.
  { apply prims_proc; [|done]. intros pr' Hpr'. simplify_eq.
    match goal with H : safestrcpy _ _ _ = Some _ |- _ => apply safestrcpy_length in H as Hl end. by split_and!. }
  match goal with |- psat (_ ?st) _ _ => assert (here c (p, i) st) as Hh1 by here_tac end.
  kname s1. do 3 kstep. kcall switchuvm_prims. ksteps; kdone.
Qed.

Lemma exec_prims c ct s0 tr s path argv :
  here c ct s -> prims s0 tr s -> taus_here (exec c path argv) c ct s0 tr s.
Proof.
  intros Hh Hp. unfold exec. kcall kill_other_threads_prims. unfold exec_rest. do 4 kstep. kcall onf_prims.
  destruct a0 as [im|]; [|ksteps; kdone]. apply exec_commit_prims; [here_tac|peel].
Qed.

(** ** syscall *)

(** A call that takes the labels of one call. *)
Definition calls {A} c ct s0 (o : outcome (kst E) kstop A) : Prop :=
  psat o (fun _ s' => called s0 ct s' /\ here c ct s') (fun _ s' => called s0 ct s').

Lemma calls_silent {A} c ct s0 (o : outcome (kst E) kstop A) :
  psat o (fun _ s' => prims s0 [] s' /\ here c ct s') (fun _ s' => prims s0 [] s') -> calls c ct s0 o.
Proof. intros H. eapply psat_mono; [exact H|intros ? ? []|intros]; auto using called_nil. Qed.

Lemma calls_stop {A} c ct s0 (o : outcome (kst E) kstop A) :
  psat o (fun _ _ => False) (fun _ s' => prims s0 [] s') -> calls c ct s0 o.
Proof. intros H. eapply psat_mono; [exact H|done|intros]; auto using called_nil. Qed.

Lemma calls_upto {A} c ct s0 ls (o : outcome (kst E) kstop A) :
  ls ∈ [[NewPid; NewTid]; [NewTid]; [NewMid]] ->
  psat o (fun _ s' => prims_upto s0 [] ls s' /\ here c ct s') (fun _ s' => prims_upto s0 [] ls s') -> calls c ct s0 o.
Proof.
  intros Hl H. eapply psat_mono; [exact H|intros ? ? [H1 H2]; split; [exact (called_upto _ _ _ _ H1 Hl)|done]|intros ? ? H1; exact (called_upto _ _ _ _ H1 Hl)].
Qed.

Lemma with_arg_calls c ct s0 s f :
  here c ct s -> prims s0 [] s -> (forall n s', here c ct s' -> prims s0 [] s' -> calls c ct s0 (f n s')) ->
  calls c ct s0 (with_arg c f s).
Proof.
  intros Hh Hp Hf. unfold with_arg, calls. apply psat_bind. eapply psat_mono; [by apply onf_prims| |].
  - intros [n|] s' [Hp' Hh']; [by apply Hf|]. cbn. auto using called_nil.
  - intros. by apply called_nil.
Qed.

Lemma mutex_lock_calls c ct s0 s id : here c ct s -> prims s0 [] s -> calls c ct s0 (kthread_mutex_lock c id s).
Proof.
  intros Hh Hp. eapply psat_mono; [by apply kthread_mutex_lock_prims|..].
  - intros r s' (m & Hr & Hh'). split; [|done]. destruct Hr as [[_ H]|[_ H]]; [by apply called_nil|].
    eexists. split; [done|]. right. right. right. left. by exists m.
  - intros r s' (m & [H|H]); [by apply called_nil|]. eexists. split; [done|]. right. right. right. left. by exists m.
Qed.
Lemma mutex_unlock_calls c ct s0 s id : here c ct s -> prims s0 [] s -> calls c ct s0 (kthread_mutex_unlock c id s).
Proof.
  assert (Hu : forall m z s', prims s0 ([] ++ [UnlockBy m z]) s' -> called s0 ct s').
  { intros m z s' H. eexists. split; [done|]. right. right. right. right. by exists m, z. }
  intros Hh Hp. eapply psat_mono; [by apply kthread_mutex_unlock_prims|..].
  - intros r s' (Hr & Hh'). split; [|done]. destruct Hr as [[_ H]|[_ (m & t & _ & H)]]; [by apply called_nil|by eapply Hu].
  - intros r s' [H|(m & t & _ & H)]; [by apply called_nil|by eapply Hu].
Qed.

Lemma sys_exec_calls c ct s0 s : here c ct s -> prims s0 [] s -> calls c ct s0 (sys_exec c s).
Proof.
  intros Hh Hp. apply calls_silent. unfold sys_exec. kcall onf_prims.
  destruct a as [[path argv]|]; [|ksteps; kdone]. apply exec_prims; [here_tac|peel].
Qed.

Lemma sys_sbrk_calls c ct s0 s : here c ct s -> prims s0 [] s -> calls c ct s0 (sys_sbrk c s).
Proof.
  intros Hh Hp. apply with_arg_calls; [done..|]. intros n s1 Hh1 Hp1. apply calls_silent.
  kcall cur_process_prims. destruct a. cbv zeta. kcall growproc_prims. ksteps; kdone.
Qed.

Lemma sys_kthread_create_calls c ct s0 s : here c ct s -> prims s0 [] s -> calls c ct s0 (sys_kthread_create c s).
Proof.
  intros Hh Hp. unfold sys_kthread_create, calls.
  apply psat_bind. eapply psat_mono; [by apply onf_prims| |intros; by apply called_nil]. intros [f|] s1 [Hp1 Hh1]; [|cbn; auto using called_nil].
  apply psat_bind. eapply psat_mono; [by apply onf_prims| |intros; by apply called_nil]. intros [st|] s2 [Hp2 Hh2]; [|cbn; auto using called_nil].
  apply (calls_upto _ _ _ [NewTid]); [set_solver|]. by apply kthread_create_prims.
Qed.

Lemma result_stop {A B} c ct s0 (m : M (kst E) kstop A) (r : B) s :
  psat (m s) (fun _ _ => False) (fun _ s' => prims s0 [] s') -> calls c ct s0 ((m;; ret r) s).
Proof. intros Hm. apply psat_bind. eapply psat_mono; [exact Hm|done|intros]; auto using called_nil. Qed.

Lemma syscalls_calls c ct s0 s :
  shape s0 -> here c ct s -> prims s0 [] s ->
  Forall (fun o => match o with Some f => calls c ct s0 (f s) | None => True end) (syscalls c).
Proof.
  intros Hsh Hh Hp.
  assert (Hfile : forall m : F (drivers HW) Z, calls c ct s0 (onf c m s)) by (intros m; apply calls_silent; by apply onf_prims).
  unfold syscalls. repeat apply Forall_cons_2; [..|constructor]; cbv beta iota; try apply Hfile; try done.
  - apply (calls_upto _ _ _ [NewPid; NewTid]); [set_solver|]. by apply fork_prims.
  - by apply result_stop, (exit_prims c ct).
  - apply calls_silent. by apply wait_prims.
  - apply with_arg_calls; [done..|]. intros. apply calls_silent. by apply kill_prims.
  - by apply sys_exec_calls.
  - apply calls_silent. unfold sys_getpid. kcall cur_process_prims. destruct a. ksteps. kdone.
  - by apply sys_sbrk_calls.
  - apply with_arg_calls; [done..|]. intros. apply calls_silent. by apply sys_sleep_prims.
  - apply calls_silent. by apply sys_uptime_prims.
  - by apply sys_kthread_create_calls.
  - apply calls_silent. by apply kthread_id_prims.
  - by apply result_stop, (kthread_exit_prims c ct).
  - apply with_arg_calls; [done..|]. intros. apply calls_silent. by apply kthread_join_prims.
  - apply (calls_upto _ _ _ [NewMid]); [set_solver|]. by apply kthread_mutex_alloc_prims.
  - apply with_arg_calls; [done..|]. intros. apply calls_silent.
    eapply psat_mono; [by apply kthread_mutex_dealloc_prims|intros ? ? (? & ? & _)|]; done.
  - apply with_arg_calls; [done..|]. intros. by apply mutex_lock_calls.
  - apply with_arg_calls; [done..|]. intros. by apply mutex_unlock_calls.
Qed.

Lemma set_eax_called c ct s0 s v : called s0 ct s -> here c ct s -> calls c ct s0 (set_eax ct v s).
Proof.
  intros (l & Hp & Hl) Hh. unfold set_eax, calls. ksteps. split; [exists l; split; [peel|done]|here_tac].
Qed.

Lemma syscall_calls c ct s0 s : shape s0 -> here c ct s -> prims s0 [] s -> calls c ct s0 (syscall c s).
Proof.
  intros Hsh Hh Hp. unfold syscall, calls. do 3 kstep.
  match goal with |- psat (_ ?st) _ _ => assert (Hp1 : prims s0 [] st) by peel; assert (Hh1 : here c ct st) by here_tac end. kname s1.
  assert (Hbad : calls c ct s0 (set_eax ct (-1) s1)) by (apply set_eax_called; [by apply called_nil|done]).
  destruct (_ && _); [|exact Hbad]. destruct (syscalls c !! _) as [[f|]|] eqn:Hl; [|exact Hbad..].
  pose proof (Forall_lookup_1 _ _ _ _ (syscalls_calls c ct s0 s1 Hsh Hh1 Hp1) Hl) as Hf. cbv beta iota in Hf.
  apply psat_bind. eapply psat_mono; [exact Hf| |done]. intros r s2 [Hc Hh2]. by apply set_eax_called.
Qed.

(** ** trap *)

Lemma check_killed_prims c ct s0 tr s :
  here c ct s -> prims s0 tr s -> taus_here (check_killed c ct.1 ct) c ct s0 tr s.
Proof.
  intros Hh Hp. unfold check_killed. kstep. kstep.
  - kcall kthread_exit_prims. done.
  - kstep. kstep. kstep; [|kdone]. eapply psat_mono; [by eapply exit_prims|done|done].
Qed.

Lemma trap_syscall_calls c ct s0 s f :
  shape s0 -> here c ct s -> prims s0 [] s -> calls c ct s0 (trap_syscall c ct.1 ct f s).
Proof.
  intros Hsh Hh Hp. unfold trap_syscall, calls.
  apply psat_bind. eapply psat_mono; [by eapply check_killed_prims| |intros; by apply called_nil].
  intros [] s1 [Hp1 Hh1]. kstep. apply psat_bind.
  eapply psat_mono; [apply (syscall_calls c ct s0); [done|here_tac|peel]| |done]. intros [] s2 [(l & Hp2 & Hl) Hh2].
  eapply psat_mono; [by eapply check_killed_prims|intros ? ? [H1 H2]; split; [by exists l|done]|intros ? ? H1; by exists l].
Qed.

Lemma trap_rest_prims c ct s0 s f :
  here c ct s -> prims s0 [] s ->
  taus_here (trap_switch c (Some ct.1) f;; trap_leave c (Some ct.1) (Some ct) f;; trap_end c (Some ct.1) (Some ct) f) c ct s0 [] s.
Proof.
  intros Hh Hp.
  apply psat_bind. apply (psat_mono _ (fun _ s' => prims s0 [] s' /\ here c ct s') (fun _ s' => prims s0 [] s')); [| |done].
  { unfold trap_switch. cbv zeta. kstep; [by apply clock_tick_prims|]. kstep; [by apply onw_prims|]. kstep; [ksteps; kdone|].
    do 2 (kstep; [by apply onw_prims|]). ksteps; kdone. }
  intros [] s1 [Hp1 Hh1]. apply psat_bind.
  apply (psat_mono _ (fun _ s' => prims s0 [] s' /\ here c ct s') (fun _ s' => prims s0 [] s')); [| |done].
  { unfold trap_leave. kstep. kstep; [kcall exit_prims; done|]. kstep. kstep. kstep. kstep; [kcall kthread_exit_prims; done|]. do 3 kstep.
    kstep; [|kdone]. eapply psat_mono; [by eapply yield_prims|done|done]. }
  intros [] s2 [Hp2 Hh2]. unfold trap_end. do 2 kstep. kstep; [kcall exit_prims; done|]. kstep. kstep. kstep; [|kdone].
  eapply psat_mono; [by eapply kthread_exit_prims|done|done].
Qed.

Lemma trap_calls c ct s f : shape s -> here c ct s -> calls c ct s (trap c f s).
Proof.
  intros Hsh Hh. pose proof (prims_nil s) as Hp. unfold trap, calls. do 3 kstep.
  - do 2 kstep. apply trap_syscall_calls; [done|here_tac|peel].
  - apply calls_silent. apply trap_rest_prims; [here_tac|peel].
Qed.

(** C23: Every trap keeps the kernel's tables.  A whole run of [trap] by a running
    thread changes the process, thread and mutex tables by steps of the transition
    system with the labels of at most one call.  The run is a system call with any
    number and arguments (the check for killed threads, the dispatch, the fetching of
    arguments, the call itself, exec and the calls of sysfile.c included, and the check
    on return), or an interrupt of the clock, the disk, the keyboard or the serial port,
    or a fault.  The calls run on the file system, the drivers and the memory of the
    other files: they write the process's open files and current directory, and their
    wakeups make sleeping threads runnable.  This holds until the run returns, gives up
    the processor or sleeps inside the file system, where it is not followed further.
    So the tables stay well formed and identifiers unique. *)
Theorem trap_keeps_tables (c : nat) (ct : nat * nat) (f : trapframe) (s : kst E)
    (Ht : tables_ok s) (Hc : counters_room s) (Hh : here c ct s) :
  psat (trap c f s) (fun _ s' => called s ct s' /\ tables_ok s' /\ here c ct s') (fun _ s' => called s ct s' /\ tables_ok s').
Proof.
  assert (Hk : forall s', called s ct s' -> tables_ok s') by (intros s' (l & Hp & Hl); by eapply one_call_tables).
  eapply psat_mono; [apply trap_calls; [apply Ht|done]|intros ? ? []|intros]; auto.
Qed.
End TrapSpec.

(** ** A descriptor is duplicated *)

#[export] Instance demo_linked : Linked := {|
  l_end := 0x80110000;
  l_data := 0x80108000;
  l_kpgdir := 0x80400000;
  l_initcode := 0x8010a000;
  l_initcode_size := 44;
  l_ustack := 0x80600800;
  l_spins := 1
|}.

(** One file, open once; the directory of process 0 at 0x80500000 maps address 0 to a
    page of zeros. *)
Definition demo_ext : fsys (drivers ata) :=
  Fsys (Curproc 0 0 0 [] 0 0 (fun _ => 0)) []
    (Drivers (Ide false None 1 (Ata (fun _ => 0) (fun _ _ => replicate 512 0) Idle)) demo_console) false []
    (Logst false 0 0 0 0 0 0 []) (Superblock 0 0 0 0 0 0 0) false [] false [File FD_INODE 1 1 0 0 3 0] ∅
    (Kmem (store32 (store32 (fun _ => 0) 0x80501000 0x502007) 0x80500000 0x501007) true 0 false).

Definition with_ext {E E'} (s : kst E) (e : E') : kst E' :=
  Kst (mch s) (procs s) (mutexes s) (initproc s) (nextpid s) (nexttid s) (nextmid s) (helper s) (ticks s) (forkret_first s) e.

(** The process has a page of memory and the file open as descriptor 0. *)
Definition demo_kernel : kst (fsys (drivers ata)) :=
  set_proc 0 (fun pr => pr <| psz := 4096 |> <| ofile ::= <[0%nat := Some 0%nat]> |>) (with_ext demo demo_ext).

(** int T_SYSCALL with the number of dup in %eax and the descriptor 0 on the stack. *)
Definition demo_frame : trapframe :=
  tf_zero <| tf_trapno := T_SYSCALL |> <| tf_eax := 10 |> <| tf_cs := 0x1B |> <| tf_esp := 64 |>.

Lemma demo_kernel_tables : tables_ok demo_kernel.
Proof.
  assert (tables_ok (with_ext demo demo_ext)) as Ht by exact demo_tables.
  apply (one_call_tables (with_ext demo demo_ext) (0%nat, 0%nat) []); [done|exact demo_room| |left; apply prefix_nil].
  apply prims_proc; [|apply prims_nil]. intros pr _. unfold proc_keep. cbn. rewrite length_insert. by split_and!.
Qed.
Lemma demo_kernel_here : here 0 (0%nat, 0%nat) demo_kernel.
Proof. exact (demo_here 0 ltac:(lia)). Qed.

(** The result of the call, the first descriptors and the reference counts after a run. *)
Definition seen_trap (o : outcome (kst (fsys (drivers ata))) kstop unit) : option (option Z * option (list (option nat)) * list Z) :=
  match o with
  | Ret _ s' => Some (tf_eax ∘ tf <$> get_thread s' 0 0, take 3 ∘ ofile <$> get_proc s' 0, f_ref <$> files (ext s'))
  | _ => None
  end.

Lemma trap_keeps_tables_witness :
  seen_trap (trap 0 demo_frame demo_kernel) = Some (Some 1, Some [Some 0%nat; Some 0%nat; None], [2]) /\
  psat (trap 0 demo_frame demo_kernel)
    (fun _ s' => called demo_kernel (0%nat, 0%nat) s' /\ tables_ok s' /\ here 0 (0%nat, 0%nat) s')
    (fun _ s' => called demo_kernel (0%nat, 0%nat) s' /\ tables_ok s').
Proof.
  split; [vm_compute; reflexivity|].
  apply (trap_keeps_tables 0 (0%nat, 0%nat) demo_frame demo_kernel);
    [exact demo_kernel_tables|exact demo_room|exact demo_kernel_here].
Defined.
