(* ===== verification/Mp.v ===== *)
(** * The processors of the machine (mp.c)

    The BIOS leaves a floating pointer structure in one of three areas of memory
    and, where it points, a configuration table with one entry per processor, bus,
    I/O APIC and interrupt line.  [mpinit] reads the table into [cpus], [ncpu],
    [ioapicid] and [lapic].  The loop over the entries does not always end, so it
    takes fuel, one unit per turn, and a run that uses it up stops. *)
From S2P Require Import Prelude Spinlock ProcDefs Memory Kalloc Vm Ide.
Local Open Scope Z_scope.
Local Open Scope kernel_scope.

Definition NCPU : Z := 8.
Definition MPPROC : Z := 0x00.
Definition MPBUS : Z := 0x01.
Definition MPIOAPIC : Z := 0x02.
Definition MPIOINTR : Z := 0x03.
Definition MPLINTR : Z := 0x04.

(** ** The structures of mp.h, at an address in memory *)

Definition load16 (m : mem) (a : Z) : Z := m a + m (a + 1) * 2 ^ 8.

(** struct mp, 16 bytes *)
Definition mp_physaddr (m : mem) (mp : Z) : Z := load32 m (mp + 4).
Definition mp_imcrp (m : mem) (mp : Z) : Z := m (mp + 12).
(** struct mpconf, 44 bytes *)
Definition conf_length (m : mem) (conf : Z) : Z := load16 m (conf + 4).
Definition conf_version (m : mem) (conf : Z) : Z := m (conf + 6).
Definition conf_lapicaddr (m : mem) (conf : Z) : Z := load32 m (conf + 36).
(** struct mpproc, 20 bytes, and struct mpioapic, 8 bytes *)
Definition proc_apicid (m : mem) (p : Z) : Z := m (p + 1).
Definition ioapic_apicno (m : mem) (p : Z) : Z := m (p + 1).

Definition sizeof_mp : Z := 16.
Definition sizeof_mpconf : Z := 44.
Definition sizeof_mpproc : Z := 20.
Definition sizeof_mpioapic : Z := 8.

(** ** Finding the table *)

Fixpoint sum_loop (m : mem) (addr : Z) (len : nat) (sum : Z) : Z :=
  match len with
  | O => sum
  | S len' => sum_loop m (addr + 1) len' (sum + m addr)
  end.
Definition sum (m : mem) (addr len : Z) : Z := u8 (sum_loop m addr (Z.to_nat len) 0).

(** memcmp(p, l, n) == 0 for a literal [l] of [n] bytes. *)
Fixpoint mem_is (m : mem) (p : Z) (l : list Z) : bool :=
  match l with [] => true | c :: l' => (m p =? c) && mem_is m (p + 1) l' end.
Definition lit_MP : list Z := [95; 77; 80; 95].     (* "_MP_" *)
Definition lit_PCMP : list Z := [80; 67; 77; 80].   (* "PCMP" *)

(** for(p = addr; p < e; p += sizeof(struct mp)), [n] times *)
Fixpoint mpsearch1_loop (m : mem) (p : Z) (n : nat) : option Z :=
  match n with
  | O => None
  | S n' =>
    if mem_is m p lit_MP && (sum m p sizeof_mp =? 0) then Some p
    else mpsearch1_loop m (p + sizeof_mp) n'
  end.
Definition mpsearch1 (m : mem) (a len : Z) : option Z :=
  mpsearch1_loop m (P2V a) (Z.to_nat ((len + sizeof_mp - 1) / sizeof_mp)).

Definition mpsearch (m : mem) : option Z :=
  let bda := P2V 0x400 in
  let p := Z.shiftl (Z.lor (Z.shiftl (m (bda + 0x0F)) 8) (m (bda + 0x0E))) 4 in
  match
    (if c_true p then mpsearch1 m p 1024
     else
       let p := Z.lor (Z.shiftl (m (bda + 0x14)) 8) (m (bda + 0x13)) * 1024 in
       mpsearch1 m (u32 (p - 1024)) 1024)
  with
  | Some mp => Some mp
  | None => mpsearch1 m 0xF0000 0x10000
  end.

(** The table and the structure that points to it. *)
Definition mpconfig (m : mem) : option (Z * Z) :=
  match mpsearch m with
  | None => None
  | Some mp =>
    if mp_physaddr m mp =? 0 then None else
    let conf := P2V (mp_physaddr m mp) in
    if negb (mem_is m conf lit_PCMP) then None else
    if negb (conf_version m conf =? 1) && negb (conf_version m conf =? 4) then None else
    if negb (sum m conf (conf_length m conf) =? 0) then None else
    Some (conf, mp)
  end.

(** ** Reading the table *)

(** [cpus] and [ncpu] are in [bmach], [msgs] is what cprintf has printed, and [io] is
    the machine behind the ports. *)
Record board (H : Type) := Board {
  bmem : mem;
  bmach : mach;
  ioapicid : Z;
  lapic : Z;
  msgs : list string;
  io : H
}.
Arguments Board {H}. Arguments bmem {H}. Arguments bmach {H}. Arguments ioapicid {H}. Arguments lapic {H}. Arguments msgs {H}. Arguments io {H}.
#[export] Instance board_eta {H} : Eta (board H) := fun b => Board (bmem b) (bmach b) (ioapicid b) (lapic b) (msgs b) (io b).

(** A loop that has used up its fuel. *)
Inductive looping := Looping.

Section Mpinit.
Context {H : Type} `{Ports H}.
Abbreviation B := (M (board H) looping).

Definition dev_inb (port : Z) : B Z :=
  do o <- gets (fun b => io_inb port (io b));
  modify (fun b => b <| io := o.2 |>);;
  ret o.1.
Definition dev_outb (port v : Z) : B unit := modify (fun b => b <| io ::= io_outb port (u8 v) |>).

(** cpus[ncpu].apicid = id; ncpu++; *)
Definition add_cpu (id : Z) : B unit :=
  do n <- gets (fun b => ncpu (bmach b));
  do c <- gets (fun b => cpus (bmach b) !! n);
  do c <- derefM "cpus" c;
  modify (fun b => b <| bmach ::= fun k => k <| cpus ::= <[n := c <| apicid := id |>]> |> |>);;
  modify (fun b => b <| bmach ::= fun k => k <| ncpu ::= S |> |>).

Fixpoint mpinit_loop (fuel : nat) (p e ismp : Z) : B Z :=
  match fuel with
  | O => stop Looping
  | S fuel' =>
    if p <? e then
      do m <- gets bmem;
      let t := m p in
      if t =? MPPROC then
        do n <- gets (fun b => ncpu (bmach b));
        whenM (Z.of_nat n <? NCPU) (add_cpu (proc_apicid m p));;
        mpinit_loop fuel' (p + sizeof_mpproc) e ismp
      else if t =? MPIOAPIC then
        modify (fun b => b <| ioapicid := ioapic_apicno m p |>);;
        mpinit_loop fuel' (p + sizeof_mpioapic) e ismp
      else if (t =? MPBUS) || (t =? MPIOINTR) || (t =? MPLINTR) then
        mpinit_loop fuel' (p + 8) e ismp
      else mpinit_loop fuel' p e 0
    else ret ismp
  end.

Definition mpinit (fuel : nat) : B unit :=
  do m <- gets bmem;
  match mpconfig m with
  | None => panic "Expect to run on an SMP"
  | Some (conf, mp) =>
    modify (fun b => b <| lapic := conf_lapicaddr m conf |>);;
    do ismp <- mpinit_loop fuel (conf + sizeof_mpconf) (conf + conf_length m conf) 1;
    if ismp =? 0 then panic "Didn't find a suitable machine" else
    if c_true (mp_imcrp m mp) then
      dev_outb 0x22 0x70;;
      do v <- dev_inb 0x23;
      dev_outb 0x23 (Z.lor v 1)
    else ret tt
  end.
End Mpinit.

(** ** What the loop reads *)

Definition known (t : Z) : bool :=
  (t =? MPPROC) || (t =? MPIOAPIC) || (t =? MPBUS) || (t =? MPIOINTR) || (t =? MPLINTR).
Definition entry_size (t : Z) : Z := if t =? MPPROC then 20 else 8.

(** The entries from [p] up to [e]: of each its type and the byte after it. *)
Inductive entries (m : mem) (e : Z) : Z -> list (Z * Z) -> Prop :=
| entries_end p : e <= p -> entries m e p []
| entries_next p l :
    p < e -> known (m p) = true -> entries m e (p + entry_size (m p)) l ->
    entries m e p ((m p, m (p + 1)) :: l).

(** Going from [p] to [q] over entries of known types. *)
Inductive leads_to (m : mem) (e : Z) : Z -> Z -> Prop :=
| leads_here p : leads_to m e p p
| leads_next p q :
    p < e -> known (m p) = true -> leads_to m e (p + entry_size (m p)) q -> leads_to m e p q.

(** The APIC numbers of the processors and of the last I/O APIC of a table. *)
Definition proc_ids (l : list (Z * Z)) : list Z := (filter (fun x => x.1 = MPPROC) l).*2.
Definition last_ioapic (l : list (Z * Z)) (old : Z) : Z :=
  fold_left (fun acc x => if x.1 =? MPIOAPIC then x.2 else acc) l old.

(** A literal in memory at [q] makes [mem_is] the comparison of string.c. *)
Lemma mem_is_memcmp m p q l :
  (forall i c, l !! i = Some c -> m (q + Z.of_nat i) = c) ->
  mem_is m p l = (memcmp m p q (length l) =? 0).
Proof.
  revert p q. induction l as [|c l IH]; intros p q Hl; [done|]. cbn [mem_is length memcmp].
  pose proof (Hl 0%nat c eq_refl) as H0. rewrite Z.add_0_r in H0. rewrite H0.
  rewrite (IH _ (q + 1)).
  - destruct (m p =? c) eqn:E; [done|]. to_prop. cbn [andb]. symmetry. apply Z.eqb_neq. lia.
  - intros i x Hx. rewrite <- (Hl (S i) x Hx). f_equal. lia.
Qed.

Lemma entry_size_pos t : 8 <= entry_size t.
Proof. unfold entry_size. case_match; lia. Qed.

(** The entries up to [e] all have known types, or one that has not is reached. *)
Lemma entries_or_unknown m e p :
  (exists l, entries m e p l) \/ (exists q, leads_to m e p q /\ q < e /\ known (m q) = false).
Proof.
  remember (Z.to_nat (e - p)) as n eqn:Hn. revert p Hn.
  induction (lt_wf n) as [n _ IH]. intros p ->.
  destruct (decide (p < e)); [|left; eexists; constructor; lia].
  destruct (known (m p)) eqn:Hk; [|right; exists p; split; [constructor|done]].
  pose proof (entry_size_pos (m p)).
  destruct (IH (Z.to_nat (e - (p + entry_size (m p))))) with (p := p + entry_size (m p))
    as [[l0 Hl]|(q & Hq & Hu)]; [lia|done| |].
  - left. eexists. by constructor.
  - right. exists q. split; [by econstructor|done].
Qed.

Lemma entries_length m e p l : entries m e p l -> 8 * Z.of_nat (length l) < Z.max 0 (e - p) + 8.
Proof.
  induction 1 as [p Hp|p l0 Hp Hk Hl IH]; [simpl; lia|].
  pose proof (entry_size_pos (m p)). cbn [length]. lia.
Qed.

Section Facts.
Context {H : Type} `{Ports H}.
Implicit Types b : board H.

(** What [l] puts into the tables of [b]. *)
Record recorded b (l : list (Z * Z)) b' : Prop := {
  rec_mem : bmem b' = bmem b;
  rec_io : io b' = io b;
  rec_lapic : lapic b' = lapic b;
  rec_msgs : msgs b' = msgs b;
  rec_mach : bmach b' = bmach b <| cpus := cpus (bmach b') |> <| ncpu := ncpu (bmach b') |>;
  rec_len : length (cpus (bmach b')) = 8%nat;
  rec_ncpu : ncpu (bmach b') = (ncpu (bmach b) + length (take (8 - ncpu (bmach b)) (proc_ids l)))%nat;
  rec_ids : apicid <$> take (ncpu (bmach b')) (cpus (bmach b')) =
            (apicid <$> take (ncpu (bmach b)) (cpus (bmach b))) ++ take (8 - ncpu (bmach b)) (proc_ids l);
  rec_ioapic : ioapicid b' = last_ioapic l (ioapicid b)
}.

Definition board_ok b : Prop := length (cpus (bmach b)) = 8%nat /\ (ncpu (bmach b) <= 8)%nat.

(** [b] with the processor [v] added; its other fields are those of [c]. *)
Definition added b (v : Z) (c : cpu) : board H :=
  b <| bmach ::= fun k => k <| cpus ::= <[ncpu (bmach b) := c <| apicid := v |>]> |> <| ncpu ::= S |> |>.

Lemma bind_add_cpu {A} (k : unit -> M (board H) looping A) b v c :
  cpus (bmach b) !! ncpu (bmach b) = Some c -> bind (add_cpu v) k b = k tt (added b v c).
Proof.
  intros Hc. unfold add_cpu.
  by rewrite !bind_assoc, bind_gets, bind_assoc, bind_gets, Hc, bind_assoc, bind_deref, bind_assoc, !bind_modify.
Qed.

Lemma board_ok_add b v c : board_ok b -> Z.of_nat (ncpu (bmach b)) < 8 -> board_ok (added b v c).
Proof. intros [Hl Hn] Hlt. split; cbn; [by rewrite length_insert|lia]. Qed.

Lemma recorded_nil b : board_ok b -> recorded b [] b.
Proof.
  intros [Hl Hn]. split; try done.
  - by destruct b as [? [] ? ? ? ?].
  - unfold proc_ids. rewrite filter_nil, fmap_nil, take_nil. simpl. lia.
  - unfold proc_ids. by rewrite filter_nil, fmap_nil, take_nil, app_nil_r.
Qed.

Lemma recorded_other b b1 t v l b' :
  t <> MPPROC -> b1 = b <| ioapicid := if t =? MPIOAPIC then v else ioapicid b |> ->
  recorded b1 l b' -> recorded b ((t, v) :: l) b'.
Proof.
  intros Ht -> [H1 H2 H3 Hs H4 H5 H6 H7 H8]. destruct b. 
  assert (Hp : proc_ids ((t, v) :: l) = proc_ids l) by (unfold proc_ids; by rewrite filter_cons_False).
  split; cbn in *; rewrite ?Hp; done.
Qed.

Lemma recorded_full b v l b' :
  ncpu (bmach b) = 8%nat -> recorded b l b' -> recorded b ((MPPROC, v) :: l) b'.
Proof.
  intros Hn [H1 H2 H3 Hs H4 H5 H6 H7 H8]. split; try done; rewrite Hn, take_0 in *; done.
Qed.

Lemma recorded_proc b v c b1 l b' :
  board_ok b -> (ncpu (bmach b) < 8)%nat -> cpus (bmach b) !! ncpu (bmach b) = Some c ->
  b1 = added b v c ->
  recorded b1 l b' -> recorded b ((MPPROC, v) :: l) b'.
Proof.
  intros [Hlen Hn] Hlt Hc -> [H1 H2 H3 Hs H4 H5 H6 H7 H8]. cbn in *.
  assert (Hp : take (8 - ncpu (bmach b)) (proc_ids ((MPPROC, v) :: l)) =
               v :: take (7 - ncpu (bmach b)) (proc_ids l)).
  { unfold proc_ids. rewrite filter_cons_True by done. rewrite fmap_cons.
    replace (8 - ncpu (bmach b))%nat with (S (7 - ncpu (bmach b))) by lia. done. }
  split; rewrite ?Hp; try done.
  - rewrite H6. cbn [length]. lia.
  - rewrite H7. 
    rewrite (take_S_r _ _ (c <| apicid := v |>)) by (rewrite list_lookup_insert_eq; [done|lia]).
    rewrite take_insert_ge by lia. rewrite fmap_app, <- app_assoc. done.
Qed.

Lemma mpinit_loop_end fuel b e p l :
  board_ok b -> entries (bmem b) e p l -> (length l < fuel)%nat ->
  exists b', mpinit_loop fuel p e 1 b = Ret 1 b' /\ recorded b l b'.
Proof.
  intros Hok He. remember (bmem b) as m eqn:Hm. revert fuel b Hok Hm.
  induction He as [p Hp|p l Hp Hk _ IH]; intros [|fuel] b Hok -> Hf; cbn [length] in Hf; try lia.
  - exists b. split; [|by apply recorded_nil]. cbn [mpinit_loop]. by rewrite (proj2 (Z.ltb_ge p e)).
  - cbn [mpinit_loop]. rewrite (proj2 (Z.ltb_lt p e)), bind_gets by lia. cbv zeta.
    set (m := bmem b) in *. unfold entry_size in IH.
    destruct (Z.eqb_spec (m p) MPPROC) as [Et|Et].
    { rewrite bind_gets. rewrite Et. unfold proc_apicid.
      destruct (Z.ltb_spec (Z.of_nat (ncpu (bmach b))) NCPU) as [Hn|Hn]; unfold NCPU in Hn.
      - cbn [whenM]. destruct (lookup_lt_is_Some_2 (cpus (bmach b)) (ncpu (bmach b))) as [c Hc]; [destruct Hok; lia|].
        rewrite (bind_add_cpu _ _ _ c) by done.
        edestruct (IH fuel) as (b' & Hb & Hr); [..|exists b'; split; [exact Hb|]].
        + by apply board_ok_add.
        + done.
        + lia.
        + eapply recorded_proc; [done|lia|done|done|exact Hr].
      - cbn [whenM]. rewrite bind_ret.
        destruct (IH fuel b) as (b' & Hb & Hr); [done..|lia|]. exists b'. split; [done|].
        apply recorded_full; [destruct Hok; lia|done]. }
    destruct (Z.eqb_spec (m p) MPIOAPIC) as [Ei|Ei].
    { rewrite bind_modify. edestruct (IH fuel) as (b' & Hb & Hr); [..|exists b'; split; [exact Hb|]]; [done..|lia|].
      eapply recorded_other; [done| |exact Hr]. by rewrite Ei. }
    unfold known in Hk. rewrite (proj2 (Z.eqb_neq _ _) Et), (proj2 (Z.eqb_neq _ _) Ei), !orb_false_l in Hk. rewrite Hk.
    destruct (IH fuel b) as (b' & Hb & Hr); [done..|lia|]. exists b'. split; [done|].
    eapply recorded_other; [done| |exact Hr]. rewrite (proj2 (Z.eqb_neq _ _) Ei). by destruct b.
Qed.

(** At an entry of unknown type the loop stays. *)
Lemma mpinit_loop_stuck fuel b e p ismp :
  p < e -> known (bmem b p) = false -> mpinit_loop fuel p e ismp b = Stop Looping b.
Proof.
  intros Hp Hk. revert ismp. unfold known in Hk. repeat (apply orb_false_iff in Hk as [Hk ?]).
  induction fuel as [|fuel IH]; intros ismp; [done|]. cbn [mpinit_loop].
  rewrite (proj2 (Z.ltb_lt p e)), bind_gets by lia. cbv zeta. rewrite Hk.
  repeat match goal with E : (bmem b p =? _) = false |- _ => rewrite E; clear E end. apply IH.
Qed.

Lemma mpinit_loop_forever fuel b e p q ismp :
  board_ok b -> leads_to (bmem b) e p q -> q < e -> known (bmem b q) = false ->
  exists b', mpinit_loop fuel p e ismp b = Stop Looping b'.
Proof.
  intros Hok Hl. remember (bmem b) as m eqn:Hm. revert fuel b Hok Hm.
  induction Hl as [p|p q Hp Hk _ IH]; intros fuel b Hok -> Hq Hu; [eexists; by apply mpinit_loop_stuck|].
  destruct fuel as [|fuel]; [by eexists|]. cbn [mpinit_loop].
  rewrite (proj2 (Z.ltb_lt p e)), bind_gets by lia. cbv zeta. set (m := bmem b) in *. unfold entry_size in IH.
  destruct (Z.eqb_spec (m p) MPPROC) as [Et|Et].
  { rewrite bind_gets. destruct (Z.ltb_spec (Z.of_nat (ncpu (bmach b))) NCPU) as [Hn|Hn]; unfold NCPU in Hn; cbn [whenM].
    - destruct (lookup_lt_is_Some_2 (cpus (bmach b)) (ncpu (bmach b))) as [c Hc]; [destruct Hok; lia|].
      rewrite (bind_add_cpu _ _ _ c) by done. apply IH; [by apply board_ok_add|done..].
    - rewrite bind_ret. by apply IH. }
  destruct (Z.eqb_spec (m p) MPIOAPIC) as [Ei|Ei]; [rewrite bind_modify; by apply IH|].
  unfold known in Hk. rewrite (proj2 (Z.eqb_neq _ _) Et), (proj2 (Z.eqb_neq _ _) Ei), !orb_false_l in Hk. rewrite Hk.
  by apply IH.
Qed.

(** The writes to the interrupt mode register. *)
Lemma imcr_io m mp b :
  exists h, (if c_true (mp_imcrp m mp) then
               do _ <- dev_outb 0x22 0x70; do v <- dev_inb 0x23; dev_outb 0x23 (Z.lor v 1)
             else ret tt) b = Ret tt (b <| io := h |>).
Proof. destruct (c_true _); [by eexists|]. exists (io b). by destruct b. Qed.

Lemma bind_stop {S R A C} (m : M S R A) (f : A -> M S R C) s r s' : m s = Stop r s' -> bind m f s = Stop r s'.
Proof. intros E. unfold bind. by rewrite E. Qed.

Lemma load16_range m a : bytes m -> 0 <= load16 m a < 2 ^ 16.
Proof. intros Hm. unfold load16. pose proof (Hm a). pose proof (Hm (a + 1)). lia. Qed.

Lemma recorded_io b l b' h : recorded b l b' -> recorded b l (b' <| io := h |> <| io := io b |>).
Proof. intros [? ? ? ? ? ? ? ? ?]. by split. Qed.

Lemma mpinit_returns fuel b conf mp l :
  bytes (bmem b) -> board_ok b -> mpconfig (bmem b) = Some (conf, mp) ->
  entries (bmem b) (conf + conf_length (bmem b) conf) (conf + sizeof_mpconf) l -> 8192 <= Z.of_nat fuel ->
  exists b', mpinit fuel b = Ret tt b' /\
    recorded (b <| lapic := conf_lapicaddr (bmem b) conf |>) l (b' <| io := io b |>).
Proof.
  intros Hm Hok Hc He Hf. pose proof (entries_length _ _ _ _ He) as Hl.
  pose proof (load16_range (bmem b) (conf + 4) Hm). unfold conf_length, sizeof_mpconf in *.
  set (b0 := b <| lapic := conf_lapicaddr (bmem b) conf |>). assert (Hok0 : board_ok b0) by exact Hok.
  destruct (mpinit_loop_end fuel b0 _ _ _ Hok0 He) as (b1 & Hb & Hr); [lia|].
  destruct (imcr_io (bmem b) mp b1) as [h Hh].
  exists (b1 <| io := h |>). split; [|by apply (recorded_io b0)].
  unfold mpinit. rewrite bind_gets, Hc, bind_modify. erewrite bind_ret_eq by exact Hb. exact Hh.
Qed.

Lemma mpinit_loops fuel b conf mp q :
  board_ok b -> mpconfig (bmem b) = Some (conf, mp) ->
  leads_to (bmem b) (conf + conf_length (bmem b) conf) (conf + sizeof_mpconf) q ->
  q < conf + conf_length (bmem b) conf -> known (bmem b q) = false ->
  exists b', mpinit fuel b = Stop Looping b'.
Proof.
  intros Hok Hc Hl Hq Hk.
  set (b0 := b <| lapic := conf_lapicaddr (bmem b) conf |>). assert (Hok0 : board_ok b0) by exact Hok.
  destruct (mpinit_loop_forever fuel b0 _ _ _ 1 Hok0 Hl Hq Hk) as [b' Hb].
  exists b'. unfold mpinit. rewrite bind_gets, Hc, bind_modify. by apply bind_stop.
Qed.
End Facts.

(** The search stops at the first 16-byte step that has the signature and a sum of 0. *)
Definition is_mp (m : mem) (p : Z) : bool := mem_is m p lit_MP && (sum m p sizeof_mp =? 0).
Lemma mpsearch1_first m p n q :
  mpsearch1_loop m p n = Some q <->
  exists k, (k < n)%nat /\ q = p + 16 * Z.of_nat k /\ is_mp m q = true /\
    forall j, (j < k)%nat -> is_mp m (p + 16 * Z.of_nat j) = false.
Proof.
  revert p. induction n as [|n IH]; intros p; cbn [mpsearch1_loop]; [split; [done|intros (k & Hk & _); lia]|].
  fold (is_mp m p). destruct (is_mp m p) eqn:E; unfold sizeof_mp.
  - split; [intros [= <-]; exists 0%nat; rewrite Z.add_0_r; split_and!; [lia|done..|lia]|].
    intros ([|k] & _ & -> & _ & Hf); [by rewrite Z.add_0_r|].
    specialize (Hf 0%nat ltac:(lia)). rewrite Z.add_0_r in Hf. congruence.
  - rewrite IH. split.
    + intros (k & Hk & -> & Hq & Hf). exists (S k). split_and!; [lia|lia|done|].
      intros [|j] Hj; [by rewrite Z.add_0_r|]. rewrite <- (Hf j) by lia. f_equal. lia.
    + intros ([|k] & Hk & -> & Hq & Hf); [rewrite Z.add_0_r in Hq; congruence|].
      exists k. split_and!; [lia|lia|done|]. intros j Hj. rewrite <- (Hf (S j)) by lia. f_equal. lia.
Qed.

(** ** Theorems *)

(** C28: mpinit on a machine with a valid configuration table either returns or runs
    for ever, and the table decides which.  If every entry has one of the five known
    types it returns within 8192 turns of its loop, with the local APIC address of the
    table, the APIC numbers of the first NCPU processors of the table in cpus, their
    number added to ncpu and the number of the last I/O APIC.  If an entry has another
    type, the loop stays at that entry and no number of turns is enough: the panic the
    code has for such a machine is never reached. *)
Theorem mpinit_terminates {H} `{Ports H} (b : board H) conf mp :
  mpconfig (bmem b) = Some (conf, mp) -> bytes (bmem b) -> board_ok b ->
  let e := conf + conf_length (bmem b) conf in
  let first := conf + sizeof_mpconf in
  (exists l, entries (bmem b) e first l /\
     forall fuel, 8192 <= Z.of_nat fuel ->
       exists b', mpinit fuel b = Ret tt b' /\
         recorded (b <| lapic := conf_lapicaddr (bmem b) conf |>) l (b' <| io := io b |>)) \/
  (exists q, leads_to (bmem b) e first q /\ q < e /\ known (bmem b q) = false /\
     forall fuel, exists b', mpinit fuel b = Stop Looping b').
Proof.
  intros Hc Hm Hok e first. destruct (entries_or_unknown (bmem b) e first) as [[l Hl]|(q & Hq & He & Hu)].
  - left. exists l. split; [done|]. intros. by eapply mpinit_returns.
  - right. exists q. repeat split; [done..|]. intros. by eapply mpinit_loops.
Qed.

Lemma mycpu_found k c h i :
  hws k !! c = Some h -> if_set (eflags h) = false -> (ncpu k <= length (cpus k))%nat ->
  NoDup (apicid <$> take (ncpu k) (cpus k)) -> (apicid <$> take (ncpu k) (cpus k)) !! i = Some (lapic_id h) ->
  mycpu c k = Ret i k.
Proof.
  intros Hh Hf Hn Hd Hi. unfold mycpu, readeflags, lapicid.
  rewrite !bind_assoc, bind_gets, Hh, bind_assoc, bind_deref, bind_ret, Hf, bind_assoc, bind_gets, Hh, bind_assoc, bind_deref, bind_ret, bind_gets.
  rewrite list_lookup_fmap in Hi. destruct (take (ncpu k) (cpus k) !! i) as [cp|] eqn:E; [|done].
  injection Hi as Hi. destruct (list_find _ _) as [[j x]|] eqn:F.
  - apply list_find_Some in F as (Hj & Hx & _). unfold ret. f_equal.
    eapply NoDup_lookup; [exact Hd|rewrite list_lookup_fmap, Hj; simpl; by rewrite Hx|].
    rewrite list_lookup_fmap, E. simpl. by rewrite Hi.
  - apply list_find_None in F. rewrite Forall_forall in F. exfalso. apply (F cp); [by eapply list_elem_of_lookup_2|done].
Qed.

(** After mpinit, mycpu on the processor with the APIC number of the [i]-th processor
    entry of the table is [cpus + i], when the numbers of the table differ. *)
Theorem mpinit_mycpu {H} `{Ports H} (b : board H) conf mp l fuel c h i :
  bytes (bmem b) -> board_ok b -> ncpu (bmach b) = 0%nat -> mpconfig (bmem b) = Some (conf, mp) ->
  entries (bmem b) (conf + conf_length (bmem b) conf) (conf + sizeof_mpconf) l -> NoDup (proc_ids l) ->
  8192 <= Z.of_nat fuel ->
  hws (bmach b) !! c = Some h -> if_set (eflags h) = false ->
  proc_ids l !! i = Some (lapic_id h) -> (i < 8)%nat ->
  exists b', mpinit fuel b = Ret tt b' /\ mycpu c (bmach b') = Ret i (bmach b').
Proof.
  intros Hm Hok Hz Hc He Hd Hf Hh Hif Hi Hlt.
  destruct (mpinit_returns fuel b conf mp l) as (b' & Hb & [_ _ _ _ Hk Hl Hn Hids _]); [done..|].
  exists b'. split; [done|]. cbn [bmach ncpu cpus hws setter] in *. rewrite Hz in Hn, Hids. rewrite take_0 in Hids. change (8 - 0)%nat with 8%nat in *.
  apply mycpu_found with h; rewrite ?Hids; try done.
  - by rewrite Hk.
  - rewrite Hn, Hl, length_take. lia.
  - apply (NoDup_app (take 8 (proc_ids l)) (drop 8 (proc_ids l))). by rewrite take_drop.
  - rewrite fmap_nil, app_nil_l. by rewrite lookup_take_lt.
Qed.

(** A machine with a table of two processors, an I/O APIC, a bus and an interrupt line. *)
Definition place (a : Z) (l : list Z) (m : mem) : mem :=
  fun x => if (a <=? x) && (x <? a + Z.of_nat (length l)) then nth (Z.to_nat (x - a)) l 0 else m x.
Definition demo_table (ty : Z) : list Z :=
  let head := lit_PCMP ++ [116; 0; 4] in
  let tail := replicate 20 0 ++ [0; 0; 0; 0; 0; 0; 5; 0] ++ [0; 0; 0xE0; 0xFE] ++ [0; 0; 0; 0] ++
              ([MPPROC; 7; 0x14; 3] ++ replicate 16 0) ++ ([MPPROC; 9; 0x14; 1] ++ replicate 16 0) ++
              ([MPIOAPIC; 2; 0; 1] ++ replicate 4 0) ++ ([MPBUS] ++ replicate 7 0) ++
              ([ty] ++ replicate 7 0) ++ ([MPLINTR] ++ replicate 7 0) in
  let check := u8 (- foldr Z.add 0 (head ++ tail)) in
  head ++ [check] ++ tail.
Definition demo_mp : list Z :=
  let head := lit_MP ++ [0; 0; 2; 0; 1; 4] in
  let tail := [0; 0; 0; 0; 0] in
  head ++ [u8 (- foldr Z.add 0 (head ++ tail))] ++ tail.
Definition demo_mem (ty : Z) : mem :=
  place (P2V 0x40E) [0x00; 0x10] (place (P2V 0x10000) demo_mp (place (P2V 0x20000) (demo_table ty) (fun _ => 0))).
Definition demo_cpu : cpu := Cpu 0 0 0 0 0 0 0 None None.
Definition demo_mach : mach :=
  Mach (replicate 8 demo_cpu) 0 [Hw 0 7 0 0; Hw 0 9 0 0] (fun _ => Spinlock 0 "" None []) (fun _ => 0) (fun _ => 0).
Definition demo_ports : Ports unit :=
  {| io_inb := fun _ h => (0, h); io_outb := fun _ _ h => h; io_insl := fun _ _ h => ([], h); io_outsl := fun _ _ h => h |}.
Definition demo_board (ty : Z) : board unit := Board (demo_mem ty) demo_mach 0 0 [] tt.

Lemma place_bytes a l m : Forall (fun x => 0 <= x < 256) l -> bytes m -> bytes (place a l m).
Proof.
  intros Hl Hm x. unfold place. destruct ((a <=? x) && (x <? a + Z.of_nat (length l))) eqn:E; [|apply Hm].
  to_prop. rewrite Forall_forall in Hl. apply Hl, list_elem_of_In, nth_In. lia.
Qed.

Lemma demo_bytes ty : ty ∈ [MPIOINTR; 0xFF] -> bytes (demo_mem ty).
Proof.
  intros Ht. repeat apply place_bytes; [| | |intros x; lia].
  - repeat constructor; lia.
  - apply (bool_decide_unpack _). by vm_compute.
  - apply list_elem_of_In in Ht as [<-|[<-|[]]]; apply (bool_decide_unpack _); by vm_compute.
Qed.

Lemma mpinit_terminates_witness :
  known 0xFF = false /\
  ((exists l, entries (demo_mem 0xFF) 2147614836 2147614764 l /\
     forall fuel, 8192 <= Z.of_nat fuel ->
       exists b', mpinit (H0 := demo_ports) fuel (demo_board 0xFF) = Ret tt b' /\
         recorded (demo_board 0xFF <| lapic := 0xFEE00000 |>) l (b' <| io := tt |>)) \/
   (exists q, leads_to (demo_mem 0xFF) 2147614836 2147614764 q /\ q < 2147614836 /\ known (demo_mem 0xFF q) = false /\
     forall fuel, exists b', mpinit (H0 := demo_ports) fuel (demo_board 0xFF) = Stop Looping b')).
Proof.
  split; [reflexivity|].
  exact (mpinit_terminates (H0 := demo_ports) (demo_board 0xFF) 2147614720 2147549184
           ltac:(vm_compute; reflexivity) (demo_bytes 0xFF ltac:(vm_compute; by repeat constructor))
           (conj eq_refl (Nat.le_0_l 8))).
Defined.
