(* ===== verification/Lapic.v ===== *)
(** * Interrupt controllers and the clock (lapic.c, ioapic.c, picirq.c)

    The registers of the two APICs are words of memory that the hardware answers
    for ([Mmio]); the clock and the old interrupt controllers are behind ports.  The
    loops that wait for the hardware take fuel, one unit per turn.  [microdelay] has
    an empty body. *)
From S2P Require Import Prelude Spinlock ProcDefs Memory Kalloc Vm Proc Kthread Exec Trap Ide Mp.
Local Open Scope Z_scope.
Local Open Scope kernel_scope.

Class Mmio (H : Type) := {
  mm_read : Z -> H -> Z * H;
  mm_write : Z -> Z -> H -> H
}.

(** ** Constants *)

(** The registers of the local APIC, and their places in [uint lapic[]]. *)
Inductive lapic_reg := ID | VER | TPR | EOI | SVR | ESR | ICRLO | ICRHI | TIMER | PCINT | LINT0 | LINT1 | ERROR | TICR | TDCR.
Definition reg_index (r : lapic_reg) : Z :=
  match r with
  | ID => 0x0020 / 4
  | VER => 0x0030 / 4
  | TPR => 0x0080 / 4
  | EOI => 0x00B0 / 4
  | SVR => 0x00F0 / 4
  | ESR => 0x0280 / 4
  | ICRLO => 0x0300 / 4
  | ICRHI => 0x0310 / 4
  | TIMER => 0x0320 / 4
  | PCINT => 0x0340 / 4
  | LINT0 => 0x0350 / 4
  | LINT1 => 0x0360 / 4
  | ERROR => 0x0370 / 4
  | TICR => 0x0380 / 4
  | TDCR => 0x03E0 / 4
  end.

Definition ENABLE : Z := 0x00000100.
Definition INIT : Z := 0x00000500.
Definition STARTUP : Z := 0x00000600.
Definition DELIVS : Z := 0x00001000.
Definition ASSERT : Z := 0x00004000.
Definition LEVEL : Z := 0x00008000.
Definition BCAST : Z := 0x00080000.
Definition X1 : Z := 0x0000000B.
Definition PERIODIC : Z := 0x00020000.
Definition MASKED : Z := 0x00010000.

Definition IRQ_ERROR : Z := 19.

Definition CMOS_PORT : Z := 0x70.
Definition CMOS_RETURN : Z := 0x71.
Definition CMOS_STATA : Z := 0x0a.
Definition CMOS_STATB : Z := 0x0b.
Definition CMOS_UIP : Z := Z.shiftl 1 7.
Definition SECS : Z := 0x00.
Definition MINS : Z := 0x02.
Definition HOURS : Z := 0x04.
Definition DAY : Z := 0x07.
Definition MONTH : Z := 0x08.
Definition YEAR : Z := 0x09.

Definition IOAPIC : Z := 0xFEC00000.
Definition REG_ID : Z := 0x00.
Definition REG_VER : Z := 0x01.
Definition REG_TABLE : Z := 0x10.
Definition INT_DISABLED : Z := 0x00010000.

Definition IO_PIC1 : Z := 0x20.
Definition IO_PIC2 : Z := 0xA0.

Record rtcdate := Rtcdate {
  second : Z;
  minute : Z;
  hour : Z;
  day : Z;
  month : Z;
  year : Z
}.
#[export] Instance rtcdate_eta : Eta rtcdate :=
  fun r => Rtcdate (second r) (minute r) (hour r) (day r) (month r) (year r).
#[export] Instance rtcdate_eq : EqDecision rtcdate.
Proof. solve_decision. Defined.

Section Devices.
Context {H : Type} `{Ports H} `{Mmio H}.
Abbreviation B := (M (board H) looping).

(** A volatile word of memory. *)
Definition word_in (a : Z) : B Z :=
  do o <- gets (fun b => mm_read a (io b));
  modify (fun b => b <| io := o.2 |>);;
  ret (u32 o.1).
Definition word_out (a v : Z) : B unit := modify (fun b => b <| io ::= mm_write a (u32 v) |>).

(** ** lapic.c *)

(** [lapic[index]] *)
Definition lapicr (r : lapic_reg) : B Z :=
  do l <- gets lapic; word_in (u32 (l + 4 * reg_index r)).
Definition lapicw (r : lapic_reg) (value : Z) : B unit :=
  do l <- gets lapic;
  word_out (u32 (l + 4 * reg_index r)) value;;
  lapicr ID;;
  ret tt.

(** while(lapic[ICRLO] & DELIVS) ; *)
Fixpoint wait_delivered (fuel : nat) : B unit :=
  match fuel with
  | O => stop Looping
  | S fuel' => do v <- lapicr ICRLO; if c_true (Z.land v DELIVS) then wait_delivered fuel' else ret tt
  end.

Definition lapicinit (fuel : nat) : B unit :=
  do l <- gets lapic;
  if l =? 0 then ret tt else
  lapicw SVR (Z.lor ENABLE (T_IRQ0 + IRQ_SPURIOUS));;
  lapicw TDCR X1;;
  lapicw TIMER (Z.lor PERIODIC (T_IRQ0 + IRQ_TIMER));;
  lapicw TICR 10000000;;
  lapicw LINT0 MASKED;;
  lapicw LINT1 MASKED;;
  do v <- lapicr VER;
  whenM (4 <=? Z.land (Z.shiftr v 16) 0xFF) (lapicw PCINT MASKED);;
  lapicw ERROR (T_IRQ0 + IRQ_ERROR);;
  lapicw ESR 0;;
  lapicw ESR 0;;
  lapicw EOI 0;;
  lapicw ICRHI 0;;
  lapicw ICRLO (Z.lor (Z.lor BCAST INIT) LEVEL);;
  wait_delivered fuel;;
  lapicw TPR 0.

(** [lapicid()], from the register; Spinlock.v has its value as [lapic_id]. *)
Definition lapicid_reg : B Z :=
  do l <- gets lapic;
  if l =? 0 then ret 0 else
  do v <- lapicr ID; ret (Z.shiftr v 24).

Definition lapiceoi : B unit :=
  do l <- gets lapic;
  whenM (c_true l) (lapicw EOI 0).

(** *(ushort)a = v *)
Definition mem16 (a v : Z) : B unit :=
  modify (fun b => b <| bmem ::= fun m => Memory.store (Memory.store m a v) (a + 1) (Z.shiftr v 8) |>).

Definition lapicstartap (apicid addr : Z) : B unit :=
  dev_outb CMOS_PORT 0xF;;
  dev_outb (CMOS_PORT + 1) 0x0A;;
  let wrv := P2V (Z.lor (Z.shiftl 0x40 4) 0x67) in
  mem16 wrv 0;;
  mem16 (wrv + 2) (u16 (Z.shiftr addr 4));;
  lapicw ICRHI (Z.shiftl apicid 24);;
  lapicw ICRLO (Z.lor (Z.lor INIT LEVEL) ASSERT);;
  lapicw ICRLO (Z.lor INIT LEVEL);;
  forM (seq 0 2) (fun _ =>
    lapicw ICRHI (Z.shiftl apicid 24);;
    lapicw ICRLO (Z.lor STARTUP (Z.shiftr addr 12))).

Definition cmos_read (reg : Z) : B Z :=
  dev_outb CMOS_PORT reg;;
  dev_inb CMOS_RETURN.

Definition fill_rtcdate : B rtcdate :=
  do s <- cmos_read SECS;
  do mi <- cmos_read MINS;
  do h <- cmos_read HOURS;
  do d <- cmos_read DAY;
  do mo <- cmos_read MONTH;
  do y <- cmos_read YEAR;
  ret (Rtcdate s mi h d mo y).

(** for(;;): two equal readings with no update in progress between them *)
Fixpoint cmostime_loop (fuel : nat) : B rtcdate :=
  match fuel with
  | O => stop Looping
  | S fuel' =>
    do t1 <- fill_rtcdate;
    do a <- cmos_read CMOS_STATA;
    if c_true (Z.land a CMOS_UIP) then cmostime_loop fuel' else
    do t2 <- fill_rtcdate;
    if bool_decide (t1 = t2) then ret t1 else cmostime_loop fuel'
  end.

Definition CONV (x : Z) : Z := u32 (Z.shiftr x 4 * 10 + Z.land x 0xf).

Definition cmostime (fuel : nat) : B rtcdate :=
  do sb <- cmos_read CMOS_STATB;
  let bcd := Z.land sb (Z.shiftl 1 2) =? 0 in
  do t1 <- cmostime_loop fuel;
  let t1 :=
    if bcd then Rtcdate (CONV (second t1)) (CONV (minute t1)) (CONV (hour t1)) (CONV (day t1)) (CONV (month t1)) (CONV (year t1))
    else t1 in
  ret (t1 <| year ::= fun y => u32 (y + 2000) |>).

(** ** ioapic.c *)

(** [reg] is the first word of the structure at [IOAPIC] and [data] the fifth. *)
Definition ioapicread (reg : Z) : B Z := word_out IOAPIC reg;; word_in (IOAPIC + 16).
Definition ioapicwrite (reg data : Z) : B unit := word_out IOAPIC reg;; word_out (IOAPIC + 16) data.

(** for(i = 0; i <= maxintr; i++), [n] turns from [i] *)
Fixpoint ioapic_mask (i : Z) (n : nat) : B unit :=
  match n with
  | O => ret tt
  | S n' =>
    ioapicwrite (REG_TABLE + 2 * i) (Z.lor INT_DISABLED (T_IRQ0 + i));;
    ioapicwrite (REG_TABLE + 2 * i + 1) 0;;
    ioapic_mask (i + 1) n'
  end.

Definition msg_not_mp : string := "ioapicinit: id isn't equal to ioapicid; not a MP\n".

Definition ioapicinit : B unit :=
  do ver <- ioapicread REG_VER;
  let maxintr := Z.land (Z.shiftr ver 16) 0xFF in
  do idr <- ioapicread REG_ID;
  let id := Z.shiftr idr 24 in
  do want <- gets ioapicid;
  whenM (negb (id =? want)) (modify (fun b => b <| msgs ::= fun l => l ++ [msg_not_mp] |>));;
  ioapic_mask 0 (Z.to_nat (maxintr + 1)).

Definition ioapicenable (irq cpunum : Z) : B unit :=
  ioapicwrite (REG_TABLE + 2 * irq) (T_IRQ0 + irq);;
  ioapicwrite (REG_TABLE + 2 * irq + 1) (Z.shiftl cpunum 24).

(** ** picirq.c *)
Definition picinit : B unit :=
  dev_outb (IO_PIC1 + 1) 0xFF;;
  dev_outb (IO_PIC2 + 1) 0xFF.
End Devices.
