(* ===== verification/LapicSpec.v ===== *)
(** * The clock and the I/O APIC (lapic.c, ioapic.c)

    [Rtc] is what the data sheet of the clock promises: the registers are updated once
    a second, they may hold anything while the update goes on (1984 us), and the
    update-in-progress bit is set from 244 us before the update to its end.
    [IoapicDev] is the window of the I/O APIC: a word that selects a register and a
    word that accesses the one selected. *)
From S2P Require Import Prelude Memory Spinlock ProcDefs Kalloc Vm Trap Ide Mp Lapic.
Local Open Scope Z_scope.
Local Open Scope kernel_scope.

(** ** The clock *)

(** Time in microseconds; an update ends with each full second. *)
Definition SEC : Z := 1000000.
Definition stable (t : Z) : Prop := t mod SEC < SEC - 1984.
Definition updating (t : Z) : bool := SEC - 2228 <=? t mod SEC.

Definition encode (binary : bool) (x : Z) : Z := if binary then x else x / 10 * 16 + x mod 10.
Definition date_regs : list (Z * (rtcdate -> Z)) :=
  [(SECS, second); (MINS, minute); (HOURS, hour); (DAY, day); (MONTH, month); (YEAR, year)].

(** [rtc_us] is the time, [rtc_clock] the date (with a two-digit year) by the second,
    [rtc_sel] the register selected, [rtc_binary] the format of status register B.  An
    access takes between 1 and 20 us, and a register is read at the end of it. *)
Class Rtc (H : Type) `{Ports H} := {
  rtc_us : H -> Z;
  rtc_sel : H -> Z;
  rtc_clock : Z -> rtcdate;
  rtc_binary : bool;
  rtc_select v h : rtc_sel (io_outb CMOS_PORT v h) = v;
  rtc_out_time v h : rtc_us h + 1 <= rtc_us (io_outb CMOS_PORT v h) <= rtc_us h + 20;
  rtc_in_time h : rtc_us h + 1 <= rtc_us (io_inb CMOS_RETURN h).2 <= rtc_us h + 20;
  rtc_stata h : rtc_sel h = CMOS_STATA ->
    Z.testbit (io_inb CMOS_RETURN h).1 7 = updating (rtc_us (io_inb CMOS_RETURN h).2);
  rtc_statb h : rtc_sel h = CMOS_STATB -> Z.testbit (io_inb CMOS_RETURN h).1 2 = rtc_binary;
  rtc_value h r f : (r, f) ∈ date_regs -> rtc_sel h = r -> stable (rtc_us (io_inb CMOS_RETURN h).2) ->
    (io_inb CMOS_RETURN h).1 = encode rtc_binary (f (rtc_clock (rtc_us (io_inb CMOS_RETURN h).2 / SEC)));
  rtc_two_digits n r f : (r, f) ∈ date_regs -> 0 <= f (rtc_clock n) < 100
}.

Section Clock.
Context {H : Type} `{Rtc H}.
Implicit Types b : board H.

Definition now b : Z := rtc_us (io b).
(** [b] with the machine at a later time. *)
Definition later b (lo hi : Z) b' : Prop := b' = b <| io := io b' |> /\ now b + lo <= now b' <= now b + hi.

Lemma later_trans b b1 b2 l1 h1 l2 h2 :
  later b l1 h1 b1 -> later b1 l2 h2 b2 -> later b (l1 + l2) (h1 + h2) b2.
Proof. intros [E1 T1] [E2 T2]. split; [|lia]. rewrite E1 in E2. by destruct b. Qed.

Lemma later_weaken b b' l h l' h' : later b l h b' -> l' <= l -> h <= h' -> later b l' h' b'.
Proof. intros [E T] ? ?. split; [done|lia]. Qed.

(** [b] run for one more reading. *)
Definition read_at (r : Z) b : Z * H := io_inb CMOS_RETURN (io_outb CMOS_PORT (u8 r) (io b)).

Lemma bind_cmos {A} r b (k : Z -> M (board H) looping A) :
  exists b', bind (cmos_read r) k b = k (read_at r b).1 b' /\ io b' = (read_at r b).2 /\ later b 2 40 b'.
Proof.
  exists (b <| io := (read_at r b).2 |>). split_and!; [by destruct b|done|]. split; [by destruct b|].
  pose proof (rtc_out_time (u8 r) (io b)). pose proof (rtc_in_time (io_outb CMOS_PORT (u8 r) (io b))).
  unfold now, read_at. cbn. lia.
Qed.

(** One reading of a register, and of the date. *)
Ltac cmos_step b1 I L :=
  match goal with
  | |- context [bind (cmos_read ?r) ?k ?b] =>
    let E := fresh in destruct (bind_cmos r b k) as (b1 & E & I & L); rewrite E; clear E
  end.
Ltac read_reg := rewrite bind_assoc; let b := fresh "b" in let I := fresh "I" in let L := fresh "L" in cmos_step b I L.

Lemma sec_window t d : 0 <= d -> t mod SEC + d < SEC -> (t + d) / SEC = t / SEC /\ (t + d) mod SEC = t mod SEC + d.
Proof.
  unfold SEC. intros. pose proof (Z.div_mod t 1000000 ltac:(lia)). pose proof (Z.mod_pos_bound t 1000000 ltac:(lia)).
  split; symmetry; [apply (Z.div_unique_pos _ _ _ (t mod 1000000 + d))|apply (Z.mod_unique_pos _ _ (t / 1000000))]; lia.
Qed.

(** A date register read when the registers are stable. *)
Lemma read_date b b' r f t hi :
  (r, f) ∈ date_regs -> io b' = (read_at r b).2 -> later b 2 40 b' ->
  t <= now b -> now b' <= t + hi -> t mod SEC + hi < SEC - 1984 ->
  (read_at r b).1 = encode rtc_binary (f (rtc_clock (t / SEC))).
Proof.
  intros Hr Hio [_ Hl] Ht Hb Hs. unfold now in *. rewrite Hio in Hl, Hb.
  set (h' := (read_at r b).2) in *.
  destruct (sec_window t (rtc_us h' - t)) as [Hd Hm]; [lia|unfold SEC in *; lia|].
  replace (t + (rtc_us h' - t)) with (rtc_us h') in Hd, Hm by lia.
  unfold read_at in *. rewrite (rtc_value _ r f); [by fold h'; rewrite Hd|done| |].
  - rewrite rtc_select. apply list_elem_of_In in Hr. cbn in Hr. by intuition (simplify_eq).
  - fold h'. unfold stable. rewrite Hm. lia.
Qed.

(** What the six registers hold for a date. *)
Definition raw (d : rtcdate) : rtcdate :=
  let e := encode rtc_binary in
  Rtcdate (e (second d)) (e (minute d)) (e (hour d)) (e (day d)) (e (month d)) (e (year d)).

Lemma bind_fill {A} b (k : rtcdate -> M (board H) looping A) :
  exists d b', bind fill_rtcdate k b = k d b' /\ later b 12 240 b' /\
    (now b mod SEC + 240 < SEC - 1984 -> d = raw (rtc_clock (now b / SEC))).
Proof.
  unfold fill_rtcdate. do 6 read_reg. rewrite bind_ret. eexists _, _. split; [reflexivity|]. split.
  - eapply later_weaken; [do 5 (eapply later_trans; [eassumption|]); eassumption|lia..].
  - intros Hs. unfold raw.
    repeat match goal with L : later _ _ _ _ |- _ => pose proof (proj2 L); revert L end. intros.
    f_equal; (eapply read_date; [|eassumption|eassumption|..|exact Hs]; [unfold date_regs; set_solver|lia|lia]).
Qed.

Ltac fill_step d b1 L V :=
  match goal with
  | |- context [bind fill_rtcdate ?k ?b] =>
    let E := fresh in destruct (bind_fill b k) as (d & b1 & E & L & V); rewrite E; clear E
  end.

Lemma testbit_land v k : 0 <= k -> c_true (Z.land v (Z.shiftl 1 k)) = Z.testbit v k.
Proof.
  intros Hk. unfold c_true. rewrite Z.shiftl_1_l. destruct (Z.testbit v k) eqn:E.
  - destruct (Z.eqb_spec (Z.land v (2 ^ k)) 0) as [Z0|]; [|done].
    assert (Z.testbit (Z.land v (2 ^ k)) k = false) by (rewrite Z0; apply Z.bits_0).
    rewrite Z.land_spec, Z.pow2_bits_true, E in H2 by lia. done.
  - assert (Z.land v (2 ^ k) = 0) as ->; [|done]. apply Z.bits_inj'. intros n Hn.
    rewrite Z.land_spec, Z.bits_0, Z.pow2_bits_eqb by lia. destruct (Z.eqb_spec k n) as [<-|]; [by rewrite E|apply andb_false_r].
Qed.

(** One turn of the loop: it returns the date of the clock, or goes on later. *)
Definition good b : Prop := now b mod SEC < SEC - 2748.

Lemma cmos_turn fuel b :
  (exists b' t, cmostime_loop (S fuel) b = Ret (raw (rtc_clock (t / SEC))) b' /\
     b' = b <| io := io b' |> /\ now b <= t <= now b') \/
  (~ good b /\ exists b', cmostime_loop (S fuel) b = cmostime_loop fuel b' /\ later b 14 520 b').
Proof.
  cbn [cmostime_loop].
  fill_step d1 b1 L1 V1. cmos_step b2 I2 L2.
  pose proof (later_trans _ _ _ _ _ _ _ L1 L2) as L12.
  unfold CMOS_UIP. rewrite testbit_land by lia.
  unfold read_at. rewrite rtc_stata by apply rtc_select. fold (read_at CMOS_STATA b1). rewrite <- I2. fold (now b2).
  assert (Hwin : good b -> forall t, now b <= t <= now b + 520 -> t mod SEC < SEC - 2228 /\ t / SEC = now b / SEC).
  { unfold good. intros Hg t Ht. destruct (sec_window (now b) (t - now b)) as [Hd Hm]; [lia|unfold SEC in *; lia|].
    replace (now b + (t - now b)) with t in Hd, Hm by lia. lia. }
  destruct (updating (now b2)) eqn:Hu; unfold updating in Hu; to_prop.
  - right. split; [|exists b2; split; [done|]; eapply later_weaken; [exact L12|lia..]].
    intros Hg. destruct (Hwin Hg (now b2)); [destruct L12; lia|lia].
  - fill_step d2 b3 L3 V2.
    pose proof (later_trans _ _ _ _ _ _ _ L12 L3) as L13.
    rewrite V2 by (unfold SEC in *; lia). case_bool_decide as Hd.
    + left. exists b3, (now b2). rewrite Hd. split; [done|]. destruct L13, L12, L3. split; [done|lia].
    + right. split; [|exists b3; split; [done|]; eapply later_weaken; [exact L13|lia..]].
      intros Hg. apply Hd. rewrite V1 by (unfold good, SEC in *; lia).
      destruct (Hwin Hg (now b2)) as [_ ->]; [destruct L12; lia|done].
Qed.

Lemma cmos_rounds k fuel b :
  good b \/ SEC - now b mod SEC <= 14 * Z.of_nat k -> (k < fuel)%nat ->
  exists b' t, cmostime_loop fuel b = Ret (raw (rtc_clock (t / SEC))) b' /\
    b' = b <| io := io b' |> /\ now b <= t <= now b'.
Proof.
  revert fuel b. induction k as [|k IH]; intros [|fuel] b Hk Hf; try lia;
    (destruct (cmos_turn fuel b) as [Hr|(Hg & b1 & E & L)]; [exact Hr|]); destruct Hk as [|Hk]; [done| |done|].
  - pose proof (Z.mod_pos_bound (now b) SEC ltac:(done)). lia.
  - destruct (IH fuel b1) as (b' & t & E' & Hb & Ht); [|lia|].
    + destruct L as [_ L]. unfold good in *. pose proof (Z.mod_pos_bound (now b) SEC ltac:(done)).
      destruct (decide (now b1 - now b < SEC - now b mod SEC)).
      * right. destruct (sec_window (now b) (now b1 - now b)) as [_ Hm]; [lia..|].
        replace (now b + (now b1 - now b)) with (now b1) in Hm by lia. lia.
      * left. pose proof (Z.div_mod (now b) SEC ltac:(done)).
        rewrite <- (Z.mod_unique_pos (now b1) SEC (now b / SEC + 1) (now b1 - now b - (SEC - now b mod SEC)));
          unfold SEC in *; lia.
    + exists b', t. rewrite E, E'. split; [done|].
      destruct (later_trans b b1 b' _ _ 0 (now b' - now b1) L) as [Hb' _]; [split; [done|lia]|].
      destruct L as [_ L]. split; [done|lia].
Qed.

Lemma conv_encode x : 0 <= x < 100 -> CONV (encode false x) = x.
Proof.
  intros Hx. cut (Forall (fun x => CONV (encode false x) = x) (seqZ 0 100)).
  - intros HF. rewrite Forall_forall in HF. apply HF, elem_of_seqZ. lia.
  - apply (bool_decide_unpack _). by vm_compute.
Qed.

(** ** Theorem *)

(** C29: cmostime returns within 198 turns of its loop, whatever the clock does while it
    is read: the registers may hold anything during an update, and an update may start
    or end between any two accesses.  The date it returns is one the clock shows at a
    moment between the call and the return, with the year in full, in either format of
    the registers. *)
Theorem cmostime_reads_clock b (fuel : nat) :
  (198 <= fuel)%nat ->
  exists b' t, cmostime fuel b = Ret (rtc_clock (t / SEC) <| year ::= fun y => y + 2000 |>) b' /\
    b' = b <| io := io b' |> /\ now b <= t <= now b'.
Proof.
  intros Hf. unfold cmostime. cmos_step b1 I1 L1. cbv zeta.
  destruct (cmos_rounds 197 fuel b1) as (b' & t & E & Hb & Ht); [|lia|].
  { unfold good. destruct (decide (now b1 mod SEC < SEC - 2748)); [by left|right; lia]. }
  erewrite bind_ret_eq by exact E. exists b', t.
  destruct (later_trans b b1 b' _ _ 0 (now b' - now b1) L1) as [Hb' _]; [split; [done|lia]|].
  destruct L1 as [_ L1]. split; [|split; [done|lia]]. unfold ret. f_equal.
  pose proof (testbit_land (read_at CMOS_STATB b).1 2 ltac:(lia)) as Hbit. unfold c_true in Hbit.
  unfold read_at in Hbit at 2. rewrite rtc_statb in Hbit by apply rtc_select.
  apply (f_equal negb) in Hbit. rewrite negb_involutive in Hbit. rewrite Hbit.
  pose proof (fun r f => rtc_two_digits (t / SEC) r f) as Hd. set (d := rtc_clock (t / SEC)) in *.
  assert (Hall : Forall (fun rf => 0 <= rf.2 d < 100) date_regs) by (apply Forall_forall; intros [r f]; apply Hd).
  unfold date_regs in Hall. repeat (apply Forall_cons in Hall as [? Hall]). cbn [snd] in *.
  unfold raw. destruct rtc_binary; cbn [negb second minute hour day month year].
  - unfold encode. destruct d. cbn in *. by rewrite u32_small by lia.
  - rewrite !conv_encode by done. destruct d. cbn in *. by rewrite u32_small by lia.
Qed.

End Clock.

(** A clock whose accesses take 3 us, started 2 s before the end of a minute and 100 us
    before an update, with the registers in BCD and broken during an update. *)
Definition demo_clock (n : Z) : rtcdate := Rtcdate (n mod 60) 59 23 31 12 (n / 60 mod 100).
Definition demo_reg (h : Z * Z) : Z :=
  let '(t, r) := h in
  if r =? CMOS_STATA then (if updating t then 0xA6 else 0x26) else
  if r =? CMOS_STATB then 0x02 else
  if SEC - 1984 <=? t mod SEC then 0xEE else
  match list_find (fun x => x.1 = r) date_regs with
  | Some (_, x) => encode false (x.2 (demo_clock (t / SEC)))
  | None => 0
  end.
#[local] Instance demo_rtc_ports : Ports (Z * Z) :=
  {| io_inb := fun p h => (demo_reg (h.1 + 3, h.2), (h.1 + 3, h.2));
     io_outb := fun p v h => (h.1 + 3, v);
     io_insl := fun _ _ h => ([], h); io_outsl := fun _ _ h => h |}.

Lemma demo_date_reg r f : (r, f) ∈ date_regs -> exists i, list_find (fun x => x.1 = r) date_regs = Some (i, (r, f)) /\ r <> CMOS_STATA /\ r <> CMOS_STATB.
Proof. intros Hr. apply list_elem_of_In in Hr. cbn in Hr. destruct_or! Hr; simplify_eq; (eexists; split; [reflexivity|done]) || done. Qed.

#[local] Instance demo_rtc : Rtc (Z * Z).
Proof.
  unshelve refine (@Build_Rtc (Z * Z) demo_rtc_ports fst snd demo_clock false _ _ _ _ _ _ _); cbn [io_inb io_outb demo_rtc_ports fst snd].
  - done.
  - intros. lia.
  - intros. lia.
  - intros [t r] Hr. cbn in *. subst r. cbn. by destruct (updating _).
  - intros [t r] Hr. cbn in *. by subst r.
  - intros [t r'] r f Hr Hs Hst. cbn [fst snd] in *. subst r'. destruct (demo_date_reg r f Hr) as (i & Hf & Ha & Hb).
    unfold demo_reg. rewrite (proj2 (Z.eqb_neq _ _) Ha), (proj2 (Z.eqb_neq _ _) Hb), Hf.
    unfold stable in Hst. by rewrite (proj2 (Z.leb_gt _ _)).
  - intros n r f Hr. apply list_elem_of_In in Hr. cbn in Hr.
    pose proof (Z.mod_pos_bound n 60 ltac:(lia)). pose proof (Z.mod_pos_bound (n / 60) 100 ltac:(lia)).
    destruct_or! Hr; simplify_eq; cbn; try lia.
Defined.

Definition demo_clock_board : board (Z * Z) := Board (fun _ => 0) demo_mach 0 0 [] (57999900, 0).

Lemma cmostime_reads_clock_witness :
  (198 <= 198)%nat /\
  exists b' t, @cmostime _ demo_rtc_ports 198 demo_clock_board = Ret (rtc_clock (t / SEC) <| year ::= fun y => y + 2000 |>) b' /\
    b' = demo_clock_board <| io := io b' |> /\ now demo_clock_board <= t <= now b'.
Proof. split; [lia|]. apply (cmostime_reads_clock demo_clock_board 198). lia. Defined.

(** ** The redirection table of the I/O APIC *)

Class IoapicDev (H : Type) `{Mmio H} := {
  ia_regs : H -> Z -> Z;
  ia_sel : H -> Z;
  ia_select v h : ia_sel (mm_write IOAPIC v h) = v /\ ia_regs (mm_write IOAPIC v h) = ia_regs h;
  ia_write v h r : REG_TABLE <= ia_sel h ->
    ia_regs (mm_write (IOAPIC + 16) v h) r = if r =? ia_sel h then v else ia_regs h r;
  ia_read h : (mm_read (IOAPIC + 16) h).1 = ia_regs h (ia_sel h) /\
    ia_regs (mm_read (IOAPIC + 16) h).2 = ia_regs h
}.

Section Ioapic.
Context {H : Type} `{IoapicDev H}.
Implicit Types b : board H.

Definition regs b : Z -> Z := ia_regs (io b).

Lemma ioapicwrite_run {A} r v b (k : unit -> M (board H) looping A) :
  REG_TABLE <= r < 2 ^ 32 -> 0 <= v < 2 ^ 32 ->
  exists b', bind (ioapicwrite r v) k b = k tt b' /\
    b' = b <| io := io b' |> /\ forall q, regs b' q = if q =? r then v else regs b q.
Proof.
  intros Hr Hv. eexists. split; [reflexivity|]. split; [by destruct b|]. intros q. unfold regs. cbn.
  rewrite !u32_small by (unfold REG_TABLE in *; lia).
  destruct (ia_select r (io b)) as [Hs Hg]. rewrite ia_write by (rewrite Hs; lia). by rewrite Hs, Hg.
Qed.

Ltac ioapic_put b1 E R :=
  match goal with
  | |- context [bind (ioapicwrite ?r ?v) ?k ?b] =>
    let F := fresh in destruct (ioapicwrite_run r v b k) as (b1 & F & E & R);
    [unfold REG_TABLE, T_IRQ0 in *| |rewrite F; clear F]
  end.

Lemma ioapicread_run {A} r b (k : Z -> M (board H) looping A) :
  0 <= r < 2 ^ 32 ->
  exists b', bind (ioapicread r) k b = k (u32 (regs b r)) b' /\ b' = b <| io := io b' |> /\ regs b' = regs b.
Proof.
  intros Hr. destruct (ia_select (u32 r) (io b)) as [Hs Hg]. destruct (ia_read (mm_write IOAPIC (u32 r) (io b))) as [Hv Hk].
  exists (b <| io := (mm_read (IOAPIC + 16) (mm_write IOAPIC (u32 r) (io b))).2 |>). split_and!.
  - unfold ioapicread, word_in, word_out. rewrite !bind_assoc, bind_modify, bind_assoc, bind_gets, bind_assoc, bind_modify, bind_ret.
    cbn. rewrite Hv, Hs, Hg, (u32_small r) by lia. by destruct b.
  - by destruct b.
  - unfold regs. cbn. by rewrite Hk, Hg.
Qed.

Ltac ioapic_get b1 E R :=
  match goal with
  | |- context [bind (ioapicread ?r) ?k ?b] =>
    let F := fresh in destruct (ioapicread_run r b k) as (b1 & F & E & R); [done|rewrite F; clear F]
  end.

(** The entry of an interrupt in the table: a configuration word and a destination. *)
Definition entry_is (g : Z -> Z) (i lo hi : Z) : Prop := g (REG_TABLE + 2 * i) = lo /\ g (REG_TABLE + 2 * i + 1) = hi.

Lemma masked_word i : 0 <= i < 256 -> 0 <= Z.lor INT_DISABLED (T_IRQ0 + i) < 2 ^ 32.
Proof.
  intros Hi. assert (0 <= Z.lor INT_DISABLED (T_IRQ0 + i)) by (apply Z.lor_nonneg; unfold INT_DISABLED, T_IRQ0; lia).
  split; [done|]. destruct (decide (Z.lor INT_DISABLED (T_IRQ0 + i) = 0)); [lia|]. apply Z.log2_lt_pow2; [lia|].
  rewrite Z.log2_lor by (unfold INT_DISABLED, T_IRQ0; lia). apply Z.max_lub_lt; [by vm_compute|].
  apply Z.log2_lt_pow2; unfold T_IRQ0 in *; lia.
Qed.

Lemma ioapic_mask_run i n b :
  0 <= i -> i + Z.of_nat n <= 256 ->
  exists b', ioapic_mask i n b = Ret tt b' /\ b' = b <| io := io b' |> /\
    (forall j, i <= j < i + Z.of_nat n -> entry_is (regs b') j (Z.lor INT_DISABLED (T_IRQ0 + j)) 0) /\
    (forall q, q < REG_TABLE + 2 * i -> regs b' q = regs b q).
Proof.
  revert i b. induction n as [|n IH]; intros i b Hi Hn.
  - exists b. split_and!; [done|by destruct b|lia|done].
  - cbn [ioapic_mask].
    pose proof (masked_word i ltac:(lia)) as Hv.
    unfold REG_TABLE, T_IRQ0 in *.
    ioapic_put b1 E1 R1; [lia|done|]. ioapic_put b2 E2 R2; [lia|done|].
    destruct (IH (i + 1) b2) as (b' & -> & E' & Hin & Hout); [lia..|].
    exists b'. split_and!; [done| | |].
    + rewrite E2, E1 in E'. by destruct b.
    + intros j Hj. destruct (decide (j = i)) as [->|]; [|apply Hin; lia].
      unfold entry_is, REG_TABLE. rewrite !Hout, !R2, !R1 by lia. 
      rewrite !Z.eqb_refl. by rewrite (proj2 (Z.eqb_neq _ _)) by lia.
    + intros q Hq. rewrite Hout, R2, R1 by lia. by rewrite !(proj2 (Z.eqb_neq _ _)) by lia.
Qed.

(** The interrupts of the device, from its version register. *)
Definition maxintr (g : Z -> Z) : Z := Z.land (Z.shiftr (u32 (g REG_VER)) 16) 0xFF.

Lemma maxintr_range g : 0 <= maxintr g < 256.
Proof. unfold maxintr. rewrite (Z.land_ones _ 8) by lia. by apply Z.mod_pos_bound. Qed.

Lemma ioapicinit_run {A} b (k : unit -> M (board H) looping A) :
  exists b', bind ioapicinit k b = k tt b' /\
    b' = b <| msgs := msgs b' |> <| io := io b' |> /\
    (forall i, 0 <= i <= maxintr (regs b) -> entry_is (regs b') i (Z.lor INT_DISABLED (T_IRQ0 + i)) 0) /\
    (forall q, q < REG_TABLE -> regs b' q = regs b q).
Proof.
  unfold ioapicinit. rewrite bind_assoc. ioapic_get b1 E1 R1. cbv zeta.
  rewrite bind_assoc. ioapic_get b2 E2 R2. rewrite bind_assoc, bind_gets, bind_assoc.
  set (b3 := if negb (Z.shiftr (u32 (regs b1 REG_ID)) 24 =? ioapicid b2) then b2 <| msgs ::= fun l => l ++ [msg_not_mp] |> else b2).
  rewrite (bind_ret_eq _ _ _ tt b3) by (unfold whenM, b3; by destruct (negb _)).
  fold (maxintr (regs b)). pose proof (maxintr_range (regs b)).
  destruct (ioapic_mask_run 0 (Z.to_nat (maxintr (regs b) + 1)) b3) as (b' & Hm & E & Hin & Hout); [lia..|].
  exists b'. rewrite (bind_ret_eq _ _ _ tt b') by exact Hm. split; [done|].
  assert (R3 : regs b3 = regs b) by (unfold b3; destruct (negb _); [change (regs b2 = regs b)|]; by rewrite R2, R1).
  assert (E3 : b3 = b <| msgs := msgs b3 |> <| io := io b3 |>).
  { unfold b3. generalize (negb (Z.shiftr (u32 (regs b1 REG_ID)) 24 =? ioapicid b2)). clear -E1 E2. intros g.
    destruct b1, b2, b. injection E1 as -> -> -> ->. injection E2 as -> -> -> ->. by destruct g. }
  split_and!.
  - clear -E E3. destruct b', b3, b. by simplify_eq/=.
  - intros i Hi. apply Hin. lia.
  - intros q Hq. rewrite Hout by lia. by rewrite R3.
Qed.

(** After ioapicinit and ioapicenable, the interrupt enabled goes to the processor
    given with its vector, and every other interrupt of the device is masked. *)
Theorem ioapic_routes b irq cpunum :
  0 <= irq <= maxintr (regs b) -> 0 <= cpunum < 256 ->
  exists b', (do _ <- ioapicinit; ioapicenable irq cpunum) b = Ret tt b' /\
    entry_is (regs b') irq (T_IRQ0 + irq) (cpunum * 2 ^ 24) /\
    (forall i, 0 <= i <= maxintr (regs b) -> i <> irq -> entry_is (regs b') i (Z.lor INT_DISABLED (T_IRQ0 + i)) 0).
Proof.
  intros Hi Hc. pose proof (maxintr_range (regs b)).
  destruct (ioapicinit_run b (fun _ => ioapicenable irq cpunum)) as (b1 & -> & E1 & Hin & _).
  unfold ioapicenable. rewrite Z.shiftl_mul_pow2 by lia.
  ioapic_put b2 E2 R2; [lia|unfold T_IRQ0; lia|].
  destruct (ioapicwrite_run (REG_TABLE + 2 * irq + 1) (cpunum * 2 ^ 24) b2 ret) as (b3 & F & E3 & R3);
    [unfold REG_TABLE in *; lia|lia|].
  exists b3. split; [|split].
  - revert F. unfold bind, ret. by destruct (ioapicwrite _ _ _) as [[]| | |].
  - unfold entry_is. rewrite !R3, !R2, !Z.eqb_refl. by rewrite (proj2 (Z.eqb_neq _ _)) by lia.
  - intros i Hr Hne. unfold entry_is. rewrite !R3, !R2. destruct (Hin i Hr) as [<- <-].
    by rewrite !(proj2 (Z.eqb_neq _ _)) by lia.
Qed.
End Ioapic.
