(* ===== verification/Boot.v ===== *)
(** * The boot loader (bootmain.c)

    The loader runs in physical memory and reads the disk by polling.  [Enter] is the
    jump to the kernel; [Spinning] is a loop that has used up its fuel: one that waits
    for a disk that does not get ready, or the one of [readseg] past the end of the
    address space. *)
From S2P Require Import Prelude Bytes Spinlock ProcDefs Proc Memory Kalloc FsDefs Exec Ide IdeSpec Mp.
Local Open Scope Z_scope.
Local Open Scope kernel_scope.

Definition SECTSIZE : Z := 512.
(** elf: the scratch space *)
Definition elf_at : Z := 0x10000.

Record loader (H : Type) := Loader { pmem : mem; bio : H }.
Arguments Loader {H}. Arguments pmem {H}. Arguments bio {H}.
#[export] Instance loader_eta {H} : Eta (loader H) := fun r => Loader (pmem r) (bio r).

Inductive boot_end := Enter (entry : Z) | Spinning.

(** The bytes that rep insl stores. *)
Fixpoint store_list (m : mem) (a : Z) (l : list Z) : mem :=
  match l with [] => m | v :: l' => store_list (Memory.store m a v) (a + 1) l' end.

Section Boot.
Context {H : Type} `{Ports H} (spins : nat).
Local Abbreviation L := (M (loader H) boot_end).

Definition boot_inb (port : Z) : L Z :=
  do o <- gets (fun s => io_inb port (bio s));
  modify (fun s => s <| bio := o.2 |>);;
  ret o.1.
Definition boot_outb (port v : Z) : L unit := modify (fun s => s <| bio ::= io_outb port (u8 v) |>).
Definition boot_insl (port addr cnt : Z) : L unit :=
  do o <- gets (fun s => io_insl port cnt (bio s));
  modify (fun s => s <| bio := o.2 |> <| pmem ::= fun m => store_list m addr o.1 |>).

(** while((inb(0x1F7) & 0xC0) != 0x40) ; *)
Fixpoint wait_loop (n : nat) : L unit :=
  match n with
  | O => stop Spinning
  | S n' => do r <- boot_inb 0x1F7; if Z.land r 0xC0 =? 0x40 then ret tt else wait_loop n'
  end.
Definition waitdisk : L unit := wait_loop spins.

Definition readsect (dst offset : Z) : L unit :=
  waitdisk;;
  boot_outb 0x1F2 1;;
  boot_outb 0x1F3 offset;;
  boot_outb 0x1F4 (Z.shiftr offset 8);;
  boot_outb 0x1F5 (Z.shiftr offset 16);;
  boot_outb 0x1F6 (Z.lor (Z.shiftr offset 24) 0xE0);;
  boot_outb 0x1F7 0x20;;
  waitdisk;;
  boot_insl 0x1F0 dst (SECTSIZE / 4).

(** for(; pa < epa; pa += SECTSIZE, offset++) readsect(pa, offset) *)
Fixpoint readseg_loop (n : nat) (pa epa offset : Z) : L unit :=
  match n with
  | O => stop Spinning
  | S n' =>
    if pa <? epa then readsect pa offset;; readseg_loop n' (u32 (pa + SECTSIZE)) epa (u32 (offset + 1))
    else ret tt
  end.

Definition readseg (pa count offset : Z) : L unit :=
  let epa := u32 (pa + count) in
  let pa := u32 (pa - offset mod SECTSIZE) in
  let offset := u32 (offset / SECTSIZE + 1) in
  readseg_loop (Z.to_nat ((epa - pa + 511) / 512) + 1) pa epa offset.

(** The fields of a program header. *)
Definition phdr_off (m : mem) (ph : Z) : Z := load32 m (ph + 4).
Definition phdr_paddr (m : mem) (ph : Z) : Z := load32 m (ph + 12).
Definition phdr_filesz (m : mem) (ph : Z) : Z := load32 m (ph + 16).
Definition phdr_memsz (m : mem) (ph : Z) : Z := load32 m (ph + 20).

(** The loop over the program headers: [ph] is tested before every turn, and there are
    no more than phnum turns. *)
Fixpoint boot_segments (n : nat) (ph eph : Z) : L unit :=
  match n with
  | O => ret tt
  | S n' =>
    if ph <? eph then
      do m <- gets pmem;
      let pa := phdr_paddr m ph in
      readseg pa (phdr_filesz m ph) (phdr_off m ph);;
      do m <- gets pmem;
      whenM (phdr_filesz m ph <? phdr_memsz m ph)
        (modify (fun s => s <| pmem ::= fun m' =>
           stosb m' (pa + phdr_filesz m ph) 0 (Z.to_nat (phdr_memsz m ph - phdr_filesz m ph)) |>));;
      boot_segments n' (u32 (ph + sizeof_proghdr)) eph
    else ret tt
  end.

Definition bootmain : L unit :=
  readseg elf_at 4096 0;;
  do m <- gets pmem;
  if negb (load32 m elf_at =? ELF_MAGIC) then ret tt else
  let ph := u32 (elf_at + load32 m (elf_at + 28)) in
  let phnum := load16 m (elf_at + 44) in
  let eph := u32 (ph + sizeof_proghdr * phnum) in
  boot_segments (Z.to_nat phnum) ph eph;;
  do m <- gets pmem;
  stop (Enter (load32 m (elf_at + 24))).
End Boot.

(** ** A disk that is polled *)

(** The part of the ATA interface that the loader uses: reading the status may find the
    operation in progress ended; within [spins] reads of it an idle or reading disk is
    ready, and a disk that says so is at rest or offers a sector. *)
Definition at_rest (a : ata) : Prop := a_state a = Idle \/ exists l, a_state a = Offering l.

Class BootDisk (H : Type) `{Ports H} (spins : nat) := {
  bd_view : H -> ata;
  bd_status h : bd_view (io_inb 0x1F7 h).2 = bd_view h \/ bd_view (io_inb 0x1F7 h).2 = a_done (bd_view h);
  bd_ready h : a_state (bd_view h) = Idle \/ (exists d n, a_state (bd_view h) = Reading d n) -> exists k, (k < spins)%nat /\ Z.land (polls k h).1 0xC0 = 0x40;
  bd_honest h : Z.land (io_inb 0x1F7 h).1 0xC0 = 0x40 -> at_rest (bd_view (io_inb 0x1F7 h).2);
  bd_reg p v h : p ∈ [0x1F2; 0x1F3; 0x1F4; 0x1F5; 0x1F6] -> bd_view (io_outb p v h) = bd_view h <| a_regs ::= set_reg p v |>;
  bd_read h : a_state (bd_view h) = Idle -> a_regs (bd_view h) 0x1F2 = 1 -> Z.testbit (a_regs (bd_view h) 0x1F6) 6 = true ->
    bd_view (io_outb 0x1F7 0x20 h) = bd_view h <| a_state := Reading (a_drive (a_regs (bd_view h))) (a_lba (a_regs (bd_view h))) |>;
  bd_offer h l : a_state (bd_view h) = Offering l ->
    (io_insl 0x1F0 (SECTSIZE / 4) h).1 = l /\ bd_view (io_insl 0x1F0 (SECTSIZE / 4) h).2 = bd_view h <| a_state := Idle |>
}.

(** A disk of sectors of 512 bytes. *)
Definition disk_wf (d : bool -> Z -> list Z) : Prop := forall b n, length (d b n) = 512%nat /\ Forall is_byte (d b n).

(** Byte [x] of the kernel, which starts at sector 1 of the first disk. *)
Definition kernel_byte (d : bool -> Z -> list Z) (x : Z) : Z := d false (x / 512 + 1) !!! Z.to_nat (x mod 512).

Section Load.
Context {H : Type} `{Ports H} {spins : nat} `{!BootDisk H spins}.
Implicit Types s : loader H.
Local Abbreviation dsk s := (a_disk (bd_view (bio s))).

Definition idle s : Prop := a_state (bd_view (bio s)) = Idle.

Lemma done_rest a : at_rest a -> a_done a = a.
Proof. unfold at_rest, a_done. by intros [->|[l ->]]. Qed.
Lemma done_done a : a_done (a_done a) = a_done a.
Proof. unfold a_done at 2 3. destruct (a_state a) eqn:E; try done; unfold a_done; by rewrite ?E. Qed.

(** Waiting leads to the end of the operation in progress, if there is one. *)
Lemma boot_wait_run {A} n s (k : unit -> M (loader H) boot_end A) :
  (exists j, (j < n)%nat /\ Z.land (polls j (bio s)).1 0xC0 = 0x40) ->
  exists s', bind (wait_loop n) k s = k tt s' /\ pmem s' = pmem s /\ bd_view (bio s') = a_done (bd_view (bio s)).
Proof.
  revert s. induction n as [|n IH]; intros s [j [Hj Hp]]; [lia|]. cbn [wait_loop]. unfold boot_inb.
  rewrite bind_assoc, bind_assoc, bind_gets, bind_assoc, bind_modify, bind_ret. set (h := (io_inb 0x1F7 (bio s)).2).
  assert (Hv : a_done (bd_view h) = a_done (bd_view (bio s))).
  { unfold h. destruct (bd_status (bio s)) as [->| ->]; [done|apply done_done]. }
  destruct (Z.eqb_spec (Z.land (io_inb 0x1F7 (bio s)).1 0xC0) 0x40) as [E|E].
  - exists (s <| bio := h |>). split_and!; [by rewrite bind_ret|done|]. cbn. rewrite <- Hv. symmetry. by apply done_rest, bd_honest.
  - destruct j as [|j]; [done|]. destruct (IH (s <| bio := h |>)) as (s' & E' & Hm & Hd); [exists j; split; [lia|done]|].
    exists s'. split_and!; [done|done|]. cbn in Hd. by rewrite Hd.
Qed.

Lemma store_list_spec l : forall m a b, Forall is_byte l ->
  store_list m a l b = if decide (a <= b < a + Z.of_nat (length l)) then l !!! Z.to_nat (b - a) else m b.
Proof.
  induction l as [|v l IH]; intros m a b Hl; cbn [store_list].
  - rewrite decide_False by (cbn; lia). done.
  - apply Forall_cons in Hl as [Hv Hl]. rewrite IH by done. unfold Memory.store. cbn [length]. destruct (Z.eqb_spec b a) as [->|Hne].
    + rewrite decide_False, decide_True, Z.sub_diag by lia. cbn. unfold u8. by apply Z.mod_small.
    + destruct (decide (a + 1 <= b < a + 1 + Z.of_nat (length l))).
      * rewrite decide_True by lia. replace (Z.to_nat (b - a)) with (S (Z.to_nat (b - (a + 1)))) by lia. done.
      * rewrite decide_False by lia. done.
Qed.

Lemma lor_e0 h : 0 <= h < 16 -> let v := u8 (Z.lor h 0xE0) in Z.testbit v 6 = true /\ Z.testbit v 4 = false /\ v mod 16 = h.
Proof.
  intros Hh. assert (Hi : h ∈ seqZ 0 16) by (apply elem_of_seqZ; lia). clear Hh. revert h Hi. apply (Forall_forall _ _).
  repeat constructor.
Qed.

(** The registers select sector [n] of the first disk. *)
Lemma lba_regs r n : 0 <= n < 2 ^ 28 ->
  let r' := set_reg 0x1F6 (u8 (Z.lor (Z.shiftr n 24) 0xE0)) (set_reg 0x1F5 (u8 (Z.shiftr n 16)) (set_reg 0x1F4 (u8 (Z.shiftr n 8)) (set_reg 0x1F3 (u8 n) (set_reg 0x1F2 (u8 1) r)))) in
  r' 0x1F2 = 1 /\ Z.testbit (r' 0x1F6) 6 = true /\ a_drive r' = false /\ a_lba r' = n.
Proof.
  intros Hn r'. assert (Hh : 0 <= Z.shiftr n 24 < 16) by (rewrite Z.shiftr_div_pow2 by lia; split; [apply Z.div_pos; lia|apply Z.div_lt_upper_bound; lia]).
  destruct (lor_e0 _ Hh) as (H6 & H4 & Hm). split_and!; [done|done|done|]. unfold a_lba.
  change (r' 0x1F3) with (u8 n). change (r' 0x1F4) with (u8 (Z.shiftr n 8)). change (r' 0x1F5) with (u8 (Z.shiftr n 16)).
  change (r' 0x1F6) with (u8 (Z.lor (Z.shiftr n 24) 0xE0)). rewrite Hm. unfold u8. rewrite !Z.shiftr_div_pow2 by lia. Z.div_mod_to_equations. lia.
Qed.

(** The ports of a read command, but for the command itself. *)
Definition select (h : H) (n : Z) : H :=
  io_outb 0x1F6 (u8 (Z.lor (Z.shiftr n 24) 0xE0)) (io_outb 0x1F5 (u8 (Z.shiftr n 16)) (io_outb 0x1F4 (u8 (Z.shiftr n 8))
    (io_outb 0x1F3 (u8 n) (io_outb 0x1F2 (u8 1) h)))).

Ltac wait_step s1 Hm Hv :=
  match goal with
  | |- context [bind (wait_loop spins) ?k ?s0] =>
    let E := fresh in destruct (boot_wait_run spins s0 k) as (s1 & E & Hm & Hv); [apply bd_ready|rewrite E; clear E]
  end.

(** What a call of the loader leaves: memory [m], and the disk as it was. *)
Definition after s (m : mem) s' : Prop := pmem s' = m /\ idle s' /\ dsk s' = dsk s.

Lemma readsect_run s dst n :
  idle s -> 0 <= n < 2 ^ 28 ->
  exists s', readsect spins dst n s = Ret tt s' /\ after s (store_list (pmem s) dst (dsk s false n)) s'.
Proof.
  intros Hi Hn. unfold readsect, waitdisk, boot_outb. wait_step s1 Hm1 Hv1; [by left|]. rewrite (done_rest (bd_view (bio s))) in Hv1 by by left.
  rewrite !bind_modify. set (h5 := select (bio s1) n).
  match goal with |- context [bind (wait_loop spins) _ ?s0] => change s0 with (s1 <| bio := io_outb 0x1F7 (u8 0x20) h5 |>) end.
  assert (Hv5 : bd_view h5 = bd_view (bio s) <| a_regs := a_regs (bd_view h5) |> /\ a_regs (bd_view h5) 0x1F2 = 1 /\
    Z.testbit (a_regs (bd_view h5) 0x1F6) 6 = true /\ a_drive (a_regs (bd_view h5)) = false /\ a_lba (a_regs (bd_view h5)) = n).
  { unfold h5, select. rewrite !bd_reg by set_solver. rewrite Hv1. split; [done|]. by apply lba_regs. }
  destruct Hv5 as (Hv5 & Hc & H6 & Hd & Hl). 
  assert (Hi5 : a_state (bd_view h5) = Idle) by (rewrite Hv5; exact Hi).
  pose proof (bd_read h5 Hi5 Hc H6) as Hr. rewrite Hd, Hl in Hr.
  wait_step s2 Hm2 Hv2; [right; exists false, n; cbn; change (u8 32) with 0x20; by rewrite Hr|].
  cbn in Hv2. change (u8 32) with 0x20 in Hv2. rewrite Hr in Hv2.
  assert (Ho : a_state (bd_view (bio s2)) = Offering (dsk s false n)) by (rewrite Hv2; unfold a_done; cbn; by rewrite Hv5).
  destruct (bd_offer (bio s2) _ Ho) as [Hb Hv3]. unfold boot_insl. rewrite bind_gets. unfold modify. eexists. split; [reflexivity|].
  split_and!; cbn; [by rewrite Hb, Hm2; cbn; rewrite Hm1|unfold idle; cbn; by rewrite Hv3|].
  rewrite Hv3. cbn. rewrite Hv2. unfold a_done. cbn. by rewrite Hv5.
Qed.

(** Byte [i] of the sectors from [sec] on. *)
Definition from_sector (d : bool -> Z -> list Z) (sec i : Z) : Z := d false (sec + i / 512) !!! Z.to_nat (i mod 512).

Lemma readseg_loop_run n : forall s lo epa sec,
  idle s -> disk_wf (dsk s) -> 0 <= lo -> 0 <= sec -> lo + 512 * (Z.of_nat n - 1) < epa <= lo + 512 * Z.of_nat n ->
  lo + 512 * Z.of_nat n < 2 ^ 32 -> sec + Z.of_nat n <= 2 ^ 28 ->
  exists s', readseg_loop spins (n + 1) lo epa sec s = Ret tt s' /\ idle s' /\ dsk s' = dsk s /\
    forall a, pmem s' a = if decide (lo <= a < lo + 512 * Z.of_nat n) then from_sector (dsk s) sec (a - lo) else pmem s a.
Proof.
  induction n as [|n IH]; intros s lo epa sec Hi Hd Hlo Hs Hepa Hr Hb; cbn [Nat.add readseg_loop].
  - rewrite (proj2 (Z.ltb_ge lo epa)) by lia. exists s. split_and!; [done..|]. intros a. by rewrite decide_False by lia.
  - rewrite (proj2 (Z.ltb_lt lo epa)) by lia. destruct (readsect_run s lo sec Hi ltac:(lia)) as (s1 & E1 & Hm1 & Hi1 & Hd1).
    rewrite (bind_ret_eq _ _ _ _ _ E1). unfold SECTSIZE. rewrite !u32_small by lia.
    destruct (IH s1 (lo + 512) epa (sec + 1)) as (s2 & E2 & Hi2 & Hd2 & Hm2); [done|by rewrite Hd1|lia|lia|lia|lia|lia|].
    exists s2. split_and!; [done|done|by rewrite Hd2|]. intros a. rewrite Hm2, Hd1, Hm1. destruct (Hd false sec) as [Hl Hby].
    rewrite store_list_spec, Hl by done. unfold from_sector.
    destruct (decide (lo + 512 <= a < lo + 512 + 512 * Z.of_nat n)).
    + rewrite decide_True by lia. replace (a - lo) with (a - (lo + 512) + 1 * 512) by lia. rewrite Z.div_add, Z.mod_add by lia. do 2 f_equal. lia.
    + destruct (decide (lo <= a < lo + Z.of_nat 512)).
      * rewrite decide_True by lia. rewrite Z.div_small, Z.mod_small by lia. by rewrite Z.add_0_r.
      * rewrite decide_False by lia. done.
Qed.

(** Where [readseg] writes: whole sectors. *)
Definition seg_lo (pa offset : Z) : Z := pa - offset mod 512.
Definition seg_hi (pa count offset : Z) : Z := seg_lo pa offset + 512 * ((count + offset mod 512 + 511) / 512).

(** The sectors are in reach of memory and of the disk. *)
Definition in_reach (pa count offset : Z) : Prop :=
  0 <= count /\ 0 <= offset < 2 ^ 32 /\ 0 <= seg_lo pa offset /\ seg_hi pa count offset < 2 ^ 32.

Lemma readseg_run s pa count offset :
  idle s -> disk_wf (dsk s) -> in_reach pa count offset ->
  exists s', readseg spins pa count offset s = Ret tt s' /\ idle s' /\ dsk s' = dsk s /\
    forall a, pmem s' a = if decide (seg_lo pa offset <= a < seg_hi pa count offset) then kernel_byte (dsk s) (a - pa + offset) else pmem s a.
Proof.
  intros Hi Hd (Hc & Ho & Hlo & Hhi). unfold readseg, SECTSIZE. unfold seg_hi in *. set (lo := seg_lo pa offset) in *. set (n := (count + offset mod 512 + 511) / 512) in *.
  pose proof (Z.mod_pos_bound offset 512 ltac:(done)) as Hm. pose proof (Z.div_mod offset 512 ltac:(done)) as Hdm.
  assert (Hn : 512 * n <= count + offset mod 512 + 511 < 512 * n + 512) by (unfold n; pose proof (Z.div_mod (count + offset mod 512 + 511) 512 ltac:(done)); pose proof (Z.mod_pos_bound (count + offset mod 512 + 511) 512 ltac:(done)); lia).
  assert (Epa : pa = lo + offset mod 512) by (unfold lo, seg_lo; lia). assert (Hn0 : 0 <= n) by lia.
  assert (Hq : 0 <= offset / 512) by (apply Z.div_pos; lia).
  rewrite !u32_small by lia. replace (pa - offset mod 512) with lo by lia.
  replace (Z.to_nat ((pa + count - lo + 511) / 512) + 1)%nat with (Z.to_nat n + 1)%nat by (do 2 f_equal; unfold n; f_equal; lia).
  destruct (readseg_loop_run (Z.to_nat n) s lo (pa + count) (offset / 512 + 1)) as (s' & E & Hi' & Hd' & Hm'); rewrite ?Z2Nat.id in * by lia; [done|done|lia..|].
  exists s'. split_and!; [done..|]. intros a. rewrite Hm'. case_decide; [|done]. unfold from_sector, kernel_byte.
  replace (a - pa + offset) with (a - lo + offset / 512 * 512) by lia. rewrite Z.div_add, Z.mod_add by lia. do 2 f_equal. lia.
Qed.

(** ** Segments *)

(** The segment that the program header at [o] of the kernel [D] describes: what is
    loaded, and the range that loading it writes. *)
Definition loaded (D : mem) (o : Z) (m : mem) : Prop :=
  (forall x, 0 <= x < phdr_filesz D o -> m (phdr_paddr D o + x) = D (phdr_off D o + x)) /\
  (forall x, phdr_filesz D o <= x < phdr_memsz D o -> m (phdr_paddr D o + x) = 0).
Definition seg_size (D : mem) (o : Z) : Z := Z.max (phdr_filesz D o) (phdr_memsz D o).
Definition writes (D : mem) (o a : Z) : Prop :=
  seg_lo (phdr_paddr D o) (phdr_off D o) <= a < Z.max (seg_hi (phdr_paddr D o) (phdr_filesz D o) (phdr_off D o)) (phdr_paddr D o + phdr_memsz D o).
Definition seg_ok (D : mem) (o : Z) : Prop :=
  in_reach (phdr_paddr D o) (phdr_filesz D o) (phdr_off D o) /\ phdr_paddr D o + phdr_memsz D o <= 2 ^ 32 /\
  forall a, writes D o a -> ~ elf_at <= a < elf_at + 4096.

Lemma load32_at m m' a b : (forall i, 0 <= i < 4 -> m' (b + i) = m (a + i)) -> load32 m' b = load32 m a.
Proof.
  intros E. unfold load32. rewrite !(E 1), !(E 2), !(E 3) by lia. specialize (E 0 ltac:(lia)). rewrite !Z.add_0_r in E. by rewrite E.
Qed.
Lemma load16_at m m' a b : (forall i, 0 <= i < 2 -> m' (b + i) = m (a + i)) -> load16 m' b = load16 m a.
Proof. intros E. unfold load16. rewrite !(E 1) by lia. specialize (E 0 ltac:(lia)). rewrite !Z.add_0_r in E. by rewrite E. Qed.

Lemma load32_range m a : bytes m -> 0 <= load32 m a < 2 ^ 32.
Proof. intros Hm. unfold load32. pose proof (Hm a). pose proof (Hm (a + 1)). pose proof (Hm (a + 2)). pose proof (Hm (a + 3)). lia. Qed.

Definition headers (D : mem) s : Prop := forall x, 0 <= x < 4096 -> pmem s (elf_at + x) = D x.

Lemma header_word D s o : headers D s -> 0 <= o <= 4092 -> load32 (pmem s) (elf_at + o) = load32 D o.
Proof. intros Hh Ho. apply load32_at. intros i Hi. rewrite <- Z.add_assoc. apply Hh. lia. Qed.

(** A turn of the loop over the program headers. *)
Lemma segment_run {A} D s o (k : unit -> M (loader H) boot_end A) :
  idle s -> disk_wf (dsk s) -> D = kernel_byte (dsk s) -> headers D s -> 0 <= o <= 4096 - 32 -> seg_ok D o -> 0 <= phdr_memsz D o ->
  let ph := elf_at + o in
  exists s', (do m <- gets pmem;
      let pa := phdr_paddr m ph in
      readseg spins pa (phdr_filesz m ph) (phdr_off m ph);;
      do m <- gets pmem;
      whenM (phdr_filesz m ph <? phdr_memsz m ph)
        (modify (fun s => s <| pmem ::= fun m' =>
           stosb m' (pa + phdr_filesz m ph) 0 (Z.to_nat (phdr_memsz m ph - phdr_filesz m ph)) |>));;
      k tt) s = k tt s' /\
    idle s' /\ dsk s' = dsk s /\ headers D s' /\ loaded D o (pmem s') /\ forall a, ~ writes D o a -> pmem s' a = pmem s a.
Proof.
  intros Hi Hd HD Hh Ho (Hin & Hend & Hap) Hms ph. pose proof Hin as (Hc & Hof & Hlo & Hhi).
  assert (Hph : forall s0, headers D s0 -> phdr_paddr (pmem s0) ph = phdr_paddr D o /\ phdr_filesz (pmem s0) ph = phdr_filesz D o /\
    phdr_off (pmem s0) ph = phdr_off D o /\ phdr_memsz (pmem s0) ph = phdr_memsz D o).
  { intros s0 Hs0. unfold phdr_paddr, phdr_filesz, phdr_off, phdr_memsz, ph. rewrite <- !Z.add_assoc. rewrite !(header_word D) by (done || lia). done. }
  destruct (Hph s Hh) as (E1 & E2 & E3 & _). rewrite bind_gets, E1, E2, E3. cbv zeta. unfold seg_size, writes, loaded in *.
  set (pa := phdr_paddr D o) in *. set (fsz := phdr_filesz D o) in *. set (off := phdr_off D o) in *. set (msz := phdr_memsz D o) in *.
  destruct (readseg_run s pa fsz off Hi Hd Hin) as (s1 & E & Hi1 & Hd1 & Hm1). rewrite (bind_ret_eq _ _ _ _ _ E), bind_gets.
  assert (Hcov : pa + fsz <= seg_hi pa fsz off /\ seg_lo pa off <= pa).
  { unfold seg_hi, seg_lo. pose proof (Z.mod_pos_bound off 512 ltac:(done)). pose proof (Z.div_mod (fsz + off mod 512 + 511) 512 ltac:(done)).
    pose proof (Z.mod_pos_bound (fsz + off mod 512 + 511) 512 ltac:(done)). lia. }
  assert (Hh1 : headers D s1). { intros x Hx. rewrite Hm1, decide_False; [by apply Hh|]. intros Hr. apply (Hap (elf_at + x)); lia. }
  destruct (Hph s1 Hh1) as (_ & E4 & _ & E5). rewrite E4, E5.
  set (s2 := if fsz <? msz then s1 <| pmem ::= fun m' => stosb m' (pa + fsz) 0 (Z.to_nat (msz - fsz)) |> else s1).
  assert (Hm2 : forall a, pmem s2 a = if decide (pa + fsz <= a < pa + msz) then 0 else pmem s1 a).
  { intros a. unfold s2. destruct (Z.ltb_spec fsz msz); [|by rewrite decide_False by lia]. cbn. rewrite stosb_spec.
    destruct (Z.leb_spec (pa + fsz) a), (Z.ltb_spec a (pa + fsz + Z.of_nat (Z.to_nat (msz - fsz)))); cbn [andb]; first [by rewrite decide_True by lia|by rewrite decide_False by lia]. }
  exists s2. split; [|split_and!].
  - rewrite (bind_ret_eq _ _ _ tt s2); [done|]. unfold whenM, s2, modify. by destruct (fsz <? msz).
  - unfold s2. by destruct (fsz <? msz).
  - rewrite <- Hd1. unfold s2. by destruct (fsz <? msz).
  - intros x Hx. rewrite Hm2, decide_False; [by apply Hh1|]. intros Hr. apply (Hap (elf_at + x)); lia.
  - intros x Hx. rewrite Hm2, decide_False, Hm1, decide_True, HD by lia. f_equal. lia.
  - intros x Hx. by rewrite Hm2, decide_True by lia.
  - intros a Ha. rewrite Hm2, decide_False, Hm1, decide_False; [done|lia|lia].
Qed.

Lemma loaded_ext D o m m' :
  0 <= phdr_filesz D o -> (forall a, phdr_paddr D o <= a < phdr_paddr D o + seg_size D o -> m' a = m a) -> loaded D o m -> loaded D o m'.
Proof. unfold seg_size. intros Hf E [H1 H2]. split; intros x Hx; rewrite E by lia; [by apply H1|by apply H2]. Qed.

(** No segment overwrites one that was loaded before it. *)
Definition segs_apart (D : mem) (o : Z) (n : nat) : Prop :=
  forall i j, (i < j < n)%nat -> let oi := o + 32 * Z.of_nat i in
    forall a, phdr_paddr D oi <= a < phdr_paddr D oi + seg_size D oi -> ~ writes D (o + 32 * Z.of_nat j) a.

Lemma segments_run D : bytes D -> forall n o s,
  idle s -> disk_wf (dsk s) -> D = kernel_byte (dsk s) -> headers D s -> 0 <= o -> o + 32 * Z.of_nat n <= 4096 ->
  (forall i, (i < n)%nat -> seg_ok D (o + 32 * Z.of_nat i)) -> segs_apart D o n ->
  exists s', boot_segments spins n (elf_at + o) (elf_at + o + 32 * Z.of_nat n) s = Ret tt s' /\
    dsk s' = dsk s /\ headers D s' /\
    (forall i, (i < n)%nat -> loaded D (o + 32 * Z.of_nat i) (pmem s')) /\
    (forall a, (forall i, (i < n)%nat -> ~ writes D (o + 32 * Z.of_nat i) a) -> pmem s' a = pmem s a).
Proof.
  intros HB. induction n as [|n IH]; intros o s Hi Hd HD Hh Ho Hn Hok Hap.
  { exists s. split_and!; [done|done|done|lia|done]. }
  pose proof (Hok 0%nat ltac:(lia)) as Hok0. rewrite Z.mul_0_r, Z.add_0_r in Hok0.
  pose proof (load32_range D (o + 20) HB) as Hms. fold (phdr_memsz D o) in Hms. set (eph := elf_at + o + 32 * Z.of_nat (S n)).
  destruct (segment_run D s o (fun _ => boot_segments spins n (u32 (elf_at + o + sizeof_proghdr)) eph)) as (s1 & E1 & Hi1 & Hd1 & Hh1 & Hl1 & Hm1); [done..|lia|done|lia|].
  assert (E : boot_segments spins (S n) (elf_at + o) eph s = boot_segments spins n (u32 (elf_at + o + sizeof_proghdr)) eph s1).
  { rewrite <- E1. cbn [boot_segments]. by rewrite (proj2 (Z.ltb_lt _ _)) by lia. }
  rewrite E. clear E E1.
  unfold sizeof_proghdr. rewrite u32_small by (unfold elf_at; lia).
  replace (elf_at + o + 32) with (elf_at + (o + 32)) by lia. replace eph with (elf_at + (o + 32) + 32 * Z.of_nat n) by lia.
  assert (Hs : forall i, o + 32 + 32 * Z.of_nat i = o + 32 * Z.of_nat (S i)) by lia.
  destruct (IH (o + 32) s1) as (s2 & E & Hd2 & Hh2 & Hl2 & Hm2); [done|by rewrite Hd1|by rewrite Hd1|done|lia|lia| | |].
  { intros i Hin. rewrite Hs. apply Hok. lia. } { intros i j Hij. rewrite !Hs. apply Hap. lia. }
  exists s2. split_and!; [done|by rewrite Hd2|done|..].
  - intros [|i] Hin; [|rewrite <- Hs; apply Hl2; lia]. rewrite Z.mul_0_r, Z.add_0_r.
    eapply loaded_ext; [apply (load32_range D (o + 16) HB)| |exact Hl1]. intros a Ha. apply Hm2. intros i Hi2. rewrite Hs.
    pose proof (Hap 0%nat (S i) ltac:(lia)) as H0'. cbv zeta in H0'. rewrite Z.mul_0_r, Z.add_0_r in H0'. by apply H0'.
  - intros a Ha. rewrite Hm2, Hm1; [done| |].
    + pose proof (Ha 0%nat ltac:(lia)) as H0'. by rewrite Z.mul_0_r, Z.add_0_r in H0'.
    + intros i Hin. rewrite Hs. apply Ha. lia.
Qed.
End Load.

(** ** The loader *)

(** A kernel that the loader can load: its program headers are in the first page, its
    segments do not touch the scratch space, and no segment overwrites one before it. *)
Record bootable (D : mem) : Prop := {
  bt_magic : load32 D 0 = ELF_MAGIC;
  bt_first : load32 D 28 + 32 * load16 D 44 <= 4096;
  bt_segs : forall i, (i < Z.to_nat (load16 D 44))%nat -> seg_ok D (load32 D 28 + 32 * Z.of_nat i);
  bt_apart : segs_apart D (load32 D 28) (Z.to_nat (load16 D 44))
}.

Lemma kernel_bytes d : disk_wf d -> bytes (kernel_byte d).
Proof.
  intros Hd a. unfold kernel_byte. destruct (Hd false (a / 512 + 1)) as [Hl Hb]. pose proof (Z.mod_pos_bound a 512 ltac:(done)).
  destruct (lookup_lt_is_Some_2 (d false (a / 512 + 1)) (Z.to_nat (a mod 512))) as [v Hv]; [lia|].
  rewrite (list_lookup_total_correct _ _ _ Hv). by eapply (Forall_lookup_1 is_byte).
Qed.

(** C30: the boot loader loads the kernel and enters it.  With a disk that gets ready,
    from sector 1 of which on there is an ELF image whose program headers are in the
    first page, whose segments, rounded to sectors, fit memory and stay clear of the
    scratch space, and none of which overwrites one before it, bootmain jumps to the
    entry point of the header; every segment is then at its physical address, its
    bytes those of the file and the rest up to its size in memory zero, and nothing
    else in memory has changed outside the scratch page.  A disk without the magic
    number makes bootmain return. *)
Theorem bootmain_loads {H : Type} `{Ports H} {spins : nat} `{!BootDisk H spins} (s : loader H) :
  let d := a_disk (bd_view (bio s)) in let D := kernel_byte d in
  a_state (bd_view (bio s)) = Idle -> disk_wf d ->
  (load32 D 0 <> ELF_MAGIC -> exists s', bootmain spins s = Ret tt s') /\
  (bootable D -> exists s', bootmain spins s = Stop (Enter (load32 D 24)) s' /\ a_disk (bd_view (bio s')) = d /\
    (forall i, (i < Z.to_nat (load16 D 44))%nat -> loaded D (load32 D 28 + 32 * Z.of_nat i) (pmem s')) /\
    (forall a, ~ elf_at <= a < elf_at + 4096 -> (forall i, (i < Z.to_nat (load16 D 44))%nat -> ~ writes D (load32 D 28 + 32 * Z.of_nat i) a) ->
      pmem s' a = pmem s a)).
Proof.
  intros d D Hi Hd. pose proof (kernel_bytes d Hd) as HB. fold D in HB.
  destruct (readseg_run s elf_at 4096 0 Hi Hd) as (s1 & E1 & Hi1 & Hd1 & Hm1); [by repeat split|]. fold d in Hd1, Hm1. fold D in Hm1.
  change (seg_lo elf_at 0) with elf_at in Hm1. change (seg_hi elf_at 4096 0) with (elf_at + 4096) in Hm1.
  assert (Hh1 : headers D s1). { intros x Hx. rewrite Hm1, decide_True by lia. f_equal. lia. }
  assert (Hw : forall o, 0 <= o <= 4092 -> load32 (pmem s1) (elf_at + o) = load32 D o) by (intros; by apply header_word).
  pose proof (Hw 0 ltac:(lia)) as Hw0. rewrite Z.add_0_r in Hw0. unfold bootmain. rewrite (bind_ret_eq _ _ _ _ _ E1), bind_gets, Hw0. split.
  - intros Hm. rewrite (proj2 (Z.eqb_neq _ _)) by done. by eexists.
  - intros [Hmg Hph Hok Hap]. rewrite Hmg, Z.eqb_refl. cbn [negb]. rewrite Hw by lia.
    rewrite (load16_at D _ 44) by (intros i Hir; rewrite <- Z.add_assoc; apply Hh1; lia). cbv zeta.
    pose proof (load32_range D 28 HB) as Hpr. pose proof (load16_range D 44 HB) as Hnr. set (o := load32 D 28) in *. set (n := load16 D 44) in *.
    unfold sizeof_proghdr. rewrite !u32_small by (unfold elf_at; lia).
    destruct (segments_run D HB (Z.to_nat n) o s1) as (s2 & E2 & Hd2 & Hh2 & Hl2 & Hm2); rewrite ?Hd1, ?Z2Nat.id by lia; [done..|lia|lia|done|done|].
    rewrite Z2Nat.id in E2 by lia. rewrite (bind_ret_eq _ _ _ _ _ E2), bind_gets. exists s2. split.
    + unfold stop. do 2 f_equal. by apply header_word; [|lia].
    + split_and!; [by rewrite Hd2|done|]. intros a Ha Hno. rewrite Hm2 by done. by rewrite Hm1, decide_False by lia.
Qed.

(** A disk that ends its operation when its status is read, and a kernel of one segment
    of 10 bytes in the file and 20 in memory, behind the ELF header in sector 1. *)
Definition demo_elf : list Z :=
  le_bytes 4 ELF_MAGIC ++ replicate 20 0 ++ le_bytes 4 0x10000C ++ le_bytes 4 52 ++ replicate 12 0 ++ le_bytes 2 1 ++ replicate 6 0 ++
  le_bytes 4 1 ++ le_bytes 4 100 ++ le_bytes 4 0x80100000 ++ le_bytes 4 0x100200 ++ le_bytes 4 10 ++ le_bytes 4 20 ++ replicate 8 0 ++
  replicate 16 0 ++ [1; 2; 3; 4; 5; 6; 7; 8; 9; 10].
Definition demo_sectors (b : bool) (n : Z) : list Z := if negb b && (n =? 1) then demo_elf ++ replicate 402 0 else replicate 512 0.

#[export] Instance polled_ports : Ports ata := {|
  io_inb _ a := (match a_state (a_done a) with Idle | Offering _ => 0x40 | _ => 0x80 end, a_done a);
  io_outb p v a :=
    if p =? 0x1F7 then a <| a_state := Reading (a_drive (a_regs a)) (a_lba (a_regs a)) |> else a <| a_regs ::= set_reg p v |>;
  io_insl _ _ a := match a_state a with Offering l => (l, a <| a_state := Idle |>) | _ => ([], a) end;
  io_outsl _ _ a := a
|}.

#[export] Instance polled_disk : BootDisk ata 1.
Proof.
  refine {| bd_view a := a |}.
  - by right.
  - intros h Hh. exists 0%nat. split; [lia|]. cbn. unfold a_done. destruct Hh as [E|(d & n & E)]; rewrite E; cbn; by rewrite ?E.
  - intros h. cbn. unfold at_rest. destruct (a_state (a_done h)); eauto; done.
  - intros p v h Hp. cbn. destruct (Z.eqb_spec p 0x1F7) as [->|]; [set_solver|done].
  - done.
  - intros h l Hl. cbn. by rewrite Hl.
Defined.

Definition demo_loader : loader ata := Loader (fun _ => 7) (Ata (fun _ => 0) demo_sectors Idle).

Lemma demo_wf : disk_wf demo_sectors.
Proof. intros b n. unfold demo_sectors. destruct (_ && _); (split; [done|by apply (bool_decide_unpack _)]). Qed.

Lemma demo_bootable : bootable (kernel_byte demo_sectors).
Proof.
  set (D := kernel_byte demo_sectors). assert (Hph : load32 D 28 = 52 /\ load16 D 44 = 1) by (by vm_compute). destruct Hph as [Ho Hn].
  assert (Hs : phdr_paddr D 52 = 0x100200 /\ phdr_off D 52 = 100 /\ phdr_filesz D 52 = 10 /\ phdr_memsz D 52 = 20) by (by vm_compute).
  destruct Hs as (H1 & H2 & H3 & H4). split; rewrite ?Ho, ?Hn; [by vm_compute|done|..].
  - intros i Hi. replace i with 0%nat by lia. unfold seg_ok, in_reach, writes. change (52 + 32 * Z.of_nat 0) with 52. rewrite H1, H2, H3, H4.
    unfold seg_hi, seg_lo, elf_at. change (100 mod 512) with 100. change ((10 + 100 + 511) / 512) with 1. split_and!; [lia..|]. intros a Ha. lia.
  - intros i j Hij. lia.
Qed.

Lemma bootmain_loads_witness : exists s', bootmain 1 demo_loader = Stop (Enter 0x10000C) s' /\
  loaded (kernel_byte demo_sectors) 52 (pmem s') /\ phdr_filesz (kernel_byte demo_sectors) 52 = 10 /\ phdr_memsz (kernel_byte demo_sectors) 52 = 20.
Proof.
  pose proof (bootmain_loads (spins := 1) demo_loader) as Hl. destruct (Hl eq_refl demo_wf) as [_ Hb]. clear Hl. destruct (Hb demo_bootable) as (s' & E & _ & Hl & _).
  assert (Eo : load32 (kernel_byte demo_sectors) 28 + 32 * Z.of_nat 0 = 52) by (by vm_compute).
  assert (Ee : load32 (kernel_byte demo_sectors) 24 = 0x10000C) by (by vm_compute).
  assert (Hn : (0 < Z.to_nat (load16 (kernel_byte demo_sectors) 44))%nat) by (vm_compute; lia).
  pose proof (Hl 0%nat Hn) as Hl0. change (a_disk (bd_view (bio demo_loader))) with demo_sectors in *. rewrite Eo in Hl0. rewrite Ee in E.
  exists s'. split; [exact E|]. split; [exact Hl0|]. split; vm_compute; reflexivity.
Defined.
