(* ===== verification/Segments.v ===== *)
(** * Segments, gates and the first page directory (mmu.h, vm.c, trap.c, main.c)

    The descriptors are the bit fields of mmu.h; [field] is how the processor reads
    them back.  [deliver] is what the processor does with an interrupt.  [gdt_addr] and
    [idt_addr] are the addresses of the tables. *)
From S2P Require Import Prelude Spinlock ProcDefs Proc Memory Kalloc Vm Kthread Exec Trap.
Local Open Scope Z_scope.
Local Open Scope kernel_scope.

Definition SEG_KCODE : Z := 1.
Definition SEG_KDATA : Z := 2.
Definition SEG_UCODE : Z := 3.
Definition SEG_UDATA : Z := 4.
Definition NSEGS : Z := 6.
Definition DPL_USER : Z := 0x3.
Definition STA_X : Z := 0x8.
Definition STA_W : Z := 0x2.
Definition STA_R : Z := 0x2.
Definition STS_IG32 : Z := 0xE.
Definition STS_TG32 : Z := 0xF.

Record segdesc := Segdesc {
  lim_15_0 : Z; base_15_0 : Z; base_23_16 : Z; sd_type : Z; sd_s : Z; sd_dpl : Z; sd_p : Z;
  lim_19_16 : Z; sd_avl : Z; sd_rsv1 : Z; sd_db : Z; sd_g : Z; base_31_24 : Z
}.

Definition SEG (type base lim dpl : Z) : segdesc :=
  Segdesc (Z.land (Z.shiftr lim 12) 0xffff) (Z.land base 0xffff)
    (Z.land (Z.shiftr base 16) 0xff) type 1 dpl 1
    (Z.shiftr lim 28) 0 0 1 1 (Z.shiftr base 24).
Definition SEG16 (type base lim dpl : Z) : segdesc :=
  Segdesc (Z.land lim 0xffff) (Z.land base 0xffff)
    (Z.land (Z.shiftr base 16) 0xff) type 1 dpl 1
    (Z.shiftr lim 16) 0 0 1 0 (Z.shiftr base 24).

Record gatedesc := Gatedesc {
  off_15_0 : Z; g_cs : Z; g_args : Z; g_rsv1 : Z; g_type : Z; g_s : Z; g_dpl : Z; g_p : Z; off_31_16 : Z
}.

Definition SETGATE (istrap sel off d : Z) : gatedesc :=
  Gatedesc (Z.land off 0xffff) sel 0 0 (if c_true istrap then STS_TG32 else STS_IG32) 0 d 1 (Z.shiftr off 16).

(** The bit fields of a structure, the lowest first, each cut to its width. *)
Fixpoint pack (l : list (Z * Z)) : Z :=
  match l with [] => 0 | (w, v) :: l' => v mod 2 ^ w + 2 ^ w * pack l' end.

Definition seg_bits (d : segdesc) : Z :=
  pack [(16, lim_15_0 d); (16, base_15_0 d); (8, base_23_16 d); (4, sd_type d); (1, sd_s d); (2, sd_dpl d); (1, sd_p d);
        (4, lim_19_16 d); (1, sd_avl d); (1, sd_rsv1 d); (1, sd_db d); (1, sd_g d); (8, base_31_24 d)].
Definition gate_bits (g : gatedesc) : Z :=
  pack [(16, off_15_0 g); (16, g_cs g); (5, g_args g); (3, g_rsv1 g); (4, g_type g); (1, g_s g); (2, g_dpl g); (1, g_p g);
        (16, off_31_16 g)].

(** ** Setting the tables up *)

(** [gdts]: cpus[c].gdt; [gdtr], [idtr]: limit and base in the registers of the
    processors; [tickslock]: whether it is held. *)
Record tables := Tables {
  gdts : list (list segdesc);
  idt : list gatedesc;
  tickslock : bool;
  gdtr : list (Z * Z);
  idtr : list (Z * Z)
}.
#[export] Instance tables_eta : Eta tables := fun t => Tables (gdts t) (idt t) (tickslock t) (gdtr t) (idtr t).

Section Tables.
Context (gdt_addr : nat -> Z) (idt_addr : Z) (vectors : list Z).
Local Abbreviation T := (M tables Empty_set).

(** The operand of lgdt and lidt: size-1 and the two halves of the address. *)
Definition table_reg (p size : Z) : Z * Z := (u16 (size - 1), u16 p + u16 (Z.shiftr p 16) * 2 ^ 16).

Definition set_seg (c : nat) (i : Z) (d : segdesc) : T unit :=
  do g <- gets (fun t => gdts t !! c);
  do g <- derefM "cpus" g;
  modify (fun t => t <| gdts ::= <[c := <[Z.to_nat i := d]> g]> |>).

(** [c]: cpuid() *)
Definition seginit (c : nat) : T unit :=
  set_seg c SEG_KCODE (SEG (Z.lor STA_X STA_R) 0 0xffffffff 0);;
  set_seg c SEG_KDATA (SEG STA_W 0 0xffffffff 0);;
  set_seg c SEG_UCODE (SEG (Z.lor STA_X STA_R) 0 0xffffffff DPL_USER);;
  set_seg c SEG_UDATA (SEG STA_W 0 0xffffffff DPL_USER);;
  modify (fun t => t <| gdtr ::= <[c := table_reg (gdt_addr c) (8 * NSEGS)]> |>).

Definition set_gate (i istrap sel d : Z) : T unit :=
  do v <- derefM "vectors" (vectors !! Z.to_nat i);
  modify (fun t => t <| idt ::= <[Z.to_nat i := SETGATE istrap sel v d]> |>).

Definition tvinit : T unit :=
  forM (seqZ 0 256) (fun i => set_gate i 0 (Z.shiftl SEG_KCODE 3) 0);;
  set_gate T_SYSCALL 1 (Z.shiftl SEG_KCODE 3) DPL_USER;;
  modify (fun t => t <| tickslock := false |>).

Definition idtinit (c : nat) : T unit := modify (fun t => t <| idtr ::= <[c := table_reg idt_addr (8 * 256)]> |>).
End Tables.

(** ** The first page directory *)

Definition PTE_PS : Z := 0x080.
Definition entrypgdir : list Z :=
  <[Z.to_nat (Z.shiftr KERNBASE 22) := Z.lor (Z.lor (Z.lor 0 PTE_P) PTE_W) PTE_PS]>
    (<[0%nat := Z.lor (Z.lor (Z.lor 0 PTE_P) PTE_W) PTE_PS]> (replicate 1024 0)).

(** ** How the processor reads them *)

(** [w] bits from bit [o] on. *)
Definition field (d o w : Z) : Z := (d / 2 ^ o) mod 2 ^ w.

Definition seg_base (d : Z) : Z := field d 16 16 + 2 ^ 16 * field d 32 8 + 2 ^ 24 * field d 56 8.
Definition seg_limit (d : Z) : Z :=
  let l := field d 0 16 + 2 ^ 16 * field d 48 4 in if field d 55 1 =? 1 then l * 2 ^ 12 + 0xfff else l.
Definition seg_type (d : Z) : Z := field d 40 4.
Definition seg_app (d : Z) : Z := field d 44 1.
Definition seg_dpl (d : Z) : Z := field d 45 2.
Definition seg_present (d : Z) : Z := field d 47 1.

Definition gate_off (g : Z) : Z := field g 0 16 + 2 ^ 16 * field g 48 16.
Definition gate_sel (g : Z) : Z := field g 16 16.
Definition gate_type (g : Z) : Z := field g 40 4.
Definition gate_dpl (g : Z) : Z := field g 45 2.
Definition gate_present (g : Z) : Z := field g 47 1.

(** An interrupt [n] at privilege [cpl], by an int instruction if [sw]: a fault, or the
    new privilege, where the processor goes on, and whether interrupts are off. *)
Definition deliver (gdt idt : list Z) (sw : bool) (cpl n : Z) : option (Z * Z * bool) :=
  g ← idt !! Z.to_nat n;
  if negb (gate_present g =? 1) || sw && (gate_dpl g <? cpl) then None else
  c ← gdt !! Z.to_nat (gate_sel g / 8);
  if negb (seg_present c =? 1) || negb (seg_app c =? 1) || negb (Z.testbit (seg_type c) 3) || (cpl <? seg_dpl c) then None else
  Some (seg_dpl c, seg_base c + gate_off g, gate_type g =? STS_IG32).

(** The physical address of [va] in a directory of 4 MB pages. *)
Definition large_page (pgdir : list Z) (va : Z) : option Z :=
  pde ← pgdir !! Z.to_nat (PDX va);
  if c_true (Z.land pde PTE_P) && c_true (Z.land pde PTE_PS) then Some (Z.land pde 0xffc00000 + va mod 2 ^ 22) else None.

(** ** Fields *)

Definition widths (l : list (Z * Z)) : Z := foldr (fun x n => x.1 + n) 0 l.

Lemma widths_pos l : Forall (fun x => 0 <= x.1) l -> 0 <= widths l.
Proof. induction 1; simpl; lia. Qed.

Lemma pack_field l : forall k w v, Forall (fun x => 0 <= x.1) l -> l !! k = Some (w, v) -> field (pack l) (widths (take k l)) w = v mod 2 ^ w.
Proof.
  unfold field. induction l as [|[w0 v0] l IH]; intros k w v Hl Hk; [done|]. apply Forall_cons in Hl as [Hw0 Hl]. cbn [fst] in Hw0. cbn [pack].
  pose proof (Z.pow_pos_nonneg 2 w0 ltac:(lia) Hw0) as Hp. pose proof (Z.mod_pos_bound v0 (2 ^ w0) Hp) as Hm. destruct k as [|k]; cbn [take].
  - injection Hk as <- <-. change (widths []) with 0. rewrite Z.pow_0_r, Z.div_1_r, (Z.mul_comm (2 ^ w0)), Z.mod_add by lia. apply Z.mod_mod. lia.
  - change (widths ((w0, v0) :: take k l)) with (w0 + widths (take k l)). pose proof (widths_pos (take k l) ltac:(by apply Forall_take)) as Hw.
    pose proof (Z.pow_pos_nonneg 2 (widths (take k l)) ltac:(lia) Hw). rewrite Z.pow_add_r, <- Z.div_div by lia.
    rewrite (Z.mul_comm (2 ^ w0)), Z.div_add, (Z.div_small (v0 mod 2 ^ w0)), Z.add_0_l by lia. by apply IH.
Qed.

(** Field [k] of a structure whose fields are [l]. *)
Ltac field_at k := refine (pack_field _ k _ _ _ _); [by repeat constructor|reflexivity].

Lemma seg_fields (d : segdesc) :
  let x := seg_bits d in
  field x 0 16 = lim_15_0 d mod 2 ^ 16 /\ field x 16 16 = base_15_0 d mod 2 ^ 16 /\ field x 32 8 = base_23_16 d mod 2 ^ 8 /\
  field x 40 4 = sd_type d mod 2 ^ 4 /\ field x 44 1 = sd_s d mod 2 ^ 1 /\ field x 45 2 = sd_dpl d mod 2 ^ 2 /\ field x 47 1 = sd_p d mod 2 ^ 1 /\
  field x 48 4 = lim_19_16 d mod 2 ^ 4 /\ field x 55 1 = sd_g d mod 2 ^ 1 /\ field x 56 8 = base_31_24 d mod 2 ^ 8.
Proof.
  split_and!; [field_at 0%nat|field_at 1%nat|field_at 2%nat|field_at 3%nat|field_at 4%nat|field_at 5%nat|field_at 6%nat
    |field_at 7%nat|field_at 11%nat|field_at 12%nat].
Qed.

Lemma gate_fields (g : gatedesc) :
  let x := gate_bits g in
  field x 0 16 = off_15_0 g mod 2 ^ 16 /\ field x 16 16 = g_cs g mod 2 ^ 16 /\ field x 40 4 = g_type g mod 2 ^ 4 /\
  field x 45 2 = g_dpl g mod 2 ^ 2 /\ field x 47 1 = g_p g mod 2 ^ 1 /\ field x 48 16 = off_31_16 g mod 2 ^ 16.
Proof. split_and!; [field_at 0%nat|field_at 1%nat|field_at 4%nat|field_at 6%nat|field_at 7%nat|field_at 8%nat]. Qed.

(** A 32 bit number from its parts. *)
Lemma three_parts x : 0 <= x < 2 ^ 32 ->
  Z.land x 0xffff mod 2 ^ 16 + 2 ^ 16 * (Z.land (Z.shiftr x 16) 0xff mod 2 ^ 8) + 2 ^ 24 * (Z.shiftr x 24 mod 2 ^ 8) = x.
Proof.
  intros Hx. rewrite (Z.land_ones _ 16), (Z.land_ones _ 8), !Z.shiftr_div_pow2 by lia. Z.div_mod_to_equations. lia.
Qed.
Lemma two_parts x : 0 <= x < 2 ^ 32 -> Z.land x 0xffff mod 2 ^ 16 + 2 ^ 16 * (Z.shiftr x 16 mod 2 ^ 16) = x.
Proof. intros Hx. rewrite (Z.land_ones _ 16), !Z.shiftr_div_pow2 by lia. Z.div_mod_to_equations. lia. Qed.

Ltac seg_decode d x :=
  let F := fresh "F" in pose proof (seg_fields d) as F; cbv zeta in F; fold x in F;
  unfold seg_base, seg_limit, seg_type, seg_app, seg_dpl, seg_present;
  let rec use H := lazymatch type of H with
    | _ /\ _ => let E := fresh "E" in let R := fresh "R" in destruct H as [E R]; rewrite ?E; use R
    | _ => rewrite ?H
    end in use F;
  cbn [SEG SEG16 lim_15_0 base_15_0 base_23_16 sd_type sd_s sd_dpl sd_p lim_19_16 sd_g base_31_24].

(** A segment made by SEG, as the processor sees it: the limit is in pages. *)
Lemma SEG_decodes type base lim dpl : 0 <= type < 16 -> 0 <= base < 2 ^ 32 -> 0 <= lim < 2 ^ 32 -> 0 <= dpl < 4 ->
  let x := seg_bits (SEG type base lim dpl) in
  seg_base x = base /\ seg_limit x = lim / 4096 * 4096 + 4095 /\ seg_type x = type /\ seg_app x = 1 /\ seg_dpl x = dpl /\ seg_present x = 1.
Proof.
  intros Ht Hb Hl Hd x. seg_decode (SEG type base lim dpl) x.
  split_and!; [by apply three_parts| |by apply Z.mod_small|done|by apply Z.mod_small|done]. change (1 mod 2 ^ 1 =? 1) with true. cbv iota.
  rewrite (Z.land_ones _ 16), !Z.shiftr_div_pow2 by lia. Z.div_mod_to_equations. lia.
Qed.

(** One made by SEG16: the limit is in bytes. *)
Lemma SEG16_decodes type base lim dpl : 0 <= type < 16 -> 0 <= base < 2 ^ 32 -> 0 <= lim < 2 ^ 20 -> 0 <= dpl < 4 ->
  let x := seg_bits (SEG16 type base lim dpl) in
  seg_base x = base /\ seg_limit x = lim /\ seg_type x = type /\ seg_app x = 1 /\ seg_dpl x = dpl /\ seg_present x = 1.
Proof.
  intros Ht Hb Hl Hd x. seg_decode (SEG16 type base lim dpl) x.
  split_and!; [by apply three_parts| |by apply Z.mod_small|done|by apply Z.mod_small|done]. change (0 mod 2 ^ 1 =? 1) with false. cbv iota.
  rewrite (Z.land_ones _ 16), !Z.shiftr_div_pow2 by lia. Z.div_mod_to_equations. lia.
Qed.

Lemma SETGATE_decodes istrap sel off d : 0 <= sel < 2 ^ 16 -> 0 <= off < 2 ^ 32 -> 0 <= d < 4 ->
  let x := gate_bits (SETGATE istrap sel off d) in
  gate_off x = off /\ gate_sel x = sel /\ gate_type x = (if c_true istrap then STS_TG32 else STS_IG32) /\ gate_dpl x = d /\ gate_present x = 1.
Proof.
  intros Hs Ho Hd x. destruct (gate_fields (SETGATE istrap sel off d)) as (F0 & F1 & F2 & F3 & F4 & F5). fold x in F0, F1, F2, F3, F4, F5.
  unfold gate_off, gate_sel, gate_type, gate_dpl, gate_present. rewrite F0, F1, F2, F3, F4, F5. cbn [SETGATE off_15_0 g_cs g_type g_dpl g_p off_31_16].
  split_and!; [by apply two_parts|by apply Z.mod_small|by destruct (c_true istrap)|by apply Z.mod_small|done].
Qed.

(** ** seginit and tvinit *)

Section Entry.
Context (gdt_addr : nat -> Z) (vectors : list Z).
Hypotheses (Hlen : length vectors = 256%nat) (Hvec : Forall (fun v => 0 <= v < 2 ^ 32) vectors).

Lemma set_seg_run {A} c i d g t (k : unit -> M tables Empty_set A) :
  gdts t !! c = Some g -> bind (set_seg c i d) k t = k tt (t <| gdts ::= <[c := <[Z.to_nat i := d]> g]> |>).
Proof. intros Hg. unfold set_seg. by rewrite bind_assoc, bind_gets, Hg, bind_assoc, bind_deref, bind_modify. Qed.

Definition flat_segs (g : list segdesc) : list segdesc :=
  <[4%nat := SEG STA_W 0 0xffffffff DPL_USER]> (<[3%nat := SEG (Z.lor STA_X STA_R) 0 0xffffffff DPL_USER]>
    (<[2%nat := SEG STA_W 0 0xffffffff 0]> (<[1%nat := SEG (Z.lor STA_X STA_R) 0 0xffffffff 0]> g))).

Lemma seginit_run c g t :
  gdts t !! c = Some g ->
  exists t', seginit gdt_addr c t = Ret tt t' /\ t' = t <| gdts := gdts t' |> <| gdtr := gdtr t' |> /\ gdts t' !! c = Some (flat_segs g).
Proof.
  intros Hg. pose proof (lookup_lt_Some _ _ _ Hg) as Hc. unfold seginit. rewrite (set_seg_run _ _ _ _ _ _ Hg).
  do 3 (erewrite set_seg_run by (cbn; apply list_lookup_insert_eq; rewrite ?length_insert; done)). unfold modify. eexists. split; [reflexivity|].
  split; [done|]. cbn. apply list_lookup_insert_eq. by rewrite !length_insert.
Qed.

Lemma set_gate_run i istrap sel d v t :
  vectors !! Z.to_nat i = Some v -> set_gate vectors i istrap sel d t = Ret tt (t <| idt ::= <[Z.to_nat i := SETGATE istrap sel v d]> |>).
Proof. intros Hv. unfold set_gate. by rewrite Hv, bind_deref. Qed.

Definition plain_gate (n : nat) : gatedesc := SETGATE 0 8 (vectors !!! n) 0.

Lemma gates_run n : forall i t, (i + n <= 256)%nat -> length (idt t) = 256%nat ->
  exists t', forM (seqZ (Z.of_nat i) (Z.of_nat n)) (fun i => set_gate vectors i 0 (Z.shiftl SEG_KCODE 3) 0) t = Ret tt t' /\
    t' = t <| idt := idt t' |> /\ length (idt t') = 256%nat /\
    forall j, idt t' !! j = if decide (i <= j < i + n)%nat then Some (plain_gate j) else idt t !! j.
Proof.
  induction n as [|n IH]; intros i t Hin Hl.
  { exists t. split_and!; [done|by destruct t|done|]. intros j. by rewrite decide_False by lia. }
  rewrite seqZ_cons by lia. cbn [forM]. destruct (lookup_lt_is_Some_2 vectors i) as [v Hv]; [lia|].
  rewrite (bind_ret_eq _ _ _ _ _ (set_gate_run (Z.of_nat i) 0 (Z.shiftl SEG_KCODE 3) 0 v t ltac:(by rewrite Nat2Z.id))). rewrite Nat2Z.id.
  replace (Z.succ (Z.of_nat i)) with (Z.of_nat (S i)) by lia. replace (Z.pred (Z.of_nat (S n))) with (Z.of_nat n) by lia.
  set (t1 := t <| idt ::= _ |>). destruct (IH (S i) t1) as (t' & E & Ht & Hl' & Hj); [lia|cbn; by rewrite length_insert|].
  exists t'. split_and!; [done|rewrite Ht; by destruct t|done|]. intros j. rewrite Hj. change (idt t1) with (<[i := SETGATE 0 8 v 0]> (idt t)).
  destruct (decide (S i <= j < S i + n)%nat), (decide (i <= j < i + S n)%nat); try (done || lia).
  - replace j with i by lia. rewrite list_lookup_insert_eq by lia. unfold plain_gate. by rewrite (list_lookup_total_correct _ _ _ Hv).
  - rewrite list_lookup_insert_ne by lia. done.
Qed.

Lemma tvinit_run t :
  length (idt t) = 256%nat ->
  exists t', tvinit vectors t = Ret tt t' /\ t' = t <| idt := idt t' |> <| tickslock := false |> /\
    forall n v, vectors !! n = Some v -> idt t' !! n = Some (if decide (n = 64%nat) then SETGATE 1 8 v 3 else SETGATE 0 8 v 0).
Proof.
  intros Hl. unfold tvinit. destruct (gates_run 256 0 t ltac:(lia) Hl) as (t1 & E & Ht & Hl1 & Hj). change (Z.of_nat 0) with 0 in E. change (Z.of_nat 256) with 256 in E.
  rewrite (bind_ret_eq _ _ _ _ _ E). destruct (lookup_lt_is_Some_2 vectors 64) as [v64 H64]; [lia|].
  rewrite (bind_ret_eq _ _ _ _ _ (set_gate_run T_SYSCALL 1 (Z.shiftl SEG_KCODE 3) DPL_USER v64 t1 H64)). unfold modify.
  eexists. split; [reflexivity|]. split; [rewrite Ht; by destruct t|]. intros n v Hv. change (Z.to_nat T_SYSCALL) with 64%nat. cbn.
  pose proof (lookup_lt_Some _ _ _ Hv). destruct (decide (n = 64%nat)) as [->|Hne].
  - rewrite list_lookup_insert_eq by lia. by simplify_eq.
  - rewrite list_lookup_insert_ne by done. rewrite Hj, decide_True by lia. unfold plain_gate. by rewrite (list_lookup_total_correct _ _ _ Hv).
Qed.

(** C31: the segments and gates of a processor send every interrupt to its vector, at
    privilege 0: with interrupts off, unless it is the one for system calls.  An int
    instruction of a user program gets there only for system calls, and faults for all
    other numbers. *)
Theorem interrupts_enter_kernel c g t :
  gdts t !! c = Some g -> length g = 6%nat -> length (idt t) = 256%nat ->
  exists t' g', (seginit gdt_addr c;; tvinit vectors) t = Ret tt t' /\ gdts t' !! c = Some g' /\
    forall sw cpl n v, cpl = 0 \/ cpl = DPL_USER -> vectors !! Z.to_nat n = Some v -> 0 <= n ->
      deliver (seg_bits <$> g') (gate_bits <$> idt t') sw cpl n =
      if sw && (cpl =? DPL_USER) && negb (n =? T_SYSCALL) then None else Some (0, v, negb (n =? T_SYSCALL)).
Proof.
  intros Hg Hlg Hli. destruct (seginit_run c g t Hg) as (t1 & E1 & Ht1 & Hg1).
  destruct (tvinit_run t1) as (t2 & E2 & Ht2 & Hgate); [rewrite Ht1; exact Hli|]. exists t2, (flat_segs g).
  split_and!; [by rewrite (bind_ret_eq _ _ _ _ _ E1)|rewrite Ht2; exact Hg1|]. intros sw cpl n v Hcpl Hv Hn.
  assert (Hvr : 0 <= v < 2 ^ 32) by (by eapply (Forall_lookup_1 (fun v => 0 <= v < 2 ^ 32))).
  unfold deliver. rewrite list_lookup_fmap, (Hgate _ _ Hv). cbn [fmap option_fmap option_map mbind option_bind].
  assert (Hcode : (seg_bits <$> flat_segs g) !! 1%nat = Some (seg_bits (SEG (Z.lor STA_X STA_R) 0 0xffffffff 0))).
  { rewrite list_lookup_fmap. unfold flat_segs. rewrite !list_lookup_insert_ne by done. rewrite list_lookup_insert_eq by lia. done. }
  assert (Hseg : let x := seg_bits (SEG (Z.lor STA_X STA_R) 0 0xffffffff 0) in
    seg_base x = 0 /\ seg_app x = 1 /\ Z.testbit (seg_type x) 3 = true /\ seg_dpl x = 0 /\ seg_present x = 1) by done.
  cbv zeta in Hseg. destruct Hseg as (S1 & S2 & S3 & S4 & S5).
  assert (H64 : (n =? T_SYSCALL) = bool_decide (Z.to_nat n = 64%nat)).
  { destruct (Z.eqb_spec n T_SYSCALL) as [->|]; [done|]. symmetry. apply bool_decide_eq_false. unfold T_SYSCALL in *. lia. }
  rewrite H64. destruct (decide (Z.to_nat n = 64%nat)) as [E|E].
  - destruct (SETGATE_decodes 1 8 v 3 ltac:(lia) Hvr ltac:(lia)) as (G1 & G2 & G3 & G4 & G5). rewrite G1, G2, G3, G4, G5, bool_decide_true by done.
    change (Z.to_nat (8 / 8)) with 1%nat. rewrite Hcode. cbn [mbind option_bind]. rewrite S1, S2, S3, S4, S5.
    destruct Hcpl as [->| ->]; destruct sw; done.
  - destruct (SETGATE_decodes 0 8 v 0 ltac:(lia) Hvr ltac:(lia)) as (G1 & G2 & G3 & G4 & G5). rewrite G1, G2, G3, G4, G5, bool_decide_false by done.
    change (Z.to_nat (8 / 8)) with 1%nat. rewrite Hcode. cbn [mbind option_bind]. rewrite S1, S2, S3, S4, S5.
    destruct Hcpl as [->| ->]; destruct sw; done.
Qed.
End Entry.

Definition demo_tables : tables := Tables [replicate 6 (SEG 0 0 0 0)] (replicate 256 (SETGATE 0 0 0 0)) true [] [].

Lemma interrupts_enter_kernel_witness : exists t' g',
  (seginit (fun _ => 0x80112000) 0;; tvinit (seqZ 0x80106000 256)) demo_tables = Ret tt t' /\ gdts t' !! 0%nat = Some g' /\
  deliver (seg_bits <$> g') (gate_bits <$> idt t') true DPL_USER T_SYSCALL = Some (0, 0x80106040, false) /\
  deliver (seg_bits <$> g') (gate_bits <$> idt t') true DPL_USER 14 = None /\
  deliver (seg_bits <$> g') (gate_bits <$> idt t') false DPL_USER 14 = Some (0, 0x8010600e, true).
Proof.
  assert (Hv : Forall (fun v => 0 <= v < 2 ^ 32) (seqZ 0x80106000 256)) by (apply Forall_forall; intros v Hv%elem_of_seqZ; lia).
  destruct (interrupts_enter_kernel (fun _ => 0x80112000) (seqZ 0x80106000 256) eq_refl Hv 0 (replicate 6 (SEG 0 0 0 0)) demo_tables eq_refl eq_refl eq_refl)
    as (t' & g' & E & Hg & Hd).
  exists t', g'. split; [exact E|]. split; [exact Hg|]. split; [|split].
  - rewrite (Hd true DPL_USER T_SYSCALL 0x80106040); [reflexivity|by right|reflexivity|done].
  - rewrite (Hd true DPL_USER 14 0x8010600e); [reflexivity|by right|reflexivity|done].
  - rewrite (Hd false DPL_USER 14 0x8010600e); [reflexivity|by right|reflexivity|done].
Defined.

(** The first page directory maps the 4 MB at 0 and the 4 MB at KERNBASE to the first
    4 MB of physical memory, and nothing else. *)
Theorem entrypgdir_maps va : 0 <= va < 2 ^ 32 ->
  large_page entrypgdir va =
  if va <? 0x400000 then Some va
  else if (KERNBASE <=? va) && (va <? KERNBASE + 0x400000) then Some (va - KERNBASE) else None.
Proof.
  intros Hva. unfold large_page. set (i := va / 2 ^ 22).
  assert (Hi : 0 <= i < 1024 /\ va = 2 ^ 22 * i + va mod 2 ^ 22 /\ 0 <= va mod 2 ^ 22 < 2 ^ 22).
  { unfold i. pose proof (Z.div_mod va (2 ^ 22) ltac:(done)). pose proof (Z.mod_pos_bound va (2 ^ 22) ltac:(done)). lia. }
  destruct Hi as (Hi & Hdm & Hm). assert (Hp : PDX va = i).
  { unfold PDX. rewrite (Z.land_ones _ 10), Z.shiftr_div_pow2 by lia. by apply Z.mod_small. }
  assert (Hl : entrypgdir !! Z.to_nat i = Some (if decide (i = 0 \/ i = 512) then 0x83 else 0)).
  { unfold entrypgdir. change (Z.to_nat (Z.shiftr KERNBASE 22)) with 512%nat. destruct (decide (i = 512)) as [E|E].
    - rewrite E, decide_True by (by right). apply list_lookup_insert_eq. rewrite length_insert, length_replicate. lia.
    - rewrite list_lookup_insert_ne by lia. destruct (decide (i = 0)) as [E0|E0].
      + rewrite E0, decide_True by (by left). apply list_lookup_insert_eq. rewrite length_replicate. lia.
      + rewrite decide_False by lia. rewrite list_lookup_insert_ne by lia. apply lookup_replicate_2. lia. }
  rewrite Hp, Hl. cbn [mbind option_bind]. unfold KERNBASE. case_decide as Hc.
  - change (c_true (Z.land 0x83 PTE_P) && c_true (Z.land 0x83 PTE_PS)) with true. cbv iota. change (Z.land 0x83 0xffc00000) with 0.
    destruct (Z.ltb_spec va 0x400000), (Z.leb_spec 0x80000000 va), (Z.ltb_spec va (0x80000000 + 0x400000)); cbn [andb]; try lia; f_equal; lia.
  - change (c_true (Z.land 0 PTE_P) && c_true (Z.land 0 PTE_PS)) with false. cbv iota.
    destruct (Z.ltb_spec va 0x400000), (Z.leb_spec 0x80000000 va), (Z.ltb_spec va (0x80000000 + 0x400000)); cbn [andb]; done || lia.
Qed.
