(* ===== verification/Mkfs.v ===== *)
(** * The file system image (mkfs.c)

    The program of the build machine that writes the initial disk.  [img] is the image
    file by sectors.  The host's files are inputs: what [open] and the [read] calls
    give; writes to the image succeed.  A run of the program ends in [exit] ([Stop]) or
    in a failed [assert] ([Panic]); what it prints is left out.  The host is
    little-endian, as the use of the converted superblock by IBLOCK requires. *)
From S2P Require Import Prelude Bytes Cstring Spinlock ProcDefs Memory Kalloc FsDefs Bio Log Fs Ide.
Local Open Scope Z_scope.
Local Open Scope kernel_scope.

Definition NINODES : Z := 200.
Definition nbitmap : Z := FSSIZE / (BSIZE * 8) + 1.
Definition ninodeblocks : Z := NINODES / IPB + 1.
Definition nlog : Z := Z.of_nat LOGSIZE.
Definition nmeta : Z := 2 + nlog + ninodeblocks + nbitmap.
Definition nblocks : Z := FSSIZE - nmeta.

(** The bytes of [x], lowest first, as the host reads them back. *)
Definition xshort (x : Z) : Z := le_value [u8 x; u8 (Z.shiftr x 8)].
Definition xint (x : Z) : Z := le_value [u8 x; u8 (Z.shiftr x 8); u8 (Z.shiftr x 16); u8 (Z.shiftr x 24)].

(** struct dinode in the program's memory *)
Record dinode := Dinode {
  d_type : Z;
  d_major : Z;
  d_minor : Z;
  d_nlink : Z;
  d_size : Z;
  d_addrs : list Z
}.
#[export] Instance dinode_eta : Eta dinode :=
  fun d => Dinode (d_type d) (d_major d) (d_minor d) (d_nlink d) (d_size d) (d_addrs d).

Record mkst := Mkst {
  img : list (list Z);
  msb : superblock;
  freeinode : Z;
  freeblock : Z
}.
#[export] Instance mkst_eta : Eta mkst := fun s => Mkst (img s) (msb s) (freeinode s) (freeblock s).

Inductive exited := Exit (status : Z).
Definition MK (A : Type) : Type := M mkst exited A.

Definition assert (b : bool) (what : string) : MK unit := if b then ret tt else panic what.

(** ** Sectors *)

(** The sector at the file offset sec * BSIZE. *)
Definition sector_of (sec : Z) : nat := Z.to_nat (u32 (sec * BSIZE) / BSIZE).

Definition zeroes : list Z := zeros (Z.to_nat BSIZE).

(** A write behind the end of the file leaves zeros before it. *)
Definition wsect (sec : Z) (buf : list Z) : MK unit :=
  modify (fun s => s <| img ::= fun l =>
    if decide (sector_of sec < length l)%nat then <[sector_of sec := buf]> l
    else l ++ replicate (sector_of sec - length l) zeroes ++ [buf] |>).

Definition rsect (sec : Z) : MK (list Z) :=
  do l <- gets img;
  match l !! sector_of sec with Some buf => ret buf | None => stop (Exit 1) end.

(** ** Inodes *)

(** The structure as the fields of an inode, for the stores and loads of Fs.v. *)
Definition as_inode (ino : Z) (d : dinode) : inode :=
  Inode 1 ino 0 (Sleeplock 0 false "" 0) 0 (d_type d) (d_major d) (d_minor d) (d_nlink d) (d_size d) (d_addrs d).
Definition of_inode (ip : inode) : dinode := Dinode (itype ip) (imajor ip) (iminor ip) (inlink ip) (isize ip) (iaddrs ip).

Definition no_dinode : dinode := Dinode 0 0 0 0 0 (replicate 13 0).

Definition winode (inum : Z) (ip : dinode) : MK unit :=
  do x <- gets msb;
  let bn := IBLOCK inum x in
  do buf <- rsect bn;
  do buf <- derefM "dip" (put_dinode (as_inode inum ip) (dip_off inum) buf);
  wsect bn buf.

Definition rinode (inum : Z) : MK dinode :=
  do x <- gets msb;
  let bn := IBLOCK inum x in
  do buf <- rsect bn;
  do ip <- derefM "dip" (get_dinode (dip_off inum) buf (as_inode inum no_dinode));
  ret (of_inode ip).

Definition ialloc (type : Z) : MK Z :=
  do inum <- gets freeinode;
  modify (fun s => s <| freeinode ::= fun n => u32 (n + 1) |>);;
  let din := no_dinode <| d_type := s16 (xshort type) |> <| d_nlink := s16 (xshort 1) |> <| d_size := xint 0 |> in
  winode inum din;;
  ret inum.

(** freeblock++ *)
Definition next_block : MK Z :=
  do b <- gets freeblock;
  modify (fun s => s <| freeblock ::= fun n => u32 (n + 1) |>);;
  ret b.

(** The entry of [fbn] in the indirect block [a], which is set if it is 0. *)
Definition iappend_entry (a fbn : Z) : MK Z :=
  do indirect <- rsect a;
  let j := (4 * Z.to_nat (fbn - NDIRECT))%nat in
  do e <- derefM "indirect" (ld 4 j indirect);
  do indirect <- (if e =? 0
                  then
                    do b <- next_block;
                    do indirect <- derefM "indirect" (st 4 j (xint b) indirect);
                    wsect a indirect;;
                    ret indirect
                  else ret indirect);
  do e <- derefM "indirect" (ld 4 j indirect);
  ret (xint e).

(** The block of the file that holds block [fbn], with the structure that records it. *)
Definition iappend_block (din : dinode) (fbn : Z) : MK (Z * dinode) :=
  if fbn <? NDIRECT then
    do a <- derefM "addrs" (d_addrs din !! Z.to_nat fbn);
    do din <- (if xint a =? 0
               then do b <- next_block; ret (din <| d_addrs ::= <[Z.to_nat fbn := xint b]> |>)
               else ret din);
    do a <- derefM "addrs" (d_addrs din !! Z.to_nat fbn);
    ret (xint a, din)
  else
    do a <- derefM "addrs" (d_addrs din !! Z.to_nat NDIRECT);
    do din <- (if xint a =? 0
               then do b <- next_block; ret (din <| d_addrs ::= <[Z.to_nat NDIRECT := xint b]> |>)
               else ret din);
    do a <- derefM "addrs" (d_addrs din !! Z.to_nat NDIRECT);
    do x <- iappend_entry (xint a) fbn;
    ret (x, din).

(** The loop of [iappend]; [p] is what is left to append.  A turn appends at least a
    byte, so that a fuel of one more than the bytes is not used up. *)
Fixpoint iappend_loop (fuel : nat) (p : list Z) (off : Z) (din : dinode) : MK (Z * dinode) :=
  match fuel with
  | O => undef "iappend"
  | S fuel' =>
    if Z.of_nat (length p) <=? 0 then ret (off, din) else
    let fbn := off / BSIZE in
    assert (fbn <? MAXFILE) "fbn < MAXFILE";;
    do '(x, din) <- iappend_block din fbn;
    let n1 := Z.min (Z.of_nat (length p)) ((fbn + 1) * BSIZE - off) in
    do buf <- rsect x;
    do buf <- derefM "bcopy" (splice (Z.to_nat (off - fbn * BSIZE)) (take (Z.to_nat n1) p) buf);
    wsect x buf;;
    iappend_loop fuel' (drop (Z.to_nat n1) p) (u32 (off + n1)) din
  end.

Definition iappend (inum : Z) (p : list Z) : MK unit :=
  do din <- rinode inum;
  let off := xint (d_size din) in
  do '(off, din) <- iappend_loop (S (length p)) p off din;
  winode inum (din <| d_size := xint off |>).

(** ** The bitmap *)

(** for(i = 0; i < used; i++) buf[i/8] = buf[i/8] | (0x1 << (i%8)) *)
Fixpoint mark_used (n : nat) (i : Z) (buf : list Z) : option (list Z) :=
  match n with
  | O => Some buf
  | S n' => buf ← set_byte i (fun v => Z.lor v (Z.shiftl 1 (i mod 8))) buf; mark_used n' (i + 1) buf
  end.

Definition balloc (used : Z) : MK unit :=
  assert (used <? BSIZE * 8) "used < BSIZE*8";;
  do buf <- derefM "buf" (mark_used (Z.to_nat used) 0 zeroes);
  do x <- gets msb;
  wsect (sb_bmapstart x) buf.

(** ** main *)

(** struct dirent: bzero, inum, and the name copied by strcpy or strncpy *)
Definition dirent_of (inum : Z) (name : list Z) : list Z := le_bytes 2 (xshort inum) ++ name.
Definition dot_name : list Z := 46 :: zeros 13.
Definition dotdot_name : list Z := 46 :: 46 :: zeros 12.

(** A file of the command line: its name, and the bytes of each read until one does not
    deliver any, if it can be opened. *)
Record hostfile := Hostfile { h_name : list Z; h_reads : option (list (list Z)) }.

(** argv[i] without the leading underscore *)
Definition skip_underscore (name : list Z) : list Z :=
  match name with c :: name' => if c =? 95 then name' else name | [] => [] end.

Definition add_file (rootino : Z) (f : hostfile) : MK unit :=
  assert (negb (bool_decide (47 ∈ h_name f))) "index(argv[i], '/') == 0";;
  match h_reads f with
  | None => stop (Exit 1)
  | Some reads =>
    let name := skip_underscore (h_name f) in
    do inum <- ialloc T_FILE;
    do nm <- derefM "strncpy" (strncpy (zeros DIRSIZ) (name ++ [0]) DIRSIZ);
    iappend rootino (dirent_of inum nm);;
    forM reads (iappend inum)
  end.

Definition sb_bytes (x : superblock) : list Z :=
  le_bytes 4 (sb_size x) ++ le_bytes 4 (sb_nblocks x) ++ le_bytes 4 (sb_ninodes x) ++ le_bytes 4 (sb_nlog x) ++
  le_bytes 4 (sb_logstart x) ++ le_bytes 4 (sb_inodestart x) ++ le_bytes 4 (sb_bmapstart x).

Definition the_sb : superblock :=
  Superblock (xint FSSIZE) (xint nblocks) (xint NINODES) (xint nlog) (xint 2) (xint (2 + nlog)) (xint (2 + nlog + ninodeblocks)).

(** [image]: whether the command line names an image and, if so, whether open gave a
    descriptor for it; [fs]: the files after it. *)
Definition main (image : option bool) (fs : list hostfile) : MK unit :=
  match image with None => stop (Exit 1) | Some opened =>
  assert (BSIZE mod Z.of_nat sizeof_dinode =? 0) "BSIZE % sizeof(struct dinode) == 0";;
  assert (BSIZE mod sizeof_dirent =? 0) "BSIZE % sizeof(struct dirent) == 0";;
  (if opened then ret tt else stop (Exit 1));;
  modify (fun s => s <| msb := the_sb |>);;
  modify (fun s => s <| freeblock := nmeta |>);;
  forM (seq 0 (Z.to_nat FSSIZE)) (fun i => wsect (Z.of_nat i) zeroes);;
  do buf <- derefM "buf" (splice 0 (sb_bytes the_sb) zeroes);
  wsect 1 buf;;
  do rootino <- ialloc T_DIR;
  assert (rootino =? ROOTINO) "rootino == ROOTINO";;
  iappend rootino (dirent_of rootino dot_name);;
  iappend rootino (dirent_of rootino dotdot_name);;
  forM fs (add_file rootino);;
  do din <- rinode rootino;
  let off := xint (d_size din) in
  let off := (off / BSIZE + 1) * BSIZE in
  winode rootino (din <| d_size := xint off |>);;
  do used <- gets freeblock;
  balloc (s32 used);;
  stop (Exit 0)
  end.

(** The static variables, with an empty file. *)
Definition start : mkst := Mkst [] (Superblock 0 0 0 0 0 0 0) 1 0.
