(* ===== verification/MkfsSpec.v ===== *)
(** * What mkfs keeps while it builds the image

    [blocks] is the invariant of the data blocks: an owner for every block allocated,
    zeros in the others, and for every file the bytes appended so far, in the terms of
    the kernel's file system ([block_of] and [fbyte] of FsMap.v and FsRw.v).
    [holds s fs] says that the image of [s] holds the files [fs], each a type and its
    bytes: inode [k + 1] is that of file [k], on disk.  [ialloc] adds an empty file and
    [iappend] bytes to one, which is all [main] does to the image. *)
From S2P Require Import Prelude Bytes Cstring Memory Spinlock ProcDefs Kalloc FsDefs Bio BioRing BioSpec BioOps BioSeq.
From S2P Require Import Log LogSpec LogCrash Fs FsCodec FsTx FsBlocks FsMap FsFile FsRw Ide Mkfs.
Local Open Scope Z_scope.
Local Open Scope kernel_scope.

(** ** Integers *)

Lemma xint_u32 x : xint x = u32 x.
Proof.
  unfold xint. transitivity (le_value (le_bytes 4 x)); [|apply le_value_bytes].
  cbn [le_bytes]. unfold u8. rewrite !Z.shiftr_div_pow2, !Z.div_div by lia. done.
Qed.
Lemma xshort_u16 x : xshort x = u16 x.
Proof.
  unfold xshort. transitivity (le_value (le_bytes 2 x)); [|apply le_value_bytes].
  cbn [le_bytes]. unfold u8. by rewrite !Z.shiftr_div_pow2 by lia.
Qed.
Lemma xint_small x : 0 <= x < 2 ^ 32 -> xint x = x.
Proof. intros. by rewrite xint_u32, u32_small. Qed.

Lemma the_sb_eq : the_sb = Superblock 1000 941 200 30 2 32 58.
Proof. reflexivity. Qed.
Lemma nmeta_eq : nmeta = 59.
Proof. reflexivity. Qed.

(** ** Sectors *)

Definition view (s : mkst) (b : Z) : list Z := default [] (img s !! Z.to_nat b).
Definition put (b : Z) (buf : list Z) (s : mkst) : mkst := s <| img ::= <[Z.to_nat b := buf]> |>.

Record sectors (s : mkst) : Prop := {
  sc_len : length (img s) = 1000%nat;
  sc_all : Forall (fun d => length d = 512%nat) (img s)
}.

Lemma sector_of_small b : 0 <= b < 2 ^ 23 -> sector_of b = Z.to_nat b.
Proof. intros Hb. unfold sector_of, BSIZE. rewrite u32_small by lia. by rewrite Z.div_mul. Qed.

Lemma rsect_run s b : sectors s -> 0 <= b < 1000 -> rsect b s = Ret (view s b) s.
Proof.
  intros [Hl _] Hb. unfold rsect. rewrite bind_gets, sector_of_small by lia. unfold view.
  by destruct (lookup_lt_is_Some_2 (img s) (Z.to_nat b)) as [d ->]; [lia|].
Qed.

Lemma wsect_run s b buf : sectors s -> 0 <= b < 1000 -> wsect b buf s = Ret tt (put b buf s).
Proof.
  intros [Hl _] Hb. unfold wsect, modify. rewrite sector_of_small by lia. unfold put. cbn. by rewrite decide_True by lia.
Qed.

Lemma view_put s b buf m : sectors s -> 0 <= b < 1000 -> 0 <= m -> view (put b buf s) m = if m =? b then buf else view s m.
Proof.
  intros [Hl _] Hb Hm. unfold view, put. cbn. destruct (Z.eqb_spec m b) as [->|Hne].
  - by rewrite list_lookup_insert_eq by lia.
  - by rewrite list_lookup_insert_ne by lia.
Qed.

Lemma sectors_put s b buf : sectors s -> length buf = 512%nat -> sectors (put b buf s).
Proof.
  intros [Hl Ha] Hb. split; cbn; [by rewrite length_insert|]. by apply Forall_insert.
Qed.

Lemma view_length s b : sectors s -> 0 <= b < 1000 -> length (view s b) = 512%nat.
Proof.
  intros [Hl Ha] Hb. unfold view. destruct (lookup_lt_is_Some_2 (img s) (Z.to_nat b)) as [d Hd]; [lia|]. rewrite Hd. simpl.
  rewrite Forall_forall in Ha. apply Ha. by eapply list_elem_of_lookup_2.
Qed.

(** ** Files under construction *)

(** A file: its inode in memory, its bytes, and how many blocks it has. *)
Record wfile := Wfile { w_din : dinode; w_data : list Z; w_blocks : Z }.
#[export] Instance wfile_eta : Eta wfile := fun f => Wfile (w_din f) (w_data f) (w_blocks f).

Definition ip_of (f : wfile) : inode := as_inode 0 (w_din f).

(** The owner of a block: a file and the block number in it, or its indirect block. *)
Definition owner : Type := nat * option Z.
Definition owns (O : list owner) (b : Z) (o : owner) : Prop := nmeta <= b /\ O !! Z.to_nat (b - nmeta) = Some o.

Record wfile_ok (V : Z -> list Z) (O : list owner) (k : nat) (f : wfile) : Prop := {
  wf_len : length (d_addrs (w_din f)) = 13%nat;
  wf_addrs : Forall (fun a => 0 <= a < 2 ^ 32) (d_addrs (w_din f));
  wf_nb : 0 <= w_blocks f <= MAXFILE /\ Z.of_nat (length (w_data f)) <= w_blocks f * BSIZE;
  wf_none : forall bn, 0 <= bn < MAXFILE -> (block_of V (ip_of f) bn = 0 <-> w_blocks f <= bn);
  wf_ind : ind_block (ip_of f) = 0 <-> w_blocks f <= NDIRECT;
  wf_own : forall bn, 0 <= bn < w_blocks f -> owns O (block_of V (ip_of f) bn) (k, Some bn);
  wf_own_ind : NDIRECT < w_blocks f -> owns O (ind_block (ip_of f)) (k, None);
  wf_data : forall q, 0 <= q < MAXFILE * BSIZE -> fbyte V (ip_of f) q = default 0 (w_data f !! Z.to_nat q)
}.

Record blocks (s : mkst) (Fs : list wfile) (O : list owner) : Prop := {
  bk_sectors : sectors s;
  bk_sb : msb s = the_sb;
  bk_free : freeblock s = nmeta + Z.of_nat (length O) /\ freeblock s <= 1000;
  bk_zero : forall b, freeblock s <= b < 1000 -> view s b = zeroes;
  bk_files : forall k f, Fs !! k = Some f -> wfile_ok (view s) O k f
}.

(** ** Framing *)

Lemma owns_lt O b o : owns O b o -> nmeta <= b < nmeta + Z.of_nat (length O).
Proof. intros [Hb Ho]. apply lookup_lt_Some in Ho. lia. Qed.
Lemma owns_app O O' b o : owns O b o -> owns (O ++ O') b o.
Proof. intros [Hb Ho]. split; [done|]. by apply lookup_app_l_Some. Qed.
Lemma owns_new O o : owns (O ++ [o]) (nmeta + Z.of_nat (length O)) o.
Proof. split; [lia|]. replace (Z.to_nat _) with (length O) by lia. by rewrite lookup_app_r, Nat.sub_diag by lia. Qed.
Lemma owns_inj O b o o' : owns O b o -> owns O b o' -> o = o'.
Proof. intros [_ H1] [_ H2]. congruence. Qed.

(** The blocks a file reads are its own. *)
Lemma wfile_ext V V' O O' k f :
  wfile_ok V O k f -> (forall b o, owns O b o -> owns O' b o) ->
  (forall b o, owns O b (k, o) -> V' b = V b) -> wfile_ok V' O' k f.
Proof.
  intros Hf HO HV.
  assert (Hb : forall bn, 0 <= bn < MAXFILE -> block_of V' (ip_of f) bn = block_of V (ip_of f) bn).
  { intros bn Hbn. unfold block_of. destruct (bn <? NDIRECT); [done|]. destruct (Z.eqb_spec (ind_block (ip_of f)) 0) as [|Hi]; [done|].
    rewrite (HV (ind_block (ip_of f)) None); [done|]. apply Hf. destruct (wf_ind _ _ _ _ Hf) as [_ H2].
    destruct (decide (NDIRECT < w_blocks f)); [done|]. exfalso. apply Hi, H2. lia. }
  split; try apply Hf.
  - intros bn Hbn. rewrite Hb by done. by apply (wf_none _ _ _ _ Hf).
  - intros bn Hbn. rewrite Hb by (pose proof (wf_nb _ _ _ _ Hf); lia). by apply HO, (wf_own _ _ _ _ Hf).
  - intros Hi. by apply HO, (wf_own_ind _ _ _ _ Hf).
  - intros q Hq. rewrite <- (wf_data _ _ _ _ Hf q Hq). unfold fbyte.
    assert (Hbn : 0 <= q / BSIZE < MAXFILE) by (split; [apply Z.div_pos; unfold BSIZE; lia|apply Z.div_lt_upper_bound; unfold BSIZE in *; lia]).
    rewrite Hb by done. destruct (Z.eqb_spec (block_of V (ip_of f) (q / BSIZE)) 0) as [|Hn]; [done|]. cbv zeta.
    rewrite (HV _ (Some (q / BSIZE))); [done|]. apply (wf_own _ _ _ _ Hf). destruct (wf_none _ _ _ _ Hf _ Hbn) as [_ H2].
    destruct (decide (w_blocks f <= q / BSIZE)); [tauto|lia].
Qed.

Lemma block_range q : 0 <= q < MAXFILE * BSIZE -> 0 <= q / BSIZE < MAXFILE.
Proof. intros Hq. split; [apply Z.div_pos; unfold BSIZE; lia|apply Z.div_lt_upper_bound; unfold BSIZE in *; lia]. Qed.

(** ** A file gets its next block *)

Lemma grow_ok V V' O O' k f din b :
  wfile_ok V O k f -> w_blocks f < MAXFILE -> length (d_addrs din) = 13%nat -> Forall (fun a => 0 <= a < 2 ^ 32) (d_addrs din) ->
  let f' := f <| w_din := din |> <| w_blocks := w_blocks f + 1 |> in
  (forall bn, 0 <= bn < MAXFILE -> block_of V' (ip_of f') bn = if bn =? w_blocks f then b else block_of V (ip_of f) bn) ->
  (forall x o, owns O x o -> owns O' x o) -> owns O' b (k, Some (w_blocks f)) -> V' b = zeroes ->
  (w_blocks f < NDIRECT -> ind_block (ip_of f') = 0) -> (NDIRECT <= w_blocks f -> owns O' (ind_block (ip_of f')) (k, None)) ->
  (forall bn, 0 <= bn < w_blocks f -> V' (block_of V (ip_of f) bn) = V (block_of V (ip_of f) bn)) ->
  wfile_ok V' O' k f'.
Proof.
  intros Hf Hnb Hlen Hrng f' Hb HO Hown Hz Hi0 Hi Hd. pose proof (wf_nb _ _ _ _ Hf) as [Hnb0 Hle]. pose proof (owns_lt _ _ _ Hown) as Hb0. rewrite nmeta_eq in Hb0.
  assert (Hnone : forall bn, 0 <= bn < MAXFILE -> block_of V' (ip_of f') bn = 0 <-> w_blocks f + 1 <= bn).
  { intros bn Hbn. rewrite Hb by done. pose proof (wf_none _ _ _ _ Hf bn Hbn). destruct (Z.eqb_spec bn (w_blocks f)); lia. }
  change (w_blocks f + 1) with (w_blocks f') in Hnone.
  split; change (w_data f') with (w_data f) in *; change (w_din f') with din in *; change (w_blocks f') with (w_blocks f + 1) in *; try done.
  - unfold BSIZE in *. lia.
  - split; [|intros; apply Hi0; lia]. intros E. destruct (decide (w_blocks f < NDIRECT)); [lia|].
    pose proof (owns_lt _ _ _ (Hi ltac:(lia))) as Hlt. rewrite nmeta_eq in Hlt. lia.
  - intros bn Hbn. rewrite Hb by lia. destruct (Z.eqb_spec bn (w_blocks f)) as [->|]; [done|]. apply HO, (wf_own _ _ _ _ Hf). lia.
  - intros. apply Hi. lia.
  - intros q Hq. pose proof (block_range q Hq) as Hbn. unfold fbyte. rewrite Hb by done.
    destruct (Z.eqb_spec (q / BSIZE) (w_blocks f)) as [E|E].
    + rewrite (proj2 (Z.eqb_neq b 0)), Hz by lia. rewrite lookup_ge_None_2; [|unfold BSIZE in *; pose proof (Z.mul_div_le q 512); lia].
      unfold zeroes, zeros. rewrite lookup_total_replicate_2; [done|]. pose proof (Z.mod_pos_bound q BSIZE ltac:(done)). unfold BSIZE in *. lia.
    + rewrite <- (wf_data _ _ _ _ Hf q Hq). unfold fbyte. pose proof (wf_none _ _ _ _ Hf _ Hbn).
      destruct (Z.eqb_spec (block_of V (ip_of f) (q / BSIZE)) 0); [done|]. cbv zeta. rewrite Hd; [done|]. lia.
Qed.

(** A direct block. *)
Lemma block_direct V f bn b :
  length (d_addrs (w_din f)) = 13%nat -> 0 <= bn < NDIRECT ->
  let ip' := as_inode 0 (w_din f <| d_addrs ::= <[Z.to_nat bn := b]> |>) in
  ind_block ip' = ind_block (ip_of f) /\
  forall bm, 0 <= bm < MAXFILE -> block_of V ip' bm = if bm =? bn then b else block_of V (ip_of f) bm.
Proof.
  intros Hlen Hbn ip'. unfold NDIRECT in Hbn.
  assert (Hi : ind_block ip' = ind_block (ip_of f)).
  { unfold ind_block, ip', ip_of, ind_slot. cbn. rewrite list_lookup_total_insert_ne; [done|]. unfold NDIRECT. lia. }
  split; [done|]. intros bm Hbm. unfold block_of. rewrite Hi. unfold NDIRECT. destruct (Z.ltb_spec bm 12).
  - unfold ip'. cbn. destruct (Z.eqb_spec bm bn) as [->|].
    + by rewrite list_lookup_total_insert_eq by lia.
    + by rewrite list_lookup_total_insert_ne by lia.
  - rewrite (proj2 (Z.eqb_neq bm bn)) by lia. done.
Qed.

(** An entry of the indirect block. *)
Lemma block_entry V V' f bn b :
  length (V (ind_block (ip_of f))) = 512%nat -> ind_block (ip_of f) <> 0 -> NDIRECT <= bn < MAXFILE -> 0 <= b < 2 ^ 32 ->
  st 4 (4 * Z.to_nat (bn - NDIRECT)) b (V (ind_block (ip_of f))) = Some (V' (ind_block (ip_of f))) ->
  forall bm, 0 <= bm < MAXFILE -> block_of V' (ip_of f) bm = if bm =? bn then b else block_of V (ip_of f) bm.
Proof.
  intros Hl Hi Hbn Hb Hst bm Hbm. unfold block_of. rewrite (proj2 (Z.eqb_neq _ _) Hi).
  unfold NDIRECT, MAXFILE, NINDIRECT in *. destruct (Z.ltb_spec bm 12).
  - rewrite (proj2 (Z.eqb_neq bm bn)) by lia. done.
  - rewrite (ind_entry_st _ _ _ _ _ Hst) by lia. destruct (Z.eqb_spec (bm - 12) (bn - 12)), (Z.eqb_spec bm bn); try lia; done.
Qed.

(** ** Changes to one file *)

Lemma blocks_step s s' Fs O O' k f' :
  blocks s Fs O -> sectors s' -> msb s' = msb s -> O `prefix_of` O' ->
  freeblock s' = nmeta + Z.of_nat (length O') -> freeblock s' <= 1000 ->
  (forall b, freeblock s' <= b < 1000 -> view s' b = view s b) ->
  (forall b j o, owns O b (j, o) -> j <> k -> view s' b = view s b) ->
  wfile_ok (view s') O' k f' -> blocks s' (<[k := f']> Fs) O'.
Proof.
  intros Hb Hs Hm [On ->] Hfb Hle Hz Hoth Hf. destruct (bk_free _ _ _ Hb) as [Hfb0 _]. rewrite length_app in Hfb.
  split; [done|by rewrite Hm, (bk_sb _ _ _ Hb)|by rewrite length_app|..].
  - intros b Hb1. rewrite Hz by done. apply (bk_zero _ _ _ Hb). lia.
  - intros j f Hj. apply list_lookup_insert_Some in Hj as [(<- & <- & _)|[Hne Hj]]; [done|].
    eapply wfile_ext; [by apply (bk_files _ _ _ Hb)|intros; by apply owns_app|]. intros b o Ho. by eapply Hoth.
Qed.

Definition same_meta (s s' : mkst) : Prop :=
  freeinode s' = freeinode s /\ forall b, 0 <= b < nmeta -> view s' b = view s b.
Lemma same_meta_refl s : same_meta s s.
Proof. done. Qed.
Lemma same_meta_trans s1 s2 s3 : same_meta s1 s2 -> same_meta s2 s3 -> same_meta s1 s3.
Proof. intros [E1 V1] [E2 V2]. split; [congruence|]. intros b Hb. by rewrite V2, V1. Qed.

Lemma bind_next_block {A} s (c : Z -> MK A) :
  0 <= freeblock s < 1000 -> bind next_block c s = c (freeblock s) (s <| freeblock := freeblock s + 1 |>).
Proof.
  intros Hf. unfold next_block. rewrite bind_assoc, bind_gets, bind_assoc, bind_modify, bind_ret. f_equal.
  destruct s; cbn in *. by rewrite u32_small by lia.
Qed.

Lemma addr_small f V O k i a : wfile_ok V O k f -> d_addrs (w_din f) !! i = Some a -> xint a = a.
Proof. intros Hf Ha. pose proof (wf_addrs _ _ _ _ Hf) as Hr. rewrite Forall_forall in Hr. apply xint_small, Hr. by eapply list_elem_of_lookup_2. Qed.

(** Blocks that [fbn] needs, when the file has [nb]. *)
Definition need (nb fbn : Z) : Z := if fbn <? nb then 0 else if fbn =? NDIRECT then 2 else 1.

(** What [iappend_block] does to file [k]. *)
Definition got_block s Fs (O : list owner) k f fbn x din s' : Prop :=
  let f' := f <| w_din := din |> <| w_blocks := Z.max (w_blocks f) (fbn + 1) |> in
  exists O', blocks s' (<[k := f']> Fs) O' /\ Z.of_nat (length O') = Z.of_nat (length O) + need (w_blocks f) fbn /\
    x = block_of (view s') (ip_of f') fbn /\ same_meta s s' /\ din = w_din f <| d_addrs := d_addrs din |>.

Lemma got_old s Fs O k f fbn :
  blocks s Fs O -> Fs !! k = Some f -> 0 <= fbn < w_blocks f ->
  got_block s Fs O k f fbn (block_of (view s) (ip_of f) fbn) (w_din f) s.
Proof.
  intros Hb Hk Hf. exists O. unfold need. rewrite (proj2 (Z.ltb_lt _ _)) by lia.
  replace (f <| w_din := w_din f |> <| w_blocks := Z.max (w_blocks f) (fbn + 1) |>) with f by (rewrite Z.max_l by lia; by destruct f).
  rewrite list_insert_id by done. split_and!; [done|lia|done|done|by destruct (w_din f)].
Qed.

Lemma sectors_freeblock s n : sectors s -> sectors (s <| freeblock := n |>).
Proof. by intros []. Qed.

(** The address of a direct block, and of the indirect block, in memory. *)
Lemma addr_direct V O k f bn : wfile_ok V O k f -> 0 <= bn < NDIRECT -> d_addrs (w_din f) !! Z.to_nat bn = Some (block_of V (ip_of f) bn).
Proof.
  intros Hf Hbn. pose proof (wf_len _ _ _ _ Hf). unfold block_of. rewrite (proj2 (Z.ltb_lt bn NDIRECT)) by lia.
  unfold ip_of. cbn. apply list_lookup_lookup_total_lt. unfold NDIRECT in *. lia.
Qed.
Lemma addr_ind V O k f : wfile_ok V O k f -> d_addrs (w_din f) !! Z.to_nat NDIRECT = Some (ind_block (ip_of f)).
Proof.
  intros Hf. pose proof (wf_len _ _ _ _ Hf) as Hl. unfold ind_block, ip_of. cbn. apply list_lookup_lookup_total_lt. rewrite Hl. unfold ind_slot, NDIRECT. lia.
Qed.

Lemma got_direct s Fs O k f fbn :
  blocks s Fs O -> Fs !! k = Some f -> 0 <= fbn <= w_blocks f -> fbn < NDIRECT -> freeblock s + need (w_blocks f) fbn <= 1000 ->
  exists x din s', iappend_block (w_din f) fbn s = Ret (x, din) s' /\ got_block s Fs O k f fbn x din s'.
Proof.
  intros Hb Hk Hfbn Hd Hroom. pose proof (bk_files _ _ _ Hb k f Hk) as Hf. destruct (bk_free _ _ _ Hb) as [Hfb Hle]. rewrite nmeta_eq in Hfb.
  pose proof (addr_direct _ _ _ _ fbn Hf ltac:(lia)) as Ha. unfold iappend_block. rewrite (proj2 (Z.ltb_lt fbn NDIRECT)) by done.
  rewrite Ha, bind_deref. rewrite (addr_small f _ _ _ _ _ Hf Ha).
  destruct (wf_none _ _ _ _ Hf fbn ltac:(unfold MAXFILE, NINDIRECT, NDIRECT in *; lia)) as [H1 H2].
  destruct (Z.eqb_spec (block_of (view s) (ip_of f) fbn) 0) as [E|E].
  - assert (Hnb : fbn = w_blocks f) by lia. clear H1 H2. unfold need in Hroom. rewrite (proj2 (Z.ltb_ge _ _)), (proj2 (Z.eqb_neq fbn NDIRECT)) in Hroom by lia.
    set (fb := freeblock s) in *. set (din := w_din f <| d_addrs ::= <[Z.to_nat fbn := fb]> |>).
    rewrite bind_assoc, bind_next_block, bind_ret by (fold fb; lia). fold fb. rewrite (xint_small fb) by lia. fold din.
    assert (Hl : d_addrs din !! Z.to_nat fbn = Some fb).
    { unfold din. cbn. apply list_lookup_insert_eq. rewrite (wf_len _ _ _ _ Hf). unfold NDIRECT in *. lia. }
    rewrite Hl, bind_deref, xint_small by lia. eexists fb, din, _. split; [reflexivity|].
    destruct (block_direct (view s) f fbn fb (wf_len _ _ _ _ Hf) ltac:(lia)) as [Hi Hblk]. fold din in Hi, Hblk.
    exists (O ++ [(k, Some fbn)]). rewrite Z.max_r by lia. split_and!.
    + eapply blocks_step; [done|apply sectors_freeblock, Hb|done|by eexists|cbn; rewrite length_app, nmeta_eq; simpl; lia|cbn; lia|done|done|].
      rewrite Hnb in *. apply (grow_ok (view s) _ O _ k f din fb); try done.
      * unfold MAXFILE, NDIRECT, NINDIRECT in *. lia.
      * unfold din. cbn. by rewrite length_insert, (wf_len _ _ _ _ Hf).
      * unfold din. cbn. apply Forall_insert; [apply Hf|lia].
      * intros. by apply owns_app.
      * replace fb with (nmeta + Z.of_nat (length O)) by (rewrite nmeta_eq; lia). apply owns_new.
      * apply (bk_zero _ _ _ Hb). fold fb. lia.
      * intros _. transitivity (ind_block (ip_of f)); [exact Hi|]. apply (wf_ind _ _ _ _ Hf). lia.
      * lia.
    + unfold need. rewrite length_app, (proj2 (Z.ltb_ge _ _)), (proj2 (Z.eqb_neq fbn NDIRECT)) by lia. simpl. lia.
    + symmetry. etransitivity; [apply Hblk; unfold MAXFILE, NINDIRECT, NDIRECT in *; lia|]. by rewrite Z.eqb_refl.
    + done.
    + done.
  - rewrite bind_ret, Ha, bind_deref, (addr_small f _ _ _ _ _ Hf Ha). eexists _, _, s. split; [reflexivity|]. apply got_old; [done|done|lia].
Qed.

Lemma entry_ld d j : length d = 512%nat -> 0 <= j < NINDIRECT -> ld 4 (4 * Z.to_nat j) d = Some (ind_entry d j).
Proof. intros Hd Hj. unfold ind_entry. destruct (ld_some 4 (4 * Z.to_nat j) d) as [v ->]; [unfold NINDIRECT in *; lia|done]. Qed.

Lemma entry_old s a fbn :
  sectors s -> 0 <= a < 1000 -> NDIRECT <= fbn < MAXFILE -> 0 < ind_entry (view s a) (fbn - NDIRECT) < 2 ^ 32 ->
  iappend_entry a fbn s = Ret (ind_entry (view s a) (fbn - NDIRECT)) s.
Proof.
  intros Hs Ha Hf He. unfold iappend_entry. rewrite (bind_ret_eq _ _ _ _ _ (rsect_run s a Hs Ha)). cbv zeta.
  rewrite entry_ld by (rewrite ?view_length; unfold MAXFILE, NINDIRECT in *; done || lia).
  rewrite bind_deref, (proj2 (Z.eqb_neq _ 0)), bind_ret by lia. 
  rewrite entry_ld by (rewrite ?view_length; unfold MAXFILE, NINDIRECT in *; done || lia). by rewrite bind_deref, xint_small by lia.
Qed.

Lemma entry_new s a fbn :
  sectors s -> 0 <= a < 1000 -> NDIRECT <= fbn < MAXFILE -> ind_entry (view s a) (fbn - NDIRECT) = 0 -> 0 <= freeblock s < 1000 ->
  exists d, st 4 (4 * Z.to_nat (fbn - NDIRECT)) (freeblock s) (view s a) = Some d /\ length d = 512%nat /\
    iappend_entry a fbn s = Ret (freeblock s) (put a d (s <| freeblock := freeblock s + 1 |>)).
Proof.
  intros Hs Ha Hf He Hfb. pose proof (view_length s a Hs Ha) as Hl.
  destruct (st_some 4 (4 * Z.to_nat (fbn - NDIRECT)) (freeblock s) (view s a)) as [d Hd]; [unfold MAXFILE, NINDIRECT in *; lia|].
  pose proof (st_length _ _ _ _ _ Hd) as Hld. rewrite Hl in Hld. exists d. split_and!; [done|done|].
  unfold iappend_entry. rewrite (bind_ret_eq _ _ _ _ _ (rsect_run s a Hs Ha)). cbv zeta.
  rewrite entry_ld, bind_deref, He by (unfold MAXFILE, NINDIRECT in *; done || lia). cbv iota. change (0 =? 0) with true. cbv iota.
  rewrite bind_assoc, bind_next_block, bind_assoc, xint_small, Hd, bind_deref by lia.
  rewrite bind_assoc. rewrite (bind_ret_eq _ _ _ _ _ (wsect_run (s <| freeblock := freeblock s + 1 |>) a d (sectors_freeblock _ _ Hs) Ha)).
  rewrite bind_ret, (ld_st_same _ _ _ _ _ Hd), bind_deref. unfold ret. f_equal.
  rewrite xint_small; rewrite Z.mod_small; lia.
Qed.

(** A new indirect block is empty. *)
Lemma block_ind V f b :
  length (d_addrs (w_din f)) = 13%nat -> ind_block (ip_of f) = 0 -> V b = zeroes ->
  let ip' := as_inode 0 (w_din f <| d_addrs ::= <[Z.to_nat NDIRECT := b]> |>) in
  ind_block ip' = b /\ forall bm, 0 <= bm < MAXFILE -> block_of V ip' bm = block_of V (ip_of f) bm.
Proof.
  intros Hl Hi Hz ip'. assert (Hi' : ind_block ip' = b) by (unfold ip', ind_block; cbn; apply list_lookup_total_insert_eq; rewrite Hl; unfold NDIRECT; lia).
  split; [done|]. intros bm Hbm. unfold block_of. rewrite Hi', Hi, Hz, ind_entry_zeros, Z.eqb_refl. destruct (Z.ltb_spec bm NDIRECT).
  - unfold ip'. cbn. apply list_lookup_total_insert_ne. unfold NDIRECT in *. lia.
  - by destruct (b =? 0).
Qed.

Lemma got_entry s Fs O k f fbn :
  blocks s Fs O -> Fs !! k = Some f -> NDIRECT < w_blocks f -> fbn = w_blocks f -> fbn < MAXFILE -> freeblock s < 1000 ->
  exists x s', iappend_entry (ind_block (ip_of f)) fbn s = Ret x s' /\ got_block s Fs O k f fbn x (w_din f) s'.
Proof.
  intros Hb Hk Hi -> Hm Hroom. pose proof (bk_files _ _ _ Hb k f Hk) as Hf. destruct (bk_free _ _ _ Hb) as [Hfb _].
  pose proof (bk_sectors _ _ _ Hb) as Hs. pose proof (wf_own_ind _ _ _ _ Hf Hi) as Hoi. pose proof (owns_lt _ _ _ Hoi) as Hai. rewrite nmeta_eq in *.
  set (a := ind_block (ip_of f)) in *.
  assert (He : ind_entry (view s a) (w_blocks f - NDIRECT) = 0).
  { assert (block_of (view s) (ip_of f) (w_blocks f) = 0) as E by (apply (wf_none _ _ _ _ Hf); unfold NDIRECT in *; lia).
    unfold block_of in E. rewrite (proj2 (Z.ltb_ge _ _)), (proj2 (Z.eqb_neq (ind_block _) 0)) in E by (unfold a in Hai; lia). done. }
  destruct (entry_new s a (w_blocks f) Hs ltac:(lia) ltac:(lia) He ltac:(lia)) as (d & Hd & Hld & E). set (fb := freeblock s) in *.
  set (s' := put a d (s <| freeblock := fb + 1 |>)) in *. exists fb, s'. split; [done|].
  assert (HV : forall m, 0 <= m -> view s' m = if m =? a then d else view s m).
  { intros m Hm0. unfold s'. rewrite view_put by (done || lia || by apply sectors_freeblock). done. }
  assert (Hblk : forall bm, 0 <= bm < MAXFILE -> block_of (view s') (ip_of f) bm = if bm =? w_blocks f then fb else block_of (view s) (ip_of f) bm).
  { apply block_entry; fold a; [by apply view_length; [|lia]|lia|lia|lia|]. rewrite HV, Z.eqb_refl by lia. done. }
  exists (O ++ [(k, Some (w_blocks f))]). rewrite Z.max_r by lia. split_and!.
  - eapply blocks_step; [done|by apply sectors_put; [apply sectors_freeblock|]|done|by eexists
      |unfold s'; cbn; rewrite length_app, nmeta_eq; simpl; lia|unfold s'; cbn; lia|..].
    + intros b Hb1. unfold s' in Hb1. cbn in Hb1. rewrite HV by lia. by rewrite (proj2 (Z.eqb_neq b a)) by lia.
    + intros b j o Ho Hj. pose proof (owns_lt _ _ _ Ho) as Hlt. rewrite nmeta_eq in Hlt. rewrite HV by lia.
      destruct (Z.eqb_spec b a) as [->|]; [|done]. pose proof (owns_inj _ _ _ _ Ho Hoi). congruence.
    + apply (grow_ok (view s) _ O _ k f (w_din f) fb); try done.
      * apply Hf.
      * apply Hf.
      * intros. by apply owns_app.
      * replace fb with (nmeta + Z.of_nat (length O)) by (rewrite nmeta_eq; lia). apply owns_new.
      * rewrite HV, (proj2 (Z.eqb_neq fb a)) by lia. apply (bk_zero _ _ _ Hb). fold fb. lia.
      * lia.
      * intros _. by apply owns_app.
      * intros bn Hbn. pose proof (wf_own _ _ _ _ Hf bn Hbn) as Ho. pose proof (owns_lt _ _ _ Ho) as Hlt. rewrite nmeta_eq in Hlt. rewrite HV by lia.
        destruct (Z.eqb_spec (block_of (view s) (ip_of f) bn) a) as [Eb|]; [|done]. rewrite Eb in Ho. pose proof (owns_inj _ _ _ _ Ho Hoi). congruence.
  - unfold need. rewrite length_app, (proj2 (Z.ltb_ge _ _)), (proj2 (Z.eqb_neq _ NDIRECT)) by lia. simpl. lia.
  - symmetry. etransitivity; [apply Hblk; unfold NDIRECT in *; lia|]. by rewrite Z.eqb_refl.
  - split; [done|]. intros b Hb1. rewrite HV by lia. rewrite nmeta_eq in Hb1. by rewrite (proj2 (Z.eqb_neq b a)) by lia.
  - by destruct (w_din f).
Qed.

Lemma got_first s Fs O k f :
  blocks s Fs O -> Fs !! k = Some f -> w_blocks f = NDIRECT -> freeblock s + 2 <= 1000 ->
  let din := w_din f <| d_addrs ::= <[Z.to_nat NDIRECT := freeblock s]> |> in
  exists x s', iappend_entry (freeblock s) NDIRECT (s <| freeblock := freeblock s + 1 |>) = Ret x s' /\ got_block s Fs O k f NDIRECT x din s'.
Proof.
  intros Hb Hk Hnb Hroom din. pose proof (bk_files _ _ _ Hb k f Hk) as Hf. destruct (bk_free _ _ _ Hb) as [Hfb _].
  pose proof (bk_sectors _ _ _ Hb) as Hs. set (a := freeblock s) in *. set (s1 := s <| freeblock := a + 1 |>). rewrite nmeta_eq in Hfb.
  pose proof (sectors_freeblock s (a + 1) Hs) as Hs1. fold s1 in Hs1.
  assert (Hz : forall b, a <= b < 1000 -> view s b = zeroes) by (intros; by apply (bk_zero _ _ _ Hb)).
  assert (Hi0 : ind_block (ip_of f) = 0) by (apply (wf_ind _ _ _ _ Hf); lia).
  destruct (block_ind (view s) f a (wf_len _ _ _ _ Hf) Hi0 (Hz a ltac:(lia))) as [Hi Hsame]. fold din in Hi, Hsame.
  destruct (entry_new s1 a NDIRECT Hs1 ltac:(lia)) as (d & Hd & Hld & E); [unfold MAXFILE, NDIRECT, NINDIRECT; lia| |cbn; lia|].
  { change (view s1) with (view s). rewrite Hz by lia. apply ind_entry_zeros. }
  change (freeblock s1) with (a + 1) in *. set (s' := put a d (s1 <| freeblock := a + 1 + 1 |>)) in *. exists (a + 1), s'. split; [done|].
  assert (HV : forall m, 0 <= m -> view s' m = if m =? a then d else view s m).
  { intros m Hm0. unfold s'. rewrite view_put by (done || lia || by apply sectors_freeblock). done. }
  assert (Hblk : forall bm, 0 <= bm < MAXFILE -> block_of (view s') (as_inode 0 din) bm = if bm =? NDIRECT then a + 1 else block_of (view s) (ip_of f) bm).
  { intros bm Hbm. rewrite <- Hsame by done. change (as_inode 0 din) with (ip_of (f <| w_din := din |>)).
    apply block_entry; try done; change (ip_of (f <| w_din := din |>)) with (as_inode 0 din); rewrite ?Hi; try lia.
    - apply view_length; [done|lia].
    - rewrite HV, Z.eqb_refl by lia. done. }
  assert (Hn1 : owns ((O ++ [(k, None)]) ++ [(k, Some NDIRECT)]) (a + 1) (k, Some NDIRECT)).
  { replace (a + 1) with (nmeta + Z.of_nat (length (O ++ [(k, None : option Z)]))) by (rewrite length_app, nmeta_eq; simpl; lia). apply owns_new. }
  assert (Hn0 : owns ((O ++ [(k, None)]) ++ [(k, Some NDIRECT)]) a (k, None)).
  { apply owns_app. replace a with (nmeta + Z.of_nat (length O)) by (rewrite nmeta_eq; lia). apply owns_new. }
  exists ((O ++ [(k, None)]) ++ [(k, Some NDIRECT)]). rewrite Z.max_r by lia. split_and!.
  - eapply blocks_step; [done|by apply sectors_put; [apply sectors_freeblock|]|done|rewrite <- app_assoc; by eexists
      |unfold s'; cbn; rewrite !length_app, nmeta_eq; simpl; lia|unfold s'; cbn; lia|..].
    + intros b Hb1. unfold s' in Hb1. cbn in Hb1. rewrite HV by lia. by rewrite (proj2 (Z.eqb_neq b a)) by lia.
    + intros b j o Ho Hj. pose proof (owns_lt _ _ _ Ho) as Hlt. rewrite nmeta_eq in Hlt. rewrite HV by lia. by rewrite (proj2 (Z.eqb_neq b a)) by lia.
    + rewrite <- Hnb in *. apply (grow_ok (view s) _ O _ k f din (a + 1)); try done.
      * rewrite Hnb. unfold MAXFILE, NINDIRECT. lia.
      * unfold din. cbn. by rewrite length_insert, (wf_len _ _ _ _ Hf).
      * unfold din. cbn. apply Forall_insert; [apply Hf|lia].
      * intros. by apply owns_app, owns_app.
      * rewrite HV, (proj2 (Z.eqb_neq (a + 1) a)) by lia. apply Hz. lia.
      * lia.
      * intros _. change (owns ((O ++ [(k, None)]) ++ [(k, Some (w_blocks f))]) (ind_block (as_inode 0 din)) (k, None)). by rewrite Hi.
      * intros bn Hbn. pose proof (owns_lt _ _ _ (wf_own _ _ _ _ Hf bn Hbn)) as Hlt. rewrite nmeta_eq in Hlt. rewrite HV by lia.
        by rewrite (proj2 (Z.eqb_neq _ a)) by lia.
  - unfold need. rewrite !length_app, (proj2 (Z.ltb_ge _ _)), Z.eqb_refl by lia. simpl. lia.
  - symmetry. etransitivity; [apply Hblk; unfold MAXFILE, NDIRECT, NINDIRECT in *; lia|]. by rewrite Z.eqb_refl.
  - split; [done|]. intros b Hb1. rewrite HV by lia. rewrite nmeta_eq in Hb1. by rewrite (proj2 (Z.eqb_neq b a)) by lia.
  - done.
Qed.

Lemma block_run s Fs O k f fbn :
  blocks s Fs O -> Fs !! k = Some f -> 0 <= fbn <= w_blocks f -> fbn < MAXFILE -> freeblock s + need (w_blocks f) fbn <= 1000 ->
  exists x din s', iappend_block (w_din f) fbn s = Ret (x, din) s' /\ got_block s Fs O k f fbn x din s'.
Proof.
  intros Hb Hk Hfbn Hm Hroom. destruct (decide (fbn < NDIRECT)) as [Hd|Hd]; [by apply got_direct|].
  pose proof (bk_files _ _ _ Hb k f Hk) as Hf. destruct (bk_free _ _ _ Hb) as [Hfb Hle]. rewrite nmeta_eq in Hfb.
  pose proof (addr_ind _ _ _ _ Hf) as Ha. unfold iappend_block. rewrite (proj2 (Z.ltb_ge fbn NDIRECT)) by lia.
  rewrite Ha, bind_deref, (addr_small f _ _ _ _ _ Hf Ha). destruct (wf_ind _ _ _ _ Hf) as [Hi1 Hi2].
  destruct (Z.eqb_spec (ind_block (ip_of f)) 0) as [E|E].
  - assert (Hnb : fbn = NDIRECT /\ w_blocks f = NDIRECT) by (specialize (Hi1 E); lia). destruct Hnb as [-> Hnb].
    unfold need in Hroom. rewrite (proj2 (Z.ltb_ge _ _)), Z.eqb_refl in Hroom by lia.
    rewrite bind_assoc, bind_next_block, bind_ret by lia. rewrite xint_small by lia.
    destruct (got_first s Fs O k f Hb Hk Hnb Hroom) as (x & s' & Er & Hg).
    set (din := w_din f <| d_addrs ::= <[Z.to_nat NDIRECT := freeblock s]> |>) in *.
    assert (Hl : d_addrs din !! Z.to_nat NDIRECT = Some (freeblock s)).
    { unfold din. cbn. apply list_lookup_insert_eq. rewrite (wf_len _ _ _ _ Hf). unfold NDIRECT. lia. }
    rewrite Hl, bind_deref, xint_small by lia. exists x, din, s'. split; [|done]. by erewrite bind_ret_eq by exact Er.
  - rewrite bind_ret, Ha, bind_deref, (addr_small f _ _ _ _ _ Hf Ha).
    assert (Hnb : NDIRECT < w_blocks f) by (destruct (decide (NDIRECT < w_blocks f)); [done|exfalso; apply E, Hi2; lia]).
    destruct (decide (fbn < w_blocks f)) as [Hlt|Hge].
    + pose proof (owns_lt _ _ _ (wf_own_ind _ _ _ _ Hf Hnb)) as Hai. pose proof (owns_lt _ _ _ (wf_own _ _ _ _ Hf fbn ltac:(lia))) as Hbi. rewrite nmeta_eq in *.
      assert (Hblk : block_of (view s) (ip_of f) fbn = ind_entry (view s (ind_block (ip_of f))) (fbn - NDIRECT)).
      { unfold block_of. by rewrite (proj2 (Z.ltb_ge _ _)), (proj2 (Z.eqb_neq (ind_block _) 0)) by lia. }
      exists (block_of (view s) (ip_of f) fbn), (w_din f), s. split; [|by apply got_old; [..|lia]].
      erewrite bind_ret_eq; [reflexivity|]. rewrite Hblk in *. apply entry_old; [apply Hb|lia|lia|lia].
    + unfold need in Hroom. rewrite (proj2 (Z.ltb_ge _ _)), (proj2 (Z.eqb_neq fbn NDIRECT)) in Hroom by lia.
      destruct (got_entry s Fs O k f fbn Hb Hk Hnb ltac:(lia) Hm ltac:(lia)) as (x & s' & Er & Hg).
      exists x, (w_din f), s'. split; [|done]. by erewrite bind_ret_eq by exact Er.
Qed.

(** ** Bytes are appended to a block *)

Lemma app_default (c p : list Z) (q : nat) :
  default 0 ((c ++ p) !! q) =
  if decide (length c <= q < length c + length p)%nat then default 0 (p !! (q - length c)%nat) else default 0 (c !! q).
Proof.
  case_decide as H.
  - by rewrite lookup_app_r by lia.
  - destruct (decide (q < length c)%nat); [by rewrite lookup_app_l by lia|]. by rewrite !lookup_ge_None_2 by (rewrite ?length_app; lia).
Qed.

Lemma write_data V V' O k f p1 buf :
  wfile_ok V O k f -> let off := Z.of_nat (length (w_data f)) in let fbn := off / BSIZE in
  fbn < w_blocks f -> off mod BSIZE + Z.of_nat (length p1) <= BSIZE ->
  let x := block_of V (ip_of f) fbn in
  length (V x) = 512%nat -> splice (Z.to_nat (off mod BSIZE)) p1 (V x) = Some buf ->
  (forall b, nmeta <= b -> V' b = if b =? x then buf else V b) ->
  wfile_ok V' O k (f <| w_data ::= fun c => c ++ p1 |>).
Proof.
  intros Hf off fbn Hfbn Hp x Hl Hsp HV. pose proof (wf_nb _ _ _ _ Hf) as [Hnb Hle].
  pose proof (Z.div_mod off BSIZE ltac:(done)) as Hdm. pose proof (Z.mod_pos_bound off BSIZE ltac:(done)) as Hmb. fold fbn in Hdm.
  assert (Hfb0 : 0 <= fbn) by (apply Z.div_pos; unfold BSIZE; lia).
  pose proof (wf_own _ _ _ _ Hf fbn ltac:(lia)) as Hox. fold x in Hox. pose proof (owns_lt _ _ _ Hox) as Hx.
  assert (Hb : forall bn, block_of V' (ip_of f) bn = block_of V (ip_of f) bn).
  { intros bn. apply block_of_same. intros Hi. destruct (wf_ind _ _ _ _ Hf) as [_ H2].
    assert (Hnd : NDIRECT < w_blocks f) by (destruct (decide (NDIRECT < w_blocks f)); [done|exfalso; apply Hi, H2; lia]).
    pose proof (wf_own_ind _ _ _ _ Hf Hnd) as Hoi. pose proof (owns_lt _ _ _ Hoi). rewrite HV by lia.
    destruct (Z.eqb_spec (ind_block (ip_of f)) x) as [E|]; [|done]. rewrite E in Hoi. by pose proof (owns_inj _ _ _ _ Hoi Hox). }
  change (ip_of f) with (ip_of (f <| w_data ::= fun c => c ++ p1 |>)) in Hb.
  split; try apply Hf; change (w_blocks (f <| w_data ::= fun c => c ++ p1 |>)) with (w_blocks f);
    change (ip_of (f <| w_data ::= fun c => c ++ p1 |>)) with (ip_of f) in *.
  - split; [done|]. cbn. rewrite length_app. fold off. unfold BSIZE in *. lia.
  - intros bn Hbn. rewrite Hb. by apply (wf_none _ _ _ _ Hf).
  - intros bn Hbn. rewrite Hb. by apply (wf_own _ _ _ _ Hf).
  - intros q Hq. cbn. rewrite app_default. pose proof (wf_data _ _ _ _ Hf q Hq) as Hold. pose proof (block_range q Hq) as Hbn.
    unfold fbyte in *. rewrite Hb. pose proof (Z.div_mod q BSIZE ltac:(done)) as Hqd. pose proof (Z.mod_pos_bound q BSIZE ltac:(done)) as Hqm.
    destruct (decide (q / BSIZE = fbn)) as [E|E].
    + rewrite E in *. fold x in Hold |- *. rewrite nmeta_eq in Hx. rewrite (proj2 (Z.eqb_neq x 0)) in * by lia.
      rewrite HV, Z.eqb_refl by (rewrite nmeta_eq; lia). case_decide as Hin.
      * replace (Z.to_nat (q mod BSIZE)) with (Z.to_nat (off mod BSIZE) + (Z.to_nat q - length (w_data f)))%nat by (unfold off in *; unfold BSIZE in *; lia).
        rewrite list_lookup_total_alt, (splice_lookup_in _ _ _ _ _ Hsp) by lia.
        destruct (lookup_lt_is_Some_2 p1 (Z.to_nat q - length (w_data f))) as [v ->]; [lia|done].
      * rewrite <- Hold, !list_lookup_total_alt. f_equal. apply (splice_lookup_out _ _ _ _ _ Hsp). unfold off in *. unfold BSIZE in *. lia.
    + rewrite decide_False by (unfold off in *; unfold BSIZE in *; lia). rewrite <- Hold.
      destruct (Z.eqb_spec (block_of V (ip_of f) (q / BSIZE)) 0); [done|]. cbv zeta.
      pose proof (wf_none _ _ _ _ Hf _ Hbn). pose proof (wf_own _ _ _ _ Hf (q / BSIZE) ltac:(lia)) as Ho. pose proof (owns_lt _ _ _ Ho).
      rewrite HV by lia. destruct (Z.eqb_spec (block_of V (ip_of f) (q / BSIZE)) x) as [Ex|]; [|done].
      rewrite Ex in Ho. pose proof (owns_inj _ _ _ _ Ho Hox). congruence.
Qed.

Lemma write_run s Fs O k f p1 :
  blocks s Fs O -> Fs !! k = Some f -> let off := Z.of_nat (length (w_data f)) in let fbn := off / BSIZE in
  fbn < w_blocks f -> off mod BSIZE + Z.of_nat (length p1) <= BSIZE ->
  let x := block_of (view s) (ip_of f) fbn in
  exists buf, splice (Z.to_nat (off mod BSIZE)) p1 (view s x) = Some buf /\ 0 <= x < 1000 /\
    blocks (put x buf s) (<[k := f <| w_data ::= fun c => c ++ p1 |>]> Fs) O /\ same_meta s (put x buf s).
Proof.
  intros Hb Hk off fbn Hfbn Hp x. pose proof (bk_files _ _ _ Hb k f Hk) as Hf. pose proof (bk_sectors _ _ _ Hb) as Hs. destruct (bk_free _ _ _ Hb) as [Hfb Hle].
  assert (Hfb0 : 0 <= fbn) by (apply Z.div_pos; unfold BSIZE; lia).
  pose proof (wf_own _ _ _ _ Hf fbn ltac:(lia)) as Hox. fold x in Hox. pose proof (owns_lt _ _ _ Hox) as Hx. rewrite nmeta_eq in *.
  pose proof (view_length s x Hs ltac:(lia)) as Hl. pose proof (Z.mod_pos_bound off BSIZE ltac:(done)) as Hmb.
  destruct (splice_some (Z.to_nat (off mod BSIZE)) p1 (view s x)) as [buf Hsp]; [unfold BSIZE in *; lia|].
  pose proof (splice_length _ _ _ _ Hsp) as Hlb. exists buf. split_and!; [done|lia|lia|..].
  - eapply blocks_step; [done|apply sectors_put; [done|lia]|done|done|cbn; rewrite nmeta_eq; lia|done|..].
    + intros b Hb1. cbn in Hb1. rewrite view_put by (done || lia). by rewrite (proj2 (Z.eqb_neq b x)) by lia.
    + intros b j o Ho Hj. pose proof (owns_lt _ _ _ Ho) as Hlt. rewrite nmeta_eq in Hlt. rewrite view_put by (done || lia).
      destruct (Z.eqb_spec b x) as [->|]; [|done]. pose proof (owns_inj _ _ _ _ Ho Hox). congruence.
    + refine (write_data (view s) _ O k f p1 buf Hf Hfbn Hp Hl Hsp _). intros b Hb1. rewrite nmeta_eq in Hb1. fold off fbn x. apply view_put; [done|lia|lia].
  - split; [done|]. intros b Hb1. rewrite nmeta_eq in Hb1. rewrite view_put by (done || lia). by rewrite (proj2 (Z.eqb_neq b x)) by lia.
Qed.

(** ** Bytes are appended to a file *)

(** The blocks of a file of [n] bytes, without and with its indirect block. *)
Definition nb (n : Z) : Z := (n + 511) / 512.
Definition cost (n : Z) : Z := nb n + (if NDIRECT <? nb n then 1 else 0).

Definition tight (f : wfile) : Prop := w_blocks f = nb (Z.of_nat (length (w_data f))).

Lemma need_cost off n :
  0 <= off -> 0 < n <= BSIZE - off mod BSIZE ->
  off / BSIZE <= nb off /\ Z.max (nb off) (off / BSIZE + 1) = nb (off + n) /\ cost off + need (nb off) (off / BSIZE) = cost (off + n).
Proof.
  intros Ho Hn. unfold cost, need, nb, BSIZE, NDIRECT in *.
  pose proof (Z.div_mod off 512 ltac:(done)) as Hdm. pose proof (Z.mod_pos_bound off 512 ltac:(done)) as Hmb.
  assert (H1 : off / 512 <= (off + 511) / 512 <= off / 512 + 1 /\ (off + n + 511) / 512 = off / 512 + 1).
  { split; [split; [apply Z.div_le_lower_bound; lia|apply Z.lt_succ_r, Z.div_lt_upper_bound; lia]|].
    symmetry. apply (Z.div_unique _ _ _ (off mod 512 + n - 1)); lia. }
  destruct H1 as [H1 ->]. destruct (Z.ltb_spec 12 ((off + 511) / 512)), (Z.ltb_spec 12 (off / 512 + 1)),
    (Z.ltb_spec (off / 512) ((off + 511) / 512)), (Z.eqb_spec (off / 512) 12); lia.
Qed.

Lemma nb_mono a b : a <= b -> nb a <= nb b.
Proof. intros. unfold nb. by apply Z.div_le_mono; [|lia]. Qed.
Lemma cost_mono a b : a <= b -> cost a <= cost b.
Proof. intros H%nb_mono. unfold cost. destruct (Z.ltb_spec NDIRECT (nb a)), (Z.ltb_spec NDIRECT (nb b)); lia. Qed.

(** [f] with [p] appended and the inode [din]. *)
Definition appended (f : wfile) (p : list Z) (din : dinode) : wfile :=
  Wfile din (w_data f ++ p) (nb (Z.of_nat (length (w_data f ++ p)))).

Definition append_post s Fs (O : list owner) k f p din s' : Prop :=
  exists O', blocks s' (<[k := appended f p din]> Fs) O' /\
    Z.of_nat (length O') = Z.of_nat (length O) + cost (Z.of_nat (length (w_data f ++ p))) - cost (Z.of_nat (length (w_data f))) /\
    same_meta s s' /\ din = w_din f <| d_addrs := d_addrs din |>.

(** A turn of the loop. *)
Definition iappend_turn (din : dinode) (off : Z) (p1 : list Z) : MK dinode :=
  let fbn := off / BSIZE in
  assert (fbn <? MAXFILE) "fbn < MAXFILE";;
  do '(x, din) <- iappend_block din fbn;
  do buf <- rsect x;
  do buf <- derefM "bcopy" (splice (Z.to_nat (off - fbn * BSIZE)) p1 buf);
  wsect x buf;;
  ret din.

Lemma turn_bind {A} din off p1 (c : dinode -> MK A) s :
  bind (iappend_turn din off p1) c s =
  (let fbn := off / BSIZE in
   assert (fbn <? MAXFILE) "fbn < MAXFILE";;
   do '(x, din) <- iappend_block din fbn;
   do buf <- rsect x;
   do buf <- derefM "bcopy" (splice (Z.to_nat (off - fbn * BSIZE)) p1 buf);
   wsect x buf;;
   c din) s.
Proof.
  unfold iappend_turn, bind. destruct (assert _ _ s); [|done..]. destruct (iappend_block _ _ _) as [[x d]|? ?|? ?|? ?]; [|done..].
  destruct (rsect _ _); [|done..]. destruct (derefM _ _ _); [|done..]. by destruct (wsect _ _ _).
Qed.

Lemma turn_run s Fs O k f p1 :
  blocks s Fs O -> Fs !! k = Some f -> tight f -> let off := Z.of_nat (length (w_data f)) in
  0 < Z.of_nat (length p1) <= BSIZE - off mod BSIZE -> off + Z.of_nat (length p1) <= MAXFILE * BSIZE ->
  freeblock s + cost (off + Z.of_nat (length p1)) - cost off <= 1000 ->
  exists din s', iappend_turn (w_din f) off p1 s = Ret din s' /\ append_post s Fs O k f p1 din s'.
Proof.
  intros Hb Hk Ht off Hp Hmax Hroom. destruct (need_cost off (Z.of_nat (length p1)) ltac:(lia) Hp) as (Hle & Hnb & Hneed).
  assert (Hfbn : 0 <= off / BSIZE < MAXFILE) by (apply block_range; lia). unfold tight in Ht. fold off in Ht.
  destruct (block_run s Fs O k f (off / BSIZE) Hb Hk ltac:(rewrite Ht; lia) ltac:(lia) ltac:(rewrite Ht; lia)) as (x & din & s1 & E & O' & Hb1 & HO & Hx & Hm & Hdin).
  rewrite Ht, Hnb in *. set (f1 := f <| w_din := din |> <| w_blocks := nb (off + Z.of_nat (length p1)) |>) in *.
  assert (Hk1 : <[k := f1]> Fs !! k = Some f1) by (apply list_lookup_insert_eq; by eapply lookup_lt_Some).
  destruct (write_run s1 _ O' k f1 p1 Hb1 Hk1) as (buf & Hsp & Hxr & Hb2 & Hm2).
  { change (w_data f1) with (w_data f). fold off. unfold f1. cbn. lia. }
  { change (w_data f1) with (w_data f). fold off. lia. }
  change (w_data f1) with (w_data f) in *. fold off in Hsp, Hxr, Hb2, Hm2. rewrite <- Hx in *. pose proof (bk_sectors _ _ _ Hb1) as Hs1.
  exists din, (put x buf s1). split.
  - unfold iappend_turn, assert. rewrite (proj2 (Z.ltb_lt _ _)) by lia. rewrite bind_ret, (bind_ret_eq _ _ _ _ _ E), (bind_ret_eq _ _ _ _ _ (rsect_run s1 x Hs1 Hxr)).
    replace (off - off / BSIZE * BSIZE) with (off mod BSIZE) by (pose proof (Z.div_mod off BSIZE ltac:(done)); lia).
    rewrite Hsp, bind_deref. by rewrite (bind_ret_eq _ _ _ _ _ (wsect_run s1 x buf Hs1 Hxr)).
  - exists O'. rewrite list_insert_insert_eq in Hb2. unfold appended. rewrite !length_app, !Nat2Z.inj_add. fold off. split_and!; [done|lia|by eapply same_meta_trans|done].
Qed.

Lemma append_trans s1 s2 s3 Fs O k f p1 p2 din1 din2 :
  append_post s1 Fs O k f p1 din1 s2 ->
  (forall O', blocks s2 (<[k := appended f p1 din1]> Fs) O' -> Z.of_nat (length O') = Z.of_nat (length O) + cost (Z.of_nat (length (w_data f ++ p1))) - cost (Z.of_nat (length (w_data f))) ->
    append_post s2 (<[k := appended f p1 din1]> Fs) O' k (appended f p1 din1) p2 din2 s3) ->
  append_post s1 Fs O k f (p1 ++ p2) din2 s3.
Proof.
  intros (O1 & Hb1 & HO1 & Hm1 & Hd1) H2. destruct (H2 O1 Hb1 HO1) as (O2 & Hb2 & HO2 & Hm2 & Hd2). cbn in HO2, Hd2. rewrite list_insert_insert_eq in Hb2.
  exists O2. unfold appended in *. cbn in *. rewrite <- app_assoc in *. split_and!; [done|lia|by eapply same_meta_trans|]. rewrite Hd2, Hd1. done.
Qed.

Lemma append_loop_run k : forall fuel p s Fs O f,
  blocks s Fs O -> Fs !! k = Some f -> tight f -> (length p < fuel)%nat -> let off := Z.of_nat (length (w_data f)) in
  off + Z.of_nat (length p) <= MAXFILE * BSIZE -> freeblock s + cost (off + Z.of_nat (length p)) - cost off <= 1000 ->
  exists din s', iappend_loop fuel p off (w_din f) s = Ret (off + Z.of_nat (length p), din) s' /\ append_post s Fs O k f p din s'.
Proof.
  induction fuel as [|fuel IH]; intros p s Fs O f Hb Hk Ht Hf off Hmax Hroom; [lia|]. cbn [iappend_loop].
  destruct (decide (p = [])) as [->|Hp].
  { exists (w_din f), s. split; [cbn; by rewrite Z.add_0_r|]. exists O. unfold appended. rewrite app_nil_r. unfold tight in Ht. rewrite <- Ht.
    replace (Wfile (w_din f) (w_data f) (w_blocks f)) with f by (by destruct f). rewrite list_insert_id by done. split_and!; [done|lia|done|by destruct (w_din f)]. }
  assert (Hlp : 0 < Z.of_nat (length p)) by (destruct p; [done|simpl; lia]). rewrite (proj2 (Z.leb_gt _ _)) by lia. cbv zeta.
  pose proof (Z.mod_pos_bound off BSIZE ltac:(done)) as Hmb. pose proof (Z.div_mod off BSIZE ltac:(done)) as Hdm.
  set (n1 := Z.min (Z.of_nat (length p)) ((off / BSIZE + 1) * BSIZE - off)). assert (Hn1 : 0 < n1 <= BSIZE - off mod BSIZE /\ n1 <= Z.of_nat (length p)) by lia.
  set (p1 := take (Z.to_nat n1) p). set (p2 := drop (Z.to_nat n1) p). assert (Hp12 : p = p1 ++ p2) by (symmetry; apply take_drop).
  assert (Hl1 : Z.of_nat (length p1) = n1) by (unfold p1; rewrite length_take; lia). assert (Hl2 : Z.of_nat (length p2) = Z.of_nat (length p) - n1) by (unfold p2; rewrite length_drop; lia).
  destruct (turn_run s Fs O k f p1 Hb Hk Ht) as (din & s1 & E & Hpost); rewrite ?Hl1; fold off; [lia|lia|pose proof (cost_mono (off + n1) (off + Z.of_nat (length p)) ltac:(lia)); lia|].
  pose proof Hpost as (O1 & Hb1 & HO1 & _ & _). destruct (bk_free _ _ _ Hb) as [Hfb _]. destruct (bk_free _ _ _ Hb1) as [Hfb1 _].
  assert (Hla : Z.of_nat (length (w_data f ++ p1)) = off + n1) by (rewrite length_app; lia). rewrite Hla in HO1. fold off in HO1.
  assert (HIH : forall O', blocks s1 (<[k := appended f p1 din]> Fs) O' -> exists din2 s2, iappend_loop fuel p2 (off + n1) din s1 = Ret (off + Z.of_nat (length p), din2) s2 /\
    append_post s1 (<[k := appended f p1 din]> Fs) O' k (appended f p1 din) p2 din2 s2).
  { intros O' Hb'. pose proof (IH p2 s1 _ O' (appended f p1 din) Hb') as H. cbn [appended w_data w_din] in H. rewrite Hla in H.
    replace (off + Z.of_nat (length p)) with (off + n1 + Z.of_nat (length p2)) by lia. apply H; [|done|lia|lia|].
    - apply list_lookup_insert_eq. by eapply lookup_lt_Some.
    - replace (off + n1 + Z.of_nat (length p2)) with (off + Z.of_nat (length p)) by lia. lia. }
  destruct (HIH O1 Hb1) as (din2 & s2 & E2 & _). exists din2, s2. split.
  - etransitivity; [symmetry; exact (turn_bind (w_din f) off p1 (iappend_loop fuel p2 (u32 (off + n1))) s)|].
    rewrite (bind_ret_eq _ _ _ _ _ E), u32_small; [done|]. unfold MAXFILE, NDIRECT, NINDIRECT, BSIZE in *. lia.
  - rewrite Hp12. eapply append_trans; [done|]. intros O' Hb' HO'. destruct (HIH O' Hb') as (din3 & s3 & E3 & H3). rewrite E3 in E2. by injection E2 as <- <-.
Qed.

(** ** The image as a list of files *)

(** ** Inodes on disk *)

Definition dinode_at (s : mkst) (i : Z) (din : dinode) : Prop :=
  get_dinode (dip_off i) (view s (IBLOCK i the_sb)) (as_inode i no_dinode) = Some (as_inode i din).

Lemma iblock_range i : 0 <= i < 200 -> 32 <= IBLOCK i the_sb < 58.
Proof.
  intros Hi. rewrite the_sb_eq. unfold IBLOCK, IPB. cbn [sb_inodestart].
  assert (0 <= i / 8 < 25) by (split; [apply Z.div_pos; lia|apply Z.div_lt_upper_bound; lia]). rewrite u32_small by lia. lia.
Qed.

Lemma iblock_slot i j : 0 <= i < 200 -> 0 <= j < 200 -> i <> j -> IBLOCK i the_sb = IBLOCK j the_sb -> i mod IPB <> j mod IPB.
Proof.
  intros Hi Hj Hne. rewrite the_sb_eq. unfold IBLOCK, IPB. cbn [sb_inodestart].
  assert (0 <= i / 8 < 25) by (split; [apply Z.div_pos; lia|apply Z.div_lt_upper_bound; lia]).
  assert (0 <= j / 8 < 25) by (split; [apply Z.div_pos; lia|apply Z.div_lt_upper_bound; lia]).
  rewrite !u32_small by lia. pose proof (Z.div_mod i 8 ltac:(done)). pose proof (Z.div_mod j 8 ltac:(done)). lia.
Qed.

Lemma rinode_run s i din : sectors s -> msb s = the_sb -> 0 <= i < 200 -> dinode_at s i din -> rinode i s = Ret din s.
Proof.
  intros Hs Hm Hi Hd. unfold rinode. rewrite bind_gets, Hm. cbv zeta. pose proof (iblock_range i Hi).
  rewrite (bind_ret_eq _ _ _ _ _ (rsect_run s (IBLOCK i the_sb) Hs ltac:(lia))), Hd, bind_deref. by destruct din.
Qed.

Lemma dinode_at_view s s' i din : view s' (IBLOCK i the_sb) = view s (IBLOCK i the_sb) -> dinode_at s i din -> dinode_at s' i din.
Proof. unfold dinode_at. by intros ->. Qed.

(** What [winode] does. *)
Record wrote (s : mkst) (i : Z) (din : dinode) (s' : mkst) : Prop := {
  wr_sectors : sectors s';
  wr_at : dinode_at s' i din;
  wr_other : forall j d, 0 <= j < 200 -> j <> i -> dinode_at s j d -> dinode_at s' j d;
  wr_view : forall b, 0 <= b -> ~ 32 <= b < 58 -> view s' b = view s b;
  wr_rest : s' = s <| img := img s' |>
}.

Lemma winode_run s i din :
  sectors s -> msb s = the_sb -> 0 <= i < 200 -> inode_wf (as_inode i din) ->
  exists s', winode i din s = Ret tt s' /\ wrote s i din s'.
Proof.
  intros Hs Hm Hi Hwf. pose proof (iblock_range i Hi) as Hbn. set (bn := IBLOCK i the_sb) in *.
  pose proof (view_length s bn Hs ltac:(lia)) as Hl. pose proof (dip_off_range i ltac:(lia)) as Ho.
  destruct (put_dinode_some (as_inode i din) (dip_off i) (view s bn)) as [d Hd]; [apply Hwf|lia|].
  pose proof (put_dinode_length _ _ _ _ Hd) as Hld.
  assert (HV : forall m, 0 <= m -> view (put bn d s) m = if m =? bn then d else view s m) by (intros; apply view_put; [done|lia|done]).
  exists (put bn d s). split.
  { unfold winode. rewrite bind_gets, Hm. cbv zeta. fold bn.
    rewrite (bind_ret_eq _ _ _ _ _ (rsect_run s bn Hs ltac:(lia))), Hd, bind_deref. apply wsect_run; [done|lia]. }
  split.
  - apply sectors_put; [done|congruence].
  - unfold dinode_at. fold bn. rewrite HV, Z.eqb_refl by lia. rewrite (get_put_dinode _ _ _ _ _ Hwf Hd). done.
  - intros j dj Hj Hne Hat. unfold dinode_at in *. pose proof (iblock_range j Hj). rewrite HV by lia.
    destruct (Z.eqb_spec (IBLOCK j the_sb) bn) as [E|]; [|done]. rewrite E in Hat. rewrite <- Hat. apply get_dinode_ext. intros n p H1 H2.
    eapply put_dinode_other; [done|apply Hwf|]. pose proof (iblock_slot j i Hj Hi Hne E) as Hslot. revert H1 H2 Hslot. unfold dip_off, sizeof_dinode, IPB.
    pose proof (Z.mod_pos_bound i 8). pose proof (Z.mod_pos_bound j 8). lia.
  - intros b Hb Hn. rewrite HV, (proj2 (Z.eqb_neq b bn)) by lia. done.
  - done.
Qed.

(** ** The image *)

Lemma wfile_din V O k f d : wfile_ok V O k f -> d_addrs d = d_addrs (w_din f) -> wfile_ok V O k (f <| w_din := d |>).
Proof.
  intros Hf E. set (f' := f <| w_din := d |>).
  assert (Hi : ind_block (ip_of f') = ind_block (ip_of f)) by (unfold ind_block, ip_of; cbn; by rewrite E).
  assert (Hb : forall bn, block_of V (ip_of f') bn = block_of V (ip_of f) bn).
  { intros bn. unfold block_of. rewrite Hi. unfold ip_of. cbn. by rewrite E. }
  split; change (w_blocks f') with (w_blocks f); change (w_data f') with (w_data f); change (w_din f') with d; rewrite ?E, ?Hi; try apply Hf.
  - intros bn. rewrite Hb. apply Hf.
  - intros bn. rewrite Hb. apply Hf.
  - intros q. unfold fbyte. rewrite Hb. apply Hf.
Qed.

Record file_at (f : wfile) : Prop := {
  fa_tight : tight f;
  fa_size : d_size (w_din f) = Z.of_nat (length (w_data f));
  fa_wf : inode_wf (ip_of f)
}.

Record image (s : mkst) (Fs : list wfile) (O : list owner) : Prop := {
  im_blocks : blocks s Fs O;
  im_files : forall k f, Fs !! k = Some f -> file_at f /\ dinode_at s (Z.of_nat k + 1) (w_din f);
  im_free : freeinode s = Z.of_nat (length Fs) + 1 /\ freeinode s <= 200;
  im_empty : forall i, freeinode s <= i < 200 -> dinode_at s i no_dinode
}.

(** The blocks in front of the inodes, and the bitmap block, did not change. *)
Definition front (s s' : mkst) : Prop := forall b, 0 <= b < nmeta -> ~ 32 <= b < 58 -> view s' b = view s b.
Lemma front_trans s1 s2 s3 : front s1 s2 -> front s2 s3 -> front s1 s3.
Proof. intros H1 H2 b Hb Hn. by rewrite H2, H1. Qed.

Lemma blocks_same s s' Fs O :
  blocks s Fs O -> sectors s' -> msb s' = msb s -> freeblock s' = freeblock s ->
  (forall b, nmeta <= b -> view s' b = view s b) -> blocks s' Fs O.
Proof.
  intros [Hs Hm Hf Hz Hk] Hs' Em Ef HV. split; rewrite ?Em, ?Ef; try done.
  - intros b Hb. rewrite HV by lia. by apply Hz.
  - intros k f Hkf. eapply wfile_ext; [by apply Hk|done|]. intros b o Ho. apply HV. apply (owns_lt _ _ _ Ho).
Qed.

Lemma blocks_din s Fs O k f d :
  blocks s Fs O -> Fs !! k = Some f -> d_addrs d = d_addrs (w_din f) -> blocks s (<[k := f <| w_din := d |>]> Fs) O.
Proof.
  intros Hb Hk E. eapply blocks_step; [done|apply Hb|done|done|apply (bk_free _ _ _ Hb)|apply (bk_free _ _ _ Hb)|done|done|].
  apply wfile_din; [|done]. by apply (bk_files _ _ _ Hb).
Qed.

(** ** ialloc *)

Definition new_dinode (type : Z) : dinode := Dinode type 0 0 1 0 (replicate 13 0).

Lemma new_file_ok V O k type : wfile_ok V O k (Wfile (new_dinode type) [] 0).
Proof.
  assert (Hi : ind_block (ip_of (Wfile (new_dinode type) [] 0)) = 0) by reflexivity.
  assert (Hb : forall bn, 0 <= bn -> block_of V (ip_of (Wfile (new_dinode type) [] 0)) bn = 0).
  { intros bn Hbn. unfold block_of. rewrite Hi, Z.eqb_refl. destruct (Z.ltb_spec bn NDIRECT); [|done].
    change (replicate 13 0 !!! Z.to_nat bn = 0). rewrite lookup_total_replicate_2; [done|]. unfold NDIRECT in *. lia. }
  split; cbn [w_blocks w_data]; try done.
  - apply Forall_replicate. lia.
  - intros bn Hbn. rewrite Hb by lia. split; [lia|done].
  - intros bn Hbn. lia.
  - intros q Hq. unfold fbyte. rewrite Hb by (apply Z.div_pos; unfold BSIZE; lia). by rewrite lookup_nil.
Qed.

Lemma new_dinode_wf type : type = T_DIR \/ type = T_FILE -> inode_wf (as_inode 0 (new_dinode type)).
Proof. intros Ht. split; try done; try (destruct Ht as [->| ->]; done). apply Forall_replicate. lia. Qed.

Lemma inode_wf_ino i j d : inode_wf (as_inode i d) -> inode_wf (as_inode j d).
Proof. by intros []. Qed.

Lemma blocks_add s Fs O type : blocks s Fs O -> blocks s (Fs ++ [Wfile (new_dinode type) [] 0]) O.
Proof.
  intros [Hs Hm Hf Hz Hk]. split; try done. intros k f [Hkf|[_ Hkf]]%lookup_app_Some; [by apply Hk|].
  apply list_lookup_singleton_Some in Hkf as [_ <-]. apply new_file_ok.
Qed.

Lemma ialloc_run s Fs O type :
  image s Fs O -> (length Fs < 199)%nat -> type = T_DIR \/ type = T_FILE ->
  exists s', ialloc type s = Ret (Z.of_nat (length Fs) + 1) s' /\ image s' (Fs ++ [Wfile (new_dinode type) [] 0]) O /\ front s s' /\ freeblock s' = freeblock s.
Proof.
  intros Him Hn Ht. destruct (im_free _ _ _ Him) as [Hfi _]. pose proof (im_blocks _ _ _ Him) as Hb. set (i := Z.of_nat (length Fs) + 1) in *.
  set (s1 := s <| freeinode ::= fun n => u32 (n + 1) |>).
  destruct (winode_run s1 i (new_dinode type)) as (s' & E & [Hs' Hat Hoth HV Hrest]); [by destruct Hb as [[] _ _ _ _]|apply Hb|lia|by apply (inode_wf_ino 0), new_dinode_wf|].
  exists s'. change (view s1) with (view s) in *.
  assert (Ef : freeinode s' = i + 1 /\ freeblock s' = freeblock s /\ msb s' = msb s).
  { rewrite Hrest. cbn. rewrite Hfi, u32_small by lia. done. }
  destruct Ef as (Efi & Efb & Em). split_and!; [|split| |done].
  - unfold ialloc. rewrite bind_gets, bind_modify. fold s1. rewrite Hfi.
    replace (no_dinode <| d_type := _ |> <| d_nlink := _ |> <| d_size := _ |>) with (new_dinode type) by (destruct Ht as [->| ->]; reflexivity).
    by rewrite (bind_ret_eq _ _ _ _ _ E).
  - apply blocks_add. eapply blocks_same; [done|done|done|done|]. intros b Hbm. rewrite nmeta_eq in Hbm. apply HV; lia.
  - intros k f [Hk|[Hge Hk]]%lookup_app_Some.
    + destruct (im_files _ _ _ Him k f Hk) as [Hfa Hfd]. split; [done|]. apply lookup_lt_Some in Hk. apply Hoth; [lia|lia|done].
    + apply list_lookup_singleton_Some in Hk as [Hk0 <-]. split; [|by replace (Z.of_nat k + 1) with i by lia].
      split; [done|done|]. by apply new_dinode_wf.
  - rewrite length_app, Efi. simpl. lia.
  - intros j Hj. rewrite Efi in Hj. apply Hoth; [lia|lia|]. apply (im_empty _ _ _ Him). lia.
  - intros b Hbm Hnb. apply HV; [lia|done].
Qed.

(** ** iappend *)

Lemma appended_wf f p din V O k :
  file_at f -> din = w_din f <| d_addrs := d_addrs din |> -> wfile_ok V O k (appended f p din) ->
  let n := Z.of_nat (length (w_data f)) + Z.of_nat (length p) in n <= MAXFILE * BSIZE ->
  file_at (appended f p (din <| d_size := n |>)).
Proof.
  intros [Ht Hsz Hwf] Hdin Hok n Hn. split; [done|cbn; rewrite length_app; lia|]. split; cbn.
  1-4: rewrite Hdin; apply Hwf.
  - unfold MAXFILE, NINDIRECT, NDIRECT, BSIZE in *. lia.
  - apply (wf_len _ _ _ _ Hok).
  - apply (wf_addrs _ _ _ _ Hok).
Qed.

Lemma iappend_run s Fs O k f p :
  image s Fs O -> Fs !! k = Some f -> let n := Z.of_nat (length (w_data f)) in let n' := n + Z.of_nat (length p) in
  n' <= MAXFILE * BSIZE -> freeblock s + cost n' - cost n <= 1000 ->
  exists s' O' addrs, iappend (Z.of_nat k + 1) p s = Ret tt s' /\
    image s' (<[k := appended f p (w_din f <| d_addrs := addrs |> <| d_size := n' |>)]> Fs) O' /\ front s s' /\
    freeblock s' = freeblock s + cost n' - cost n.
Proof.
  intros Him Hk n n' Hmax Hroom. pose proof (im_blocks _ _ _ Him) as Hb. destruct (im_free _ _ _ Him) as [Hfi Hfi2].
  destruct (im_files _ _ _ Him k f Hk) as [Hfa Hat]. pose proof (lookup_lt_Some _ _ _ Hk) as Hlt. set (i := Z.of_nat k + 1) in *.
  destruct (append_loop_run k (S (length p)) p s Fs O f Hb Hk (fa_tight _ Hfa) ltac:(lia) Hmax Hroom) as (din & s1 & E & O' & Hb1 & HO & [Efi HVm] & Hdin).
  rewrite length_app, Nat2Z.inj_add in HO. fold n n' in HO, E. pose proof (bk_sectors _ _ _ Hb1) as Hs1. pose proof (bk_sb _ _ _ Hb1) as Hm1.
  assert (Hk1 : <[k := appended f p din]> Fs !! k = Some (appended f p din)) by by apply list_lookup_insert_eq.
  pose proof (appended_wf f p din _ _ _ Hfa Hdin (bk_files _ _ _ Hb1 _ _ Hk1) Hmax) as Hfa'. fold n n' in Hfa'.
  destruct (winode_run s1 i (din <| d_size := n' |>) Hs1 Hm1 ltac:(lia)) as (s' & E' & [Hs' Hat' Hoth HV Hrest]); [eapply inode_wf_ino, (fa_wf _ Hfa')|].
  assert (Ef : freeinode s' = freeinode s1 /\ freeblock s' = freeblock s1 /\ msb s' = msb s1) by by rewrite Hrest. destruct Ef as (Ef1 & Ef2 & Ef3).
  exists s', O', (d_addrs din). rewrite <- Hdin.
  assert (Hnr : xint n' = n') by (apply xint_small; unfold MAXFILE, NINDIRECT, NDIRECT, BSIZE in *; lia).
  assert (Hin : forall j d, 0 <= j < 200 -> dinode_at s j d -> dinode_at s1 j d).
  { intros j d Hj. apply dinode_at_view, HVm. rewrite nmeta_eq. pose proof (iblock_range j Hj). lia. }
  split_and!; [|split|..].
  - unfold iappend. rewrite (bind_ret_eq _ _ _ _ _ (rinode_run s i _ (bk_sectors _ _ _ Hb) (bk_sb _ _ _ Hb) ltac:(lia) Hat)). cbv zeta.
    rewrite (fa_size _ Hfa), xint_small by (unfold MAXFILE, NINDIRECT, NDIRECT, BSIZE in *; lia).
    rewrite (bind_ret_eq _ _ _ _ _ E), Hnr. exact E'.
  - pose proof (blocks_din s1 _ O' k _ (din <| d_size := n' |>) Hb1 Hk1 eq_refl) as Hb2. rewrite list_insert_insert_eq in Hb2.
    eapply blocks_same; [exact Hb2|done|done|done|]. intros b Hbm. rewrite nmeta_eq in Hbm. apply HV; lia.
  - intros j g [(<- & <- & _)|[Hne Hj]]%list_lookup_insert_Some; [done|]. destruct (im_files _ _ _ Him j g Hj) as [Hg Hgat]. split; [done|].
    apply lookup_lt_Some in Hj. apply Hoth, Hin; [lia..|done].
  - rewrite length_insert, Ef1, Efi. done.
  - intros j Hj. rewrite Ef1, Efi in Hj. apply Hoth, Hin; [lia..|]. by apply (im_empty _ _ _ Him).
  - intros b Hbm Hnb. rewrite HV by (done || lia). by apply HVm.
  - rewrite Ef2. destruct (bk_free _ _ _ Hb) as [-> _]. destruct (bk_free _ _ _ Hb1) as [-> _]. lia.
Qed.

(** ** The files of an image *)

(** A file: its type and its bytes. *)
Definition plainfile : Type := Z * list Z.
Definition size_of (x : plainfile) : Z := Z.of_nat (length x.2).
Definition total (fs : list plainfile) : Z := foldr (fun x n => cost (size_of x) + n) 0 fs.

Definition is_file (f : wfile) (x : plainfile) : Prop :=
  w_data f = x.2 /\ w_din f = Dinode x.1 0 0 1 (size_of x) (d_addrs (w_din f)).

(** The image of [s] holds the files [fs], and what was in front of the inodes of [s0]. *)
Definition holds (s0 s : mkst) (fs : list plainfile) : Prop :=
  exists Fs O, image s Fs O /\ Forall2 is_file Fs fs /\ front s0 s /\ freeblock s = nmeta + total fs.

Lemma total_app a b : total (a ++ b) = total a + total b.
Proof. unfold total. induction a as [|x a IH]; simpl; [done|]. rewrite IH. lia. Qed.
Lemma total_cons x a : total (x :: a) = cost (size_of x) + total a.
Proof. done. Qed.
Lemma total_insert fs k x y : fs !! k = Some x -> total (<[k := y]> fs) = total fs + cost (size_of y) - cost (size_of x).
Proof.
  intros Hk. rewrite insert_take_drop by (by eapply lookup_lt_Some). 
  transitivity (total (take k fs ++ x :: drop (S k) fs) + cost (size_of y) - cost (size_of x)); [|by rewrite take_drop_middle].
  rewrite !total_app, !total_cons. lia.
Qed.

Lemma ialloc_holds s0 s fs type :
  holds s0 s fs -> (length fs < 199)%nat -> type = T_DIR \/ type = T_FILE ->
  exists s', ialloc type s = Ret (Z.of_nat (length fs) + 1) s' /\ holds s0 s' (fs ++ [(type, [])]).
Proof.
  intros (Fs & O & Him & Hall & Hfr & Hfb) Hn Ht. pose proof (Forall2_length _ _ _ Hall) as Hl. rewrite <- Hl in Hn.
  destruct (ialloc_run s Fs O type Him Hn Ht) as (s' & E & Him' & Hfr' & Hfb'). rewrite Hl in E. exists s'. split; [done|].
  exists (Fs ++ [Wfile (new_dinode type) [] 0]), O. split_and!; [done| |by eapply front_trans|].
  - apply Forall2_app; [done|]. by repeat constructor.
  - rewrite total_app, Hfb', Hfb. change (total [(type, [])]) with 0. lia.
Qed.

Lemma iappend_holds s0 s fs k type c p :
  holds s0 s fs -> fs !! k = Some (type, c) -> Z.of_nat (length (c ++ p)) <= MAXFILE * BSIZE -> total (<[k := (type, c ++ p)]> fs) <= nblocks ->
  exists s', iappend (Z.of_nat k + 1) p s = Ret tt s' /\ holds s0 s' (<[k := (type, c ++ p)]> fs).
Proof.
  intros (Fs & O & Him & Hall & Hfr & Hfb) Hk Hmax Htot. destruct (Forall2_lookup_r _ _ _ _ _ Hall Hk) as (f & HFk & Hc & Hdin). cbn in Hc, Hdin.
  rewrite (total_insert _ _ _ _ Hk) in *. unfold size_of in Htot. cbn in Htot. rewrite length_app, Nat2Z.inj_add in Hmax, Htot. change nblocks with 941 in Htot. rewrite nmeta_eq in *.
  destruct (iappend_run s Fs O k f p Him HFk) as (s' & O' & addrs & E & Him' & Hfr' & Hfb'); rewrite ?Hc; [done|lia|].
  exists s'. split; [done|]. eexists _, O'. split_and!; [done| |by eapply front_trans|].
  - apply Forall2_insert; [done|]. split; cbn; [by rewrite Hc|]. rewrite Hc. unfold size_of. cbn. rewrite length_app, Nat2Z.inj_add, Hdin. done.
  - rewrite (total_insert _ _ _ _ Hk), Hfb', Hfb, Hc. unfold size_of. cbn. rewrite length_app, Nat2Z.inj_add, nmeta_eq. lia.
Qed.
