(* ===== verification/MkfsTheorems.v ===== *)
(** * mkfs writes the file system it is asked for

    [files_of] is the contents of the image as the command line gives them.  Step by
    step [main] builds an image that holds them ([holds] of MkfsSpec.v); the theorem
    says what the kernel finds in it. *)
From S2P Require Import Prelude Bytes Cstring Spinlock ProcDefs Memory Kalloc FsDefs.
From S2P Require Import Bio BioRing BioSpec BioOps BioSeq Log LogSpec LogCrash Fs FsCodec FsTx FsBlocks FsMap FsFile FsRw Ide Mkfs MkfsSpec.
Local Open Scope Z_scope.
Local Open Scope kernel_scope.

(** ** The files that are asked for *)

(** A name in a directory entry: cut to DIRSIZ bytes, or filled up with zeros. *)
Definition name14 (name : list Z) : list Z := take DIRSIZ (name ++ zeros DIRSIZ).
Definition entry (i : nat) (f : hostfile) : list Z := dirent_of (Z.of_nat i + 2) (name14 (skip_underscore (h_name f))).
Definition contents (f : hostfile) : list Z := concat (default [] (h_reads f)).
Definition root_bytes (fs : list hostfile) : list Z := dirent_of 1 dot_name ++ dirent_of 1 dotdot_name ++ concat (imap entry fs).
Definition files_of (fs : list hostfile) : list plainfile := (T_DIR, root_bytes fs) :: ((fun f => (T_FILE, contents f)) <$> fs).

(** What the program can do: the names are names of the working directory, the files
    can be read, and inodes, blocks and block addresses are enough. *)
Record fits (fs : list hostfile) : Prop := {
  ft_names : Forall (fun f => (47 ∉ h_name f) /\ (0 ∉ h_name f)) fs;
  ft_opens : Forall (fun f => is_Some (h_reads f)) fs;
  ft_inodes : (length fs <= 198)%nat;
  ft_sizes : Forall (fun f => Z.of_nat (length (contents f)) <= MAXFILE * BSIZE) fs;
  ft_blocks : total (files_of fs) <= nblocks
}.

(** ** The empty image *)

Lemma zero_fill_zeros n : zero_fill (zeros n) n = Some (zeros n).
Proof. induction n as [|n IH]; [done|]. change (zeros (S n)) with (0 :: zeros n). cbn [zero_fill]. by rewrite IH. Qed.

Lemma strncpy_zeros n : forall name, 0 ∉ name -> strncpy (zeros n) (name ++ [0]) n = Some (take n (name ++ zeros n)).
Proof.
  induction n as [|n IH]; intros name Hn; [done|]. change (zeros (S n)) with (0 :: zeros n). destruct name as [|c name]; cbn [app strncpy].
  - rewrite Z.eqb_refl, zero_fill_zeros. cbn. by rewrite take_ge by (unfold zeros; rewrite length_replicate; lia).
  - apply not_elem_of_cons in Hn as [Hc Hn]. rewrite (proj2 (Z.eqb_neq c 0)) by done. rewrite IH by done. cbn. do 2 f_equal.
    rewrite !take_app. f_equal. change (0 :: zeros n) with (zeros (S n)). unfold zeros. rewrite !take_replicate. f_equal. lia.
Qed.

Lemma name14_length name : length (name14 name) = DIRSIZ.
Proof. unfold name14, zeros. rewrite length_take, length_app, length_replicate. lia. Qed.
Lemma entry_length i f : length (entry i f) = 16%nat.
Proof. unfold entry, dirent_of. by rewrite length_app, name14_length. Qed.

Lemma zero_run : forall n k s,
  (k + n <= 1000)%nat -> img s = replicate k zeroes ->
  forM (seq k n) (fun i => wsect (Z.of_nat i) zeroes) s = Ret tt (s <| img := replicate (k + n) zeroes |>).
Proof.
  induction n as [|n IH]; intros k s Hn Hi; cbn [seq forM].
  - rewrite Nat.add_0_r, <- Hi. by destruct s.
  - assert (E : wsect (Z.of_nat k) zeroes s = Ret tt (s <| img := replicate (S k) zeroes |>)).
    { unfold wsect, modify. f_equal. rewrite sector_of_small by lia. rewrite Nat2Z.id. destruct s as [im]; cbn in *. subst im.
      f_equal. rewrite length_replicate. case_decide; [lia|]. rewrite Nat.sub_diag. cbn [replicate app]. by rewrite <- replicate_S_end. }
    rewrite (bind_ret_eq _ _ _ _ _ E), IH by (done || lia). by replace (k + S n)%nat with (S k + n)%nat by lia.
Qed.

Definition sb_block : list Z := sb_bytes the_sb ++ zeros 484.

Definition zeroed : mkst := Mkst (replicate 1000 zeroes) the_sb 1 nmeta.
Definition blank : mkst := put 1 sb_block zeroed.

Lemma zeroed_sectors : sectors zeroed.
Proof. split; [apply length_replicate|by apply Forall_replicate]. Qed.

Lemma blank_view b : 0 <= b < 1000 -> view blank b = if b =? 1 then sb_block else zeroes.
Proof.
  intros Hb. unfold blank. rewrite view_put; [|apply zeroed_sectors|lia|lia].
  destruct (b =? 1); [done|]. unfold view. change (img zeroed) with (replicate 1000 zeroes). by rewrite lookup_replicate_2 by lia.
Qed.

Lemma zero_dinode i : 0 <= i < 200 -> get_dinode (dip_off i) zeroes (as_inode i no_dinode) = Some (as_inode i no_dinode).
Proof.
  intros Hi. unfold dip_off, IPB. pose proof (Z.mod_pos_bound i 8 ltac:(done)) as Hm.
  assert (Hc : i mod 8 ∈ [0;1;2;3;4;5;6;7]) by (rewrite !elem_of_cons; lia).
  repeat (apply elem_of_cons in Hc as [->|Hc]; [vm_compute; reflexivity|]). by apply elem_of_nil in Hc.
Qed.

Lemma blank_holds : holds blank blank [].
Proof.
  assert (Hs : sectors blank) by (apply sectors_put; [apply zeroed_sectors|done]).
  exists [], []. split_and!; [split|by constructor|done|done].
  - split; [done|done|done| |done]. intros b Hb. change (freeblock blank) with 59 in Hb. rewrite blank_view by lia. by rewrite (proj2 (Z.eqb_neq b 1)) by lia.
  - done.
  - done.
  - intros i Hi. change (freeinode blank) with 1 in Hi. unfold dinode_at. pose proof (iblock_range i ltac:(lia)).
    rewrite blank_view by lia. rewrite (proj2 (Z.eqb_neq _ 1)) by lia. apply zero_dinode. lia.
Qed.

(** ** Files are added *)

Lemma total_grow fs k type c r : total (<[k := (type, c)]> fs) <= total (<[k := (type, c ++ r)]> fs).
Proof.
  destruct (fs !! k) as [x|] eqn:Hk; [|by rewrite !list_insert_ge by (by apply lookup_ge_None)].
  rewrite !(total_insert _ _ _ _ Hk). unfold size_of. cbn. pose proof (cost_mono (Z.of_nat (length c)) (Z.of_nat (length (c ++ r))) ltac:(rewrite length_app; lia)). lia.
Qed.

Lemma append_all s0 k type : forall reads c s fs,
  holds s0 s fs -> fs !! k = Some (type, c) -> Z.of_nat (length (c ++ concat reads)) <= MAXFILE * BSIZE ->
  total (<[k := (type, c ++ concat reads)]> fs) <= nblocks ->
  exists s', forM reads (iappend (Z.of_nat k + 1)) s = Ret tt s' /\ holds s0 s' (<[k := (type, c ++ concat reads)]> fs).
Proof.
  induction reads as [|r reads IH]; intros c s fs Hh Hk Hmax Htot; cbn [forM concat] in *.
  - exists s. split; [done|]. by rewrite app_nil_r, list_insert_id.
  - rewrite app_assoc in *. destruct (iappend_holds s0 s fs k type c r Hh Hk) as (s1 & E1 & Hh1).
    { rewrite length_app in Hmax. lia. } { pose proof (total_grow fs k type (c ++ r) (concat reads)). lia. }
    rewrite (bind_ret_eq _ _ _ _ _ E1). edestruct IH as (s2 & E2 & Hh2); [exact Hh1| |done| |].
    + apply list_lookup_insert_eq. by eapply lookup_lt_Some.
    + by rewrite list_insert_insert_eq.
    + exists s2. by rewrite list_insert_insert_eq in Hh2.
Qed.

Lemma root_snoc fs f : root_bytes (fs ++ [f]) = root_bytes fs ++ entry (length fs) f.
Proof. unfold root_bytes. rewrite imap_app, concat_app, <- !app_assoc. do 3 f_equal. cbn. by rewrite app_nil_r, Nat.add_0_r. Qed.
Lemma root_length fs : length (root_bytes fs) = (16 * (length fs + 2))%nat.
Proof.
  induction fs as [|f fs IH] using rev_ind; [done|]. rewrite root_snoc, !length_app, IH, entry_length. simpl. lia.
Qed.

Lemma files_length fs : length (files_of fs) = S (length fs).
Proof. unfold files_of. simpl. by rewrite length_fmap. Qed.
Lemma files_snoc fs f :
  files_of (fs ++ [f]) = <[S (length fs) := (T_FILE, contents f)]> (<[0%nat := (T_DIR, root_bytes fs ++ entry (length fs) f)]> (files_of fs ++ [(T_FILE, [])])).
Proof.
  unfold files_of. rewrite root_snoc, fmap_app. set (l := (fun f => (T_FILE, contents f)) <$> fs). set (r := root_bytes fs ++ entry (length fs) f).
  assert (Hl : length l = length fs) by apply length_fmap.
  change ((T_DIR, r) :: l ++ [(T_FILE, contents f)] = (T_DIR, r) :: <[length fs := (T_FILE, contents f)]> (l ++ [(T_FILE, [])])).
  f_equal. rewrite insert_app_r_alt by lia. by rewrite <- Hl, Nat.sub_diag.
Qed.

Lemma fits_prefix a b : fits (a ++ b) -> fits a.
Proof.
  intros [H1 H2 H3 H4 H5]. rewrite Forall_app in H1, H2, H4. rewrite length_app in H3. split; [tauto|tauto|lia|tauto|].
  etransitivity; [|exact H5]. unfold files_of. rewrite !total_cons, fmap_app, total_app. unfold size_of. cbn [snd].
  assert (Hp : forall l : list plainfile, 0 <= total l).
  { induction l as [|x l IH]; [done|]. rewrite total_cons. pose proof (cost_mono 0 (size_of x) ltac:(unfold size_of; lia)). change (cost 0) with 0 in *. lia. }
  pose proof (Hp ((fun f => (T_FILE, contents f)) <$> b)).
  pose proof (cost_mono (Z.of_nat (length (root_bytes a))) (Z.of_nat (length (root_bytes (a ++ b)))) ltac:(rewrite !root_length, length_app; lia)). lia.
Qed.

Lemma add_file_holds s0 s fs f :
  holds s0 s (files_of fs) -> fits (fs ++ [f]) -> exists s', add_file 1 f s = Ret tt s' /\ holds s0 s' (files_of (fs ++ [f])).
Proof.
  intros Hh [Hnm Hop Hin Hsz Hbl]. apply Forall_app in Hnm as [_ Hnm], Hop as [_ Hop], Hsz as [_ Hsz].
  apply Forall_singleton in Hnm as [Hslash Hnul], Hop as [reads Hreads]. rewrite Forall_singleton in Hsz. rewrite length_app in Hin. simpl in Hin.
  assert (Hcon : contents f = [] ++ concat reads) by (unfold contents; by rewrite Hreads).
  rewrite files_snoc in *. set (g := files_of fs ++ [(T_FILE, [])]) in *. set (g1 := <[0%nat := _]> g) in *.
  destruct (ialloc_holds s0 s (files_of fs) T_FILE Hh) as (s1 & E1 & Hh1); [rewrite files_length; lia|by right|]. fold g in Hh1.
  assert (Hg1 : g1 !! S (length fs) = Some (T_FILE, [])).
  { unfold g1, g. rewrite list_lookup_insert_ne by lia. rewrite lookup_app_r by (rewrite files_length; lia). by rewrite files_length, Nat.sub_diag. }
  assert (Hg1t : total g1 <= nblocks).
  { rewrite <- (list_insert_id g1 (S (length fs)) (T_FILE, [])) by done. etransitivity; [apply (total_grow _ _ T_FILE [] (contents f))|exact Hbl]. }
  destruct (iappend_holds s0 s1 g 0 T_DIR (root_bytes fs) (entry (length fs) f) Hh1) as (s2 & E2 & Hh2); [done| |done|].
  { rewrite length_app, root_length, entry_length. unfold MAXFILE, NINDIRECT, NDIRECT, BSIZE. lia. }
  fold g1 in Hh2. rewrite Hcon in Hsz, Hbl |- *. destruct (append_all s0 _ _ reads [] s2 g1 Hh2 Hg1 Hsz Hbl) as (s3 & E3 & Hh3). exists s3. split; [|done].
  unfold add_file, assert. rewrite bool_decide_eq_false_2 by done. cbn [negb]. rewrite bind_ret, Hreads. cbv zeta. rewrite (bind_ret_eq _ _ _ _ _ E1), strncpy_zeros.
  - rewrite bind_deref, files_length. fold (name14 (skip_underscore (h_name f))).
    change (Z.of_nat 0 + 1) with 1 in E2. replace (Z.of_nat (S (length fs)) + 1) with (Z.of_nat (length fs) + 2) in * by lia. fold (entry (length fs) f).
    by rewrite (bind_ret_eq _ _ _ _ _ E2).
  - unfold skip_underscore. destruct (h_name f) as [|c nm]; [done|]. apply not_elem_of_cons in Hnul as [? ?]. case_match; [done|]. by apply not_elem_of_cons.
Qed.

Lemma add_files s0 : forall rest fs s,
  holds s0 s (files_of fs) -> fits (fs ++ rest) -> exists s', forM rest (add_file 1) s = Ret tt s' /\ holds s0 s' (files_of (fs ++ rest)).
Proof.
  induction rest as [|f rest IH]; intros fs s Hh Hf; cbn [forM].
  - exists s. by rewrite app_nil_r.
  - rewrite cons_middle, app_assoc in Hf. destruct (add_file_holds s0 s fs f Hh (fits_prefix _ _ Hf)) as (s1 & E1 & Hh1).
    rewrite (bind_ret_eq _ _ _ _ _ E1), cons_middle, app_assoc. by apply IH.
Qed.

(** ** The bitmap *)

Lemma mark_used_bits : forall n i buf,
  length buf = Z.to_nat BSIZE -> 0 <= i -> i + Z.of_nat n <= BPB ->
  exists buf', mark_used n i buf = Some buf' /\ length buf' = Z.to_nat BSIZE /\
    forall j, 0 <= j < BPB -> bit buf' j = bit buf j || (i <=? j) && (j <? i + Z.of_nat n).
Proof.
  induction n as [|n IH]; intros i buf Hl Hi Hn; cbn [mark_used].
  - exists buf. split_and!; [done..|]. intros j Hj. destruct (Z.leb_spec i j), (Z.ltb_spec j (i + Z.of_nat 0)); rewrite ?orb_false_r; done || lia.
  - destruct (set_bit_bits i buf Hl ltac:(lia)) as (b1 & E & Hl1 & Hb1). unfold bit_of in E. rewrite E. cbn [mbind option_bind].
    destruct (IH (i + 1) b1 Hl1 ltac:(lia) ltac:(lia)) as (b2 & E2 & Hl2 & Hb2). exists b2. split_and!; [done..|].
    intros j Hj. rewrite Hb2, Hb1 by done.
    destruct (Z.eqb_spec j i), (Z.leb_spec i j), (Z.leb_spec (i + 1) j), (Z.ltb_spec j (i + 1 + Z.of_nat n)), (Z.ltb_spec j (i + Z.of_nat (S n)));
      rewrite ?orb_true_r, ?orb_false_r; done || lia.
Qed.

Lemma bit_zeroes j : 0 <= j < BPB -> bit zeroes j = false.
Proof. intros Hj. unfold bit, zeroes, zeros. rewrite lookup_replicate_2 by (by apply byte_lt). apply Z.bits_0. Qed.

Lemma mkfs_balloc_run s n :
  sectors s -> msb s = the_sb -> 0 <= n <= 1000 ->
  exists buf, balloc n s = Ret tt (put 58 buf s) /\ length buf = 512%nat /\ forall j, 0 <= j < BPB -> bit buf j = (j <? n).
Proof.
  intros Hs Hm Hn. destruct (mark_used_bits (Z.to_nat n) 0 zeroes) as (buf & E & Hl & Hb); [done|done|unfold BPB, BSIZE; lia|].
  exists buf. split_and!; [|done|].
  - unfold balloc, assert. rewrite (proj2 (Z.ltb_lt n (BSIZE * 8))) by (unfold BSIZE; lia). rewrite bind_ret, E, bind_deref, bind_gets, Hm, the_sb_eq. apply wsect_run; [done|lia].
  - intros j Hj. rewrite Hb, bit_zeroes, Z.add_0_l, Z2Nat.id by (done || lia). by rewrite (proj2 (Z.leb_le 0 j)) by lia.
Qed.

(** ** What the kernel finds *)

(** The blocks of a file, its indirect block included. *)
Definition block_in (V : Z -> list Z) (ip : inode) (b : Z) : Prop :=
  b <> 0 /\ (b = ind_block ip \/ exists bn, 0 <= bn < MAXFILE /\ b = block_of V ip bn).

(** The file [x] of inode [ip], as Fs.v reads it: it has the blocks its bytes need and
    no other. *)
Record stored (V : Z -> list Z) (ip : inode) (x : plainfile) : Prop := {
  sd_disk : on_disk V the_sb ip;
  sd_type : itype ip = x.1;
  sd_nlink : inlink ip = 1;
  sd_map : file_map V the_sb 2 ip;
  sd_blocks : forall bn, 0 <= bn < MAXFILE -> (block_of V ip bn = 0 <-> nb (size_of x) <= bn);
  sd_bytes : fbytes V ip 0 (length x.2) = x.2
}.

(** A file system with the files [fs], of the sizes [size], and the inodes [ips]. *)
Record formatted (V : Z -> list Z) (fs : list plainfile) (size : nat -> plainfile -> Z) (ips : list inode) : Prop := {
  fo_sb : parse_sb (V 1) = Some the_sb;
  fo_log : hdr_is (V 2) [];
  fo_used : forall b, 0 <= b < 1000 -> used V the_sb b = (b <? nmeta + total fs);
  fo_free : free_map V the_sb 2;
  fo_files : length ips = length fs /\ forall k x ip, fs !! k = Some x -> ips !! k = Some ip ->
    inum ip = Z.of_nat k + 1 /\ isize ip = size k x /\ stored V ip x;
  fo_apart : forall k j ipk ipj b, ips !! k = Some ipk -> ips !! j = Some ipj -> block_in V ipk b -> block_in V ipj b -> k = j;
  fo_inodes : forall i, Z.of_nat (length fs) < i < 200 ->
    exists t, ld 2 (dip_off i) (V (IBLOCK i the_sb)) = Some t /\ s16 t = 0
}.

Lemma bblock b : 0 <= b < 1000 -> BBLOCK b the_sb = 58.
Proof. intros Hb. rewrite the_sb_eq. unfold BBLOCK, BPB, BSIZE. cbn [sb_bmapstart]. by rewrite Z.div_small by lia. Qed.

Lemma data_block_59 b : 59 <= b < 1000 -> data_block the_sb 2 b.
Proof.
  intros Hb. split_and!.
  - lia.
  - rewrite the_sb_eq. cbn. lia.
  - unfold in_log. change (Z.of_nat LOGSIZE) with 30. lia.
  - intros b' Hb'. rewrite the_sb_eq in Hb'. cbn in Hb'. rewrite bblock by lia. lia.
  - intros i Hi. rewrite the_sb_eq in Hi. cbn in Hi. pose proof (iblock_range i Hi). lia.
Qed.

Lemma the_layout : layout the_sb 2 1000.
Proof.
  split. 1-3,5: by repeat split.
  - intros b Hb. rewrite the_sb_eq in Hb. cbn in Hb. rewrite bblock by lia. unfold in_log. change (Z.of_nat LOGSIZE) with 30. lia.
  - intros i Hi. rewrite the_sb_eq in Hi. cbn in Hi. pose proof (iblock_range i Hi). unfold in_log. change (Z.of_nat LOGSIZE) with 30. lia.
  - intros b i Hb Hi. rewrite the_sb_eq in Hb, Hi. cbn in Hb, Hi. rewrite bblock by lia. pose proof (iblock_range i Hi). lia.
Qed.

Lemma dinode_at_disk s i d : dinode_at s i d -> on_disk (view s) the_sb (as_inode i d).
Proof.
  unfold dinode_at, on_disk, get_dinode. cbn [inum as_inode]. intros H. repeat (apply bind_Some in H as (? & Hx & H); rewrite Hx; cbn [mbind option_bind]).
  destruct d. cbn in H |- *. by simplify_eq.
Qed.

Section Stored.
Context (V : Z -> list Z) (O : list owner) (k : nat) (f : wfile) (i : Z).
Hypothesis Hf : wfile_ok V O k f.
Let ip : inode := as_inode i (w_din f).

Lemma stored_ind : ind_block ip <> 0 -> owns O (ind_block ip) (k, None).
Proof.
  intros Hi. apply (wf_own_ind _ _ _ _ Hf). destruct (wf_ind _ _ _ _ Hf) as [_ H2].
  destruct (decide (NDIRECT < w_blocks f)); [done|]. exfalso. apply Hi, H2. lia.
Qed.

Lemma stored_block bn : 0 <= bn < MAXFILE -> block_of V ip bn <> 0 -> owns O (block_of V ip bn) (k, Some bn).
Proof.
  intros Hbn Hb. apply (wf_own _ _ _ _ Hf). destruct (wf_none _ _ _ _ Hf bn Hbn) as [_ H2].
  destruct (decide (w_blocks f <= bn)); [|lia]. exfalso. by apply Hb, H2.
Qed.

Lemma block_in_owns b : block_in V ip b -> exists o, owns O b (k, o).
Proof. intros [Hb [->|(bn & Hbn & ->)]]; [exists None; by apply stored_ind|exists (Some bn); by apply stored_block]. Qed.

Lemma stored_map : (forall b o, owns O b o -> in_use V the_sb 2 b) -> file_map V the_sb 2 ip.
Proof.
  intros Hu. split; [apply (wf_len _ _ _ _ Hf)|done|..].
  - intros Hi. eapply Hu. by apply stored_ind.
  - intros bn Hbn Hb. pose proof (stored_block bn Hbn Hb) as Ho. split; [by eapply Hu|]. intros E.
    pose proof (stored_ind ltac:(by rewrite <- E)) as Hi. rewrite E in Ho. by pose proof (owns_inj _ _ _ _ Ho Hi).
  - intros bn bm Hbn Hbm Hb E. pose proof (stored_block bn Hbn Hb) as H1. pose proof (stored_block bm Hbm ltac:(by rewrite <- E)) as H2.
    rewrite E in H1. pose proof (owns_inj _ _ _ _ H1 H2). congruence.
Qed.

Lemma stored_bytes : fbytes V ip 0 (length (w_data f)) = w_data f.
Proof.
  destruct (wf_nb _ _ _ _ Hf) as [H1 H2]. apply list_eq_same_length with (n := length (w_data f)); [done|unfold fbytes; by rewrite length_fmap, length_seq|].
  intros j x y Hj Hx Hy. unfold fbytes in Hx. apply list_lookup_fmap_Some in Hx as (j' & -> & Hs). apply lookup_seq in Hs as [-> _].
  change (fbyte V ip) with (fbyte V (ip_of f)). rewrite (wf_data _ _ _ _ Hf) by (unfold BSIZE in *; lia).
  replace (Z.to_nat (0 + Z.of_nat (0 + j))) with j by lia. by rewrite Hy.
Qed.

Lemma wfile_stored x :
  (forall b o, owns O b o -> in_use V the_sb 2 b) -> on_disk V the_sb ip ->
  w_data f = x.2 -> w_blocks f = nb (size_of x) -> d_type (w_din f) = x.1 -> d_nlink (w_din f) = 1 -> stored V ip x.
Proof.
  intros Hu Hd Hc Hb Ht Hn. split; [done|done|done|by apply stored_map|..].
  - intros bn Hbn. rewrite <- Hb. by apply (wf_none _ _ _ _ Hf).
  - rewrite <- Hc. apply stored_bytes.
Qed.
End Stored.

(** ** The end of main *)

Definition rounded (n : Z) : Z := (n / BSIZE + 1) * BSIZE.
Definition size_in (k : nat) (x : plainfile) : Z := if decide (k = 0%nat) then rounded (size_of x) else size_of x.

(** The image when the size of the root and the bitmap are written. *)
Record closing (s s' : mkst) (Fs : list wfile) (O : list owner) (n : Z) : Prop := {
  cl_view : forall b, nmeta <= b -> view s' b = view s b;
  cl_front : view s' 1 = view s 1 /\ view s' 2 = view s 2;
  cl_bits : forall b, 0 <= b < 1000 -> used (view s') the_sb b = (b <? n);
  cl_disk : forall k f, Fs !! k = Some f -> on_disk (view s') the_sb (as_inode (Z.of_nat k + 1) (w_din f));
  cl_empty : forall i, freeinode s <= i < 200 -> dinode_at s' i no_dinode
}.

Lemma close_run s Fs O f r :
  image s Fs O -> Fs !! 0%nat = Some f -> 0 <= r < 2 ^ 32 -> let d := w_din f <| d_size := r |> in
  exists s1 buf, rinode 1 s = Ret (w_din f) s /\ winode 1 d s = Ret tt s1 /\ freeblock s1 = freeblock s /\
    balloc (freeblock s) s1 = Ret tt (put 58 buf s1) /\ sectors (put 58 buf s1) /\
    closing s (put 58 buf s1) (<[0%nat := f <| w_din := d |>]> Fs) O (freeblock s).
Proof.
  intros Him H0 Hr d. pose proof (im_blocks _ _ _ Him) as Hb. destruct (bk_free _ _ _ Hb) as [Hfb Hle]. destruct (im_free _ _ _ Him) as [Hfi Hfi2].
  pose proof (bk_sectors _ _ _ Hb) as Hs. pose proof (bk_sb _ _ _ Hb) as Hm. destruct (im_files _ _ _ Him _ _ H0) as [Hfa Hat]. rewrite nmeta_eq in Hfb.
  destruct (winode_run s 1 d Hs Hm ltac:(lia)) as (s1 & E1 & [Hs1 Hat1 Hoth1 HV1 Hrest]).
  { eapply (inode_wf_ino 0). destruct (fa_wf _ Hfa). by split. }
  assert (Ef : freeblock s1 = freeblock s /\ msb s1 = msb s) by by rewrite Hrest. destruct Ef as [Ef Em]. rewrite <- Em in Hm.
  destruct (mkfs_balloc_run s1 (freeblock s) Hs1 Hm ltac:(lia)) as (buf & E2 & Hlb & Hbits). set (s2 := put 58 buf s1) in *.
  assert (HV2 : forall b, 0 <= b -> view s2 b = if b =? 58 then buf else view s1 b) by (intros; apply view_put; [done|lia|done]).
  assert (Hin : forall i x, 0 <= i < 200 -> dinode_at s1 i x -> dinode_at s2 i x).
  { intros i x Hi. apply dinode_at_view. pose proof (iblock_range i Hi). rewrite HV2 by lia. by rewrite (proj2 (Z.eqb_neq _ 58)) by lia. }
  exists s1, buf. fold s2. split_and!; [by apply rinode_run; [done|apply (bk_sb _ _ _ Hb)|lia|]|done|done|done|by apply sectors_put|]. split.
  - intros b Hbm. rewrite nmeta_eq in Hbm. rewrite HV2, (proj2 (Z.eqb_neq b 58)) by lia. apply HV1; lia.
  - split; rewrite HV2 by lia; apply HV1; lia.
  - intros b Hbm. unfold used. rewrite bblock, HV2, Z.eqb_refl by lia. unfold BPB, BSIZE in *. rewrite Z.mod_small by lia. apply Hbits. lia.
  - intros k g [(<- & <- & _)|[Hne Hk]]%list_lookup_insert_Some; apply dinode_at_disk, Hin; [lia|done|..].
    + apply lookup_lt_Some in Hk. lia.
    + pose proof (lookup_lt_Some _ _ _ Hk). apply Hoth1; [lia..|]. by apply (im_files _ _ _ Him).
  - intros i Hi. pose proof (lookup_lt_Some _ _ _ H0). apply Hin; [lia|]. apply Hoth1; [lia..|]. by apply (im_empty _ _ _ Him).
Qed.

Lemma closing_files s s' Fs O f d n :
  blocks s Fs O -> Fs !! 0%nat = Some f -> d_addrs d = d_addrs (w_din f) -> closing s s' (<[0%nat := f <| w_din := d |>]> Fs) O n ->
  forall k g, <[0%nat := f <| w_din := d |>]> Fs !! k = Some g -> wfile_ok (view s') O k g.
Proof.
  intros Hb H0 Hd Hcl k g Hk. eapply wfile_ext; [by apply (bk_files _ _ _ (blocks_din s Fs O 0 f d Hb H0 Hd))|done|].
  intros b o Ho. apply (cl_view _ _ _ _ _ Hcl). apply (owns_lt _ _ _ Ho).
Qed.

Lemma sb_parses : parse_sb sb_block = Some the_sb.
Proof. reflexivity. Qed.

Lemma dinode_at_free s i : dinode_at s i no_dinode -> exists t, ld 2 (dip_off i) (view s (IBLOCK i the_sb)) = Some t /\ s16 t = 0.
Proof.
  unfold dinode_at, get_dinode. intros (t & Ht & H)%bind_Some. exists t. split; [done|].
  repeat (apply bind_Some in H as (? & _ & H)). injection H. done.
Qed.

Definition inodes (Fs : list wfile) : list inode := imap (fun k f => as_inode (Z.of_nat k + 1) (w_din f)) Fs.

Lemma inodes_lookup Fs k ip : inodes Fs !! k = Some ip -> exists f, Fs !! k = Some f /\ ip = as_inode (Z.of_nat k + 1) (w_din f).
Proof. unfold inodes. rewrite list_lookup_imap. intros (f & ? & ->)%fmap_Some. eauto. Qed.

Lemma closing_formatted s s' Fs O fs f r :
  image s Fs O -> Forall2 is_file Fs fs -> front blank s -> freeblock s = nmeta + total fs -> Fs !! 0%nat = Some f ->
  (forall x, fs !! 0%nat = Some x -> r = rounded (size_of x)) ->
  let Fs' := <[0%nat := f <| w_din := w_din f <| d_size := r |> |>]> Fs in
  closing s s' Fs' O (freeblock s) -> formatted (view s') fs size_in (inodes Fs').
Proof.
  intros Him Hall Hfr Hfb H0 Hr Fs' Hcl. pose proof (im_blocks _ _ _ Him) as Hb. destruct (bk_free _ _ _ Hb) as [HO Hle]. destruct (im_free _ _ _ Him) as [Hfi Hfi2].
  pose proof (Forall2_length _ _ _ Hall) as Hlen. destruct (cl_front _ _ _ _ _ Hcl) as [HV1 HV2].
  pose proof (closing_files s s' Fs O f (w_din f <| d_size := r |>) (freeblock s) Hb H0 eq_refl Hcl) as Hok. fold Fs' in Hok. rewrite nmeta_eq in *.
  assert (Huse : forall b o, owns O b o -> in_use (view s') the_sb 2 b).
  { intros b o Ho. pose proof (owns_lt _ _ _ Ho) as Hlt. rewrite nmeta_eq in Hlt. split; [apply data_block_59; lia|].
    rewrite (cl_bits _ _ _ _ _ Hcl) by lia. apply Z.ltb_lt. lia. }
  split.
  - rewrite HV1, (Hfr 1), blank_view by (rewrite ?nmeta_eq; lia). apply sb_parses.
  - rewrite HV2, (Hfr 2), blank_view by (rewrite ?nmeta_eq; lia). by split.
  - intros b Hbm. rewrite nmeta_eq, <- Hfb. by apply (cl_bits _ _ _ _ _ Hcl).
  - intros b Hbm Hu. rewrite the_sb_eq in Hbm. cbn in Hbm. rewrite (cl_bits _ _ _ _ _ Hcl) in Hu by lia. apply Z.ltb_ge in Hu.
    split; [lia|apply data_block_59; lia].
  - split; [unfold inodes, Fs'; by rewrite length_imap, length_insert|].
    intros k x ip Hx (g & Hg & ->)%inodes_lookup. pose proof (Hok k g Hg) as Hgok. pose proof (cl_disk _ _ _ _ _ Hcl k g Hg) as Hgd. unfold size_in.
    split; [done|]. unfold Fs' in Hg. apply list_lookup_insert_Some in Hg as [(<- & <- & _)|[Hne Hg]].
    + destruct (Forall2_lookup_lr _ _ _ _ _ _ Hall H0 Hx) as [Hc Hd]. destruct (im_files _ _ _ Him _ _ H0) as [Hfa _].
      rewrite decide_True by done. split; [by apply Hr|]. apply (wfile_stored _ _ _ _ _ Hgok _ Huse Hgd); cbn; [done| |by rewrite Hd..].
      rewrite (fa_tight _ Hfa). unfold size_of. by rewrite Hc.
    + destruct (Forall2_lookup_lr _ _ _ _ _ _ Hall Hg Hx) as [Hc Hd]. destruct (im_files _ _ _ Him _ _ Hg) as [Hfa _].
      rewrite decide_False by done. split; [cbn; by rewrite Hd|]. apply (wfile_stored _ _ _ _ _ Hgok _ Huse Hgd); [done| |by rewrite Hd..].
      rewrite (fa_tight _ Hfa). unfold size_of. by rewrite Hc.
  - intros k j ipk ipj b (gk & Hgk & ->)%inodes_lookup (gj & Hgj & ->)%inodes_lookup Hbk Hbj.
    apply (block_in_owns _ _ _ _ _ (Hok _ _ Hgk)) in Hbk as [ok Hbk]. apply (block_in_owns _ _ _ _ _ (Hok _ _ Hgj)) in Hbj as [oj Hbj].
    pose proof (owns_inj _ _ _ _ Hbk Hbj). congruence.
  - intros i Hi. apply dinode_at_free, (cl_empty _ _ _ _ _ Hcl). lia.
Qed.

(** ** main *)

Lemma first_files s0 s : holds s0 s [] -> exists s1 s2 s3,
  ialloc T_DIR s = Ret 1 s1 /\ iappend 1 (dirent_of 1 dot_name) s1 = Ret tt s2 /\ iappend 1 (dirent_of 1 dotdot_name) s2 = Ret tt s3 /\ holds s0 s3 (files_of []).
Proof.
  intros Hh. destruct (ialloc_holds s0 s [] T_DIR Hh) as (s1 & E1 & H1); [simpl; lia|by left|].
  destruct (iappend_holds s0 s1 _ 0 T_DIR [] (dirent_of 1 dot_name) H1) as (s2 & E2 & H2); [done|done|done|].
  destruct (iappend_holds s0 s2 _ 0 T_DIR (dirent_of 1 dot_name) (dirent_of 1 dotdot_name) H2) as (s3 & E3 & H3); [done|done|done|]. by exists s1, s2, s3.
Qed.

Lemma blank_run {A} (c : MK A) :
  (modify (fun s => s <| msb := the_sb |>);;
   modify (fun s => s <| freeblock := nmeta |>);;
   forM (seq 0 (Z.to_nat FSSIZE)) (fun i => wsect (Z.of_nat i) zeroes);;
   do buf <- derefM "buf" (splice 0 (sb_bytes the_sb) zeroes);
   wsect 1 buf;;
   c) start = c blank.
Proof.
  rewrite !bind_modify. rewrite (bind_ret_eq _ _ _ _ _ (zero_run 1000 0 (Mkst [] the_sb 1 nmeta) ltac:(lia) eq_refl)).
  replace (splice 0 (sb_bytes the_sb) zeroes) with (Some sb_block) by reflexivity. rewrite bind_deref.
  by rewrite (bind_ret_eq _ _ _ _ _ (wsect_run zeroed 1 sb_block zeroed_sectors ltac:(lia))).
Qed.

(** C20: mkfs makes the file system its command line asks for.  When the names are
    plain names, the files can be read, and there are inodes (198 besides the root's),
    blocks (941, the indirect ones counted) and addresses (140 blocks a file) enough,
    the program ends with status 0 and an image of 1000 sectors in which the kernel's
    own definitions find: the superblock, with parts that do not overlap; an empty log;
    a bitmap that marks the metadata and as many blocks as the files need, and leaves
    data blocks only; inode 1 as a directory of one 16 byte entry per name, after "."
    and ".."; inode [i + 2] as the [i]-th file, its link count 1 and its bytes those
    read from the host, under a name without its underscore, cut to 14 bytes; no block
    in two files; and the other inodes free.  The size of the root is rounded up to a
    whole block more, for which the root has a block unless its entries fill their last
    one. *)
Theorem mkfs_builds (fs : list hostfile) (Hfits : fits fs) :
  exists s' ips, main (Some true) fs start = Stop (Exit 0) s' /\
    length (img s') = Z.to_nat FSSIZE /\ Forall (fun d => length d = Z.to_nat BSIZE) (img s') /\
    layout the_sb 2 FSSIZE /\ formatted (view s') (files_of fs) size_in ips.
Proof.
  destruct (first_files _ _ blank_holds) as (s1 & s2 & s3 & E1 & E2 & E3 & H3).
  destruct (add_files _ fs [] s3 H3 Hfits) as (s4 & E4 & Fs & O & Him & Hall & Hfr & Hfb). cbn [app] in *.
  destruct (Forall2_lookup_r _ _ _ 0%nat _ Hall eq_refl) as (f & H0 & Hc & Hd). cbn in Hc.
  assert (Hn : size_of (T_DIR, root_bytes fs) < 2 ^ 31).
  { unfold size_of. cbn [snd]. rewrite root_length. pose proof (ft_inodes _ Hfits). lia. }
  assert (Hr : 0 <= rounded (size_of (T_DIR, root_bytes fs)) < 2 ^ 32).
  { unfold rounded, BSIZE. set (n := size_of _) in *. assert (0 <= n) by (unfold n, size_of; lia). pose proof (Z.div_mod n 512 ltac:(done)). pose proof (Z.mod_pos_bound n 512 ltac:(done)). lia. }
  destruct (close_run s4 Fs O f _ Him H0 Hr) as (s5 & buf & E5 & E6 & Ef & E7 & [Hl Ha] & Hcl).
  exists (put 58 buf s5), (inodes (<[0%nat := f <| w_din := w_din f <| d_size := rounded (size_of (T_DIR, root_bytes fs)) |> |>]> Fs)). split_and!; [|done|done|apply the_layout|].
  - unfold main. change (assert _ _) with (ret (S := mkst) (R := exited) tt) at 1 2. rewrite !bind_ret, blank_run.
    rewrite (bind_ret_eq _ _ _ _ _ E1). change (assert _ _) with (ret (S := mkst) (R := exited) tt). rewrite bind_ret.
    rewrite (bind_ret_eq _ _ _ _ _ E2), (bind_ret_eq _ _ _ _ _ E3), (bind_ret_eq _ _ _ _ _ E4), (bind_ret_eq _ _ _ _ _ E5). cbv zeta.
    rewrite Hd. cbn [d_size]. rewrite (xint_small (size_of _)) by (unfold size_of in *; lia). fold (rounded (size_of (T_DIR, root_bytes fs))). rewrite xint_small by done. rewrite <- Hd.
    rewrite (bind_ret_eq _ _ _ _ _ E6), bind_gets, Ef. destruct (bk_free _ _ _ (im_blocks _ _ _ Him)) as [HO Hle]. rewrite nmeta_eq in HO.
    rewrite s32_small by lia. by rewrite (bind_ret_eq _ _ _ _ _ E7).
  - apply (closing_formatted s4 _ Fs O _ f); try done. by intros x [= <-].
Qed.

(** Two files: one with more than a block of bytes, in two reads, and an empty one. *)
Definition demo_files : list hostfile :=
  [Hostfile [95; 99; 97; 116] (Some [replicate 512 7; [1; 2; 3]]); Hostfile [82; 69; 65; 68; 77; 69] (Some [])].

Lemma demo_fits : fits demo_files.
Proof. split; [| |simpl; lia| |done]; by apply (bool_decide_unpack _). Qed.

Lemma mkfs_builds_witness : exists s' ips, main (Some true) demo_files start = Stop (Exit 0) s' /\
  length (img s') = Z.to_nat FSSIZE /\ Forall (fun d => length d = Z.to_nat BSIZE) (img s') /\
  layout the_sb 2 FSSIZE /\ formatted (view s') (files_of demo_files) size_in ips.
Proof. apply (mkfs_builds demo_files), demo_fits. Defined.

(** The root directory of such an image has a block for every byte below its size,
    which [writei] and [readi] are proved for, unless its entries fill their last
    block: the size then counts a block that the root does not have. *)
Theorem root_solid V fs ips ip :
  formatted V (files_of fs) size_in ips -> ips !! 0%nat = Some ip -> (length fs <= 198)%nat ->
  (solid V ip <-> (length fs + 2) mod 32 <> 0)%nat.
Proof.
  intros Hfo H0 Hn. destruct (proj2 (fo_files _ _ _ _ Hfo) 0%nat _ ip eq_refl H0) as (_ & Hsz & Hst).
  unfold size_in in Hsz. rewrite decide_True in Hsz by done. pose proof (sd_blocks _ _ _ Hst) as Hb. unfold size_of in *. cbn [snd] in *. rewrite root_length in *.
  set (n := (length fs + 2)%nat) in *. assert (En : Z.of_nat (16 * n) = 16 * Z.of_nat n) by lia. rewrite En in *.
  pose proof (Z.div_mod (Z.of_nat n) 32 ltac:(done)) as Hdm. pose proof (Z.mod_pos_bound (Z.of_nat n) 32 ltac:(done)) as Hmb.
  set (m := Z.of_nat n / 32) in *. assert (Hm : 16 * Z.of_nat n / 512 = m) by (symmetry; apply (Z.div_unique _ _ _ (16 * (Z.of_nat n mod 32))); lia).
  assert (Hsize : isize ip = (m + 1) * 512) by (rewrite Hsz; unfold rounded, BSIZE; by rewrite Hm).
  assert (Hnb : nb (16 * Z.of_nat n) = if Z.of_nat n mod 32 =? 0 then m else m + 1).
  { unfold nb. symmetry. destruct (Z.eqb_spec (Z.of_nat n mod 32) 0); [apply (Z.div_unique _ _ _ 511); lia|].
    apply (Z.div_unique _ _ _ (16 * (Z.of_nat n mod 32) - 1)); lia. }
  rewrite Hnb in Hb. assert (Hmod : (n mod 32)%nat = Z.to_nat (Z.of_nat n mod 32)) by (pose proof (Nat2Z.inj_mod n 32); lia).
  assert (Hmr : 0 <= m <= 7) by lia. unfold solid, has_blocks, MAXFILE, NINDIRECT, NDIRECT, BSIZE in *. rewrite Hsize. split.
  - intros [_ Hhas] E. apply (Hhas (m * 512)); [lia|]. rewrite Z.div_mul by done. apply Hb; [lia|]. rewrite (proj2 (Z.eqb_eq _ 0)) by lia. lia.
  - intros Hne. split; [lia|]. intros q Hq E. assert (0 <= q / 512 <= m) by (split; [apply Z.div_pos; lia|apply Z.lt_succ_r, Z.div_lt_upper_bound; lia]).
    apply Hb in E; [|lia]. rewrite (proj2 (Z.eqb_neq _ 0)) in E by lia. lia.
Qed.
