(* ===== verification/Utils.v ===== *)
(** * Small user programs: wc.c, cat.c, echo.c, ls.c

    A program is run on the results of its calls of [read], [open] and the like, in
    order, and gives the bytes it prints; [None] is an access outside an object. *)
From S2P Require Import Prelude Bytes Cstring Spinlock ProcDefs Memory Kalloc FsDefs Printf.
Local Open Scope Z_scope.

(** ** wc.c *)

(** " \r\t\n\v" *)
Definition blanks : list Z := [32; 13; 9; 10; 11; 0].

Record counts := Counts { wl : Z; ww : Z; wcs : Z; inword : Z }.

(** The body of the loop over the bytes that were read. *)
Definition wc_byte (k : counts) (b : Z) : option counts :=
  let c := s32 (wcs k + 1) in
  let l := if b =? 10 then s32 (wl k + 1) else wl k in
  match strchr blanks b with
  | None => None
  | Some (Some _) => Some (Counts l (ww k) c 0)
  | Some None => if c_true (inword k) then Some (Counts l (ww k) c (inword k)) else Some (Counts l (s32 (ww k + 1)) c 1)
  end.

Fixpoint wc_bytes (k : counts) (d : list Z) : option counts :=
  match d with
  | [] => Some k
  | b :: d' => match wc_byte k b with Some k' => wc_bytes k' d' | None => None end
  end.

(** What a call of [read] returns: [None] is -1; a file is at its end when its reads are. *)
Fixpoint wc_reads (k : counts) (reads : list (option (list Z))) : option (option counts) :=
  match reads with
  | [] => Some (Some k)
  | None :: _ => Some None
  | Some d :: reads' =>
    if decide (length d = O) then Some (Some k) else
    if decide (512 < length d)%nat then None else
    match wc_bytes k d with Some k' => wc_reads k' reads' | None => None end
  end.

(** "%d %d %d %s\n", "wc: read error\n", "wc: cannot open %s\n" *)
Definition wc_format : list Z := [37; 100; 32; 37; 100; 32; 37; 100; 32; 37; 115; 10; 0].
Definition wc_error : list Z := [119; 99; 58; 32; 114; 101; 97; 100; 32; 101; 114; 114; 111; 114; 10; 0].
Definition wc_cannot : list Z := [119; 99; 58; 32; 99; 97; 110; 110; 111; 116; 32; 111; 112; 101; 110; 32; 37; 115; 10; 0].

(** What is printed, and whether the program goes on. *)
Definition wc (reads : list (option (list Z))) (name : list Z) : option (list Z * bool) :=
  match wc_reads (Counts 0 0 0 0) reads with
  | None => None
  | Some None => (fun o => (o, false)) <$> printf wc_error []
  | Some (Some k) => (fun o => (o, true)) <$> printf wc_format [AWord (u32 (wl k)); AWord (u32 (ww k)); AWord (u32 (wcs k)); AStr name]
  end.

(** for(i = 1; i < argc; i++): the names, each with what its file gives if it opens. *)
Fixpoint wc_files (files : list (list Z * option (list (option (list Z))))) : option (list Z) :=
  match files with
  | [] => Some []
  | (name, None) :: _ => printf wc_cannot [AStr name]
  | (name, Some reads) :: files' =>
    match wc reads name with
    | None => None
    | Some (o, false) => Some o
    | Some (o, true) => app o <$> wc_files files'
    end
  end.

Definition wc_main (stdin : list (option (list Z))) (files : list (list Z * option (list (option (list Z))))) : option (list Z) :=
  match files with
  | [] => fst <$> wc stdin [0]
  | _ => wc_files files
  end.

(** ** echo.c *)

(** printf(1, "%s%s", argv[i], i+1 < argc ? " " : "\n") for the arguments from [argv[i]] on. *)
Fixpoint echo_main (argv : list (list Z)) : option (list Z) :=
  match argv with
  | [] => Some []
  | a :: argv' =>
    o ← printf [37; 115; 37; 115; 0] [AStr a; AStr (if decide (argv' = []) then [10; 0] else [32; 0])];
    app o <$> echo_main argv'
  end.

(** ** ls.c *)

Definition DIRSIZ : nat := 14.

(** for(p=path+strlen(path); p >= path && *p != '/'; p--) ; p++; with [k] bytes before p. *)
Fixpoint after_slash (path : list Z) (k : nat) : nat :=
  match k with
  | O => if bool_decide (path !! O = Some 47) then 1%nat else O
  | S k' => if bool_decide (path !! k = Some 47) then S k else after_slash path k'
  end.

(** [fmtname(path)] with its static buffer: the string it returns, and the buffer. *)
Definition fmtname (buf path : list Z) : option (list Z * list Z) :=
  n ← strlen path;
  let p := drop (after_slash path n) path in
  m ← strlen p;
  if decide (DIRSIZ <= m)%nat then Some (p, buf) else
  buf ← splice 0 (take m p) buf;
  buf ← splice m (replicate (DIRSIZ - m) 32) buf;
  Some (buf, buf).

(** The bytes of a message. *)
Definition txt (m : string) : list Z := (fun c => Z.of_N (Ascii.N_of_ascii c)) <$> String.list_ascii_of_string m.

Record lsstat := Lsstat { st_type : Z; st_ino : Z; st_size : Z }.

(** "%s %d %d %d\n" *)
Definition ls_format : list Z := txt "%s %d %d %d" ++ [10; 0].
Definition ls_line (name : list Z) (st : lsstat) : option (list Z) :=
  printf ls_format [AStr name; AWord (u32 (st_type st)); AWord (u32 (st_ino st)); AWord (u32 (st_size st))].

(** The loop over the directory: what each [read] of an entry and the call of [stat]
    for it give.  [p] is the place behind the slash in [buf]; printed are file
    descriptor and bytes. *)
Fixpoint ls_entries (fbuf buf : list Z) (p : nat) (l : list (list Z * option lsstat)) : option (list (Z * list Z) * list Z) :=
  match l with
  | [] => Some ([], fbuf)
  | (de, st) :: l' =>
    if decide (length de <> 16%nat) then Some ([], fbuf) else
    inum ← ld 2 0 de;
    if inum =? 0 then ls_entries fbuf buf p l' else
    buf ← splice p (drop 2 de) buf;
    buf ← splice (p + DIRSIZ) [0] buf;
    match st with
    | None =>
      o ← printf (txt "ls: cannot stat %s" ++ [10; 0]) [AStr buf];
      r ← ls_entries fbuf buf p l';
      Some ((1, o) :: r.1, r.2)
    | Some st =>
      n ← fmtname fbuf buf;
      o ← ls_line n.1 st;
      r ← ls_entries n.2 buf p l';
      Some ((1, o) :: r.1, r.2)
    end
  end.

(** [file]: what [open] and [fstat] give; [buf]: the array of 512 bytes. *)
Definition ls (fbuf path buf : list Z) (file : option (option lsstat)) (l : list (list Z * option lsstat)) : option (list (Z * list Z) * list Z) :=
  match file with
  | None => o ← printf (txt "ls: cannot open %s" ++ [10; 0]) [AStr path]; Some ([(2, o)], fbuf)
  | Some None => o ← printf (txt "ls: cannot stat %s" ++ [10; 0]) [AStr path]; Some ([(2, o)], fbuf)
  | Some (Some st) =>
    if st_type st =? T_FILE then
      n ← fmtname fbuf path;
      o ← ls_line n.1 st;
      Some ([(1, o)], n.2)
    else if st_type st =? T_DIR then
      n ← strlen path;
      if decide (length buf < n + 1 + DIRSIZ + 1)%nat then
        o ← printf (txt "ls: path too long" ++ [10; 0]) []; Some ([(1, o)], fbuf)
      else
        buf ← splice 0 (take (S n) path) buf;
        k ← strlen buf;
        buf ← splice k [47] buf;
        ls_entries fbuf buf (k + 1) l
    else Some ([], fbuf)
  end.

(** for(i=1; i<argc; i++) ls(argv[i]) *)
Fixpoint ls_args (fbuf : list Z) (args : list (list Z * list Z * option (option lsstat) * list (list Z * option lsstat))) : option (list (Z * list Z)) :=
  match args with
  | [] => Some []
  | (path, buf, file, l) :: args' =>
    r ← ls fbuf path buf file l;
    app r.1 <$> ls_args r.2 args'
  end.

(** ls(".") without arguments. *)
Definition ls_main (fbuf buf : list Z) (file : option (option lsstat)) (l : list (list Z * option lsstat))
    (args : list (list Z * list Z * option (option lsstat) * list (list Z * option lsstat))) : option (list (Z * list Z)) :=
  match args with
  | [] => fst <$> ls fbuf [46; 0] buf file l
  | _ => ls_args fbuf args
  end.

(** ** cat.c *)

(** A [read] and the result of the [write] after it. *)
Fixpoint cat (reads : list (option (list Z) * Z)) : option (list Z * bool) :=
  match reads with
  | [] => Some ([], true)
  | (None, _) :: _ => (fun o => (o, false)) <$> printf (txt "cat: read error" ++ [10; 0]) []
  | (Some d, w) :: reads' =>
    if decide (length d = O) then Some ([], true) else
    if decide (512 < length d)%nat then None else
    if negb (w =? Z.of_nat (length d)) then (fun o => (take (Z.to_nat w) d ++ o, false)) <$> printf (txt "cat: write error" ++ [10; 0]) []
    else (fun r => (d ++ r.1, r.2)) <$> cat reads'
  end.

Fixpoint cat_files (files : list (list Z * option (list (option (list Z) * Z)))) : option (list Z) :=
  match files with
  | [] => Some []
  | (name, None) :: _ => printf (txt "cat: cannot open %s" ++ [10; 0]) [AStr name]
  | (name, Some reads) :: files' =>
    match cat reads with
    | None => None
    | Some (o, false) => Some o
    | Some (o, true) => app o <$> cat_files files'
    end
  end.

Definition cat_main (stdin : list (option (list Z) * Z)) (files : list (list Z * option (list (option (list Z) * Z)))) : option (list Z) :=
  match files with
  | [] => fst <$> cat stdin
  | _ => cat_files files
  end.

(** ** wc counts lines, words and bytes *)

Definition is_blank (b : Z) : bool := bool_decide (b ∈ [32; 13; 9; 10; 11]).

(** The text cut at its blanks; the words are the parts that are not empty. *)
Fixpoint split_blanks (t : list Z) : list (list Z) :=
  match t with
  | [] => [[]]
  | b :: t' =>
    if is_blank b then [] :: split_blanks t' else
    match split_blanks t' with w :: ws => (b :: w) :: ws | [] => [[b]] end
  end.
Definition nonempty (w : list Z) : bool := bool_decide (w <> []).
Definition words_of (t : list Z) : list (list Z) := List.filter nonempty (split_blanks t).
Definition newlines (t : list Z) : nat := length (List.filter (Z.eqb 10) t).

Lemma strchr_blanks b : exists o, strchr blanks b = Some o /\ (is_blank b = match o with Some _ => true | None => false end).
Proof.
  unfold is_blank, blanks. cbn [strchr]. change (32 =? 0) with false. change (13 =? 0) with false. change (9 =? 0) with false.
  change (10 =? 0) with false. change (11 =? 0) with false. change (0 =? 0) with true. cbv iota.
  repeat (match goal with |- context [?x =? b] => destruct (Z.eqb_spec x b) as [<-|?] end; [eexists; split; reflexivity|]).
  exists None. split; [done|]. apply bool_decide_false. set_solver.
Qed.

(** How many words begin in [t] when a word is going on or not. *)
Fixpoint begins (inw : bool) (t : list Z) : nat :=
  match t with
  | [] => O
  | b :: t' => if is_blank b then begins false t' else (if inw then O else 1%nat) + begins true t'
  end.

Lemma begins_words t inw :
  (begins inw t + (if inw && match split_blanks t with w :: _ => nonempty w | [] => false end then 1 else 0) = length (words_of t))%nat.
Proof.
  revert inw. induction t as [|b t IH]; intros inw; [by destruct inw|]. unfold words_of in *. cbn [begins split_blanks].
  destruct (is_blank b).
  - cbn [List.filter]. change (nonempty []) with false. cbv iota. rewrite andb_false_r. specialize (IH false). cbn in IH. lia.
  - specialize (IH true). destruct (split_blanks t) as [|w ws] eqn:Hs; [by destruct t; cbn in Hs; repeat case_match|].
    cbn [List.filter] in *. assert (E1 : nonempty (b :: w) = true) by done. rewrite E1, andb_true_r. cbn [andb length] in *.
    destruct inw, (nonempty w); cbn [length] in *; lia.
Qed.

Lemma begins_le inw d : (begins inw d <= length d)%nat.
Proof.
  revert inw. induction d as [|b d IH]; intros inw; cbn; [lia|].
  pose proof (IH true). pose proof (IH false). destruct (is_blank b), inw; lia.
Qed.

Lemma wc_bytes_spec d l w c inw :
  0 <= l -> 0 <= w -> 0 <= c -> c + Z.of_nat (length d) < 2 ^ 31 -> l <= c -> w <= c ->
  exists inw', wc_bytes (Counts l w c (if inw : bool then 1 else 0)) d =
    Some (Counts (l + Z.of_nat (newlines d)) (w + Z.of_nat (begins inw d)) (c + Z.of_nat (length d)) (if inw' : bool then 1 else 0)) /\
    forall e, begins inw (d ++ e) = (begins inw d + begins inw' e)%nat.
Proof.
  revert l w c inw. induction d as [|b d IH]; intros l w c inw Hl Hw Hc Hlen Hlc Hwc; cbn [wc_bytes].
  { exists inw. split; [cbn; f_equal; f_equal; lia|done]. }
  cbn [length] in Hlen. unfold wc_byte. destruct (strchr_blanks b) as (o & -> & Hb). cbn [wl ww wcs inword].
  unfold newlines in *. rewrite (s32_small (c + 1)) by lia. cbn [List.filter begins app]. rewrite Hb.
  set (l' := if b =? 10 then s32 (l + 1) else l).
  assert (Hl' : l' = l + Z.of_nat (if 10 =? b then 1 else 0) /\ 0 <= l' <= c + 1).
  { unfold l'. rewrite (Z.eqb_sym 10 b). destruct (b =? 10); [rewrite s32_small by lia|]; lia. }
  destruct Hl' as [El Hl']. destruct o as [o|]; [|destruct inw; [change (c_true 1) with true|change (c_true 0) with false]; cbv iota].
  - destruct (IH l' w (c + 1) false) as (i & E & Hi); [lia..|]. exists i. cbn in E. rewrite E, El. split; [destruct (10 =? b); cbn [length]; f_equal; f_equal; lia|done].
  - destruct (IH l' w (c + 1) true) as (i & E & Hi); [lia..|]. exists i. rewrite E, El. split; [destruct (10 =? b); cbn [length]; f_equal; f_equal; lia|done].
  - rewrite (s32_small (w + 1)) by lia. destruct (IH l' (w + 1) (c + 1) true) as (i & E & Hi); [lia..|]. exists i. rewrite E, El.
    split; [destruct (10 =? b); cbn [length]; f_equal; f_equal; lia|]. intros e. rewrite Hi. lia.
Qed.

Lemma wc_reads_spec ds l w c inw :
  Forall (fun d => 0 < length d <= 512)%nat ds -> 0 <= l <= c -> 0 <= w <= c -> c + Z.of_nat (length (concat ds)) < 2 ^ 31 ->
  exists i, wc_reads (Counts l w c (if inw : bool then 1 else 0)) (Some <$> ds) =
    Some (Some (Counts (l + Z.of_nat (newlines (concat ds))) (w + Z.of_nat (begins inw (concat ds))) (c + Z.of_nat (length (concat ds))) i)).
Proof.
  intros Hds. revert l w c inw. induction Hds as [|d ds Hd _ IH]; intros l w c inw Hl Hw Hlen; cbn [concat fmap list_fmap wc_reads].
  { eexists. cbn. do 3 f_equal; lia. }
  cbn [concat] in Hlen. rewrite length_app in Hlen. rewrite !decide_False by lia.
  destruct (wc_bytes_spec d l w c inw) as (i & E & Hb); [lia..|]. change (list_fmap _ _ Some ds) with (Some <$> ds). rewrite E.
  assert (Hn : (newlines d <= length d)%nat) by apply List.filter_length_le.
  pose proof (begins_le inw d) as Hbd.
  destruct (IH (l + Z.of_nat (newlines d)) (w + Z.of_nat (begins inw d)) (c + Z.of_nat (length d)) i) as (i' & E'); [lia..|].
  exists i'. rewrite E', Hb, length_app. unfold newlines. rewrite List.filter_app, length_app. do 3 f_equal; lia.
Qed.

(** wc prints the numbers of lines, words and bytes of its input, however the input is
    cut into reads. *)
Theorem wc_counts ds name :
  Forall (fun d => 0 < length d <= 512)%nat ds -> Z.of_nat (length (concat ds)) < 2 ^ 31 ->
  wc (Some <$> ds) name =
    (fun o => (o, true)) <$> printf wc_format [AWord (Z.of_nat (newlines (concat ds))); AWord (Z.of_nat (length (words_of (concat ds))));
                              AWord (Z.of_nat (length (concat ds))); AStr name].
Proof.
  intros Hds Hlen. unfold wc. destruct (wc_reads_spec ds 0 0 0 false Hds) as (i & E); [lia..|]. cbn in E. rewrite E. cbn [wl ww wcs].
  pose proof (begins_words (concat ds) false) as Hw. cbn [andb] in Hw. rewrite Nat.add_0_r in Hw. rewrite <-Hw.
  assert (Hn : (newlines (concat ds) <= length (concat ds))%nat) by apply List.filter_length_le.
  pose proof (begins_le false (concat ds)) as Hb.
  by rewrite !u32_small by lia.
Qed.

(** ** echo *)

Definition plain (s : list Z) : Prop := Forall (fun c => c <> 0) s.

Lemma put_str_plain s rest : plain s -> put_str (s ++ 0 :: rest) = Some s.
Proof. induction 1 as [|c s Hc _ IH]; [done|]. cbn [app put_str]. rewrite (proj2 (Z.eqb_neq c 0)) by done. by rewrite IH. Qed.

(** echo prints its arguments with a space between two of them and a newline at the
    end; without arguments it prints nothing. *)
Theorem echo_prints args :
  Forall plain args ->
  echo_main ((fun a => a ++ [0]) <$> args) =
    Some (match args with [] => [] | a :: args' => a ++ concat ((fun a => 32 :: a) <$> args') ++ [10] end).
Proof.
  induction 1 as [|a args Ha Hargs IH]; [done|]. cbn [fmap list_fmap echo_main]. change (list_fmap _ _ _ args) with ((fun a : list Z => a ++ [0]) <$> args).
  rewrite IH. destruct args as [|b args]; cbn [fmap list_fmap].
  - rewrite decide_True by done. cbn. rewrite put_str_plain by done. cbn. by rewrite app_nil_r.
  - rewrite decide_False by done. cbn. rewrite put_str_plain by done. cbn. by rewrite <-!app_assoc.
Qed.

(** ** fmtname *)

Lemma strlen_plain s rest : plain s -> strlen (s ++ 0 :: rest) = Some (length s).
Proof. induction 1 as [|c s Hc _ IH]; [done|]. cbn [app strlen]. rewrite (proj2 (Z.eqb_neq c 0)) by done. by rewrite IH. Qed.

Lemma after_slash_spec path k m :
  (m <= k)%nat -> (forall i, (m <= i <= k)%nat -> path !! i <> Some 47) -> m = O \/ path !! (m - 1)%nat = Some 47 -> after_slash path k = m.
Proof.
  induction k as [|k IH]; intros Hm Hno Hat; cbn [after_slash].
  - rewrite bool_decide_false by (apply Hno; lia). lia.
  - rewrite bool_decide_false by (apply Hno; lia). destruct (decide (m = S k)) as [->|Hne]; [|apply IH; [lia|intros; apply Hno; lia|done]].
    destruct Hat as [?|Hat]; [lia|]. replace (S k - 1)%nat with k in Hat by lia. destruct k as [|k]; cbn [after_slash]; by rewrite bool_decide_true.
Qed.

(** fmtname returns what follows the last slash, filled with blanks to 14 bytes. *)
Theorem fmtname_pads dir base rest buf z :
  plain (dir ++ base) -> 47 ∉ base -> dir = [] \/ last dir = Some 47 -> length buf = DIRSIZ ->
  fmtname (buf ++ [z]) ((dir ++ base) ++ 0 :: rest) =
    Some (if decide (DIRSIZ <= length base)%nat then (base ++ 0 :: rest, buf ++ [z])
          else (let b := base ++ replicate (DIRSIZ - length base) 32 ++ [z] in (b, b))).
Proof.
  intros Hp Hb Hd Hl. unfold fmtname. rewrite strlen_plain by done. cbn [mbind option_bind].
  rewrite (after_slash_spec _ _ (length dir)).
  - rewrite <-app_assoc, drop_app_length. apply Forall_app in Hp as [_ Hp]. rewrite strlen_plain by done. cbn [mbind option_bind].
    destruct (decide _) as [|Hs]; [done|]. rewrite take_app_length. unfold splice. unfold DIRSIZ in *.
    rewrite decide_True by (rewrite length_app; cbn; lia). cbn [mbind option_bind take app Nat.add].
    rewrite decide_True by (rewrite ?length_app, ?length_drop, ?length_replicate, ?length_app; cbn; lia). cbn [mbind option_bind].
    rewrite take_0, app_nil_l.
    rewrite take_app_length. rewrite length_replicate. replace (length base + (14 - length base))%nat with 14%nat by lia.
    rewrite drop_app_ge by lia. rewrite drop_drop. replace (length base + (14 - length base))%nat with 14%nat by lia. by rewrite <-Hl, drop_app_length.
  - rewrite length_app. lia.
  - intros i Hi. rewrite length_app in Hi. rewrite <-app_assoc, lookup_app_r by lia. intros Hx.
    destruct (decide (i - length dir < length base)%nat) as [Hlt|Hge].
    + rewrite lookup_app_l in Hx by done. by apply list_elem_of_lookup_2 in Hx.
    + replace (i - length dir)%nat with (length base) in Hx by lia. by rewrite lookup_app_r, Nat.sub_diag in Hx by lia.
  - destruct Hd as [->|Hd]; [by left|right]. rewrite <-app_assoc, lookup_app_l.
    + rewrite last_lookup in Hd. rewrite <-Hd. f_equal. lia.
    + destruct dir; [done|cbn; lia].
Qed.

(** ** cat *)

(** Reads of the chunks [ds], each of which is written whole. *)
Definition copied (ds : list (list Z)) : list (option (list Z) * Z) := (fun d => (Some d, Z.of_nat (length d))) <$> ds.
Definition chunks (ds : list (list Z)) : Prop := Forall (fun d => 0 < length d <= 512)%nat ds.

Lemma cat_copies ds : chunks ds -> cat (copied ds) = Some (concat ds, true).
Proof.
  induction 1 as [|d ds Hd _ IH]; [done|]. change (copied (d :: ds)) with ((Some d, Z.of_nat (length d)) :: copied ds). cbn [cat].
  rewrite !decide_False by lia. rewrite Z.eqb_refl, IH. done.
Qed.

(** cat prints the files it is given one after the other, or its input when there are
    none. *)
Theorem cat_prints (stdin : list (list Z)) (files : list (list Z * list (list Z))) :
  chunks stdin -> Forall (fun f => chunks f.2) files ->
  cat_main (copied stdin) ((fun f => (f.1, Some (copied f.2))) <$> files) = Some (match files with [] => concat stdin | _ => concat ((fun f => concat f.2) <$> files) end).
Proof.
  intros Hs Hf. destruct files as [|f files]; [change (fst <$> cat (copied stdin) = Some (concat stdin)); by rewrite cat_copies|]. cbn [cat_main fmap list_fmap].
  assert (E : cat_files ((fun f => (f.1, Some (copied f.2))) <$> (f :: files)) = Some (concat ((fun f => concat f.2) <$> (f :: files)))); [|exact E].
  revert Hf. generalize (f :: files) as l. induction 1 as [|[n ds] l Hd _ IH]; [done|]. cbn [fmap list_fmap cat_files fst snd]. rewrite cat_copies by done.
  change (list_fmap _ _ _ l) with ((fun f : list Z * list (list Z) => (f.1, Some (copied f.2))) <$> l). by rewrite IH.
Qed.

(** ** ls *)

(** A directory entry: inode number, name, and what stat says. *)
Record lsentry := Lsentry { le_inum : Z; le_name : list Z; le_stat : option lsstat }.

Definition entry_ok (e : lsentry) : Prop :=
  0 <= le_inum e < 2 ^ 16 /\ plain (le_name e) /\ (47 ∉ le_name e) /\ (length (le_name e) <= DIRSIZ)%nat.
Definition entry_bytes (e : lsentry) : list Z :=
  le_bytes 2 (le_inum e) ++ le_name e ++ replicate (DIRSIZ - length (le_name e)) 0.

(** What is printed for it. *)
Definition entry_line (path : list Z) (e : lsentry) : option (Z * list Z) :=
  pair 1 <$> match le_stat e with
             | None => printf (txt "ls: cannot stat %s" ++ [10; 0]) [AStr (path ++ 47 :: le_name e ++ [0])]
             | Some st => ls_line (le_name e ++ replicate (DIRSIZ - length (le_name e)) 32 ++ [0]) st
             end.

Lemma printf_str_ext fmt s s' args : put_str s = put_str s' -> printf (37 :: 115 :: fmt) (AStr s :: args) = printf (37 :: 115 :: fmt) (AStr s' :: args).
Proof.
  intros E. assert (H : forall x, print_conv 115 (AStr x :: args) = (fun o => (o, args)) <$> put_str x) by done.
  unfold printf. cbn [printf_loop]. change (37 =? 0) with false. change (37 =? 37) with true. change (115 =? 0) with false. cbv iota. by rewrite !H, E.
Qed.

Lemma printf_pre pre fmt args : Forall (fun c => c <> 0 /\ c <> 37) pre -> printf (pre ++ fmt) args = app pre <$> printf fmt args.
Proof.
  unfold printf. induction 1 as [|c pre [H0 H37] _ IH]; [change ([] ++ fmt) with fmt; by destruct (printf_loop fmt args false)|]. cbn [app printf_loop].
  rewrite (proj2 (Z.eqb_neq c 0)), (proj2 (Z.eqb_neq c 37)), IH by done. by destruct (printf_loop fmt args false).
Qed.

Lemma ls_line_ext s s' st : put_str s = put_str s' -> ls_line s st = ls_line s' st.
Proof. intros E. exact (printf_str_ext (txt " %d %d %d" ++ [10; 0]) s s' _ E). Qed.
Lemma cannot_stat_ext s s' : put_str s = put_str s' -> printf (txt "ls: cannot stat %s" ++ [10; 0]) [AStr s] = printf (txt "ls: cannot stat %s" ++ [10; 0]) [AStr s'].
Proof.
  intros E. change (txt "ls: cannot stat %s" ++ [10; 0]) with (txt "ls: cannot stat " ++ 37 :: 115 :: [10; 0]).
  rewrite !printf_pre by (by repeat constructor). f_equal. by apply printf_str_ext.
Qed.

(** The buffer with [path], a slash and the name of an entry in it. *)
Lemma entry_in_buf path e buf :
  entry_ok e -> (length path + 1 + DIRSIZ + 1 <= length buf)%nat -> take (length path + 1) buf = path ++ [47] ->
  exists b1 buf' rest, splice (length path + 1) (drop 2 (entry_bytes e)) buf = Some b1 /\ splice (length path + 1 + DIRSIZ) [0] b1 = Some buf' /\
    buf' = path ++ 47 :: le_name e ++ 0 :: rest /\ length buf' = length buf.
Proof.
  intros (_ & _ & _ & Hl) Hb Ht. set (nm := le_name e ++ replicate (DIRSIZ - length (le_name e)) 0).
  change (drop 2 (entry_bytes e)) with nm. assert (Hnm : length nm = DIRSIZ) by (unfold nm; rewrite length_app, length_replicate; lia).
  assert (E1 : splice (length path + 1) nm buf = Some ((path ++ [47]) ++ nm ++ drop (length path + 1 + DIRSIZ) buf)).
  { unfold splice. rewrite decide_True by lia. by rewrite Ht, Hnm. }
  set (b1 := (path ++ [47]) ++ nm ++ drop (length path + 1 + DIRSIZ) buf) in *. pose proof (splice_length _ _ _ _ E1) as L1.
  destruct (splice_some (length path + 1 + DIRSIZ) [0] b1) as [buf' E2]; [cbn; lia|]. pose proof (splice_length _ _ _ _ E2) as L2.
  exists b1, buf', (replicate (DIRSIZ - length (le_name e)) 0 ++ drop (length path + 1 + DIRSIZ + 1) b1). split_and!; [done|done| |lia].
  unfold splice in E2. rewrite decide_True in E2 by (cbn; lia). injection E2 as <-. cbn [length].
  assert (Htk : take (length path + 1 + DIRSIZ) b1 = path ++ 47 :: nm).
  { unfold b1. rewrite (app_assoc (path ++ [47])), take_app_le by (rewrite !length_app, Hnm; cbn; lia).
    rewrite take_ge by (rewrite !length_app, Hnm; cbn; lia). by rewrite <- app_assoc. }
  rewrite Htk. unfold nm. rewrite <- !app_assoc. cbn [app]. rewrite <- !app_assoc. do 3 f_equal.
  rewrite (cons_middle 0), (app_assoc _ [0]), <- replicate_cons_app. done.
Qed.

Lemma fmtname_entry path e buf fbuf rest st :
  plain path -> entry_ok e -> length fbuf = DIRSIZ -> buf = path ++ 47 :: le_name e ++ 0 :: rest ->
  exists nm fb, fmtname (fbuf ++ [0]) buf = Some (nm, fb ++ [0]) /\ length fb = DIRSIZ /\
    ls_line nm st = ls_line (le_name e ++ replicate (DIRSIZ - length (le_name e)) 32 ++ [0]) st.
Proof.
  intros Hp (_ & Hpl & Hns & Hl) Hf ->. replace (path ++ 47 :: le_name e ++ 0 :: rest) with (((path ++ [47]) ++ le_name e) ++ 0 :: rest) by (by rewrite <- !app_assoc).
  rewrite fmtname_pads; [|repeat apply Forall_app_2; by repeat constructor|done|right; by rewrite last_snoc|done].
  destruct (decide (DIRSIZ <= length (le_name e))%nat) as [Hd|Hd].
  - eexists _, fbuf. split_and!; [reflexivity|done|]. apply ls_line_ext. replace (DIRSIZ - length (le_name e))%nat with 0%nat by lia. cbn [replicate app].
    by rewrite !put_str_plain.
  - exists (le_name e ++ replicate (DIRSIZ - length (le_name e)) 32 ++ [0]), (le_name e ++ replicate (DIRSIZ - length (le_name e)) 32). split_and!; [by rewrite <- app_assoc| |done].
    rewrite length_app, length_replicate. lia.
Qed.

Lemma ls_entries_run path es : plain path -> Forall entry_ok es -> forall fbuf z buf,
  length fbuf = DIRSIZ -> z = 0 -> (length path + 1 + DIRSIZ + 1 <= length buf)%nat -> take (length path + 1) buf = path ++ [47] ->
  fst <$> ls_entries (fbuf ++ [z]) buf (length path + 1) ((fun e => (entry_bytes e, le_stat e)) <$> es) =
  mapM (entry_line path) (filter (fun e => le_inum e <> 0) es).
Proof.
  intros Hp. induction 1 as [|e es He _ IH]; intros fbuf z buf Hf -> Hb Ht; [done|].
  rewrite fmap_cons. cbn [ls_entries]. assert (Hl16 : length (entry_bytes e) = 16%nat).
  { destruct He as (_ & _ & _ & Hl). unfold entry_bytes. rewrite !length_app, length_replicate. change (length (le_bytes 2 _)) with 2%nat. unfold DIRSIZ in *. lia. }
  rewrite decide_False by lia. assert (Hin : ld 2 0 (entry_bytes e) = Some (le_inum e)).
  { unfold ld, sub. rewrite decide_True by lia. rewrite drop_0. change (take 2 (entry_bytes e)) with (le_bytes 2 (le_inum e)).
    cbn [fmap option_fmap option_map]. rewrite le_value_bytes. destruct He as ((? & ?) & _). by rewrite Z.mod_small. }
  rewrite Hin. cbn [mbind option_bind]. destruct (Z.eqb_spec (le_inum e) 0) as [E0|E0].
  { rewrite filter_cons_False by naive_solver. by apply IH. }
  rewrite filter_cons_True by done. destruct (entry_in_buf path e buf He Hb Ht) as (b1 & buf' & rest & E1 & E2 & Eb & Lb).
  rewrite E1. cbn [mbind option_bind]. rewrite E2. cbn [mbind option_bind mapM].
  assert (Ht' : take (length path + 1) buf' = path ++ [47]).
  { rewrite Eb, cons_middle, app_assoc. apply take_app_length'. rewrite length_app. done. }
  assert (Hline : entry_line path e = entry_line path e) by done. unfold entry_line in Hline at 2. rewrite Hline. clear Hline.
  destruct (le_stat e) as [st|].
  - destruct (fmtname_entry path e buf' fbuf rest st Hp He Hf Eb) as (nm & fb & -> & Lf & El). cbn [mbind option_bind fst snd]. rewrite El.
    destruct (ls_line (le_name e ++ _) st) as [o|]; [|done]. cbn [mbind option_bind fmap option_fmap option_map].
    rewrite <- (IH fb 0 buf' Lf eq_refl) by (done || lia). by destruct (ls_entries _ _ _ _) as [[? ?]|].
  - rewrite (cannot_stat_ext _ (path ++ 47 :: le_name e ++ [0])).
    + destruct (printf _ _) as [o|]; [|done]. cbn [mbind option_bind fmap option_fmap option_map].
      rewrite <- (IH fbuf 0 buf' Hf eq_refl) by (done || lia). by destruct (ls_entries _ _ _ _) as [[? ?]|].
    + rewrite Eb. destruct He as (_ & Hpl & _ & _). assert (Hq : plain (path ++ 47 :: le_name e)) by (apply Forall_app_2; [done|by constructor]).
      assert (Ha : forall r, path ++ 47 :: le_name e ++ 0 :: r = (path ++ 47 :: le_name e) ++ 0 :: r) by (intros; by rewrite <- app_assoc).
      by rewrite !Ha, !put_str_plain.
Qed.

(** ls of a directory prints one line per entry that is in use, in order: the name
    filled with blanks to 14 bytes, type, inode number and size. *)
Theorem ls_lists path es fbuf buf st :
  plain path -> Forall entry_ok es -> length fbuf = DIRSIZ -> st_type st = T_DIR -> (length path + 1 + DIRSIZ + 1 <= length buf)%nat ->
  fst <$> ls (fbuf ++ [0]) (path ++ [0]) buf (Some (Some st)) ((fun e => (entry_bytes e, le_stat e)) <$> es) =
  mapM (entry_line path) (filter (fun e => le_inum e <> 0) es).
Proof.
  intros Hp He Hf Ht Hb. unfold ls. rewrite Ht. change (T_DIR =? T_FILE) with false. change (T_DIR =? T_DIR) with true. cbv iota.
  rewrite strlen_plain by done. cbn [mbind option_bind]. rewrite decide_False by lia. rewrite take_ge by (rewrite length_app; simpl; lia).
  set (d := drop (length path + 1) buf).
  assert (E1 : splice 0 (path ++ [0]) buf = Some (path ++ 0 :: d)).
  { unfold splice. rewrite length_app. cbn [length]. rewrite decide_True by lia. rewrite take_0, app_nil_l, <- app_assoc. done. }
  pose proof (splice_length _ _ _ _ E1) as L1. rewrite E1. cbn [mbind option_bind]. rewrite strlen_plain by done. cbn [mbind option_bind].
  assert (E2 : splice (length path) [47] (path ++ 0 :: d) = Some (path ++ 47 :: d)).
  { unfold splice. rewrite decide_True by (rewrite length_app; simpl; lia). rewrite take_app_length. do 2 f_equal. cbn [app length]. f_equal.
    rewrite drop_app_ge by lia. by replace (length path + 1 - length path)%nat with 1%nat by lia. }
  rewrite E2. cbn [mbind option_bind]. apply ls_entries_run; try done.
  - rewrite length_app in *. simpl in *. lia.
  - rewrite cons_middle, app_assoc. apply take_app_length'. by rewrite length_app.
Qed.
